(* ===== verification/_CoqProject ===== *)
-Q . S2P
Prelude.v
Types.v
Opcodes.v
Ir.v
Builder.v
IrSem.v
Optimize.v
OptimizeSound.v
Liveness.v
PassLabels.v
Serialize.v
Tb.v
CodeBuffer.v
TbStore.v
Chain.v
Exec.v
X86Regs.v
Constraint.v
X86Emit.v
HostCodeGen.v
X86CodeGen.v
Emission.v
RegAlloc.v
X86Isa.v
X86EmitSound.v
X86OpSound.v
X86MemSound.v
X86Frame.v
Frontend.v
RiscvCpu.v
RiscvGen.v
RiscvTrans.v
RiscvSem.v
RiscvWp.v
RiscvRules.v
RiscvInt.v
RiscvFp.v
RiscvSound.v
RiscvTb.v
RiscvLabels.v
RiscvBlock.v
Fpu.v
FpuSound.v
Text.v
Dump.v
DecodeTool.v
DecodeBits.v
Generated.v
Encoding.v
RiscvDecode.v
Disas.v
DisasSound.v
GuestSpace.v
Elf.v
Loader.v
LoaderSound.v
Syscall.v
SyscallSound.v
Engine.v
EngineSound.v
Linux.v
LinuxSound.v
