(* ===== verification/Prelude.v ===== *)
(** * tcg-rs: a verification library

    tcg-rs translates RISC-V user-mode programs to x86-64 while they run.  Guest code
    becomes IR (frontend, with decoders that decode generates), the IR is optimized, its
    liveness is computed, registers are allocated and host code is emitted (backend), and the
    execution engine finds, runs and chains the resulting blocks (exec); linux-user loads
    programs and serves their system calls; core holds the IR, the blocks, and the binary and
    the text format of the IR.  Paths below are those of the source files, in each case
    under src/.

    ** The parts

    - Prelude.v: machine integers as [Z], slices whose indexing may panic, the
      [tcg] hint databases and tactics, little-endian bytes.
    - core.  Types.v (core/src/types.rs), Opcodes.v (opcode.rs: the table, entry by
      entry), Ir.v (temp.rs, label.rs, op.rs, context.rs: [Context] and its methods, the
      invariant [wf_context]), Builder.v (ir_builder.rs: one definition per [gen_*]
      method), Serialize.v (serialize.rs: writers and readers), Dump.v (dump.rs), Tb.v
      (tb.rs: [TranslationBlock], exit codes, [JumpCache]).
    - IrSem.v: what an IR block means ([run]); operations outside the interpreted set
      are a parameter [ext], a function of opcode, inputs and world.
    - backend, the passes.  Optimize.v and OptimizeSound.v (optimize.rs), Liveness.v
      (liveness.rs), PassLabels.v (neither touches labels), RegAlloc.v (regalloc.rs: in a
      state monad over context, allocator state, generator and buffer).
    - backend, the host.  CodeBuffer.v (code_buffer.rs and the patchable jumps of
      x86_64/emitter.rs), X86Regs.v (regs.rs), Constraint.v (constraint.rs and
      x86_64/constraints.rs), X86Emit.v (emitter.rs), HostCodeGen.v (the trait of lib.rs),
      X86CodeGen.v (codegen.rs).  Emission.v shows that emission only appends.
    - the theorems on the host: X86Isa.v (a reference for the instructions: decoder and
      effect, after the manual), X86EmitSound.v (emitters), X86OpSound.v and X86MemSound.v
      (the lowering of ops), X86Frame.v (prologue and epilogue).
    - exec.  TbStore.v (tb_store.rs: the hash table of blocks), Chain.v ([invalidate]:
      the edges between blocks and the jumps in the code buffer), Exec.v (lib.rs and
      exec_loop.rs: [tb_find], [tb_gen_code], [tb_add_jump], the loop; backend's
      translate.rs), Engine.v ([ExecEnv::new]; the allocator behind [translate]),
      EngineSound.v (the allocator over any lawful generator is what the loop relies on).
    - frontend.  Frontend.v (frontend/src/lib.rs: the [TranslatorOps] trait as a class and
      [translator_loop]), RiscvCpu.v (riscv/cpu.rs, ext.rs), RiscvGen.v and RiscvTrans.v
      (riscv/trans.rs: 33 helpers, 155 + 29 translation functions), RiscvTb.v
      (riscv/mod.rs, and [LinuxCpu] of linux-user/src/main.rs), Fpu.v (riscv/fpu.rs: the
      helpers that floating-point instructions call).
    - the theorems on the frontend: RiscvSem.v (the reference semantics of RV64IMAFD with
      Zicsr), RiscvWp.v and RiscvRules.v (a program logic for functions that emit IR),
      RiscvInt.v, RiscvFp.v and RiscvSound.v (each instruction), RiscvLabels.v,
      RiscvBlock.v (blocks), FpuSound.v (the helpers).
    - decode.  Text.v (what is used of Rust's strings), DecodeTool.v (decode/src/lib.rs:
      the parser of .decode files and the text it generates), DecodeBits.v, Generated.v (what
      the generated text means), Encoding.v (encodings, and running a decoder on their symbolic
      bits), RiscvDecode.v (insn32.decode and insn16.decode, and the decoders made from them).
    - disas.  Disas.v (disas/src/riscv.rs) and DisasSound.v.
    - linux-user.  GuestSpace.v (guest_space.rs), Elf.v (elf.rs), Loader.v (loader.rs) and
      LoaderSound.v, Syscall.v (syscall.rs) and SyscallSound.v, Linux.v (main.rs) and
      LinuxSound.v (the emulator as it is put together).

    A Rust [enum] is an inductive type and a [struct] a record, in a module of the
    same name when its members need one.  A method that mutates returns the new value; a
    panic is [None].  Debug-only overflow checks are off, as in a release build:
    arithmetic wraps at its width.

    ** Where the parts meet

    - [JumpCode] (CodeBuffer.v): what block chaining needs of a code generator, sites of
      jumps that can be retargeted one at a time; the x86-64 instance is proved from
      the bytes emitted.  Chain.v is proved against the class.
    - [HostCodeGen] (HostCodeGen.v), the trait, and [HostCodeGenLaws] (Emission.v), what a
      generator promises to the allocator: it appends, and its patchable jumps are sites.
      RegAlloc.v and EngineSound.v use the classes; the x86-64 instances are in X86CodeGen.v
      and Emission.v.
    - [TranslatorOps] and [TranslatorLaws] (Frontend.v): what an architecture gives the
      translation loop, and the laws under which the loop terminates; instances in RiscvTb.v.
    - [GuestCpu] (Exec.v): what the engine needs of the guest; the instance of
      linux-user is in Linux.v.
    - [Decoder] (RiscvTb.v): what the translator needs of the decoders; the generated ones
      are the instance of RiscvDecode.v.
    - [ext] of IrSem.v: RiscvSem.v gives it a meaning for the operations the frontend
      emits (guest memory, CPU struct, calls, divisions), RiscvBlock.v composes
      translation with the optimizer through it.
    - [Libc] and [LibcLaws] (GuestSpace.v): the C library and kernel.  [HostFloat] and
      [HostFloatLaws] (Fpu.v, FpuSound.v): fenv.h, libm and the arithmetic of the host.  Each
      has an instance that the witnesses use.

    ** What is shown

    - Data: register sets are sets, conditions invert and swap, the opcode table is
      consistent, exit codes round-trip, the CPU offsets are the layout of the struct,
      serialization round-trips and damaged input is rejected, what is read back has the same
      text.
    - Invariants: every sequence of calls keeps [wf_context]; builder calls append
      complete ops; the block store refines a list of registered blocks.
    - The optimizer preserves runs of every block with a certificate ([disciplined],
      decidable); counterexamples show what it does to others.  Liveness marks dead
      exactly what is not read again, and dead values are unobservable in blocks
      whose locals do not cross labels.
    - The host: each emitter writes the bytes of the instruction it names, the lowering of an
      op computes what the op means when its operands meet the constraints, branches lead to
      their labels, prologue and epilogue save and restore; the arms that do not are listed.
    - The frontend: each instruction's IR has the effect of the reference semantics where
      the translation follows the manual ([agrees]; an SC without reservation and 32-bit AMO
      minima and maxima are what it leaves out), a block's IR refines the reference machine
      under the same condition, also after the optimizer; translation terminates, on any
      code, without panic.  The floating-point helpers touch nothing but the flags;
      comparisons, and conversions to integers but for ties in rounding mode RMM, are those
      of the ISA.
    - The decoders: the generated text means the patterns of the file; the RISC-V decoders
      invert the encodings of the manual and expand compressed instructions.  The
      disassembler shows the same encodings as their assembly, but for five offsets.
    - The engine: [tb_find] returns the valid block of a key or a new one; invalidation
      leaves no way into a block; after any number of turns every jump of a valid block
      leads to valid code and the loop does not panic outside of translation, also for the
      emulator as it is put together.
    - linux-user: ELF headers round-trip, the image of a loaded program and its stack are
      what the psABI says, a system call writes only where it may, the regions that
      [mmap] returns when it is given no hint do not overlap.

    ** Bounds and fuel

    The translation loop gets [max 1 max_insns] as fuel, the most instructions it can
    translate; [translate_loop_total] shows it never runs out.  The frontend theorems hold
    for [max_insns] up to [2^20] (the engine asks for at most 512): an instruction adds
    at most 72 temps, so indices stay within [u32].  [run] is given more fuel than the
    block has ops, which is enough because the blocks jump forwards.  Walks of a hash
    chain get the number of blocks; [Rep] shows chains are not longer.  The loops of the
    execution engine and of [main] have no bound, since the guest program decides when they
    end: the theorems speak of every number of turns.

    ** Not modelled

    - The host processor on a whole block of generated code: [run] of Exec.v and Linux.v is a
      parameter, of which only the exit value is assumed to be one the translator made.  The
      parts of that code are executed in X86Isa.v, op by op; that the registers the allocator
      chooses hold the values of the temps is not proved (the findings say where they do not).
    - Rounding arithmetic of floats and libm: parameters of Fpu.v.
    - tools: command lines around the libraries, which read files and print.
    - Threads: locks and atomics are sequential steps.  Faults of memory accesses, alignment.
    - Messages on standard error and the printing of statistics. *)

From stdpp Require Export base tactics numbers option list gmap strings.

#[global] Open Scope Z_scope.

(** ** Machine integers

    A Rust [uN] value is a [Z] in [[0, 2^N)]; [as uN] casts, wrapping
    arithmetic and [!x] are written out with [mod]. *)

Definition u8 (x : Z) : Z := x mod 2 ^ 8.
Definition u16 (x : Z) : Z := x mod 2 ^ 16.
Definition u32 (x : Z) : Z := x mod 2 ^ 32.
Definition u64 (x : Z) : Z := x mod 2 ^ 64.

(** [signed w x]: the two's complement reading of the low [w] bits of [x]
    (Rust's [as iN]). *)
Definition signed (w x : Z) : Z :=
  let r := x mod 2 ^ w in
  if r <? 2 ^ (w - 1) then r else r - 2 ^ w.

Definition i32 (x : Z) : Z := signed 32 x.
Definition i64 (x : Z) : Z := signed 64 x.

(** The range of a [w]-bit unsigned integer. *)
Definition in_width (w x : Z) : Prop := 0 ≤ x < 2 ^ w.

#[global] Instance in_width_dec w x : Decision (in_width w x).
Proof. unfold in_width. apply _. Defined.

(** ** Vectors and slices: [v[i]] and [v[i] = x] panic out of range.

    A panic is [None] of the option monad. *)

Definition zlookup {A} (l : list A) (i : Z) : option A :=
  if (0 <=? i) && (i <? Z.of_nat (length l)) then l !! Z.to_nat i else None.

Definition zinsert {A} (l : list A) (i : Z) (x : A) : option (list A) :=
  if (0 <=? i) && (i <? Z.of_nat (length l)) then Some (<[Z.to_nat i := x]> l)
  else None.

(** [v.len()] as an integer. *)
Definition zlen {A} (l : list A) : Z := Z.of_nat (length l).

Declare Scope tcg_scope.
Delimit Scope tcg_scope with tcg.
Notation "l .[ i ]" := (zlookup l i) (at level 1, format "l .[ i ]") : tcg_scope.
#[global] Open Scope tcg_scope.

(** [assert!(b)] *)
Notation "'assert!' b ; k" := (if b then k else None)
  (at level 10, b at level 100, k at level 200) : tcg_scope.

(** ** Automation *)

(** The function at the head of a term. *)
Ltac head_of t := lazymatch t with ?f _ => head_of f | _ => t end.

Create HintDb tcg discriminated.
Create Rewrite HintDb tcg_rw.

Ltac des :=
  repeat match goal with
  | H : _ ∧ _ |- _ => destruct H
  | H : ∃ _, _ |- _ => destruct H
  | H : (_, _) = (_, _) |- _ => injection H as ?; subst
  | H : Some _ = Some _ |- _ => injection H as ?; subst
  | H : None = Some _ |- _ => discriminate H
  | H : Some _ = None |- _ => discriminate H
  end.

(** Case analysis on the discriminee of a [match] or [if] of the goal or of a
    hypothesis. *)
Ltac case_goal :=
  match goal with
  | |- context [match ?x with _ => _ end] => destruct x eqn:?
  end.

Ltac case_in H :=
  match type of H with
  | context [match ?x with _ => _ end] => destruct x eqn:?
  end.

(** Turn boolean comparisons of the context into propositions. *)
Ltac boolp :=
  repeat match goal with
  | H : andb _ _ = true |- _ => apply andb_prop in H; destruct H
  | H : orb _ _ = false |- _ => apply orb_false_elim in H; destruct H
  | H : negb _ = true |- _ => apply negb_true_iff in H
  | H : negb _ = false |- _ => apply negb_false_iff in H
  | H : (_ <? _) = true |- _ => apply Z.ltb_lt in H
  | H : (_ <? _) = false |- _ => apply Z.ltb_ge in H
  | H : (_ <=? _) = true |- _ => apply Z.leb_le in H
  | H : (_ <=? _) = false |- _ => apply Z.leb_gt in H
  | H : (_ =? _) = true |- _ => apply Z.eqb_eq in H
  | H : (_ =? _) = false |- _ => apply Z.eqb_neq in H
  | H : bool_decide _ = true |- _ => apply bool_decide_eq_true in H
  | H : bool_decide _ = false |- _ => apply bool_decide_eq_false in H
  end.

(** ** Lemmas on machine integers *)

Lemma pow2_pos w : 0 ≤ w → 0 < 2 ^ w.
Proof. intros. apply Z.pow_pos_nonneg; lia. Qed.

Lemma mod_in_width w x : 0 ≤ w → in_width w (x mod 2 ^ w).
Proof. intros. apply Z.mod_pos_bound, pow2_pos; lia. Qed.

Lemma mod_small_width w x : in_width w x → x mod 2 ^ w = x.
Proof. apply Z.mod_small. Qed.

Lemma in_width_mono w w' x : 0 ≤ w ≤ w' → in_width w x → in_width w' x.
Proof.
  unfold in_width. intros Hw [? ?]. split; [lia|].
  pose proof (Z.pow_le_mono_r 2 w w'). lia.
Qed.

Lemma u32_range x : 0 ≤ u32 x < 2 ^ 32.
Proof. apply (mod_in_width 32). lia. Qed.

Lemma u32_small x : 0 ≤ x < 2 ^ 32 → u32 x = x.
Proof. apply (mod_small_width 32). Qed.

Lemma u64_small x : 0 ≤ x < 2 ^ 64 → u64 x = x.
Proof. apply (mod_small_width 64). Qed.

Lemma land_ones_mod w x : 0 ≤ w → Z.land x (2 ^ w - 1) = x mod 2 ^ w.
Proof. intros. rewrite <- Z.land_ones by lia. f_equal. rewrite Z.ones_equiv. lia. Qed.

Lemma mod_mod_pow2 a w w' : 0 ≤ w ≤ w' → (a mod 2 ^ w') mod 2 ^ w = a mod 2 ^ w.
Proof.
  intros. apply Z.bits_inj'. intros n Hn.
  destruct (decide (n < w)).
  - rewrite !Z.mod_pow2_bits_low by lia. done.
  - rewrite !Z.mod_pow2_bits_high by lia. done.
Qed.

Lemma mod_mod_pow2_ge a w w' : 0 ≤ w ≤ w' → (a mod 2 ^ w) mod 2 ^ w' = a mod 2 ^ w.
Proof.
  intros. apply mod_small_width, (in_width_mono w); [lia|]. apply mod_in_width. lia.
Qed.

(** Bounds and sums from bits. *)
Lemma land_mod_l w x y : 0 ≤ w → Z.land (x mod 2 ^ w) y mod 2 ^ w = Z.land (x mod 2 ^ w) y.
Proof.
  intros Hw. apply Z.bits_inj'. intros n Hn. destruct (decide (n < w)).
  - by rewrite Z.mod_pow2_bits_low by lia.
  - by rewrite Z.land_spec, !Z.mod_pow2_bits_high by lia.
Qed.

Lemma land_in_width w x y : 0 ≤ w → in_width w x → in_width w (Z.land x y).
Proof.
  intros Hw Hx. rewrite <- (mod_small_width w x) by done. rewrite <- land_mod_l by done.
  by apply mod_in_width.
Qed.

Lemma lxor_in_width w x y : 0 ≤ w → in_width w x → in_width w y → in_width w (Z.lxor x y).
Proof.
  intros Hw Hx Hy. rewrite <- (mod_small_width w x), <- (mod_small_width w y) by done.
  assert (Z.lxor (x mod 2 ^ w) (y mod 2 ^ w) = Z.lxor x y mod 2 ^ w) as ->;
    [|by apply mod_in_width].
  apply Z.bits_inj'. intros n Hn. destruct (decide (n < w)).
  - by rewrite Z.lxor_spec, !Z.mod_pow2_bits_low, Z.lxor_spec by lia.
  - by rewrite Z.lxor_spec, !Z.mod_pow2_bits_high by lia.
Qed.

Lemma lor_in_width w x y : 0 ≤ w → in_width w x → in_width w y → in_width w (Z.lor x y).
Proof.
  intros Hw Hx Hy. rewrite <- (mod_small_width w x), <- (mod_small_width w y) by done.
  assert (Z.lor (x mod 2 ^ w) (y mod 2 ^ w) = Z.lor x y mod 2 ^ w) as ->;
    [|by apply mod_in_width].
  apply Z.bits_inj'. intros n Hn. destruct (decide (n < w)).
  - by rewrite Z.lor_spec, !Z.mod_pow2_bits_low, Z.lor_spec by lia.
  - by rewrite Z.lor_spec, !Z.mod_pow2_bits_high by lia.
Qed.

Lemma lor_add_low k x y : 0 ≤ k → in_width k y → x mod 2 ^ k = 0 → Z.lor x y = x + y.
Proof.
  intros Hk Hy Hx. rewrite <- Z.add_lor_land.
  assert (Z.land x y = 0) as ->; [|lia].
  apply Z.bits_inj'. intros n Hn. rewrite Z.land_spec, Z.bits_0. destruct (decide (n < k)).
  - by rewrite <- (Z.mod_pow2_bits_low x k), Hx, Z.bits_0 by lia.
  - rewrite <- (mod_small_width k y Hy), (Z.mod_pow2_bits_high y k) by lia. apply andb_false_r.
Qed.

Lemma signed_range w x : 0 < w → - 2 ^ (w - 1) ≤ signed w x < 2 ^ (w - 1).
Proof.
  intros. unfold signed.
  pose proof (mod_in_width w x ltac:(lia)) as [? ?].
  assert (2 ^ w = 2 * 2 ^ (w - 1)) by (rewrite <- Z.pow_succ_r by lia; f_equal; lia).
  case_match; boolp; lia.
Qed.

Lemma signed_mod w x : 0 < w → signed w x mod 2 ^ w = x mod 2 ^ w.
Proof.
  intros. unfold signed. case_match.
  - rewrite Z.mod_mod; [done|]. pose proof (pow2_pos w). lia.
  - replace (x mod 2 ^ w - 2 ^ w) with (x mod 2 ^ w + (-1) * 2 ^ w) by lia.
    rewrite Z.mod_add, Z.mod_mod by (pose proof (pow2_pos w); lia). done.
Qed.

Lemma signed_of_mod w x : 0 < w → signed w (x mod 2 ^ w) = signed w x.
Proof.
  intros. unfold signed. rewrite Z.mod_mod by (pose proof (pow2_pos w); lia). done.
Qed.

Lemma signed_small w x : 0 < w → - 2 ^ (w - 1) ≤ x < 2 ^ (w - 1) → signed w x = x.
Proof.
  intros Hw Hx. assert (2 ^ w = 2 * 2 ^ (w - 1)) by (rewrite <- Z.pow_succ_r by lia; f_equal; lia).
  unfold signed. destruct (decide (0 ≤ x)).
  - rewrite Z.mod_small by lia. by rewrite (proj2 (Z.ltb_lt _ _)) by lia.
  - assert (x mod 2 ^ w = x + 2 ^ w) as ->
      by (symmetry; apply (Z.mod_unique_pos _ _ (-1)); lia).
    rewrite (proj2 (Z.ltb_ge _ _)) by lia. lia.
Qed.

(** Equality of integers by testing each bit. *)
#[export] Hint Rewrite Z.land_spec Z.lor_spec Z.lxor_spec Z.ldiff_spec
  Z.testbit_0_l andb_false_r andb_false_l andb_true_r andb_true_l
  orb_false_r orb_false_l orb_true_r orb_true_l xorb_false_r xorb_false_l
  : tcg_rw.
#[export] Hint Rewrite Z.shiftr_spec Z.shiftl_spec Z.lnot_spec
  Z.mod_pow2_bits_low Z.mod_pow2_bits_high using lia : tcg_rw.

(** ** Lemmas on vectors *)

Section vectors.
Context {A : Type}.
Implicit Types (l : list A) (i : Z) (x : A).

Lemma zlookup_nat l i : 0 ≤ i → l.[i] = l !! Z.to_nat i.
Proof.
  intros. unfold zlookup. case_match eqn:E; [done|].
  symmetry. apply lookup_ge_None. apply andb_false_iff in E as [?|?]; boolp; lia.
Qed.

Lemma zlookup_of_nat l (n : nat) : l.[Z.of_nat n] = l !! n.
Proof. rewrite zlookup_nat by lia. by rewrite Nat2Z.id. Qed.

Lemma zlookup_Some l i x : l.[i] = Some x ↔ 0 ≤ i ∧ l !! Z.to_nat i = Some x.
Proof.
  split.
  - intros H. unfold zlookup in H. case_match eqn:E; [|done]. boolp. done.
  - intros [? ?]. by rewrite zlookup_nat.
Qed.

Lemma zlookup_lt_Some l i x : l.[i] = Some x → 0 ≤ i < zlen l.
Proof.
  rewrite zlookup_Some. intros [? ?%lookup_lt_Some]. unfold zlen. lia.
Qed.

Lemma zlookup_lt_is_Some l i : is_Some (l.[i]) ↔ 0 ≤ i < zlen l.
Proof.
  split; [intros [? ?]; by eapply zlookup_lt_Some|].
  intros. unfold zlen in *. rewrite zlookup_nat by lia. apply lookup_lt_is_Some. lia.
Qed.

Lemma zlookup_None l i : l.[i] = None ↔ i < 0 ∨ zlen l ≤ i.
Proof.
  rewrite eq_None_not_Some, zlookup_lt_is_Some. lia.
Qed.

Lemma zlookup_app_l l l' i : i < zlen l → (l ++ l').[i] = l.[i].
Proof.
  intros. destruct (decide (0 ≤ i)).
  - unfold zlen in *. rewrite !zlookup_nat, lookup_app_l by lia. done.
  - transitivity (@None A); [|symmetry]; apply zlookup_None; lia.
Qed.

Lemma zlookup_app_Some l l' i x : l.[i] = Some x → (l ++ l').[i] = Some x.
Proof.
  intros H. rewrite zlookup_app_l; [done|]. apply zlookup_lt_Some in H. lia.
Qed.

Lemma zlookup_snoc l x : (l ++ [x]).[zlen l] = Some x.
Proof. unfold zlen. rewrite zlookup_of_nat. by rewrite list_lookup_middle. Qed.

Lemma zlookup_snoc_Some l x i y :
  (l ++ [x]).[i] = Some y ↔ l.[i] = Some y ∨ (i = zlen l ∧ y = x).
Proof.
  split.
  - intros H. pose proof (zlookup_lt_Some _ _ _ H) as Hi.
    unfold zlen in Hi. rewrite length_app in Hi. simpl in Hi.
    destruct (decide (i = zlen l)) as [->|].
    + rewrite zlookup_snoc in H. clear Hi. naive_solver.
    + rewrite zlookup_app_l in H by (unfold zlen in *; lia). auto.
  - intros [?|[-> ->]]; [by apply zlookup_app_Some | apply zlookup_snoc].
Qed.

Lemma zlen_app l l' : zlen (l ++ l') = zlen l + zlen l'.
Proof. unfold zlen. rewrite length_app. lia. Qed.

Lemma zlen_one x : zlen [x] = 1.
Proof. done. Qed.

Lemma zlen_nonneg l : 0 ≤ zlen l.
Proof. unfold zlen. lia. Qed.

Lemma zinsert_Some l i x l' :
  zinsert l i x = Some l' ↔ 0 ≤ i < zlen l ∧ l' = <[Z.to_nat i := x]> l.
Proof.
  unfold zinsert, zlen. split.
  - intros H. case_match eqn:E; [|done]. boolp. naive_solver lia.
  - intros [? ->]. rewrite (proj2 (andb_true_iff _ _)); [done|].
    split; [apply Z.leb_le|apply Z.ltb_lt]; lia.
Qed.

Lemma zlookup_insert_eq l i x : 0 ≤ i < zlen l → (<[Z.to_nat i := x]> l).[i] = Some x.
Proof.
  intros. rewrite zlookup_nat by lia. apply list_lookup_insert_eq. unfold zlen in *. lia.
Qed.

Lemma zlookup_insert_ne l i j x : 0 ≤ i → i ≠ j → (<[Z.to_nat i := x]> l).[j] = l.[j].
Proof.
  intros. destruct (decide (0 ≤ j)).
  - rewrite !zlookup_nat by lia. apply list_lookup_insert_ne. lia.
  - transitivity (@None A); [|symmetry]; apply zlookup_None; lia.
Qed.

Lemma zlen_insert l (n : nat) x : zlen (<[n := x]> l) = zlen l.
Proof. unfold zlen. by rewrite length_insert. Qed.

Lemma zlookup_nil i : (@nil A).[i] = None.
Proof. apply zlookup_None. unfold zlen. simpl. lia. Qed.
End vectors.

#[export] Hint Resolve zlookup_app_Some zlookup_lt_Some zlen_nonneg : tcg.
#[export] Hint Rewrite @zlen_app @zlen_insert : tcg_rw.

Lemma zlookup_fmap {A B} (f : A → B) (l : list A) i : (f <$> l).[i] = f <$> l.[i].
Proof.
  destruct (decide (0 ≤ i)).
  - rewrite !zlookup_nat by lia. apply list_lookup_fmap.
  - rewrite (proj2 (zlookup_None l i)) by lia. apply zlookup_None. lia.
Qed.

(** ** Little-endian bytes *)

(** [v.to_le_bytes()] for an [n]-byte integer, and [from_le_bytes]. *)
Fixpoint le_bytes (n : nat) (v : Z) : list Z :=
  match n with O => [] | S n => u8 v :: le_bytes n (Z.shiftr v 8) end.

Fixpoint le_value (bs : list Z) : Z :=
  match bs with [] => 0 | b :: bs => b + 2 ^ 8 * le_value bs end.

Lemma le_bytes_length n v : length (le_bytes n v) = n.
Proof. revert v. induction n; simpl; auto. Qed.

Lemma le_bytes_range n v : Forall (in_width 8) (le_bytes n v).
Proof.
  revert v. induction n as [|n IH]; intros v; constructor; [|done]. apply (mod_in_width 8). lia.
Qed.

Lemma le_value_range bs : Forall (in_width 8) bs → in_width (8 * zlen bs) (le_value bs).
Proof.
  induction 1 as [|b bs [Hb0 Hb] _ [IH0 IH]]; [done|]. unfold in_width in *.
  assert (zlen (b :: bs) = zlen bs + 1) as -> by (unfold zlen; simpl; lia).
  replace (8 * (zlen bs + 1)) with (8 + 8 * zlen bs) by lia. pose proof (zlen_nonneg bs).
  rewrite Z.pow_add_r by lia. simpl le_value. nia.
Qed.

Lemma le_value_bytes n v : le_value (le_bytes n v) = v mod 2 ^ (8 * Z.of_nat n).
Proof.
  revert v. induction n as [|n IH]; intros v; [by rewrite Z.mod_1_r|].
  simpl le_value. rewrite IH, Z.shiftr_div_pow2 by lia. unfold u8.
  replace (8 * Z.of_nat (S n)) with (8 + 8 * Z.of_nat n) by lia.
  rewrite Z.pow_add_r by lia. pose proof (pow2_pos (8 * Z.of_nat n) ltac:(lia)).
  by rewrite Z.rem_mul_r by lia.
Qed.

(** [mem[off..off + len].copy_from_slice(bs)] *)
Definition write_at (mem : list Z) (off : Z) (bs : list Z) : list Z :=
  take (Z.to_nat off) mem ++ bs ++ drop (Z.to_nat off + length bs) mem.

Definition read_at (mem : list Z) (off : Z) (n : nat) : list Z := take n (drop (Z.to_nat off) mem).

Section write_at.
Context (mem : list Z) (off : Z) (bs : list Z).
Context (Hoff : 0 ≤ off) (Hfit : off + zlen bs ≤ zlen mem).

Lemma write_at_length : zlen (write_at mem off bs) = zlen mem.
Proof.
  unfold write_at, zlen in *. rewrite !length_app, length_take, length_drop. lia.
Qed.

Lemma read_write_same : read_at (write_at mem off bs) off (length bs) = bs.
Proof.
  unfold read_at, write_at, zlen in *.
  rewrite drop_app_length' by (rewrite length_take; lia). by rewrite take_app_length.
Qed.

Lemma write_at_lookup_ne i :
  0 ≤ i → i < off ∨ off + zlen bs ≤ i → (write_at mem off bs).[i] = mem.[i].
Proof.
  intros Hi Ho. unfold write_at, zlen in *. rewrite !zlookup_nat by lia. destruct Ho.
  - rewrite lookup_app_l by (rewrite length_take; lia). rewrite lookup_take_lt by lia. done.
  - rewrite lookup_app_r, length_take by (rewrite length_take; lia).
    rewrite lookup_app_r by lia. rewrite lookup_drop. f_equal. lia.
Qed.

(** A read that does not overlap the write. *)
Lemma read_write_other off' n :
  0 ≤ off' → off' + Z.of_nat n ≤ off ∨ off + zlen bs ≤ off' →
  read_at (write_at mem off bs) off' n = read_at mem off' n.
Proof.
  intros Ho' Hsep. apply list_eq. intros i. unfold read_at.
  destruct (decide (i < n)%nat); [|by rewrite !lookup_take_ge by lia].
  rewrite !lookup_take_lt, !lookup_drop by lia.
  pose proof (write_at_lookup_ne (off' + Z.of_nat i) ltac:(lia) ltac:(lia)) as H.
  rewrite !zlookup_nat in H by lia.
  by replace (Z.to_nat (off' + Z.of_nat i)) with (Z.to_nat off' + i)%nat in H by lia.
Qed.
End write_at.
