(* ===== verification/Types.v ===== *)
(** * Value types of the IR (core/src/types.rs)

    [Type], [TempVal], [Cond], [MemOp] and [RegSet].  A Rust [enum] becomes an
    inductive type in a module of its own, so that [Cond::Eq] reads [Cond.Eq];
    the bit-packed newtypes [MemOp(u16)] and [RegSet(u64)] are [Z]. *)

From S2P Require Import Prelude.

Module Type_.
Inductive t := I32 | I64 | I128 | V64 | V128 | V256.

#[global] Instance t_eq_dec : EqDecision t.
Proof. solve_decision. Defined.

(** [ty as usize] *)
Definition discr (ty : t) : Z :=
  match ty with I32 => 0 | I64 => 1 | I128 => 2 | V64 => 3 | V128 => 4 | V256 => 5 end.

Definition TYPE_COUNT : Z := 6.

Definition size_bits (ty : t) : Z :=
  match ty with
  | I32 => 32
  | I64 => 64
  | I128 => 128
  | V64 => 64
  | V128 => 128
  | V256 => 256
  end.

Definition size_bytes (ty : t) : Z := size_bits ty / 8.

Definition is_vector (ty : t) : bool :=
  match ty with V64 | V128 | V256 => true | _ => false end.

Definition is_integer (ty : t) : bool :=
  match ty with I32 | I64 | I128 => true | _ => false end.
End Type_.

Module TempVal.
Inductive t := Dead | Reg | Mem | Const.

#[global] Instance t_eq_dec : EqDecision t.
Proof. solve_decision. Defined.
End TempVal.

Module Cond.
Inductive t :=
| Never | Always
| Eq | Ne
| Lt | Ge | Le | Gt
| Ltu | Geu | Leu | Gtu
| TstEq | TstNe.

#[global] Instance t_eq_dec : EqDecision t.
Proof. solve_decision. Defined.

(** [cond as u32]: the declared discriminants. *)
Definition discr (c : t) : Z :=
  match c with
  | Never => 0
  | Always => 1
  | Eq => 8
  | Ne => 9
  | Lt => 10
  | Ge => 11
  | Le => 12
  | Gt => 13
  | Ltu => 14
  | Geu => 15
  | Leu => 16
  | Gtu => 17
  | TstEq => 18
  | TstNe => 19
  end.

Definition invert (c : t) : t :=
  match c with
  | Never => Always
  | Always => Never
  | Eq => Ne
  | Ne => Eq
  | Lt => Ge
  | Ge => Lt
  | Le => Gt
  | Gt => Le
  | Ltu => Geu
  | Geu => Ltu
  | Leu => Gtu
  | Gtu => Leu
  | TstEq => TstNe
  | TstNe => TstEq
  end.

Definition swap (c : t) : t :=
  match c with
  | Eq | Ne | Never | Always | TstEq | TstNe => c
  | Lt => Gt
  | Ge => Le
  | Le => Ge
  | Gt => Lt
  | Ltu => Gtu
  | Geu => Leu
  | Leu => Geu
  | Gtu => Ltu
  end.

Definition is_signed (c : t) : bool :=
  match c with Lt | Ge | Le | Gt => true | _ => false end.

Definition is_unsigned (c : t) : bool :=
  match c with Ltu | Geu | Leu | Gtu => true | _ => false end.

Definition is_tst (c : t) : bool :=
  match c with TstEq | TstNe => true | _ => false end.

(** Specification: what a condition means on [w]-bit operands. *)
Definition holds (c : t) (w a b : Z) : bool :=
  let ua := a mod 2 ^ w in
  let ub := b mod 2 ^ w in
  match c with
  | Never => false
  | Always => true
  | Eq => ua =? ub
  | Ne => negb (ua =? ub)
  | Lt => signed w a <? signed w b
  | Ge => signed w b <=? signed w a
  | Le => signed w a <=? signed w b
  | Gt => signed w b <? signed w a
  | Ltu => ua <? ub
  | Geu => ub <=? ua
  | Leu => ua <=? ub
  | Gtu => ub <? ua
  | TstEq => Z.land ua ub =? 0
  | TstNe => negb (Z.land ua ub =? 0)
  end.
End Cond.

(** [MemOp(u16)]: bits 0-1 size, 2 sign, 3 byte swap, 4-6 alignment. *)
Module MemOp.
Definition SIZE_8 : Z := 0.
Definition SIZE_16 : Z := 1.
Definition SIZE_32 : Z := 2.
Definition SIZE_64 : Z := 3.
Definition SIGN : Z := Z.shiftl 1 2.
Definition BSWAP : Z := Z.shiftl 1 3.
Definition ALIGN_2 : Z := Z.shiftl 1 4.
Definition ALIGN_4 : Z := Z.shiftl 2 4.
Definition ALIGN_8 : Z := Z.shiftl 3 4.
Definition ALIGN_16 : Z := Z.shiftl 4 4.
Definition ALIGN_32 : Z := Z.shiftl 5 4.
Definition ALIGN_64 : Z := Z.shiftl 6 4.

Definition ub : Z := SIZE_8.
Definition sb : Z := Z.lor SIZE_8 SIGN.
Definition uw : Z := SIZE_16.
Definition sw : Z := Z.lor SIZE_16 SIGN.
Definition ul : Z := SIZE_32.
Definition sl : Z := Z.lor SIZE_32 SIGN.
Definition uq : Z := SIZE_64.

Definition size (m : Z) : Z := Z.land m 0x3.
Definition is_signed (m : Z) : bool := negb (Z.land m SIGN =? 0).
Definition is_bswap (m : Z) : bool := negb (Z.land m BSWAP =? 0).
Definition size_bytes (m : Z) : Z := Z.shiftl 1 (size m).
End MemOp.

(** ** Register sets: a [u64] bitmap *)
Module RegSet.
Definition t := Z.

Definition EMPTY : t := 0.
Definition from_raw (bits : Z) : t := bits.
Definition raw (s : t) : Z := s.

Definition set (s : t) (reg : Z) : option t :=
  assert! reg <? 64; Some (Z.lor s (Z.shiftl 1 reg)).

(** [!x] on [u64]. *)
Definition not64 (x : Z) : Z := 2 ^ 64 - 1 - x.

Definition clear (s : t) (reg : Z) : option t :=
  assert! reg <? 64; Some (Z.land s (not64 (Z.shiftl 1 reg))).

Definition contains (s : t) (reg : Z) : option bool :=
  assert! reg <? 64; Some (negb (Z.land s (Z.shiftl 1 reg) =? 0)).

Definition is_empty (s : t) : bool := s =? 0.
Definition union (a b : t) : t := Z.lor a b.
Definition intersect (a b : t) : t := Z.land a b.
Definition subtract (a b : t) : t := Z.land a (not64 b).

(** The Rust intrinsics [count_ones] and [trailing_zeros] on [u64]. *)
Definition count_ones (x : Z) : Z := zlen (filter (λ i, Z.testbit x i = true) (seqZ 0 64)).

Fixpoint trailing_zeros_from (n : nat) (x i : Z) : Z :=
  match n with
  | O => i
  | S n' => if Z.testbit x i then i else trailing_zeros_from n' x (i + 1)
  end.
Definition trailing_zeros (x : Z) : Z := trailing_zeros_from 64 x 0.

Definition count (s : t) : Z := count_ones s.

Definition first (s : t) : option Z :=
  if s =? 0 then None else Some (trailing_zeros s).

(** Abstraction: the finite set of register numbers a bitmap denotes. *)
Definition wf (s : t) : Prop := in_width 64 s.
Definition elems (s : t) : gset Z :=
  list_to_set (filter (λ i, Z.testbit s i = true) (seqZ 0 64)).
End RegSet.

(** ** Conditions: [invert] negates, [swap] exchanges the operands *)

Section conditions.
Lemma geb_negb_ltb a b : (b <=? a) = negb (a <? b).
Proof. apply Z.leb_antisym. Qed.

Lemma gtb_negb_leb a b : (b <? a) = negb (a <=? b).
Proof. apply Z.ltb_antisym. Qed.

Lemma cond_holds_invert c w a b : Cond.holds (Cond.invert c) w a b = negb (Cond.holds c w a b).
Proof.
  destruct c; simpl; rewrite ?negb_involutive; auto using geb_negb_ltb, gtb_negb_leb.
Qed.

Lemma cond_holds_swap c w a b : Cond.holds (Cond.swap c) w a b = Cond.holds c w b a.
Proof.
  destruct c; simpl; try done; first
    [by rewrite (Z.eqb_sym (a mod 2 ^ w)) | by rewrite (Z.land_comm (a mod 2 ^ w))].
Qed.

(** The operands matter only modulo [2^w]. *)
Lemma cond_holds_mod c w a b :
  0 < w → Cond.holds c w (a mod 2 ^ w) (b mod 2 ^ w) = Cond.holds c w a b.
Proof.
  intros. unfold Cond.holds. rewrite !signed_of_mod by lia.
  rewrite !Z.mod_mod by (pose proof (pow2_pos w); lia). done.
Qed.

(** [Cond::invert] and [Cond::swap] implement logical negation and
    operand exchange for every condition at every operand width. *)
Theorem cond_invert_swap_sound c w a b :
  Cond.holds (Cond.invert c) w a b = negb (Cond.holds c w a b) ∧
  Cond.holds (Cond.swap c) w a b = Cond.holds c w b a ∧
  Cond.invert (Cond.invert c) = c ∧ Cond.swap (Cond.swap c) = c.
Proof.
  split_and!; [apply cond_holds_invert | apply cond_holds_swap | by destruct c..].
Qed.
End conditions.

(** ** Register sets implement finite sets *)

Section regsets.
Implicit Types (s a b : RegSet.t) (r : Z).

Lemma wf_testbit_high s i : RegSet.wf s → 64 ≤ i → Z.testbit s i = false.
Proof.
  intros Hs Hi. rewrite <- (mod_small_width 64 s Hs).
  apply Z.mod_pow2_bits_high. lia.
Qed.

Lemma elem_of_elems s r : r ∈ RegSet.elems s ↔ 0 ≤ r < 64 ∧ Z.testbit s r = true.
Proof.
  unfold RegSet.elems. rewrite elem_of_list_to_set, list_elem_of_filter, elem_of_seqZ.
  intuition lia.
Qed.

Lemma not64_testbit x i : 0 ≤ i < 64 → Z.testbit (RegSet.not64 x) i = negb (Z.testbit x i).
Proof.
  intros. unfold RegSet.not64. replace (2 ^ 64 - 1 - x) with (Z.lnot x + 1 * 2 ^ 64)
    by (unfold Z.lnot; lia).
  rewrite <- (Z.mod_pow2_bits_low _ 64) by lia.
  rewrite Z.mod_add by lia. rewrite Z.mod_pow2_bits_low by lia. apply Z.lnot_spec. lia.
Qed.

Lemma shiftl1_testbit r i : 0 ≤ r → Z.testbit (Z.shiftl 1 r) i = bool_decide (i = r).
Proof.
  intros. rewrite Z.shiftl_1_l. destruct (decide (i = r)) as [->|Hne].
  - rewrite Z.pow2_bits_true by lia. by rewrite bool_decide_eq_true_2.
  - rewrite Z.pow2_bits_false by lia. by rewrite bool_decide_eq_false_2.
Qed.

Lemma land_shiftl1_zero s r : 0 ≤ r → (Z.land s (Z.shiftl 1 r) =? 0) = negb (Z.testbit s r).
Proof.
  intros. destruct (Z.testbit s r) eqn:E; simpl.
  - apply Z.eqb_neq. intros H0. apply (f_equal (λ z, Z.testbit z r)) in H0.
    rewrite Z.land_spec, shiftl1_testbit, E, Z.testbit_0_l in H0 by lia.
    by rewrite bool_decide_eq_true_2 in H0.
  - apply Z.eqb_eq, Z.bits_inj'. intros n Hn.
    rewrite Z.land_spec, shiftl1_testbit, Z.testbit_0_l by lia.
    case_bool_decide; subst; [by rewrite E | by rewrite andb_false_r].
Qed.

Lemma in_width_land x y : in_width 64 x → 0 ≤ y → in_width 64 (Z.land x y).
Proof.
  intros Hx Hy. rewrite <- (mod_small_width 64 x Hx), <- Z.land_ones by lia.
  rewrite <- Z.land_assoc, (Z.land_comm (Z.ones 64)), Z.land_assoc, Z.land_ones by lia.
  apply mod_in_width. lia.
Qed.

Lemma in_width_lor x y : in_width 64 x → in_width 64 y → in_width 64 (Z.lor x y).
Proof.
  intros Hx Hy. rewrite <- (mod_small_width 64 x Hx), <- (mod_small_width 64 y Hy).
  rewrite <- !(Z.land_ones _ 64), <- Z.land_lor_distr_l, Z.land_ones by lia.
  apply mod_in_width. lia.
Qed.

Lemma in_width_bit r : 0 ≤ r < 64 → in_width 64 (Z.shiftl 1 r).
Proof.
  intros. rewrite Z.shiftl_1_l. split; [apply Z.lt_le_incl, pow2_pos; lia|].
  apply Z.pow_lt_mono_r; lia.
Qed.

Lemma trailing_zeros_from_spec n x i :
  let k := RegSet.trailing_zeros_from n x i in
  i ≤ k ≤ i + Z.of_nat n ∧ (∀ j, i ≤ j < k → Z.testbit x j = false) ∧
  (k < i + Z.of_nat n → Z.testbit x k = true).
Proof.
  revert i. induction n as [|n IH]; intros i; simpl; [split_and!; intros; lia|].
  destruct (Z.testbit x i) eqn:E; [split_and!; intros; try lia; done|].
  destruct (IH (i + 1)) as (? & Hlow & Hk). split_and!; [lia..| |intros; apply Hk; lia].
  intros j ?. destruct (decide (j = i)) as [->|]; [done|]. apply Hlow. lia.
Qed.

Lemma first_Some_spec s r :
  RegSet.wf s → RegSet.first s = Some r →
  r ∈ RegSet.elems s ∧ ∀ r', r' ∈ RegSet.elems s → r ≤ r'.
Proof.
  intros Hs. unfold RegSet.first. destruct (Z.eqb_spec s 0) as [|Hnz]; [done|].
  intros [= <-]. unfold RegSet.trailing_zeros.
  destruct (trailing_zeros_from_spec 64 s 0) as (Hr & Hlow & Hk).
  set (k := RegSet.trailing_zeros_from 64 s 0) in *.
  destruct (decide (k < 64)).
  - split; [apply elem_of_elems; split; [lia|apply Hk; lia]|].
    intros r' [? Ht]%elem_of_elems. destruct (decide (k ≤ r')); [done|].
    rewrite Hlow in Ht by lia. done.
  - destruct Hnz. apply Z.bits_inj'. intros i Hi. rewrite Z.testbit_0_l.
    destruct (decide (i < 64)); [apply Hlow; lia | apply wf_testbit_high; [done|lia]].
Qed.

Lemma first_None_spec s : RegSet.wf s → RegSet.first s = None ↔ RegSet.elems s = ∅.
Proof.
  intros Hs. split.
  - unfold RegSet.first. destruct (Z.eqb_spec s 0) as [->|]; [|done]. intros _.
    apply set_eq. intros r. rewrite elem_of_elems, Z.testbit_0_l. set_solver.
  - intros He. destruct (RegSet.first s) as [r|] eqn:E; [|done].
    apply first_Some_spec in E as [Hin _]; [|done]. rewrite He in Hin. set_solver.
Qed.

(** [RegSet] refines finite sets of register numbers: each bitmap
    operation computes the set operation it is named after. *)
Theorem regset_refines_set a b r :
  RegSet.wf a → RegSet.wf b → 0 ≤ r < 64 →
  RegSet.elems (RegSet.union a b) = RegSet.elems a ∪ RegSet.elems b ∧
  RegSet.elems (RegSet.intersect a b) = RegSet.elems a ∩ RegSet.elems b ∧
  RegSet.elems (RegSet.subtract a b) = RegSet.elems a ∖ RegSet.elems b ∧
  RegSet.elems <$> RegSet.set a r = Some ({[r]} ∪ RegSet.elems a) ∧
  RegSet.elems <$> RegSet.clear a r = Some (RegSet.elems a ∖ {[r]}) ∧
  RegSet.contains a r = Some (bool_decide (r ∈ RegSet.elems a)) ∧
  RegSet.count a = Z.of_nat (size (RegSet.elems a)) ∧
  match RegSet.first a with
  | Some m => m ∈ RegSet.elems a ∧ ∀ r', r' ∈ RegSet.elems a → m ≤ r'
  | None => RegSet.elems a = ∅
  end.
Proof.
  intros Ha Hb Hr.
  unfold RegSet.set, RegSet.clear, RegSet.contains.
  rewrite (proj2 (Z.ltb_lt r 64)) by lia. simpl.
  split_and!; try (f_equal; apply set_eq; intros i);
    try (apply set_eq; intros i);
    rewrite ?elem_of_union, ?elem_of_intersection, ?elem_of_difference,
      ?elem_of_singleton, ?elem_of_elems;
    unfold RegSet.union, RegSet.intersect, RegSet.subtract.
  - rewrite Z.lor_spec, orb_true_iff. tauto.
  - rewrite Z.land_spec, andb_true_iff. tauto.
  - rewrite Z.land_spec, andb_true_iff. split.
    + intros (? & ? & Hn). rewrite not64_testbit in Hn by lia. apply negb_true_iff in Hn.
      rewrite Hn. naive_solver.
    + intros [[? ?] Hn]. rewrite not64_testbit by lia. split_and!; try done; try lia.
      destruct (Z.testbit b i) eqn:E; naive_solver.
  - rewrite Z.lor_spec, shiftl1_testbit, orb_true_iff, bool_decide_eq_true by lia.
    intuition lia.
  - rewrite Z.land_spec, andb_true_iff. split.
    + intros (? & ? & Hn). rewrite not64_testbit, shiftl1_testbit in Hn by lia.
      apply negb_true_iff, bool_decide_eq_false in Hn. done.
    + intros [[? ?] Hn]. rewrite not64_testbit, shiftl1_testbit by lia.
      rewrite bool_decide_eq_false_2; done.
  - rewrite land_shiftl1_zero, negb_involutive by lia. f_equal.
    destruct (Z.testbit a r) eqn:E; symmetry.
    + apply bool_decide_eq_true_2. by apply elem_of_elems.
    + apply bool_decide_eq_false_2. rewrite elem_of_elems, E. naive_solver.
  - unfold RegSet.count, RegSet.count_ones, RegSet.elems, zlen. f_equal.
    rewrite size_list_to_set; [done|]. apply NoDup_filter, NoDup_seqZ.
  - destruct (RegSet.first a) eqn:E; [by apply first_Some_spec | by apply first_None_spec].
Qed.

Lemma regset_refines_set_witness :
  RegSet.elems (RegSet.subtract 0xFFFF 0x4030) = RegSet.elems 0xFFFF ∖ RegSet.elems 0x4030.
Proof.
  apply (regset_refines_set 0xFFFF 0x4030 5); unfold RegSet.wf, in_width; lia.
Defined.
End regsets.
