(* ===== verification/Opcodes.v ===== *)
(** * Opcodes of the IR (core/src/opcode.rs)

    The [Opcode] enumeration, the [OpFlags] bit set and the static table
    [OPCODE_DEFS], entry by entry in the order of the source (the table is cut
    in consecutive pieces and appended), with [Opcode::def] indexing it by the
    discriminant. *)

From S2P Require Import Prelude Types.

Module Opcode.
Inductive t :=
(* Data movement *)
| Mov | SetCond | NegSetCond | MovCond
(* Arithmetic *)
| Add | Sub | Mul | Neg | DivS | DivU | RemS | RemU | DivS2 | DivU2
(* Widening multiply *)
| MulSH | MulUH | MulS2 | MulU2
(* Carry arithmetic *)
| AddCO | AddCI | AddCIO | AddC1O | SubBO | SubBI | SubBIO | SubB1O
(* Logic *)
| And | Or | Xor | Not | AndC | OrC | Eqv | Nand | Nor
(* Shift/rotate *)
| Shl | Shr | Sar | RotL | RotR
(* Bit field *)
| Extract | SExtract | Deposit | Extract2
(* Byte swap *)
| Bswap16 | Bswap32 | Bswap64
(* Bit counting *)
| Clz | Ctz | CtPop
(* 32-bit host: 64-bit ops on paired regs *)
| BrCond2I32 | SetCond2I32
(* Type conversion *)
| ExtI32I64 | ExtUI32I64 | ExtrlI64I32 | ExtrhI64I32
(* Host memory load/store (direct, for accessing CPUState fields) *)
| Ld8U | Ld8S | Ld16U | Ld16S | Ld32U | Ld32S | Ld | St8 | St16 | St32 | St
(* Guest memory access (through software TLB) *)
| QemuLd | QemuSt | QemuLd2 | QemuSt2
(* Control flow *)
| Br | BrCond | SetLabel | GotoTb | ExitTb | GotoPtr | Mb
(* Call *)
| Call
(* Plugin *)
| PluginCb | PluginMemCb
(* Misc *)
| Nop | Discard | InsnStart
(* Vector data movement *)
| MovVec | DupVec | Dup2Vec | LdVec | StVec | DupmVec
(* Vector arithmetic *)
| AddVec | SubVec | MulVec | NegVec | AbsVec | SsaddVec | UsaddVec | SssubVec
| UssubVec | SminVec | UminVec | SmaxVec | UmaxVec
(* Vector logic *)
| AndVec | OrVec | XorVec | AndcVec | OrcVec | NandVec | NorVec | EqvVec | NotVec
(* Vector shift by immediate *)
| ShliVec | ShriVec | SariVec | RotliVec
(* Vector shift by scalar *)
| ShlsVec | ShrsVec | SarsVec | RotlsVec
(* Vector shift by vector *)
| ShlvVec | ShrvVec | SarvVec | RotlvVec | RotrvVec
(* Vector compare/select *)
| CmpVec | BitselVec | CmpselVec.

(** [opc as u8] / [opc as usize]. *)
Definition discr (o : t) : Z :=
  match o with
  | Mov => 0 | SetCond => 1 | NegSetCond => 2 | MovCond => 3 | Add => 4 | Sub => 5
  | Mul => 6 | Neg => 7 | DivS => 8 | DivU => 9 | RemS => 10 | RemU => 11
  | DivS2 => 12 | DivU2 => 13 | MulSH => 14 | MulUH => 15 | MulS2 => 16 | MulU2 => 17
  | AddCO => 18 | AddCI => 19 | AddCIO => 20 | AddC1O => 21 | SubBO => 22
  | SubBI => 23 | SubBIO => 24 | SubB1O => 25 | And => 26 | Or => 27 | Xor => 28
  | Not => 29 | AndC => 30 | OrC => 31 | Eqv => 32 | Nand => 33 | Nor => 34
  | Shl => 35 | Shr => 36 | Sar => 37 | RotL => 38 | RotR => 39 | Extract => 40
  | SExtract => 41 | Deposit => 42 | Extract2 => 43 | Bswap16 => 44 | Bswap32 => 45
  | Bswap64 => 46 | Clz => 47 | Ctz => 48 | CtPop => 49 | BrCond2I32 => 50
  | SetCond2I32 => 51 | ExtI32I64 => 52 | ExtUI32I64 => 53 | ExtrlI64I32 => 54
  | ExtrhI64I32 => 55 | Ld8U => 56 | Ld8S => 57 | Ld16U => 58 | Ld16S => 59
  | Ld32U => 60 | Ld32S => 61 | Ld => 62 | St8 => 63 | St16 => 64 | St32 => 65
  | St => 66 | QemuLd => 67 | QemuSt => 68 | QemuLd2 => 69 | QemuSt2 => 70 | Br => 71
  | BrCond => 72 | SetLabel => 73 | GotoTb => 74 | ExitTb => 75 | GotoPtr => 76
  | Mb => 77 | Call => 78 | PluginCb => 79 | PluginMemCb => 80 | Nop => 81
  | Discard => 82 | InsnStart => 83 | MovVec => 84 | DupVec => 85 | Dup2Vec => 86
  | LdVec => 87 | StVec => 88 | DupmVec => 89 | AddVec => 90 | SubVec => 91
  | MulVec => 92 | NegVec => 93 | AbsVec => 94 | SsaddVec => 95 | UsaddVec => 96
  | SssubVec => 97 | UssubVec => 98 | SminVec => 99 | UminVec => 100 | SmaxVec => 101
  | UmaxVec => 102 | AndVec => 103 | OrVec => 104 | XorVec => 105 | AndcVec => 106
  | OrcVec => 107 | NandVec => 108 | NorVec => 109 | EqvVec => 110 | NotVec => 111
  | ShliVec => 112 | ShriVec => 113 | SariVec => 114 | RotliVec => 115
  | ShlsVec => 116 | ShrsVec => 117 | SarsVec => 118 | RotlsVec => 119
  | ShlvVec => 120 | ShrvVec => 121 | SarvVec => 122 | RotlvVec => 123
  | RotrvVec => 124 | CmpVec => 125 | BitselVec => 126 | CmpselVec => 127
  end.

(** The variants in declaration order. *)
Definition all : list t :=
  [Mov; SetCond; NegSetCond; MovCond; Add; Sub; Mul; Neg; DivS; DivU; RemS; RemU;
   DivS2; DivU2; MulSH; MulUH; MulS2; MulU2; AddCO; AddCI; AddCIO; AddC1O; SubBO;
   SubBI; SubBIO; SubB1O; And; Or; Xor; Not; AndC; OrC; Eqv; Nand; Nor; Shl; Shr;
   Sar; RotL; RotR; Extract; SExtract; Deposit; Extract2; Bswap16; Bswap32; Bswap64;
   Clz; Ctz; CtPop; BrCond2I32; SetCond2I32; ExtI32I64; ExtUI32I64; ExtrlI64I32;
   ExtrhI64I32; Ld8U; Ld8S; Ld16U; Ld16S; Ld32U; Ld32S; Ld; St8; St16; St32; St;
   QemuLd; QemuSt; QemuLd2; QemuSt2; Br; BrCond; SetLabel; GotoTb; ExitTb; GotoPtr;
   Mb; Call; PluginCb; PluginMemCb; Nop; Discard; InsnStart; MovVec; DupVec; Dup2Vec;
   LdVec; StVec; DupmVec; AddVec; SubVec; MulVec; NegVec; AbsVec; SsaddVec; UsaddVec;
   SssubVec; UssubVec; SminVec; UminVec; SmaxVec; UmaxVec; AndVec; OrVec; XorVec;
   AndcVec; OrcVec; NandVec; NorVec; EqvVec; NotVec; ShliVec; ShriVec; SariVec;
   RotliVec; ShlsVec; ShrsVec; SarsVec; RotlsVec; ShlvVec; ShrvVec; SarvVec;
   RotlvVec; RotrvVec; CmpVec; BitselVec; CmpselVec].

(** [Opcode::Count as usize] *)
Definition Count : Z := 128.

Lemma all_discr o : all !! Z.to_nat (discr o) = Some o.
Proof. by destruct o. Qed.

Lemma discr_range o : 0 ≤ discr o < Count.
Proof. destruct o; simpl; unfold Count; lia. Qed.

Lemma discr_inj o o' : discr o = discr o' → o = o'.
Proof.
  intros H. pose proof (all_discr o) as Ho. rewrite H, all_discr in Ho. by injection Ho.
Qed.

(** Equality is decided on discriminants. *)
#[global] Instance t_eq_dec : EqDecision t.
Proof.
  refine (λ o o', match decide (discr o = discr o') with
                  | left H => left (discr_inj o o' H)
                  | right H => right (λ E, H (f_equal discr E))
                  end).
Defined.
End Opcode.

Module OpFlags.
Definition NONE : Z := 0.
Definition BB_EXIT : Z := 0x01.
Definition BB_END : Z := 0x02.
Definition CALL_CLOBBER : Z := 0x04.
Definition SIDE_EFFECTS : Z := 0x08.
Definition INT : Z := 0x10.
Definition NOT_PRESENT : Z := 0x20.
Definition VECTOR : Z := 0x40.
Definition COND_BRANCH : Z := 0x80.
Definition CARRY_OUT : Z := 0x100.
Definition CARRY_IN : Z := 0x200.

Definition contains (self other : Z) : bool := Z.land self other =? other.
Definition union (self other : Z) : Z := Z.lor self other.
End OpFlags.

Record OpDef := mkOpDef {
  def_name : string;
  nb_oargs : Z;
  nb_iargs : Z;
  nb_cargs : Z;
  def_flags : Z
}.

#[global] Instance OpDef_inhabited : Inhabited OpDef :=
  populate (mkOpDef "" 0 0 0 0).

Definition nb_args (d : OpDef) : Z := nb_oargs d + nb_iargs d + nb_cargs d.

Module Defs.
Definition f (a b : Z) : Z := Z.lor a b.

Definition INT : Z := OpFlags.INT.
Definition NP : Z := OpFlags.NOT_PRESENT.
Definition SE : Z := OpFlags.SIDE_EFFECTS.
Definition CC : Z := OpFlags.CALL_CLOBBER.
Definition BE : Z := OpFlags.BB_END.
Definition BX : Z := OpFlags.BB_EXIT.
Definition CB : Z := OpFlags.COND_BRANCH.
Definition CO : Z := OpFlags.CARRY_OUT.
Definition CI : Z := OpFlags.CARRY_IN.
Definition VC : Z := OpFlags.VECTOR.
Definition N : Z := OpFlags.NONE.

(** Mov .. MulU2 *)
Definition defs_arith : list OpDef :=
  [mkOpDef "mov" 1 1 0 (f INT NP);
   mkOpDef "setcond" 1 2 1 INT;
   mkOpDef "negsetcond" 1 2 1 INT;
   mkOpDef "movcond" 1 4 1 INT;
   mkOpDef "add" 1 2 0 INT;
   mkOpDef "sub" 1 2 0 INT;
   mkOpDef "mul" 1 2 0 INT;
   mkOpDef "neg" 1 1 0 INT;
   mkOpDef "divs" 1 2 0 INT;
   mkOpDef "divu" 1 2 0 INT;
   mkOpDef "rems" 1 2 0 INT;
   mkOpDef "remu" 1 2 0 INT;
   mkOpDef "divs2" 2 3 0 INT;
   mkOpDef "divu2" 2 3 0 INT;
   mkOpDef "mulsh" 1 2 0 INT;
   mkOpDef "muluh" 1 2 0 INT;
   mkOpDef "muls2" 2 2 0 INT;
   mkOpDef "mulu2" 2 2 0 INT].

(** AddCO .. Nor *)
Definition defs_carry_logic : list OpDef :=
  [mkOpDef "addco" 1 2 0 (f INT CO);
   mkOpDef "addci" 1 2 0 (f INT CI);
   mkOpDef "addcio" 1 2 0 (f (f INT CI) CO);
   mkOpDef "addc1o" 1 2 0 (f INT CO);
   mkOpDef "subbo" 1 2 0 (f INT CO);
   mkOpDef "subbi" 1 2 0 (f INT CI);
   mkOpDef "subbio" 1 2 0 (f (f INT CI) CO);
   mkOpDef "subb1o" 1 2 0 (f INT CO);
   mkOpDef "and" 1 2 0 INT;
   mkOpDef "or" 1 2 0 INT;
   mkOpDef "xor" 1 2 0 INT;
   mkOpDef "not" 1 1 0 INT;
   mkOpDef "andc" 1 2 0 INT;
   mkOpDef "orc" 1 2 0 INT;
   mkOpDef "eqv" 1 2 0 INT;
   mkOpDef "nand" 1 2 0 INT;
   mkOpDef "nor" 1 2 0 INT].

(** Shl .. CtPop *)
Definition defs_shift_bits : list OpDef :=
  [mkOpDef "shl" 1 2 0 INT;
   mkOpDef "shr" 1 2 0 INT;
   mkOpDef "sar" 1 2 0 INT;
   mkOpDef "rotl" 1 2 0 INT;
   mkOpDef "rotr" 1 2 0 INT;
   mkOpDef "extract" 1 1 2 INT;
   mkOpDef "sextract" 1 1 2 INT;
   mkOpDef "deposit" 1 2 2 INT;
   mkOpDef "extract2" 1 2 1 INT;
   mkOpDef "bswap16" 1 1 1 INT;
   mkOpDef "bswap32" 1 1 1 INT;
   mkOpDef "bswap64" 1 1 1 INT;
   mkOpDef "clz" 1 2 0 INT;
   mkOpDef "ctz" 1 2 0 INT;
   mkOpDef "ctpop" 1 1 0 INT].

(** BrCond2I32 .. St *)
Definition defs_conv_hostmem : list OpDef :=
  [mkOpDef "brcond2_i32" 0 4 2 (f BE CB);
   mkOpDef "setcond2_i32" 1 4 1 N;
   mkOpDef "ext_i32_i64" 1 1 0 N;
   mkOpDef "extu_i32_i64" 1 1 0 N;
   mkOpDef "extrl_i64_i32" 1 1 0 N;
   mkOpDef "extrh_i64_i32" 1 1 0 N;
   mkOpDef "ld8u" 1 1 1 INT;
   mkOpDef "ld8s" 1 1 1 INT;
   mkOpDef "ld16u" 1 1 1 INT;
   mkOpDef "ld16s" 1 1 1 INT;
   mkOpDef "ld32u" 1 1 1 INT;
   mkOpDef "ld32s" 1 1 1 INT;
   mkOpDef "ld" 1 1 1 INT;
   mkOpDef "st8" 0 2 1 INT;
   mkOpDef "st16" 0 2 1 INT;
   mkOpDef "st32" 0 2 1 INT;
   mkOpDef "st" 0 2 1 INT].

(** QemuLd .. InsnStart *)
Definition defs_guest_control : list OpDef :=
  [mkOpDef "qemu_ld" 1 1 1 (f (f CC SE) INT);
   mkOpDef "qemu_st" 0 2 1 (f (f CC SE) INT);
   mkOpDef "qemu_ld2" 2 1 1 (f (f CC SE) INT);
   mkOpDef "qemu_st2" 0 3 1 (f (f CC SE) INT);
   mkOpDef "br" 0 0 1 (f BE NP);
   mkOpDef "brcond" 0 2 2 (f (f BE CB) INT);
   mkOpDef "set_label" 0 0 1 (f BE NP);
   mkOpDef "goto_tb" 0 0 1 (f (f BX BE) NP);
   mkOpDef "exit_tb" 0 0 1 (f (f BX BE) NP);
   mkOpDef "goto_ptr" 0 1 0 (f BX BE);
   mkOpDef "mb" 0 0 1 NP;
   mkOpDef "call" 1 6 2 (f CC NP);
   mkOpDef "plugin_cb" 0 0 1 NP;
   mkOpDef "plugin_mem_cb" 0 1 1 NP;
   mkOpDef "nop" 0 0 0 NP;
   mkOpDef "discard" 1 0 0 NP;
   mkOpDef "insn_start" 0 0 2 NP].

(** MovVec .. SminVec *)
Definition defs_vec_move_arith : list OpDef :=
  [mkOpDef "mov_vec" 1 1 0 (f VC NP);
   mkOpDef "dup_vec" 1 1 0 VC;
   mkOpDef "dup2_vec" 1 2 0 VC;
   mkOpDef "ld_vec" 1 1 1 VC;
   mkOpDef "st_vec" 0 2 1 VC;
   mkOpDef "dupm_vec" 1 1 1 VC;
   mkOpDef "add_vec" 1 2 0 VC;
   mkOpDef "sub_vec" 1 2 0 VC;
   mkOpDef "mul_vec" 1 2 0 VC;
   mkOpDef "neg_vec" 1 1 0 VC;
   mkOpDef "abs_vec" 1 1 0 VC;
   mkOpDef "ssadd_vec" 1 2 0 VC;
   mkOpDef "usadd_vec" 1 2 0 VC;
   mkOpDef "sssub_vec" 1 2 0 VC;
   mkOpDef "ussub_vec" 1 2 0 VC;
   mkOpDef "smin_vec" 1 2 0 VC].

(** UminVec .. RotliVec *)
Definition defs_vec_logic_shifti : list OpDef :=
  [mkOpDef "umin_vec" 1 2 0 VC;
   mkOpDef "smax_vec" 1 2 0 VC;
   mkOpDef "umax_vec" 1 2 0 VC;
   mkOpDef "and_vec" 1 2 0 VC;
   mkOpDef "or_vec" 1 2 0 VC;
   mkOpDef "xor_vec" 1 2 0 VC;
   mkOpDef "andc_vec" 1 2 0 VC;
   mkOpDef "orc_vec" 1 2 0 VC;
   mkOpDef "nand_vec" 1 2 0 VC;
   mkOpDef "nor_vec" 1 2 0 VC;
   mkOpDef "eqv_vec" 1 2 0 VC;
   mkOpDef "not_vec" 1 1 0 VC;
   mkOpDef "shli_vec" 1 1 1 VC;
   mkOpDef "shri_vec" 1 1 1 VC;
   mkOpDef "sari_vec" 1 1 1 VC;
   mkOpDef "rotli_vec" 1 1 1 VC].

(** ShlsVec .. CmpselVec *)
Definition defs_vec_shift_sel : list OpDef :=
  [mkOpDef "shls_vec" 1 2 0 VC;
   mkOpDef "shrs_vec" 1 2 0 VC;
   mkOpDef "sars_vec" 1 2 0 VC;
   mkOpDef "rotls_vec" 1 2 0 VC;
   mkOpDef "shlv_vec" 1 2 0 VC;
   mkOpDef "shrv_vec" 1 2 0 VC;
   mkOpDef "sarv_vec" 1 2 0 VC;
   mkOpDef "rotlv_vec" 1 2 0 VC;
   mkOpDef "rotrv_vec" 1 2 0 VC;
   mkOpDef "cmp_vec" 1 2 1 VC;
   mkOpDef "bitsel_vec" 1 3 0 VC;
   mkOpDef "cmpsel_vec" 1 4 1 VC].

Definition OPCODE_DEFS : list OpDef :=
  defs_arith ++
  defs_carry_logic ++
  defs_shift_bits ++
  defs_conv_hostmem ++
  defs_guest_control ++
  defs_vec_move_arith ++
  defs_vec_logic_shifti ++
  defs_vec_shift_sel.
End Defs.

Abbreviation OPCODE_DEFS := Defs.OPCODE_DEFS.

(** [Opcode::def]: [&OPCODE_DEFS[self as usize]]. *)
Definition def (o : Opcode.t) : OpDef := OPCODE_DEFS !!! Z.to_nat (Opcode.discr o).

Definition fixed_type (o : Opcode.t) : option Type_.t :=
  match o with
  | Opcode.ExtI32I64 | Opcode.ExtUI32I64 => Some Type_.I64
  | Opcode.ExtrlI64I32 | Opcode.ExtrhI64I32
  | Opcode.BrCond2I32 | Opcode.SetCond2I32 => Some Type_.I32
  | _ => None
  end.

Definition is_int_polymorphic (o : Opcode.t) : bool :=
  OpFlags.contains (def_flags (def o)) OpFlags.INT.

Definition is_vector (o : Opcode.t) : bool :=
  OpFlags.contains (def_flags (def o)) OpFlags.VECTOR.

(** ** The table is complete and its flags are consistent *)

(** A boolean property that holds of every variant holds of every opcode. *)
Lemma forall_opcodes (P : Opcode.t → bool) : forallb P Opcode.all = true → ∀ o, P o = true.
Proof.
  intros H o. rewrite forallb_forall in H. apply H.
  apply list_elem_of_In, (list_elem_of_lookup_2 _ (Z.to_nat (Opcode.discr o))), Opcode.all_discr.
Qed.

Lemma length_opcode_defs : zlen OPCODE_DEFS = Opcode.Count.
Proof. reflexivity. Qed.

Lemma opcode_defs_lookup o : OPCODE_DEFS.[Opcode.discr o] = Some (def o).
Proof. by destruct o. Qed.

(** The argument counts of every entry fit [Op::args]. *)
Definition def_fits (d : OpDef) : bool :=
  (0 <=? nb_oargs d) && (0 <=? nb_iargs d) && (0 <=? nb_cargs d) && (nb_args d <=? 10).

Lemma def_fits_all o : def_fits (def o) = true.
Proof. by destruct o. Qed.

Lemma nb_counts o :
  0 ≤ nb_oargs (def o) ∧ 0 ≤ nb_iargs (def o) ∧ 0 ≤ nb_cargs (def o) ∧ nb_args (def o) ≤ 10.
Proof. pose proof (def_fits_all o) as H. unfold def_fits in H. boolp. auto. Qed.

(** Flag discipline the passes rely on: an op that leaves the block or branches
    conditionally ends the basic block and has no output; vector ops are exactly
    the opcodes from [MovVec] on and are never type-polymorphic integer ops; an
    opcode with a fixed type is not type-polymorphic. *)
Definition flags_ok (o : Opcode.t) : bool :=
  let has x := OpFlags.contains (def_flags (def o)) x in
  implb (has OpFlags.BB_EXIT) (has OpFlags.BB_END) &&
  implb (has OpFlags.COND_BRANCH) (has OpFlags.BB_END) &&
  implb (has OpFlags.BB_END) (nb_oargs (def o) =? 0) &&
  eqb (is_vector o) (Opcode.discr Opcode.MovVec <=? Opcode.discr o) &&
  implb (is_vector o) (negb (is_int_polymorphic o)) &&
  implb (bool_decide (is_Some (fixed_type o))) (negb (is_int_polymorphic o)).

(** [OPCODE_DEFS] has exactly one entry per [Opcode] variant (128, so
    [Opcode::def] never indexes out of range), no two entries share a name,
    every entry's arguments fit [MAX_OP_ARGS], and the flags obey the discipline
    [flags_ok] the backend passes rely on. *)
Theorem opcode_table_consistent :
  zlen OPCODE_DEFS = Opcode.Count ∧
  NoDup (def_name <$> OPCODE_DEFS) ∧
  ∀ o, OPCODE_DEFS.[Opcode.discr o] = Some (def o) ∧ nb_args (def o) ≤ 10 ∧ flags_ok o = true.
Proof.
  split_and!; [done | apply (bool_decide_unpack _); by vm_compute |].
  intros o. split_and!; [apply opcode_defs_lookup | apply nb_counts |].
  by apply forall_opcodes.
Qed.
