(* ===== verification/Ir.v ===== *)
(** * The IR data model and the translation context
      (core/src/{temp,label,op,context}.rs)

    [Temp], [Label], [LifeData], [Op] and [Context] with one definition per
    method.  [TempIdx(u32)] and [OpIdx(u32)] are [Z]; [Op::args] is the
    ten-slot array; the per-type [HashMap]s of [const_table] are one finite map
    keyed by type discriminant and value; [assert!] failures are [None].

    The second half defines the context invariant [wf_context], shows that
    every method preserves it, and closes it over all sequences of calls. *)

From S2P Require Import Prelude Types Opcodes.

(** ** Temporaries *)

Module TempKind.
Inductive t := Ebb | Tb | Global | Fixed | Const.

#[global] Instance t_eq_dec : EqDecision t.
Proof. solve_decision. Defined.

Definition discr (k : t) : Z :=
  match k with Ebb => 0 | Tb => 1 | Global => 2 | Fixed => 3 | Const => 4 end.
End TempKind.

Module Temp.
Record t := mk {
  idx : Z;
  ty : Type_.t;
  base_type : Type_.t;
  kind : TempKind.t;
  val_type : TempVal.t;
  reg : option Z;
  mem_coherent : bool;
  mem_allocated : bool;
  val : Z;
  mem_base : option Z;
  mem_offset : Z;
  name : option string
}.

#[global] Instance t_eq_dec : EqDecision t.
Proof. solve_decision. Defined.

Definition new_ebb (i : Z) (ty : Type_.t) : t :=
  mk i ty ty TempKind.Ebb TempVal.Dead None false false 0 None 0 None.

Definition new_tb (i : Z) (ty : Type_.t) : t :=
  mk i ty ty TempKind.Tb TempVal.Dead None false false 0 None 0 None.

Definition new_const (i : Z) (ty : Type_.t) (v : Z) : t :=
  mk i ty ty TempKind.Const TempVal.Const None false false v None 0 None.

Definition new_global (i : Z) (ty : Type_.t) (base offset : Z) (nm : string) : t :=
  mk i ty ty TempKind.Global TempVal.Mem None true true 0 (Some base) offset (Some nm).

Definition new_fixed (i : Z) (ty : Type_.t) (r : Z) (nm : string) : t :=
  mk i ty ty TempKind.Fixed TempVal.Reg (Some r) false false 0 None 0 (Some nm).

Definition is_const (t : t) : bool := bool_decide (kind t = TempKind.Const).
Definition is_global (t : t) : bool := bool_decide (kind t = TempKind.Global).
Definition is_fixed (t : t) : bool := bool_decide (kind t = TempKind.Fixed).
Definition is_global_or_fixed (t : t) : bool :=
  match kind t with TempKind.Global | TempKind.Fixed => true | _ => false end.

(** Field updates ([t.val_type = ...] and so on). *)
Definition set_coherent (t : t) (b : bool) : Temp.t :=
  mk (idx t) (ty t) (base_type t) (kind t) (val_type t) (reg t) b (mem_allocated t)
     (val t) (mem_base t) (mem_offset t) (name t).

Definition set_loc (t : t) (vt : TempVal.t) (r : option Z) (coherent : bool) : Temp.t :=
  mk (idx t) (ty t) (base_type t) (kind t) vt r coherent (mem_allocated t)
     (val t) (mem_base t) (mem_offset t) (name t).

Definition set_slot (t : t) (offset : Z) : Temp.t :=
  mk (idx t) (ty t) (base_type t) (kind t) (val_type t) (reg t) (mem_coherent t) true
     (val t) (mem_base t) offset (name t).
End Temp.

(** ** Labels *)

Module RelocKind.
Inductive t := Rel32.

#[global] Instance t_eq_dec : EqDecision t.
Proof. solve_decision. Defined.
End RelocKind.

Module LabelUse.
Record t := mk { offset : Z; kind : RelocKind.t }.

#[global] Instance t_eq_dec : EqDecision t.
Proof. solve_decision. Defined.
End LabelUse.

Module Label.
Record t := mk {
  id : Z;
  present : bool;
  has_value : bool;
  value : Z;
  uses : list LabelUse.t
}.

#[global] Instance t_eq_dec : EqDecision t.
Proof. solve_decision. Defined.

Definition new (i : Z) : t := mk i false false 0 [].

Definition add_use (l : t) (offset : Z) (k : RelocKind.t) : t :=
  mk (id l) (present l) (has_value l) (value l) (uses l ++ [LabelUse.mk offset k]).

Definition set_value (l : t) (offset : Z) : t :=
  mk (id l) true true offset (uses l).

Definition has_pending_uses (l : t) : bool :=
  negb (bool_decide (uses l = [])) && negb (has_value l).
End Label.

(** ** Operations *)

Definition MAX_OP_ARGS : Z := 10.

(** Two bits per argument: dead, sync. *)
Module LifeData.
Definition dead_arg (n : Z) : Z := Z.shiftl 1 (n * 2).
Definition sync_arg (n : Z) : Z := Z.shiftl 1 (n * 2 + 1).
Definition is_dead (l n : Z) : bool := negb (Z.land l (dead_arg n) =? 0).
Definition is_sync (l n : Z) : bool := negb (Z.land l (sync_arg n) =? 0).
Definition set_dead (l n : Z) : Z := Z.lor l (dead_arg n).
Definition set_sync (l n : Z) : Z := Z.lor l (sync_arg n).
End LifeData.

Module Op.
Record t := mk {
  idx : Z;
  opc : Opcode.t;
  op_type : Type_.t;
  param1 : Z;
  param2 : Z;
  life : Z;
  output_pref : list RegSet.t;
  args : list Z;
  nargs : Z
}.

#[global] Instance t_eq_dec : EqDecision t.
Proof. solve_decision. Defined.

Definition new (i : Z) (o : Opcode.t) (ty : Type_.t) : t :=
  mk i o ty 0 0 0 [RegSet.EMPTY; RegSet.EMPTY] (replicate 10 0) 0.

(** [op.args[..n].copy_from_slice(&args[..n])] with [n = min(len, 10)]. *)
Definition with_args (i : Z) (o : Opcode.t) (ty : Type_.t) (a : list Z) : t :=
  let n := Nat.min (length a) 10 in
  mk i o ty 0 0 0 [RegSet.EMPTY; RegSet.EMPTY] (take n a ++ replicate (10 - n) 0) (Z.of_nat n).

(** [self.args[start..start+len]] *)
Definition slice (a : list Z) (start len : Z) : list Z :=
  take (Z.to_nat len) (drop (Z.to_nat start) a).

Definition oargs (op : t) : list Z := slice (args op) 0 (nb_oargs (def (opc op))).
Definition iargs (op : t) : list Z :=
  slice (args op) (nb_oargs (def (opc op))) (nb_iargs (def (opc op))).
Definition cargs (op : t) : list Z :=
  slice (args op) (nb_oargs (def (opc op)) + nb_iargs (def (opc op)))
        (nb_cargs (def (opc op))).

Definition set_life (op : t) (l : Z) : t :=
  mk (idx op) (opc op) (op_type op) (param1 op) (param2 op) l (output_pref op)
     (args op) (nargs op).

(** [op.opc = o; op.args = a; op.nargs = n] *)
Definition rewrite_to (op : t) (o : Opcode.t) (a : list Z) (n : Z) : t :=
  mk (idx op) o (op_type op) (param1 op) (param2 op) (life op) (output_pref op) a n.

Definition set_args (op : t) (a : list Z) : t :=
  mk (idx op) (opc op) (op_type op) (param1 op) (param2 op) (life op) (output_pref op)
     a (nargs op).
End Op.

(** ** The translation context *)

Record Context := mkContext {
  temps : list Temp.t;
  ops : list Op.t;
  labels : list Label.t;
  nb_globals : Z;
  frame_reg : option Z;
  frame_start : Z;
  frame_end : Z;
  frame_alloc_end : Z;
  reserved_regs : RegSet.t;
  const_table : gmap (Z * Z) Z;
  gen_insn_end_off : list Z;
  tb_idx : Z
}.

Definition set_temps (c : Context) (ts : list Temp.t) : Context :=
  mkContext ts (ops c) (labels c) (nb_globals c) (frame_reg c) (frame_start c) (frame_end c)
    (frame_alloc_end c) (reserved_regs c) (const_table c) (gen_insn_end_off c) (tb_idx c).

Definition set_ops (c : Context) (os : list Op.t) : Context :=
  mkContext (temps c) os (labels c) (nb_globals c) (frame_reg c) (frame_start c) (frame_end c)
    (frame_alloc_end c) (reserved_regs c) (const_table c) (gen_insn_end_off c) (tb_idx c).

Definition context_new : Context :=
  mkContext [] [] [] 0 None 0 0 0 RegSet.EMPTY ∅ [] 0.

(** [Context::reset]: the per-temp loop body. *)
Definition reset_temp (t : Temp.t) : Temp.t :=
  match Temp.kind t with
  | TempKind.Fixed => Temp.set_coherent t false
  | TempKind.Global => Temp.set_loc t TempVal.Mem None true
  | _ => t
  end.

Definition reset (c : Context) : Context :=
  mkContext (reset_temp <$> take (Z.to_nat (nb_globals c)) (temps c)) [] [] (nb_globals c)
    (frame_reg c) (frame_start c) (frame_end c) (frame_start c) (reserved_regs c) ∅ []
    (tb_idx c).

Definition nb_temps (c : Context) : Z := u32 (zlen (temps c)).

Definition new_temp (c : Context) (ty : Type_.t) : Z * Context :=
  let i := u32 (zlen (temps c)) in
  (i, set_temps c (temps c ++ [Temp.new_ebb i ty])).

Definition new_temp_tb (c : Context) (ty : Type_.t) : Z * Context :=
  let i := u32 (zlen (temps c)) in
  (i, set_temps c (temps c ++ [Temp.new_tb i ty])).

Definition new_const (c : Context) (ty : Type_.t) (v : Z) : Z * Context :=
  match const_table c !! (Type_.discr ty, v) with
  | Some existing => (existing, c)
  | None =>
      let i := u32 (zlen (temps c)) in
      (i, mkContext (temps c ++ [Temp.new_const i ty v]) (ops c) (labels c) (nb_globals c)
            (frame_reg c) (frame_start c) (frame_end c) (frame_alloc_end c) (reserved_regs c)
            (<[(Type_.discr ty, v) := i]> (const_table c)) (gen_insn_end_off c) (tb_idx c))
  end.

Definition push_global (c : Context) (t : Temp.t) : Context :=
  mkContext (temps c ++ [t]) (ops c) (labels c) (nb_globals c + 1) (frame_reg c)
    (frame_start c) (frame_end c) (frame_alloc_end c) (reserved_regs c) (const_table c)
    (gen_insn_end_off c) (tb_idx c).

Definition new_global (c : Context) (ty : Type_.t) (base offset : Z) (nm : string)
    : option (Z * Context) :=
  assert! u32 (zlen (temps c)) =? nb_globals c;
  let i := u32 (zlen (temps c)) in
  Some (i, push_global c (Temp.new_global i ty base offset nm)).

Definition new_fixed (c : Context) (ty : Type_.t) (r : Z) (nm : string)
    : option (Z * Context) :=
  assert! u32 (zlen (temps c)) =? nb_globals c;
  let i := u32 (zlen (temps c)) in
  Some (i, push_global c (Temp.new_fixed i ty r nm)).

Definition temp (c : Context) (i : Z) : option Temp.t := (temps c).[i].

(** A mutation through [self.temp_mut(i)]. *)
Definition temp_mut (c : Context) (i : Z) (f : Temp.t → Temp.t) : option Context :=
  t ← (temps c).[i]; ts ← zinsert (temps c) i (f t); Some (set_temps c ts).

Definition globals (c : Context) : list Temp.t := take (Z.to_nat (nb_globals c)) (temps c).

Definition emit_op (c : Context) (o : Op.t) : Z * Context :=
  (Op.idx o, set_ops c (ops c ++ [o])).

Definition next_op_idx (c : Context) : Z := u32 (zlen (ops c)).

Definition op (c : Context) (i : Z) : option Op.t := (ops c).[i].

Definition op_mut (c : Context) (i : Z) (f : Op.t → Op.t) : option Context :=
  o ← (ops c).[i]; os ← zinsert (ops c) i (f o); Some (set_ops c os).

Definition num_ops (c : Context) : Z := zlen (ops c).

Definition set_labels (c : Context) (ls : list Label.t) : Context :=
  mkContext (temps c) (ops c) ls (nb_globals c) (frame_reg c) (frame_start c) (frame_end c)
    (frame_alloc_end c) (reserved_regs c) (const_table c) (gen_insn_end_off c) (tb_idx c).

Definition new_label (c : Context) : Z * Context :=
  let i := u32 (zlen (labels c)) in (i, set_labels c (labels c ++ [Label.new i])).

Definition label (c : Context) (i : Z) : option Label.t := (labels c).[i].

Definition label_mut (c : Context) (i : Z) (f : Label.t → Label.t) : option Context :=
  l ← (labels c).[i]; ls ← zinsert (labels c) i (f l); Some (set_labels c ls).

Definition set_frame (c : Context) (r start size : Z) : Context :=
  mkContext (temps c) (ops c) (labels c) (nb_globals c) (Some r) start (start + size) start
    (reserved_regs c) (const_table c) (gen_insn_end_off c) (tb_idx c).

Definition set_alloc_end (c : Context) (e : Z) : Context :=
  mkContext (temps c) (ops c) (labels c) (nb_globals c) (frame_reg c) (frame_start c)
    (frame_end c) e (reserved_regs c) (const_table c) (gen_insn_end_off c) (tb_idx c).

(** [(end + size - 1) & !(size - 1)] *)
Definition align_up (e size : Z) : Z := Z.land (e + size - 1) (Z.lnot (size - 1)).

Definition alloc_temp_frame (c : Context) (tidx : Z) : option (Z * Context) :=
  t ← temp c tidx;
  if Temp.mem_allocated t then Some (Temp.mem_offset t, c)
  else
    let size := Type_.size_bytes (Temp.ty t) in
    let offset := align_up (frame_alloc_end c) size in
    let e := offset + size in
    assert! e <=? frame_end c;
    c' ← temp_mut (set_alloc_end c e) tidx (λ t, Temp.set_slot t offset);
    Some (offset, c').

Definition from_raw_parts (ts : list Temp.t) (os : list Op.t) (ls : list Label.t) (nbg : Z)
    : Context :=
  mkContext ts os ls nbg None 0 0 0 RegSet.EMPTY ∅ [] 0.

(** ** The context invariant *)

(** Every counter of the context still fits its [u32] index type. *)
Definition fits (c : Context) : Prop :=
  zlen (temps c) < 2 ^ 32 ∧ zlen (ops c) < 2 ^ 32 ∧ zlen (labels c) < 2 ^ 32.

Record wf_context (c : Context) : Prop := {
  wf_fits : fits c;
  wf_temp_idx i t : (temps c).[i] = Some t → Temp.idx t = i;
  wf_globals_range : 0 ≤ nb_globals c ≤ zlen (temps c);
  wf_globals_first i t :
    (temps c).[i] = Some t → Temp.is_global_or_fixed t = bool_decide (i < nb_globals c);
  wf_ops i o : (ops c).[i] = Some o → Op.idx o = i ∧ length (Op.args o) = 10%nat;
  wf_labels i l : (labels c).[i] = Some l → Label.id l = i;
  wf_const_sound d v i :
    const_table c !! (d, v) = Some i →
    ∃ t, (temps c).[i] = Some t ∧ Temp.kind t = TempKind.Const ∧
         Type_.discr (Temp.ty t) = d ∧ Temp.val t = v;
  wf_const_complete i t :
    (temps c).[i] = Some t → Temp.kind t = TempKind.Const →
    const_table c !! (Type_.discr (Temp.ty t), Temp.val t) = Some i
}.

(** A temp that owns a spill slot of the stack frame. *)
Definition spilled (t : Temp.t) : bool :=
  Temp.mem_allocated t && negb (Temp.is_global_or_fixed t).

Definition slot_end (t : Temp.t) : Z := Temp.mem_offset t + Type_.size_bytes (Temp.ty t).

(** Spill slots lie in the allocated part of the frame, are aligned to their
    size, and do not overlap. *)
Record wf_frame (c : Context) : Prop := {
  fr_range : frame_start c ≤ frame_alloc_end c ≤ frame_end c;
  fr_slot i t :
    (temps c).[i] = Some t → spilled t = true →
    frame_start c ≤ Temp.mem_offset t ∧ slot_end t ≤ frame_alloc_end c ∧
    Temp.mem_offset t mod Type_.size_bytes (Temp.ty t) = 0;
  fr_disjoint i j t t' :
    i ≠ j → (temps c).[i] = Some t → (temps c).[j] = Some t' →
    spilled t = true → spilled t' = true →
    slot_end t ≤ Temp.mem_offset t' ∨ slot_end t' ≤ Temp.mem_offset t
}.

(** What a caller may do through [temp_mut], [op_mut] and [label_mut]: everything but change
    the identity of the thing: of a temp its index, kind, type, value and slot, of an op its
    index ([Op.args] is an array of ten), of a label its number. *)
Definition keeps_temp (f : Temp.t → Temp.t) : Prop := ∀ t,
  (Temp.idx (f t) = Temp.idx t ∧ Temp.kind (f t) = Temp.kind t ∧ Temp.ty (f t) = Temp.ty t ∧
   Temp.val (f t) = Temp.val t) ∧
  Temp.mem_allocated (f t) = Temp.mem_allocated t ∧ Temp.mem_offset (f t) = Temp.mem_offset t.

Definition keeps_op (f : Op.t → Op.t) : Prop := ∀ o,
  Op.idx (f o) = Op.idx o ∧ length (Op.args (f o)) = length (Op.args o).

Definition keeps_label (f : Label.t → Label.t) : Prop := ∀ l, Label.id (f l) = Label.id l.

(** A call sequence on a context: one constructor per mutating method.  The premises are
    what the callers guarantee: the [u32] counters do not wrap, an emitted op has the index
    [next_op_idx] gave, [set_frame] comes before any temp has a spill slot, and what is
    changed through a mutable reference keeps its identity. *)
Inductive ctx_step (c : Context) : Context → Prop :=
| step_new_temp ty : zlen (temps c) + 1 < 2 ^ 32 → ctx_step c (new_temp c ty).2
| step_new_temp_tb ty : zlen (temps c) + 1 < 2 ^ 32 → ctx_step c (new_temp_tb c ty).2
| step_new_const ty v : zlen (temps c) + 1 < 2 ^ 32 → ctx_step c (new_const c ty v).2
| step_new_global ty base offset nm i c' :
    zlen (temps c) + 1 < 2 ^ 32 → new_global c ty base offset nm = Some (i, c') →
    ctx_step c c'
| step_new_fixed ty r nm i c' :
    zlen (temps c) + 1 < 2 ^ 32 → new_fixed c ty r nm = Some (i, c') → ctx_step c c'
| step_temp_mut i f c' : keeps_temp f → temp_mut c i f = Some c' → ctx_step c c'
| step_emit_op o :
    zlen (ops c) + 1 < 2 ^ 32 → Op.idx o = next_op_idx c → length (Op.args o) = 10%nat →
    ctx_step c (emit_op c o).2
| step_op_mut i f c' : keeps_op f → op_mut c i f = Some c' → ctx_step c c'
| step_new_label : zlen (labels c) + 1 < 2 ^ 32 → ctx_step c (new_label c).2
| step_label_mut i f c' : keeps_label f → label_mut c i f = Some c' → ctx_step c c'
| step_set_frame r start size :
    (∀ i t, (temps c).[i] = Some t → spilled t = false) → 0 ≤ size →
    ctx_step c (set_frame c r start size)
| step_alloc_temp_frame i off c' : alloc_temp_frame c i = Some (off, c') → ctx_step c c'
| step_reset : ctx_step c (reset c).

(** ** Replacing an op *)

Lemma op_mut_Some c (i : nat) f o :
  ops c !! i = Some o → op_mut c (Z.of_nat i) f = Some (set_ops c (<[i := f o]> (ops c))).
Proof.
  intros Ho. unfold op_mut. rewrite zlookup_of_nat, Ho. simpl.
  destruct (zinsert (ops c) (Z.of_nat i) (f o)) as [os|] eqn:E.
  - apply zinsert_Some in E as [_ ->]. by rewrite Nat2Z.id.
  - exfalso. revert E. apply not_eq_None_Some. eexists. apply zinsert_Some.
    split; [|done]. apply lookup_lt_Some in Ho. unfold zlen. lia.
Qed.

Lemma set_ops_id c i o : ops c !! i = Some o → set_ops c (<[i := o]> (ops c)) = c.
Proof. intros. rewrite list_insert_id by done. by destruct c. Qed.

(** ** Alignment *)

Lemma size_bytes_pow2 ty : ∃ k, 0 ≤ k ∧ Type_.size_bytes ty = 2 ^ k.
Proof.
  destruct ty; [exists 2|exists 3|exists 4|exists 3|exists 4|exists 5]; split; (lia || done).
Qed.

Lemma size_bytes_pos ty : 0 < Type_.size_bytes ty.
Proof. by destruct ty. Qed.

Lemma land_lnot_pred_pow2 x k : 0 ≤ k → Z.land x (Z.lnot (2 ^ k - 1)) = x / 2 ^ k * 2 ^ k.
Proof.
  intros. rewrite <- Z.shiftl_mul_pow2, <- Z.shiftr_div_pow2 by lia.
  replace (2 ^ k - 1) with (Z.ones k) by (rewrite Z.ones_equiv; lia).
  rewrite <- Z.ldiff_land. apply Z.ldiff_ones_r. lia.
Qed.

(** [align_up] rounds up to the next multiple of a power of two. *)
Lemma align_up_spec e k :
  0 ≤ k → let a := align_up e (2 ^ k) in e ≤ a < e + 2 ^ k ∧ a mod 2 ^ k = 0.
Proof.
  intros Hk. unfold align_up. cbv zeta. rewrite land_lnot_pred_pow2 by done.
  pose proof (pow2_pos k Hk). split; [|apply Z.mod_mul; lia].
  pose proof (Z.div_mod (e + 2 ^ k - 1) (2 ^ k) ltac:(lia)).
  pose proof (Z.mod_pos_bound (e + 2 ^ k - 1) (2 ^ k) ltac:(lia)). lia.
Qed.

(** ** Preservation *)

Lemma with_args_length i o ty a : length (Op.args (Op.with_args i o ty a)) = 10%nat.
Proof. simpl. rewrite length_app, length_take, length_replicate. lia. Qed.

#[export] Hint Resolve with_args_length : tcg.

(** Appending a local, non-constant temp. *)
Lemma wf_push_local c t :
  wf_context c → zlen (temps c) + 1 < 2 ^ 32 →
  Temp.idx t = zlen (temps c) → Temp.is_global_or_fixed t = false →
  Temp.kind t ≠ TempKind.Const → wf_context (set_temps c (temps c ++ [t])).
Proof.
  intros [(? & ? & ?) ? ? ? ? ? Hs ?] Hroom Hidx Hg Hk. split; simpl; try done.
  - unfold fits. simpl. rewrite zlen_app. unfold zlen at 2. simpl. lia.
  - intros i t' [?|[-> ->]]%zlookup_snoc_Some; eauto.
  - rewrite zlen_app. unfold zlen at 2. simpl. lia.
  - intros i t' [?|[-> ->]]%zlookup_snoc_Some; [eauto|].
    rewrite Hg. symmetry. apply bool_decide_eq_false. lia.
  - intros d v i Ht. destruct (Hs _ _ _ Ht) as (t' & ? & ?). eauto with tcg.
  - intros i t' [?|[-> ->]]%zlookup_snoc_Some ?; [eauto|done].
Qed.

Lemma wf_push_global c t :
  wf_context c → zlen (temps c) + 1 < 2 ^ 32 → nb_globals c = zlen (temps c) →
  Temp.idx t = zlen (temps c) → Temp.is_global_or_fixed t = true →
  Temp.kind t ≠ TempKind.Const → wf_context (push_global c t).
Proof.
  intros [(? & ? & ?) ? ? Hfirst ? ? Hs ?] Hroom Hnb Hidx Hg Hk. split; simpl; try done.
  - unfold fits. simpl. rewrite zlen_app. unfold zlen at 2. simpl. lia.
  - intros i t' [?|[-> ->]]%zlookup_snoc_Some; eauto.
  - rewrite zlen_app. unfold zlen at 2. simpl. lia.
  - intros i t' [Hi|[-> ->]]%zlookup_snoc_Some.
    + rewrite (Hfirst _ _ Hi). apply zlookup_lt_Some in Hi.
      rewrite !bool_decide_eq_true_2 by lia. done.
    + rewrite Hg. symmetry. apply bool_decide_eq_true. lia.
  - intros d v i Ht. destruct (Hs _ _ _ Ht) as (t' & ? & ?). eauto with tcg.
  - intros i t' [?|[-> ->]]%zlookup_snoc_Some ?; [eauto|done].
Qed.

Lemma wf_new_const c ty v :
  wf_context c → zlen (temps c) + 1 < 2 ^ 32 → wf_context (new_const c ty v).2.
Proof.
  intros Hwf Hroom. unfold new_const.
  destruct (const_table c !! _) as [i|] eqn:E; [done|].
  destruct Hwf as [(? & ? & ?) ? ? ? ? ? Hs Hc].
  assert (u32 (zlen (temps c)) = zlen (temps c)) as ->
    by (apply u32_small; pose proof (zlen_nonneg (temps c)); lia).
  split; simpl; try done.
  - unfold fits. simpl. rewrite zlen_app. unfold zlen at 2. simpl. lia.
  - intros i t' [?|[-> ->]]%zlookup_snoc_Some; eauto.
  - rewrite zlen_app. unfold zlen at 2. simpl. lia.
  - intros i t' [?|[-> ->]]%zlookup_snoc_Some; [eauto|].
    symmetry. apply bool_decide_eq_false. lia.
  - intros d w i. rewrite lookup_insert. case_decide as Hd.
    + intros [= <-]. simplify_eq. eexists. split; [apply zlookup_snoc|done].
    + intros Ht. destruct (Hs _ _ _ Ht) as (t' & ? & ?). eauto with tcg.
  - intros i t' [Hi|[-> ->]]%zlookup_snoc_Some Hk.
    + pose proof (Hc _ _ Hi Hk). rewrite lookup_insert_ne; [done|]. congruence.
    + by rewrite lookup_insert_eq.
Qed.

Lemma wf_push_op c o :
  wf_context c → zlen (ops c) + 1 < 2 ^ 32 → Op.idx o = next_op_idx c → length (Op.args o) = 10%nat →
  wf_context (emit_op c o).2.
Proof.
  intros [(? & ? & ?) ? ? ? Hops ? ? ?] Hroom Hidx Hargs. split; simpl; try done.
  - unfold fits. simpl. rewrite zlen_app. unfold zlen at 3. simpl. lia.
  - intros i o' [?|[-> ->]]%zlookup_snoc_Some; [eauto|].
    split; [|done]. rewrite Hidx. unfold next_op_idx. apply u32_small. pose proof (zlen_nonneg (ops c)). lia.
Qed.

Lemma wf_emit_op c o ty a :
  wf_context c → zlen (ops c) + 1 < 2 ^ 32 →
  wf_context (emit_op c (Op.with_args (next_op_idx c) o ty a)).2.
Proof. intros. apply wf_push_op; [done..|apply with_args_length]. Qed.

(** In-place update of an op that keeps its index. *)
Lemma wf_op_mut c i f c' : keeps_op f → wf_context c → op_mut c i f = Some c' → wf_context c'.
Proof.
  intros Hf [(? & ? & ?) ? ? ? Hops ? ? ?] Hm. unfold op_mut in Hm.
  destruct ((ops c).[i]) as [o|] eqn:Ei; simpl in Hm; [|done].
  destruct (zinsert (ops c) i (f o)) as [os|] eqn:Ez; simpl in Hm; [|done].
  simplify_eq. apply zinsert_Some in Ez as [Hi ->]. split; simpl; try done.
  - unfold fits. simpl. by rewrite zlen_insert.
  - intros j o'. destruct (decide (i = j)) as [<-|].
    + rewrite zlookup_insert_eq by done. intros [= <-]. destruct (Hf o) as [-> ->]. eauto.
    + rewrite zlookup_insert_ne by lia. eauto.
Qed.

(** In-place update of a temp that keeps its identity. *)
Lemma wf_temp_mut c i f c' :
  (∀ t, Temp.idx (f t) = Temp.idx t ∧ Temp.kind (f t) = Temp.kind t ∧
        Temp.ty (f t) = Temp.ty t ∧ Temp.val (f t) = Temp.val t) →
  wf_context c → temp_mut c i f = Some c' → wf_context c'.
Proof.
  intros Hf [(? & ? & ?) Hidx ? Hfirst ? ? Hs Hc] Hm. unfold temp_mut in Hm.
  destruct ((temps c).[i]) as [t|] eqn:Ei; simpl in Hm; [|done].
  destruct (zinsert (temps c) i (f t)) as [ts|] eqn:Ez; simpl in Hm; [|done].
  simplify_eq. apply zinsert_Some in Ez as [Hi ->].
  destruct (Hf t) as (Hf1 & Hf2 & Hf3 & Hf4).
  assert (∀ j t', (<[Z.to_nat i := f t]> (temps c)).[j] = Some t' →
    ∃ t0, (temps c).[j] = Some t0 ∧ Temp.idx t' = Temp.idx t0 ∧
      Temp.kind t' = Temp.kind t0 ∧ Temp.ty t' = Temp.ty t0 ∧ Temp.val t' = Temp.val t0)
    as Hlook.
  { intros j t'. destruct (decide (i = j)) as [<-|].
    - rewrite zlookup_insert_eq by done. intros [= <-]. eauto.
    - rewrite zlookup_insert_ne by lia. eauto 10. }
  split; simpl; try done.
  - unfold fits. simpl. by rewrite zlen_insert.
  - intros j t' (t0 & Hj & -> & _)%Hlook. eauto.
  - by rewrite zlen_insert.
  - intros j t' (t0 & Hj & _ & Hk & _)%Hlook. rewrite <- (Hfirst _ _ Hj).
    unfold Temp.is_global_or_fixed. by rewrite Hk.
  - intros d v j Ht. destruct (Hs _ _ _ Ht) as (t' & Hj & ? & ? & ?).
    destruct (decide (i = j)) as [<-|].
    + rewrite zlookup_insert_eq by done. simplify_eq. eexists. split; [done|].
      by rewrite Hf2, Hf3, Hf4.
    + rewrite zlookup_insert_ne by lia. eauto.
  - intros j t' (t0 & Hj & _ & Hk & Ht & Hv)%Hlook ?. rewrite Ht, Hv. apply Hc; congruence.
Qed.

Lemma wf_label_mut c i f c' :
  (∀ l, Label.id (f l) = Label.id l) →
  wf_context c → label_mut c i f = Some c' → wf_context c'.
Proof.
  intros Hf [(? & ? & ?) ? ? ? ? Hl ? ?] Hm. unfold label_mut in Hm.
  destruct ((labels c).[i]) as [l|] eqn:Ei; simpl in Hm; [|done].
  destruct (zinsert (labels c) i (f l)) as [ls|] eqn:Ez; simpl in Hm; [|done].
  simplify_eq. apply zinsert_Some in Ez as [Hi ->]. split; simpl; try done.
  - unfold fits. simpl. by rewrite zlen_insert.
  - intros j l'. destruct (decide (i = j)) as [<-|].
    + rewrite zlookup_insert_eq by done. intros [= <-]. rewrite Hf. eauto.
    + rewrite zlookup_insert_ne by lia. eauto.
Qed.

Lemma globals_lookup c i t :
  wf_context c → (take (Z.to_nat (nb_globals c)) (temps c)).[i] = Some t ↔
  (temps c).[i] = Some t ∧ i < nb_globals c.
Proof.
  intros Hwf. pose proof (wf_globals_range _ Hwf). rewrite !zlookup_Some, lookup_take_Some.
  intuition lia.
Qed.

Lemma wf_reset c : wf_context c → wf_context (reset c).
Proof.
  intros Hwf. pose proof (λ i t, proj1 (globals_lookup c i t Hwf)) as Hg.
  pose proof Hwf as [(? & ? & ?) Hidx Hr Hfirst ? ? ? ?].
  assert (zlen (reset_temp <$> take (Z.to_nat (nb_globals c)) (temps c)) = nb_globals c) as Hlen.
  { unfold zlen in *. rewrite length_fmap, length_take. lia. }
  assert (∀ i t, (reset_temp <$> take (Z.to_nat (nb_globals c)) (temps c)).[i] = Some t →
    ∃ t0, (temps c).[i] = Some t0 ∧ i < nb_globals c ∧ t = reset_temp t0) as Hlook.
  { intros i t. rewrite zlookup_fmap. destruct (_.[i]) as [t0|] eqn:E; [|done].
    intros [= <-]. apply Hg in E as [? ?]. eauto. }
  assert (∀ t, Temp.idx (reset_temp t) = Temp.idx t ∧ Temp.kind (reset_temp t) = Temp.kind t)
    as Hkeep by (intros []; unfold reset_temp; simpl; by case_match).
  split; simpl; try done.
  - unfold fits. simpl. rewrite Hlen. unfold zlen at 1 2. simpl. lia.
  - intros i t (t0 & ? & ? & ->)%Hlook. destruct (Hkeep t0) as [-> _]. eauto.
  - lia.
  - intros i t (t0 & Ht & ? & ->)%Hlook. rewrite <- (Hfirst _ _ Ht).
    unfold Temp.is_global_or_fixed. by destruct (Hkeep t0) as [_ ->].
  - intros i o. by rewrite zlookup_nil.
  - intros i l. by rewrite zlookup_nil.
  - intros i t (t0 & Ht & ? & ->)%Hlook Hk. destruct (Hkeep t0) as [_ Hk']. rewrite Hk' in Hk.
    specialize (Hfirst _ _ Ht). unfold Temp.is_global_or_fixed in Hfirst. rewrite Hk in Hfirst.
    rewrite bool_decide_eq_true_2 in Hfirst; done.
Qed.

(** ** Spill slots *)

(** Contexts with the same frame bounds whose spilled temps are spilled temps of
    the old one keep the frame invariant. *)
Lemma wf_frame_mono c c' :
  frame_start c' = frame_start c → frame_alloc_end c' = frame_alloc_end c →
  frame_end c' = frame_end c →
  (∀ i t, (temps c').[i] = Some t → spilled t = true →
     ∃ t0, (temps c).[i] = Some t0 ∧ spilled t0 = true ∧
           Temp.mem_offset t = Temp.mem_offset t0 ∧ Temp.ty t = Temp.ty t0) →
  wf_frame c → wf_frame c'.
Proof.
  intros E1 E2 E3 Hsub [Hr Hslot Hdisj].
  split; rewrite ?E1, ?E2, ?E3; [done|..].
  - intros i t Ht Hs. destruct (Hsub _ _ Ht Hs) as (t0 & Ht0 & Hs0 & Ho & Hty).
    unfold slot_end. rewrite Ho, Hty. by apply (Hslot i).
  - intros i j t t' Hne Ht Ht' Hs Hs'.
    destruct (Hsub _ _ Ht Hs) as (t0 & ? & ? & Ho & Hty).
    destruct (Hsub _ _ Ht' Hs') as (t1 & ? & ? & Ho' & Hty').
    unfold slot_end. rewrite Ho, Hty, Ho', Hty'. by apply (Hdisj i j).
Qed.

(** Appending a temp that owns no slot. *)
Lemma wf_frame_push c c' t :
  temps c' = temps c ++ [t] → spilled t = false →
  frame_start c' = frame_start c → frame_alloc_end c' = frame_alloc_end c →
  frame_end c' = frame_end c → wf_frame c → wf_frame c'.
Proof.
  intros Ht Hs ? ? ?. apply wf_frame_mono; try done. rewrite Ht.
  intros i t' [?|[-> ->]]%zlookup_snoc_Some ?; [eauto|congruence].
Qed.

(** What [alloc_temp_frame] returns: an aligned slot above everything allocated
    so far and inside the frame, or the slot the temp already has. *)
Lemma alloc_temp_frame_spec c i t off c' :
  temp c i = Some t → frame_alloc_end c ≤ frame_end c →
  alloc_temp_frame c i = Some (off, c') →
  off mod Type_.size_bytes (Temp.ty t) = 0 ∧ frame_alloc_end c ≤ off ∧
  off + Type_.size_bytes (Temp.ty t) ≤ frame_end c ∧
  c' = set_temps (set_alloc_end c (off + Type_.size_bytes (Temp.ty t)))
         (<[Z.to_nat i := Temp.set_slot t off]> (temps c)) ∨
  Temp.mem_allocated t = true ∧ off = Temp.mem_offset t ∧ c' = c.
Proof.
  intros Ht Hend. unfold alloc_temp_frame. rewrite Ht. simpl.
  destruct (Temp.mem_allocated t) eqn:Ha; [intros [= <- <-]; auto|].
  destruct (_ <=? _) eqn:Hle; [|done]. unfold temp_mut. simpl. unfold temp in Ht.
  rewrite Ht. simpl. destruct (zinsert _ _ _) as [ts|] eqn:Ez; simpl; [|done].
  intros [= <- <-]. apply zinsert_Some in Ez as [? ->]. boolp. left.
  destruct (size_bytes_pow2 (Temp.ty t)) as (k & Hk & Hsz). rewrite Hsz in *.
  destruct (align_up_spec (frame_alloc_end c) k Hk). split_and!; (done || lia).
Qed.

Lemma wf_frame_alloc c i t off c' :
  wf_frame c → temp c i = Some t → alloc_temp_frame c i = Some (off, c') → wf_frame c'.
Proof.
  intros Hfr Ht Ha. pose proof Hfr as [Hr Hslot Hdisj].
  destruct (alloc_temp_frame_spec _ _ _ _ _ Ht ltac:(lia) Ha)
    as [(Hal & Hlo & Hhi & ->)|(_ & _ & ->)]; [|done].
  pose proof (size_bytes_pos (Temp.ty t)). pose proof (zlookup_lt_Some _ _ _ Ht).
  assert (∀ j t', (<[Z.to_nat i := Temp.set_slot t off]> (temps c)).[j] = Some t' →
    spilled t' = true →
    j = i ∧ t' = Temp.set_slot t off ∨ j ≠ i ∧ (temps c).[j] = Some t' ∧
      frame_start c ≤ Temp.mem_offset t' ∧ slot_end t' ≤ frame_alloc_end c ∧
      Temp.mem_offset t' mod Type_.size_bytes (Temp.ty t') = 0) as Hlook.
  { intros j t'. destruct (decide (i = j)) as [<-|].
    - rewrite zlookup_insert_eq by done. intros [= <-]. auto.
    - rewrite zlookup_insert_ne by lia. intros. right. split; [done|]. split; [done|]. eauto. }
  split; simpl; [lia|..].
  - intros j t' Hj Hs. destruct (Hlook _ _ Hj Hs) as [[-> ->]|(? & ? & ? & ? & ?)].
    + unfold slot_end. simpl. split_and!; (done || lia).
    + split_and!; (done || lia).
  - intros j k t1 t2 Hne Hj Hk Hs1 Hs2.
    destruct (Hlook _ _ Hj Hs1) as [[-> ->]|(? & ? & ? & ? & ?)];
      destruct (Hlook _ _ Hk Hs2) as [[-> ->]|(? & ? & ? & ? & ?)]; [done|..].
    + right. simpl. lia.
    + left. simpl. lia.
    + by eapply (Hdisj j k).
Qed.

Lemma new_const_temps c ty v :
  temps (new_const c ty v).2 = temps c ∨
  temps (new_const c ty v).2 = temps c ++ [Temp.new_const (u32 (zlen (temps c))) ty v].
Proof. unfold new_const. case_match; auto. Qed.

Lemma wf_frame_temp_mut c i f c' : keeps_temp f → temp_mut c i f = Some c' → wf_frame c → wf_frame c'.
Proof.
  intros Hf. unfold temp_mut. destruct ((temps c).[i]) as [t|] eqn:Ht; simpl; [|done].
  destruct (zinsert _ _ _) as [ts|] eqn:Ez; simpl; [|done]. intros [= <-].
  apply zinsert_Some in Ez as [? ->]. apply wf_frame_mono; try done. simpl.
  destruct (Hf t) as ((_ & Hk & Hty & _) & Ha & Ho).
  intros j t'. destruct (decide (i = j)) as [<-|].
  - rewrite zlookup_insert_eq by done. intros [= <-] Hs. exists t. split_and!; [done| |done..].
    unfold spilled, Temp.is_global_or_fixed in *. by rewrite Hk, Ha in Hs.
  - rewrite zlookup_insert_ne by lia. eauto 10.
Qed.

Lemma wf_frame_reset c : wf_context c → wf_frame c → wf_frame (reset c).
Proof.
  intros Hwf [Hr _ _].
  assert (∀ i t, (temps (reset c)).[i] = Some t → spilled t = true → False) as Hno.
  { intros i t Hi Hs. pose proof (wf_globals_first _ (wf_reset _ Hwf) _ _ Hi) as Hg.
    pose proof (zlookup_lt_Some _ _ _ Hi) as Hlt. unfold zlen in Hlt. simpl in Hlt.
    rewrite length_fmap, length_take in Hlt. unfold spilled in Hs. rewrite Hg in Hs.
    simpl in Hs. pose proof (wf_globals_range _ Hwf).
    rewrite bool_decide_eq_true_2, andb_false_r in Hs by lia. done. }
  split; simpl; [lia|..]; intros; exfalso; eauto.
Qed.

(** Label mutations do not touch the frame. *)
Lemma wf_frame_label_mut c i f c' : label_mut c i f = Some c' → wf_frame c → wf_frame c'.
Proof.
  unfold label_mut. destruct (labels c).[i]; simpl; [|done].
  destruct (zinsert _ _ _); simpl; [|done]. intros [= <-].
  apply (wf_frame_mono c); simpl; eauto 10.
Qed.

(** Nor do op mutations. *)
Lemma wf_frame_op_mut c i f c' : op_mut c i f = Some c' → wf_frame c → wf_frame c'.
Proof.
  unfold op_mut. destruct (ops c).[i]; simpl; [|done].
  destruct (zinsert _ _ _); simpl; [|done]. intros [= <-].
  apply (wf_frame_mono c); simpl; eauto 10.
Qed.

(** Giving a temp its spill slot keeps the context invariant. *)
Lemma wf_alloc_temp_frame c i off c' :
  wf_context c → frame_alloc_end c ≤ frame_end c →
  alloc_temp_frame c i = Some (off, c') → wf_context c'.
Proof.
  intros Hwf Hend Ha. destruct (temp c i) as [t|] eqn:Ht.
  2:{ unfold alloc_temp_frame in Ha. by rewrite Ht in Ha. }
  destruct (alloc_temp_frame_spec _ _ _ _ _ Ht Hend Ha) as [(_ & _ & _ & ->)|(_ & _ & ->)];
    [|done].
  assert (temp_mut c i (λ t, Temp.set_slot t off) =
    Some (set_temps c (<[Z.to_nat i := Temp.set_slot t off]> (temps c)))) as Hm.
  { unfold temp_mut. unfold temp in Ht. rewrite Ht. simpl.
    destruct (zinsert _ _ _) as [ts|] eqn:E; [by apply zinsert_Some in E as [_ ->]|].
    exfalso. revert E. apply not_eq_None_Some. eexists.
    apply zinsert_Some. split; [by eapply zlookup_lt_Some|done]. }
  apply wf_temp_mut in Hm; [by destruct Hm|done|done].
Qed.

(** ** Every call sequence keeps the invariants *)

Lemma ctx_step_wf c c' : ctx_step c c' → wf_context c ∧ wf_frame c → wf_context c' ∧ wf_frame c'.
Proof.
  intros Hstep [Hwf Hfr]. pose proof (zlen_nonneg (temps c)).
  assert (zlen (temps c) + 1 < 2 ^ 32 → u32 (zlen (temps c)) = zlen (temps c)) as Hu
    by (intros; apply u32_small; lia).
  destruct Hstep as [ty Hroom|ty Hroom|ty v Hroom|ty base off nm i c' Hroom H1
    |ty r nm i c' Hroom H1|i f c' Hf H1|o Hroom Hidx Hargs|i f c' Hf H1|Hroom|i f c' Hf H1
    |r start size Hno Hsz|i off c' Ha|].
  - split; [apply wf_push_local; simpl; auto|]. by eapply wf_frame_push.
  - split; [apply wf_push_local; simpl; auto|]. by eapply wf_frame_push.
  - split; [by apply wf_new_const|]. unfold new_const. case_match; [done|].
    by eapply wf_frame_push.
  - unfold new_global in H1. case_in H1; [|done]. boolp. simplify_eq.
    split; [apply wf_push_global; simpl; auto; lia|]. by eapply wf_frame_push.
  - unfold new_fixed in H1. case_in H1; [|done]. boolp. simplify_eq.
    split; [apply wf_push_global; simpl; auto; lia|]. by eapply wf_frame_push.
  - split; [|by eapply wf_frame_temp_mut]. eapply wf_temp_mut, H1; [|done]. intros t. apply Hf.
  - split; [by apply wf_push_op|]. apply (wf_frame_mono c); simpl; eauto 10.
  - split; [by eapply wf_op_mut|by eapply wf_frame_op_mut].
  - split; [|apply (wf_frame_mono c); simpl; eauto 10].
    destruct Hwf as [(? & ? & ?) ? ? ? ? ? ? ?]. split; simpl; try done.
    + unfold fits. simpl. rewrite zlen_app. unfold zlen at 4. simpl. lia.
    + intros j l [?|[-> ->]]%zlookup_snoc_Some; [eauto|]. simpl. apply u32_small.
      pose proof (zlen_nonneg (labels c)). lia.
  - split; [by eapply wf_label_mut, H1|by eapply wf_frame_label_mut].
  - split; [by destruct Hwf|]. split; simpl; [lia|..].
    + intros i t Ht Hs. by rewrite (Hno _ _ Ht) in Hs.
    + intros i j t t' _ Ht _ Hs. by rewrite (Hno _ _ Ht) in Hs.
  - pose proof (fr_range _ Hfr). split; [by eapply (wf_alloc_temp_frame c i off); [|lia|]|].
    destruct (temp c i) as [t|] eqn:Ht; [by eapply wf_frame_alloc|]. unfold alloc_temp_frame in Ha. by rewrite Ht in Ha.
  - split; [by apply wf_reset | by apply wf_frame_reset].
Qed.

Lemma context_new_wf : wf_context context_new ∧ wf_frame context_new.
Proof.
  split; split; simpl; try (unfold fits, zlen; simpl; lia); intros;
    rewrite ?zlookup_nil in *; try done; by rewrite lookup_empty in *.
Qed.

Lemma rtc_ctx_step_wf c c' :
  rtc ctx_step c c' → wf_context c ∧ wf_frame c → wf_context c' ∧ wf_frame c'.
Proof. induction 1; eauto using ctx_step_wf. Qed.

(** A small context: the env pointer, one guest register, a local and a constant. *)
Definition example_context : Context :=
  let c := set_frame context_new 4 128 1024 in
  let c := default c (snd <$> new_fixed c Type_.I64 5 "env") in
  let c := default c (snd <$> new_global c Type_.I64 0 8 "gpr") in
  (new_const (new_temp c Type_.I32).2 Type_.I64 7).2.

Lemma example_context_reachable : rtc ctx_step context_new example_context.
Proof.
  eapply rtc_l; [apply (step_set_frame _ 4 128 1024); [intros i t Ht; unfold context_new in Ht; cbn [temps] in Ht; by rewrite zlookup_nil in Ht|lia]|].
  eapply rtc_l; [eapply (step_new_fixed _ Type_.I64 5 "env"); [by vm_compute|reflexivity]|].
  eapply rtc_l; [eapply (step_new_global _ Type_.I64 0 8 "gpr"); [by vm_compute|reflexivity]|].
  eapply rtc_l; [apply (step_new_temp _ Type_.I32); by vm_compute|].
  eapply rtc_l; [apply (step_new_const _ Type_.I64 7); by vm_compute|].
  apply rtc_refl.
Qed.

Lemma example_context_wf : wf_context example_context.
Proof. apply (rtc_ctx_step_wf _ _ example_context_reachable), context_new_wf. Qed.

(** C23. A context that any sequence of calls of the mutating methods of [Context] produces
    from [Context::new] satisfies the context invariant: temp, op and label indices are their
    positions, globals and fixed temps come first, the constant table is sound and complete
    (so [new_const] never duplicates a constant), and spill slots are aligned, inside the
    frame and pairwise disjoint.  The calls are those of [ctx_step]: counters fit [u32], an
    emitted op has the next index, the frame is set before any slot is given, and
    [temp_mut], [op_mut] and [label_mut] are used for changes that keep index, kind, type,
    value and slot of a temp, the index of an op, the number of a label. *)
Theorem context_reachable_wf c : rtc ctx_step context_new c → wf_context c ∧ wf_frame c.
Proof. intros H. apply (rtc_ctx_step_wf _ _ H), context_new_wf. Qed.

Lemma context_reachable_wf_witness : wf_context example_context ∧ wf_frame example_context.
Proof. apply context_reachable_wf, example_context_reachable. Defined.

(** ** Example blocks

    The blocks of the examples start from four [I64] locals 0..3 and two [I32]
    locals 4 and 5. *)

Definition six_temps : Context :=
  let new ty c := (new_temp c ty).2 in
  new Type_.I32 (new Type_.I32 (new Type_.I64 (new Type_.I64 (new Type_.I64 (new Type_.I64
    context_new))))).

Definition emit (o : Opcode.t) (ty : Type_.t) (a : list Z) (c : Context) : Context :=
  (emit_op c (Op.with_args (next_op_idx c) o ty a)).2.

Lemma emit_reachable o ty a c :
  rtc ctx_step context_new c → zlen (ops c) + 1 < 2 ^ 32 → rtc ctx_step context_new (emit o ty a c).
Proof. intros H ?. eapply rtc_r; [exact H|]. apply step_emit_op; [done..|apply with_args_length]. Qed.

Lemma new_const_reachable ty v c :
  rtc ctx_step context_new c → zlen (temps c) + 1 < 2 ^ 32 →
  rtc ctx_step context_new (new_const c ty v).2.
Proof. intros H ?. eapply rtc_r; [exact H|]. by apply step_new_const. Qed.

Lemma new_temp_reachable ty c :
  rtc ctx_step context_new c → zlen (temps c) + 1 < 2 ^ 32 →
  rtc ctx_step context_new (new_temp c ty).2.
Proof. intros H ?. eapply rtc_r; [exact H|]. by apply step_new_temp. Qed.

Lemma new_label_reachable c :
  rtc ctx_step context_new c → zlen (labels c) + 1 < 2 ^ 32 →
  rtc ctx_step context_new (new_label c).2.
Proof. intros H ?. eapply rtc_r; [exact H|]. by apply step_new_label. Qed.

Ltac solve_block_wf :=
  apply (λ H, proj1 (rtc_ctx_step_wf _ _ H context_new_wf));
  repeat first
    [ apply emit_reachable; [|by vm_compute] | apply new_const_reachable; [|by vm_compute]
    | apply new_label_reachable; [|by vm_compute] | apply new_temp_reachable; [|by vm_compute] ];
  try apply rtc_refl.
