(* ===== verification/Builder.v ===== *)
(** * The IR builder (core/src/ir_builder.rs)

    One definition per [gen_*] and [emit_*] method of [Context].  A method that
    returns its destination temp is a function to [Z * Context]; the others
    return the new context.  Constant arguments are [TempIdx(value as u32)], as
    in the source.

    [builder_ops_complete] shows that any sequence of builder calls appends
    complete operations: argument count as the opcode table says, unused slots
    zero, the opcode's fixed type, the returned temp being the op's output. *)

From S2P Require Import Prelude Types Opcodes Ir.

(** [carg(val)]: a constant argument is stored as [TempIdx(val)]. *)
Definition carg (val : Z) : Z := val.

Definition emit_binary (c : Context) (opc : Opcode.t) (ty : Type_.t) (dst a b : Z) : Z * Context :=
  let idx := next_op_idx c in
  let op := Op.with_args idx opc ty [dst; a; b] in
  (dst, (emit_op c op).2).

Definition emit_unary (c : Context) (opc : Opcode.t) (ty : Type_.t) (dst src : Z) : Z * Context :=
  let idx := next_op_idx c in
  let op := Op.with_args idx opc ty [dst; src] in
  (dst, (emit_op c op).2).

Definition gen_add (c : Context) (ty : Type_.t) (d a b : Z) : Z * Context :=
  emit_binary c Opcode.Add ty d a b.

Definition gen_sub (c : Context) (ty : Type_.t) (d a b : Z) : Z * Context :=
  emit_binary c Opcode.Sub ty d a b.

Definition gen_mul (c : Context) (ty : Type_.t) (d a b : Z) : Z * Context :=
  emit_binary c Opcode.Mul ty d a b.

Definition gen_and (c : Context) (ty : Type_.t) (d a b : Z) : Z * Context :=
  emit_binary c Opcode.And ty d a b.

Definition gen_or (c : Context) (ty : Type_.t) (d a b : Z) : Z * Context :=
  emit_binary c Opcode.Or ty d a b.

Definition gen_xor (c : Context) (ty : Type_.t) (d a b : Z) : Z * Context :=
  emit_binary c Opcode.Xor ty d a b.

Definition gen_shl (c : Context) (ty : Type_.t) (d a b : Z) : Z * Context :=
  emit_binary c Opcode.Shl ty d a b.

Definition gen_shr (c : Context) (ty : Type_.t) (d a b : Z) : Z * Context :=
  emit_binary c Opcode.Shr ty d a b.

Definition gen_sar (c : Context) (ty : Type_.t) (d a b : Z) : Z * Context :=
  emit_binary c Opcode.Sar ty d a b.

Definition gen_rotl (c : Context) (ty : Type_.t) (d a b : Z) : Z * Context :=
  emit_binary c Opcode.RotL ty d a b.

Definition gen_rotr (c : Context) (ty : Type_.t) (d a b : Z) : Z * Context :=
  emit_binary c Opcode.RotR ty d a b.

Definition gen_andc (c : Context) (ty : Type_.t) (d a b : Z) : Z * Context :=
  emit_binary c Opcode.AndC ty d a b.

Definition gen_orc (c : Context) (ty : Type_.t) (d a b : Z) : Z * Context :=
  emit_binary c Opcode.OrC ty d a b.

Definition gen_eqv (c : Context) (ty : Type_.t) (d a b : Z) : Z * Context :=
  emit_binary c Opcode.Eqv ty d a b.

Definition gen_nand (c : Context) (ty : Type_.t) (d a b : Z) : Z * Context :=
  emit_binary c Opcode.Nand ty d a b.

Definition gen_nor (c : Context) (ty : Type_.t) (d a b : Z) : Z * Context :=
  emit_binary c Opcode.Nor ty d a b.

Definition gen_divs (c : Context) (ty : Type_.t) (d a b : Z) : Z * Context :=
  emit_binary c Opcode.DivS ty d a b.

Definition gen_divu (c : Context) (ty : Type_.t) (d a b : Z) : Z * Context :=
  emit_binary c Opcode.DivU ty d a b.

Definition gen_rems (c : Context) (ty : Type_.t) (d a b : Z) : Z * Context :=
  emit_binary c Opcode.RemS ty d a b.

Definition gen_remu (c : Context) (ty : Type_.t) (d a b : Z) : Z * Context :=
  emit_binary c Opcode.RemU ty d a b.

Definition gen_divs2 (c : Context) (ty : Type_.t) (dl dh al ah b : Z) : Context :=
  let idx := next_op_idx c in
  let op := Op.with_args idx Opcode.DivS2 ty [dl; dh; al; ah; b] in
  (emit_op c op).2.

Definition gen_divu2 (c : Context) (ty : Type_.t) (dl dh al ah b : Z) : Context :=
  let idx := next_op_idx c in
  let op := Op.with_args idx Opcode.DivU2 ty [dl; dh; al; ah; b] in
  (emit_op c op).2.

Definition gen_muls2 (c : Context) (ty : Type_.t) (dl dh a b : Z) : Context :=
  let idx := next_op_idx c in
  let op := Op.with_args idx Opcode.MulS2 ty [dl; dh; a; b] in
  (emit_op c op).2.

Definition gen_mulu2 (c : Context) (ty : Type_.t) (dl dh a b : Z) : Context :=
  let idx := next_op_idx c in
  let op := Op.with_args idx Opcode.MulU2 ty [dl; dh; a; b] in
  (emit_op c op).2.

Definition gen_mulsh (c : Context) (ty : Type_.t) (d a b : Z) : Z * Context :=
  emit_binary c Opcode.MulSH ty d a b.

Definition gen_muluh (c : Context) (ty : Type_.t) (d a b : Z) : Z * Context :=
  emit_binary c Opcode.MulUH ty d a b.

Definition gen_addco (c : Context) (ty : Type_.t) (d a b : Z) : Z * Context :=
  emit_binary c Opcode.AddCO ty d a b.

Definition gen_addci (c : Context) (ty : Type_.t) (d a b : Z) : Z * Context :=
  emit_binary c Opcode.AddCI ty d a b.

Definition gen_addcio (c : Context) (ty : Type_.t) (d a b : Z) : Z * Context :=
  emit_binary c Opcode.AddCIO ty d a b.

Definition gen_addc1o (c : Context) (ty : Type_.t) (d a b : Z) : Z * Context :=
  emit_binary c Opcode.AddC1O ty d a b.

Definition gen_subbo (c : Context) (ty : Type_.t) (d a b : Z) : Z * Context :=
  emit_binary c Opcode.SubBO ty d a b.

Definition gen_subbi (c : Context) (ty : Type_.t) (d a b : Z) : Z * Context :=
  emit_binary c Opcode.SubBI ty d a b.

Definition gen_subbio (c : Context) (ty : Type_.t) (d a b : Z) : Z * Context :=
  emit_binary c Opcode.SubBIO ty d a b.

Definition gen_subb1o (c : Context) (ty : Type_.t) (d a b : Z) : Z * Context :=
  emit_binary c Opcode.SubB1O ty d a b.

Definition gen_extract (c : Context) (ty : Type_.t) (d src ofs len : Z) : Z * Context :=
  let idx := next_op_idx c in
  let op := Op.with_args idx Opcode.Extract ty [d; src; carg ofs; carg len] in
  (d, (emit_op c op).2).

Definition gen_sextract (c : Context) (ty : Type_.t) (d src ofs len : Z) : Z * Context :=
  let idx := next_op_idx c in
  let op := Op.with_args idx Opcode.SExtract ty [d; src; carg ofs; carg len] in
  (d, (emit_op c op).2).

Definition gen_deposit (c : Context) (ty : Type_.t) (d a b ofs len : Z) : Z * Context :=
  let idx := next_op_idx c in
  let op := Op.with_args idx Opcode.Deposit ty [d; a; b; carg ofs; carg len] in
  (d, (emit_op c op).2).

Definition gen_extract2 (c : Context) (ty : Type_.t) (d al ah ofs : Z) : Z * Context :=
  let idx := next_op_idx c in
  let op := Op.with_args idx Opcode.Extract2 ty [d; al; ah; carg ofs] in
  (d, (emit_op c op).2).

Definition gen_bswap16 (c : Context) (ty : Type_.t) (d src flags : Z) : Z * Context :=
  let idx := next_op_idx c in
  let op := Op.with_args idx Opcode.Bswap16 ty [d; src; carg flags] in
  (d, (emit_op c op).2).

Definition gen_bswap32 (c : Context) (ty : Type_.t) (d src flags : Z) : Z * Context :=
  let idx := next_op_idx c in
  let op := Op.with_args idx Opcode.Bswap32 ty [d; src; carg flags] in
  (d, (emit_op c op).2).

Definition gen_bswap64 (c : Context) (ty : Type_.t) (d src flags : Z) : Z * Context :=
  let idx := next_op_idx c in
  let op := Op.with_args idx Opcode.Bswap64 ty [d; src; carg flags] in
  (d, (emit_op c op).2).

Definition gen_clz (c : Context) (ty : Type_.t) (d a b : Z) : Z * Context :=
  emit_binary c Opcode.Clz ty d a b.

Definition gen_ctz (c : Context) (ty : Type_.t) (d a b : Z) : Z * Context :=
  emit_binary c Opcode.Ctz ty d a b.

Definition gen_ctpop (c : Context) (ty : Type_.t) (d src : Z) : Z * Context :=
  emit_unary c Opcode.CtPop ty d src.

Definition gen_brcond2_i32 (c : Context) (al ah bl bh : Z) (cond : Cond.t) (label_id : Z) : Context :=
  let idx := next_op_idx c in
  let op := Op.with_args idx Opcode.BrCond2I32 Type_.I32 [al; ah; bl; bh; carg (Cond.discr cond); carg label_id] in
  (emit_op c op).2.

Definition gen_setcond2_i32 (c : Context) (d al ah bl bh : Z) (cond : Cond.t) : Z * Context :=
  let idx := next_op_idx c in
  let op := Op.with_args idx Opcode.SetCond2I32 Type_.I32 [d; al; ah; bl; bh; carg (Cond.discr cond)] in
  (d, (emit_op c op).2).

Definition gen_negsetcond (c : Context) (ty : Type_.t) (d a b : Z) (cond : Cond.t) : Z * Context :=
  let idx := next_op_idx c in
  let op := Op.with_args idx Opcode.NegSetCond ty [d; a; b; carg (Cond.discr cond)] in
  (d, (emit_op c op).2).

Definition gen_movcond (c : Context) (ty : Type_.t) (d c1 c2 v1 v2 : Z) (cond : Cond.t) : Z * Context :=
  let idx := next_op_idx c in
  let op := Op.with_args idx Opcode.MovCond ty [d; c1; c2; v1; v2; carg (Cond.discr cond)] in
  (d, (emit_op c op).2).

Definition gen_neg (c : Context) (ty : Type_.t) (d s : Z) : Z * Context :=
  emit_unary c Opcode.Neg ty d s.

Definition gen_not (c : Context) (ty : Type_.t) (d s : Z) : Z * Context :=
  emit_unary c Opcode.Not ty d s.

Definition gen_mov (c : Context) (ty : Type_.t) (d s : Z) : Z * Context :=
  emit_unary c Opcode.Mov ty d s.

Definition gen_ext_i32_i64 (c : Context) (d s : Z) : Z * Context :=
  emit_unary c Opcode.ExtI32I64 Type_.I64 d s.

Definition gen_ext_u32_i64 (c : Context) (d s : Z) : Z * Context :=
  emit_unary c Opcode.ExtUI32I64 Type_.I64 d s.

Definition gen_extrl_i64_i32 (c : Context) (d s : Z) : Z * Context :=
  emit_unary c Opcode.ExtrlI64I32 Type_.I32 d s.

Definition gen_extrh_i64_i32 (c : Context) (d s : Z) : Z * Context :=
  emit_unary c Opcode.ExtrhI64I32 Type_.I32 d s.

Definition gen_setcond (c : Context) (ty : Type_.t) (d a b : Z) (cond : Cond.t) : Z * Context :=
  let idx := next_op_idx c in
  let op := Op.with_args idx Opcode.SetCond ty [d; a; b; carg (Cond.discr cond)] in
  (d, (emit_op c op).2).

Definition gen_ld (c : Context) (ty : Type_.t) (dst base offset : Z) : Z * Context :=
  let idx := next_op_idx c in
  let op := Op.with_args idx Opcode.Ld ty [dst; base; carg (u32 offset)] in
  (dst, (emit_op c op).2).

Definition gen_st (c : Context) (ty : Type_.t) (src base offset : Z) : Context :=
  let idx := next_op_idx c in
  let op := Op.with_args idx Opcode.St ty [src; base; carg (u32 offset)] in
  (emit_op c op).2.

Definition emit_sized_load (c : Context) (opc : Opcode.t) (ty : Type_.t) (dst base offset : Z) : Z * Context :=
  let idx := next_op_idx c in
  let op := Op.with_args idx opc ty [dst; base; carg (u32 offset)] in
  (dst, (emit_op c op).2).

Definition gen_ld8u (c : Context) (ty : Type_.t) (dst base offset : Z) : Z * Context :=
  emit_sized_load c Opcode.Ld8U ty dst base offset.

Definition gen_ld8s (c : Context) (ty : Type_.t) (dst base offset : Z) : Z * Context :=
  emit_sized_load c Opcode.Ld8S ty dst base offset.

Definition gen_ld16u (c : Context) (ty : Type_.t) (dst base offset : Z) : Z * Context :=
  emit_sized_load c Opcode.Ld16U ty dst base offset.

Definition gen_ld16s (c : Context) (ty : Type_.t) (dst base offset : Z) : Z * Context :=
  emit_sized_load c Opcode.Ld16S ty dst base offset.

Definition gen_ld32u (c : Context) (ty : Type_.t) (dst base offset : Z) : Z * Context :=
  emit_sized_load c Opcode.Ld32U ty dst base offset.

Definition gen_ld32s (c : Context) (ty : Type_.t) (dst base offset : Z) : Z * Context :=
  emit_sized_load c Opcode.Ld32S ty dst base offset.

Definition emit_sized_store (c : Context) (opc : Opcode.t) (ty : Type_.t) (src base offset : Z) : Context :=
  let idx := next_op_idx c in
  let op := Op.with_args idx opc ty [src; base; carg (u32 offset)] in
  (emit_op c op).2.

Definition gen_st8 (c : Context) (ty : Type_.t) (src base offset : Z) : Context :=
  emit_sized_store c Opcode.St8 ty src base offset.

Definition gen_st16 (c : Context) (ty : Type_.t) (src base offset : Z) : Context :=
  emit_sized_store c Opcode.St16 ty src base offset.

Definition gen_st32 (c : Context) (ty : Type_.t) (src base offset : Z) : Context :=
  emit_sized_store c Opcode.St32 ty src base offset.

Definition gen_br (c : Context) (label_id : Z) : Context :=
  let idx := next_op_idx c in
  let op := Op.with_args idx Opcode.Br Type_.I64 [carg label_id] in
  (emit_op c op).2.

Definition gen_brcond (c : Context) (ty : Type_.t) (a b : Z) (cond : Cond.t) (label_id : Z) : Context :=
  let idx := next_op_idx c in
  let op := Op.with_args idx Opcode.BrCond ty [a; b; carg (Cond.discr cond); carg label_id] in
  (emit_op c op).2.

Definition gen_set_label (c : Context) (label_id : Z) : Context :=
  let idx := next_op_idx c in
  let op := Op.with_args idx Opcode.SetLabel Type_.I64 [carg label_id] in
  (emit_op c op).2.

Definition gen_goto_tb (c : Context) (tb_idx : Z) : Context :=
  let idx := next_op_idx c in
  let op := Op.with_args idx Opcode.GotoTb Type_.I64 [carg tb_idx] in
  (emit_op c op).2.

Definition gen_exit_tb (c : Context) (val : Z) : Context :=
  let idx := next_op_idx c in
  let op := Op.with_args idx Opcode.ExitTb Type_.I64 [carg (u32 val)] in
  (emit_op c op).2.

Definition gen_insn_start (c : Context) (pc : Z) : Context :=
  let idx := next_op_idx c in
  let op := Op.with_args idx Opcode.InsnStart Type_.I64 [carg (u32 pc); carg (u32 (Z.shiftr pc 32))] in
  (emit_op c op).2.

Definition gen_goto_ptr (c : Context) (ptr : Z) : Context :=
  let idx := next_op_idx c in
  let op := Op.with_args idx Opcode.GotoPtr Type_.I64 [ptr] in
  (emit_op c op).2.

Definition gen_mb (c : Context) (bar_type : Z) : Context :=
  let idx := next_op_idx c in
  let op := Op.with_args idx Opcode.Mb Type_.I64 [carg bar_type] in
  (emit_op c op).2.

Definition gen_discard (c : Context) (ty : Type_.t) (t : Z) : Context :=
  let idx := next_op_idx c in
  let op := Op.with_args idx Opcode.Discard ty [t] in
  (emit_op c op).2.

Definition gen_qemu_ld (c : Context) (ty : Type_.t) (dst addr memop : Z) : Z * Context :=
  let idx := next_op_idx c in
  let op := Op.with_args idx Opcode.QemuLd ty [dst; addr; carg memop] in
  (dst, (emit_op c op).2).

Definition gen_qemu_st (c : Context) (ty : Type_.t) (val addr memop : Z) : Context :=
  let idx := next_op_idx c in
  let op := Op.with_args idx Opcode.QemuSt ty [val; addr; carg memop] in
  (emit_op c op).2.

Definition gen_qemu_ld2 (c : Context) (ty : Type_.t) (dl dh addr memop : Z) : Context :=
  let idx := next_op_idx c in
  let op := Op.with_args idx Opcode.QemuLd2 ty [dl; dh; addr; carg memop] in
  (emit_op c op).2.

Definition gen_qemu_st2 (c : Context) (ty : Type_.t) (vl vh addr memop : Z) : Context :=
  let idx := next_op_idx c in
  let op := Op.with_args idx Opcode.QemuSt2 ty [vl; vh; addr; carg memop] in
  (emit_op c op).2.

Definition emit_vec_binary (c : Context) (opc : Opcode.t) (ty : Type_.t) (d a b : Z) : Z * Context :=
  let idx := next_op_idx c in
  let op := Op.with_args idx opc ty [d; a; b] in
  (d, (emit_op c op).2).

Definition emit_vec_unary (c : Context) (opc : Opcode.t) (ty : Type_.t) (d s : Z) : Z * Context :=
  let idx := next_op_idx c in
  let op := Op.with_args idx opc ty [d; s] in
  (d, (emit_op c op).2).

Definition gen_dup_vec (c : Context) (ty : Type_.t) (d s : Z) : Z * Context :=
  emit_vec_unary c Opcode.DupVec ty d s.

Definition gen_dup2_vec (c : Context) (ty : Type_.t) (d a b : Z) : Z * Context :=
  emit_vec_binary c Opcode.Dup2Vec ty d a b.

Definition gen_ld_vec (c : Context) (ty : Type_.t) (dst base offset : Z) : Z * Context :=
  let idx := next_op_idx c in
  let op := Op.with_args idx Opcode.LdVec ty [dst; base; carg (u32 offset)] in
  (dst, (emit_op c op).2).

Definition gen_st_vec (c : Context) (ty : Type_.t) (src base offset : Z) : Context :=
  let idx := next_op_idx c in
  let op := Op.with_args idx Opcode.StVec ty [src; base; carg (u32 offset)] in
  (emit_op c op).2.

Definition gen_dupm_vec (c : Context) (ty : Type_.t) (dst base offset : Z) : Z * Context :=
  let idx := next_op_idx c in
  let op := Op.with_args idx Opcode.DupmVec ty [dst; base; carg (u32 offset)] in
  (dst, (emit_op c op).2).

Definition gen_add_vec (c : Context) (ty : Type_.t) (d a b : Z) : Z * Context :=
  emit_vec_binary c Opcode.AddVec ty d a b.

Definition gen_sub_vec (c : Context) (ty : Type_.t) (d a b : Z) : Z * Context :=
  emit_vec_binary c Opcode.SubVec ty d a b.

Definition gen_mul_vec (c : Context) (ty : Type_.t) (d a b : Z) : Z * Context :=
  emit_vec_binary c Opcode.MulVec ty d a b.

Definition gen_neg_vec (c : Context) (ty : Type_.t) (d s : Z) : Z * Context :=
  emit_vec_unary c Opcode.NegVec ty d s.

Definition gen_abs_vec (c : Context) (ty : Type_.t) (d s : Z) : Z * Context :=
  emit_vec_unary c Opcode.AbsVec ty d s.

Definition gen_ssadd_vec (c : Context) (ty : Type_.t) (d a b : Z) : Z * Context :=
  emit_vec_binary c Opcode.SsaddVec ty d a b.

Definition gen_usadd_vec (c : Context) (ty : Type_.t) (d a b : Z) : Z * Context :=
  emit_vec_binary c Opcode.UsaddVec ty d a b.

Definition gen_sssub_vec (c : Context) (ty : Type_.t) (d a b : Z) : Z * Context :=
  emit_vec_binary c Opcode.SssubVec ty d a b.

Definition gen_ussub_vec (c : Context) (ty : Type_.t) (d a b : Z) : Z * Context :=
  emit_vec_binary c Opcode.UssubVec ty d a b.

Definition gen_smin_vec (c : Context) (ty : Type_.t) (d a b : Z) : Z * Context :=
  emit_vec_binary c Opcode.SminVec ty d a b.

Definition gen_umin_vec (c : Context) (ty : Type_.t) (d a b : Z) : Z * Context :=
  emit_vec_binary c Opcode.UminVec ty d a b.

Definition gen_smax_vec (c : Context) (ty : Type_.t) (d a b : Z) : Z * Context :=
  emit_vec_binary c Opcode.SmaxVec ty d a b.

Definition gen_umax_vec (c : Context) (ty : Type_.t) (d a b : Z) : Z * Context :=
  emit_vec_binary c Opcode.UmaxVec ty d a b.

Definition gen_and_vec (c : Context) (ty : Type_.t) (d a b : Z) : Z * Context :=
  emit_vec_binary c Opcode.AndVec ty d a b.

Definition gen_or_vec (c : Context) (ty : Type_.t) (d a b : Z) : Z * Context :=
  emit_vec_binary c Opcode.OrVec ty d a b.

Definition gen_xor_vec (c : Context) (ty : Type_.t) (d a b : Z) : Z * Context :=
  emit_vec_binary c Opcode.XorVec ty d a b.

Definition gen_andc_vec (c : Context) (ty : Type_.t) (d a b : Z) : Z * Context :=
  emit_vec_binary c Opcode.AndcVec ty d a b.

Definition gen_orc_vec (c : Context) (ty : Type_.t) (d a b : Z) : Z * Context :=
  emit_vec_binary c Opcode.OrcVec ty d a b.

Definition gen_nand_vec (c : Context) (ty : Type_.t) (d a b : Z) : Z * Context :=
  emit_vec_binary c Opcode.NandVec ty d a b.

Definition gen_nor_vec (c : Context) (ty : Type_.t) (d a b : Z) : Z * Context :=
  emit_vec_binary c Opcode.NorVec ty d a b.

Definition gen_eqv_vec (c : Context) (ty : Type_.t) (d a b : Z) : Z * Context :=
  emit_vec_binary c Opcode.EqvVec ty d a b.

Definition gen_not_vec (c : Context) (ty : Type_.t) (d s : Z) : Z * Context :=
  emit_vec_unary c Opcode.NotVec ty d s.

Definition emit_vec_shift_imm (c : Context) (opc : Opcode.t) (ty : Type_.t) (d s imm : Z) : Z * Context :=
  let idx := next_op_idx c in
  let op := Op.with_args idx opc ty [d; s; carg imm] in
  (d, (emit_op c op).2).

Definition gen_shli_vec (c : Context) (ty : Type_.t) (d s imm : Z) : Z * Context :=
  emit_vec_shift_imm c Opcode.ShliVec ty d s imm.

Definition gen_shri_vec (c : Context) (ty : Type_.t) (d s imm : Z) : Z * Context :=
  emit_vec_shift_imm c Opcode.ShriVec ty d s imm.

Definition gen_sari_vec (c : Context) (ty : Type_.t) (d s imm : Z) : Z * Context :=
  emit_vec_shift_imm c Opcode.SariVec ty d s imm.

Definition gen_rotli_vec (c : Context) (ty : Type_.t) (d s imm : Z) : Z * Context :=
  emit_vec_shift_imm c Opcode.RotliVec ty d s imm.

Definition gen_shls_vec (c : Context) (ty : Type_.t) (d a b : Z) : Z * Context :=
  emit_vec_binary c Opcode.ShlsVec ty d a b.

Definition gen_shrs_vec (c : Context) (ty : Type_.t) (d a b : Z) : Z * Context :=
  emit_vec_binary c Opcode.ShrsVec ty d a b.

Definition gen_sars_vec (c : Context) (ty : Type_.t) (d a b : Z) : Z * Context :=
  emit_vec_binary c Opcode.SarsVec ty d a b.

Definition gen_rotls_vec (c : Context) (ty : Type_.t) (d a b : Z) : Z * Context :=
  emit_vec_binary c Opcode.RotlsVec ty d a b.

Definition gen_shlv_vec (c : Context) (ty : Type_.t) (d a b : Z) : Z * Context :=
  emit_vec_binary c Opcode.ShlvVec ty d a b.

Definition gen_shrv_vec (c : Context) (ty : Type_.t) (d a b : Z) : Z * Context :=
  emit_vec_binary c Opcode.ShrvVec ty d a b.

Definition gen_sarv_vec (c : Context) (ty : Type_.t) (d a b : Z) : Z * Context :=
  emit_vec_binary c Opcode.SarvVec ty d a b.

Definition gen_rotlv_vec (c : Context) (ty : Type_.t) (d a b : Z) : Z * Context :=
  emit_vec_binary c Opcode.RotlvVec ty d a b.

Definition gen_rotrv_vec (c : Context) (ty : Type_.t) (d a b : Z) : Z * Context :=
  emit_vec_binary c Opcode.RotrvVec ty d a b.

Definition gen_cmp_vec (c : Context) (ty : Type_.t) (d a b : Z) (cond : Cond.t) : Z * Context :=
  let idx := next_op_idx c in
  let op := Op.with_args idx Opcode.CmpVec ty [d; a; b; carg (Cond.discr cond)] in
  (d, (emit_op c op).2).

Definition gen_bitsel_vec (c : Context) (ty : Type_.t) (d a b c' : Z) : Z * Context :=
  let idx := next_op_idx c in
  let op := Op.with_args idx Opcode.BitselVec ty [d; a; b; c'] in
  (d, (emit_op c op).2).

Definition gen_cmpsel_vec (c : Context) (ty : Type_.t) (d c1 c2 v1 v2 : Z) (cond : Cond.t) : Z * Context :=
  let idx := next_op_idx c in
  let op := Op.with_args idx Opcode.CmpselVec ty [d; c1; c2; v1; v2; carg (Cond.discr cond)] in
  (d, (emit_op c op).2).
(** [full_args]: the destination, six inputs padded with the constant zero, and
    the two halves of the helper address. *)
Definition gen_call (c : Context) (dst helper : Z) (args : list Z) : Z * Context :=
  let '(zero, c) := new_const c Type_.I64 0 in
  let arg i := default zero (args !! i) in
  let full_args :=
    [dst] ++ map arg (seq 0 6) ++ [carg (u32 helper); carg (u32 (Z.shiftr helper 32))] in
  let idx := next_op_idx c in
  let op := Op.with_args idx Opcode.Call Type_.I64 full_args in
  (dst, (emit_op c op).2).

(** ** All builder calls *)

(** The methods that return their destination, and those that do not, applied to
    a type, a condition and index, offset and immediate arguments. *)
Definition value_builders (ty : Type_.t) (cond : Cond.t) (x1 x2 x3 x4 x5 x6 : Z)
    : list (Context → Z * Context) :=
  [
    λ c, gen_add c ty x1 x2 x3; λ c, gen_sub c ty x1 x2 x3; λ c, gen_mul c ty x1 x2 x3;
    λ c, gen_and c ty x1 x2 x3; λ c, gen_or c ty x1 x2 x3; λ c, gen_xor c ty x1 x2 x3;
    λ c, gen_shl c ty x1 x2 x3; λ c, gen_shr c ty x1 x2 x3; λ c, gen_sar c ty x1 x2 x3;
    λ c, gen_rotl c ty x1 x2 x3; λ c, gen_rotr c ty x1 x2 x3; λ c, gen_andc c ty x1 x2 x3;
    λ c, gen_orc c ty x1 x2 x3; λ c, gen_eqv c ty x1 x2 x3; λ c, gen_nand c ty x1 x2 x3;
    λ c, gen_nor c ty x1 x2 x3; λ c, gen_divs c ty x1 x2 x3; λ c, gen_divu c ty x1 x2 x3;
    λ c, gen_rems c ty x1 x2 x3; λ c, gen_remu c ty x1 x2 x3; λ c, gen_mulsh c ty x1 x2 x3;
    λ c, gen_muluh c ty x1 x2 x3; λ c, gen_addco c ty x1 x2 x3;
    λ c, gen_addci c ty x1 x2 x3; λ c, gen_addcio c ty x1 x2 x3;
    λ c, gen_addc1o c ty x1 x2 x3; λ c, gen_subbo c ty x1 x2 x3;
    λ c, gen_subbi c ty x1 x2 x3; λ c, gen_subbio c ty x1 x2 x3;
    λ c, gen_subb1o c ty x1 x2 x3; λ c, gen_extract c ty x1 x2 x3 x4;
    λ c, gen_sextract c ty x1 x2 x3 x4; λ c, gen_deposit c ty x1 x2 x3 x4 x5;
    λ c, gen_extract2 c ty x1 x2 x3 x4; λ c, gen_bswap16 c ty x1 x2 x3;
    λ c, gen_bswap32 c ty x1 x2 x3; λ c, gen_bswap64 c ty x1 x2 x3;
    λ c, gen_clz c ty x1 x2 x3; λ c, gen_ctz c ty x1 x2 x3; λ c, gen_ctpop c ty x1 x2;
    λ c, gen_setcond2_i32 c x1 x2 x3 x4 x5 cond; λ c, gen_negsetcond c ty x1 x2 x3 cond;
    λ c, gen_movcond c ty x1 x2 x3 x4 x5 cond; λ c, gen_neg c ty x1 x2;
    λ c, gen_not c ty x1 x2; λ c, gen_mov c ty x1 x2; λ c, gen_ext_i32_i64 c x1 x2;
    λ c, gen_ext_u32_i64 c x1 x2; λ c, gen_extrl_i64_i32 c x1 x2;
    λ c, gen_extrh_i64_i32 c x1 x2; λ c, gen_setcond c ty x1 x2 x3 cond;
    λ c, gen_ld c ty x1 x2 x3; λ c, gen_ld8u c ty x1 x2 x3; λ c, gen_ld8s c ty x1 x2 x3;
    λ c, gen_ld16u c ty x1 x2 x3; λ c, gen_ld16s c ty x1 x2 x3;
    λ c, gen_ld32u c ty x1 x2 x3; λ c, gen_ld32s c ty x1 x2 x3;
    λ c, gen_qemu_ld c ty x1 x2 x3; λ c, gen_dup_vec c ty x1 x2;
    λ c, gen_dup2_vec c ty x1 x2 x3; λ c, gen_ld_vec c ty x1 x2 x3;
    λ c, gen_dupm_vec c ty x1 x2 x3; λ c, gen_add_vec c ty x1 x2 x3;
    λ c, gen_sub_vec c ty x1 x2 x3; λ c, gen_mul_vec c ty x1 x2 x3;
    λ c, gen_neg_vec c ty x1 x2; λ c, gen_abs_vec c ty x1 x2;
    λ c, gen_ssadd_vec c ty x1 x2 x3; λ c, gen_usadd_vec c ty x1 x2 x3;
    λ c, gen_sssub_vec c ty x1 x2 x3; λ c, gen_ussub_vec c ty x1 x2 x3;
    λ c, gen_smin_vec c ty x1 x2 x3; λ c, gen_umin_vec c ty x1 x2 x3;
    λ c, gen_smax_vec c ty x1 x2 x3; λ c, gen_umax_vec c ty x1 x2 x3;
    λ c, gen_and_vec c ty x1 x2 x3; λ c, gen_or_vec c ty x1 x2 x3;
    λ c, gen_xor_vec c ty x1 x2 x3; λ c, gen_andc_vec c ty x1 x2 x3;
    λ c, gen_orc_vec c ty x1 x2 x3; λ c, gen_nand_vec c ty x1 x2 x3;
    λ c, gen_nor_vec c ty x1 x2 x3; λ c, gen_eqv_vec c ty x1 x2 x3;
    λ c, gen_not_vec c ty x1 x2; λ c, gen_shli_vec c ty x1 x2 x3;
    λ c, gen_shri_vec c ty x1 x2 x3; λ c, gen_sari_vec c ty x1 x2 x3;
    λ c, gen_rotli_vec c ty x1 x2 x3; λ c, gen_shls_vec c ty x1 x2 x3;
    λ c, gen_shrs_vec c ty x1 x2 x3; λ c, gen_sars_vec c ty x1 x2 x3;
    λ c, gen_rotls_vec c ty x1 x2 x3; λ c, gen_shlv_vec c ty x1 x2 x3;
    λ c, gen_shrv_vec c ty x1 x2 x3; λ c, gen_sarv_vec c ty x1 x2 x3;
    λ c, gen_rotlv_vec c ty x1 x2 x3; λ c, gen_rotrv_vec c ty x1 x2 x3;
    λ c, gen_cmp_vec c ty x1 x2 x3 cond; λ c, gen_bitsel_vec c ty x1 x2 x3 x4;
    λ c, gen_cmpsel_vec c ty x1 x2 x3 x4 x5 cond
  ].

Definition effect_builders (ty : Type_.t) (cond : Cond.t) (x1 x2 x3 x4 x5 x6 : Z)
    : list (Context → Context) :=
  [
    λ c, gen_divs2 c ty x1 x2 x3 x4 x5; λ c, gen_divu2 c ty x1 x2 x3 x4 x5;
    λ c, gen_muls2 c ty x1 x2 x3 x4; λ c, gen_mulu2 c ty x1 x2 x3 x4;
    λ c, gen_brcond2_i32 c x1 x2 x3 x4 cond x5; λ c, gen_st c ty x1 x2 x3;
    λ c, gen_st8 c ty x1 x2 x3; λ c, gen_st16 c ty x1 x2 x3; λ c, gen_st32 c ty x1 x2 x3;
    λ c, gen_br c x1; λ c, gen_brcond c ty x1 x2 cond x3; λ c, gen_set_label c x1;
    λ c, gen_goto_tb c x1; λ c, gen_exit_tb c x1; λ c, gen_insn_start c x1;
    λ c, gen_goto_ptr c x1; λ c, gen_mb c x1; λ c, gen_discard c ty x1;
    λ c, gen_qemu_st c ty x1 x2 x3; λ c, gen_qemu_ld2 c ty x1 x2 x3 x4;
    λ c, gen_qemu_st2 c ty x1 x2 x3 x4; λ c, gen_st_vec c ty x1 x2 x3
  ].

(** One builder call; the premises say that the [u32] op and temp counters do not
    wrap. *)
Definition room (c : Context) : Prop :=
  zlen (temps c) + 1 < 2 ^ 32 ∧ zlen (ops c) + 1 < 2 ^ 32.

Inductive gen_step (c : Context) : Context → Prop :=
| gen_value ty cond x1 x2 x3 x4 x5 x6 g :
    g ∈ value_builders ty cond x1 x2 x3 x4 x5 x6 → room c → gen_step c (g c).2
| gen_effect ty cond x1 x2 x3 x4 x5 x6 g :
    g ∈ effect_builders ty cond x1 x2 x3 x4 x5 x6 → room c → gen_step c (g c)
| gen_helper dst helper args :
    room c → gen_step c (gen_call c dst helper args).2.

(** ** What a builder call appends *)

(** An op as the passes expect it: the opcode's argument count, zeros in the
    unused slots, and the opcode's fixed type where it has one. *)
Record op_complete (o : Op.t) : Prop := {
  oc_nargs : Op.nargs o = nb_args (def (Op.opc o));
  oc_len : length (Op.args o) = 10%nat;
  oc_unused : drop (Z.to_nat (Op.nargs o)) (Op.args o) =
              replicate (10 - Z.to_nat (Op.nargs o)) 0;
  oc_type : ∀ ty, fixed_type (Op.opc o) = Some ty → Op.op_type o = ty;
  oc_life : Op.life o = 0
}.

(** [c'] is [c] with one complete op appended, whose first arguments are [outs]. *)
Definition emits (c c' : Context) (outs : list Z) : Prop :=
  ∃ o ty a,
    c' = (emit_op c (Op.with_args (next_op_idx c) o ty a)).2 ∧
    zlen a = nb_args (def o) ∧ (∀ ty', fixed_type o = Some ty' → ty = ty') ∧
    zlen outs ≤ nb_oargs (def o) ∧ outs `prefix_of` a.

Ltac solve_emits :=
  intros; unfold emits; eexists _, _, _; split; [reflexivity|];
  split; [reflexivity|]; split; [intros ? [=]; done|];
  split; [vm_compute; discriminate|]; (by eexists).

Lemma value_builders_emit ty cond x1 x2 x3 x4 x5 x6 :
  Forall (λ g, ∀ c, emits c (g c).2 [(g c).1]) (value_builders ty cond x1 x2 x3 x4 x5 x6).
Proof. unfold value_builders. repeat (apply Forall_cons; split; [solve_emits|]). done. Qed.

Lemma effect_builders_emit ty cond x1 x2 x3 x4 x5 x6 :
  Forall (λ g, ∀ c, emits c (g c) []) (effect_builders ty cond x1 x2 x3 x4 x5 x6).
Proof. unfold effect_builders. repeat (apply Forall_cons; split; [solve_emits|]). done. Qed.

Lemma gen_call_emits c dst helper args :
  emits (new_const c Type_.I64 0).2 (gen_call c dst helper args).2 [dst].
Proof. unfold gen_call. destruct (new_const _ _ _) as [z c']. solve_emits. Qed.

Lemma with_args_complete i o ty a :
  zlen a = nb_args (def o) → (∀ ty', fixed_type o = Some ty' → ty = ty') →
  op_complete (Op.with_args i o ty a).
Proof.
  intros Ha Hty. pose proof (nb_counts o) as (_ & _ & _ & Hn). unfold zlen in Ha.
  assert (Nat.min (length a) 10 = length a) as Hm by lia.
  split; cbn -[replicate]; rewrite ?Hm; try done.
  - rewrite length_app, length_take, length_replicate. lia.
  - rewrite Nat2Z.id, firstn_all. apply drop_app_length.
Qed.

Lemma new_const_ops c ty v : ops (new_const c ty v).2 = ops c.
Proof. unfold new_const. by case_match. Qed.

(** What every builder call does to the invariants. *)
Definition built (c c' : Context) : Prop :=
  ∃ o, ops c' = ops c ++ [o] ∧ op_complete o ∧ wf_context c'.

Lemma emits_built c c' outs :
  emits c c' outs → wf_context c → zlen (ops c) + 1 < 2 ^ 32 → built c c'.
Proof.
  intros (o & ty & a & -> & Ha & Hty & _) Hwf Hroom. eexists.
  split; [reflexivity|]. split; [by apply with_args_complete|by apply wf_emit_op].
Qed.

Lemma gen_step_built c c' : gen_step c c' → wf_context c → built c c'.
Proof.
  intros [ty cond x1 x2 x3 x4 x5 x6 g Hg [? ?]|ty cond x1 x2 x3 x4 x5 x6 g Hg [? ?]
    |dst helper args [? ?]] Hwf.
  - pose proof (proj1 (Forall_forall _ _) (value_builders_emit ty cond x1 x2 x3 x4 x5 x6) _ Hg c).
    by eapply emits_built.
  - pose proof (proj1 (Forall_forall _ _) (effect_builders_emit ty cond x1 x2 x3 x4 x5 x6) _ Hg c).
    by eapply emits_built.
  - pose proof (gen_call_emits c dst helper args) as He.
    eapply emits_built in He as (o & Ho & ?); [|by apply wf_new_const|by rewrite new_const_ops].
    rewrite new_const_ops in Ho. by exists o.
Qed.

(** C29. Every sequence of [gen_*] calls on a well-formed context whose ops are
    complete keeps the context well formed, only appends ops, and every op of
    the result is complete: as many arguments as its opcode's table entry has,
    zeros in the other slots of the argument array, and the fixed type of its
    opcode. *)
Theorem builder_ops_complete c c' :
  rtc gen_step c c' → wf_context c → Forall op_complete (ops c) →
  wf_context c' ∧ Forall op_complete (ops c') ∧ ops c `prefix_of` ops c'.
Proof.
  intros Hr. induction Hr as [c|c c1 c' Hs _ IH]; intros Hwf Hc; [done|].
  destruct (gen_step_built _ _ Hs Hwf) as (o & Ho & Hoc & Hwf1).
  destruct IH as (? & ? & [k Hk]); [done|rewrite Ho; by apply Forall_app_2; [|apply Forall_singleton]|].
  split; [done|]. split; [done|]. rewrite Hk, Ho, <- app_assoc. by eexists.
Qed.

Definition example_block : Context :=
  let c := example_context in
  let c := gen_insn_start c 4096 in
  let c := (gen_add c Type_.I64 1 1 3).2 in
  let c := (gen_call c 1 (2 ^ 40) [1]).2 in
  gen_exit_tb c 3.

Lemma builder_ops_complete_witness :
  Forall op_complete (ops example_block) ∧ zlen (ops example_block) = 4.
Proof.
  split; [|reflexivity].
  eapply (builder_ops_complete example_context); [|apply example_context_wf|constructor].
  eapply rtc_l.
  { apply (gen_effect _ Type_.I64 Cond.Eq 4096 0 0 0 0 0 (λ c, gen_insn_start c 4096));
      [unfold effect_builders; repeat (left || right)|split; by vm_compute]. }
  eapply rtc_l.
  { apply (gen_value _ Type_.I64 Cond.Eq 1 1 3 0 0 0 (λ c, gen_add c Type_.I64 1 1 3));
      [left|split; by vm_compute]. }
  eapply rtc_l; [apply (gen_helper _ 1 (2 ^ 40) [1]); split; by vm_compute|].
  eapply rtc_l; [|apply rtc_refl].
  apply (gen_effect _ Type_.I64 Cond.Eq 3 0 0 0 0 0 (λ c, gen_exit_tb c 3));
    [|split; by vm_compute].
  unfold effect_builders. repeat (left || right).
Defined.
