(* ===== verification/IrSem.v ===== *)
(** * A reference semantics of the IR

    The passes of the backend rewrite IR; this file says what an IR block means,
    so that their theorems can say that it means the same afterwards.  The
    meaning of the integer ops is written with [mod] and [signed] on [Z]
    (docs/ir-ops.md), not with the code's bit tricks.

    Ops outside the interpreted set (host and guest memory accesses, helper
    calls, divisions, vector ops, ...) are given by the parameter [ext], a function
    from the opcode, its type, its input values, its constant arguments and a
    world state to the output values, the new world and an optional exit; the
    theorems hold for every such function.

    A block runs from an op position; a taken branch lands behind the [SetLabel]
    of its label.  [run] is fuelled; the theorems equate whole runs for every
    amount of fuel, so a block that loops is covered too. *)

From S2P Require Import Prelude Types Opcodes Ir.

(** ** Values *)

(** Unary integer ops at width [w]. *)
Definition spec_unary (o : Opcode.t) (w a : Z) : option Z :=
  match o with
  | Opcode.Mov => Some (a mod 2 ^ w)
  | Opcode.Neg => Some ((- a) mod 2 ^ w)
  | Opcode.Not => Some ((- a - 1) mod 2 ^ w)
  | Opcode.ExtI32I64 => Some (signed 32 a mod 2 ^ 64)
  | Opcode.ExtUI32I64 => Some (a mod 2 ^ 32)
  | Opcode.ExtrlI64I32 => Some (a mod 2 ^ 32)
  | Opcode.ExtrhI64I32 => Some (a mod 2 ^ 64 / 2 ^ 32)
  | _ => None
  end.

(** Binary integer ops at width [w]; shift counts are taken modulo the width. *)
Definition spec_binary (o : Opcode.t) (w a b : Z) : option Z :=
  let ua := a mod 2 ^ w in
  let k := b mod w in
  match o with
  | Opcode.Add => Some ((a + b) mod 2 ^ w)
  | Opcode.Sub => Some ((a - b) mod 2 ^ w)
  | Opcode.Mul => Some ((a * b) mod 2 ^ w)
  | Opcode.And => Some (Z.land a b mod 2 ^ w)
  | Opcode.Or => Some (Z.lor a b mod 2 ^ w)
  | Opcode.Xor => Some (Z.lxor a b mod 2 ^ w)
  | Opcode.AndC => Some (Z.ldiff a b mod 2 ^ w)
  | Opcode.Shl => Some ((a * 2 ^ k) mod 2 ^ w)
  | Opcode.Shr => Some (ua / 2 ^ k)
  | Opcode.Sar => Some ((signed w a / 2 ^ k) mod 2 ^ w)
  | Opcode.RotL => Some ((ua * 2 ^ k) mod 2 ^ w + ua / 2 ^ (w - k))
  | Opcode.RotR => Some (ua / 2 ^ k + (ua * 2 ^ (w - k)) mod 2 ^ w)
  | _ => None
  end.

(** Division of [hi:lo] by [b] at width [w]; [None] where the host traps. *)
Definition wide_divs (w lo hi b : Z) : option (Z * Z) :=
  let n := signed w hi * 2 ^ w + lo mod 2 ^ w in
  let d := signed w b in
  if d =? 0 then None
  else
    let q := Z.quot n d in
    if (- 2 ^ (w - 1) <=? q) && (q <? 2 ^ (w - 1))
    then Some (q mod 2 ^ w, Z.rem n d mod 2 ^ w) else None.

Definition wide_divu (w lo hi b : Z) : option (Z * Z) :=
  let n := hi mod 2 ^ w * 2 ^ w + lo mod 2 ^ w in
  let d := b mod 2 ^ w in
  if d =? 0 then None
  else if n / d <? 2 ^ w then Some (n / d, n mod d) else None.

(** The condition a constant argument encodes. *)
Definition cond_decode (x : Z) : option Cond.t :=
  find (λ c, Cond.discr c =? x)
    [Cond.Never; Cond.Always; Cond.Eq; Cond.Ne; Cond.Lt; Cond.Ge; Cond.Le; Cond.Gt;
     Cond.Ltu; Cond.Geu; Cond.Leu; Cond.Gtu; Cond.TstEq; Cond.TstNe].

(** ** Temps *)

(** Values of the non-constant temps. *)
Definition env : Type := Z → Z.

Definition rd (ts : list Temp.t) (e : env) (t : Z) : Z :=
  match ts.[t] with
  | Some x => if Temp.is_const x then Temp.val x else e t
  | None => e t
  end.

(** A write truncates to the type of the temp. *)
Definition wr (ts : list Temp.t) (e : env) (t v : Z) : env :=
  match ts.[t] with
  | Some x => λ u, if u =? t then v mod 2 ^ Type_.size_bits (Temp.ty x) else e u
  | None => e
  end.

Definition wr_all (ts : list Temp.t) (e : env) (outs : list Z) (vs : list Z) : env :=
  fold_left (λ e '(t, v), wr ts e t v) (combine outs vs) e.

(** ** Ops *)

Inductive ctl := Next | Jump (label : Z) | Leave (value : Z).

(** Position of the [SetLabel] op of a label. *)
Definition is_set_label (l : Z) (o : Op.t) : bool :=
  bool_decide (Op.opc o = Opcode.SetLabel) && bool_decide (Op.cargs o = [l]).

Definition label_pos (os : list Op.t) (l : Z) : option nat :=
  fst <$> list_find (λ o, is_set_label l o = true) os.

Inductive outcome (S : Type) :=
| Exited (v : Z) (s : S)
| Running (pc : nat) (s : S)
| BadPc (pc : nat) (s : S)
| BadLabel (l : Z) (s : S).
Arguments Exited {S}. Arguments Running {S}. Arguments BadPc {S}. Arguments BadLabel {S}.

Section semantics.
Context {W : Type}.

(** Uninterpreted ops: outputs, new world, and [Some v] when the op leaves the
    block with exit value [v]. *)
Variable ext : Opcode.t → Type_.t → list Z → list Z → W → list Z * W * option Z.

Definition exec_ext (ts : list Temp.t) (o : Opcode.t) (ty : Type_.t)
    (outs ins cs : list Z) (s : env * W) : env * W * ctl :=
  let '(vs, w, x) := ext o ty ins cs s.2 in
  (wr_all ts s.1 outs vs, w, match x with Some v => Leave v | None => Next end).

(** One op, from its opcode, type, output temps, input values and constants. *)
Definition exec (ts : list Temp.t) (o : Opcode.t) (ty : Type_.t) (outs ins cs : list Z)
    (s : env * W) : env * W * ctl :=
  let w := Type_.size_bits ty in
  match o, outs, ins, cs with
  | (Opcode.Nop | Opcode.InsnStart | Opcode.SetLabel), _, _, _ => (s, Next)
  | Opcode.Br, _, _, [l] => (s, Jump l)
  | Opcode.ExitTb, _, _, [v] => (s, Leave v)
  | Opcode.BrCond, _, [a; b], [x; l] =>
      (s, match cond_decode x with
          | Some c => if Cond.holds c w a b then Jump l else Next
          | None => Next
          end)
  | _, [d], [a], _ =>
      match spec_unary o w a with
      | Some v => (wr ts s.1 d v, s.2, Next)
      | None => exec_ext ts o ty outs ins cs s
      end
  | _, [d], [a; b], _ =>
      match spec_binary o w a b with
      | Some v => (wr ts s.1 d v, s.2, Next)
      | None => exec_ext ts o ty outs ins cs s
      end
  | _, _, _, _ => exec_ext ts o ty outs ins cs s
  end.

Definition exec_op (ts : list Temp.t) (o : Op.t) (s : env * W) : env * W * ctl :=
  exec ts (Op.opc o) (Op.op_type o) (Op.oargs o) (rd ts s.1 <$> Op.iargs o) (Op.cargs o) s.

(** ** Blocks *)

Fixpoint run (fuel : nat) (c : Context) (pc : nat) (s : env * W) : outcome (env * W) :=
  match fuel with
  | O => Running pc s
  | S fuel =>
      match ops c !! pc with
      | None => BadPc pc s
      | Some o =>
          match exec_op (temps c) o s with
          | (s, Next) => run fuel c (pc + 1) s
          | (s, Leave v) => Exited v s
          | (s, Jump l) =>
              match label_pos (ops c) l with
              | Some pc => run fuel c (pc + 1) s
              | None => BadLabel l s
              end
          end
      end
  end.
End semantics.

(** ** Facts about temps *)

Definition width_of (ts : list Temp.t) (t : Z) : Z :=
  match ts.[t] with Some x => Type_.size_bits (Temp.ty x) | None => 0 end.

(** Every temp holds a value of its type. *)
Definition env_ok (ts : list Temp.t) (e : env) : Prop :=
  ∀ t, 0 ≤ t < zlen ts → in_width (width_of ts t) (rd ts e t).

Definition is_const_temp (ts : list Temp.t) (t : Z) : bool :=
  match ts.[t] with Some x => Temp.is_const x | None => false end.

Definition consts_ok (ts : list Temp.t) : Prop :=
  ∀ t x, ts.[t] = Some x → Temp.is_const x = true →
    in_width (Type_.size_bits (Temp.ty x)) (Temp.val x).

Lemma size_bits_pos ty : 0 < Type_.size_bits ty.
Proof. by destruct ty. Qed.

Lemma rd_wr_ne ts e d v t : t ≠ d → rd ts (wr ts e d v) t = rd ts e t.
Proof.
  intros. unfold rd, wr. destruct (ts.[d]); [|done].
  assert ((t =? d) = false) as -> by (apply Z.eqb_neq; lia). by destruct (ts.[t]).
Qed.

Lemma rd_wr_eq ts e d v :
  is_const_temp ts d = false → 0 ≤ d < zlen ts → 0 ≤ v < 2 ^ width_of ts d →
  rd ts (wr ts e d v) d = v.
Proof.
  intros Hc Hd Hv. unfold rd, wr, is_const_temp, width_of in *.
  apply zlookup_lt_is_Some in Hd as [x Hx]. rewrite Hx in *. rewrite Hc, Z.eqb_refl.
  by apply Z.mod_small.
Qed.

Lemma rd_wr_const ts e d v t : is_const_temp ts t = true → rd ts (wr ts e d v) t = rd ts e t.
Proof. intros Hc. unfold rd, is_const_temp in *. destruct (ts.[t]); [|done]. by rewrite Hc. Qed.

Lemma rd_wr_all ts outs vs e t :
  t ∉ outs ∨ is_const_temp ts t = true → rd ts (wr_all ts e outs vs) t = rd ts e t.
Proof.
  unfold wr_all. revert vs e. induction outs as [|d outs IH]; intros [|v vs] e Ht; try done.
  simpl. rewrite IH by (destruct Ht; [left; set_solver|by right]). destruct Ht as [Ht|Ht].
  - apply rd_wr_ne. set_solver.
  - by apply rd_wr_const.
Qed.

Lemma env_ok_wr ts e d v : env_ok ts e → env_ok ts (wr ts e d v).
Proof.
  intros He t Ht. destruct (decide (t = d)) as [->|]; [|rewrite rd_wr_ne by done; auto].
  destruct (is_const_temp ts d) eqn:Hc; [rewrite rd_wr_const by done; auto|].
  unfold rd, wr, is_const_temp, width_of in *. destruct (ts.[d]) as [x|] eqn:Hx.
  - rewrite Hc, Z.eqb_refl. apply mod_in_width. pose proof (size_bits_pos (Temp.ty x)). lia.
  - apply zlookup_None in Hx. lia.
Qed.

Lemma env_ok_wr_all ts outs vs e : env_ok ts e → env_ok ts (wr_all ts e outs vs).
Proof.
  unfold wr_all. revert vs e. induction outs as [|d outs IH]; intros [|v vs] e He; try done.
  simpl. by apply IH, env_ok_wr.
Qed.

(** Appending temps changes neither reads nor writes of the old ones. *)
Lemma rd_prefix ts ts' e t : ts `prefix_of` ts' → 0 ≤ t < zlen ts → rd ts' e t = rd ts e t.
Proof. intros [k ->] ?. unfold rd. by rewrite zlookup_app_l by lia. Qed.

Lemma wr_prefix ts ts' e t v : ts `prefix_of` ts' → 0 ≤ t < zlen ts → wr ts' e t v = wr ts e t v.
Proof. intros [k ->] ?. unfold wr. by rewrite zlookup_app_l by lia. Qed.

Lemma wr_all_prefix ts ts' e outs vs :
  ts `prefix_of` ts' → Forall (λ t, 0 ≤ t < zlen ts) outs →
  wr_all ts' e outs vs = wr_all ts e outs vs.
Proof.
  intros Hp Ho. unfold wr_all. revert vs e.
  induction Ho as [|d outs Hd _ IH]; intros [|v vs] e; try done.
  simpl. by rewrite (wr_prefix ts ts'), IH.
Qed.

(** The temps an op reads and writes exist. *)
Definition op_in_range (n : Z) (o : Op.t) : Prop :=
  Forall (λ t, 0 ≤ t < n) (Op.oargs o ++ Op.iargs o).

#[global] Instance op_in_range_dec n o : Decision (op_in_range n o).
Proof. unfold op_in_range. apply _. Defined.

Section semantics_lemmas.
Context {W : Type} (ext : Opcode.t → Type_.t → list Z → list Z → W → list Z * W * option Z).

Lemma exec_ext_prefix ts ts' o ty outs ins cs s :
  ts `prefix_of` ts' → Forall (λ t, 0 ≤ t < zlen ts) outs →
  exec_ext ext ts' o ty outs ins cs s = exec_ext ext ts o ty outs ins cs s.
Proof.
  intros. unfold exec_ext. destruct (ext _ _ _ _ _) as [[vs w] x].
  by rewrite (wr_all_prefix ts ts').
Qed.

Lemma exec_op_prefix ts ts' o s :
  ts `prefix_of` ts' → op_in_range (zlen ts) o → exec_op ext ts' o s = exec_op ext ts o s.
Proof.
  intros Hp [Ho Hi]%Forall_app. unfold exec_op.
  assert (rd ts' s.1 <$> Op.iargs o = rd ts s.1 <$> Op.iargs o) as ->.
  { apply list_fmap_ext. intros i t Ht. apply rd_prefix; [done|].
    by apply (Forall_lookup_1 _ _ _ _ Hi Ht). }
  pose proof (exec_ext_prefix ts ts' (Op.opc o) (Op.op_type o) (Op.oargs o)
    (rd ts s.1 <$> Op.iargs o) (Op.cargs o) s Hp Ho) as Hext.
  unfold exec. repeat case_match; try done; simplify_eq;
    (by rewrite (wr_prefix ts ts'); [|done|by inversion_clear Ho]) || done.
Qed.

Lemma env_ok_exec ts o ty outs ins cs s s' k :
  exec ext ts o ty outs ins cs s = (s', k) → env_ok ts s.1 → env_ok ts s'.1.
Proof.
  assert (∀ s' k, exec_ext ext ts o ty outs ins cs s = (s', k) → env_ok ts s.1 → env_ok ts s'.1)
    as Hext.
  { intros s1 k1. unfold exec_ext. destruct (ext _ _ _ _ _) as [[vs w] x]. intros [= <- <-] ?.
    by apply env_ok_wr_all. }
  unfold exec. repeat case_match; intros; simplify_eq; simpl; eauto using env_ok_wr.
Qed.
End semantics_lemmas.

(** ** How the interpreted ops run *)

Section exec_lemmas.
Context {W : Type} (ext : Opcode.t → Type_.t → list Z → list Z → W → list Z * W * option Z).

Lemma exec_unary ts o ty d a cs s v :
  spec_unary o (Type_.size_bits ty) a = Some v →
  exec ext ts o ty [d] [a] cs s = (wr ts s.1 d v, s.2, Next).
Proof. destruct o; try discriminate 1; intros H; unfold exec; by rewrite H. Qed.

Lemma exec_binary ts o ty d a b cs s v :
  spec_binary o (Type_.size_bits ty) a b = Some v →
  exec ext ts o ty [d] [a; b] cs s = (wr ts s.1 d v, s.2, Next).
Proof. destruct o; try discriminate 1; intros H; unfold exec; by rewrite H. Qed.
End exec_lemmas.

(** ** Branches *)

(** The label an op may branch to. *)
Definition branch_target (o : Op.t) : option Z :=
  match Op.opc o with
  | Opcode.Br => Op.cargs o !! 0%nat
  | Opcode.BrCond => Op.cargs o !! 1%nat
  | _ => None
  end.

Lemma label_pos_ext l os os' :
  Forall2 (λ o o', is_set_label l o' = is_set_label l o) os os' → label_pos os' l = label_pos os l.
Proof.
  unfold label_pos. induction 1 as [|o o' os os' Ho _ IH]; [done|]. simpl.
  rewrite Ho. case_decide; [done|]. unfold label_pos in IH.
  destruct (list_find (λ o, is_set_label l o = true) os') as [[]|],
    (list_find (λ o, is_set_label l o = true) os) as [[]|]; simpl in *; simplify_eq; done.
Qed.

Lemma label_pos_Some os l j :
  label_pos os l = Some j → ∃ o, os !! j = Some o ∧ Op.opc o = Opcode.SetLabel.
Proof.
  unfold label_pos. destruct (list_find _ os) as [[j' o]|] eqn:E; [|done]. intros [= ->].
  apply list_find_Some in E as (? & Hl & _). exists o. split; [done|].
  unfold is_set_label in Hl. by boolp.
Qed.

(** Only branches jump, and they change nothing else. *)
Lemma exec_jump {W} (ext : Opcode.t → Type_.t → list Z → list Z → W → list Z * W * option Z)
    ts o s s' l :
  exec_op ext ts o s = (s', Jump l) → s' = s ∧ branch_target o = Some l.
Proof.
  unfold exec_op, branch_target.
  assert (∀ outs ins cs s' l,
    exec_ext ext ts (Op.opc o) (Op.op_type o) outs ins cs s ≠ (s', Jump l)) as Hext.
  { intros. unfold exec_ext. destruct (ext _ _ _ _ _) as [[vs w] x]. by destruct x. }
  unfold exec. repeat case_match; intros; simplify_eq; try done; exfalso; by eapply Hext.
Qed.

(** ** Observing runs *)

(** A value a run leaves in a temp. *)
Definition exit_value {W} (t : Z) (r : outcome (env * W)) : option Z :=
  match r with Exited _ s => Some (s.1 t) | _ => None end.

(** Uninterpreted ops of the examples: no outputs, no exits. *)
Definition no_ext (o : Opcode.t) (ty : Type_.t) (ins cs : list Z) (w : unit)
    : list Z * unit * option Z := ([], w, None).

Definition zero_env : env := λ _, 0.
