(* ===== verification/Optimize.v ===== *)
(** * The IR optimizer (backend/src/optimize.rs)

    The single forward pass: constant folding, copy propagation and algebraic
    simplification, with the per-temp table [info].  One definition per function
    of the file; a Rust panic (an index out of range, [unreachable!]) is [None].

    This file has the pass and the agreement of its constant evaluation with the
    reference semantics of [IrSem]; [OptimizeSound] has the theorems about whole
    blocks. *)

From S2P Require Import Prelude Types Opcodes Ir IrSem.

Record TempInfo := mkInfo {
  is_const : bool;
  val : Z;
  copy_of : option Z
}.

(** [TempInfo::default()], and the field assignments of the pass. *)
Definition info_default : TempInfo := mkInfo false 0 None.

Definition set_info_const (v : Z) (x : TempInfo) : TempInfo := mkInfo true v None.
Definition set_info_copy (s : Z) (x : TempInfo) : TempInfo := mkInfo false (val x) (Some s).
Definition clear_info (x : TempInfo) : TempInfo := mkInfo false (val x) None.
Definition clear_copy (x : TempInfo) : TempInfo := mkInfo (is_const x) (val x) None.

Definition type_mask (ty : Type_.t) : Z :=
  match ty with Type_.I32 => 0xFFFFFFFF | _ => 2 ^ 64 - 1 end.

Definition eval_cond (a b : Z) (cond : Cond.t) (ty : Type_.t) : bool :=
  let mask := type_mask ty in
  let a := Z.land a mask in
  let b := Z.land b mask in
  match cond with
  | Cond.Always => true
  | Cond.Never => false
  | Cond.Eq => a =? b
  | Cond.Ne => negb (a =? b)
  | Cond.Lt => i64 a <? i64 b
  | Cond.Ge => i64 b <=? i64 a
  | Cond.Le => i64 a <=? i64 b
  | Cond.Gt => i64 b <? i64 a
  | Cond.Ltu => a <? b
  | Cond.Geu => b <=? a
  | Cond.Leu => a <=? b
  | Cond.Gtu => b <? a
  | Cond.TstEq => Z.land a b =? 0
  | Cond.TstNe => negb (Z.land a b =? 0)
  end.

Definition cond_from_carg (t : Z) : Cond.t :=
  match t with
  | 0 => Cond.Never
  | 1 => Cond.Always
  | 8 => Cond.Eq
  | 9 => Cond.Ne
  | 10 => Cond.Lt
  | 11 => Cond.Ge
  | 12 => Cond.Le
  | 13 => Cond.Gt
  | 14 => Cond.Ltu
  | 15 => Cond.Geu
  | 16 => Cond.Leu
  | 17 => Cond.Gtu
  | 18 => Cond.TstEq
  | 19 => Cond.TstNe
  | _ => Cond.Never
  end.

(** ** Helper functions *)

Abbreviation Info := (list TempInfo).

Definition resolve_copy (info : Info) (tidx : Z) : option Z :=
  match info.[tidx] with Some x => copy_of x | None => None end.

Definition reset_copies (info : Info) : Info := map clear_copy info.

(** [if ti.copy_of == Some(t) { ti.copy_of = None; }] for every entry. *)
Definition clear_copies_of (info : Info) (t : Z) : Info :=
  map (λ x, if decide (copy_of x = Some t) then clear_copy x else x) info.

(** The loop of [invalidate_outputs] over the output arguments. *)
Fixpoint invalidate_outputs_loop (info : Info) (outs : list Z) (ctx : Context) : option Info :=
  match outs with
  | [] => Some info
  | tidx :: outs =>
      if tidx <? zlen info then
        t ← temp ctx tidx;
        if Temp.is_const t then invalidate_outputs_loop info outs ctx
        else
          invalidate_outputs_loop
            (clear_copies_of (alter clear_info (Z.to_nat tidx) info) tidx) outs ctx
      else invalidate_outputs_loop info outs ctx
  end.

Definition invalidate_outputs (info : Info) (d : OpDef) (args : list Z) (ctx : Context)
    : option Info :=
  invalidate_outputs_loop info (take (Z.to_nat (nb_oargs d)) args) ctx.

Definition ti (info : Info) (tidx : Z) : TempInfo := default info_default (info.[tidx]).

Definition ensure_info (info : Info) (idx : Z) : Info :=
  if zlen info <=? idx then info ++ replicate (Z.to_nat (idx + 1 - zlen info)) info_default
  else info.

Definition set_const (info : Info) (dst v : Z) : Info :=
  alter (set_info_const v) (Z.to_nat dst) (ensure_info info dst).

Definition set_copy (info : Info) (dst src : Z) : Info :=
  let info := ensure_info info dst in
  let si := ti info src in
  if is_const si then alter (set_info_const (val si)) (Z.to_nat dst) info
  else alter (set_info_copy src) (Z.to_nat dst) info.

Definition invalidate_one (info : Info) (dst : Z) : Info :=
  clear_copies_of (alter clear_info (Z.to_nat dst) (ensure_info info dst)) dst.

(** The pass threads the context and the table. *)
Definition St : Type := Context * Info.

Definition replace_with_const (s : St) (op_idx dst v : Z) (ty : Type_.t) : option St :=
  let '(ctx, info) := s in
  let masked := Z.land v (type_mask ty) in
  let '(c, ctx) := new_const ctx ty masked in
  let info := ensure_info info c in
  let info := alter (λ x, mkInfo true masked (copy_of x)) (Z.to_nat c) info in
  ctx ← op_mut ctx op_idx (λ o,
    Op.rewrite_to o Opcode.Mov (<[1%nat := c]> (<[0%nat := dst]> (Op.args o))) 2);
  Some (ctx, set_const info dst masked).

Definition replace_with_mov (s : St) (op_idx dst src : Z) : option St :=
  let '(ctx, info) := s in
  ctx ← op_mut ctx op_idx (λ o,
    Op.rewrite_to o Opcode.Mov (<[1%nat := src]> (<[0%nat := dst]> (Op.args o))) 2);
  Some (ctx, invalidate_one info dst).

(** ** Per-opcode fold functions *)

(** [args[n]] on the ten-slot argument array. *)
Notation "args .arg n" := (default 0 (args !! n%nat)) (at level 1, n at level 0).

Definition fold_mov (s : St) (op_idx : Z) (args : list Z) (ty : Type_.t) : option St :=
  let '(ctx, info) := s in
  let dst := args.arg 0 in
  let src := args.arg 1 in
  let si := ti info src in
  Some (ctx, if is_const si then set_const info dst (Z.land (val si) (type_mask ty))
             else set_copy info dst src).

Definition fold_unary (s : St) (op_idx : Z) (opc : Opcode.t) (args : list Z) (ty : Type_.t)
    : option St :=
  let '(ctx, info) := s in
  let dst := args.arg 0 in
  let src := args.arg 1 in
  let si := ti info src in
  if negb (is_const si) then Some (ctx, invalidate_one info dst)
  else
    let mask := type_mask ty in
    v ← match opc with
        | Opcode.Neg => Some (Z.land (u64 (0 - val si)) mask)
        | Opcode.Not => Some (Z.land (u64 (Z.lnot (val si))) mask)
        | _ => None
        end;
    replace_with_const s op_idx dst v ty.

Definition fold_ext (s : St) (op_idx : Z) (opc : Opcode.t) (args : list Z) : option St :=
  let '(ctx, info) := s in
  let dst := args.arg 0 in
  let src := args.arg 1 in
  let si := ti info src in
  if negb (is_const si) then Some (ctx, invalidate_one info dst)
  else
    v ← match opc with
        | Opcode.ExtI32I64 => Some (u64 (i32 (u32 (val si))))
        | Opcode.ExtUI32I64 => Some (Z.land (val si) 0xFFFFFFFF)
        | Opcode.ExtrlI64I32 => Some (Z.land (val si) 0xFFFFFFFF)
        | Opcode.ExtrhI64I32 => Some (Z.land (Z.shiftr (val si) 32) 0xFFFFFFFF)
        | _ => None
        end;
    let out_ty :=
      match opc with
      | Opcode.ExtI32I64 | Opcode.ExtUI32I64 => Type_.I64
      | _ => Type_.I32
      end in
    replace_with_const s op_idx dst v out_ty.

(** [v.rotate_left(n)] and [v.rotate_right(n)] of a [w]-bit integer. *)
Definition rotate_left (w v n : Z) : Z :=
  Z.lor (Z.shiftl v (n mod w) mod 2 ^ w) (Z.shiftr v (w - n mod w)).

Definition rotate_right (w v n : Z) : Z :=
  Z.lor (Z.shiftr v (n mod w)) (Z.shiftl v (w - n mod w) mod 2 ^ w).

(** Evaluation of a binary op on two constants.  [ty] is [I32] or [I64], the types
    these opcodes are emitted with. *)
Definition eval_binary (opc : Opcode.t) (a b : Z) (ty : Type_.t) : option Z :=
  let mask := type_mask ty in
  let bits := Type_.size_bits ty in
  let sh := u32 b mod bits in
  r ← match opc with
      | Opcode.Add => Some (u64 (a + b))
      | Opcode.Sub => Some (u64 (a - b))
      | Opcode.Mul => Some (u64 (a * b))
      | Opcode.And => Some (Z.land a b)
      | Opcode.Or => Some (Z.lor a b)
      | Opcode.Xor => Some (Z.lxor a b)
      | Opcode.AndC => Some (Z.land a (u64 (Z.lnot b)))
      | Opcode.Shl => Some (u64 (Z.shiftl a (sh mod 64)))
      | Opcode.Shr => Some (Z.shiftr (Z.land a mask) (sh mod 64))
      | Opcode.Sar =>
          Some (if decide (ty = Type_.I32) then u64 (Z.shiftr (i32 (u32 a)) sh)
                else u64 (Z.shiftr (i64 a) sh))
      | Opcode.RotL =>
          Some (if decide (ty = Type_.I32) then rotate_left 32 (u32 a) sh
                else rotate_left 64 a sh)
      | Opcode.RotR =>
          Some (if decide (ty = Type_.I32) then rotate_right 32 (u32 a) sh
                else rotate_right 64 a sh)
      | _ => None
      end;
  Some (Z.land r mask).

(** [try_simplify], the arms for a constant second operand: [None] when no arm
    matches, [Some r] with the result of the arm that does. *)
Definition simplify_b (s : St) (op_idx : Z) (opc : Opcode.t) (dst a_idx : Z) (bi : TempInfo)
    (ty : Type_.t) : option (option St) :=
  let all_ones := type_mask ty in
  let b := Z.land (val bi) (type_mask ty) in
  if is_const bi then
    match opc with
    | Opcode.Add | Opcode.Sub | Opcode.Or | Opcode.Xor | Opcode.Shl | Opcode.Shr
    | Opcode.Sar | Opcode.RotL | Opcode.RotR =>
        if b =? 0 then Some (replace_with_mov s op_idx dst a_idx)
        else if bool_decide (opc = Opcode.Or) && (b =? all_ones)
        then Some (replace_with_const s op_idx dst all_ones ty)
        else None
    | Opcode.Mul =>
        if b =? 0 then Some (replace_with_const s op_idx dst 0 ty)
        else if b =? 1 then Some (replace_with_mov s op_idx dst a_idx)
        else None
    | Opcode.And =>
        if b =? 0 then Some (replace_with_const s op_idx dst 0 ty)
        else if b =? all_ones then Some (replace_with_mov s op_idx dst a_idx)
        else None
    | Opcode.AndC =>
        if b =? all_ones then Some (replace_with_const s op_idx dst 0 ty) else None
    | _ => None
    end
  else None.

(** [try_simplify], the arms for a constant first operand. *)
Definition simplify_a (s : St) (op_idx : Z) (opc : Opcode.t) (dst b_idx : Z) (ai : TempInfo)
    (ty : Type_.t) : option (option St) :=
  let all_ones := type_mask ty in
  let a := Z.land (val ai) (type_mask ty) in
  if is_const ai then
    match opc with
    | Opcode.Add => if a =? 0 then Some (replace_with_mov s op_idx dst b_idx) else None
    | Opcode.Sub =>
        if a =? 0 then
          Some (ctx ← op_mut s.1 op_idx (λ o,
                  Op.rewrite_to o Opcode.Neg
                    (<[1%nat := b_idx]> (<[0%nat := dst]> (Op.args o))) 2);
                Some (ctx, invalidate_one s.2 dst))
        else None
    | Opcode.Mul => if a =? 0 then Some (replace_with_const s op_idx dst 0 ty) else None
    | Opcode.And => if a =? 0 then Some (replace_with_const s op_idx dst 0 ty) else None
    | Opcode.Or =>
        if a =? all_ones then Some (replace_with_const s op_idx dst all_ones ty) else None
    | _ => None
    end
  else None.

(** [Some (s, b)] with the returned [bool] [b], [None] on a panic. *)
Definition try_simplify (s : St) (op_idx : Z) (opc : Opcode.t) (dst a_idx b_idx : Z)
    (ai bi : TempInfo) (ty : Type_.t) : option (St * bool) :=
  match simplify_b s op_idx opc dst a_idx bi ty with
  | Some r => s' ← r; Some (s', true)
  | None =>
      match simplify_a s op_idx opc dst b_idx ai ty with
      | Some r => s' ← r; Some (s', true)
      | None => Some (s, false)
      end
  end.

Definition fold_binary (s : St) (op_idx : Z) (opc : Opcode.t) (args : list Z) (ty : Type_.t)
    : option St :=
  let '(ctx, info) := s in
  let dst := args.arg 0 in
  let a_idx := args.arg 1 in
  let b_idx := args.arg 2 in
  let ai := ti info a_idx in
  let bi := ti info b_idx in
  let folded :=
    if is_const ai && is_const bi then
      let mask := type_mask ty in
      eval_binary opc (Z.land (val ai) mask) (Z.land (val bi) mask) ty
    else None in
  match folded with
  | Some v => replace_with_const s op_idx dst v ty
  | None =>
      '(s, simplified) ← try_simplify s op_idx opc dst a_idx b_idx ai bi ty;
      if simplified : bool then Some s
      else
        let same :=
          if a_idx =? b_idx then
            match opc with
            | Opcode.And | Opcode.Or => Some (replace_with_mov s op_idx dst a_idx)
            | Opcode.Xor | Opcode.Sub => Some (replace_with_const s op_idx dst 0 ty)
            | _ => None
            end
          else None in
        match same with
        | Some r => r
        | None => Some (s.1, invalidate_one s.2 dst)
        end
  end.

Definition fold_brcond (s : St) (op_idx : Z) (args : list Z) (ty : Type_.t) : option St :=
  let '(ctx, info) := s in
  let a_idx := args.arg 0 in
  let b_idx := args.arg 1 in
  let cond_carg := args.arg 2 in
  let label_carg := args.arg 3 in
  let ai := ti info a_idx in
  let bi := ti info b_idx in
  if negb (is_const ai) || negb (is_const bi) then Some s
  else
    let cond := cond_from_carg cond_carg in
    ctx ← (if eval_cond (val ai) (val bi) cond ty
           then op_mut ctx op_idx (λ o,
                  Op.rewrite_to o Opcode.Br (<[0%nat := label_carg]> (Op.args o)) 1)
           else op_mut ctx op_idx (λ o, Op.rewrite_to o Opcode.Nop (Op.args o) 0));
    Some (ctx, info).

(** ** The pass *)

(** The copy propagation loop over the input slots. *)
Fixpoint propagate (info : Info) (slots : list nat) (args : list Z) : list Z :=
  match slots with
  | [] => args
  | slot :: slots =>
      propagate info slots
        (match resolve_copy info (args.arg slot) with
         | Some src => <[slot := src]> args
         | None => args
         end)
  end.

(** The input slots [iarg_start..iarg_end]. *)
Definition input_slots (d : OpDef) : list nat :=
  seq (Z.to_nat (nb_oargs d)) (Z.to_nat (nb_iargs d)).

Definition is_boundary (opc : Opcode.t) : bool :=
  match opc with
  | Opcode.SetLabel | Opcode.Br | Opcode.ExitTb | Opcode.GotoTb | Opcode.GotoPtr
  | Opcode.Call => true
  | _ => false
  end.

Definition is_skipped (opc : Opcode.t) : bool :=
  OpFlags.contains (def_flags (def opc)) OpFlags.SIDE_EFFECTS ||
  OpFlags.contains (def_flags (def opc)) OpFlags.VECTOR ||
  match opc with Opcode.Nop | Opcode.InsnStart | Opcode.Discard => true | _ => false end.

(** The body of the main loop for op [oi]. *)
Definition optimize_op (s : St) (oi : Z) : option St :=
  let '(ctx, info) := s in
  o ← op ctx oi;
  let opc := Op.opc o in
  let op_type := Op.op_type o in
  let args := Op.args o in
  let d := def opc in
  if is_boundary opc then
    info ← invalidate_outputs info d args ctx; Some (ctx, reset_copies info)
  else if is_skipped opc then
    info ← invalidate_outputs info d args ctx; Some (ctx, info)
  else
    let args := propagate info (input_slots d) args in
    ctx ← op_mut ctx oi (λ o, Op.set_args o args);
    let s := (ctx, info) in
    match opc with
    | Opcode.Mov => fold_mov s oi args op_type
    | Opcode.Neg | Opcode.Not => fold_unary s oi opc args op_type
    | Opcode.ExtI32I64 | Opcode.ExtUI32I64 | Opcode.ExtrlI64I32 | Opcode.ExtrhI64I32 =>
        fold_ext s oi opc args
    | Opcode.Add | Opcode.Sub | Opcode.Mul | Opcode.And | Opcode.Or | Opcode.Xor
    | Opcode.AndC | Opcode.Shl | Opcode.Shr | Opcode.Sar | Opcode.RotL | Opcode.RotR =>
        fold_binary s oi opc args op_type
    | Opcode.BrCond => fold_brcond s oi args op_type
    | _ => info ← invalidate_outputs info d args ctx; Some (ctx, info)
    end.

(** The first [n] iterations of the main loop. *)
Fixpoint optimize_loop (n : nat) (s : St) : option St :=
  match n with
  | O => Some s
  | S n => s ← optimize_loop n s; optimize_op s (Z.of_nat n)
  end.

(** Seed constants from the existing constant temps. *)
Definition seed_info (ctx : Context) : Info :=
  map (λ t, if Temp.is_const t then mkInfo true (Temp.val t) None else info_default)
    (take (Z.to_nat (nb_temps ctx)) (temps ctx)).

Definition optimize (ctx : Context) : option Context :=
  s ← optimize_loop (Z.to_nat (num_ops ctx)) (ctx, seed_info ctx); Some s.1.

(** ** Constant evaluation agrees with the semantics *)

Definition int_type (ty : Type_.t) : bool :=
  match ty with Type_.I32 | Type_.I64 => true | _ => false end.

Abbreviation bits := Type_.size_bits.

Lemma land_type_mask ty x : int_type ty = true → Z.land x (type_mask ty) = x mod 2 ^ bits ty.
Proof.
  destruct ty; intros [=]; [apply (land_ones_mod 32)|apply (land_ones_mod 64)]; lia.
Qed.

Lemma bits_divide ty : int_type ty = true → (bits ty | 2 ^ 32).
Proof. destruct ty; intros [=]; [exists (2 ^ 27)|exists (2 ^ 26)]; reflexivity. Qed.

Lemma bits_range ty : int_type ty = true → 32 ≤ bits ty ≤ 64.
Proof. destruct ty; intros [=]; simpl; lia. Qed.

Lemma mod_bits_mod ty w x :
  int_type ty = true → 32 ≤ w → (x mod 2 ^ w) mod bits ty = x mod bits ty.
Proof.
  intros Hty Hw. destruct (bits_divide ty Hty) as [q Hq]. pose proof (bits_range ty Hty).
  apply Z.mod_mod_divide. replace w with (32 + (w - 32)) by lia.
  rewrite Z.pow_add_r, Hq by lia. exists (q * 2 ^ (w - 32)). lia.
Qed.

(** Equality modulo [2 ^ w], bit by bit. *)
Ltac bitwise_mod w :=
  let n := fresh "n" in let Hn := fresh "Hn" in
  apply Z.bits_inj'; intros n Hn; destruct (decide (n < w));
  [rewrite ?Z.mod_pow2_bits_low by lia | rewrite ?Z.mod_pow2_bits_high by lia; done].

Lemma mod_eq_bits w x y :
  0 ≤ w → (∀ n, 0 ≤ n < w → Z.testbit x n = Z.testbit y n) → x mod 2 ^ w = y mod 2 ^ w.
Proof. intros Hw H. bitwise_mod w. auto. Qed.

Lemma bitop_mod (f : Z → Z → Z) (g : bool → bool → bool) w a b :
  0 ≤ w → (∀ x y n, 0 ≤ n → Z.testbit (f x y) n = g (Z.testbit x n) (Z.testbit y n)) →
  f (a mod 2 ^ w) (b mod 2 ^ w) mod 2 ^ w = f a b mod 2 ^ w.
Proof.
  intros Hw Hf. apply mod_eq_bits; [done|]. intros n ?.
  rewrite !Hf, !Z.mod_pow2_bits_low by lia. done.
Qed.

(** A rotation: the two halves do not overlap. *)
Lemma rotate_halves w v i j :
  0 ≤ i → 0 ≤ j → i + j = w → in_width w v →
  let hi := (v * 2 ^ i) mod 2 ^ w in
  let lo := v / 2 ^ j in
  Z.lor hi lo = hi + lo ∧ in_width w (Z.lor hi lo).
Proof.
  intros Hi Hj <- [Hv0 Hv] hi lo. rewrite Z.pow_add_r in Hv by lia.
  assert (in_width i lo) as Hlo.
  { split; [apply Z.div_pos; [lia|by apply pow2_pos]|].
    apply Z.div_lt_upper_bound; [by apply pow2_pos|lia]. }
  split.
  - apply (lor_add_low i); [done..|]. unfold hi. rewrite mod_mod_pow2 by lia.
    apply Z.mod_mul. pose proof (pow2_pos i). lia.
  - apply lor_in_width; [lia|apply mod_in_width; lia|]. apply (in_width_mono i); [lia|done].
Qed.

Lemma rotate_left_spec w v k :
  0 ≤ k < w → in_width w v →
  rotate_left w v k mod 2 ^ w = (v * 2 ^ k) mod 2 ^ w + v / 2 ^ (w - k).
Proof.
  intros. unfold rotate_left. rewrite (Z.mod_small k w), Z.shiftl_mul_pow2,
    Z.shiftr_div_pow2 by lia.
  destruct (rotate_halves w v k (w - k)) as [<- Hw]; try lia; [done|]. by apply Z.mod_small.
Qed.

Lemma rotate_right_spec w v k :
  0 ≤ k < w → in_width w v →
  rotate_right w v k mod 2 ^ w = v / 2 ^ k + (v * 2 ^ (w - k)) mod 2 ^ w.
Proof.
  intros. unfold rotate_right. rewrite (Z.mod_small k w), Z.shiftl_mul_pow2,
    Z.shiftr_div_pow2, Z.lor_comm, Z.add_comm by lia.
  destruct (rotate_halves w v (w - k) k) as [<- Hw]; try lia; [done|]. by apply Z.mod_small.
Qed.

(** The pass folds two constants to what the op computes. *)
Lemma eval_binary_spec opc ty a b :
  int_type ty = true →
  eval_binary opc (a mod 2 ^ bits ty) (b mod 2 ^ bits ty) ty = spec_binary opc (bits ty) a b.
Proof.
  intros Hty. pose proof (bits_range ty Hty) as Hw. pose proof (pow2_pos (bits ty)).
  assert (u32 (b mod 2 ^ bits ty) mod bits ty = b mod bits ty) as Hsh.
  { unfold u32. by rewrite !mod_bits_mod by (done || lia). }
  assert (0 ≤ b mod bits ty < bits ty) as Hk by (apply Z.mod_pos_bound; lia).
  assert (∀ x, u64 x mod 2 ^ bits ty = x mod 2 ^ bits ty) as Hu.
  { intros x. apply mod_mod_pow2. lia. }
  assert (in_width (bits ty) (a mod 2 ^ bits ty)) as Ha by (apply mod_in_width; lia).
  unfold eval_binary, spec_binary. rewrite Hsh, ?(Z.mod_small (b mod bits ty) 64) by lia.
  destruct opc; try reflexivity; cbn [mbind option_bind]; f_equal;
    rewrite land_type_mask by done; rewrite ?Hu.
  - by rewrite <- Z.add_mod by lia.
  - by rewrite <- Zminus_mod by lia.
  - by rewrite <- Z.mul_mod by lia.
  - apply (bitop_mod Z.land andb); [lia|intros; apply Z.land_spec].
  - apply (bitop_mod Z.lor orb); [lia|intros; apply Z.lor_spec].
  - apply (bitop_mod Z.lxor xorb); [lia|intros; apply Z.lxor_spec].
  - apply mod_eq_bits; [lia|]. intros n ?. unfold u64.
    by rewrite Z.land_spec, !Z.mod_pow2_bits_low, Z.lnot_spec, Z.mod_pow2_bits_low,
      Z.ldiff_spec by lia.
  - rewrite Z.shiftl_mul_pow2 by lia. by rewrite Z.mul_mod_idemp_l by lia.
  - rewrite land_type_mask, Z.mod_mod, Z.shiftr_div_pow2 by (done || lia).
    apply Z.mod_small. split; [apply Z.div_pos; [apply Ha|apply pow2_pos; lia]|].
    apply Z.div_lt_upper_bound; [apply pow2_pos; lia|].
    apply Z.lt_le_trans with (2 ^ bits ty); [apply Ha|].
    pose proof (pow2_pos (b mod bits ty)). nia.
  - destruct ty; try done; simpl decide; rewrite ?decide_True, ?decide_False by done;
      rewrite Hu, Z.shiftr_div_pow2 by lia; unfold i32, i64, u32; simpl bits in *.
    + by rewrite !signed_of_mod by lia.
    + by rewrite !signed_of_mod by lia.
  - destruct ty; try done; rewrite ?decide_True, ?decide_False by done.
    + rewrite u32_small by apply Ha. by apply rotate_left_spec.
    + by apply rotate_left_spec.
  - destruct ty; try done; rewrite ?decide_True, ?decide_False by done.
    + rewrite u32_small by apply Ha. by apply rotate_right_spec.
    + by apply rotate_right_spec.
Qed.

Lemma spec_binary_mod opc ty a b :
  int_type ty = true →
  spec_binary opc (bits ty) (a mod 2 ^ bits ty) (b mod 2 ^ bits ty) =
  spec_binary opc (bits ty) a b.
Proof.
  intros Hty. rewrite <- (eval_binary_spec opc ty a b), <- eval_binary_spec by done.
  pose proof (bits_range ty Hty). by rewrite !Z.mod_mod by (pose proof (pow2_pos (bits ty)); lia).
Qed.

Lemma cond_from_carg_decode x c : cond_decode x = Some c → cond_from_carg x = c.
Proof.
  intros H. apply find_some in H as [_ H]. apply Z.eqb_eq in H as <-. by destruct c.
Qed.

(** Comparison of constants agrees with the semantics except for signed
    comparisons at 32 bits, where the pass compares zero-extended values. *)
Lemma eval_cond_spec a b c ty :
  int_type ty = true → Cond.is_signed c && bool_decide (ty = Type_.I32) = false →
  eval_cond a b c ty = Cond.holds c (bits ty) a b.
Proof.
  intros Hty Hs. unfold eval_cond. rewrite !land_type_mask by done.
  destruct c; try done; destruct ty; try done; simpl; unfold i64; by rewrite !signed_of_mod.
Qed.

(** ** The algebraic identities *)

Definition zero_right_identity (opc : Opcode.t) : bool :=
  match opc with
  | Opcode.Add | Opcode.Sub | Opcode.Or | Opcode.Xor | Opcode.Shl | Opcode.Shr
  | Opcode.Sar | Opcode.RotL | Opcode.RotR => true
  | _ => false
  end.

Section identities.
Context (ty : Type_.t) (Hty : int_type ty = true).
#[local] Abbreviation w := (bits ty).

Lemma pow2_bits_pos : 0 < 2 ^ w.
Proof. pose proof (bits_range ty Hty). apply pow2_pos. lia. Qed.

Lemma binary_zero_r opc a b :
  zero_right_identity opc = true → b mod 2 ^ w = 0 →
  spec_binary opc w a b = Some (a mod 2 ^ w).
Proof.
  intros Ho Hb. rewrite <- spec_binary_mod, Hb by done.
  pose proof (bits_range ty Hty). pose proof pow2_bits_pos as Hp.
  pose proof (Z.mod_pos_bound a (2 ^ w) Hp). set (x := a mod 2 ^ w) in *.
  assert (x mod 2 ^ w = x) as Hx by (apply Z.mod_small; lia).
  unfold spec_binary. rewrite Hx, (Z.mod_0_l w), !Z.sub_0_r, Z.pow_0_r, !Z.mul_1_r,
    !Z.div_1_r by lia.
  destruct opc; try discriminate Ho; f_equal; rewrite ?Hx.
  - by rewrite Z.add_0_r.
  - done.
  - by rewrite Z.lor_0_r.
  - by rewrite Z.lxor_0_r.
  - done.
  - by rewrite signed_mod by lia.
  - rewrite (Z.div_small x) by lia. lia.
  - rewrite Z.mod_mul by lia. lia.
Qed.

(** [x op b] with [b] all ones. *)
Lemma all_ones_bit b n : b mod 2 ^ w = 2 ^ w - 1 → 0 ≤ n < w → Z.testbit b n = true.
Proof.
  intros Hb Hn. rewrite <- (Z.mod_pow2_bits_low b w), Hb, Z.sub_1_r, <- Z.ones_equiv by lia.
  by apply Z.ones_spec_low.
Qed.

Lemma zero_bit b n : b mod 2 ^ w = 0 → 0 ≤ n < w → Z.testbit b n = false.
Proof. intros Hb Hn. by rewrite <- (Z.mod_pow2_bits_low b w), Hb, Z.bits_0 by lia. Qed.

Lemma and_ones_r a b : b mod 2 ^ w = 2 ^ w - 1 → Z.land a b mod 2 ^ w = a mod 2 ^ w.
Proof.
  pose proof (bits_range ty Hty). intros Hb. apply mod_eq_bits; [lia|]. intros n Hn.
  by rewrite Z.land_spec, (all_ones_bit b n), andb_true_r.
Qed.

Lemma or_ones a b :
  a mod 2 ^ w = 2 ^ w - 1 ∨ b mod 2 ^ w = 2 ^ w - 1 → Z.lor a b mod 2 ^ w = 2 ^ w - 1.
Proof.
  pose proof (bits_range ty Hty). intros Hb.
  rewrite <- (Z.mod_small (2 ^ w - 1) (2 ^ w)) by (pose proof pow2_bits_pos; lia).
  apply mod_eq_bits; [lia|]. intros n Hn. rewrite Z.lor_spec, Z.sub_1_r, <- Z.ones_equiv.
  rewrite Z.ones_spec_low by lia.
  destruct Hb as [Hb|Hb]; rewrite (all_ones_bit _ n Hb Hn); [done|apply orb_true_r].
Qed.

Lemma andc_ones_r a b : b mod 2 ^ w = 2 ^ w - 1 → Z.ldiff a b mod 2 ^ w = 0.
Proof.
  pose proof (bits_range ty Hty). intros Hb. rewrite <- (Z.mod_0_l (2 ^ w)).
  - apply mod_eq_bits; [lia|]. intros n Hn.
    by rewrite Z.ldiff_spec, (all_ones_bit b n Hb Hn), andb_false_r, Z.bits_0.
  - pose proof pow2_bits_pos; lia.
Qed.

Lemma and_zero a b : a mod 2 ^ w = 0 ∨ b mod 2 ^ w = 0 → Z.land a b mod 2 ^ w = 0.
Proof.
  pose proof (bits_range ty Hty). intros Hb. rewrite <- (Z.mod_0_l (2 ^ w)).
  - apply mod_eq_bits; [lia|]. intros n Hn. rewrite Z.land_spec, Z.bits_0.
    destruct Hb as [Hb|Hb]; rewrite (zero_bit _ n Hb Hn); [done|apply andb_false_r].
  - pose proof pow2_bits_pos; lia.
Qed.

Lemma mul_zero a b : a mod 2 ^ w = 0 ∨ b mod 2 ^ w = 0 → (a * b) mod 2 ^ w = 0.
Proof.
  pose proof pow2_bits_pos. intros [Hb|Hb].
  - by rewrite <- Z.mul_mod_idemp_l, Hb by lia.
  - by rewrite <- Z.mul_mod_idemp_r, Hb, Z.mul_0_r by lia.
Qed.

Lemma mul_one_r a b : b mod 2 ^ w = 1 → (a * b) mod 2 ^ w = a mod 2 ^ w.
Proof. pose proof pow2_bits_pos. intros Hb. by rewrite <- Z.mul_mod_idemp_r, Hb, Z.mul_1_r by lia. Qed.

Lemma add_zero_l a b : a mod 2 ^ w = 0 → (a + b) mod 2 ^ w = b mod 2 ^ w.
Proof. pose proof pow2_bits_pos. intros Hb. by rewrite <- Z.add_mod_idemp_l, Hb by lia. Qed.

Lemma sub_zero_l a b : a mod 2 ^ w = 0 → (a - b) mod 2 ^ w = (- b) mod 2 ^ w.
Proof. intros Hb. by rewrite <- Zminus_mod_idemp_l, Hb. Qed.
End identities.
