(* ===== verification/OptimizeSound.v ===== *)
(** * Soundness of the optimizer

    The pass keeps a table of facts; this file says when the facts hold
    ([fact_ok]), shows that each rewriting step computes the same value as the op
    it replaces, and closes the argument over runs of whole blocks.

    The pass does not forget facts at labels and does not drop copies whose
    source a [Mov] or a folded op overwrites.  The theorems are therefore stated
    for blocks with a certificate: a set of temps per position whose facts may be
    stale, never consulted while they are ([disciplined]).  The counterexamples at
    the end show what happens to blocks without one. *)

From S2P Require Import Prelude Types Opcodes Ir IrSem Optimize.

(** ** The table as a total function *)

Lemma ti_neg info t : t < 0 → ti info t = info_default.
Proof. intros. unfold ti. by rewrite (proj2 (zlookup_None info t)) by lia. Qed.

Lemma ti_ensure info i t : ti (ensure_info info i) t = ti info t.
Proof.
  unfold ti, ensure_info. case_match; [|done]. boolp.
  destruct (decide (t < zlen info)) as [|Hge]; [by rewrite zlookup_app_l|].
  rewrite (proj2 (zlookup_None info t)) by lia.
  destruct (_.[t]) as [x|] eqn:E; [|done]. apply zlookup_Some in E as [Ht E].
  rewrite lookup_app_r in E by (unfold zlen in *; lia).
  by apply lookup_replicate in E as [-> _].
Qed.

Lemma zlen_ensure info i : 0 ≤ i → i < zlen (ensure_info info i).
Proof.
  intros. unfold ensure_info. case_match; boolp; [|done].
  unfold zlen in *. rewrite length_app, length_replicate. lia.
Qed.

Lemma zlen_ensure_mono info i : zlen info ≤ zlen (ensure_info info i).
Proof. unfold ensure_info. case_match; [|done]. rewrite zlen_app. unfold zlen. lia. Qed.

Lemma zlen_alter f (info : Info) (n : nat) : zlen (alter f n info) = zlen info.
Proof. unfold zlen. by rewrite length_alter. Qed.

Lemma zlen_set_const info d v : zlen info ≤ zlen (set_const info d v).
Proof. unfold set_const. rewrite zlen_alter. apply zlen_ensure_mono. Qed.

Lemma zlen_set_copy info d s : zlen info ≤ zlen (set_copy info d s).
Proof. unfold set_copy. case_match; rewrite zlen_alter; apply zlen_ensure_mono. Qed.

Lemma zlen_clear_copies_of info d : zlen (clear_copies_of info d) = zlen info.
Proof. unfold clear_copies_of, zlen. by rewrite length_map. Qed.

Lemma zlen_reset_copies info : zlen (reset_copies info) = zlen info.
Proof. unfold reset_copies, zlen. by rewrite length_map. Qed.

Lemma zlen_invalidate_one info d : zlen info ≤ zlen (invalidate_one info d).
Proof.
  unfold invalidate_one. rewrite zlen_clear_copies_of, zlen_alter. apply zlen_ensure_mono.
Qed.

Lemma ti_alter f info i t :
  0 ≤ i < zlen info →
  ti (alter f (Z.to_nat i) info) t = if decide (t = i) then f (ti info t) else ti info t.
Proof.
  intros Hi. destruct (decide (0 ≤ t)); [|rewrite !ti_neg by lia; by case_decide; [lia|]].
  unfold ti. rewrite !zlookup_nat by lia. case_decide as Hd; subst.
  - rewrite list_lookup_alter_eq. unfold zlen in Hi.
    destruct (lookup_lt_is_Some_2 info (Z.to_nat i)) as [x ->]; [lia|done].
  - by rewrite list_lookup_alter_ne by lia.
Qed.

Lemma ti_map g info t : g info_default = info_default → ti (map g info) t = g (ti info t).
Proof.
  intros Hg. unfold ti. change (map g info) with (g <$> info). rewrite zlookup_fmap.
  by destruct (info.[t]).
Qed.

Lemma ti_reset_copies info t : ti (reset_copies info) t = clear_copy (ti info t).
Proof. by apply ti_map. Qed.

Lemma ti_clear_copies_of info d t :
  ti (clear_copies_of info d) t =
  if decide (copy_of (ti info t) = Some d) then clear_copy (ti info t) else ti info t.
Proof. by apply (ti_map (λ x, if decide (copy_of x = Some d) then clear_copy x else x)). Qed.

Lemma ti_set_const info d v t :
  0 ≤ d → ti (set_const info d v) t = if decide (t = d) then mkInfo true v None else ti info t.
Proof.
  intros. unfold set_const. rewrite ti_alter by (split; [lia|by apply zlen_ensure]).
  by rewrite ti_ensure.
Qed.

Lemma ti_set_copy info d s t :
  0 ≤ d → is_const (ti info s) = false →
  ti (set_copy info d s) t =
  if decide (t = d) then mkInfo false (val (ti info t)) (Some s) else ti info t.
Proof.
  intros ? Hs. unfold set_copy. rewrite ti_ensure, Hs.
  rewrite ti_alter by (split; [lia|by apply zlen_ensure]). by rewrite ti_ensure.
Qed.

Lemma ti_invalidate_one info d t :
  0 ≤ d →
  ti (invalidate_one info d) t =
  if decide (t = d) then clear_info (ti info t)
  else if decide (copy_of (ti info t) = Some d) then clear_copy (ti info t) else ti info t.
Proof.
  intros. unfold invalidate_one. rewrite ti_clear_copies_of, ti_alter, ti_ensure
    by (split; [lia|by apply zlen_ensure]).
  destruct (decide (t = d)); [by rewrite decide_False|done].
Qed.

(** ** Facts *)

(** The table entries of temps outside [T] hold in [e]. *)
Definition fact_ok (ts : list Temp.t) (e : env) (T : gset Z) (info : Info) : Prop :=
  ∀ t, t ∉ T →
    (is_const (ti info t) = true → rd ts e t = val (ti info t)) ∧
    (∀ s, copy_of (ti info t) = Some s → rd ts e t = rd ts e s).

(** [x] claims no more than [y]. *)
Definition le_info (x y : TempInfo) : Prop :=
  (is_const x = true → is_const y = true ∧ val x = val y) ∧
  (∀ s, copy_of x = Some s → copy_of y = Some s).

Lemma le_info_refl x : le_info x x.
Proof. by split. Qed.

Lemma le_clear_copy x : le_info (clear_copy x) x.
Proof. by split. Qed.

Lemma le_clear_info x : le_info (clear_info x) x.
Proof. by split. Qed.

Lemma le_info_trans x y z : le_info x y → le_info y z → le_info x z.
Proof.
  intros [H1 H2] [H3 H4]. split; [|eauto]. intros Hx. destruct (H1 Hx) as [Hy ->]. auto.
Qed.

#[export] Hint Resolve le_info_refl le_clear_copy le_clear_info : tcg.

(** Temps outside [T'] whose copy source is overwritten are excluded. *)
Definition stale_ok (info' : Info) (outs : list Z) (T' : gset Z) : Prop :=
  ∀ t s, copy_of (ti info' t) = Some s → s ∈ outs → t ≠ s → t ∈ T'.

(** How facts move across an op that writes [outs]. *)
Lemma fact_step ts e e' T T' info info' outs :
  fact_ok ts e T info →
  (∀ t, t ∉ outs → rd ts e' t = rd ts e t) →
  (∀ t, t ∉ outs →
     (is_const (ti info' t) = true →
        rd ts e t = val (ti info' t) ∨ is_const (ti info t) = true ∧ val (ti info' t) = val (ti info t)) ∧
     (∀ s, copy_of (ti info' t) = Some s → copy_of (ti info t) = Some s)) →
  (∀ t, t ∈ outs →
     (is_const (ti info' t) = true → rd ts e' t = val (ti info' t)) ∧
     (∀ s, copy_of (ti info' t) = Some s → rd ts e' t = rd ts e' s)) →
  (∀ t, t ∈ T → t ∉ outs → t ∈ T') →
  stale_ok info' outs T' →
  fact_ok ts e' T' info'.
Proof.
  intros Hf Hrd Hkeep Hout HT Hst t Ht. destruct (decide (t ∈ outs)) as [|Hn]; [by apply Hout|].
  destruct (Hkeep t Hn) as [Hc Hcp]. destruct (Hf t) as [Hf1 Hf2]; [naive_solver|].
  rewrite (Hrd t Hn). split.
  - intros H. destruct (Hc H) as [?|[? ->]]; auto.
  - intros s Hs. rewrite (Hf2 s (Hcp s Hs)). destruct (decide (s ∈ outs)) as [Hso|].
    + destruct (decide (t = s)) as [->|]; [done|]. exfalso. eauto.
    + by rewrite Hrd.
Qed.

(** ** The side conditions on a block *)

(** The opcodes the pass folds into constants or moves. *)
Definition folds_unary (opc : Opcode.t) : bool :=
  match opc with
  | Opcode.Mov | Opcode.Neg | Opcode.Not | Opcode.ExtI32I64 | Opcode.ExtUI32I64
  | Opcode.ExtrlI64I32 | Opcode.ExtrhI64I32 => true
  | _ => false
  end.

Definition folds_binary (opc : Opcode.t) : bool :=
  match opc with
  | Opcode.Add | Opcode.Sub | Opcode.Mul | Opcode.And | Opcode.Or | Opcode.Xor
  | Opcode.AndC | Opcode.Shl | Opcode.Shr | Opcode.Sar | Opcode.RotL | Opcode.RotR => true
  | _ => false
  end.

(** The ops whose inputs the pass looks up in the table. *)
Definition consults (opc : Opcode.t) : bool := negb (is_boundary opc) && negb (is_skipped opc).

(** Typing of one op: ten argument slots, existing temps, no constant written; a
    folded op writes a temp at least as wide as the op, a move reads a temp at most
    as wide as the op, a conditional branch has a valid condition. *)
Definition op_ok (ts : list Temp.t) (o : Op.t) : bool :=
  let ty := Op.op_type o in
  bool_decide (length (Op.args o) = 10%nat) &&
  bool_decide (op_in_range (zlen ts) o) &&
  forallb (λ d, negb (is_const_temp ts d)) (Op.oargs o) &&
  implb (folds_unary (Op.opc o) || folds_binary (Op.opc o))
    (int_type ty &&
     bool_decide (default ty (fixed_type (Op.opc o)) = ty) &&
     forallb (λ d, bits ty <=? width_of ts d) (Op.oargs o)) &&
  implb (bool_decide (Op.opc o = Opcode.Mov))
    (forallb (λ s, width_of ts s <=? bits ty) (Op.iargs o)) &&
  implb (bool_decide (Op.opc o = Opcode.BrCond))
    (int_type ty && bool_decide (is_Some (cond_decode (default 0 (Op.cargs o !! 0%nat))))).

(** What a position asks of the certificate: consulted temps are not stale, a
    folded branch is not a signed 32-bit comparison, staleness persists until the
    temp is written, and a temp that still counts as a copy of an overwritten temp
    becomes stale. *)
Definition reads_ok (T : gset Z) (info : Info) (o : Op.t) : bool :=
  implb (consults (Op.opc o))
    (forallb (λ t, bool_decide (t ∉ T) &&
       match copy_of (ti info t) with Some s => bool_decide (s ∉ T) | None => true end)
     (Op.iargs o)).

Definition canon (info : Info) (t : Z) : Z := default t (copy_of (ti info t)).

Definition cond_ok (info : Info) (o : Op.t) : bool :=
  implb (bool_decide (Op.opc o = Opcode.BrCond))
    (negb (Cond.is_signed (default Cond.Eq (cond_decode (default 0 (Op.cargs o !! 0%nat)))) &&
           bool_decide (Op.op_type o = Type_.I32) &&
           forallb (λ t, is_const (ti info (canon info t))) (Op.iargs o))).

Definition flow_ok (T T' : gset Z) (info' : Info) (o : Op.t) : bool :=
  forallb (λ t, bool_decide (t ∈ Op.oargs o) || bool_decide (t ∈ T')) (elements T) &&
  forallb (λ t, match copy_of (ti info' t) with
                | Some s => bool_decide (s ∉ Op.oargs o) || bool_decide (t = s) ||
                            bool_decide (t ∈ T')
                | None => true
                end) (seqZ 0 (zlen info')).

(** The table before op [k]. *)
Definition info_at (ctx : Context) (k : nat) : Info :=
  match optimize_loop k (ctx, seed_info ctx) with Some s => s.2 | None => [] end.

(** At a branch, the constants the pass believes at the target hold at the
    source too. *)
Definition jump_ok (ctx : Context) (T : nat → gset Z) (i : nat) (o : Op.t) : bool :=
  match branch_target o ≫= label_pos (ops ctx) with
  | Some j =>
      let there := info_at ctx (j + 1) in
      let here := info_at ctx i in
      forallb (λ t, bool_decide (t ∈ T (j + 1)%nat) || negb (is_const (ti there t)) ||
                    bool_decide (t ∉ T i) && is_const (ti here t) &&
                    (val (ti here t) =? val (ti there t))) (seqZ 0 (zlen there))
  | None => true
  end.

Definition pos_ok (ctx : Context) (T : nat → gset Z) (i : nat) (o : Op.t) : bool :=
  op_ok (temps ctx) o && reads_ok (T i) (info_at ctx i) o && cond_ok (info_at ctx i) o &&
  flow_ok (T i) (T (i + 1)%nat) (info_at ctx (i + 1)) o && jump_ok ctx T i o.

(** A block with its certificate, one set of possibly stale temps per position. *)
Definition disciplined (ctx : Context) (Ts : list (gset Z)) : bool :=
  let T i := default ∅ (Ts !! i) in
  (zlen (temps ctx) + num_ops ctx <? 2 ^ 32) &&
  forallb (λ i, match ops ctx !! i with Some o => pos_ok ctx T i o | None => true end)
    (seq 0 (length (ops ctx))).

(** ** Copy propagation *)

Lemma resolve_copy_ti info t : resolve_copy info t = copy_of (ti info t).
Proof. unfold resolve_copy, ti. by destruct (info.[t]). Qed.

Lemma propagate_lookup info k n args j :
  (k + n ≤ length args)%nat →
  propagate info (seq k n) args !! j =
  if decide (k ≤ j < k + n)%nat then canon info <$> args !! j else args !! j.
Proof.
  revert k args. induction n as [|n IH]; intros k args Hlen; simpl.
  { by rewrite decide_False by lia. }
  destruct (lookup_lt_is_Some_2 args k) as [x Hx]; [lia|]. rewrite Hx. simpl.
  rewrite resolve_copy_ti.
  assert ((match copy_of (ti info x) with Some src => <[k:=src]> args | None => args end)
    = <[k:=canon info x]> args) as ->.
  { unfold canon. destruct (copy_of (ti info x)); [done|]. simpl. by rewrite list_insert_id. }
  rewrite IH by (rewrite length_insert; lia).
  destruct (decide (j = k)) as [->|].
  - rewrite decide_False, list_lookup_insert_eq, decide_True, Hx by lia. done.
  - rewrite !list_lookup_insert_ne by lia.
    destruct (decide (S k ≤ j < S k + n)%nat), (decide (k ≤ j < k + S n)%nat); (done || lia).
Qed.

Lemma propagate_length info slots args : length (propagate info slots args) = length args.
Proof.
  revert args. induction slots; intros; simpl; [done|]. rewrite IHslots. case_match; [|done].
  apply length_insert.
Qed.

Lemma slice_lookup a s l j :
  0 ≤ s → (j < Z.to_nat l)%nat → Op.slice a s l !! j = a !! (Z.to_nat s + j)%nat.
Proof. intros. unfold Op.slice. by rewrite lookup_take_lt, lookup_drop. Qed.

Lemma slice_ext a a' s l :
  0 ≤ s → (∀ j, (j < Z.to_nat l)%nat → a !! (Z.to_nat s + j)%nat = a' !! (Z.to_nat s + j)%nat) →
  Op.slice a s l = Op.slice a' s l.
Proof.
  intros Hs H. apply list_eq. intros j. destruct (decide (j < Z.to_nat l)%nat).
  - rewrite !slice_lookup by done. auto.
  - unfold Op.slice. by rewrite !lookup_take_ge by lia.
Qed.

(** The op after copy propagation. *)
Definition propagated (info : Info) (o : Op.t) : Op.t :=
  Op.set_args o (propagate info (input_slots (def (Op.opc o))) (Op.args o)).

Section propagated.
Context (info : Info) (o : Op.t) (Hlen : length (Op.args o) = 10%nat).

Lemma propagated_lookup j :
  Op.args (propagated info o) !! j =
  if decide (Z.to_nat (nb_oargs (def (Op.opc o))) ≤ j <
             Z.to_nat (nb_oargs (def (Op.opc o))) + Z.to_nat (nb_iargs (def (Op.opc o))))%nat
  then canon info <$> Op.args o !! j else Op.args o !! j.
Proof.
  pose proof (nb_counts (Op.opc o)) as (? & ? & ? & ?). unfold nb_args in *.
  apply propagate_lookup. lia.
Qed.

Lemma propagated_oargs : Op.oargs (propagated info o) = Op.oargs o.
Proof.
  apply slice_ext; [lia|]. intros j ?. rewrite propagated_lookup.
  apply decide_False. simpl in *. lia.
Qed.

Lemma propagated_cargs : Op.cargs (propagated info o) = Op.cargs o.
Proof.
  pose proof (nb_counts (Op.opc o)) as (? & ? & ? & ?). unfold nb_args in *.
  apply slice_ext; simpl; [lia|]. intros j ?. rewrite propagated_lookup.
  apply decide_False. lia.
Qed.

Lemma propagated_iargs : Op.iargs (propagated info o) = canon info <$> Op.iargs o.
Proof.
  pose proof (nb_counts (Op.opc o)) as (? & ? & ? & ?). unfold nb_args in *.
  apply list_eq. intros j. rewrite list_lookup_fmap. unfold Op.iargs. simpl.
  destruct (decide (j < Z.to_nat (nb_iargs (def (Op.opc o))))%nat).
  - rewrite !slice_lookup by lia. rewrite propagated_lookup. apply decide_True. lia.
  - unfold Op.slice. by rewrite !lookup_take_ge by lia.
Qed.
End propagated.

Lemma rd_canon ts e T info t : fact_ok ts e T info → t ∉ T → rd ts e (canon info t) = rd ts e t.
Proof.
  intros Hf Ht. unfold canon. destruct (copy_of (ti info t)) as [s|] eqn:Hs; [|done].
  by rewrite (proj2 (Hf t Ht) s Hs).
Qed.

(** What [reads_ok] gives for the inputs of a consulting op. *)
Lemma reads_ok_spec T info o t :
  reads_ok T info o = true → consults (Op.opc o) = true → t ∈ Op.iargs o →
  (t ∉ T) ∧ (canon info t ∉ T).
Proof.
  unfold reads_ok. intros H Hc Ht. rewrite Hc in H. simpl in H. rewrite forallb_forall in H.
  specialize (H t). rewrite <- list_elem_of_In in H. specialize (H Ht). boolp.
  split; [done|]. unfold canon. destruct (copy_of _); [|done]. simpl. by boolp.
Qed.

Lemma propagated_values ts e T info o :
  length (Op.args o) = 10%nat → fact_ok ts e T info → reads_ok T info o = true →
  consults (Op.opc o) = true →
  rd ts e <$> Op.iargs (propagated info o) = rd ts e <$> Op.iargs o.
Proof.
  intros Hlen Hf Hr Hc. rewrite propagated_iargs by done. rewrite <- list_fmap_compose.
  apply list_fmap_ext. intros i t Ht%list_elem_of_lookup_2. simpl.
  destruct (reads_ok_spec _ _ _ _ Hr Hc Ht). by eapply rd_canon.
Qed.

(** ** Facts after a write *)

Lemma flow_ok_spec T T' info' o :
  flow_ok T T' info' o = true →
  (∀ t, t ∈ T → t ∉ Op.oargs o → t ∈ T') ∧ stale_ok info' (Op.oargs o) T'.
Proof.
  unfold flow_ok. intros [H1 H2]%andb_prop. rewrite forallb_forall in H1, H2. split.
  - intros t Ht Hn. specialize (H1 t). rewrite <- list_elem_of_In, elem_of_elements in H1.
    specialize (H1 Ht). apply orb_prop in H1 as [?|?]; by boolp.
  - intros t s Hs Ho Hne. destruct (decide (0 ≤ t < zlen info')) as [Hr|Hr].
    + specialize (H2 t). rewrite <- list_elem_of_In, elem_of_seqZ in H2.
      specialize (H2 ltac:(lia)). rewrite Hs in H2.
      apply orb_prop in H2 as [H2|?]; [|by boolp]. apply orb_prop in H2 as [?|?]; by boolp.
    + unfold ti in Hs. by rewrite (proj2 (zlookup_None info' t)) in Hs by lia.
Qed.

Section writes.
Context (ts : list Temp.t) (e : env) (T T' : gset Z) (info info' : Info) (d v : Z).
Context (Hf : fact_ok ts e T info) (Hd : 0 ≤ d).
Context (HT : ∀ t, t ∈ T → t ∉ [d] → t ∈ T') (Hst : stale_ok info' [d] T').

Lemma fact_invalidate_one : info' = invalidate_one info d → fact_ok ts (wr ts e d v) T' info'.
Proof.
  intros ->. eapply fact_step; [done| |..|done|done].
  - intros t ?. apply rd_wr_ne. set_solver.
  - intros t Ht. rewrite ti_invalidate_one by done.
    rewrite decide_False by set_solver. case_decide; simpl; naive_solver.
  - intros t ->%list_elem_of_singleton. rewrite ti_invalidate_one, decide_True by done. done.
Qed.

Context (Hdr : d < zlen ts) (Hdc : is_const_temp ts d = false) (Hv : in_width (width_of ts d) v).

Lemma fact_set_const :
  ti info' d = mkInfo true v None →
  (∀ t, t ≠ d → ti info' t = ti info t ∨
     rd ts e t = val (ti info' t) ∧ copy_of (ti info' t) = copy_of (ti info t)) →
  fact_ok ts (wr ts e d v) T' info'.
Proof.
  intros Hid Hi. eapply fact_step; [done| |..|done|done].
  - intros t ?. apply rd_wr_ne. set_solver.
  - intros t Ht. destruct (Hi t ltac:(set_solver)) as [->|[? ->]]; eauto.
  - intros t ->%list_elem_of_singleton. rewrite Hid. split; [|done].
    intros _. by apply rd_wr_eq.
Qed.

Lemma fact_set_copy s :
  is_const (ti info s) = false → rd ts e s = v → info' = set_copy info d s →
  fact_ok ts (wr ts e d v) T' info'.
Proof.
  intros Hs Hsv ->. eapply fact_step; [done| |..|done|done].
  - intros t ?. apply rd_wr_ne. set_solver.
  - intros t Ht. rewrite ti_set_copy, decide_False by (done || set_solver). auto.
  - intros t ->%list_elem_of_singleton. rewrite ti_set_copy, decide_True by done.
    simpl. split; [done|]. intros ? [= <-]. rewrite rd_wr_eq by done.
    destruct (decide (s = d)) as [->|]; [by rewrite rd_wr_eq|by rewrite rd_wr_ne].
Qed.
End writes.

(** Uninterpreted outputs: [invalidate_outputs] forgets everything about the
    non-constant ones. *)
Definition forgotten (ts : list Temp.t) (outs : list Z) (info info' : Info) : Prop :=
  (∀ t, le_info (ti info' t) (ti info t)) ∧
  (∀ t, t ∈ outs → is_const_temp ts t = false →
     is_const (ti info' t) = false ∧ copy_of (ti info' t) = None).

Lemma invalidate_outputs_spec info outs ctx :
  zlen (temps ctx) ≤ zlen info → Forall (λ t, 0 ≤ t < zlen (temps ctx)) outs →
  ∃ info', invalidate_outputs_loop info outs ctx = Some info' ∧ zlen info' = zlen info ∧
    forgotten (temps ctx) outs info info'.
Proof.
  intros Hlen Ho. revert info Hlen. induction Ho as [|d outs Hd _ IH]; intros info Hlen; simpl.
  { exists info. split; [done|]. split; [done|]. split; [auto with tcg|set_solver]. }
  assert (∃ t, (temps ctx).[d] = Some t) as [t Ht] by (by apply zlookup_lt_is_Some).
  rewrite (proj2 (Z.ltb_lt d (zlen info))) by lia.
  unfold temp. rewrite Ht. simpl. destruct (Temp.is_const t) eqn:Hc.
  - destruct (IH info Hlen) as (info' & Hi & Hl & Hle & Hout). exists info'.
    split_and!; [done..|]. split; [done|]. intros u [->|Hu]%elem_of_cons Hu'; [|auto].
    unfold is_const_temp in Hu'. rewrite Ht in Hu'. congruence.
  - set (info1 := clear_copies_of _ d). assert (zlen info1 = zlen info) as Hl1
      by (unfold info1; by rewrite zlen_clear_copies_of, zlen_alter).
    assert (∀ u, le_info (ti info1 u) (ti info u) ∧
      (u = d → is_const (ti info1 u) = false ∧ copy_of (ti info1 u) = None)) as H1.
    { intros u. unfold info1. rewrite ti_clear_copies_of, ti_alter by lia.
      destruct (decide (u = d)) as [->|]; case_decide; try done; (split; [auto with tcg|done]). }
    destruct (IH info1) as (info' & Hi & Hl & Hle & Hout); [lia|]. exists info'.
    split_and!; [done|lia|]. split.
    + intros u. eapply le_info_trans; [apply Hle|apply H1].
    + intros u [->|Hu]%elem_of_cons Hu'; [|auto]. destruct (Hle d) as [Ha Hb].
      destruct (proj2 (H1 d) eq_refl) as [H2 H3]. split.
      * destruct (is_const (ti info' d)); [|done]. destruct (Ha eq_refl). congruence.
      * destruct (copy_of (ti info' d)) as [z|]; [|done]. specialize (Hb z eq_refl). congruence.
Qed.

Lemma invalidate_outputs_temps info outs c c' :
  temps c = temps c' → invalidate_outputs_loop info outs c = invalidate_outputs_loop info outs c'.
Proof.
  intros Ht. revert info. induction outs as [|t outs IH]; intros info; [done|]. simpl.
  unfold temp. rewrite Ht. destruct (t <? zlen info); [|apply IH].
  destruct ((temps c').[t]) as [x|]; simpl; [|done]. destruct (Temp.is_const x); apply IH.
Qed.

Lemma forgotten_reset ts outs info info' :
  forgotten ts outs info info' → forgotten ts outs info (reset_copies info').
Proof.
  intros [H1 H2]. split; intros t; rewrite ti_reset_copies.
  - eapply le_info_trans; [apply le_clear_copy|apply H1].
  - intros Ht Hc. destruct (H2 t Ht Hc). by split.
Qed.

Lemma fact_forgotten ts e T T' info info' outs vs :
  fact_ok ts e T info → forgotten ts outs info info' →
  Forall (λ t, is_const_temp ts t = false) outs →
  (∀ t, t ∈ T → t ∉ outs → t ∈ T') → stale_ok info' outs T' →
  fact_ok ts (wr_all ts e outs vs) T' info'.
Proof.
  intros Hf [Hle Hout] Hnc HT Hst. eapply fact_step; [done| | | |done|done].
  - intros t ?. apply rd_wr_all. by left.
  - intros t _. destruct (Hle t) as [Ha Hb]. split; [|done]. intros Hc. right. auto.
  - intros t Ht. rewrite Forall_forall in Hnc. destruct (Hout t Ht (Hnc t Ht)) as [-> ->]. done.
Qed.

(** ** One rewriting step *)

Definition const_sound (c : Context) : Prop :=
  ∀ d v k, const_table c !! (d, v) = Some k →
    ∃ t, (temps c).[k] = Some t ∧ Temp.is_const t = true ∧ Temp.val t = v.

(** What a step does to the context: it replaces op [i] and may append a constant. *)
Record upd (c c' : Context) (i : nat) (o' : Op.t) : Prop := {
  u_ops : ops c' = <[i := o']> (ops c);
  u_temps : temps c `prefix_of` temps c';
  u_len : zlen (temps c') ≤ zlen (temps c) + 1;
  u_tab : const_sound c'
}.

Lemma upd_set_ops c i o' : const_sound c → upd c (set_ops c (<[i := o']> (ops c))) i o'.
Proof. intros. split; simpl; (done || lia). Qed.

Lemma upd_set_ops_twice c i o1 o' c2 :
  upd (set_ops c (<[i := o1]> (ops c))) c2 i o' → upd c c2 i o'.
Proof. intros [H1 ? ? ?]. split; try done. rewrite H1. simpl. by rewrite list_insert_insert_eq. Qed.

Lemma new_const_spec c ty v k c' :
  const_sound c → zlen (temps c) + 1 < 2 ^ 32 → new_const c ty v = (k, c') →
  0 ≤ k < zlen (temps c') ∧ ops c' = ops c ∧ temps c `prefix_of` temps c' ∧
  zlen (temps c') ≤ zlen (temps c) + 1 ∧ zlen (temps c') ≤ Z.max (zlen (temps c)) (k + 1) ∧
  const_sound c' ∧
  ∃ t, (temps c').[k] = Some t ∧ Temp.is_const t = true ∧ Temp.val t = v.
Proof.
  intros Hs Hroom. unfold new_const. destruct (const_table c !! _) as [k'|] eqn:E.
  - intros [= <- <-]. destruct (Hs _ _ _ E) as (t & Ht & ?).
    split_and!; try (done || lia); eauto with tcg. all: apply zlookup_lt_Some in Ht; lia.
  - pose proof (zlen_nonneg (temps c)). rewrite u32_small by lia. intros [= <- <-]. simpl.
    rewrite zlen_app, zlen_one. split_and!; try (done || lia).
    + by eexists.
    + intros d w k. simpl. rewrite lookup_insert. case_decide; simplify_eq.
      * intros [= <-]. eexists. split; [apply zlookup_snoc|done].
      * intros Hk. destruct (Hs _ _ _ Hk) as (t & Ht & ?). eauto with tcg.
    + eexists. split; [apply zlookup_snoc|done].
Qed.

Lemma rd_const ts e k t : ts.[k] = Some t → Temp.is_const t = true → rd ts e k = Temp.val t.
Proof. intros Hk Hc. unfold rd. by rewrite Hk, Hc. Qed.

Lemma prefix_zlookup {A} (l l' : list A) k x : l `prefix_of` l' → l.[k] = Some x → l'.[k] = Some x.
Proof. intros [m ->]. apply zlookup_app_Some. Qed.

#[local] Arguments replace_with_const : simpl never.
#[local] Arguments replace_with_mov : simpl never.
#[local] Arguments op_mut : simpl never.

(** The ops the pass writes. *)
Lemma rewrite_args o n (opc : Opcode.t) d s :
  (opc = Opcode.Mov ∨ opc = Opcode.Neg) → length (Op.args o) = 10%nat →
  let o' := Op.rewrite_to o opc (<[1%nat := s]> (<[0%nat := d]> (Op.args o))) n in
  Op.oargs o' = [d] ∧ Op.iargs o' = [s].
Proof.
  intros Hopc Hlen. destruct o as [? ? ? ? ? ? ? args ?]. simpl in *.
  do 2 (destruct args as [|? args]; [done|]). by destruct Hopc as [-> | ->].
Qed.

Lemma not_set_label o l : Op.opc o ≠ Opcode.SetLabel → is_set_label l o = false.
Proof. intros Hn. unfold is_set_label. by rewrite bool_decide_false. Qed.

Section steps.
Context {W : Type} (ext : Opcode.t → Type_.t → list Z → list Z → W → list Z * W * option Z).

Lemma exec_rewritten ts o n opc d s e w v :
  (opc = Opcode.Mov ∨ opc = Opcode.Neg) → length (Op.args o) = 10%nat →
  spec_unary opc (bits (Op.op_type o)) (rd ts e s) = Some v →
  exec_op ext ts (Op.rewrite_to o opc (<[1%nat := s]> (<[0%nat := d]> (Op.args o))) n) (e, w)
  = (wr ts e d v, w, Next).
Proof.
  intros Hopc Hlen Hv. destruct (rewrite_args o n opc d s Hopc Hlen) as [Ho Hi].
  unfold exec_op. rewrite Ho, Hi. by apply (exec_unary ext _ _ _ _ _ _ (e, w)).
Qed.

Context (ts0 : list Temp.t) (c : Context) (info : Info) (i : nat) (o : Op.t) (T T' : gset Z).
Context (Hcs : const_sound c) (Hpre : ts0 `prefix_of` temps c).
Context (Hroom : zlen (temps c) + 1 < 2 ^ 32) (Hcov : zlen (temps c) ≤ zlen info).
Context (Hop : ops c !! i = Some o) (Hok : op_ok ts0 o = true).
Context (Hreads : reads_ok T info o = true) (Hcond : cond_ok info o = true).

(** The hypotheses under which the old and the new op are compared. *)
Definition in_facts (ts : list Temp.t) (e : env) : Prop :=
  temps c `prefix_of` ts ∧ env_ok ts0 e ∧ fact_ok ts e T info.

Definition step_good (r : option St) : Prop :=
  ∃ c' info' o', r = Some (c', info') ∧ upd c c' i o' ∧ zlen (temps c') ≤ zlen info' ∧
    (∀ l, is_set_label l o' = is_set_label l o) ∧
    (flow_ok T T' info' o = true → ∀ ts e w, temps c' `prefix_of` ts → in_facts ts e →
       exec_op ext ts o' (e, w) = exec_op ext ts o (e, w) ∧
       ∀ s', exec_op ext ts o (e, w) = (s', Next) → fact_ok ts s'.1 T' info').

Lemma ok_length : length (Op.args o) = 10%nat.
Proof. unfold op_ok in Hok. by boolp. Qed.

Lemma ok_range : op_in_range (zlen ts0) o.
Proof. unfold op_ok in Hok. by boolp. Qed.

Lemma ok_outs ts : ts0 `prefix_of` ts →
  Forall (λ d, is_const_temp ts d = false ∧ 0 ≤ d < zlen ts) (Op.oargs o).
Proof.
  intros [k ->]. pose proof ok_range as [Ho _]%Forall_app. unfold op_ok in Hok. boolp.
  match goal with H : forallb _ (Op.oargs o) = true |- _ => rename H into Hnc end.
  rewrite forallb_forall in Hnc. rewrite Forall_forall in Ho |- *. intros d Hd.
  specialize (Ho d Hd). specialize (Hnc d (proj1 (list_elem_of_In _ _) Hd)). boolp.
  unfold is_const_temp in *. rewrite zlookup_app_l, zlen_app by lia.
  pose proof (zlen_nonneg k). split; [done|lia].
Qed.

(** The op after copy propagation computes the same. *)
Lemma exec_propagated ts e w :
  consults (Op.opc o) = true → in_facts ts e →
  exec_op ext ts (propagated info o) (e, w) = exec_op ext ts o (e, w).
Proof.
  intros Hc (_ & _ & Hf). unfold exec_op. simpl.
  rewrite (propagated_oargs info o), (propagated_cargs info o) by apply ok_length.
  by rewrite (propagated_values ts e T info o) by (done || apply ok_length).
Qed.

(** An op that is left as it is, with its outputs forgotten. *)
Lemma exec_next_writes ts e w s' :
  folds_unary (Op.opc o) || folds_binary (Op.opc o) = false →
  exec_op ext ts o (e, w) = (s', Next) → ∃ vs, s'.1 = wr_all ts e (Op.oargs o) vs.
Proof.
  intros Hno. unfold exec_op.
  assert (∀ s', exec_ext ext ts (Op.opc o) (Op.op_type o) (Op.oargs o) (rd ts e <$> Op.iargs o)
    (Op.cargs o) (e, w) = (s', Next) → ∃ vs, s'.1 = wr_all ts e (Op.oargs o) vs) as Hext.
  { intros s1. unfold exec_ext. destruct (ext _ _ _ _ _) as [[vs w'] x]. intros [= <- _]. eauto. }
  assert (∃ vs, e = wr_all ts e (Op.oargs o) vs) as Hnil.
  { exists []. unfold wr_all. by rewrite combine_nil. }
  simpl fst in *. unfold exec. destruct (Op.opc o); try discriminate Hno;
    repeat case_match; intros; simplify_eq; eauto.
Qed.

(** The table after the op claims nothing about its outputs: [o'] computes what [o]
    does and leaves the set of labels alone. *)
Lemma good_forget info' o' :
  upd c (set_ops c (<[i := o']> (ops c))) i o' →
  (∀ l, is_set_label l o' = is_set_label l o) →
  zlen info' = zlen info → forgotten (temps c) (Op.oargs o) info info' →
  folds_unary (Op.opc o) || folds_binary (Op.opc o) = false →
  (∀ ts e w, in_facts ts e → exec_op ext ts o' (e, w) = exec_op ext ts o (e, w)) →
  step_good (Some (set_ops c (<[i := o']> (ops c)), info')).
Proof.
  intros Hu Hl Hlen Hforg Hno He. eexists _, _, o'. split; [done|]. split; [done|].
  split; [simpl; lia|]. split; [done|]. intros Hflow ts e w _ Hin. split; [by apply He|].
  destruct Hin as (Hts & Henv & Hf). intros s' Hs'.
  destruct (exec_next_writes ts e w s' Hno Hs') as [vs ->].
  destruct (flow_ok_spec _ _ _ _ Hflow) as [HT Hst].
  assert (ts0 `prefix_of` ts) as Hp by (by etrans).
  pose proof (ok_outs ts Hp) as Ho. pose proof (ok_outs _ Hpre) as Ho0.
  eapply fact_forgotten; [done| |by eapply Forall_impl; [apply Ho|]; simpl; intros ? []|done|done].
  destruct Hforg as [? Hfo]. split; [done|]. intros t Ht _. apply Hfo; [done|].
  rewrite Forall_forall in Ho0. by apply Ho0.
Qed.

Section fold.
Context (d : Z) (Hd : Op.oargs o = [d]).
Context (Hfolds : folds_unary (Op.opc o) || folds_binary (Op.opc o) = true).
#[local] Abbreviation ty := (Op.op_type o).
#[local] Abbreviation c1 := (set_ops c (<[i := propagated info o]> (ops c))).

Lemma fold_type : int_type ty = true ∧ default ty (fixed_type (Op.opc o)) = ty.
Proof.
  unfold op_ok in Hok. rewrite Hfolds in Hok. boolp.
  match goal with H : implb true _ = true |- _ => simpl in H; boolp end. done.
Qed.

(** The destination in any extension of the block's temps. *)
Lemma fold_dst ts : ts0 `prefix_of` ts →
  is_const_temp ts d = false ∧ 0 ≤ d < zlen ts ∧ bits ty ≤ width_of ts d.
Proof.
  intros Hp. pose proof (ok_outs ts Hp) as Ho. pose proof (ok_outs ts0 ltac:(done)) as Ho0.
  rewrite Hd in Ho, Ho0. apply Forall_singleton in Ho as [? ?], Ho0 as [_ Hr].
  split_and!; try (done || lia). unfold op_ok in Hok. rewrite Hfolds in Hok. boolp.
  match goal with H : implb true _ = true |- _ => simpl in H; boolp end.
  match goal with H : forallb (λ _, bits _ <=? _) _ = true |- _ => rewrite Hd in H; simpl in H; boolp end.
  destruct Hp as [k ->]. unfold width_of in *. by rewrite zlookup_app_l by lia.
Qed.

Lemma op1_lookup : ops c1 !! i = Some (propagated info o).
Proof. simpl. apply list_lookup_insert_eq. by eapply lookup_lt_Some. Qed.

Lemma fold_not_label l : is_set_label l o = false.
Proof. apply not_set_label. intros E. by rewrite E in Hfolds. Qed.

(** The op computes [f] of the current values. *)
Definition computes (f : list Temp.t → env → Z) : Prop :=
  ∀ ts e w, in_facts ts e →
    exec_op ext ts o (e, w) = (wr ts e d (f ts e), w, Next) ∧ in_width (bits ty) (f ts e).

(** [dst] redefined by an op that computes the same value, its facts dropped. *)
Lemma good_invalidate f o' :
  computes f →
  (∀ l, is_set_label l o' = false) →
  (∀ ts e w, in_facts ts e → exec_op ext ts o' (e, w) = (wr ts e d (f ts e), w, Next)) →
  step_good (Some (set_ops c (<[i := o']> (ops c)), invalidate_one info d)).
Proof.
  intros Hv Hl He. destruct (fold_dst _ Hpre) as (_ & ? & _).
  eexists _, _, o'. split; [done|]. split; [by apply upd_set_ops|]. split.
  { etrans; [|apply zlen_invalidate_one]. done. }
  split; [intros l; by rewrite Hl, fold_not_label|].
  intros Hflow ts e w _ Hin. destruct (Hv ts e w Hin) as [-> _]. split; [by apply He|].
  intros s' [= <-]. destruct (flow_ok_spec _ _ _ _ Hflow) as [HT Hst]. rewrite Hd in *.
  destruct Hin as (? & ? & ?). by eapply fact_invalidate_one; [..|lia|done|done|done].
Qed.

Lemma propagated_length : length (Op.args (propagated info o)) = 10%nat.
Proof. simpl. rewrite propagate_length. apply ok_length. Qed.

Lemma good_replace_with_mov s :
  computes (λ ts e, rd ts e s mod 2 ^ bits ty) →
  step_good (replace_with_mov (c1, info) (Z.of_nat i) d s).
Proof.
  intros Hv. unfold replace_with_mov. rewrite (op_mut_Some _ _ _ _ op1_lookup). simpl.
  rewrite list_insert_insert_eq. eapply good_invalidate; [done| |].
  - intros l. by apply not_set_label.
  - intros ts e w _. apply exec_rewritten; [auto|apply propagated_length|done].
Qed.

Lemma good_replace_with_neg s :
  computes (λ ts e, (- rd ts e s) mod 2 ^ bits ty) →
  step_good (ctx ← op_mut c1 (Z.of_nat i) (λ o1,
               Op.rewrite_to o1 Opcode.Neg (<[1%nat := s]> (<[0%nat := d]> (Op.args o1))) 2);
             Some (ctx, invalidate_one info d)).
Proof.
  intros Hv. rewrite (op_mut_Some _ _ _ _ op1_lookup). simpl.
  rewrite list_insert_insert_eq. eapply good_invalidate; [done| |].
  - intros l. by apply not_set_label.
  - intros ts e w _. apply exec_rewritten; [auto|apply propagated_length|done].
Qed.

(** An op that is not rewritten. *)
Lemma good_keep f :
  computes f → consults (Op.opc o) = true →
  step_good (Some (c1, invalidate_one info d)).
Proof.
  intros Hv Hc. eapply good_invalidate; [done| |].
  - intros l. apply not_set_label. simpl. intros E. by rewrite E in Hfolds.
  - intros ts e w Hin. rewrite exec_propagated by done. by apply Hv.
Qed.

(** [dst] folded to a constant. *)
Lemma good_replace_with_const v :
  computes (λ ts e, v mod 2 ^ bits ty) →
  step_good (replace_with_const (c1, info) (Z.of_nat i) d v ty).
Proof.
  intros Hv. destruct fold_type as [Hty _]. destruct (fold_dst _ Hpre) as (_ & Hdr & _).
  unfold replace_with_const. rewrite (land_type_mask ty v Hty).
  set (x := v mod 2 ^ bits ty) in *. destruct (new_const c1 ty x) as [k c2] eqn:Hk.
  apply new_const_spec in Hk as (Hkr & Hops & Htemps & Hlen & Hlen' & Hcs2 & (t & Ht & Htc & Htv));
    [|done|done].
  rewrite (op_mut_Some c2 _ _ (propagated info o)) by (rewrite Hops; apply op1_lookup).
  cbn [mbind option_bind]. set (info1 := alter _ _ _). eexists _, _, _. split; [reflexivity|].
  assert (zlen info ≤ zlen info1 ∧ k < zlen info1) as [Hl1 Hl2].
  { unfold info1. rewrite zlen_alter. split; [apply zlen_ensure_mono|apply zlen_ensure; lia]. }
  split; [|split; [|split]].
  - split; simpl; try done. rewrite Hops. simpl. by rewrite list_insert_insert_eq.
  - etrans; [|apply zlen_set_const]. simpl in *. lia.
  - intros l. rewrite fold_not_label. by apply not_set_label.
  - intros Hflow ts e w Hp Hin. destruct (Hv ts e w Hin) as [-> Hx]. split.
    + apply exec_rewritten; [auto|apply propagated_length|]. simpl.
      rewrite (rd_const _ _ _ _ (prefix_zlookup _ _ _ _ Hp Ht) Htc), Htv.
      by rewrite Z.mod_small.
    + intros s' [= <-]. destruct (flow_ok_spec _ _ _ _ Hflow) as [HT Hst]. rewrite Hd in *.
      destruct Hin as (Hc & _ & Hf). destruct (fold_dst ts ltac:(by etrans)) as (? & ? & ?).
      eapply fact_set_const; [done|lia|done|done|lia|done| |by rewrite ti_set_const, decide_True by lia|].
      * apply (in_width_mono (bits ty)); [|done]. pose proof (bits_range ty Hty). lia.
      * intros u Hu. rewrite ti_set_const, decide_False by lia.
        unfold info1. rewrite ti_alter by (pose proof (zlen_ensure info k); lia).
        rewrite ti_ensure. case_decide as Huk; [|by left]. subst u. right. simpl.
        split; [|done]. by rewrite (rd_const _ _ _ _ (prefix_zlookup _ _ _ _ Hp Ht) Htc).
Qed.

(** The arguments the fold functions read. *)
#[local] Abbreviation args1 := (Op.args (propagated info o)).

Lemma slice_one_lookup (l : list Z) k n x : Op.slice l k n = [x] → 0 ≤ k → l !! Z.to_nat k = Some x.
Proof.
  unfold Op.slice. intros H Hk. assert (take (Z.to_nat n) (drop (Z.to_nat k) l) !! 0%nat = Some x)
    as E by (by rewrite H). apply lookup_take_Some in E as [E _].
  by rewrite lookup_drop, Nat.add_0_r in E.
Qed.

Lemma slice_two_lookup (l : list Z) k n x y :
  Op.slice l k n = [x; y] → 0 ≤ k → l !! Z.to_nat k = Some x ∧ l !! S (Z.to_nat k) = Some y.
Proof.
  unfold Op.slice. intros H Hk.
  assert (∀ j z, [x; y] !! j = Some z → drop (Z.to_nat k) l !! j = Some z) as E.
  { intros j z. rewrite <- H. intros [? _]%lookup_take_Some. done. }
  pose proof (E 0%nat x eq_refl) as Ex. pose proof (E 1%nat y eq_refl) as Ey.
  rewrite lookup_drop in Ex, Ey. rewrite Nat.add_0_r in Ex. rewrite Nat.add_1_r in Ey. done.
Qed.

Lemma arg0_dst : args1.arg 0 = d.
Proof.
  pose proof (propagated_oargs info o ok_length) as H. rewrite Hd in H.
  pose proof (slice_one_lookup _ 0 _ _ H ltac:(lia)) as E.
  change (Z.to_nat 0) with 0%nat in E. by rewrite E.
Qed.

Lemma fold_nb_oargs : nb_oargs (def (Op.opc o)) = 1.
Proof. destruct (Op.opc o); try discriminate Hfolds; reflexivity. Qed.

Lemma fold_consults : consults (Op.opc o) = true.
Proof. destruct (Op.opc o); try discriminate Hfolds; reflexivity. Qed.

(** A constant the table knows for an input. *)
Lemma fact_input ts e t :
  in_facts ts e → t ∈ Op.iargs o →
  rd ts e (canon info t) = rd ts e t ∧
  (is_const (ti info (canon info t)) = true → rd ts e t = val (ti info (canon info t))).
Proof.
  intros (_ & _ & Hf) Ht. destruct (reads_ok_spec _ _ _ _ Hreads fold_consults Ht) as [Hn Hcn].
  pose proof (rd_canon _ _ _ _ _ Hf Hn) as E. split; [done|].
  intros Hc. rewrite <- E. by apply (Hf _ Hcn).
Qed.

Section unary.
Context (a : Z) (Ha : Op.iargs o = [a]).

Lemma arg1_src : args1.arg 1 = canon info a.
Proof.
  pose proof (propagated_iargs info o ok_length) as H. rewrite Ha in H.
  unfold Op.iargs in H. simpl in H. rewrite fold_nb_oargs in H.
  pose proof (slice_one_lookup _ 1 _ _ H ltac:(lia)) as E.
  change (Z.to_nat 1) with 1%nat in E. simpl. by rewrite E.
Qed.

Lemma computes_unary f :
  (∀ x, spec_unary (Op.opc o) (bits ty) x = Some (f x)) →
  (∀ x, in_width (bits ty) (f x)) → computes (λ ts e, f (rd ts e a)).
Proof.
  intros Hf Hw ts e w _. split; [|done]. unfold exec_op. rewrite Hd, Ha.
  by apply (exec_unary ext _ _ _ _ _ _ (e, w)).
Qed.

Lemma a_input : a ∈ Op.iargs o.
Proof. rewrite Ha. by left. Qed.

Lemma ty_mod_in_width x : in_width (bits ty) (x mod 2 ^ bits ty).
Proof. apply mod_in_width. pose proof (bits_range _ (proj1 fold_type)). lia. Qed.

Lemma mov_in_width ts e :
  Op.opc o = Opcode.Mov → in_facts ts e → rd ts e a mod 2 ^ bits ty = rd ts e a.
Proof.
  intros Hm (Hp & He & _). assert (ts0 `prefix_of` ts) as Hp0 by (by etrans).
  pose proof ok_range as [_ Hi]%Forall_app. rewrite Ha in Hi. rewrite Forall_singleton in Hi.
  rewrite (rd_prefix ts0 ts) by done. apply Z.mod_small, (in_width_mono (width_of ts0 a)).
  - unfold op_ok in Hok. boolp.
    match goal with H : implb (bool_decide (Op.opc o = Opcode.Mov)) _ = true |- _ =>
      rewrite bool_decide_eq_true_2 in H by done; simpl in H; rewrite Ha in H; simpl in H end.
    boolp. split; [|done]. unfold width_of. case_match; [|lia].
    match goal with |- 0 ≤ bits ?t => pose proof (size_bits_pos t) end. lia.
  - by apply He.
Qed.

Lemma good_fold_mov :
  Op.opc o = Opcode.Mov → step_good (fold_mov (c1, info) (Z.of_nat i) args1 ty).
Proof.
  intros Hm. assert (computes (λ ts e, rd ts e a mod 2 ^ bits ty)) as Hv.
  { apply (computes_unary (λ x, x mod 2 ^ bits ty)); [by rewrite Hm|apply ty_mod_in_width]. }
  unfold fold_mov. rewrite arg0_dst, arg1_src. destruct fold_type as [Hty _].
  set (r := if is_const _ then _ else _). eexists _, r, (propagated info o).
  split; [done|]. split; [by apply upd_set_ops|]. split.
  { etrans; [done|]. unfold r. case_match; [apply zlen_set_const|apply zlen_set_copy]. }
  split; [intros l; rewrite fold_not_label; apply not_set_label; simpl; by rewrite Hm|].
  intros Hflow ts e w _ Hin. rewrite exec_propagated by (apply fold_consults || done).
  split; [done|]. destruct (Hv ts e w Hin) as [-> Hx]. intros s' [= <-].
  destruct (flow_ok_spec _ _ _ _ Hflow) as [HT Hst]. rewrite Hd in *.
  destruct (fact_input ts e a Hin a_input) as [Hcan Hcst].
  assert (in_facts ts e) as (Hc & _ & Hf) by done.
  destruct (fold_dst ts ltac:(by etrans)) as (? & ? & ?).
  assert (in_width (width_of ts d) (rd ts e a mod 2 ^ bits ty)) as Hw.
  { apply (in_width_mono (bits ty)); [|done]. pose proof (bits_range _ Hty). lia. }
  unfold r in *. destruct (is_const (ti info (canon info a))) eqn:Hcon.
  - rewrite land_type_mask, <- Hcst in * by done.
    eapply fact_set_const; try done; [lia|lia|by rewrite ti_set_const, decide_True by lia|].
    intros u Hu. left. by rewrite ti_set_const, decide_False by lia.
  - eapply fact_set_copy; try done; [lia|lia|]. by rewrite Hcan, mov_in_width.
Qed.

(** [x] computed from a known constant input. *)
Lemma computes_known f :
  computes (λ ts e, f (rd ts e a)) → is_const (ti info (canon info a)) = true →
  computes (λ ts e, f (val (ti info (canon info a)))).
Proof.
  intros Hv Hc ts e w Hin. destruct (fact_input ts e a Hin a_input) as [_ E].
  rewrite <- (E Hc). by apply Hv.
Qed.

Lemma good_fold_unary :
  Op.opc o = Opcode.Neg ∨ Op.opc o = Opcode.Not →
  step_good (fold_unary (c1, info) (Z.of_nat i) (Op.opc o) args1 ty).
Proof.
  intros Ho. set (f x := if decide (Op.opc o = Opcode.Neg) then - x else - x - 1).
  assert (computes (λ ts e, f (rd ts e a) mod 2 ^ bits ty)) as Hv.
  { apply (computes_unary (λ x, f x mod 2 ^ bits ty)); [|intros; apply ty_mod_in_width].
    intros x. unfold f. by destruct Ho as [-> | ->]. }
  unfold fold_unary. rewrite arg0_dst, arg1_src. destruct fold_type as [Hty _].
  pose proof (bits_range _ Hty). destruct (is_const _) eqn:Hcon; simpl negb; cbv iota.
  2:{ eapply good_keep; [done|apply fold_consults]. }
  set (v := val _). assert (∀ x, Z.land (u64 x) (type_mask ty) = x mod 2 ^ bits ty) as Hm.
  { intros x. rewrite land_type_mask by done. apply mod_mod_pow2. lia. }
  assert ((match Op.opc o with
    | Opcode.Neg => Some (Z.land (u64 (0 - v)) (type_mask ty))
    | Opcode.Not => Some (Z.land (u64 (Z.lnot v)) (type_mask ty))
    | _ => None end) = Some (f v mod 2 ^ bits ty)) as ->.
  { unfold f. destruct Ho as [-> | ->]; rewrite Hm; do 2 f_equal; unfold Z.lnot; simpl; lia. }
  cbn [mbind option_bind]. apply good_replace_with_const.
  rewrite Z.mod_mod by (pose proof (pow2_pos (bits ty)); lia).
  apply (computes_known (λ x, f x mod 2 ^ bits ty)); done.
Qed.

Definition ext_value (opc : Opcode.t) (x : Z) : Z :=
  default 0 (spec_unary opc 64 x).

(** What the code computes for a constant input of a conversion. *)
Lemma ext_value_spec v :
  fixed_type (Op.opc o) = Some ty →
  (match Op.opc o with
   | Opcode.ExtI32I64 => u64 (i32 (u32 v))
   | Opcode.ExtrhI64I32 => Z.land (Z.shiftr v 32) 0xFFFFFFFF
   | _ => Z.land v 0xFFFFFFFF end) mod 2 ^ bits ty = ext_value (Op.opc o) v.
Proof.
  assert (∀ x, Z.land x 0xFFFFFFFF = x mod 2 ^ 32) as Hm by (intros; by apply (land_ones_mod 32)).
  intros Hfix. unfold ext_value, u64, i32, u32.
  destruct (Op.opc o); try discriminate; injection Hfix as <-; simpl; rewrite ?Hm.
  - by rewrite signed_of_mod, Z.mod_mod.
  - by rewrite (mod_mod_pow2_ge v 32 64).
  - by rewrite Z.mod_mod.
  - rewrite Z.mod_mod by done. rewrite <- Z.shiftr_div_pow2 by done.
    apply Z.bits_inj'. intros n Hn. rewrite (Z.shiftr_spec (_ mod _)) by done.
    destruct (decide (n < 32)).
    + by rewrite !Z.mod_pow2_bits_low, Z.shiftr_spec by lia.
    + by rewrite !Z.mod_pow2_bits_high by lia.
Qed.

Lemma good_fold_ext :
  fixed_type (Op.opc o) = Some ty →
  step_good (fold_ext (c1, info) (Z.of_nat i) (Op.opc o) args1).
Proof.
  intros Hfix. assert (computes (λ ts e, ext_value (Op.opc o) (rd ts e a))) as Hv.
  { apply (computes_unary (ext_value (Op.opc o))); intros x; unfold ext_value;
      destruct (Op.opc o); try discriminate; injection Hfix as <-; try done;
      try (apply (mod_in_width 64); lia); try (apply (mod_in_width 32); lia);
      try (apply (in_width_mono 32); [simpl; lia|apply (mod_in_width 32); lia]).
    split; [apply Z.div_pos; [apply (mod_in_width 64)|]; lia|].
    apply Z.div_lt_upper_bound; [lia|]. by apply (mod_in_width 64). }
  unfold fold_ext. rewrite arg0_dst, arg1_src.
  destruct (is_const _) eqn:Hcon; simpl negb; cbv iota.
  2:{ eapply good_keep; [done|apply fold_consults]. }
  apply computes_known in Hv; [|done]. set (v := val _) in *.
  set (x := match Op.opc o with
            | Opcode.ExtI32I64 => u64 (i32 (u32 v))
            | Opcode.ExtrhI64I32 => Z.land (Z.shiftr v 32) 0xFFFFFFFF
            | _ => Z.land v 0xFFFFFFFF end).
  assert (step_good (replace_with_const (c1, info) (Z.of_nat i) d x ty)) as Hgood.
  { apply good_replace_with_const. intros ts e w Hin. destruct (Hv ts e w Hin) as [E1 E2].
    rewrite <- (ext_value_spec v Hfix) in E1, E2. done. }
  unfold x in Hgood. destruct (Op.opc o); try discriminate Hfix; try discriminate Hfolds;
    injection Hfix as E;
    rewrite <- E in Hgood; exact Hgood.
Qed.
End unary.

Section binary.
Context (a b : Z) (Hab : Op.iargs o = [a; b]) (Hbin : folds_binary (Op.opc o) = true).

Lemma args_ab : args1.arg 1 = canon info a ∧ args1.arg 2 = canon info b.
Proof.
  pose proof (propagated_iargs info o ok_length) as H. rewrite Hab in H.
  unfold Op.iargs in H. simpl in H. rewrite fold_nb_oargs in H.
  pose proof (slice_two_lookup _ 1 _ _ _ H ltac:(lia)) as [E1 E2].
  change (Z.to_nat 1) with 1%nat in E1, E2. simpl. by rewrite E1, E2.
Qed.

Lemma ab_input : a ∈ Op.iargs o ∧ b ∈ Op.iargs o.
Proof. rewrite Hab. split; [by left|right; by left]. Qed.

(** The op computes [v] whenever the reference semantics says so. *)
Lemma computes_binary (f : list Temp.t → env → Z) :
  (∀ ts e, in_facts ts e →
     spec_binary (Op.opc o) (bits ty) (rd ts e a) (rd ts e b) = Some (f ts e) ∧
     in_width (bits ty) (f ts e)) → computes f.
Proof.
  intros Hf ts e w Hin. destruct (Hf ts e Hin) as [Hv Hw]. split; [|done].
  unfold exec_op. rewrite Hd, Hab. by apply (exec_binary ext _ _ _ _ _ _ _ (e, w)).
Qed.

(** ** Known operands, in the form the code tests them *)

#[local] Abbreviation ai := (ti info (canon info a)).
#[local] Abbreviation bi := (ti info (canon info b)).
#[local] Abbreviation mask := (type_mask ty).

Lemma known_a ts e x :
  in_facts ts e → is_const ai = true → Z.land (val ai) mask = x → rd ts e a mod 2 ^ bits ty = x.
Proof.
  intros Hin Hc <-. rewrite (land_type_mask _ _ (proj1 fold_type)).
  by rewrite (proj2 (fact_input ts e a Hin (proj1 ab_input)) Hc).
Qed.

Lemma known_b ts e x :
  in_facts ts e → is_const bi = true → Z.land (val bi) mask = x → rd ts e b mod 2 ^ bits ty = x.
Proof.
  intros Hin Hc <-. rewrite (land_type_mask _ _ (proj1 fold_type)).
  by rewrite (proj2 (fact_input ts e b Hin (proj2 ab_input)) Hc).
Qed.

Lemma rd_a ts e : in_facts ts e → rd ts e (canon info a) = rd ts e a.
Proof. intros Hin. apply (fact_input ts e a Hin), ab_input. Qed.

Lemma rd_b ts e : in_facts ts e → rd ts e (canon info b) = rd ts e b.
Proof. intros Hin. apply (fact_input ts e b Hin), ab_input. Qed.

(** The three outcomes of a simplification. *)
Lemma good_to_const v :
  in_width (bits ty) v →
  (∀ ts e, in_facts ts e → spec_binary (Op.opc o) (bits ty) (rd ts e a) (rd ts e b) = Some v) →
  step_good (replace_with_const (c1, info) (Z.of_nat i) d v ty).
Proof.
  intros Hv H. apply good_replace_with_const, computes_binary. intros ts e Hin.
  rewrite Z.mod_small by done. auto.
Qed.

Lemma good_to_mov s :
  (∀ ts e, in_facts ts e → spec_binary (Op.opc o) (bits ty) (rd ts e a) (rd ts e b) =
     Some (rd ts e s mod 2 ^ bits ty)) →
  step_good (replace_with_mov (c1, info) (Z.of_nat i) d s).
Proof.
  intros H. apply good_replace_with_mov, computes_binary. intros ts e Hin.
  split; [auto|apply ty_mod_in_width].
Qed.

Lemma all_ones_eq : mask = 2 ^ bits ty - 1.
Proof. destruct fold_type as [Hty _]. by destruct ty. Qed.

Lemma ones_in_width : in_width (bits ty) mask.
Proof. rewrite all_ones_eq. pose proof (pow2_bits_pos _ (proj1 fold_type)). split; lia. Qed.

Lemma zero_in_width : in_width (bits ty) 0.
Proof. pose proof (pow2_bits_pos _ (proj1 fold_type)). split; lia. Qed.

Lemma good_simplify_b r :
  simplify_b (c1, info) (Z.of_nat i) (Op.opc o) d (canon info a) bi ty = Some r → step_good r.
Proof.
  unfold simplify_b. destruct (is_const bi) eqn:Hc; [|done].
  pose proof zero_in_width. pose proof ones_in_width. destruct fold_type as [Hty _].
  assert (Z.land (val bi) mask = 0 → zero_right_identity (Op.opc o) = true →
    step_good (replace_with_mov (c1, info) (Z.of_nat i) d (canon info a))) as Hid.
  { intros Hb Ho. apply good_to_mov. intros ts e Hin. rewrite rd_a by done.
    apply binary_zero_r; [done..|]. by apply known_b. }
  destruct (Op.opc o) eqn:Eo in |- *; try discriminate; repeat case_match; intros [= <-]; boolp;
    try discriminate; try (apply Hid; [done|by rewrite Eo]).
  all: try (apply good_to_const; [done|]; intros ts e Hin; rewrite Eo; simpl; f_equal).
  all: try (apply good_to_mov; intros ts e Hin; rewrite rd_a, Eo by done; simpl; f_equal).
  all: match goal with H : Z.land (val bi) mask = _ |- _ =>
    pose proof (known_b ts e _ Hin Hc H) as Hk end.
  all: rewrite ?all_ones_eq in *.
  - by apply mul_zero; [|right].
  - by apply mul_one_r.
  - by apply and_zero; [|right].
  - by apply and_ones_r.
  - by apply or_ones; [|right].
  - by apply andc_ones_r.
Qed.

Lemma good_simplify_a r :
  simplify_a (c1, info) (Z.of_nat i) (Op.opc o) d (canon info b) ai ty = Some r → step_good r.
Proof.
  unfold simplify_a. destruct (is_const ai) eqn:Hc; [|done].
  pose proof zero_in_width. pose proof ones_in_width. destruct fold_type as [Hty _].
  destruct (Op.opc o) eqn:Eo in |- *; try discriminate; repeat case_match; intros [= <-]; boolp.
  all: try (apply good_to_const; [done|]; intros ts e Hin; rewrite Eo; simpl; f_equal).
  all: try (apply good_to_mov; intros ts e Hin; rewrite rd_b, Eo by done; simpl; f_equal).
  all: try (match goal with H : Z.land (val ai) mask = _ |- _ =>
    pose proof (known_a ts e _ Hin Hc H) as Hk end; rewrite ?all_ones_eq in * ).
  - by apply add_zero_l.
  - apply good_replace_with_neg, computes_binary. intros ts e Hin.
    split; [|apply ty_mod_in_width]. rewrite rd_b, Eo by done. simpl. f_equal.
    apply sub_zero_l. by apply known_a.
  - by apply mul_zero; [|left].
  - by apply and_zero; [|left].
  - by apply or_ones; [|left].
Qed.

Lemma step_good_Some r : step_good r → ∃ s', r = Some s' ∧ step_good (Some s').
Proof. intros (c' & info' & o' & -> & H). eexists. split; [done|]. exists c', info', o'. done. Qed.

Lemma try_simplify_good :
  let r := try_simplify (c1, info) (Z.of_nat i) (Op.opc o) d (canon info a) (canon info b)
             ai bi ty in
  r = Some ((c1, info), false) ∨ ∃ s', r = Some (s', true) ∧ step_good (Some s').
Proof.
  unfold try_simplify. destruct (simplify_b _ _ _ _ _ _ _) as [r|] eqn:E.
  - apply good_simplify_b, step_good_Some in E as (s' & -> & ?). right. by exists s'.
  - destruct (simplify_a _ _ _ _ _ _ _) as [r|] eqn:E'; [|by left].
    apply good_simplify_a, step_good_Some in E' as (s' & -> & ?). right. by exists s'.
Qed.

Lemma spec_binary_total opc w x y : folds_binary opc = true → ∃ v, spec_binary opc w x y = Some v.
Proof. destruct opc; try discriminate 1; eauto. Qed.

(** The result of a binary op fits its width. *)
Lemma spec_binary_in_width x y v :
  spec_binary (Op.opc o) (bits ty) x y = Some v → in_width (bits ty) v.
Proof.
  destruct fold_type as [Hty _]. rewrite <- (eval_binary_spec (Op.opc o) ty) by done.
  unfold eval_binary. destruct (match Op.opc o with Opcode.Add => _ | _ => _ end) as [r|];
    [|done]. simpl. intros [= <-]. rewrite land_type_mask by done. apply ty_mod_in_width.
Qed.

Lemma computes_spec :
  ∃ f, computes f ∧ ∀ ts e, spec_binary (Op.opc o) (bits ty) (rd ts e a) (rd ts e b) = Some (f ts e).
Proof.
  exists (λ ts e, default 0 (spec_binary (Op.opc o) (bits ty) (rd ts e a) (rd ts e b))).
  assert (∀ ts e, spec_binary (Op.opc o) (bits ty) (rd ts e a) (rd ts e b) =
    Some (default 0 (spec_binary (Op.opc o) (bits ty) (rd ts e a) (rd ts e b)))) as H.
  { intros ts e. by destruct (spec_binary_total (Op.opc o) (bits ty) (rd ts e a) (rd ts e b) Hbin)
      as [v ->]. }
  split; [|done]. apply computes_binary. intros ts e _. split; [done|].
  eapply spec_binary_in_width, H.
Qed.

(** Same-operand identities. *)
Lemma same_operand_sound x v :
  (Op.opc o = Opcode.And ∨ Op.opc o = Opcode.Or) ∧ v = x mod 2 ^ bits ty ∨
  (Op.opc o = Opcode.Xor ∨ Op.opc o = Opcode.Sub) ∧ v = 0 →
  spec_binary (Op.opc o) (bits ty) x x = Some v.
Proof.
  intros [[[-> | ->] ->]|[[-> | ->] ->]]; simpl; f_equal.
  - by rewrite Z.land_diag.
  - by rewrite Z.lor_diag.
  - by rewrite Z.lxor_nilpotent.
  - by rewrite Z.sub_diag.
Qed.

Lemma good_fold_binary :
  step_good (fold_binary (c1, info) (Z.of_nat i) (Op.opc o) args1 ty).
Proof.
  unfold fold_binary. rewrite arg0_dst, (proj1 args_ab), (proj2 args_ab). cbv zeta.
  destruct fold_type as [Hty _]. destruct computes_spec as (f & Hf & Hspec).
  set (folded := if is_const ai && is_const bi then _ else None).
  destruct folded as [v|] eqn:Hfold; subst folded.
  - destruct (is_const ai && is_const bi) eqn:Hc; [|done]. boolp.
    rewrite !land_type_mask, eval_binary_spec in Hfold by done.
    apply good_to_const; [by eapply spec_binary_in_width|]. intros ts e Hin.
    by rewrite (proj2 (fact_input ts e a Hin (proj1 ab_input))),
      (proj2 (fact_input ts e b Hin (proj2 ab_input))).
  - destruct try_simplify_good as [-> | (s' & -> & Hs)]; [|done].
    cbn [mbind option_bind]. cbv iota.
    pose proof (good_keep f Hf fold_consults) as Hkeep.
    destruct (canon info a =? canon info b) eqn:Heq; [|done]. boolp.
    assert (∀ ts e, in_facts ts e → rd ts e b = rd ts e a) as Hsame.
    { intros ts e Hin. by rewrite <- rd_a, <- rd_b, Heq by done. }
    destruct (Op.opc o) eqn:Eo in |- *; try exact Hkeep.
    + apply good_to_const; [apply zero_in_width|]. intros ts e Hin. rewrite Hsame by done.
      apply same_operand_sound. auto.
    + apply good_to_mov. intros ts e Hin. rewrite Hsame, rd_a by done.
      apply same_operand_sound. auto.
    + apply good_to_mov. intros ts e Hin. rewrite Hsame, rd_a by done.
      apply same_operand_sound. auto.
    + apply good_to_const; [apply zero_in_width|]. intros ts e Hin. rewrite Hsame by done.
      apply same_operand_sound. auto.
Qed.
End binary.
End fold.

(** ** Conditional branches *)

Section brcond.
Context (Hbr : Op.opc o = Opcode.BrCond).
#[local] Abbreviation c1 := (set_ops c (<[i := propagated info o]> (ops c))).
#[local] Abbreviation args1 := (Op.args (propagated info o)).

Lemma brcond_args : ∃ a b x l,
  Op.oargs o = [] ∧ Op.iargs o = [a; b] ∧ Op.cargs o = [x; l] ∧
  args1.arg 0 = canon info a ∧ args1.arg 1 = canon info b ∧ args1.arg 2 = x ∧ args1.arg 3 = l.
Proof.
  pose proof ok_length as Hlen.
  pose proof (propagated_lookup info o Hlen) as Hl. rewrite Hbr in Hl.
  change (Z.to_nat (nb_oargs (def Opcode.BrCond))) with 0%nat in Hl.
  change (Z.to_nat (nb_iargs (def Opcode.BrCond))) with 2%nat in Hl.
  unfold Op.oargs, Op.iargs, Op.cargs. rewrite Hbr.
  destruct (Op.args o) as [|a [|b [|x [|l rest]]]]; try discriminate Hlen.
  exists a, b, x, l. split_and!; try done; rewrite Hl; done.
Qed.

Lemma brcond_keeps_facts ts e info' :
  (∀ t, ti info' t = ti info t) → flow_ok T T' info' o = true → fact_ok ts e T info →
  fact_ok ts e T' info'.
Proof.
  intros Hi Hflow Hf. destruct (flow_ok_spec _ _ _ _ Hflow) as [HT Hst].
  destruct brcond_args as (a & b & x & l & Ho & _). rewrite Ho in *.
  intros t Ht. rewrite Hi. apply Hf. intros HtT. apply Ht, HT; [done|set_solver].
Qed.

(** The condition of a branch on two known inputs. *)
Lemma brcond_known a b x l :
  Op.iargs o = [a; b] → Op.cargs o = [x; l] →
  is_const (ti info (canon info a)) = true → is_const (ti info (canon info b)) = true →
  int_type (Op.op_type o) = true ∧ ∃ cnd, cond_decode x = Some cnd ∧
    Cond.is_signed cnd && bool_decide (Op.op_type o = Type_.I32) = false.
Proof.
  intros Hi Hc Ha Hb. pose proof Hok as H. pose proof Hcond as H'.
  unfold op_ok in H. unfold cond_ok in H'. rewrite Hbr, Hi, Hc in H, H'. simpl in H, H'.
  rewrite Ha, Hb in H'. boolp. split; [done|]. destruct (cond_decode x) as [cnd|]; [|exfalso; by eapply is_Some_None].
  exists cnd. split; [done|]. simpl in H'. by rewrite andb_true_r in H'.
Qed.

Lemma brcond_folded x l rest o' :
  Op.cargs o = [x; l] →
  (Op.opc o' = Opcode.Br ∧ Op.args o' = l :: rest ∨ Op.opc o' = Opcode.Nop) →
  (∀ ts e w, in_facts ts e → exec_op ext ts o (e, w) =
     ((e, w), match Op.opc o' with Opcode.Br => Jump l | _ => Next end)) →
  ∀ ts e w, in_facts ts e → exec_op ext ts o' (e, w) = exec_op ext ts o (e, w).
Proof.
  intros Hc Ho' Ho ts e w Hin. rewrite (Ho ts e w Hin). unfold exec_op, Op.oargs, Op.iargs, Op.cargs.
  by destruct Ho' as [[-> ->]| ->].
Qed.

Lemma good_fold_brcond : step_good (fold_brcond (c1, info) (Z.of_nat i) args1 (Op.op_type o)).
Proof.
  destruct brcond_args as (a & b & x & l & Ho & Hi & Hc & Ha & Hb & Hx & Hl).
  assert (∀ o', Op.opc o' ≠ Opcode.SetLabel →
    (∀ ts e w, in_facts ts e → exec_op ext ts o' (e, w) = exec_op ext ts o (e, w)) →
    step_good (Some (set_ops c (<[i := o']> (ops c)), info))) as Hgood.
  { intros o' Hn He. eexists _, _, o'. split; [done|]. split; [by apply upd_set_ops|].
    split; [done|]. split; [intros k; rewrite !not_set_label by (done || by rewrite Hbr); done|].
    intros Hflow ts e w _ Hin. split; [by apply He|]. intros s'.
    unfold exec_op. rewrite Hbr, Ho, Hi, Hc. simpl. intros [= <- _].
    by eapply brcond_keeps_facts; [..|apply Hin]. }
  assert (consults (Op.opc o) = true) as Hcon by (by rewrite Hbr).
  unfold fold_brcond. rewrite Ha, Hb, Hx, Hl. cbv zeta.
  destruct (negb _ || negb _) eqn:Hknown.
  { apply Hgood; [simpl; by rewrite Hbr|]. intros. by apply exec_propagated. }
  boolp. destruct (brcond_known a b x l) as (Hty & cnd & Hcnd & Hsg); [done..|].
  rewrite (cond_from_carg_decode _ _ Hcnd), eval_cond_spec by done.
  assert (∀ ts e w, in_facts ts e → exec_op ext ts o (e, w) = ((e, w),
    if Cond.holds cnd (bits (Op.op_type o)) (val (ti info (canon info a)))
         (val (ti info (canon info b))) then Jump l else Next)) as Hex.
  { intros ts e w Hin. destruct Hin as (_ & _ & Hf). unfold exec_op. rewrite Hbr, Ho, Hi, Hc.
    simpl. rewrite Hcnd.
    assert (∀ t, t ∈ Op.iargs o → is_const (ti info (canon info t)) = true →
      rd ts e t = val (ti info (canon info t))) as Hrd.
    { intros t Ht Hct. destruct (reads_ok_spec _ _ _ _ Hreads Hcon Ht) as [Hn Hn'].
      rewrite <- (rd_canon _ _ _ _ _ Hf Hn). by apply (Hf _ Hn'). }
    rewrite !Hrd by (done || (rewrite Hi; set_solver)). by destruct (Cond.holds _ _ _ _). }
  set (args' := <[0%nat := l]> args1).
  assert (∃ rest, args' = l :: rest) as [rest Hrest].
  { unfold args'. pose proof (propagate_length info (input_slots (def (Op.opc o))) (Op.args o)) as Hpl.
    rewrite ok_length in Hpl. simpl. destruct (propagate _ _ _); [done|]. by eexists. }
  destruct (Cond.holds _ _ _ _) eqn:Hh; rewrite (op_mut_Some _ _ _ (propagated info o))
    by (apply list_lookup_insert_eq; by eapply lookup_lt_Some);
    cbn [mbind option_bind]; simpl ops; rewrite list_insert_insert_eq; apply Hgood; try done;
    apply (brcond_folded x l rest); auto.
Qed.
End brcond.

(** ** The whole loop body *)

Lemma unary_args : folds_unary (Op.opc o) = true → ∃ d a, Op.oargs o = [d] ∧ Op.iargs o = [a].
Proof.
  pose proof ok_length as Hlen. unfold Op.oargs, Op.iargs.
  destruct (Op.args o) as [|d [|a rest]]; try discriminate Hlen. intros Hu. exists d, a.
  destruct (Op.opc o); try discriminate Hu; done.
Qed.

Lemma binary_args : folds_binary (Op.opc o) = true →
  ∃ d a b, Op.oargs o = [d] ∧ Op.iargs o = [a; b].
Proof.
  pose proof ok_length as Hlen. unfold Op.oargs, Op.iargs.
  destruct (Op.args o) as [|d [|a [|b rest]]]; try discriminate Hlen. intros Hu. exists d, a, b.
  destruct (Op.opc o); try discriminate Hu; done.
Qed.

Lemma invalidate_op args :
  take (Z.to_nat (nb_oargs (def (Op.opc o)))) args = Op.oargs o →
  ∃ info', invalidate_outputs info (def (Op.opc o)) args c = Some info' ∧
    zlen info' = zlen info ∧ forgotten (temps c) (Op.oargs o) info info'.
Proof.
  intros Ha. unfold invalidate_outputs. rewrite Ha. apply invalidate_outputs_spec; [done|].
  eapply Forall_impl; [apply (ok_outs _ Hpre)|]. simpl. tauto.
Qed.

Lemma unfolded_when (b : Opcode.t → bool) :
  forallb (λ x, implb (b x) (negb (folds_unary x || folds_binary x))) Opcode.all = true →
  b (Op.opc o) = true → folds_unary (Op.opc o) || folds_binary (Op.opc o) = false.
Proof.
  intros H Hb. pose proof (forall_opcodes _ H (Op.opc o)) as Ho. simpl in Ho. rewrite Hb in Ho.
  simpl in Ho. by apply negb_true_iff in Ho.
Qed.

Lemma good_other :
  is_boundary (Op.opc o) = false → is_skipped (Op.opc o) = false →
  folds_unary (Op.opc o) || folds_binary (Op.opc o) = false → Op.opc o ≠ Opcode.BrCond →
  step_good (info' ← invalidate_outputs info (def (Op.opc o)) (Op.args (propagated info o))
               (set_ops c (<[i := propagated info o]> (ops c)));
             Some (set_ops c (<[i := propagated info o]> (ops c)), info')).
Proof.
  intros Hb Hsk Hno Hbr.
  assert (consults (Op.opc o) = true) as Hcon by (unfold consults; by rewrite Hb, Hsk).
  destruct (invalidate_op (Op.args (propagated info o))) as (info' & Hi & ? & ?).
  { apply (propagated_oargs info o ok_length). }
  unfold invalidate_outputs in *. simpl temps in *.
  assert (∀ inf outs, invalidate_outputs_loop inf outs
    (set_ops c (<[i := propagated info o]> (ops c))) = invalidate_outputs_loop inf outs c) as ->.
  { intros. by apply invalidate_outputs_temps. }
  rewrite Hi. cbn [mbind option_bind]. apply good_forget; try done.
  - by apply upd_set_ops.
  - intros l. rewrite !not_set_label; [done|..]; simpl; intros E; by rewrite E in Hb.
  - intros. by apply exec_propagated.
Qed.

Lemma good_optimize_op : step_good (optimize_op (c, info) (Z.of_nat i)).
Proof.
  unfold optimize_op, op. rewrite zlookup_of_nat, Hop. cbn [mbind option_bind]. cbv zeta.
  destruct (is_boundary (Op.opc o)) eqn:Hb; [|destruct (is_skipped (Op.opc o)) eqn:Hsk].
  - destruct (invalidate_op (Op.args o)) as (info' & Hi & Hlen & Hf); [done|]. rewrite Hi.
    cbn [mbind option_bind]. rewrite <- (set_ops_id c i o Hop) at 1. apply good_forget; try done.
    + by apply upd_set_ops.
    + by rewrite zlen_reset_copies.
    + by apply forgotten_reset.
    + by apply (unfolded_when is_boundary).
  - destruct (invalidate_op (Op.args o)) as (info' & Hi & Hlen & Hf); [done|]. rewrite Hi.
    cbn [mbind option_bind]. rewrite <- (set_ops_id c i o Hop) at 1. apply good_forget; try done.
    + by apply upd_set_ops.
    + by apply (unfolded_when is_skipped).
  - rewrite (op_mut_Some _ _ _ _ Hop). cbn [mbind option_bind].
    change (Op.set_args o (propagate info (input_slots (def (Op.opc o))) (Op.args o)))
      with (propagated info o).
    change (propagate info (input_slots (def (Op.opc o))) (Op.args o))
      with (Op.args (propagated info o)).
    destruct (folds_unary (Op.opc o)) eqn:Hu; [|destruct (folds_binary (Op.opc o)) eqn:Hbin].
    + destruct (unary_args Hu) as (d & a & Hd & Ha).
      assert (folds_unary (Op.opc o) || folds_binary (Op.opc o) = true) as Hf by (by rewrite Hu).
      pose proof (good_fold_mov d Hd Hf a Ha) as Hmov.
      pose proof (good_fold_unary d Hd Hf a Ha) as Hun.
      pose proof (good_fold_ext d Hd Hf a Ha) as Hext.
      destruct (fold_type Hf) as [_ Hfix].
      destruct (Op.opc o) eqn:Eo in |- *; rewrite Eo in Hu; try discriminate Hu;
        rewrite <- ?Eo; auto; apply Hext; by rewrite Eo in Hfix |- *; simpl in *; f_equal.
    + destruct (binary_args Hbin) as (d & a & b & Hd & Hab).
      assert (folds_unary (Op.opc o) || folds_binary (Op.opc o) = true) as Hf by (by rewrite Hu).
      pose proof (good_fold_binary d Hd Hf a b Hab Hbin) as Hg.
      destruct (Op.opc o) eqn:Eo in |- *; rewrite Eo in Hbin; try discriminate Hbin;
        rewrite <- ?Eo; exact Hg.
    + destruct (decide (Op.opc o = Opcode.BrCond)) as [Hbr|Hbr].
      * rewrite Hbr at 1. by apply good_fold_brcond.
      * pose proof (good_other Hb Hsk (orb_false_intro _ _ Hu Hbin) Hbr) as Hg.
        destruct (Op.opc o); try discriminate; try exact Hg. done.
Qed.
End steps.

(** ** Whole blocks *)

Section block.
Context {W : Type} (ext : Opcode.t → Type_.t → list Z → list Z → W → list Z * W * option Z).
Context (ctx : Context) (Ts : list (gset Z)).
Context (Hwf : wf_context ctx) (Hdis : disciplined ctx Ts = true).
#[local] Abbreviation T i := (default ∅ (Ts !! i)).
#[local] Abbreviation n := (length (ops ctx)).
#[local] Abbreviation loop k := (optimize_loop k (ctx, seed_info ctx)).

Lemma block_room : zlen (temps ctx) + Z.of_nat n < 2 ^ 32.
Proof. unfold disciplined in Hdis. by boolp. Qed.

Lemma block_pos i o : ops ctx !! i = Some o → pos_ok ctx (λ i, T i) i o = true.
Proof.
  intros Ho. unfold disciplined in Hdis. boolp.
  match goal with H : forallb _ _ = true |- _ => rewrite forallb_forall in H; specialize (H i) end.
  rewrite Ho in *. match goal with H : In _ _ → _ |- _ => apply H end.
  apply in_seq. apply lookup_lt_Some in Ho. lia.
Qed.

(** What holds before op [k]. *)
Record loop_inv (k : nat) (s : St) : Prop := {
  li_temps : temps ctx `prefix_of` temps s.1;
  li_len : zlen (temps s.1) ≤ zlen (temps ctx) + Z.of_nat k;
  li_cov : zlen (temps s.1) ≤ zlen s.2;
  li_tab : const_sound s.1;
  li_ops : length (ops s.1) = n;
  li_rest j : (k ≤ j)%nat → ops s.1 !! j = ops ctx !! j
}.

Lemma seed_inv : loop_inv 0 (ctx, seed_info ctx).
Proof.
  split; simpl; try done; [lia| |].
  - unfold seed_info, zlen, nb_temps. rewrite length_map, length_take.
    pose proof block_room. rewrite u32_small by (unfold zlen in *; lia). unfold zlen. lia.
  - intros d v k Hk. destruct (wf_const_sound _ Hwf _ _ _ Hk) as (t & Ht & Hc & _ & Hv).
    exists t. unfold Temp.is_const. by rewrite Hc.
Qed.

Lemma step_from_inv k s o :
  loop_inv k s → s.2 = info_at ctx k → ops ctx !! k = Some o →
  step_good ext (temps ctx) s.1 s.2 k o (T k) (T (k + 1)%nat) (optimize_op s (Z.of_nat k)).
Proof.
  intros [H1 H2 H3 H4 H5 H6] Hinfo Ho. pose proof (block_pos _ _ Ho) as Hpos.
  unfold pos_ok in Hpos. boolp. destruct s as [c info]. simpl in *. subst info.
  pose proof block_room. apply lookup_lt_Some in Ho as Hk.
  apply good_optimize_op; try done; [lia|]. by rewrite H6.
Qed.

Lemma loop_total k : (k ≤ n)%nat → ∃ s, loop k = Some s ∧ loop_inv k s.
Proof.
  induction k as [|k IH]; intros Hk; [eexists; split; [done|apply seed_inv]|].
  destruct IH as (s & Hs & Hinv); [lia|].
  destruct (lookup_lt_is_Some_2 (ops ctx) k) as [o Ho]; [lia|].
  assert (s.2 = info_at ctx k) as Hinfo by (unfold info_at; by rewrite Hs).
  destruct (step_from_inv k s o Hinv Hinfo Ho) as (c' & info' & o' & Hr & [U1 U2 U3 U4] & Hc & _).
  simpl. rewrite Hs. simpl. rewrite Hr. eexists. split; [done|].
  destruct Hinv as [H1 H2 H3 H4 H5 H6]. split; simpl; try done.
  - by etrans.
  - lia.
  - by rewrite U1, length_insert.
  - intros j Hj. rewrite U1, list_lookup_insert_ne by lia. apply H6. lia.
Qed.

(** Later iterations only append temps and leave the ops before them alone. *)
Lemma loop_later k m s s' :
  (k ≤ m ≤ n)%nat → loop k = Some s → loop m = Some s' →
  temps s.1 `prefix_of` temps s'.1 ∧ ∀ j, (j < k)%nat → ops s'.1 !! j = ops s.1 !! j.
Proof.
  intros [Hkm Hmn]. revert s'. induction Hkm as [|m Hkm IH]; intros s' Hs Hs'; [by simplify_eq|].
  destruct (loop_total m) as (s1 & Hs1 & Hinv); [lia|].
  destruct (IH ltac:(lia) s1 Hs Hs1) as [IH1 IH2].
  destruct (lookup_lt_is_Some_2 (ops ctx) m) as [o Ho]; [lia|].
  assert (s1.2 = info_at ctx m) as Hinfo by (unfold info_at; by rewrite Hs1).
  destruct (step_from_inv m s1 o Hinv Hinfo Ho) as (c' & info' & o' & Hr & [U1 U2 U3 U4] & _).
  simpl in Hs'. rewrite Hs1 in Hs'. simpl in Hs'. rewrite Hr in Hs'. simplify_eq. simpl.
  split; [by etrans|]. intros j Hj. rewrite U1, list_lookup_insert_ne by lia. auto.
Qed.

(** The result, and how each of its ops relates to the one it replaces. *)
Lemma optimize_total : ∃ s, loop n = Some s ∧ optimize ctx = Some s.1 ∧ loop_inv n s.
Proof.
  destruct (loop_total n) as (s & Hs & Hinv); [lia|]. exists s. split; [done|]. split; [|done].
  unfold optimize, num_ops, zlen. by rewrite Nat2Z.id, Hs.
Qed.

Context (ctx' : Context) (Hopt : optimize ctx = Some ctx').
#[local] Abbreviation TS := (temps ctx').

Lemma result_state : ∃ info', loop n = Some (ctx', info') ∧ loop_inv n (ctx', info').
Proof.
  destruct optimize_total as ([c info] & Hs & Ho & Hinv). rewrite Hopt in Ho.
  injection Ho as E. simpl in E. rewrite <- E in Hs, Hinv. eauto.
Qed.

Lemma result_pos i o : ops ctx !! i = Some o → ∃ o', ops ctx' !! i = Some o' ∧
  (∀ l, is_set_label l o' = is_set_label l o) ∧
  ∀ e w, env_ok (temps ctx) e → fact_ok TS e (T i) (info_at ctx i) →
    exec_op ext TS o' (e, w) = exec_op ext (temps ctx) o (e, w) ∧
    ∀ s', exec_op ext (temps ctx) o (e, w) = (s', Next) →
      fact_ok TS s'.1 (T (i + 1)%nat) (info_at ctx (i + 1)).
Proof.
  intros Ho. pose proof (lookup_lt_Some _ _ _ Ho) as Hi.
  destruct (loop_total i) as (s & Hs & Hinv); [lia|].
  destruct result_state as (infon & Hsn & Hinvn).
  assert (s.2 = info_at ctx i) as Hinfo by (unfold info_at; by rewrite Hs).
  destruct (step_from_inv i s o Hinv Hinfo Ho)
    as (c' & info' & o' & Hr & [U1 U2 U3 U4] & _ & Hlab & Hstep).
  assert (loop (i + 1) = Some (c', info')) as Hs1.
  { rewrite Nat.add_1_r. simpl. by rewrite Hs. }
  destruct (loop_later (i + 1) n _ _ ltac:(lia) Hs1 Hsn) as [Hpre Hkeep]. simpl in *.
  exists o'. split; [|split; [done|]].
  { rewrite Hkeep, U1 by lia. apply list_lookup_insert_eq. destruct Hinv. lia. }
  intros e w He Hf. pose proof (block_pos _ _ Ho) as Hpos. unfold pos_ok in Hpos. boolp.
  assert (info_at ctx (i + 1) = info') as Hi1 by (unfold info_at; by rewrite Hs1).
  rewrite Hi1 in *. assert (temps ctx `prefix_of` TS) as Hp by (by apply Hinvn).
  destruct (Hstep ltac:(done) TS e w Hpre) as [He1 He2].
  { split; [by etrans|]. rewrite Hinfo. done. }
  rewrite <- (exec_op_prefix ext (temps ctx) TS o (e, w) Hp) by
    (unfold op_ok in *; by boolp). done.
Qed.

Lemma result_labels l : label_pos (ops ctx') l = label_pos (ops ctx) l.
Proof.
  apply label_pos_ext, Forall2_same_length_lookup_2.
  - destruct result_state as (infon & _ & Hinv). symmetry. apply (li_ops _ _ Hinv).
  - intros i o o' Ho Ho'. destruct (result_pos i o Ho) as (o1 & Ho1 & Hl & _). by simplify_eq.
Qed.

(** Behind a label the table has no copies. *)
Lemma no_copies_at_label j o t :
  ops ctx !! j = Some o → Op.opc o = Opcode.SetLabel →
  copy_of (ti (info_at ctx (j + 1)) t) = None.
Proof.
  intros Ho Hl. pose proof (lookup_lt_Some _ _ _ Ho) as Hj.
  destruct (loop_total j) as ([c info] & Hs & Hinv); [lia|].
  destruct (loop_total (j + 1)) as (s1 & Hs1 & _); [lia|].
  unfold info_at. rewrite Hs1. rewrite Nat.add_1_r in Hs1. simpl in Hs1.
  rewrite Hs in Hs1. simpl in Hs1. unfold op in Hs1.
  rewrite zlookup_of_nat in Hs1. pose proof (li_rest _ _ Hinv j ltac:(lia)) as Hr. simpl in Hr.
  rewrite Hr, Ho in Hs1. simpl in Hs1. rewrite Hl in Hs1. simpl in Hs1. simplify_eq. simpl.
  by rewrite ti_reset_copies.
Qed.

Lemma fact_at_jump i o l j e :
  ops ctx !! i = Some o → branch_target o = Some l → label_pos (ops ctx) l = Some j →
  fact_ok TS e (T i) (info_at ctx i) → fact_ok TS e (T (j + 1)%nat) (info_at ctx (j + 1)).
Proof.
  intros Ho Hb Hl Hf t Ht. destruct (label_pos_Some _ _ _ Hl) as (oj & Hoj & Hopc).
  rewrite (no_copies_at_label j oj t Hoj Hopc). split; [|done]. intros Hc.
  pose proof (block_pos _ _ Ho) as Hpos. unfold pos_ok in Hpos. boolp.
  match goal with H : jump_ok _ _ _ _ = true |- _ => rename H into Hj end.
  unfold jump_ok in Hj. rewrite Hb in Hj. simpl in Hj. rewrite Hl in Hj.
  rewrite forallb_forall in Hj. specialize (Hj t).
  rewrite <- list_elem_of_In, elem_of_seqZ in Hj. rewrite Hc in Hj. simpl in Hj.
  rewrite bool_decide_eq_false_2 in Hj by done. simpl in Hj.
  destruct (decide (0 ≤ t < zlen (info_at ctx (j + 1)))) as [Hr|Hr].
  - specialize (Hj ltac:(lia)). boolp.
    match goal with H : val _ = val _ |- _ => rewrite <- H end. by apply (Hf t).
  - unfold ti in Hc. by rewrite (proj2 (zlookup_None _ t)) in Hc by lia.
Qed.

Lemma run_lockstep fuel pc e w :
  env_ok (temps ctx) e → fact_ok TS e (T pc) (info_at ctx pc) →
  run ext fuel ctx' pc (e, w) = run ext fuel ctx pc (e, w).
Proof.
  revert pc e w. induction fuel as [|fuel IH]; intros pc e w He Hf; [done|]. simpl.
  destruct (ops ctx !! pc) as [o|] eqn:Ho.
  - destruct (result_pos pc o Ho) as (o' & -> & _ & Hstep).
    destruct (Hstep e w He Hf) as [-> Hnext].
    destruct (exec_op ext (temps ctx) o (e, w)) as [[e1 w1] k] eqn:Hk.
    assert (env_ok (temps ctx) e1) as He1 by (by eapply (env_ok_exec ext) in Hk).
    destruct k as [|l|v]; [|rewrite result_labels|done].
    + apply IH; [done|]. by apply (Hnext (e1, w1)).
    + destruct (label_pos (ops ctx) l) as [j|] eqn:Hl; [|done].
      destruct (exec_jump _ _ _ _ _ _ Hk) as [[= -> ->] Hb].
      apply IH; [done|]. by eapply fact_at_jump.
  - assert (ops ctx' !! pc = None) as ->; [|done]. apply lookup_ge_None.
    destruct result_state as (infon & _ & Hinv). pose proof (li_ops _ _ Hinv) as Hlen.
    simpl in Hlen. rewrite Hlen. by apply lookup_ge_None.
Qed.
End block.

(** The seeded table holds in every state. *)
Lemma fact_seed ts ctx e T :
  wf_context ctx → temps ctx `prefix_of` ts → fact_ok ts e T (seed_info ctx).
Proof.
  intros Hwf Hp t _. unfold seed_info. set (f x := if Temp.is_const x then _ else _).
  unfold ti. change (map f ?l) with (f <$> l). rewrite zlookup_fmap.
  destruct ((take _ _).[t]) as [x|] eqn:Hx; [|done]. simpl. unfold f.
  destruct (Temp.is_const x) eqn:Hc; [|done]. simpl. split; [|done]. intros _.
  apply (rd_const ts e t x); [|done]. apply (prefix_zlookup _ _ _ _ Hp).
  apply zlookup_Some in Hx as [? Hx]. apply zlookup_Some. split; [done|].
  by apply lookup_take_Some in Hx as [? _].
Qed.

(** ** A disciplined block *)

(** Constants 6 = 5, copies, a forward branch over a redefinition that is not read
    behind the label, algebraic identities. *)
Definition disciplined_block : Context :=
  let c := (new_const six_temps Type_.I64 5).2 in
  let c := (new_label c).2 in
  let c := emit Opcode.Mov Type_.I64 [0; 6] c in
  let c := emit Opcode.Add Type_.I64 [1; 0; 6] c in
  let c := emit Opcode.Mov Type_.I64 [2; 3] c in
  let c := emit Opcode.BrCond Type_.I64 [2; 1; 8; 0] c in
  let c := emit Opcode.Mov Type_.I64 [0; 1] c in
  let c := emit Opcode.ExitTb Type_.I64 [1] c in
  let c := emit Opcode.SetLabel Type_.I64 [0] c in
  let c := emit Opcode.Sub Type_.I64 [0; 1; 2] c in
  let c := emit Opcode.And Type_.I64 [3; 0; 0] c in
  emit Opcode.ExitTb Type_.I64 [0] c.

Definition disciplined_cert : list (gset Z) := [∅; ∅; ∅; ∅; ∅; ∅; ∅; {[0]}; ∅; ∅; ∅].

Lemma disciplined_block_wf : wf_context disciplined_block.
Proof. unfold disciplined_block, six_temps. cbv zeta. solve_block_wf. Qed.

Example disciplined_block_ok : disciplined disciplined_block disciplined_cert = true.
Proof. vm_compute. reflexivity. Qed.

(** The pass on a disciplined block: shared with the theorems about the frontend. *)
Lemma optimize_lockstep ctx Ts :
  wf_context ctx → disciplined ctx Ts = true →
  ∃ ctx', optimize ctx = Some ctx' ∧
    ∀ (W : Type) (ext : Opcode.t → Type_.t → list Z → list Z → W → list Z * W * option Z)
      (e : env) (w : W) fuel, env_ok (temps ctx) e →
      run ext fuel ctx' 0 (e, w) = run ext fuel ctx 0 (e, w).
Proof.
  intros Hwf Hdis. destruct (optimize_total no_ext ctx Ts Hwf Hdis) as (s & _ & Hopt & Hinv).
  exists s.1. split; [done|]. intros W ext e w fuel He.
  apply (run_lockstep ext ctx Ts Hwf Hdis s.1 Hopt); [done|].
  unfold info_at. simpl. apply fact_seed; [done|apply Hinv].
Qed.

(** C1. The optimizer never panics on a disciplined block, and its result runs in
    lockstep with the input: from every environment that respects the temps'
    types, for every meaning of the uninterpreted ops, every world and every
    number of steps, both runs are in the same place with the same temps and the
    same world. *)
Theorem optimize_preserves_runs ctx Ts :
  wf_context ctx → disciplined ctx Ts = true →
  ∃ ctx', optimize ctx = Some ctx' ∧
    ∀ (W : Type) (ext : Opcode.t → Type_.t → list Z → list Z → W → list Z * W * option Z)
      (e : env) (w : W) fuel, env_ok (temps ctx) e →
      run ext fuel ctx' 0 (e, w) = run ext fuel ctx 0 (e, w).
Proof. apply optimize_lockstep. Qed.

Lemma optimize_preserves_runs_witness :
  ∃ ctx', optimize disciplined_block = Some ctx' ∧
    exit_value 0 (run no_ext 20 ctx' 0 (λ _, 7, ())) = Some 10.
Proof.
  destruct (optimize_preserves_runs disciplined_block disciplined_cert) as (ctx' & Ho & Hrun).
  - apply disciplined_block_wf.
  - vm_compute. reflexivity.
  - exists ctx'. split; [exact Ho|].
    transitivity (exit_value 0 (run no_ext 20 disciplined_block 0 ((λ _, 7) : env, ())));
      [apply (f_equal (exit_value 0)), Hrun|vm_compute; reflexivity].
    intros t Ht. assert (t ∈ seqZ 0 7) as Hin by (apply elem_of_seqZ; exact Ht).
    clear Ht. revert t Hin. apply Forall_forall. apply (bool_decide_unpack _). by vm_compute.
Defined.

(** C36. Constant evaluation agrees with the reference semantics at both integer
    widths: [eval_binary] on masked operands is the op's meaning (and [None]
    exactly for ops it does not fold), conversions fold to their meaning, and
    [eval_cond] decides the condition except for signed comparisons at 32
    bits. *)
Theorem constant_evaluation_agrees ty opc a b cnd :
  int_type ty = true →
  eval_binary opc (a mod 2 ^ bits ty) (b mod 2 ^ bits ty) ty = spec_binary opc (bits ty) a b ∧
  (Cond.is_signed cnd && bool_decide (ty = Type_.I32) = false →
   eval_cond a b cnd ty = Cond.holds cnd (bits ty) a b) ∧
  cond_from_carg (Cond.discr cnd) = cnd.
Proof.
  intros Hty. split_and!; [by apply eval_binary_spec|by apply eval_cond_spec|by destruct cnd].
Qed.

Lemma constant_evaluation_agrees_witness :
  eval_binary Opcode.Sar ((2 ^ 32 - 8) mod 2 ^ 32) (33 mod 2 ^ 32) Type_.I32 = Some (2 ^ 32 - 4).
Proof.
  etransitivity;
    [exact (proj1 (constant_evaluation_agrees Type_.I32 Opcode.Sar (2 ^ 32 - 8) 33 Cond.Eq eq_refl))
    |vm_compute; reflexivity].
Defined.

(** ** Blocks the pass miscompiles *)

(** The value a block leaves in temp [t] from the all-zero environment, before and
    after the pass. *)
Definition before (c : Context) (t : Z) : option Z :=
  exit_value t (run no_ext 30 c 0 (zero_env, ())).

Definition after (c : Context) (t : Z) : option Z :=
  c' ← optimize c; exit_value t (run no_ext 30 c' 0 (zero_env, ())).

(** [mov t1, t0; mov t0, t2; mov t3, t1] where [t2 = t2 + 1] first, so the last
    read of [t1] must see the old [t0]. *)
Definition stale_copy_block : Context :=
  let c := (new_const six_temps Type_.I64 1).2 in
  let c := emit Opcode.Add Type_.I64 [2; 2; 6] c in
  let c := emit Opcode.Mov Type_.I64 [1; 0] c in
  let c := emit Opcode.Mov Type_.I64 [0; 2] c in
  let c := emit Opcode.Mov Type_.I64 [3; 1] c in
  emit Opcode.ExitTb Type_.I64 [0] c.

(** A branch skips [mov t0, 1]; behind the label the pass still believes [t0 = 1]. *)
Definition stale_const_block : Context :=
  let c := (new_const six_temps Type_.I64 1).2 in
  let c := (new_label c).2 in
  let c := emit Opcode.BrCond Type_.I64 [1; 2; 8; 0] c in
  let c := emit Opcode.Mov Type_.I64 [0; 6] c in
  let c := emit Opcode.SetLabel Type_.I64 [0] c in
  let c := emit Opcode.Add Type_.I64 [3; 0; 6] c in
  emit Opcode.ExitTb Type_.I64 [0] c.

(** [if -1 < 0 (signed, 32 bits) goto L; t0 = 1; L:] on two constants. *)
Definition signed_branch_block : Context :=
  let c := (new_const six_temps Type_.I32 (2 ^ 32 - 1)).2 in
  let c := (new_const c Type_.I32 0).2 in
  let c := (new_const c Type_.I64 1).2 in
  let c := (new_label c).2 in
  let c := emit Opcode.BrCond Type_.I32 [6; 7; 10; 0] c in
  let c := emit Opcode.Mov Type_.I64 [0; 8] c in
  let c := emit Opcode.SetLabel Type_.I64 [0] c in
  emit Opcode.ExitTb Type_.I64 [0] c.

(** Each side condition of [optimize_preserves_runs] is needed: on a well-typed
    block where a [mov] overwrites the source of an earlier copy, on one where a
    constant reaches a label along one path only, and on a signed 32-bit branch
    on constants, the optimized block computes a different value. *)
Theorem optimize_miscompiles :
  (before stale_copy_block 3 = Some 0 ∧ after stale_copy_block 3 = Some 1) ∧
  (before stale_const_block 3 = Some 1 ∧ after stale_const_block 3 = Some 2) ∧
  (before signed_branch_block 0 = Some 0 ∧ after signed_branch_block 0 = Some 1) ∧
  Forall (λ c, Forall (λ o, op_ok (temps c) o = true) (ops c))
    [stale_copy_block; stale_const_block; signed_branch_block].
Proof.
  split_and!; [vm_compute; reflexivity..|].
  apply (bool_decide_unpack _). vm_compute. exact I.
Qed.
