(* ===== verification/Liveness.v ===== *)
(** * Liveness analysis (backend/src/liveness.rs)

    The backward pass that computes the dead and sync bits of every argument.
    [temp_state] is a list of booleans, one per temp; an index panic is [None].

    Two specifications.  [needed] says syntactically which temps a suffix of the
    block still reads: [liveness_exact] shows that a dead bit is set exactly when
    the temp is not needed.  [liveness_dead_unobservable] is the semantic side:
    overwriting a temp after the op that marks it dead changes neither the exit,
    nor the world, nor any global at the end of the block - for blocks in which no
    local temp is live at a label, since the pass does not follow branches. *)

From S2P Require Import Prelude Types Opcodes Ir IrSem.

Abbreviation TempState := (list bool).

Definition is_live (st : TempState) (t : Z) : bool := default false (st.[t]).

(** [for s in temp_state.iter_mut().take(n) { *s = true; }] *)
Definition mark_globals (n : Z) (st : TempState) : TempState :=
  replicate (Nat.min (Z.to_nat n) (length st)) true ++ drop (Z.to_nat n) st.

(** [temp_state[i] = b], out of range being excluded by the callers' tests. *)
Definition set_state (st : TempState) (t : Z) (b : bool) : TempState := <[Z.to_nat t := b]> st.

(** The loop over the output arguments, from argument position [i]. *)
Fixpoint output_args (nb_temps : Z) (i : Z) (outs : list Z) (life : Z) (st : TempState)
    : Z * TempState :=
  match outs with
  | [] => (life, st)
  | tidx :: outs =>
      let life :=
        if (tidx <? nb_temps) && negb (is_live st tidx) then LifeData.set_dead life i
        else life in
      let st := if tidx <? nb_temps then set_state st tidx false else st in
      output_args nb_temps (i + 1) outs life st
  end.

(** The loop over the input arguments, from argument position [arg_pos]. *)
Fixpoint input_args (ctx : Context) (nb_temps : Z) (arg_pos : Z) (ins : list Z) (life : Z)
    (st : TempState) : option (Z * TempState) :=
  match ins with
  | [] => Some (life, st)
  | tidx :: ins =>
      if nb_temps <=? tidx then input_args ctx nb_temps (arg_pos + 1) ins life st
      else
        life ← (if negb (is_live st tidx) then
                  let life := LifeData.set_dead life arg_pos in
                  t ← temp ctx tidx;
                  Some (if decide (Temp.kind t = TempKind.Global)
                        then LifeData.set_sync life arg_pos else life)
                else Some life);
        input_args ctx nb_temps (arg_pos + 1) ins life (set_state st tidx true)
  end.

(** The body of the loop for op [oi]. *)
Definition liveness_op (s : Context * TempState) (oi : Z) : option (Context * TempState) :=
  let '(ctx, st) := s in
  o ← op ctx oi;
  let d := def (Op.opc o) in
  let st := if OpFlags.contains (def_flags d) OpFlags.BB_END
            then mark_globals (nb_globals ctx) st else st in
  if bool_decide (Op.opc o = Opcode.Nop) || bool_decide (Op.opc o = Opcode.InsnStart)
  then Some (ctx, st)
  else
    let '(life, st) := output_args (nb_temps ctx) 0 (Op.oargs o) 0 st in
    '(life, st) ← input_args ctx (nb_temps ctx) (nb_oargs d) (Op.iargs o) life st;
    ctx ← op_mut ctx (Op.idx o) (λ o, Op.set_life o life);
    Some (ctx, st).

(** [for oi in (0..k).rev()] *)
Fixpoint liveness_loop (k : nat) (s : Context * TempState) : option (Context * TempState) :=
  match k with
  | O => Some s
  | S k => s ← liveness_op s (Z.of_nat k); liveness_loop k s
  end.

(** At the end of the block all globals are live. *)
Definition initial_state (ctx : Context) : TempState :=
  mark_globals (nb_globals ctx) (replicate (Z.to_nat (nb_temps ctx)) false).

Definition liveness_analysis (ctx : Context) : option Context :=
  s ← liveness_loop (Z.to_nat (num_ops ctx)) (ctx, initial_state ctx); Some s.1.

(** ** The syntactic specification *)

(** [t] is read (or, if global, must be in place) before it is written again. *)
Inductive needed (ng : Z) : list Op.t → Z → Prop :=
| needed_end t : 0 ≤ t < ng → needed ng [] t
| needed_read o os t : t ∈ Op.iargs o → needed ng (o :: os) t
| needed_bb_end o os t :
    OpFlags.contains (def_flags (def (Op.opc o))) OpFlags.BB_END = true → 0 ≤ t < ng →
    needed ng (o :: os) t
| needed_later o os t : t ∉ Op.oargs o → needed ng os t → needed ng (o :: os) t.

(** ** The state as a set *)

Lemma is_live_set st t b u :
  0 ≤ t < zlen st → is_live (set_state st t b) u = if decide (u = t) then b else is_live st u.
Proof.
  intros Ht. unfold is_live, set_state. case_decide as Hu; subst.
  - by rewrite zlookup_insert_eq.
  - rewrite zlookup_insert_ne by lia. done.
Qed.

Lemma zlen_set_state st t b : zlen (set_state st t b) = zlen st.
Proof. apply zlen_insert. Qed.

Lemma zlen_mark_globals n st : zlen (mark_globals n st) = zlen st.
Proof.
  unfold mark_globals, zlen. rewrite length_app, length_replicate, length_drop. lia.
Qed.

Lemma is_live_mark_globals n st t :
  0 ≤ n ≤ zlen st → is_live (mark_globals n st) t = bool_decide (0 ≤ t < n) || is_live st t.
Proof.
  intros Hn. unfold is_live, mark_globals, zlen in *.
  destruct (decide (0 ≤ t)) as [Ht|Ht].
  2:{ rewrite !(proj2 (zlookup_None _ t)) by lia. by rewrite bool_decide_eq_false_2 by lia. }
  rewrite !zlookup_nat by lia. destruct (decide (t < n)).
  - rewrite bool_decide_eq_true_2, lookup_app_l by (rewrite ?length_replicate; lia).
    rewrite lookup_replicate_2 by lia. done.
  - rewrite bool_decide_eq_false_2, lookup_app_r by (rewrite ?length_replicate; lia).
    rewrite length_replicate, lookup_drop. simpl. do 2 f_equal. lia.
Qed.

Lemma output_args_state nt i outs life st :
  zlen st = nt → Forall (λ t, 0 ≤ t < nt) outs →
  let st' := (output_args nt i outs life st).2 in
  zlen st' = nt ∧ ∀ u, is_live st' u = negb (bool_decide (u ∈ outs)) && is_live st u.
Proof.
  intros Hl Ho. revert i life st Hl. induction Ho as [|t outs Ht _ IH]; intros i life st Hl; simpl.
  { done. }
  rewrite (proj2 (Z.ltb_lt t nt)) by lia.
  destruct (IH (i + 1) (if true && negb (is_live st t) then LifeData.set_dead life i else life)
    (set_state st t false)) as [H1 H2]; [by rewrite zlen_set_state|].
  split; [done|]. intros u. rewrite H2, is_live_set by lia.
  rewrite (bool_decide_ext (u ∈ t :: outs) (u = t ∨ u ∈ outs)) by apply elem_of_cons.
  destruct (decide (u = t)) as [->|Hne].
  - rewrite (bool_decide_eq_true_2 (t = t ∨ t ∈ outs)) by auto. by rewrite andb_false_r.
  - rewrite (bool_decide_ext (u = t ∨ u ∈ outs) (u ∈ outs)) by naive_solver. done.
Qed.

Lemma input_args_state ctx nt pos ins life st :
  zlen st = nt → nt = zlen (temps ctx) → Forall (λ t, 0 ≤ t < nt) ins →
  ∃ life' st', input_args ctx nt pos ins life st = Some (life', st') ∧ zlen st' = nt ∧
    ∀ u, is_live st' u = bool_decide (u ∈ ins) || is_live st u.
Proof.
  intros Hl Hnt Hi. revert pos life st Hl. induction Hi as [|t ins Ht _ IH]; intros pos life st Hl;
    simpl; [eauto 10|].
  rewrite (proj2 (Z.leb_gt nt t)) by lia.
  assert (∃ x, (temps ctx).[t] = Some x) as [x Hx] by (apply zlookup_lt_is_Some; lia).
  set (m := if negb (is_live st t) then _ else _).
  assert (∃ life1, m = Some life1) as [life1 ->].
  { unfold m, temp. rewrite Hx. case_match; eauto. }
  simpl. destruct (IH (pos + 1) life1 (set_state st t true)) as (life' & st' & H1 & H2 & H3);
    [by rewrite zlen_set_state|].
  exists life', st'. split_and!; [done..|]. intros u. rewrite H3, is_live_set by lia.
  rewrite (bool_decide_ext (u ∈ t :: ins) (u = t ∨ u ∈ ins)) by apply elem_of_cons.
  destruct (decide (u = t)) as [->|Hne].
  - rewrite (bool_decide_eq_true_2 (t = t ∨ t ∈ ins)) by auto. by rewrite orb_true_r.
  - rewrite (bool_decide_ext (u = t ∨ u ∈ ins) (u ∈ ins)) by naive_solver. done.
Qed.

(** ** The bits of [LifeData] *)

Lemma is_dead_testbit l p : 0 ≤ p → LifeData.is_dead l p = Z.testbit l (p * 2).
Proof.
  intros. unfold LifeData.is_dead, LifeData.dead_arg. rewrite land_shiftl1_zero by lia.
  by rewrite negb_involutive.
Qed.

Lemma is_sync_testbit l p : 0 ≤ p → LifeData.is_sync l p = Z.testbit l (p * 2 + 1).
Proof.
  intros. unfold LifeData.is_sync, LifeData.sync_arg. rewrite land_shiftl1_zero by lia.
  by rewrite negb_involutive.
Qed.

Lemma lor_bit_testbit l i n : 0 ≤ i → 
  Z.testbit (Z.lor l (Z.shiftl 1 i)) n = bool_decide (n = i) || Z.testbit l n.
Proof. intros. by rewrite Z.lor_spec, shiftl1_testbit, orb_comm. Qed.

Lemma set_dead_bits l i p : 0 ≤ i → 0 ≤ p →
  LifeData.is_dead (LifeData.set_dead l i) p = bool_decide (p = i) || LifeData.is_dead l p ∧
  LifeData.is_sync (LifeData.set_dead l i) p = LifeData.is_sync l p.
Proof.
  intros. rewrite !is_dead_testbit, !is_sync_testbit by lia.
  unfold LifeData.set_dead, LifeData.dead_arg. rewrite !lor_bit_testbit by lia. split.
  - f_equal. apply bool_decide_ext. lia.
  - by rewrite bool_decide_eq_false_2 by lia.
Qed.

Lemma set_sync_bits l i p : 0 ≤ i → 0 ≤ p →
  LifeData.is_sync (LifeData.set_sync l i) p = bool_decide (p = i) || LifeData.is_sync l p ∧
  LifeData.is_dead (LifeData.set_sync l i) p = LifeData.is_dead l p.
Proof.
  intros. rewrite !is_dead_testbit, !is_sync_testbit by lia.
  unfold LifeData.set_sync, LifeData.sync_arg. rewrite !lor_bit_testbit by lia. split.
  - f_equal. apply bool_decide_ext. lia.
  - by rewrite bool_decide_eq_false_2 by lia.
Qed.

Lemma output_args_bits nt i outs life st p :
  zlen st = nt → Forall (λ t, 0 ≤ t < nt) outs → NoDup outs → 0 ≤ i → 0 ≤ p →
  let life' := (output_args nt i outs life st).1 in
  LifeData.is_sync life' p = LifeData.is_sync life p ∧
  LifeData.is_dead life' p =
    LifeData.is_dead life p ||
    match outs.[p - i] with Some t => negb (is_live st t) | None => false end.
Proof.
  intros Hl Ho Hnd Hi Hp. revert i life st Hl Hi.
  induction Ho as [|t outs Ht _ IH]; intros i life st Hl Hi; simpl.
  { rewrite zlookup_nil, orb_false_r. done. }
  apply NoDup_cons in Hnd as [Hn Hnd]. specialize (IH Hnd).
  rewrite (proj2 (Z.ltb_lt t nt)) by lia. simpl andb.
  set (life1 := if negb (is_live st t) then _ else _).
  destruct (IH (i + 1) life1 (set_state st t false)) as [-> ->]; [by rewrite zlen_set_state|lia|].
  assert (LifeData.is_sync life1 p = LifeData.is_sync life p ∧ LifeData.is_dead life1 p =
    bool_decide (p = i) && negb (is_live st t) || LifeData.is_dead life p) as [-> ->].
  { unfold life1. destruct (is_live st t); simpl; rewrite ?andb_false_r, ?andb_true_r; [done|].
    destruct (set_dead_bits life i p Hi Hp) as [-> ->]. done. }
  split; [done|]. destruct (decide (p = i)) as [->|Hne].
  - rewrite bool_decide_eq_true_2, Z.sub_diag by done. rewrite (zlookup_nat (t :: outs) 0) by lia. simpl.
    rewrite (proj2 (zlookup_None outs (i - (i + 1)))) by lia. by rewrite orb_false_r, orb_comm.
  - rewrite bool_decide_eq_false_2 by done. simpl. f_equal.
    destruct (decide (p < i)).
    { rewrite (proj2 (zlookup_None (t :: outs) (p - i))) by lia.
      by rewrite (proj2 (zlookup_None outs (p - (i + 1)))) by lia. }
    rewrite !zlookup_nat by lia. replace (Z.to_nat (p - i)) with (S (Z.to_nat (p - (i + 1)))) by lia.
    simpl. destruct (outs !! Z.to_nat (p - (i + 1))) as [u|] eqn:E; [|done].
    rewrite is_live_set, decide_False; [done| |lia].
    intros ->. apply Hn. by eapply list_elem_of_lookup_2.
Qed.

(** The input at position [j] is the first occurrence of its temp. *)
Definition first_at (l : list Z) (j : Z) : option Z :=
  match l.[j] with
  | Some t => if bool_decide (t ∈ take (Z.to_nat j) l) then None else Some t
  | None => None
  end.

Lemma first_at_cons_0 t l : first_at (t :: l) 0 = Some t.
Proof. done. Qed.

Lemma first_at_cons t l j : 0 < j →
  first_at (t :: l) j =
  match first_at l (j - 1) with Some u => if decide (u = t) then None else Some u | None => None end.
Proof.
  intros Hj. unfold first_at. rewrite !zlookup_nat by lia.
  replace (Z.to_nat j) with (S (Z.to_nat (j - 1))) by lia. simpl.
  destruct (l !! _) as [u|]; [|done].
  rewrite (bool_decide_ext (u ∈ t :: _) (u = t ∨ u ∈ take (Z.to_nat (j - 1)) l))
    by apply elem_of_cons.
  repeat (case_bool_decide || case_decide); naive_solver.
Qed.

Lemma first_at_neg l j : j < 0 → first_at l j = None.
Proof. intros. unfold first_at. by rewrite (proj2 (zlookup_None l j)) by lia. Qed.

Definition is_global_temp (ctx : Context) (t : Z) : bool :=
  match temp ctx t with Some x => bool_decide (Temp.kind x = TempKind.Global) | None => false end.

Lemma input_args_bits ctx nt pos ins life st life' st' p :
  zlen st = nt → nt = zlen (temps ctx) → Forall (λ t, 0 ≤ t < nt) ins → 0 ≤ pos → 0 ≤ p →
  input_args ctx nt pos ins life st = Some (life', st') →
  let dead := match first_at ins (p - pos) with
              | Some t => negb (is_live st t) | None => false end in
  let glob := match first_at ins (p - pos) with
              | Some t => is_global_temp ctx t | None => false end in
  LifeData.is_dead life' p = LifeData.is_dead life p || dead ∧
  LifeData.is_sync life' p = LifeData.is_sync life p || (dead && glob).
Proof.
  intros Hl Hnt Hi Hpos Hp. revert pos life st Hl Hpos.
  induction Hi as [|t ins Ht _ IH]; intros pos life st Hl Hpos; simpl.
  { intros [= <- <-]. unfold first_at. rewrite zlookup_nil. by rewrite !orb_false_r. }
  rewrite (proj2 (Z.leb_gt nt t)) by lia.
  assert (∃ x, (temps ctx).[t] = Some x) as [x Hx] by (apply zlookup_lt_is_Some; lia).
  assert (is_global_temp ctx t = bool_decide (Temp.kind x = TempKind.Global)) as Hg.
  { unfold is_global_temp, temp. by rewrite Hx. }
  set (m := if negb (is_live st t) then _ else _).
  assert (∃ life1, m = Some life1 ∧
    LifeData.is_dead life1 p = LifeData.is_dead life p || (bool_decide (p = pos) && negb (is_live st t)) ∧
    LifeData.is_sync life1 p = LifeData.is_sync life p ||
      (bool_decide (p = pos) && negb (is_live st t) && is_global_temp ctx t))
    as (life1 & -> & Hd1 & Hs1).
  { unfold m, temp. rewrite Hx, Hg. destruct (is_live st t); simpl.
    { exists life. by rewrite !andb_false_r, !orb_false_r. }
    destruct (set_dead_bits life pos p) as [E1 E2]; [done..|].
    destruct (set_sync_bits (LifeData.set_dead life pos) pos p) as [E3 E4]; [done..|].
    rewrite andb_true_r. destruct (decide (Temp.kind x = TempKind.Global)).
    - eexists. split; [done|]. rewrite E4, E1, E3, E2, (bool_decide_eq_true_2 (_ = TempKind.Global)),
        andb_true_r by done.
      by rewrite (orb_comm (LifeData.is_dead _ _)), (orb_comm (LifeData.is_sync _ _)).
    - eexists. split; [done|]. rewrite E1, E2, (bool_decide_eq_false_2 (_ = TempKind.Global)) by done.
      by rewrite andb_false_r, orb_false_r, orb_comm. }
  simpl. intros Hrun. apply IH in Hrun as [-> ->]; [|by rewrite zlen_set_state|lia].
  rewrite Hd1, Hs1. destruct (Z.lt_trichotomy p pos) as [Hlt|[->|Hgt]].
  - rewrite bool_decide_eq_false_2, !first_at_neg by lia. by rewrite !orb_false_r.
  - rewrite bool_decide_eq_true_2, Z.sub_diag, first_at_cons_0, first_at_neg by (done || lia).
    by rewrite !orb_false_r.
  - rewrite bool_decide_eq_false_2, first_at_cons by lia. simpl. rewrite !orb_false_r.
    replace (p - pos - 1) with (p - (pos + 1)) by lia.
    destruct (first_at ins _) as [u|]; [|done]. destruct (decide (u = t)) as [->|Hu].
    + by rewrite is_live_set, decide_True by (done || lia).
    + by rewrite is_live_set, decide_False by (done || lia).
Qed.

(** ** One op *)

Definition ends_block (o : Op.t) : bool :=
  OpFlags.contains (def_flags (def (Op.opc o))) OpFlags.BB_END.

Lemma ends_block_no_outputs o : ends_block o = true → Op.oargs o = [].
Proof.
  intros H. assert (implb (ends_block o) (nb_oargs (def (Op.opc o)) =? 0) = true) as Hf.
  { unfold ends_block. pose proof (forall_opcodes flags_ok eq_refl (Op.opc o)) as Hok.
    unfold flags_ok in Hok. by boolp. }
  rewrite H in Hf. simpl in Hf. apply Z.eqb_eq in Hf. unfold Op.oargs. by rewrite Hf.
Qed.

Definition no_code (o : Op.t) : bool :=
  bool_decide (Op.opc o = Opcode.Nop) || bool_decide (Op.opc o = Opcode.InsnStart).

Lemma no_code_no_args o : no_code o = true → Op.oargs o = [] ∧ Op.iargs o = [] ∧ ends_block o = false.
Proof.
  unfold no_code, Op.oargs, Op.iargs, ends_block. intros [H|H]%orb_prop; boolp; by rewrite H.
Qed.

(** [t] is needed after op [o], given what the rest of the block needs. *)
Definition needed_after (ng : Z) (o : Op.t) (os : list Op.t) (t : Z) : Prop :=
  (ends_block o = true ∧ 0 ≤ t < ng) ∨ needed ng os t.

Lemma needed_cons ng o os t :
  needed ng (o :: os) t ↔
  t ∈ Op.iargs o ∨ ((t ∉ Op.oargs o) ∧ needed_after ng o os t).
Proof.
  unfold needed_after. split.
  - inversion 1; subst; [auto|..].
    + right. split; [|auto]. rewrite ends_block_no_outputs by done. apply not_elem_of_nil.
    + auto.
  - intros [?|[? [[? ?]|?]]]; [by apply needed_read|by apply needed_bb_end|by apply needed_later].
Qed.

(** What the dead and sync bits of [o] mean: first the outputs, then the first
    occurrences among the inputs. *)
Record life_exact (ctx : Context) (o : Op.t) (os : list Op.t) (life : Z) : Prop := {
  le_output p t :
    NoDup (Op.oargs o) → (Op.oargs o).[p] = Some t →
    (LifeData.is_dead life p = true ↔ ¬ needed_after (nb_globals ctx) o os t) ∧
    LifeData.is_sync life p = false;
  le_input p t :
    NoDup (Op.oargs o) → first_at (Op.iargs o) p = Some t →
    let q := nb_oargs (def (Op.opc o)) + p in
    (LifeData.is_dead life q = true ↔ t ∈ Op.oargs o ∨ ¬ needed_after (nb_globals ctx) o os t) ∧
    (LifeData.is_sync life q = true ↔
     LifeData.is_dead life q = true ∧ is_global_temp ctx t = true)
}.

Lemma life_exact_set_ops ctx os' o os life :
  life_exact (set_ops ctx os') o os life → life_exact ctx o os life.
Proof. intros [H1 H2]. split; [exact H1|exact H2]. Qed.

Lemma first_at_Some l p t : first_at l p = Some t → l.[p] = Some t.
Proof. unfold first_at. repeat case_match; congruence. Qed.

Lemma oargs_length o : length (Op.args o) = 10%nat → zlen (Op.oargs o) = nb_oargs (def (Op.opc o)).
Proof.
  intros Hl. pose proof (nb_counts (Op.opc o)). unfold nb_args in *.
  unfold Op.oargs, Op.slice, zlen. rewrite length_take, length_drop. lia.
Qed.

Definition live_is (st : TempState) (P : Z → Prop) : Prop := ∀ u, is_live st u = true ↔ P u.

Lemma life_bits ctx o os st life1 st1 life st' :
  let nt := zlen (temps ctx) in
  let ng := nb_globals ctx in
  length (Op.args o) = 10%nat → op_in_range nt o → zlen st = nt → 0 ≤ ng ≤ nt →
  live_is st (needed_after ng o os) →
  output_args nt 0 (Op.oargs o) 0 st = (life1, st1) →
  input_args ctx nt (nb_oargs (def (Op.opc o))) (Op.iargs o) life1 st1 = Some (life, st') →
  life_exact ctx o os life.
Proof.
  intros nt ng Hlen [Ho Hi]%Forall_app Hst Hng Hlive Hout Hin.
  pose proof (nb_counts (Op.opc o)) as (Hn & _). pose proof (oargs_length o Hlen) as Hol.
  destruct (output_args_state nt 0 (Op.oargs o) 0 st Hst Ho) as [Hst1 Hlive1].
  rewrite Hout in Hst1, Hlive1. simpl in Hst1, Hlive1.
  assert (∀ p, 0 ≤ p → LifeData.is_dead 0 p = false ∧ LifeData.is_sync 0 p = false) as H0.
  { intros p ?. by rewrite is_dead_testbit, is_sync_testbit, !Z.testbit_0_l by lia. }
  split.
  - intros p t Hnd Hp. pose proof (zlookup_lt_Some _ _ _ Hp) as Hpr. rewrite Hol in Hpr.
    destruct (output_args_bits nt 0 (Op.oargs o) 0 st p Hst Ho Hnd) as [Hs Hd]; [lia..|].
    rewrite Hout in Hs, Hd. cbn [fst] in Hs, Hd. rewrite Z.sub_0_r, Hp in Hd.
    destruct (input_args_bits ctx nt _ _ _ _ _ _ p Hst1 eq_refl Hi Hn ltac:(lia) Hin) as [-> ->].
    rewrite first_at_neg by lia. rewrite Hs, Hd. destruct (H0 p ltac:(lia)) as [-> ->].
    rewrite !orb_false_r. simpl. split; [|done]. rewrite negb_true_iff, <- not_true_iff_false.
    by rewrite (Hlive t).
  - intros p t Hnd Hp q. pose proof (first_at_Some _ _ _ Hp) as Hpt.
    pose proof (zlookup_lt_Some _ _ _ Hpt) as Hpr.
    destruct (output_args_bits nt 0 (Op.oargs o) 0 st q Hst Ho Hnd) as [Hs Hd]; [lia..|].
    rewrite Hout in Hs, Hd. cbn [fst] in Hs, Hd.
    rewrite Z.sub_0_r, (proj2 (zlookup_None (Op.oargs o) q)) in Hd by lia.
    destruct (input_args_bits ctx nt _ _ _ _ _ _ q Hst1 eq_refl Hi Hn ltac:(lia) Hin) as [-> ->].
    replace (q - nb_oargs (def (Op.opc o))) with p by lia. rewrite Hp, Hs, Hd.
    destruct (H0 q ltac:(lia)) as [-> ->]. simpl. rewrite Hlive1. split; [|by rewrite andb_true_iff].
    rewrite negb_true_iff, andb_false_iff, negb_false_iff, bool_decide_eq_true.
    rewrite <- (not_true_iff_false (is_live st t)). by rewrite (Hlive t).
Qed.

Lemma set_life_id o : Op.set_life o (Op.life o) = o.
Proof. by destruct o. Qed.

Lemma live_is_after ctx o os st :
  zlen st = zlen (temps ctx) → 0 ≤ nb_globals ctx ≤ zlen (temps ctx) →
  live_is st (needed (nb_globals ctx) os) →
  let st1 := if ends_block o then mark_globals (nb_globals ctx) st else st in
  zlen st1 = zlen (temps ctx) ∧ live_is st1 (needed_after (nb_globals ctx) o os).
Proof.
  intros Hst Hng Hl. unfold needed_after. destruct (ends_block o).
  - split; [by rewrite zlen_mark_globals|]. intros u.
    rewrite is_live_mark_globals by lia. rewrite orb_true_iff, bool_decide_eq_true, (Hl u). naive_solver.
  - split; [done|]. intros u. rewrite (Hl u). naive_solver.
Qed.

Lemma liveness_op_spec ctx st (k : nat) o os :
  zlen (temps ctx) < 2 ^ 32 → 0 ≤ nb_globals ctx ≤ zlen (temps ctx) →
  ops ctx !! k = Some o → Op.idx o = Z.of_nat k → length (Op.args o) = 10%nat →
  op_in_range (zlen (temps ctx)) o → zlen st = zlen (temps ctx) →
  live_is st (needed (nb_globals ctx) os) →
  ∃ life st', liveness_op (ctx, st) (Z.of_nat k) =
      Some (set_ops ctx (<[k := Op.set_life o life]> (ops ctx)), st') ∧
    zlen st' = zlen (temps ctx) ∧ live_is st' (needed (nb_globals ctx) (o :: os)) ∧
    (no_code o = false → life_exact ctx o os life).
Proof.
  intros Hroom Hng Hop Hidx Hlen Hr Hst Hl. pose proof (zlen_nonneg (temps ctx)).
  destruct (live_is_after ctx o os st Hst Hng Hl) as [Hst1 Hl1].
  unfold liveness_op, op. rewrite zlookup_of_nat, Hop. cbn [mbind option_bind].
  fold (ends_block o) (no_code o). set (st1 := if ends_block o then _ else _) in *.
  destruct (no_code o) eqn:Hnc.
  { destruct (no_code_no_args o Hnc) as (Ho & Hi & Hb). exists (Op.life o), st1.
    rewrite set_life_id, set_ops_id by done. split_and!; try done. intros u.
    rewrite (Hl1 u), needed_cons, Ho, Hi. set_solver. }
  unfold nb_temps. rewrite u32_small by lia. pose proof Hr as [Ho Hi]%Forall_app.
  destruct (output_args _ 0 _ 0 st1) as [life1 st2] eqn:Hout.
  destruct (output_args_state _ 0 (Op.oargs o) 0 st1 Hst1 Ho) as [Hst2 Hl2].
  rewrite Hout in Hst2, Hl2. cbn [snd] in Hst2, Hl2.
  destruct (input_args_state ctx _ (nb_oargs (def (Op.opc o))) (Op.iargs o) life1 st2 Hst2 eq_refl Hi)
    as (life & st' & Hin & Hst' & Hl').
  rewrite Hin. cbn [mbind option_bind]. rewrite Hidx, (op_mut_Some _ _ _ _ Hop).
  exists life, st'. split_and!; [done..| |].
  - intros u. rewrite Hl', Hl2, needed_cons. rewrite orb_true_iff, andb_true_iff, negb_true_iff,
      bool_decide_eq_true, bool_decide_eq_false. by rewrite (Hl1 u).
  - intros _. by apply (life_bits ctx o os st1 life1 st2 life st').
Qed.

(** ** The whole pass *)

Definition ops_in_range (ctx : Context) : bool :=
  forallb (λ o, bool_decide (op_in_range (zlen (temps ctx)) o)) (ops ctx).

Lemma ops_in_range_spec ctx k o :
  ops_in_range ctx = true → ops ctx !! k = Some o → op_in_range (zlen (temps ctx)) o.
Proof.
  unfold ops_in_range. rewrite forallb_forall. intros H Ho.
  specialize (H o (proj1 (list_elem_of_In _ _) (list_elem_of_lookup_2 _ _ _ Ho))). by boolp.
Qed.

Section pass.
Context (ctx : Context) (Hwf : wf_context ctx) (Hrange : ops_in_range ctx = true).

(** The ops from position [m] on carry exact life data; the others are untouched. *)
Definition annotated (m : nat) (os : list Op.t) : Prop :=
  ∀ j o, ops ctx !! j = Some o →
    if decide (j < m)%nat then os !! j = Some o
    else ∃ life, os !! j = Some (Op.set_life o life) ∧
      (no_code o = false → life_exact ctx o (drop (S j) (ops ctx)) life).

Lemma liveness_loop_spec k os st :
  (k ≤ length (ops ctx))%nat → length os = length (ops ctx) → annotated k os →
  zlen st = zlen (temps ctx) → live_is st (needed (nb_globals ctx) (drop k (ops ctx))) →
  ∃ os' st', liveness_loop k (set_ops ctx os, st) = Some (set_ops ctx os', st') ∧
    length os' = length (ops ctx) ∧ annotated 0 os'.
Proof.
  revert os st. induction k as [|k IH]; intros os st Hk Hlen Ha Hst Hl; [by eexists _, _|].
  destruct (lookup_lt_is_Some_2 (ops ctx) k) as [o Ho]; [lia|].
  pose proof (Ha k o Ho) as Hos. rewrite decide_True in Hos by lia.
  destruct (wf_ops _ Hwf (Z.of_nat k) o) as [Hidx Hargs]; [by rewrite zlookup_of_nat|].
  pose proof (wf_fits _ Hwf) as (? & _). pose proof (wf_globals_range _ Hwf).
  destruct (liveness_op_spec (set_ops ctx os) st k o (drop (S k) (ops ctx)))
    as (life & st' & Hrun & Hst' & Hl' & Hex); try done.
  { by apply (ops_in_range_spec ctx k). }
  cbn [liveness_loop]. rewrite Hrun. cbn [mbind option_bind]. apply (IH (<[k := Op.set_life o life]> os) st');
    [lia|by rewrite length_insert| |done|by rewrite (drop_S _ _ _ Ho)].
  intros j oj Hj. destruct (decide (j = k)) as [->|Hne].
  - simplify_eq. rewrite decide_False by lia. exists life. split;
      [|intros Hn; by apply life_exact_set_ops with os, Hex].
    apply list_lookup_insert_eq. lia.
  - rewrite list_lookup_insert_ne by done. specialize (Ha j oj Hj).
    destruct (decide (j < S k)%nat), (decide (j < k)%nat); (done || lia).
Qed.

Lemma initial_state_spec :
  zlen (initial_state ctx) = zlen (temps ctx) ∧
  live_is (initial_state ctx) (needed (nb_globals ctx) []).
Proof.
  pose proof (wf_fits _ Hwf) as (? & _). pose proof (wf_globals_range _ Hwf).
  pose proof (zlen_nonneg (temps ctx)).
  assert (zlen (replicate (Z.to_nat (nb_temps ctx)) false) = zlen (temps ctx)) as Hz.
  { unfold nb_temps. rewrite u32_small by lia. unfold zlen at 1. rewrite length_replicate. lia. }
  unfold initial_state. rewrite zlen_mark_globals. split; [done|]. intros u.
  rewrite is_live_mark_globals by lia. rewrite orb_true_iff, bool_decide_eq_true.
  assert (is_live (replicate (Z.to_nat (nb_temps ctx)) false) u = false) as ->.
  { unfold is_live. destruct (_.[u]) as [b|] eqn:E; [|done]. apply zlookup_Some in E as [_ E].
    by apply lookup_replicate in E as [-> _]. }
  split; [intros [?|?]; [by constructor|done]|]. inversion 1. by left.
Qed.

Lemma liveness_analysis_spec : ∃ os, liveness_analysis ctx = Some (set_ops ctx os) ∧
  length os = length (ops ctx) ∧ annotated 0 os.
Proof.
  destruct initial_state_spec as [Hst Hl].
  destruct (liveness_loop_spec (length (ops ctx)) (ops ctx) (initial_state ctx))
    as (os & st & Hrun & Hlen & Ha); try done.
  - intros j o Hj. by rewrite decide_True by (eapply lookup_lt_Some; done).
  - by rewrite drop_all.
  - exists os. split; [|done]. unfold liveness_analysis, num_ops, zlen. rewrite Nat2Z.id.
    replace ctx with (set_ops ctx (ops ctx)) at 2 by (by destruct ctx).
    by rewrite Hrun.
Qed.
End pass.

(** [needed], decided. *)
Fixpoint needed_b (ng : Z) (os : list Op.t) (t : Z) : bool :=
  match os with
  | [] => bool_decide (0 ≤ t < ng)
  | o :: os =>
      bool_decide (t ∈ Op.iargs o) ||
      bool_decide (t ∉ Op.oargs o) && (ends_block o && bool_decide (0 ≤ t < ng) || needed_b ng os t)
  end.

Lemma needed_b_spec ng os t : needed_b ng os t = true ↔ needed ng os t.
Proof.
  induction os as [|o os IH]; simpl.
  - rewrite bool_decide_eq_true. split; [by constructor|by inversion 1].
  - rewrite needed_cons. unfold needed_after. rewrite <- IH.
    rewrite orb_true_iff, andb_true_iff, orb_true_iff, andb_true_iff, !bool_decide_eq_true. done.
Qed.

(** A block with a global: two writes to it, the first one dead. *)
Definition live_block : Context :=
  let c := default context_new (snd <$> new_fixed context_new Type_.I64 5 "env") in
  let c := default c (snd <$> new_global c Type_.I64 0 8 "gpr") in
  let c := (new_temp c Type_.I64).2 in
  let c := (new_temp c Type_.I64).2 in
  let c := (new_label c).2 in
  let c := emit Opcode.Add Type_.I64 [2; 1; 1] c in
  let c := emit Opcode.Mov Type_.I64 [1; 2] c in
  let c := emit Opcode.Not Type_.I64 [1; 2] c in
  let c := emit Opcode.BrCond Type_.I64 [1; 0; 8; 0] c in
  let c := emit Opcode.Neg Type_.I64 [3; 1] c in
  let c := emit Opcode.Mov Type_.I64 [1; 3] c in
  let c := emit Opcode.SetLabel Type_.I64 [0] c in
  emit Opcode.ExitTb Type_.I64 [0] c.

Lemma live_block_wf : wf_context live_block.
Proof.
  unfold live_block. cbv zeta.
  assert (rtc ctx_step context_new
    (default context_new (snd <$> new_fixed context_new Type_.I64 5 "env"))) as H1.
  { eapply rtc_l; [eapply (step_new_fixed _ Type_.I64 5 "env"); [by vm_compute|reflexivity]|].
    apply rtc_refl. }
  set (c0 := default _ _) in *.
  assert (rtc ctx_step context_new
    (default c0 (snd <$> new_global c0 Type_.I64 0 8 "gpr"))) as H2.
  { eapply rtc_r; [exact H1|].
    eapply (step_new_global _ Type_.I64 0 8 "gpr"); [by vm_compute|reflexivity]. }
  set (c1 := default _ _) in *. solve_block_wf. exact H2.
Qed.

(** C15. On a well-formed block whose ops name existing temps the pass does not
    panic, changes nothing but the life data, and the life data is exact: an
    output is marked dead iff no later op needs it, an input (at its first
    occurrence) iff the op overwrites it or no later op needs it, and sync is
    set exactly for the dead inputs that are globals. *)
Theorem liveness_exact ctx :
  wf_context ctx → ops_in_range ctx = true →
  ∃ os, liveness_analysis ctx = Some (set_ops ctx os) ∧ length os = length (ops ctx) ∧
    ∀ k o, ops ctx !! k = Some o → ∃ life, os !! k = Some (Op.set_life o life) ∧
      (no_code o = false → life_exact ctx o (drop (S k) (ops ctx)) life).
Proof.
  intros Hwf Hr. destruct (liveness_analysis_spec ctx Hwf Hr) as (os & Hl & Hlen & Ha).
  exists os. split; [done|]. split; [done|]. intros k o Ho. by apply (Ha k o Ho).
Qed.


Lemma liveness_exact_witness :
  ∃ os o, liveness_analysis live_block = Some (set_ops live_block os) ∧ os !! 1%nat = Some o ∧
    LifeData.is_dead (Op.life o) 0 = true.
Proof.
  destruct (liveness_exact live_block live_block_wf eq_refl) as (os & Hrun & _ & Hlife).
  destruct (Hlife 1%nat _ eq_refl) as (life & Ho & Hex). eexists os, _.
  split; [exact Hrun|]. split; [exact Ho|]. cbn [Op.life Op.set_life].
  specialize (Hex eq_refl).
  apply (le_output _ _ _ _ Hex 0 1); [apply (bool_decide_unpack _); by vm_compute|by vm_compute|].
  intros [[Hn _]|Hn%needed_b_spec]; vm_compute in Hn; discriminate Hn.
Defined.

(** ** Dead values are unobservable *)

(** No local is needed behind a label.  The pass does not propagate liveness along
    branches; it relies on this. *)
Definition labels_clean (ctx : Context) : bool :=
  forallb (λ k,
    match ops ctx !! k with
    | Some o =>
        implb (bool_decide (Op.opc o = Opcode.SetLabel))
          (forallb (λ t, is_const_temp (temps ctx) t ||
                         negb (needed_b (nb_globals ctx) (drop (S k) (ops ctx)) t))
             (seqZ (nb_globals ctx) (zlen (temps ctx) - nb_globals ctx)))
    | None => true
    end) (seq 0 (length (ops ctx))).

(** Two outcomes with the same exit, the same world and the same globals. *)
Definition same_globals (ng : Z) (e1 e2 : env) : Prop := ∀ t, 0 ≤ t < ng → e1 t = e2 t.

Definition outcome_agree {W} (ng : Z) (r1 r2 : outcome (env * W)) : Prop :=
  match r1, r2 with
  | Exited v1 s1, Exited v2 s2 => v1 = v2 ∧ s1.2 = s2.2 ∧ same_globals ng s1.1 s2.1
  | Running k1 s1, Running k2 s2 => k1 = k2 ∧ s1.2 = s2.2
  | BadPc k1 s1, BadPc k2 s2 => k1 = k2 ∧ s1.2 = s2.2 ∧ same_globals ng s1.1 s2.1
  | BadLabel l1 s1, BadLabel l2 s2 => l1 = l2 ∧ s1.2 = s2.2
  | _, _ => False
  end.

Section unobservable.
Context {W : Type} (ext : Opcode.t → Type_.t → list Z → list Z → W → list Z * W * option Z).

(** The uninterpreted ops produce all their outputs, and only block-ending ops
    leave the block. *)
Definition well_behaved : Prop :=
  ∀ o ty ins cs w vs w' x, ext o ty ins cs w = (vs, w', x) →
    zlen vs = nb_oargs (def o) ∧
    (is_Some x → OpFlags.contains (def_flags (def o)) OpFlags.BB_END = true).

Context (Hext : well_behaved) (ctx : Context).
Context (Hwf : wf_context ctx) (Hrange : ops_in_range ctx = true) (Hclean : labels_clean ctx = true).
#[local] Abbreviation ts := (temps ctx).
#[local] Abbreviation ng := (nb_globals ctx).

(** The environments agree on what the block needs from position [k] on. *)
Definition agree (k : nat) (e1 e2 : env) : Prop :=
  ∀ t, needed ng (drop k (ops ctx)) t → is_const_temp ts t = false → e1 t = e2 t.

Lemma rd_agree e1 e2 t :
  (is_const_temp ts t = false → e1 t = e2 t) → rd ts e1 t = rd ts e2 t.
Proof. unfold rd, is_const_temp. destruct (ts.[t]) as [x|]; [|auto]. destruct (Temp.is_const x); auto. Qed.

Lemma wr_agree e1 e2 d v u :
  0 ≤ d < zlen ts → (u ≠ d → e1 u = e2 u) → wr ts e1 d v u = wr ts e2 d v u.
Proof.
  intros Hd He. apply zlookup_lt_is_Some in Hd as [x Hx]. unfold wr. rewrite Hx.
  destruct (u =? d) eqn:E; [done|]. boolp. auto.
Qed.

Lemma wr_all_agree outs vs e1 e2 u :
  Forall (λ t, 0 ≤ t < zlen ts) outs → length outs = length vs →
  (u ∉ outs → e1 u = e2 u) → wr_all ts e1 outs vs u = wr_all ts e2 outs vs u.
Proof.
  intros Ho. unfold wr_all. revert vs e1 e2.
  induction Ho as [|d outs Hd _ IH]; intros [|v vs] e1 e2 Hl He; try done.
  - apply He, not_elem_of_nil.
  - simpl. apply IH; [simpl in Hl; lia|]. intros Hu. apply wr_agree; [done|].
    intros Hne. apply He. by apply not_elem_of_cons.
Qed.

(** What one op does to two states that agree on its inputs. *)
Definition step_agree (o : Op.t) (r1 r2 : env * W * ctl) (e1 e2 : env) : Prop :=
  r1.2 = r2.2 ∧ r1.1.2 = r2.1.2 ∧
  (∀ v, r1.2 = Leave v → ends_block o = true) ∧
  ∀ u, (u ∉ Op.oargs o → e1 u = e2 u) → r1.1.1 u = r2.1.1 u.

Lemma no_outputs o : nb_oargs (def (Op.opc o)) = 0 → Op.oargs o = [].
Proof. intros H. unfold Op.oargs. by rewrite H. Qed.

(** An op that writes nothing. *)
Lemma step_agree_quiet o e1 e2 (w : W) k :
  nb_oargs (def (Op.opc o)) = 0 → (∀ v, k = Leave v → ends_block o = true) →
  step_agree o ((e1, w), k) ((e2, w), k) e1 e2.
Proof.
  intros Ho Hk. split_and!; try done. simpl. intros u Hu. apply Hu.
  rewrite no_outputs by done. apply not_elem_of_nil.
Qed.

Lemma step_agree_write o d e1 e2 (w : W) v :
  Op.oargs o = [d] → op_in_range (zlen ts) o →
  step_agree o ((wr ts e1 d v, w), Next) ((wr ts e2 d v, w), Next) e1 e2.
Proof.
  intros Ho [Hr _]%Forall_app. rewrite Ho in Hr. apply Forall_cons in Hr as [Hd _].
  split_and!; try done. simpl. rewrite Ho. intros u Hu. apply wr_agree; [done|].
  intros Hne. apply Hu. set_solver.
Qed.

Lemma step_agree_ext o ty ins cs e1 e2 (w : W) :
  op_in_range (zlen ts) o → length (Op.args o) = 10%nat →
  step_agree o (exec_ext ext ts (Op.opc o) ty (Op.oargs o) ins cs (e1, w))
    (exec_ext ext ts (Op.opc o) ty (Op.oargs o) ins cs (e2, w)) e1 e2.
Proof.
  intros [Ho _]%Forall_app Hlen. pose proof (oargs_length o Hlen) as Hol.
  unfold exec_ext, step_agree. simpl. destruct (ext (Op.opc o) ty ins cs w) as [[vs w'] x] eqn:E.
  apply Hext in E as [Hvs Hex]. simpl. split_and!; [done|done| |].
  - intros v. destruct x; [intros _; by apply Hex|done].
  - intros u Hu. apply wr_all_agree; [done| |done]. unfold zlen in *. lia.
Qed.

Lemma exec_op_agree o e1 e2 w :
  op_in_range (zlen ts) o → length (Op.args o) = 10%nat →
  rd ts e1 <$> Op.iargs o = rd ts e2 <$> Op.iargs o →
  step_agree o (exec_op ext ts o (e1, w)) (exec_op ext ts o (e2, w)) e1 e2.
Proof.
  intros Hr Hlen Hin. unfold exec_op. simpl. rewrite Hin.
  set (ins := rd ts e2 <$> Op.iargs o). clearbody ins. clear Hin.
  pose proof (λ ty cs, step_agree_ext o ty ins cs e1 e2 w Hr Hlen) as Hx.
  assert (Op.opc o = Opcode.ExitTb → ends_block o = true) as Hexit
    by (intros E; unfold ends_block; by rewrite E).
  unfold exec. destruct (Op.opc o) eqn:Eo; repeat case_match;
    solve [ apply Hx
          | apply step_agree_quiet; [by rewrite Eo|intros ? [=]; auto]
          | apply step_agree_write; congruence ].
Qed.

Lemma needed_range os t :
  needed ng os t → Forall (op_in_range (zlen ts)) os → 0 ≤ t < zlen ts.
Proof.
  pose proof (wf_globals_range _ Hwf).
  induction 1 as [t Ht|o os t Ht|o os t _ Ht|o os t _ _ IH];
    intros Hf; try apply Forall_cons in Hf as [Ho Hf]; [lia| |lia|auto].
  apply Forall_app in Ho as [_ Hi]. rewrite Forall_forall in Hi. auto.
Qed.

Lemma all_in_range : Forall (op_in_range (zlen ts)) (ops ctx).
Proof. apply Forall_lookup. intros k o. by apply ops_in_range_spec. Qed.

Lemma labels_clean_spec j o t :
  ops ctx !! j = Some o → Op.opc o = Opcode.SetLabel → needed ng (drop (S j) (ops ctx)) t →
  is_const_temp ts t = false → 0 ≤ t < ng.
Proof.
  intros Ho Hl Hn Hc. unfold labels_clean in Hclean. rewrite forallb_forall in Hclean.
  specialize (Hclean j). rewrite Ho in Hclean.
  rewrite bool_decide_eq_true_2 in Hclean by done. simpl in Hclean.
  assert (In j (seq 0 (length (ops ctx)))) as Hj.
  { apply in_seq. apply lookup_lt_Some in Ho. lia. }
  specialize (Hclean Hj). rewrite forallb_forall in Hclean. specialize (Hclean t).
  rewrite Hc in Hclean. simpl in Hclean. rewrite (proj2 (needed_b_spec _ _ _) Hn) in Hclean.
  pose proof (wf_globals_range _ Hwf).
  destruct (decide (0 ≤ t < ng)) as [|Hng]; [done|]. exfalso.
  assert (0 ≤ t < zlen ts) as Hr.
  { by apply (needed_range (drop (S j) (ops ctx))); [|apply Forall_drop, all_in_range]. }
  assert (In t (seqZ ng (zlen ts - ng))) as Ht by (apply list_elem_of_In, elem_of_seqZ; lia).
  discriminate (Hclean Ht).
Qed.

(** Agreement is kept from each position to those that can follow it. *)
Lemma agree_next k o e1 e2 e1' e2' :
  ops ctx !! k = Some o → agree k e1 e2 →
  (∀ u, (u ∉ Op.oargs o → e1 u = e2 u) → e1' u = e2' u) → agree (S k) e1' e2'.
Proof.
  intros Ho Ha Hstep u Hn Hc. apply Hstep. intros Hu. apply Ha; [|done].
  rewrite (drop_S _ _ _ Ho). by apply needed_later.
Qed.

Lemma agree_jump k j o oj e1 e2 :
  ops ctx !! k = Some o → ends_block o = true → ops ctx !! j = Some oj →
  Op.opc oj = Opcode.SetLabel → agree k e1 e2 → agree (S j) e1 e2.
Proof.
  intros Ho Hb Hj Hl Ha u Hn Hc. apply Ha; [|done]. rewrite (drop_S _ _ _ Ho).
  apply needed_bb_end; [done|]. by eapply labels_clean_spec.
Qed.

Lemma agree_globals k e1 e2 :
  (ops ctx !! k = None ∨ ∃ o, ops ctx !! k = Some o ∧ ends_block o = true) →
  agree k e1 e2 → same_globals ng e1 e2.
Proof.
  intros Hk Ha t Ht. apply Ha.
  - destruct Hk as [Hk|(o & Ho & Hb)].
    + rewrite drop_ge by (by apply lookup_ge_None). by constructor.
    + rewrite (drop_S _ _ _ Ho). by apply needed_bb_end.
  - pose proof (wf_globals_range _ Hwf). destruct (proj2 (zlookup_lt_is_Some ts t)) as [x Hx]; [lia|].
    pose proof (wf_globals_first _ Hwf _ _ Hx) as Hg. rewrite bool_decide_eq_true_2 in Hg by lia.
    unfold is_const_temp. rewrite Hx. unfold Temp.is_global_or_fixed, Temp.is_const in *.
    by destruct (Temp.kind x).
Qed.

Lemma branch_ends_block o l : branch_target o = Some l → ends_block o = true.
Proof. unfold branch_target, ends_block. by destruct (Op.opc o). Qed.

(** Runs from agreeing states agree. *)
Lemma run_agree fuel k e1 e2 w :
  agree k e1 e2 → outcome_agree ng (run ext fuel ctx k (e1, w)) (run ext fuel ctx k (e2, w)).
Proof.
  revert k e1 e2 w. induction fuel as [|fuel IH]; intros k e1 e2 w Ha; [done|]. simpl.
  destruct (ops ctx !! k) as [o|] eqn:Ho.
  2:{ split_and!; [done..|]. by apply (agree_globals k); [left|]. }
  destruct (wf_ops _ Hwf (Z.of_nat k) o) as [_ Hlen]; [by rewrite zlookup_of_nat|].
  destruct (exec_op_agree o e1 e2 w) as (Hk & Hw & Hb & He);
    [by apply (ops_in_range_spec ctx k)|done| |].
  { apply list_fmap_ext. intros i t Ht. apply rd_agree. intros Hc. apply Ha; [|done].
    rewrite (drop_S _ _ _ Ho). apply needed_read. by eapply list_elem_of_lookup_2. }
  destruct (exec_op ext ts o (e1, w)) as [[e1' w1] c1] eqn:E1.
  destruct (exec_op ext ts o (e2, w)) as [[e2' w2] c2] eqn:E2. simpl in *. subst c2 w2.
  destruct c1 as [|l|v].
  - rewrite Nat.add_1_r. apply IH. by eapply agree_next.
  - destruct (exec_jump ext _ _ _ _ _ E1) as [[= -> ->] Ht].
    destruct (exec_jump ext _ _ _ _ _ E2) as [[= ->] _].
    destruct (label_pos (ops ctx) l) as [j|] eqn:Hl; [|done].
    destruct (label_pos_Some _ _ _ Hl) as (oj & Hj & Hopc). rewrite Nat.add_1_r. apply IH.
    by eapply agree_jump; [..|apply Ha]; [|eapply branch_ends_block| |].
  - split_and!; [done..|].
    assert (agree (S k) e1' e2') as Ha' by (by eapply agree_next). intros t Ht.
    apply He. intros _. revert t Ht. apply (agree_globals k); [right|done].
    exists o. split; [done|]. by apply (Hb v).
Qed.

(** The positions a run may be at after op [o] at position [k]. *)
Definition continues_at (k : nat) (o : Op.t) (q : nat) : Prop :=
  q = S k ∨ ∃ l j, branch_target o = Some l ∧ label_pos (ops ctx) l = Some j ∧ q = S j.

Lemma agree_not_needed k o q t e v :
  ops ctx !! k = Some o → ¬ needed_after ng o (drop (S k) (ops ctx)) t → continues_at k o q →
  agree q (λ u, if u =? t then v else e u) e.
Proof.
  intros Ho Hn Hq u Hu Hc. simpl. destruct (u =? t) eqn:E; [|done]. boolp. subst u. exfalso.
  apply Hn. destruct Hq as [->|(l & j & Hb & Hl & ->)]; [by right|].
  destruct (label_pos_Some _ _ _ Hl) as (oj & Hj & Hopc). left.
  split; [by eapply branch_ends_block|]. by eapply labels_clean_spec.
Qed.
End unobservable.

(** Argument position [p] of [o] is marked dead and its temp [t] is not rewritten by
    [o] itself. *)
Definition dead_arg (o : Op.t) (p t : Z) : Prop :=
  LifeData.is_dead (Op.life o) p = true ∧
  ((Op.oargs o).[p] = Some t ∨
   ∃ j, p = nb_oargs (def (Op.opc o)) + j ∧ first_at (Op.iargs o) j = Some t ∧ t ∉ Op.oargs o).

(** C22. Dead means dead: after an op that marks an argument dead, storing any value
    in that temp changes neither where the block exits, nor the exit value, nor
    the world, nor any global - wherever the run continues, for every number of
    steps.  The block must not carry a local over a label, and uninterpreted ops
    must only leave the block where the opcode ends it. *)
Theorem liveness_dead_unobservable {W}
    (ext : Opcode.t → Type_.t → list Z → list Z → W → list Z * W * option Z) ctx :
  well_behaved ext → wf_context ctx → ops_in_range ctx = true → labels_clean ctx = true →
  ∃ ctx', liveness_analysis ctx = Some ctx' ∧
    ∀ k o p t q, ops ctx' !! k = Some o → no_code o = false → NoDup (Op.oargs o) →
      dead_arg o p t → continues_at ctx k o q →
      ∀ fuel e w v,
        outcome_agree (nb_globals ctx)
          (run ext fuel ctx q (λ u, if u =? t then v else e u, w))
          (run ext fuel ctx q (e, w)).
Proof.
  intros Hext Hwf Hr Hc. destruct (liveness_analysis_spec ctx Hwf Hr) as (os & Hl & Hlen & Ha).
  exists (set_ops ctx os). split; [done|]. intros k o' p t q Ho' Hnc Hnd [Hd Hpos] Hq fuel e w v.
  destruct (lookup_lt_is_Some_2 (ops ctx) k) as [o Ho].
  { rewrite <- Hlen. by eapply lookup_lt_Some. }
  destruct (Ha k o Ho) as (life & Hos & Hex). simpl in Ho'. rewrite Hos in Ho'.
  injection Ho' as <-. specialize (Hex Hnc).
  apply run_agree; [done..|]. apply (agree_not_needed ctx Hwf Hr Hc k o); [done| |exact Hq].
  destruct Hpos as [Hpos|(j & -> & Hj & Hn)].
  - by apply (le_output _ _ _ _ Hex p t).
  - destruct (proj1 (proj1 (le_input _ _ _ _ Hex j t Hnd Hj)) Hd); [done|done].
Qed.

(** An interpretation of the remaining ops for the examples: all outputs zero. *)
Definition zero_ext (o : Opcode.t) (ty : Type_.t) (ins cs : list Z) (w : unit)
    : list Z * unit * option Z := (replicate (Z.to_nat (nb_oargs (def o))) 0, w, None).

Lemma zero_ext_well_behaved : well_behaved zero_ext.
Proof.
  intros o ty ins cs w vs w' x [= <- <- <-]. split; [|by intros []].
  unfold zlen. rewrite length_replicate. pose proof (nb_counts o). lia.
Qed.

Lemma liveness_dead_unobservable_witness :
  outcome_agree 2 (run zero_ext 20 live_block 2 (λ u, if u =? 1 then 77 else u, ()))
    (run zero_ext 20 live_block 2 (λ u, u, ())).
Proof.
  destruct (liveness_dead_unobservable zero_ext live_block zero_ext_well_behaved live_block_wf)
    as (ctx' & Hrun & Hdead); [reflexivity|vm_compute; reflexivity|].
  assert (∃ o, (c ← liveness_analysis live_block; ops c !! 1%nat) = Some o ∧
    LifeData.is_dead (Op.life o) 0 = true ∧ Op.opc o = Opcode.Mov ∧
    Op.args o = [1; 2; 0; 0; 0; 0; 0; 0; 0; 0]) as (o & Ho & Hd & Hopc & Ha).
  { eexists. split; [vm_compute; reflexivity|]. split; [vm_compute; reflexivity|].
    split; reflexivity. }
  rewrite Hrun in Ho. cbn [mbind option_bind] in Ho.
  apply (Hdead 1%nat o 0 1 2%nat Ho).
  - unfold no_code. by rewrite Hopc.
  - assert (Op.oargs o = [1]) as -> by (unfold Op.oargs; by rewrite Hopc, Ha).
    apply NoDup_singleton.
  - split; [exact Hd|]. left. unfold Op.oargs. by rewrite Hopc, Ha.
  - by left.
Defined.

(** ** A local that lives across a branch *)

(** [t0] is a [Tb] temp ("live across the entire translation block"): it is set
    before a branch and read behind the label, and redefined only on the path that
    falls through. *)
Definition branch_block : Context :=
  let c := default context_new (snd <$> new_global context_new Type_.I64 0 8 "gpr") in
  let c := (new_temp_tb c Type_.I64).2 in
  let c := (new_const c Type_.I64 5).2 in
  let c := (new_const c Type_.I64 6).2 in
  let c := (new_label c).2 in
  let c := emit Opcode.Mov Type_.I64 [1; 2] c in
  let c := emit Opcode.BrCond Type_.I64 [0; 2; 9; 0] c in
  let c := emit Opcode.Mov Type_.I64 [1; 3] c in
  let c := emit Opcode.SetLabel Type_.I64 [0] c in
  let c := emit Opcode.Mov Type_.I64 [0; 1] c in
  emit Opcode.ExitTb Type_.I64 [0] c.

(** The side condition of [liveness_dead_unobservable] is needed: on a block
    with a [Tb] temp whose value is read behind a label, the pass marks that
    value dead where it is computed, although the taken branch reads it. *)
Theorem liveness_misses_branches :
  ops_in_range branch_block = true ∧ labels_clean branch_block = false ∧
  ∃ ctx' o, liveness_analysis branch_block = Some ctx' ∧ ops ctx' !! 0%nat = Some o ∧
    Op.oargs o = [1] ∧ LifeData.is_dead (Op.life o) 0 = true ∧
    exit_value 0 (run zero_ext 20 branch_block 0 (zero_env, ())) = Some 5 ∧
    exit_value 0 (run zero_ext 20 branch_block 1 (λ u, if u =? 1 then 5 else 0, ())) = Some 5 ∧
    exit_value 0 (run zero_ext 20 branch_block 1 (λ u, if u =? 1 then 77 else 0, ())) = Some 77.
Proof.
  split; [reflexivity|]. split; [vm_compute; reflexivity|].
  eexists _, _. split; [vm_compute; reflexivity|]. split; [reflexivity|].
  split_and!; vm_compute; reflexivity.
Qed.
