(* ===== verification/PassLabels.v ===== *)
(** * The passes leave the labels alone

    Neither the optimizer nor the liveness analysis touches the label table, so code emission
    starts with the labels of the front end. *)

From S2P Require Import Prelude Types Opcodes Ir Optimize Liveness.

(** No label waits for its place. *)
Definition fresh_labels (c : Context) : Prop := Forall (λ l, Label.uses l = []) (labels c).

Lemma op_mut_labels c i f c' : op_mut c i f = Some c' → labels c' = labels c.
Proof.
  intros Hm. apply bind_Some in Hm as (o & _ & Hm). apply bind_Some in Hm as (os & _ & Hm). by injection Hm as <-.
Qed.

Lemma new_const_labels c ty v : labels (new_const c ty v).2 = labels c.
Proof. unfold new_const. by case_match. Qed.

Section labels.
Variable ls : list Label.t.

(** The result, if any, has these labels. *)
Definition labelled {A} (o : option (Context * A)) : Prop := ∀ s, o = Some s → labels s.1 = ls.

Lemma labelled_some {A} (s : Context * A) : labels s.1 = ls → labelled (Some s).
Proof. by intros ? ? [= <-]. Qed.

Lemma labelled_none {A} : @labelled A None.
Proof. by intros ? [=]. Qed.

Lemma labelled_bind {A B} (o : option B) (k : B → option (Context * A)) :
  (∀ b, labelled (k b)) → labelled (o ≫= k).
Proof. intros Hk s Ho. apply bind_Some in Ho as (b & _ & Ho). by eapply Hk. Qed.

Lemma labelled_op_mut {A} c i f (k : Context → option (Context * A)) :
  labels c = ls → (∀ c', labels c' = ls → labelled (k c')) → labelled (op_mut c i f ≫= k).
Proof.
  intros Hc Hk s Ho. apply bind_Some in Ho as (c' & Hm & Ho). eapply Hk; [|exact Ho].
  apply op_mut_labels in Hm. congruence.
Qed.

Lemma labelled_step {A B} (o : option (Context * B)) (k : Context * B → option (Context * A)) :
  labelled o → (∀ s, labels s.1 = ls → labelled (k s)) → labelled (o ≫= k).
Proof. intros Ho Hk s Hs. apply bind_Some in Hs as (b & Hb & Hs). eapply Hk; [by eapply Ho|done]. Qed.

Lemma labelled_const s i dst v ty : labels s.1 = ls → labelled (replace_with_const s i dst v ty).
Proof.
  destruct s as [c info]. cbn [fst]. intros Hs. unfold replace_with_const.
  pose proof (new_const_labels c ty (Z.land v (type_mask ty))) as Hn. destruct (new_const _ _ _) as [k c1].
  cbn [snd] in Hn. apply labelled_op_mut; [congruence|]. intros c' Hc. by apply labelled_some.
Qed.

Lemma labelled_mov s i dst src : labels s.1 = ls → labelled (replace_with_mov s i dst src).
Proof.
  destruct s as [c info]. cbn [fst]. intros Hs. apply labelled_op_mut; [done|]. intros. by apply labelled_some.
Qed.

(** ** The optimizer *)

#[local] Hint Resolve labelled_some labelled_none labelled_const labelled_mov : labelled.

(** Case analysis down to a result. *)
Ltac labelled :=
  cbv zeta;
  first [solve [auto 2 with labelled nocore]|lazymatch goal with
  | |- labelled (op_mut _ _ _ ≫= _) => apply labelled_op_mut; [done|intros; labelled]
  | |- labelled (@mbind _ _ _ _ _ _) => apply labelled_bind; intros; labelled
  | |- labelled (if ?c then _ else _) => destruct c; labelled
  | |- labelled (match ?x with _ => _ end) => destruct x; labelled
  end].

Lemma simplify_b_labelled s i opc dst a bi ty r :
  labels s.1 = ls → simplify_b s i opc dst a bi ty = Some r → labelled r.
Proof. intros Hs Hr. unfold simplify_b in Hr. repeat case_match; simplify_eq; labelled. Qed.

Lemma simplify_a_labelled s i opc dst b ai ty r :
  labels s.1 = ls → simplify_a s i opc dst b ai ty = Some r → labelled r.
Proof. intros Hs Hr. unfold simplify_a in Hr. repeat case_match; simplify_eq; labelled. Qed.

(** [s' ← r; Some (s', true)] *)
Lemma labelled_simplified (r : option St) s b :
  labelled r → (s' ← r; Some (s', true)) = Some (s, b) → labels s.1 = ls ∧ b = true.
Proof. intros Hr Ho. apply bind_Some in Ho as (s' & Ho & [= -> <-]). split; [by apply Hr|done]. Qed.

Lemma labelled_binary s i opc args ty : labels s.1 = ls → labelled (fold_binary s i opc args ty).
Proof.
  destruct s as [c info]. intros Hs. unfold fold_binary. cbv zeta.
  destruct (if _ && _ then _ else None) as [v|]; [by apply labelled_const|].
  unfold try_simplify.
  destruct (simplify_b _ _ _ _ _ _ _) as [r|] eqn:Eb; [|destruct (simplify_a _ _ _ _ _ _ _) as [r|] eqn:Ea].
  1,2: intros s' Ho; apply bind_Some in Ho as ([s1 b1] & Ho & Hs1);
    apply labelled_simplified in Ho as [Hl ->]; [by injection Hs1 as <-|].
  1: by eapply simplify_b_labelled.
  1: by eapply simplify_a_labelled.
  cbn [mbind option_bind]. destruct (if _ =? _ then _ else None) as [r|] eqn:Er; [|by apply labelled_some].
  repeat case_match; simplify_eq; labelled.
Qed.

Lemma labelled_brcond s i args ty : labels s.1 = ls → labelled (fold_brcond s i args ty).
Proof.
  destruct s as [c info]. intros Hs. unfold fold_brcond. cbv zeta. destruct (_ || _); [by apply labelled_some|].
  destruct (eval_cond _ _ _ _); apply labelled_op_mut; try done; intros; by apply labelled_some.
Qed.

Lemma labelled_optimize_op s i : labels s.1 = ls → labelled (optimize_op s i).
Proof.
  destruct s as [c info]. intros Hs. unfold optimize_op. apply labelled_bind. intros o. cbv zeta.
  destruct (is_boundary _); [labelled|]. destruct (is_skipped _); [labelled|].
  apply labelled_op_mut; [done|]. intros c' Hc.
  destruct (Op.opc o); unfold fold_mov, fold_unary, fold_ext;
    first [by apply labelled_binary|by apply labelled_brcond|labelled].
Qed.

Lemma labelled_optimize n s : labels s.1 = ls → labelled (optimize_loop n s).
Proof.
  intros Hs. induction n as [|n IH]; cbn [optimize_loop]; [by apply labelled_some|].
  apply labelled_step; [exact IH|]. intros s' Hs'. by apply labelled_optimize_op.
Qed.

(** ** The liveness analysis *)

Lemma labelled_liveness_op s i : labels s.1 = ls → labelled (liveness_op s i).
Proof.
  destruct s as [c st]. intros Hs. unfold liveness_op. apply labelled_bind. intros o. cbv zeta.
  destruct (_ || _); [by apply labelled_some|]. destruct (output_args _ _ _ _ _) as [life st1].
  apply labelled_bind. intros [life2 st2]. apply labelled_op_mut; [done|]. intros. by apply labelled_some.
Qed.

Lemma labelled_liveness n s : labels s.1 = ls → labelled (liveness_loop n s).
Proof.
  revert s. induction n as [|n IH]; intros s Hs; cbn [liveness_loop]; [by apply labelled_some|].
  apply labelled_step; [by apply labelled_liveness_op|exact IH].
Qed.
End labels.

Lemma optimize_labels c c' : optimize c = Some c' → labels c' = labels c.
Proof.
  intros Ho. apply bind_Some in Ho as (s & Hs & Ho). injection Ho as <-.
  by apply (labelled_optimize (labels c) _ (c, seed_info c) eq_refl s Hs).
Qed.

Lemma liveness_labels c c' : liveness_analysis c = Some c' → labels c' = labels c.
Proof.
  intros Ho. apply bind_Some in Ho as (s & Hs & Ho). injection Ho as <-.
  by apply (labelled_liveness (labels c) _ (c, initial_state c) eq_refl s Hs).
Qed.
