(* ===== verification/Serialize.v ===== *)
(** * Binary IR serialization (core/src/serialize.rs)

    Writers produce lists of bytes ([Write] on a vector never fails); [serialize]
    is [None] where the code would panic.  Readers consume a list of bytes and end
    in a value and the rest, or fail: unexpected end of input, invalid data, or a
    panic.  The round trip covers concatenated files; truncated files are
    rejected. *)

From S2P Require Import Prelude Types Opcodes Ir.

Definition MAGIC : list Z := [0x54; 0x43; 0x49; 0x52].
Definition VERSION : Z := 1.

(** ** Readers *)

Inductive failure := UnexpectedEof | InvalidData | Panicked.

Inductive res (A : Type) := Ok (a : A) (rest : list Z) | Fail (e : failure).
Arguments Ok {A}.
Arguments Fail {A}.

Definition Reader (A : Type) : Type := list Z → res A.

Definition rret {A} (a : A) : Reader A := λ s, Ok a s.
Definition rfail {A} (e : failure) : Reader A := λ _, Fail e.
Definition rbind {A B} (p : Reader A) (k : A → Reader B) : Reader B :=
  λ s, match p s with Ok a s => k a s | Fail e => Fail e end.

Notation "'get!' x := p ; k" := (rbind p (λ x, k))
  (at level 10, x name, p at level 100, k at level 200) : tcg_scope.

(** [Some] or a failure *)
Definition rlift {A} (e : failure) (x : option A) : Reader A :=
  match x with Some a => rret a | None => rfail e end.

(** [r.read_exact(&mut buf)] for a buffer of [n] bytes *)
Definition read_exact (n : nat) : Reader (list Z) := λ s,
  if decide (n ≤ length s)%nat then Ok (take n s) (drop n s) else Fail UnexpectedEof.

(** [p] repeated [n] times *)
Fixpoint rrepeat {A} (n : nat) (p : Reader A) : Reader (list A) :=
  match n with
  | O => rret []
  | S n => get! x := p; get! l := rrepeat n p; rret (x :: l)
  end.

Definition read_u8 : Reader Z := get! b := read_exact 1; rret (le_value b).
Definition read_u16 : Reader Z := get! b := read_exact 2; rret (le_value b).
Definition read_u32 : Reader Z := get! b := read_exact 4; rret (le_value b).
Definition read_u64 : Reader Z := get! b := read_exact 8; rret (le_value b).
Definition read_i64 : Reader Z := get! b := read_exact 8; rret (i64 (le_value b)).

Definition u8_to_kind (v : Z) : option TempKind.t :=
  match v with
  | 0 => Some TempKind.Ebb
  | 1 => Some TempKind.Tb
  | 2 => Some TempKind.Global
  | 3 => Some TempKind.Fixed
  | 4 => Some TempKind.Const
  | _ => None
  end.

Definition u8_to_type (v : Z) : option Type_.t :=
  match v with
  | 0 => Some Type_.I32
  | 1 => Some Type_.I64
  | 2 => Some Type_.I128
  | 3 => Some Type_.V64
  | 4 => Some Type_.V128
  | 5 => Some Type_.V256
  | _ => None
  end.

(** The [transmute] below [Count] is the variant of that discriminant. *)
Definition u8_to_opcode (v : Z) : option Opcode.t :=
  if v <? Opcode.Count then Opcode.all.[v] else None.

(** ** Strings *)

Definition as_bytes (s : string) : list Z :=
  map (λ c, Z.of_N (Ascii.N_of_ascii c)) (String.list_ascii_of_string s).

Definition string_of_bytes (bs : list Z) : string :=
  String.string_of_list_ascii (map (λ b, Ascii.ascii_of_N (Z.to_N b)) bs).

Definition cont (b : Z) : bool := (0x80 <=? b) && (b <=? 0xBF).

(** Well-formed UTF-8: the check of [String::from_utf8]. *)
Fixpoint valid_utf8 (bs : list Z) : bool :=
  match bs with
  | [] => true
  | b0 :: r0 =>
    if b0 <=? 0x7F then valid_utf8 r0
    else if (0xC2 <=? b0) && (b0 <=? 0xDF) then
      match r0 with b1 :: r => cont b1 && valid_utf8 r | _ => false end
    else if (0xE0 <=? b0) && (b0 <=? 0xEF) then
      match r0 with
      | b1 :: b2 :: r =>
        ((if b0 =? 0xE0 then 0xA0 else 0x80) <=? b1) && (b1 <=? (if b0 =? 0xED then 0x9F else 0xBF))
        && cont b2 && valid_utf8 r
      | _ => false end
    else if (0xF0 <=? b0) && (b0 <=? 0xF4) then
      match r0 with
      | b1 :: b2 :: b3 :: r =>
        ((if b0 =? 0xF0 then 0x90 else 0x80) <=? b1) && (b1 <=? (if b0 =? 0xF4 then 0x8F else 0xBF))
        && cont b2 && cont b3 && valid_utf8 r
      | _ => false end
    else false
  end.

(** [StringTable]: the strings and the index of each. *)
Record StringTable := mkTable {
  strings : list string;
  index_of : gmap string Z
}.

Definition table_new : StringTable := mkTable [] ∅.

Definition intern (tab : StringTable) (s : string) : Z * StringTable :=
  match index_of tab !! s with
  | Some idx => (idx, tab)
  | None =>
    let idx := u32 (zlen (strings tab)) in
    (idx, mkTable (strings tab ++ [s]) (<[s := idx]> (index_of tab)))
  end.

Definition write_string (s : string) : list Z :=
  let bytes := as_bytes s in le_bytes 2 (zlen bytes) ++ bytes.

Definition write_table (tab : StringTable) : list Z :=
  le_bytes 4 (zlen (strings tab)) ++ concat (map write_string (strings tab)).

Definition read_string : Reader string :=
  get! len := read_u16;
  get! buf := read_exact (Z.to_nat len);
  if valid_utf8 buf then rret (string_of_bytes buf) else rfail InvalidData.

Definition read_string_table : Reader (list string) :=
  get! count := read_u32;
  rrepeat (Z.to_nat count) read_string.

(** ** Writing *)

Definition NONE32 : Z := 0xFFFFFFFF.

(** The first loop over the temps: name indices and the string table. *)
Fixpoint intern_names (tab : StringTable) (ts : list Temp.t) : list Z * StringTable :=
  match ts with
  | [] => ([], tab)
  | t :: ts =>
    let '(idx, tab) :=
      match Temp.name t with Some nm => intern tab nm | None => (NONE32, tab) end in
    let '(l, tab) := intern_names tab ts in (idx :: l, tab)
  end.

Definition write_temp (t : Temp.t) (name_idx : Z) : list Z :=
  le_bytes 1 (TempKind.discr (Temp.kind t)) ++ le_bytes 1 (Type_.discr (Temp.ty t)) ++
  le_bytes 1 (Type_.discr (Temp.base_type t)) ++ le_bytes 1 (default 0xFF (Temp.reg t)) ++
  le_bytes 8 (Temp.val t) ++ le_bytes 4 (default NONE32 (Temp.mem_base t)) ++
  le_bytes 8 (Temp.mem_offset t) ++ le_bytes 4 name_idx.

(** [op.args[i]] panics when [nargs] exceeds the array. *)
Definition write_op (op : Op.t) : option (list Z) :=
  args ← mapM (λ i, (Op.args op).[i]) (seqZ 0 (Op.nargs op));
  Some (le_bytes 1 (Opcode.discr (Op.opc op)) ++ le_bytes 1 (Type_.discr (Op.op_type op)) ++
        le_bytes 1 (Op.param1 op) ++ le_bytes 1 (Op.param2 op) ++ le_bytes 1 (Op.nargs op) ++
        [0; 0; 0] ++ concat (map (le_bytes 4) args)).

Definition serialize (ctx : Context) : option (list Z) :=
  let header := MAGIC ++ le_bytes 2 VERSION ++ le_bytes 2 0 ++ le_bytes 4 (nb_globals ctx) ++
    le_bytes 4 (zlen (labels ctx)) ++ le_bytes 4 1 in
  let '(name_indices, strtab) := intern_names table_new (temps ctx) in
  ops_bytes ← mapM write_op (ops ctx);
  Some (header ++ write_table strtab ++
        le_bytes 4 (zlen (temps ctx)) ++ concat (zip_with write_temp (temps ctx) name_indices) ++
        le_bytes 4 (zlen (ops ctx)) ++ concat ops_bytes).

(** ** Reading *)

Definition val_type_of (kind : TempKind.t) : TempVal.t :=
  match kind with
  | TempKind.Const => TempVal.Const
  | TempKind.Fixed => TempVal.Reg
  | TempKind.Global => TempVal.Mem
  | _ => TempVal.Dead
  end.

(** [strtab[name_idx as usize]] panics out of range. *)
Definition read_temp (strtab : list string) (i : Z) : Reader Temp.t :=
  get! v := read_u8;
  get! kind := rlift InvalidData (u8_to_kind v);
  get! v := read_u8;
  get! ty := rlift InvalidData (u8_to_type v);
  get! v := read_u8;
  get! base_type := rlift InvalidData (u8_to_type v);
  get! reg_byte := read_u8;
  let reg := if reg_byte =? 0xFF then None else Some reg_byte in
  get! val := read_u64;
  get! mem_base_raw := read_u32;
  let mem_base := if mem_base_raw =? NONE32 then None else Some mem_base_raw in
  get! mem_offset := read_i64;
  get! name_idx := read_u32;
  get! name := (if name_idx =? NONE32 then rret None
                else get! s := rlift Panicked (strtab.[name_idx]); rret (Some s));
  let is_global := bool_decide (kind = TempKind.Global) in
  rret (Temp.mk i ty base_type kind (val_type_of kind) reg is_global is_global val mem_base
          mem_offset name).

Definition read_op (i : Z) : Reader Op.t :=
  get! v := read_u8;
  get! opc := rlift InvalidData (u8_to_opcode v);
  get! v := read_u8;
  get! op_type := rlift InvalidData (u8_to_type v);
  get! param1 := read_u8;
  get! param2 := read_u8;
  get! nargs := read_u8;
  get! _ := read_exact 3;
  let n := Z.min nargs MAX_OP_ARGS in
  get! args := rrepeat (Z.to_nat n) read_u32;
  rret (Op.mk i opc op_type param1 param2 0 [RegSet.EMPTY; RegSet.EMPTY]
          (args ++ replicate (Z.to_nat (MAX_OP_ARGS - n)) 0) nargs).

(** [for i in 0..count] *)
Fixpoint read_indexed {A} (p : Z → Reader A) (i : Z) (n : nat) : Reader (list A) :=
  match n with
  | O => rret []
  | S n => get! x := p i; get! l := read_indexed p (i + 1) n; rret (x :: l)
  end.

(** [while labels.len() <= id as usize { labels.push(..) }] *)
Definition grow_labels (ls : list Label.t) (id : Z) : list Label.t :=
  ls ++ map Label.new (seqZ (zlen ls) (id + 1 - zlen ls)).

(** One op of the label loop. *)
Definition op_labels (ls : list Label.t) (op : Op.t) : option (list Label.t) :=
  ls ← (if decide (Op.opc op = Opcode.SetLabel) then
          id ← (Op.args op).[0]; Some (grow_labels ls id)
        else Some ls);
  if decide (Op.opc op = Opcode.Br ∨ Op.opc op = Opcode.BrCond) then
    let d := def (Op.opc op) in
    id ← (Op.args op).[nb_oargs d + nb_iargs d + nb_cargs d - 1];
    Some (grow_labels ls id)
  else Some ls.

Fixpoint labels_of (ls : list Label.t) (os : list Op.t) : option (list Label.t) :=
  match os with [] => Some ls | o :: os => ls ← op_labels ls o; labels_of ls os end.

Definition deserialize_one_tb (nb_globals : Z) : Reader Context :=
  get! strtab := read_string_table;
  get! temp_count := read_u32;
  get! temps := read_indexed (read_temp strtab) 0 (Z.to_nat temp_count);
  get! op_count := read_u32;
  get! ops := read_indexed read_op 0 (Z.to_nat op_count);
  get! labels := rlift Panicked (labels_of [] ops);
  rret (from_raw_parts temps ops labels nb_globals).

(** The part of an iteration after the magic. *)
Definition deserialize_file : Reader (list Context) :=
  get! version := read_u16;
  if negb (version =? VERSION) then rfail InvalidData
  else
    get! _ := read_u16;
    get! nb_globals := read_u32;
    get! _ := read_u32;
    get! tb_count := read_u32;
    rrepeat (Z.to_nat tb_count) (deserialize_one_tb nb_globals).

(** The end of input where a magic would start ends the loop.  Each round consumes
    its magic, so the length of the input is enough fuel. *)
Fixpoint deserialize_loop (fuel : nat) (acc : list Context) (s : list Z) : res (list Context) :=
  match read_exact 4 s with
  | Fail _ => Ok acc s
  | Ok magic s =>
    match fuel with
    | O => Fail Panicked
    | S fuel =>
      if negb (bool_decide (magic = MAGIC)) then Fail InvalidData
      else
        match deserialize_file s with
        | Ok l s => deserialize_loop fuel (acc ++ l) s
        | Fail e => Fail e
        end
    end
  end.

Definition deserialize (s : list Z) : res (list Context) := deserialize_loop (length s) [] s.

(** A context of two temps and two ops, there and back. *)
Definition example_ir : Context :=
  from_raw_parts
    [Temp.new_fixed 0 Type_.I64 5 "env"; Temp.new_global 1 Type_.I64 0 8 "pc"]
    [Op.with_args 0 Opcode.SetLabel Type_.I64 [0];
     Op.with_args 1 Opcode.Mov Type_.I64 [1; 1]]
    [Label.new 0] 2.

Example example_ir_bytes :
  (b ← serialize example_ir; Some (deserialize (b ++ b))) =
    Some (Ok [example_ir; example_ir] []).
Proof. vm_compute. reflexivity. Qed.

(** ** Readers on encodings *)

(** [p] reads exactly [bs] as [a]. *)
Definition reads {A} (p : Reader A) (bs : list Z) (a : A) : Prop := ∀ s, p (bs ++ s) = Ok a s.

Lemma reads_ret {A} (a : A) : reads (rret a) [] a.
Proof. done. Qed.

Lemma reads_bind {A B} (p : Reader A) (k : A → Reader B) b1 b2 a b :
  reads p b1 a → reads (k a) b2 b → reads (rbind p k) (b1 ++ b2) b.
Proof. intros H1 H2 s. unfold rbind. by rewrite <- (assoc app), H1. Qed.

Lemma reads_bind_last {A B} (p : Reader A) (k : A → Reader B) bs a b :
  reads p bs a → reads (k a) [] b → reads (rbind p k) bs b.
Proof. intros H1 H2 s. unfold rbind. rewrite H1. exact (H2 s). Qed.

(** The last step of a reader returns. *)
Lemma reads_map {A B} (p : Reader A) (f : A → B) bs a :
  reads p bs a → reads (rbind p (λ a, rret (f a))) bs (f a).
Proof. intros Hp s. unfold rbind. by rewrite Hp. Qed.

Lemma reads_lift {A B} e x (a : A) (k : A → Reader B) bs b :
  x = Some a → reads (k a) bs b → reads (rbind (rlift e x) k) bs b.
Proof. intros -> Hk s. apply Hk. Qed.

Lemma reads_exact bs n : length bs = n → reads (read_exact n) bs bs.
Proof.
  intros <- s. unfold read_exact. rewrite decide_True by (rewrite length_app; lia).
  by rewrite take_app_length, drop_app_length.
Qed.

Lemma reads_le n v :
  0 ≤ v < 2 ^ (8 * Z.of_nat n) →
  reads (get! b := read_exact n; rret (le_value b)) (le_bytes n v) v.
Proof.
  intros Hv s. pose proof (reads_map (read_exact n) le_value (le_bytes n v) (le_bytes n v)
    (reads_exact _ _ (le_bytes_length n v)) s) as Hr.
  rewrite le_value_bytes, Z.mod_small in Hr by done. exact Hr.
Qed.

Lemma reads_u8 v : 0 ≤ v < 2 ^ 8 → reads read_u8 (le_bytes 1 v) v.
Proof. apply (reads_le 1). Qed.
Lemma reads_u16 v : 0 ≤ v < 2 ^ 16 → reads read_u16 (le_bytes 2 v) v.
Proof. apply (reads_le 2). Qed.
Lemma reads_u32 v : 0 ≤ v < 2 ^ 32 → reads read_u32 (le_bytes 4 v) v.
Proof. apply (reads_le 4). Qed.
Lemma reads_u64 v : 0 ≤ v < 2 ^ 64 → reads read_u64 (le_bytes 8 v) v.
Proof. apply (reads_le 8). Qed.

Lemma reads_i64 v : - 2 ^ 63 ≤ v < 2 ^ 63 → reads read_i64 (le_bytes 8 v) v.
Proof.
  intros Hv s. pose proof (reads_map (read_exact 8) (λ b, i64 (le_value b)) _ _
    (reads_exact _ _ (le_bytes_length 8 v)) s) as Hr.
  cbv beta in Hr. rewrite le_value_bytes in Hr. unfold i64 in Hr. change (8 * Z.of_nat 8) with 64 in Hr.
  rewrite (signed_of_mod 64), (signed_small 64) in Hr by lia. exact Hr.
Qed.

Lemma reads_repeat {A} (p : Reader A) bss l :
  Forall2 (reads p) bss l → reads (rrepeat (length l) p) (concat bss) l.
Proof.
  induction 1 as [|bs a bss l Ha _ IH]; [apply reads_ret|]. cbn [concat length rrepeat].
  eapply reads_bind; [exact Ha|]. by apply (reads_map _ (cons a)).
Qed.

Lemma reads_indexed {A} (p : Z → Reader A) i bss l :
  length bss = length l →
  (∀ k bs a, bss !! k = Some bs → l !! k = Some a → reads (p (i + Z.of_nat k)) bs a) →
  reads (read_indexed p i (length l)) (concat bss) l.
Proof.
  revert i bss. induction l as [|a l IH]; intros i [|bs bss] Hlen Hp; try done.
  cbn [concat length read_indexed]. eapply reads_bind.
  - rewrite <- (Z.add_0_r i) at 1. by apply (Hp 0%nat).
  - apply (reads_map _ (cons a)), IH; [by injection Hlen|]. intros k b x Hb Hx.
    replace (i + 1 + Z.of_nat k) with (i + Z.of_nat (S k)) by lia. by apply Hp.
Qed.

(** ** Enumerations and strings *)

Lemma kind_roundtrip k : u8_to_kind (TempKind.discr k) = Some k ∧ 0 ≤ TempKind.discr k < 2 ^ 8.
Proof. destruct k; split; (done || (cbn; lia)). Qed.

Lemma type_roundtrip ty : u8_to_type (Type_.discr ty) = Some ty ∧ 0 ≤ Type_.discr ty < 2 ^ 8.
Proof. destruct ty; split; (done || (cbn; lia)). Qed.

Lemma opcode_roundtrip o : u8_to_opcode (Opcode.discr o) = Some o ∧ 0 ≤ Opcode.discr o < 2 ^ 8.
Proof.
  pose proof (Opcode.discr_range o) as Hr. unfold u8_to_opcode, Opcode.Count in *.
  rewrite (proj2 (Z.ltb_lt _ _)) by lia. split; [|lia].
  rewrite zlookup_nat by lia. apply Opcode.all_discr.
Qed.

Lemma string_roundtrip s : string_of_bytes (as_bytes s) = s.
Proof.
  unfold string_of_bytes, as_bytes. rewrite map_map.
  rewrite <- (String.string_of_list_ascii_of_string s) at 2. f_equal.
  rewrite <- map_id. apply map_ext. intros c. by rewrite N2Z.id, Ascii.ascii_N_embedding.
Qed.

(** What a name must satisfy for its length to fit the format. *)
Definition name_ok (s : string) : Prop := valid_utf8 (as_bytes s) = true ∧ zlen (as_bytes s) < 2 ^ 16.

Lemma reads_string s : name_ok s → reads read_string (write_string s) s.
Proof.
  intros [Hu Hl]. pose proof (zlen_nonneg (as_bytes s)). unfold read_string, write_string.
  eapply reads_bind; [by apply reads_u16|].
  eapply reads_bind_last; [apply reads_exact; unfold zlen; lia|].
  rewrite Hu, string_roundtrip. apply reads_ret.
Qed.

(** ** Records of the format *)

(** A temp whose fields fit the format; [0xFF] and [0xFFFFFFFF] stand for [None]. *)
Record temp_ok (t : Temp.t) : Prop := {
  to_reg r : Temp.reg t = Some r → 0 ≤ r < 0xFF;
  to_val : in_width 64 (Temp.val t);
  to_base b : Temp.mem_base t = Some b → 0 ≤ b < NONE32;
  to_offset : - 2 ^ 63 ≤ Temp.mem_offset t < 2 ^ 63;
  to_name s : Temp.name t = Some s → name_ok s
}.

Record op_ok (o : Op.t) : Prop := {
  oo_params : in_width 8 (Op.param1 o) ∧ in_width 8 (Op.param2 o);
  oo_nargs : 0 ≤ Op.nargs o ≤ MAX_OP_ARGS;
  oo_args : length (Op.args o) = 10%nat ∧ Forall (in_width 32) (Op.args o)
}.

(** What is left of a temp and of an op: the state of register allocation and of
    the passes is not stored. *)
Definition stored_temp (i : Z) (t : Temp.t) : Temp.t :=
  let is_global := bool_decide (Temp.kind t = TempKind.Global) in
  Temp.mk i (Temp.ty t) (Temp.base_type t) (Temp.kind t) (val_type_of (Temp.kind t)) (Temp.reg t)
    is_global is_global (Temp.val t) (Temp.mem_base t) (Temp.mem_offset t) (Temp.name t).

Definition stored_op (i : Z) (o : Op.t) : Op.t :=
  Op.mk i (Op.opc o) (Op.op_type o) (Op.param1 o) (Op.param2 o) 0 [RegSet.EMPTY; RegSet.EMPTY]
    (take (Z.to_nat (Op.nargs o)) (Op.args o) ++ replicate (Z.to_nat (MAX_OP_ARGS - Op.nargs o)) 0)
    (Op.nargs o).

(** The table resolves a name index. *)
Definition resolves (strtab : list string) (idx : Z) (name : option string) : Prop :=
  match name with
  | None => idx = NONE32
  | Some s => 0 ≤ idx < NONE32 ∧ strtab.[idx] = Some s
  end.

Lemma reads_temp strtab i t idx :
  temp_ok t → resolves strtab idx (Temp.name t) →
  reads (read_temp strtab i) (write_temp t idx) (stored_temp i t).
Proof.
  intros [Hr Hv Hb Ho _] Hn. unfold read_temp, write_temp.
  destruct (kind_roundtrip (Temp.kind t)) as [Hk ?], (type_roundtrip (Temp.ty t)) as [Hty ?],
    (type_roundtrip (Temp.base_type t)) as [Hbt ?].
  eapply reads_bind; [by apply reads_u8|]. eapply reads_lift; [exact Hk|].
  eapply reads_bind; [by apply reads_u8|]. eapply reads_lift; [exact Hty|].
  eapply reads_bind; [by apply reads_u8|]. eapply reads_lift; [exact Hbt|].
  eapply reads_bind.
  { apply reads_u8. destruct (Temp.reg t) as [r|]; [specialize (Hr r eq_refl); cbn; lia|by cbn]. }
  eapply reads_bind; [by apply reads_u64|].
  eapply reads_bind.
  { apply reads_u32. destruct (Temp.mem_base t) as [b|]; [specialize (Hb b eq_refl)|];
      unfold NONE32 in *; cbn; lia. }
  eapply reads_bind; [by apply reads_i64|].
  assert (0 ≤ idx < 2 ^ 32) as Hidx.
  { unfold resolves, NONE32 in Hn. destruct (Temp.name t); lia. }
  eapply reads_bind_last; [by apply reads_u32|].
  assert ((if default 0xFF (Temp.reg t) =? 0xFF then None else Some (default 0xFF (Temp.reg t)))
    = Temp.reg t) as ->.
  { destruct (Temp.reg t) as [r|]; [|done]. specialize (Hr r eq_refl). cbn [default from_option id].
    by rewrite (proj2 (Z.eqb_neq _ _)) by lia. }
  assert ((if default NONE32 (Temp.mem_base t) =? NONE32 then None
           else Some (default NONE32 (Temp.mem_base t))) = Temp.mem_base t) as ->.
  { destruct (Temp.mem_base t) as [b|]; [|done]. specialize (Hb b eq_refl). cbn [default from_option id].
    by rewrite (proj2 (Z.eqb_neq _ _)) by lia. }
  unfold stored_temp. destruct (Temp.name t) as [s|]; cbn [resolves] in Hn.
  - destruct Hn as [Hlt Hs]. rewrite (proj2 (Z.eqb_neq _ _)) by lia.
    intros s'. unfold rbind, rlift. rewrite Hs. done.
  - subst idx. intros s'. unfold rbind. by rewrite Z.eqb_refl.
Qed.

Lemma mapM_args (a : list Z) n :
  0 ≤ n ≤ zlen a → mapM (λ i, a.[i]) (seqZ 0 n) = Some (take (Z.to_nat n) a).
Proof.
  intros Hn. apply mapM_Some_2, Forall2_same_length_lookup. unfold zlen in *.
  rewrite length_seqZ, length_take. split; [lia|].
  intros k i x Hi Hx. apply lookup_seqZ in Hi as [-> ?]. apply lookup_take_Some in Hx as [Hx _].
  by rewrite Z.add_0_l, zlookup_of_nat.
Qed.

Lemma reads_op i o :
  op_ok o → ∃ bs, write_op o = Some bs ∧ reads (read_op i) bs (stored_op i o).
Proof.
  intros [[Hp1 Hp2] Hn [Hl Ha]]. unfold MAX_OP_ARGS in *. unfold write_op.
  rewrite mapM_args by (unfold zlen; lia). cbn [mbind option_bind]. eexists. split; [done|].
  destruct (opcode_roundtrip (Op.opc o)) as [Ho ?], (type_roundtrip (Op.op_type o)) as [Hty ?].
  unfold read_op. eapply reads_bind; [by apply reads_u8|]. eapply reads_lift; [exact Ho|].
  eapply reads_bind; [by apply reads_u8|]. eapply reads_lift; [exact Hty|].
  eapply reads_bind; [by apply reads_u8|]. eapply reads_bind; [by apply reads_u8|].
  eapply reads_bind; [apply reads_u8; lia|]. eapply (reads_bind _ _ [0; 0; 0]); [by apply reads_exact|].
  unfold stored_op, MAX_OP_ARGS. rewrite Z.min_l by lia.
  eapply (reads_map _ (λ args, Op.mk i _ _ _ _ 0 _ (args ++ _) _)).
  set (a := take (Z.to_nat (Op.nargs o)) (Op.args o)).
  assert (length a = Z.to_nat (Op.nargs o)) as <- by (unfold a; rewrite length_take; lia).
  apply reads_repeat. apply Forall2_fmap_l, Forall_Forall2_diag.
  eapply Forall_impl; [by apply Forall_take|]. intros x Hx. by apply reads_u32.
Qed.

(** ** The string table *)

Record table_ok (tab : StringTable) : Prop := {
  tab_index s i : index_of tab !! s = Some i → (strings tab).[i] = Some s;
  tab_names : Forall name_ok (strings tab)
}.

Lemma intern_spec tab s :
  table_ok tab → name_ok s → zlen (strings tab) < NONE32 →
  let '(i, tab') := intern tab s in
  table_ok tab' ∧ (strings tab').[i] = Some s ∧ 0 ≤ i < NONE32 ∧
  strings tab `prefix_of` strings tab' ∧ zlen (strings tab') ≤ zlen (strings tab) + 1.
Proof.
  intros Htab Hs Hlt; pose proof Htab as [Hi Hn]. unfold intern. destruct (index_of tab !! s) as [i|] eqn:Hl.
  - specialize (Hi _ _ Hl). pose proof (zlookup_lt_Some _ _ _ Hi). split_and!; [done|done|lia|lia|exists []; by rewrite app_nil_r|lia].
  - pose proof (zlen_nonneg (strings tab)). unfold NONE32 in *. rewrite u32_small by lia.
    cbn [strings]. split_and!; try lia.
    + split; cbn [strings index_of].
      * intros s' i. rewrite lookup_insert. case_decide as He; [|intros ?%Hi; by apply zlookup_app_Some].
        subst. intros Hx. apply (inj Some) in Hx as <-. apply zlookup_snoc.
      * apply Forall_app; split; [done|]. by constructor.
    + apply zlookup_snoc.
    + by apply prefix_app_r.
    + rewrite zlen_app, zlen_one. lia.
Qed.

Lemma resolves_prefix l l' i name : l `prefix_of` l' → resolves l i name → resolves l' i name.
Proof. intros [k ->]. destruct name; [|done]. intros [? ?]. split; [done|]. by apply zlookup_app_Some. Qed.

Lemma intern_names_spec ts tab :
  table_ok tab → Forall temp_ok ts → zlen (strings tab) + zlen ts < NONE32 →
  let '(l, tab') := intern_names tab ts in
  table_ok tab' ∧ length l = length ts ∧ strings tab `prefix_of` strings tab' ∧
  zlen (strings tab') ≤ zlen (strings tab) + zlen ts ∧
  ∀ k i t, l !! k = Some i → ts !! k = Some t → resolves (strings tab') i (Temp.name t).
Proof.
  intros Htab Hts. revert tab Htab. induction Hts as [|t ts Ht Hts IH]; intros tab Htab Hlen.
  { cbn [intern_names]. split_and!; [done..|change (zlen (@nil Temp.t)) with 0; lia|].
    intros k i t Hk. by rewrite lookup_nil in Hk. }
  assert (zlen (t :: ts) = zlen ts + 1) as Hz by (unfold zlen; cbn; lia). rewrite Hz in *.
  pose proof (zlen_nonneg ts). cbn [intern_names].
  assert (let '(i, tab') := match Temp.name t with Some nm => intern tab nm | None => (NONE32, tab) end in
    table_ok tab' ∧ resolves (strings tab') i (Temp.name t) ∧ strings tab `prefix_of` strings tab' ∧
    zlen (strings tab') ≤ zlen (strings tab) + 1) as H1.
  { destruct (Temp.name t) as [s|] eqn:Hn.
    - pose proof (intern_spec tab s Htab (to_name _ Ht _ Hn) ltac:(lia)) as Hi.
      destruct (intern tab s) as [i tab']. destruct Hi as (? & ? & ? & ? & ?). by split_and!.
    - split_and!; try done. lia. }
  destruct (match Temp.name t with Some nm => intern tab nm | None => (NONE32, tab) end) as [i tab1].
  destruct H1 as (Htab1 & Hres & Hpre & Hl1). specialize (IH tab1 Htab1 ltac:(lia)).
  destruct (intern_names tab1 ts) as [l tab2]. destruct IH as (? & Hll & Hpre2 & ? & Hall).
  split_and!; [done|cbn; by rewrite Hll|by etrans|lia|].
  intros [|k] j u Hj Hu; cbn in Hj, Hu; [|by eapply Hall].
  injection Hj as <-. injection Hu as <-. by eapply resolves_prefix.
Qed.

Lemma reads_table tab :
  table_ok tab → zlen (strings tab) < 2 ^ 32 →
  reads read_string_table (write_table tab) (strings tab).
Proof.
  intros [_ Hn] Hl. pose proof (zlen_nonneg (strings tab)). unfold read_string_table, write_table.
  eapply reads_bind; [by apply reads_u32|].
  replace (Z.to_nat (zlen (strings tab))) with (length (strings tab)) by (unfold zlen; lia).
  apply reads_repeat. apply Forall2_fmap_l, Forall_Forall2_diag.
  eapply Forall_impl; [exact Hn|]. apply reads_string.
Qed.

(** ** Whole contexts *)

Record context_ok (c : Context) : Prop := {
  co_temps : Forall temp_ok (temps c) ∧ zlen (temps c) < NONE32;
  co_ops : Forall op_ok (ops c) ∧ zlen (ops c) < 2 ^ 32;
  co_counts : in_width 32 (nb_globals c) ∧ zlen (labels c) < 2 ^ 32
}.

(** What a file keeps of a context: temps and ops without the state of later passes,
    and as many fresh labels as the ops name. *)
Definition stored_context (c : Context) : option Context :=
  let ts := imap (λ i, stored_temp (Z.of_nat i)) (temps c) in
  let os := imap (λ i, stored_op (Z.of_nat i)) (ops c) in
  ls ← labels_of [] os;
  Some (from_raw_parts ts os ls (nb_globals c)).

Lemma stored_op_ok i o : op_ok o → op_ok (stored_op i o).
Proof.
  intros [Hp Hn [Hl Ha]]. unfold MAX_OP_ARGS in *. split; try done.
  unfold stored_op, MAX_OP_ARGS. cbn [Op.args].
  rewrite length_app, length_take, length_replicate. split; [lia|].
  apply Forall_app; split; [by apply Forall_take|]. by apply Forall_replicate.
Qed.

Lemma op_labels_total ls o : op_ok o → is_Some (op_labels ls o).
Proof.
  intros [_ _ [Hl _]]. assert (∀ k, 0 ≤ k < 10 → is_Some ((Op.args o).[k])) as Hk.
  { intros k ?. apply zlookup_lt_is_Some. unfold zlen. lia. }
  unfold op_labels. destruct (Hk 0 ltac:(lia)) as [x0 Hx0]. rewrite Hx0. cbn [mbind option_bind].
  destruct (decide (Op.opc o = Opcode.SetLabel)) as [Hs|Hs]; cbn [mbind option_bind].
  - rewrite decide_False by (rewrite Hs; by intros [|]). eauto.
  - destruct (decide (Op.opc o = Opcode.Br ∨ Op.opc o = Opcode.BrCond)) as [Hb|Hb]; [|eauto].
    destruct (Hk (nb_oargs (def (Op.opc o)) + nb_iargs (def (Op.opc o)) + nb_cargs (def (Op.opc o)) - 1))
      as [x Hx]; [by destruct Hb as [-> | ->]; vm_compute|].
    rewrite Hx. cbn [mbind option_bind]. eauto.
Qed.

Lemma labels_of_total os ls : Forall op_ok os → is_Some (labels_of ls os).
Proof.
  intros Ho. revert ls. induction Ho as [|o os Ho _ IH]; intros ls; [by eexists|].
  cbn. destruct (op_labels_total ls o Ho) as [ls' ->]. apply IH.
Qed.

Lemma Forall_imap {A B} (P : A → Prop) (Q : B → Prop) (f : nat → A → B) l :
  Forall P l → (∀ i x, P x → Q (f i x)) → Forall Q (imap f l).
Proof.
  intros Hl Hf. apply Forall_lookup. intros i y Hy. rewrite list_lookup_imap in Hy.
  apply fmap_Some in Hy as (x & Hx & ->). rewrite Forall_lookup in Hl. eauto.
Qed.

Lemma stored_context_total c : context_ok c → is_Some (stored_context c).
Proof.
  intros [_ [Ho _] _]. unfold stored_context.
  destruct (labels_of_total (imap (λ i, stored_op (Z.of_nat i)) (ops c)) []) as [ls Hls].
  { apply (Forall_imap op_ok); [done|]. intros i o. apply stored_op_ok. }
  rewrite Hls. cbn [mbind option_bind]. eauto.
Qed.

(** The bytes of one file, after its magic. *)
Lemma serialize_spec c :
  context_ok c → ∃ body c', serialize c = Some (MAGIC ++ body) ∧ stored_context c = Some c' ∧
    reads deserialize_file body [c'].
Proof.
  intros Hok. pose proof Hok as [[Hts Htl] [Hos Hol] [Hng Hll]].
  destruct (stored_context_total c Hok) as [c' Hc']. pose proof (zlen_nonneg (temps c)).
  pose proof (zlen_nonneg (ops c)). pose proof (zlen_nonneg (labels c)).
  pose proof (intern_names_spec (temps c) table_new) as Hnames.
  specialize (Hnames ltac:(split; [intros s i Hs; cbn [index_of table_new] in Hs; by rewrite lookup_empty in Hs|constructor]) Hts
    ltac:(change (zlen (strings table_new)) with 0; lia)).
  unfold serialize. destruct (intern_names table_new (temps c)) as [idxs tab].
  destruct Hnames as (Htab & Hidx & _ & Htl' & Hres). change (zlen (strings table_new)) with 0 in Htl'.
  assert (∃ obs, mapM write_op (ops c) = Some obs ∧ length obs = length (ops c) ∧
    ∀ k b o, obs !! k = Some b → imap (λ i, stored_op (Z.of_nat i)) (ops c) !! k = Some o →
      reads (read_op (0 + Z.of_nat k)) b o) as (obs & Hobs & Holen & Hor).
  { assert (Forall (λ o, is_Some (write_op o)) (ops c)) as Hw.
    { eapply Forall_impl; [exact Hos|]. intros o Ho. destruct (reads_op 0 o Ho) as (? & ? & _). eauto. }
    apply mapM_is_Some_2 in Hw as [obs Hobs]. exists obs. split; [done|].
    apply mapM_Some_1 in Hobs. split; [by eapply eq_sym, Forall2_length|]. intros k b o Hb Ho.
    rewrite list_lookup_imap in Ho. apply fmap_Some in Ho as (o0 & Ho0 & ->).
    rewrite Forall_lookup in Hos. destruct (reads_op (0 + Z.of_nat k) o0 (Hos _ _ Ho0)) as (b' & Hb' & Hr).
    rewrite Z.add_0_l in Hr |- *. pose proof (Forall2_lookup_lr _ _ _ _ _ _ Hobs Ho0 Hb) as Hw.
    cbn in Hw. by assert (b' = b) as -> by congruence. }
  rewrite Hobs. cbn [mbind option_bind]. unfold stored_context in Hc'. unfold NONE32 in *.
  apply bind_Some in Hc' as (ls & Hls & Hc'). apply (inj Some) in Hc' as <-.
  eexists _, _. split; [rewrite <- !(assoc app); reflexivity|].
  split; [unfold stored_context; rewrite Hls; reflexivity|].
  unfold deserialize_file. eapply reads_bind; [apply reads_u16; unfold VERSION; lia|].
  change (negb (VERSION =? VERSION)) with false. cbv iota.
  eapply reads_bind; [apply reads_u16; lia|]. eapply reads_bind; [by apply reads_u32|].
  eapply reads_bind; [apply reads_u32; lia|]. eapply reads_bind; [apply reads_u32; lia|].
  change (Z.to_nat 1) with 1%nat. cbn [rrepeat].
  eapply reads_bind_last; [|by apply (reads_map _ (cons _))].
  unfold deserialize_one_tb. eapply reads_bind; [apply reads_table; [done|lia]|].
  eapply reads_bind; [apply reads_u32; lia|].
  eapply reads_bind.
  { replace (Z.to_nat (zlen (temps c))) with
      (length (imap (λ i, stored_temp (Z.of_nat i)) (temps c))) by (rewrite length_imap; unfold zlen; lia).
    apply reads_indexed; [rewrite length_zip_with, length_imap; lia|].
    intros k b t Hb Ht. rewrite list_lookup_imap in Ht. apply fmap_Some in Ht as (t0 & Ht0 & ->).
    apply lookup_zip_with_Some in Hb as (t1 & j & -> & Ht1 & Hj).
    assert (t1 = t0) as -> by congruence. rewrite Forall_lookup in Hts. rewrite Z.add_0_l.
    apply reads_temp; eauto. }
  eapply reads_bind; [apply reads_u32; lia|].
  eapply reads_bind_last.
  { replace (Z.to_nat (zlen (ops c))) with
      (length (imap (λ i, stored_op (Z.of_nat i)) (ops c))) by (rewrite length_imap; unfold zlen; lia).
    apply reads_indexed; [by rewrite length_imap|done]. }
  eapply reads_lift; [exact Hls|]. apply reads_ret.
Qed.

Lemma stored_temp_idem i t : stored_temp i (stored_temp i t) = stored_temp i t.
Proof. done. Qed.

Lemma stored_op_idem i o : op_ok o → stored_op i (stored_op i o) = stored_op i o.
Proof.
  intros [_ Hn [Hl _]]. unfold MAX_OP_ARGS in *. unfold stored_op at 1. cbn [Op.args Op.nargs].
  unfold stored_op, MAX_OP_ARGS. cbn [Op.opc Op.op_type Op.param1 Op.param2 Op.args Op.nargs].
  do 2 f_equal. rewrite take_app_length' by (rewrite length_take; lia). done.
Qed.

Lemma imap_idem {A} (f : nat → A → A) l :
  (∀ i x, l !! i = Some x → f i (f i x) = f i x) → imap f (imap f l) = imap f l.
Proof.
  intros Hf. apply list_eq. intros i. rewrite !list_lookup_imap.
  destruct (l !! i) as [x|] eqn:Hx; [|done]. cbn. f_equal. by apply Hf.
Qed.

Lemma stored_context_idem c c' :
  context_ok c → stored_context c = Some c' → stored_context c' = Some c'.
Proof.
  intros [_ [Hos _] _] Hc. unfold stored_context in Hc. apply bind_Some in Hc as (ls & Hls & Hc).
  apply (inj Some) in Hc as <-. unfold stored_context, from_raw_parts. cbn [temps ops nb_globals].
  rewrite !imap_idem; [by rewrite Hls| |by intros; apply stored_temp_idem].
  intros i o Ho. rewrite Forall_lookup in Hos. apply stored_op_idem. by eapply Hos.
Qed.

Lemma deserialize_loop_spec bodies cs fuel acc :
  Forall2 (λ b c, reads deserialize_file b [c]) bodies cs → (length bodies ≤ fuel)%nat →
  deserialize_loop fuel acc (concat (map (app MAGIC) bodies)) = Ok (acc ++ cs) [].
Proof.
  intros Hr. revert fuel acc. induction Hr as [|b c bodies cs Hb _ IH]; intros fuel acc Hf.
  { rewrite app_nil_r. by destruct fuel. }
  destruct fuel as [|fuel]; simpl in Hf; [lia|]. cbn [map concat deserialize_loop].
  rewrite <- (assoc app). rewrite (reads_exact MAGIC 4 eq_refl).
  rewrite bool_decide_eq_true_2 by done. cbn [negb]. rewrite Hb.
  rewrite IH by lia. by rewrite <- (assoc app).
Qed.

(** C26. The binary format: contexts whose fields fit serialize without panicking;
    the concatenation of the files reads back as exactly what the format keeps of
    each context, in order and with nothing left over; and what is read is a
    fixed point, so writing it and reading it again changes nothing. *)
Theorem serialize_roundtrip cs :
  Forall context_ok cs →
  ∃ bss cs', mapM serialize cs = Some bss ∧ mapM stored_context cs = Some cs' ∧
    deserialize (concat bss) = Ok cs' [] ∧ Forall (λ c, stored_context c = Some c) cs'.
Proof.
  intros Hok.
  assert (∃ bodies cs', mapM serialize cs = Some (map (app MAGIC) bodies) ∧
    mapM stored_context cs = Some cs' ∧ Forall2 (λ b c, reads deserialize_file b [c]) bodies cs' ∧
    Forall (λ c, stored_context c = Some c) cs') as (bodies & cs' & Hs & Hc & Hr & Hi).
  { induction Hok as [|c cs Hc _ (bodies & cs' & Hs & Hc' & Hr & Hi)]; [by exists [], []|].
    destruct (serialize_spec c Hc) as (b & c' & Hb & Hst & Hrb). exists (b :: bodies), (c' :: cs').
    cbn. rewrite Hb, Hs, Hst, Hc'. split_and!; try done; constructor; try done.
    by eapply stored_context_idem. }
  exists (map (app MAGIC) bodies), cs'. split_and!; try done.
  unfold deserialize. rewrite (deserialize_loop_spec bodies cs'); try done.
  clear. induction bodies as [|b bodies IH]; [done|]. cbn [map concat].
  rewrite !length_app. change (length MAGIC) with 4%nat. cbn [length]. lia.
Qed.

Lemma example_ir_ok : context_ok example_ir.
Proof.
  assert (name_ok "env" ∧ name_ok "pc") as [? ?] by (split; by vm_compute).
  split; (split; [|by vm_compute]).
  - apply Forall_cons; split; [|apply Forall_cons; split; [|constructor]];
      split; cbn; unfold in_width, NONE32; try lia; try done;
      try (intros ? [= <-]; lia); by intros ? [= <-].
  - apply Forall_cons; split; [|apply Forall_cons; split; [|constructor]];
      split; try (by split); by apply (bool_decide_unpack _).
  - by vm_compute.
Qed.

Lemma serialize_roundtrip_witness :
  ∃ bss cs', mapM serialize [example_ir; example_ir] = Some bss ∧
    mapM stored_context [example_ir; example_ir] = Some cs' ∧ deserialize (concat bss) = Ok cs' [].
Proof.
  destruct (serialize_roundtrip [example_ir; example_ir]) as (bss & cs' & H1 & H2 & H3 & _);
    [exact (Forall_cons_2 _ _ _ example_ir_ok (Forall_cons_2 _ _ _ example_ir_ok (Forall_nil_2 _)))|].
  exists bss, cs'. split; [exact H1|split; [exact H2|exact H3]].
Defined.

(** ** Truncated and foreign input *)

(** A reader that meets more input than it consumed would have done the same; only
    an unexpected end may be cured by more input. *)
Class Streaming {A} (p : Reader A) : Prop :=
  streaming s t :
    match p s with
    | Ok a r => p (s ++ t) = Ok a (r ++ t)
    | Fail UnexpectedEof => True
    | Fail e => p (s ++ t) = Fail e
    end.

#[export] Instance streaming_ret {A} (a : A) : Streaming (rret a).
Proof. done. Qed.

#[export] Instance streaming_fail {A} e : Streaming (@rfail A e).
Proof. intros s t. by destruct e. Qed.

#[export] Instance streaming_lift {A} e (x : option A) : Streaming (rlift e x).
Proof. destruct x; apply _. Qed.

#[export] Instance streaming_exact n : Streaming (read_exact n).
Proof.
  intros s t. unfold read_exact. case_decide as Hn; [|done].
  rewrite decide_True by (rewrite length_app; lia).
  by rewrite take_app_le, drop_app_le by lia.
Qed.

#[export] Instance streaming_bind {A B} (p : Reader A) (k : A → Reader B) :
  Streaming p → (∀ a, Streaming (k a)) → Streaming (rbind p k).
Proof.
  intros Hp Hk s t. unfold rbind. specialize (Hp s t). destruct (p s) as [a r|[]]; [|done|..].
  - rewrite Hp. apply Hk.
  - by rewrite Hp.
  - by rewrite Hp.
Qed.

#[export] Instance streaming_if {A} (b : bool) (p q : Reader A) :
  Streaming p → Streaming q → Streaming (if b then p else q).
Proof. by destruct b. Qed.

#[export] Instance streaming_repeat {A} n (p : Reader A) : Streaming p → Streaming (rrepeat n p).
Proof. intros Hp. induction n; apply _. Qed.

#[export] Instance streaming_indexed {A} (p : Z → Reader A) i n :
  (∀ i, Streaming (p i)) → Streaming (read_indexed p i n).
Proof. intros Hp. revert i. induction n; intros i; apply _. Qed.

#[export] Instance streaming_file : Streaming deserialize_file.
Proof. apply _. Qed.

(** A strict prefix of what a reader consumes ends too early. *)
Lemma streaming_prefix {A} (p : Reader A) `{!Streaming p} bs a k :
  reads p bs a → (k < length bs)%nat → p (take k bs) = Fail UnexpectedEof.
Proof.
  intros Hr Hk. pose proof (streaming (take k bs) (drop k bs)) as Hs. rewrite take_drop in Hs.
  pose proof (Hr []) as Hf. rewrite app_nil_r in Hf. rewrite Hf in Hs.
  destruct (p (take k bs)) as [x r|[]]; try done.
  injection Hs as _ Hs. apply (f_equal length) in Hs.
  rewrite length_app, length_drop in Hs. cbn in Hs. lia.
Qed.

(** C37. Damaged input: a file cut anywhere after its magic is an error, never a
    shorter context or a panic; cut within the magic it is the end of the input
    and yields no context; foreign magics and other versions are invalid data. *)
Theorem damaged_input_rejected c bs k magic version s :
  context_ok c → serialize c = Some bs → length magic = 4%nat → 0 ≤ version < 2 ^ 16 →
  (4 ≤ k < length bs → deserialize (take k bs) = Fail UnexpectedEof)%nat ∧
  (k < 4 → deserialize (take k bs) = Ok [] (take k bs))%nat ∧
  (magic ≠ MAGIC → deserialize (magic ++ s) = Fail InvalidData) ∧
  (version ≠ VERSION → deserialize (MAGIC ++ le_bytes 2 version ++ s) = Fail InvalidData).
Proof.
  intros Hok Hs Hm Hv. destruct (serialize_spec c Hok) as (body & c' & Hs' & _ & Hr).
  assert (bs = MAGIC ++ body) as -> by congruence. unfold deserialize. split_and!.
  - intros Hk. rewrite length_app in Hk. change (length MAGIC) with 4%nat in Hk.
    rewrite take_app_ge by (change (length MAGIC) with 4%nat; lia).
    change (length MAGIC) with 4%nat. rewrite length_app. change (length MAGIC) with 4%nat.
    cbn [Nat.add deserialize_loop]. rewrite (reads_exact MAGIC 4 eq_refl).
    rewrite bool_decide_eq_true_2 by done. cbn [negb].
    by rewrite (streaming_prefix _ _ _ _ Hr) by lia.
  - intros Hk. assert (length (take k (MAGIC ++ body)) < 4)%nat as Hl by (rewrite length_take; lia).
    assert (read_exact 4 (take k (MAGIC ++ body)) = Fail UnexpectedEof) as He
      by (unfold read_exact; by rewrite decide_False by lia).
    revert He. generalize (take k (MAGIC ++ body)). intros s0 He.
    destruct (length s0); cbn [deserialize_loop]; by rewrite He.
  - intros Hne. rewrite length_app, Hm. cbn [Nat.add deserialize_loop].
    rewrite (reads_exact magic 4 Hm). by rewrite bool_decide_eq_false_2.
  - intros Hne. rewrite length_app. change (length MAGIC) with 4%nat.
    cbn [Nat.add deserialize_loop]. rewrite (reads_exact MAGIC 4 eq_refl).
    rewrite bool_decide_eq_true_2 by done. cbn [negb]. unfold deserialize_file, rbind at 1.
    rewrite (reads_u16 version Hv). by rewrite (proj2 (Z.eqb_neq _ _)).
Qed.

Lemma damaged_input_rejected_witness :
  ∃ bs, serialize example_ir = Some bs ∧ deserialize (take 30 bs) = Fail UnexpectedEof ∧
    deserialize (MAGIC ++ le_bytes 2 2 ++ []) = Fail InvalidData.
Proof.
  destruct (serialize example_ir) as [bs|] eqn:Hs; [|by vm_compute in Hs].
  assert (30 < length bs)%nat as Hlen.
  { assert (match serialize example_ir with Some bs => 30 <? zlen bs | None => false end = true)
      as Hl by (vm_compute; reflexivity).
    rewrite Hs in Hl. apply Z.ltb_lt in Hl. unfold zlen in Hl. lia. }
  destruct (damaged_input_rejected example_ir bs 30 [0; 0; 0; 0] 2 [] example_ir_ok Hs eq_refl)
    as (Ht & _ & _ & Hv); [lia|].
  exists bs. split; [reflexivity|]. split; [apply Ht; lia|apply Hv; discriminate].
Defined.
