(* ===== verification/Tb.v ===== *)
(** * Translation blocks (core/src/tb.rs)

    [TranslationBlock] with its chaining state, the exit code encoding, the
    bucket hash and the per-CPU jump cache.  A mutex-protected or atomic field is
    a plain field here: the sequential operations are in [TbStore], and the lock
    regions are its steps.  [usize] values are [Z] below [2^64]. *)

From S2P Require Import Prelude.

Definition EXIT_TARGET_NONE : Z := 2 ^ 64 - 1.

Module TbJmpState.
Record t := mk {
  jmp_dest : list (option Z);
  jmp_list : list (Z * Z)
}.

Definition new : t := mk [None; None] [].
End TbJmpState.

Module TranslationBlock.
Record t := mk {
  pc : Z;
  cs_base : Z;
  flags : Z;
  cflags : Z;
  size : Z;
  icount : Z;
  host_offset : Z;
  host_size : Z;
  jmp_insn_offset : list (option Z);
  jmp_reset_offset : list (option Z);
  phys_pc : Z;
  hash_next : option Z;
  jmp : TbJmpState.t;
  invalid : bool;
  exit_target : Z
}.

Definition new (pc flags cflags : Z) : t :=
  mk pc 0 flags cflags 0 0 0 0 [None; None] [None; None] 0 None TbJmpState.new false
    EXIT_TARGET_NONE.

(** Number of buckets in the global hash table, entries in the jump cache. *)
Definition TB_HASH_SIZE : Z := Z.shiftl 1 15.
Definition TB_JMP_CACHE_SIZE : Z := Z.shiftl 1 12.

Definition hash (pc flags : Z) : Z :=
  let h := Z.lxor (u64 (pc * 0x9e3779b97f4a7c15)) flags in
  Z.land h (TB_HASH_SIZE - 1).

(** Field assignments. *)
Definition set_size (tb : t) (x : Z) : t :=
  mk (pc tb) (cs_base tb) (flags tb) (cflags tb) x (icount tb) (host_offset tb) (host_size tb)
    (jmp_insn_offset tb) (jmp_reset_offset tb) (phys_pc tb) (hash_next tb) (jmp tb) (invalid tb)
    (exit_target tb).

Definition set_host (tb : t) (off sz : Z) : t :=
  mk (pc tb) (cs_base tb) (flags tb) (cflags tb) (size tb) (icount tb) off sz
    (jmp_insn_offset tb) (jmp_reset_offset tb) (phys_pc tb) (hash_next tb) (jmp tb) (invalid tb)
    (exit_target tb).

Definition set_offsets (tb : t) (insn reset : list (option Z)) : t :=
  mk (pc tb) (cs_base tb) (flags tb) (cflags tb) (size tb) (icount tb) (host_offset tb)
    (host_size tb) insn reset (phys_pc tb) (hash_next tb) (jmp tb) (invalid tb) (exit_target tb).

Definition set_next (tb : t) (n : option Z) : t :=
  mk (pc tb) (cs_base tb) (flags tb) (cflags tb) (size tb) (icount tb) (host_offset tb)
    (host_size tb) (jmp_insn_offset tb) (jmp_reset_offset tb) (phys_pc tb) n (jmp tb) (invalid tb)
    (exit_target tb).

Definition set_jmp (tb : t) (j : TbJmpState.t) : t :=
  mk (pc tb) (cs_base tb) (flags tb) (cflags tb) (size tb) (icount tb) (host_offset tb)
    (host_size tb) (jmp_insn_offset tb) (jmp_reset_offset tb) (phys_pc tb) (hash_next tb) j
    (invalid tb) (exit_target tb).

Definition set_invalid (tb : t) (b : bool) : t :=
  mk (pc tb) (cs_base tb) (flags tb) (cflags tb) (size tb) (icount tb) (host_offset tb)
    (host_size tb) (jmp_insn_offset tb) (jmp_reset_offset tb) (phys_pc tb) (hash_next tb) (jmp tb)
    b (exit_target tb).

Definition set_exit_target (tb : t) (x : Z) : t :=
  mk (pc tb) (cs_base tb) (flags tb) (cflags tb) (size tb) (icount tb) (host_offset tb)
    (host_size tb) (jmp_insn_offset tb) (jmp_reset_offset tb) (phys_pc tb) (hash_next tb) (jmp tb)
    (invalid tb) x.

(** [assert!(n < 2); self.jmp_insn_offset[n] = Some(offset);] *)
Definition set_jmp_insn_offset (tb : t) (n offset : Z) : option t :=
  assert! n <? 2;
  l ← zinsert (jmp_insn_offset tb) n (Some offset);
  Some (set_offsets tb l (jmp_reset_offset tb)).

Definition set_jmp_reset_offset (tb : t) (n offset : Z) : option t :=
  assert! n <? 2;
  l ← zinsert (jmp_reset_offset tb) n (Some offset);
  Some (set_offsets tb (jmp_insn_offset tb) l).

Definition CF_COUNT_MASK : Z := 0x0000FFFF.

Definition max_insns (cflags : Z) : Z :=
  let count := Z.land cflags CF_COUNT_MASK in
  if count =? 0 then 512 else count.
End TranslationBlock.

(** ** Exit codes *)

Definition TB_EXIT_IDX0 : Z := 0.
Definition TB_EXIT_IDX1 : Z := 1.
Definition TB_EXIT_NOCHAIN : Z := 2.
Definition TB_EXIT_MAX : Z := 3.
Definition EXCP_ECALL : Z := TB_EXIT_MAX.
Definition EXCP_EBREAK : Z := TB_EXIT_MAX + 1.
Definition EXCP_UNDEF : Z := TB_EXIT_MAX + 2.

Definition encode_tb_exit (tb_idx v : Z) : Z :=
  if v <? TB_EXIT_MAX then Z.lor (u64 (Z.shiftl (tb_idx + 1) 32)) v else v.

Definition decode_tb_exit (raw : Z) : option Z * Z :=
  let marker := Z.shiftr raw 32 in
  if negb (marker =? 0) then (Some (marker - 1), Z.land raw 3) else (None, raw).

(** ** The jump cache *)

Module JumpCache.
(** [Box<[Option<usize>; TB_JMP_CACHE_SIZE]>]: the entries that are [Some]. *)
Abbreviation t := (gmap Z Z).

Definition new : t := ∅.

Definition index (pc : Z) : Z :=
  Z.land (Z.shiftr pc 2) (TranslationBlock.TB_JMP_CACHE_SIZE - 1).

Definition lookup (c : t) (pc : Z) : option Z := c !! index pc.
Definition insert (c : t) (pc tb_idx : Z) : t := <[index pc := tb_idx]> c.
Definition remove (c : t) (pc : Z) : t := base.delete (index pc) c.
Definition invalidate (c : t) : t := ∅.
End JumpCache.

(** ** Lemmas *)

Lemma hash_range pc flags :
  0 ≤ TranslationBlock.hash pc flags < TranslationBlock.TB_HASH_SIZE.
Proof.
  unfold TranslationBlock.hash, TranslationBlock.TB_HASH_SIZE. change (Z.shiftl 1 15) with (2 ^ 15).
  rewrite land_ones_mod by lia. apply (mod_in_width 15). lia.
Qed.

Lemma jump_cache_index_range pc :
  0 ≤ JumpCache.index pc < TranslationBlock.TB_JMP_CACHE_SIZE.
Proof.
  unfold JumpCache.index, TranslationBlock.TB_JMP_CACHE_SIZE. change (Z.shiftl 1 12) with (2 ^ 12).
  rewrite land_ones_mod by lia. apply (mod_in_width 12). lia.
Qed.

Lemma encode_chain idx v :
  0 ≤ idx < 2 ^ 32 - 1 → 0 ≤ v < TB_EXIT_MAX → encode_tb_exit idx v = (idx + 1) * 2 ^ 32 + v.
Proof.
  unfold TB_EXIT_MAX. intros Hi Hv. unfold encode_tb_exit, TB_EXIT_MAX.
  rewrite (proj2 (Z.ltb_lt v 3)), Z.shiftl_mul_pow2, u64_small by lia.
  apply (lor_add_low 32); [lia|unfold in_width; lia|]. apply Z.mod_mul. lia.
Qed.

(** Exit codes survive the trip through the generated code: a chainable exit
    ([0], [1], [2]) decodes to the index of the block that exited and its slot,
    a real exit below [2^32] decodes to itself with no block, and no real exit is
    taken for a chainable one. *)
Theorem tb_exit_roundtrip idx v :
  0 ≤ idx < 2 ^ 32 - 1 → 0 ≤ v < 2 ^ 32 →
  0 ≤ encode_tb_exit idx v < 2 ^ 64 ∧
  decode_tb_exit (encode_tb_exit idx v) =
    (if v <? TB_EXIT_MAX then Some idx else None, v).
Proof.
  intros Hi Hv. destruct (v <? TB_EXIT_MAX) eqn:Hc.
  - boolp. rewrite encode_chain by lia. unfold TB_EXIT_MAX in *. split; [lia|].
    unfold decode_tb_exit. rewrite Z.shiftr_div_pow2, Z.div_add_l, Z.div_small, Z.add_0_r by lia.
    rewrite (proj2 (Z.eqb_neq (idx + 1) 0)) by lia. simpl negb. cbv iota. f_equal; [f_equal; lia|].
    change 3 with (Z.ones 2). rewrite Z.land_ones by lia.
    change (2 ^ 32) with (2 ^ 30 * 2 ^ 2). rewrite Z.mul_assoc, Z.add_comm, Z.mod_add by lia.
    apply Z.mod_small. lia.
  - unfold encode_tb_exit. rewrite Hc. split; [lia|]. unfold decode_tb_exit.
    rewrite Z.shiftr_div_pow2, Z.div_small by lia. done.
Qed.

Lemma tb_exit_roundtrip_witness :
  decode_tb_exit (encode_tb_exit 65535 1) = (Some 65535, 1) ∧
  decode_tb_exit (encode_tb_exit 65535 EXCP_UNDEF) = (None, 5).
Proof.
  split; [apply (tb_exit_roundtrip 65535 1)|apply (tb_exit_roundtrip 65535 EXCP_UNDEF)];
    unfold EXCP_UNDEF, TB_EXIT_MAX; lia.
Defined.

(** The jump cache is a direct-mapped cache over 4096 entries, the bucket hash
    stays below [TB_HASH_SIZE] (neither array access panics), and a block holds
    between 1 and 65535 instructions. *)
Theorem jump_cache_direct_mapped c pc pc' i flags :
  0 ≤ JumpCache.index pc < TranslationBlock.TB_JMP_CACHE_SIZE ∧
  0 ≤ TranslationBlock.hash pc flags < TranslationBlock.TB_HASH_SIZE ∧
  1 ≤ TranslationBlock.max_insns flags ≤ 65535 ∧
  JumpCache.lookup (JumpCache.insert c pc i) pc' =
    (if decide (JumpCache.index pc' = JumpCache.index pc) then Some i
     else JumpCache.lookup c pc') ∧
  JumpCache.lookup (JumpCache.remove c pc) pc' =
    (if decide (JumpCache.index pc' = JumpCache.index pc) then None
     else JumpCache.lookup c pc') ∧
  JumpCache.lookup (JumpCache.invalidate c) pc' = None.
Proof.
  split_and!; try apply jump_cache_index_range; try apply hash_range.
  - unfold TranslationBlock.max_insns, TranslationBlock.CF_COUNT_MASK.
    rewrite (land_ones_mod 16) by lia. pose proof (mod_in_width 16 flags ltac:(lia)) as [? ?].
    case_match; boolp; lia.
  - unfold TranslationBlock.max_insns, TranslationBlock.CF_COUNT_MASK.
    rewrite (land_ones_mod 16) by lia. pose proof (mod_in_width 16 flags ltac:(lia)) as [? ?].
    case_match; boolp; lia.
  - unfold JumpCache.lookup, JumpCache.insert. rewrite lookup_insert. by repeat case_decide.
  - unfold JumpCache.lookup, JumpCache.remove. rewrite lookup_delete. by repeat case_decide.
  - apply lookup_empty.
Qed.
