(* ===== verification/CodeBuffer.v ===== *)
(** * The JIT code buffer and jump patching
      (backend/src/code_buffer.rs; [patch_jump], [emit_jmp], [emit_nops] and
      [emit_goto_tb] of backend/src/x86_64)

    The mapped region is a list of bytes of the buffer's size; a failing
    [assert!] is [None].  [mmap], [mprotect] and the raw pointers have no model:
    [code_buffer_new] takes the page size and whether [mmap] succeeded.

    The second half is the chaining interface.  [JumpCode] states what the block
    store needs of a code generator: sites of direct jumps whose targets can be
    rewritten one at a time.  The x86-64 instance is proved from the bytes
    [emit_goto_tb] writes. *)

From S2P Require Import Prelude.

Record CodeBuffer := mkBuffer {
  mem : list Z;
  offset : Z
}.

Definition capacity (b : CodeBuffer) : Z := zlen (mem b).
Definition remaining (b : CodeBuffer) : Z := capacity b - offset b.

(** [(size + page_size - 1) & !(page_size - 1)] *)
Definition round_to_page (page_size size : Z) : Z :=
  Z.land (size + page_size - 1) (Z.lnot (page_size - 1)).

(** [None] is [Err]: a zero size or a failed [mmap]. *)
Definition code_buffer_new (page_size : Z) (mmap_ok : bool) (size : Z) : option CodeBuffer :=
  let size := round_to_page page_size size in
  if size =? 0 then None
  else if mmap_ok then Some (mkBuffer (replicate (Z.to_nat size) 0) 0) else None.

Definition set_offset (b : CodeBuffer) (off : Z) : option CodeBuffer :=
  assert! off <=? capacity b; Some (mkBuffer (mem b) off).

(** [ptr_at]: only the bounds assertion is modelled. *)
Definition ptr_at (b : CodeBuffer) (off : Z) : option Z :=
  assert! off <=? capacity b; Some off.

Definition emit_u8 (b : CodeBuffer) (v : Z) : option CodeBuffer :=
  assert! offset b <? capacity b;
  Some (mkBuffer (write_at (mem b) (offset b) (le_bytes 1 v)) (offset b + 1)).

Definition emit_u16 (b : CodeBuffer) (v : Z) : option CodeBuffer :=
  assert! offset b + 2 <=? capacity b;
  Some (mkBuffer (write_at (mem b) (offset b) (le_bytes 2 v)) (offset b + 2)).

Definition emit_u32 (b : CodeBuffer) (v : Z) : option CodeBuffer :=
  assert! offset b + 4 <=? capacity b;
  Some (mkBuffer (write_at (mem b) (offset b) (le_bytes 4 v)) (offset b + 4)).

Definition emit_u64 (b : CodeBuffer) (v : Z) : option CodeBuffer :=
  assert! offset b + 8 <=? capacity b;
  Some (mkBuffer (write_at (mem b) (offset b) (le_bytes 8 v)) (offset b + 8)).

Definition emit_bytes (b : CodeBuffer) (data : list Z) : option CodeBuffer :=
  assert! offset b + zlen data <=? capacity b;
  Some (mkBuffer (write_at (mem b) (offset b) data) (offset b + zlen data)).

Definition patch_u8 (b : CodeBuffer) (off v : Z) : option CodeBuffer :=
  assert! off <? capacity b; Some (mkBuffer (write_at (mem b) off (le_bytes 1 v)) (offset b)).

(** Both the aligned atomic store and the unaligned one write the same bytes. *)
Definition patch_u32 (b : CodeBuffer) (off v : Z) : option CodeBuffer :=
  assert! off + 4 <=? capacity b; Some (mkBuffer (write_at (mem b) off (le_bytes 4 v)) (offset b)).

Definition read_u32 (b : CodeBuffer) (off : Z) : option Z :=
  assert! off + 4 <=? capacity b; Some (le_value (read_at (mem b) off 4)).

Definition as_slice (b : CodeBuffer) : list Z := take (Z.to_nat (offset b)) (mem b).

(** ** Patchable jumps (x86_64/emitter.rs, x86_64/codegen.rs) *)

(** [emit_nops]: one round of the loop emits the multi-byte nop for what is left,
    at most eight bytes. *)
Definition nop_bytes (n : Z) : list Z :=
  match n with
  | 1 => [0x90]
  | 2 => [0x66; 0x90]
  | 3 => [0x0F; 0x1F; 0x00]
  | 4 => [0x0F; 0x1F; 0x40; 0x00]
  | 5 => [0x0F; 0x1F; 0x44; 0x00; 0x00]
  | 6 => [0x66; 0x0F; 0x1F; 0x44; 0x00; 0x00]
  | 7 => [0x0F; 0x1F; 0x80] ++ le_bytes 4 0
  | _ => [0x0F; 0x1F; 0x84; 0x00] ++ le_bytes 4 0
  end.

Definition emit_u8s (b : CodeBuffer) (l : list Z) : option CodeBuffer :=
  fold_left (λ b v, b ← b; emit_u8 b v) l (Some b).

Fixpoint emit_nops (fuel : nat) (b : CodeBuffer) (n : Z) : option CodeBuffer :=
  if n <=? 0 then Some b
  else
    match fuel with
    | O => None
    | S fuel => b ← emit_u8s b (nop_bytes n); emit_nops fuel b (n - zlen (nop_bytes n))
    end.

Definition i32_range (disp : Z) : bool := (- 2 ^ 31 <=? disp) && (disp <=? 2 ^ 31 - 1).

Definition emit_jmp (b : CodeBuffer) (target_offset : Z) : option CodeBuffer :=
  b ← emit_u8 b 0xE9;
  let after := offset b + 4 in
  let disp := target_offset - after in
  assert! i32_range disp;
  emit_u32 b (u32 disp).

(** Returns [(jmp_offset, reset_offset)]. *)
Definition emit_goto_tb (b : CodeBuffer) : option (CodeBuffer * (Z * Z)) :=
  let disp_addr := offset b + 1 in
  let aligned := Z.land (disp_addr + 3) (Z.lnot 3) in
  let pad := aligned - disp_addr in
  b ← (if 0 <? pad then emit_nops (Z.to_nat pad) b pad else Some b);
  let jmp_offset := offset b in
  b ← emit_u8 b 0xE9;
  b ← emit_u32 b 0;
  let reset_offset := offset b in
  Some (b, (jmp_offset, reset_offset)).

Definition x86_patch_jump (b : CodeBuffer) (jump_offset target_offset : Z) : option CodeBuffer :=
  let disp := target_offset - (jump_offset + 5) in
  assert! i32_range disp;
  patch_u32 b (jump_offset + 1) (u32 disp).

(** Where the processor goes from a [jmp rel32] at [off]: the next instruction plus
    the sign-extended displacement. *)
Definition x86_jump_target (b : CodeBuffer) (off : Z) : option Z :=
  op ← (mem b).[off];
  assert! op =? 0xE9;
  disp ← read_u32 b (off + 1);
  Some (off + 5 + i32 disp).

(** ** The buffer *)

Record wf_buffer (b : CodeBuffer) : Prop := {
  wb_offset : 0 ≤ offset b ≤ capacity b;
  wb_bytes : Forall (in_width 8) (mem b)
}.

(** Every emit method is [emit_bytes] of the little-endian bytes of its operand. *)
Lemma emit_as_bytes b v :
  emit_u8 b v = emit_bytes b (le_bytes 1 v) ∧ emit_u16 b v = emit_bytes b (le_bytes 2 v) ∧
  emit_u32 b v = emit_bytes b (le_bytes 4 v) ∧ emit_u64 b v = emit_bytes b (le_bytes 8 v).
Proof.
  unfold emit_u8, emit_u16, emit_u32, emit_u64, emit_bytes. split_and!; try done.
  change (zlen (le_bytes 1 v)) with 1. destruct (offset b <? capacity b) eqn:E1,
    (offset b + 1 <=? capacity b) eqn:E2; boolp; (done || lia).
Qed.

Lemma write_at_bytes m off bs :
  Forall (in_width 8) m → Forall (in_width 8) bs → Forall (in_width 8) (write_at m off bs).
Proof.
  intros. unfold write_at. repeat apply Forall_app_2; [by apply Forall_take|done|by apply Forall_drop].
Qed.

Lemma emit_bytes_spec b data :
  wf_buffer b → Forall (in_width 8) data →
  if decide (offset b + zlen data ≤ capacity b) then
    ∃ b', emit_bytes b data = Some b' ∧ wf_buffer b' ∧ capacity b' = capacity b ∧
      offset b' = offset b + zlen data ∧ as_slice b' = as_slice b ++ data ∧
      ∀ i, 0 ≤ i < offset b → (mem b').[i] = (mem b).[i]
  else emit_bytes b data = None.
Proof.
  intros [Hoff Hb] Hd. unfold emit_bytes. case_decide as Hfit.
  2:{ destruct (_ <=? _) eqn:E; [boolp; lia|done]. }
  rewrite (proj2 (Z.leb_le _ _)) by done. pose proof (zlen_nonneg data).
  assert (zlen (write_at (mem b) (offset b) data) = zlen (mem b)) as Hlen
    by (apply write_at_length; unfold capacity in *; lia).
  eexists. split; [done|]. unfold capacity in *. simpl. rewrite Hlen. split_and!; try done.
  - split; simpl; [unfold capacity; simpl; lia|by apply write_at_bytes].
  - unfold as_slice. simpl. unfold write_at, zlen in *.
    rewrite take_app_ge by (rewrite length_take; lia). f_equal. rewrite length_take.
    by rewrite take_app_length' by lia.
  - intros i Hi. by apply write_at_lookup_ne; [lia..|left; lia].
Qed.

Lemma patch_u32_spec b off v b' :
  0 ≤ off → patch_u32 b off v = Some b' →
  offset b' = offset b ∧ capacity b' = capacity b ∧ (wf_buffer b → wf_buffer b') ∧
  read_u32 b' off = Some (u32 v) ∧
  ∀ i, 0 ≤ i → i < off ∨ off + 4 ≤ i → (mem b').[i] = (mem b).[i].
Proof.
  intros Hoff. unfold patch_u32. destruct (_ <=? _) eqn:E; [|done]. boolp. intros Hp. apply (inj Some) in Hp as <-.
  assert (zlen (le_bytes 4 v) = 4) as Hl by (unfold zlen; by rewrite le_bytes_length).
  assert (zlen (write_at (mem b) off (le_bytes 4 v)) = zlen (mem b)) as Hlen
    by (apply write_at_length; unfold capacity in *; lia).
  unfold capacity in *. cbn [mem offset]. split_and!; try done.
  - intros [Ho Hb]. unfold capacity in Ho. split; unfold capacity; cbn [mem offset]; [lia|].
    apply write_at_bytes; [done|apply le_bytes_range].
  - unfold read_u32, capacity. cbn [mem]. rewrite Hlen, (proj2 (Z.leb_le _ _)) by done.
    f_equal. pose proof (read_write_same (mem b) off (le_bytes 4 v) ltac:(lia)) as Hr.
    rewrite le_bytes_length in Hr. rewrite Hr. apply (le_value_bytes 4).
  - intros i ? ?. apply write_at_lookup_ne; lia.
Qed.

(** Reads depend only on the four bytes. *)
Lemma read_u32_ext b b' off :
  0 ≤ off → capacity b' = capacity b →
  (∀ i, off ≤ i < off + 4 → (mem b').[i] = (mem b).[i]) → read_u32 b' off = read_u32 b off.
Proof.
  intros Hoff Hc Hb. unfold read_u32. rewrite Hc. destruct (_ <=? _); [|done]. do 2 f_equal.
  apply list_eq. intros i. unfold read_at. destruct (decide (i < 4)%nat);
    [|by rewrite !lookup_take_ge by lia].
  rewrite !lookup_take_lt, !lookup_drop by lia. specialize (Hb (off + Z.of_nat i) ltac:(lia)).
  rewrite !zlookup_nat in Hb by lia.
  by replace (Z.to_nat (off + Z.of_nat i)) with (Z.to_nat off + i)%nat in Hb by lia.
Qed.

(** C38. The code buffer: every emit appends exactly its little-endian bytes when
    they fit and panics otherwise, and [patch_u32] followed by [read_u32] returns
    the value (as a [u32]) and leaves every other byte and the write position
    alone. *)
Theorem code_buffer_spec b data v off :
  wf_buffer b → Forall (in_width 8) data → 0 ≤ off →
  (offset b + zlen data ≤ capacity b →
   ∃ b', emit_bytes b data = Some b' ∧ wf_buffer b' ∧ as_slice b' = as_slice b ++ data) ∧
  (capacity b < offset b + zlen data → emit_bytes b data = None) ∧
  (emit_u8 b v = emit_bytes b (le_bytes 1 v) ∧ emit_u16 b v = emit_bytes b (le_bytes 2 v) ∧
   emit_u32 b v = emit_bytes b (le_bytes 4 v) ∧ emit_u64 b v = emit_bytes b (le_bytes 8 v)) ∧
  ∀ b', patch_u32 b off v = Some b' →
    wf_buffer b' ∧ offset b' = offset b ∧ read_u32 b' off = Some (u32 v) ∧
    ∀ i, 0 ≤ i → i < off ∨ off + 4 ≤ i → (mem b').[i] = (mem b).[i].
Proof.
  intros Hwf Hd Hoff. pose proof (emit_bytes_spec b data Hwf Hd) as He.
  split_and!; try apply emit_as_bytes.
  - intros ?. rewrite decide_True in He by done. destruct He as (b' & ? & ? & _ & _ & ? & _). eauto.
  - intros ?. by rewrite decide_False in He by lia.
  - intros b' Hp. apply patch_u32_spec in Hp as (? & ? & ? & ? & ?); [|done]. auto.
Qed.

Definition example_buffer : CodeBuffer := default (mkBuffer [] 0) (code_buffer_new 16 true 60).

Lemma example_buffer_wf : wf_buffer example_buffer.
Proof. split; [vm_compute; split; discriminate|]. apply (bool_decide_unpack _). by vm_compute. Qed.

Lemma code_buffer_spec_witness :
  ∃ b', emit_bytes example_buffer [0x90; 0xC3] = Some b' ∧ as_slice b' = [0x90; 0xC3].
Proof.
  destruct (code_buffer_spec example_buffer [0x90; 0xC3] 0 0 example_buffer_wf) as [He _];
    [by apply (bool_decide_unpack _)|lia|].
  destruct He as (b' & Hb & _ & Hs); [by vm_compute|]. exists b'. split; [exact Hb|exact Hs].
Defined.

(** ** Composition of emits *)

Lemma write_at_app m off l1 l2 :
  0 ≤ off → off + zlen l1 + zlen l2 ≤ zlen m →
  write_at (write_at m off l1) (off + zlen l1) l2 = write_at m off (l1 ++ l2).
Proof.
  intros Ho Hf. unfold write_at, zlen in *.
  replace (Z.to_nat (off + Z.of_nat (length l1))) with (Z.to_nat off + length l1)%nat by lia.
  rewrite length_app, !(assoc app (take (Z.to_nat off) m) l1).
  rewrite take_app_length' by (rewrite length_app, length_take; lia).
  rewrite drop_app_ge by (rewrite length_app, length_take; lia).
  rewrite drop_drop, length_app, length_take. rewrite <- !(assoc app). do 4 f_equal. lia.
Qed.

Lemma emit_bytes_app b l1 l2 :
  0 ≤ offset b → (b' ← emit_bytes b l1; emit_bytes b' l2) = emit_bytes b (l1 ++ l2).
Proof.
  intros Ho. unfold emit_bytes, capacity. rewrite zlen_app.
  pose proof (zlen_nonneg l1). pose proof (zlen_nonneg l2).
  destruct (_ + zlen l1 <=? _) eqn:E1; cbn [mbind option_bind mem offset]; boolp.
  - rewrite write_at_length by lia. replace (offset b + (zlen l1 + zlen l2)) with
      (offset b + zlen l1 + zlen l2) by lia.
    destruct (_ <=? zlen (mem b)) eqn:E2; boolp; [|done]. by rewrite write_at_app by lia.
  - destruct (_ <=? _) eqn:E2; boolp; [lia|done].
Qed.

Lemma emit_bytes_offset b l b' : emit_bytes b l = Some b' → offset b' = offset b + zlen l.
Proof. unfold emit_bytes. destruct (_ <=? _); [|done]. by intros [= <-]. Qed.

Lemma emit_u8s_bytes b l :
  0 ≤ offset b ≤ capacity b → Forall (in_width 8) l → emit_u8s b l = emit_bytes b l.
Proof.
  intros Ho Hl. revert b Ho. induction Hl as [|x l Hx Hl IH]; intros b Ho.
  - unfold emit_u8s, emit_bytes. cbn [fold_left]. change (zlen []) with 0.
    rewrite Z.add_0_r, (proj2 (Z.leb_le _ _)) by lia. f_equal. destruct b as [m o]. cbn [mem offset].
    f_equal. unfold write_at. simpl. by rewrite Nat.add_0_r, take_drop.
  - change (x :: l) with ([x] ++ l) at 2. rewrite <- emit_bytes_app by lia.
    assert (emit_u8s b (x :: l) = (b' ← emit_u8 b x; emit_u8s b' l)) as ->.
    { unfold emit_u8s. cbn [fold_left mbind option_bind]. destruct (emit_u8 b x); [done|].
      clear. induction l; auto. }
    rewrite (proj1 (emit_as_bytes b x)).
    replace (le_bytes 1 x) with [x] by (cbn; f_equal; symmetry; by apply (mod_small_width 8)).
    destruct (emit_bytes b [x]) as [b'|] eqn:E; [|done]. cbn [mbind option_bind]. apply IH.
    pose proof (emit_bytes_offset _ _ _ E) as Ho'. rewrite zlen_one in Ho'. unfold emit_bytes in E.
    destruct (_ <=? _) eqn:El in E; [|done]. injection E as <-. cbn in *. unfold capacity in *.
    boolp. rewrite zlen_one in El. cbn [mem]. rewrite write_at_length; rewrite ?zlen_one; lia.
Qed.

Lemma nop_bytes_spec n :
  1 ≤ n ≤ 8 → Forall (in_width 8) (nop_bytes n) ∧ zlen (nop_bytes n) = n.
Proof.
  intros ?. assert (n = 1 ∨ n = 2 ∨ n = 3 ∨ n = 4 ∨ n = 5 ∨ n = 6 ∨ n = 7 ∨ n = 8) by lia.
  destruct_or?; subst; (split; [by apply (bool_decide_unpack _)|done]).
Qed.

(** The padding before the jump. *)
Definition pad_bytes (off : Z) : list Z :=
  let pad := Z.land (off + 1 + 3) (Z.lnot 3) - (off + 1) in
  if 0 <? pad then nop_bytes pad else [].

Lemma align4 x : Z.land (x + 3) (Z.lnot 3) = 4 * ((x + 3) / 4).
Proof.
  rewrite <- Z.ldiff_land. change 3 with (Z.ones 2) at 2. rewrite Z.ldiff_ones_r by lia.
  rewrite Z.shiftr_div_pow2, Z.shiftl_mul_pow2 by lia. change (2 ^ 2) with 4. lia.
Qed.

Lemma pad_bytes_spec off :
  Forall (in_width 8) (pad_bytes off) ∧ 0 ≤ zlen (pad_bytes off) ≤ 3 ∧
  (off + zlen (pad_bytes off) + 1) mod 4 = 0.
Proof.
  unfold pad_bytes. rewrite align4. pose proof (Z.div_mod (off + 1 + 3) 4 ltac:(lia)).
  pose proof (Z.mod_pos_bound (off + 1 + 3) 4 ltac:(lia)). destruct (_ <? _) eqn:E; boolp.
  - destruct (nop_bytes_spec (4 * ((off + 1 + 3) / 4) - (off + 1)) ltac:(lia)) as [? ->].
    split; [done|]. split; [lia|].
    replace (_ + 1) with ((off + 1 + 3) / 4 * 4) by lia. by apply Z.mod_mul.
  - split; [constructor|]. split; [done|]. change (zlen []) with 0.
    replace (_ + 1) with ((off + 1 + 3) / 4 * 4) by lia. by apply Z.mod_mul.
Qed.

Lemma emit_goto_tb_bytes b :
  0 ≤ offset b ≤ capacity b →
  emit_goto_tb b =
    (b' ← emit_bytes b (pad_bytes (offset b) ++ [0xE9; 0; 0; 0; 0]);
     Some (b', (offset b' - 5, offset b'))).
Proof.
  intros Ho. rewrite <- emit_bytes_app by lia. unfold emit_goto_tb.
  assert ((if 0 <? Z.land (offset b + 1 + 3) (Z.lnot 3) - (offset b + 1) then
    emit_nops (Z.to_nat (Z.land (offset b + 1 + 3) (Z.lnot 3) - (offset b + 1))) b
      (Z.land (offset b + 1 + 3) (Z.lnot 3) - (offset b + 1)) else Some b) =
    emit_bytes b (pad_bytes (offset b))) as ->.
  { pose proof (pad_bytes_spec (offset b)) as (Hpb & Hpl & _).
    rewrite <- (emit_u8s_bytes b _ Ho Hpb). revert Hpl. unfold pad_bytes.
    set (p := Z.land _ _ - _). destruct (0 <? p) eqn:Ep; [|done]. boolp. intros Hp.
    assert (p = 4 * ((offset b + 1 + 3) / 4) - (offset b + 1)) by (unfold p; by rewrite align4).
    destruct (nop_bytes_spec p) as [_ Hz].
    { pose proof (Z.div_mod (offset b + 1 + 3) 4 ltac:(lia)).
      pose proof (Z.mod_pos_bound (offset b + 1 + 3) 4 ltac:(lia)). lia. }
    destruct (Z.to_nat p) as [|k] eqn:Ek; [lia|]. cbn [emit_nops].
    rewrite (proj2 (Z.leb_gt _ _)) by lia. destruct (emit_u8s _ _) as [b'|]; [|done].
    cbn [mbind option_bind]. rewrite Hz, Z.sub_diag. by destruct k. }
  destruct (emit_bytes b (pad_bytes _)) as [b1|] eqn:E1; [|done]. cbn [mbind option_bind].
  pose proof (emit_bytes_offset _ _ _ E1). pose proof (zlen_nonneg (pad_bytes (offset b))).
  change [0xE9; 0; 0; 0; 0] with (le_bytes 1 0xE9 ++ le_bytes 4 0).
  rewrite <- (emit_bytes_app b1) by lia. rewrite (proj1 (emit_as_bytes b1 0xE9)).
  destruct (emit_bytes b1 _) as [b2|] eqn:E2; [|done]. cbn [mbind option_bind].
  pose proof (emit_bytes_offset _ _ _ E2) as H2.
  rewrite (proj1 (proj2 (proj2 (emit_as_bytes b2 0)))).
  destruct (emit_bytes b2 _) as [b3|] eqn:E3; [|done]. cbn [mbind option_bind].
  pose proof (emit_bytes_offset _ _ _ E3) as H3. change (zlen (le_bytes 1 0xE9)) with 1 in H2.
  change (zlen (le_bytes 4 0)) with 4 in H3. do 3 f_equal. lia.
Qed.

(** ** The chaining interface *)

(** A code generator whose direct jumps can be retargeted: [jump_target b j] is
    where the jump instruction at [j] leads, [None] when there is none. *)
Class JumpCode := {
  patch_jump : CodeBuffer → Z → Z → option CodeBuffer;
  jump_target : CodeBuffer → Z → option Z;
  jump_size : Z
}.

Class JumpCodeLaws `{JumpCode} := {
  jump_size_pos : 0 < jump_size;
  (** a jump is retargeted, *)
  patch_target b j t b' :
    is_Some (jump_target b j) → patch_jump b j t = Some b' → jump_target b' j = Some t;
  (** nothing outside the instruction changes, *)
  patch_frame b j t b' :
    0 ≤ j → patch_jump b j t = Some b' →
    offset b' = offset b ∧ capacity b' = capacity b ∧ (wf_buffer b → wf_buffer b') ∧
    ∀ i, 0 ≤ i → i < j ∨ j + jump_size ≤ i → (mem b').[i] = (mem b).[i];
  (** the bytes of the instruction determine where it leads, *)
  target_ext b b' j :
    0 ≤ j → capacity b' = capacity b →
    (∀ i, j ≤ i < j + jump_size → (mem b').[i] = (mem b).[i]) →
    jump_target b' j = jump_target b j;
  (** and patching does not fail within a buffer of at most 2 GiB. *)
  patch_total b j t :
    0 ≤ j → j + jump_size ≤ capacity b → capacity b ≤ 2 ^ 31 → 0 ≤ t ≤ capacity b →
    is_Some (patch_jump b j t)
}.

#[export] Instance x86_jump_code : JumpCode := {
  patch_jump := x86_patch_jump;
  jump_target := x86_jump_target;
  jump_size := 5
}.

Lemma i32_u32 disp : - 2 ^ 31 ≤ disp ≤ 2 ^ 31 - 1 → i32 (u32 disp) = disp.
Proof. intros ?. unfold i32, u32. rewrite (signed_of_mod 32) by lia. apply signed_small; lia. Qed.

Lemma x86_patch_frame b j t b' :
  0 ≤ j → x86_patch_jump b j t = Some b' →
  offset b' = offset b ∧ capacity b' = capacity b ∧ (wf_buffer b → wf_buffer b') ∧
  read_u32 b' (j + 1) = Some (u32 (t - (j + 5))) ∧ i32_range (t - (j + 5)) = true ∧
  ∀ i, 0 ≤ i → i < j + 1 ∨ j + 5 ≤ i → (mem b').[i] = (mem b).[i].
Proof.
  intros Hj. unfold x86_patch_jump. destruct (i32_range _) eqn:Hr; [|done]. intros Hp.
  apply patch_u32_spec in Hp as (? & ? & ? & Hread & Hi); [|lia]. split_and!; try done.
  - rewrite Hread. unfold u32. by rewrite Z.mod_mod.
  - intros i ? ?. apply Hi; lia.
Qed.

Lemma x86_patch_target b j t b' :
  is_Some (x86_jump_target b j) → x86_patch_jump b j t = Some b' → x86_jump_target b' j = Some t.
Proof.
  intros [t0 Ht] Hp. unfold x86_jump_target in Ht.
  destruct ((mem b).[j]) as [op|] eqn:Hop; [|done]. cbn [mbind option_bind] in Ht.
  destruct (op =? 0xE9) eqn:Hop'; [|done]. pose proof (zlookup_lt_Some _ _ _ Hop).
  apply x86_patch_frame in Hp as (_ & _ & _ & Hr & Hrange & Hi); [|lia].
  unfold x86_jump_target. rewrite Hi, Hop by lia. cbn [mbind option_bind].
  rewrite Hop', Hr. cbn [mbind option_bind]. f_equal. unfold i32_range in Hrange. boolp.
  rewrite i32_u32; lia.
Qed.

#[export] Instance x86_jump_laws : JumpCodeLaws.
Proof.
  split.
  - done.
  - exact x86_patch_target.
  - intros b j t b' Hj Hp. apply x86_patch_frame in Hp as (? & ? & ? & _ & _ & Hi); [|done].
    split_and!; try done. intros i ? ?. apply Hi; [done|]. cbn in *. lia.
  - intros b b' j Hj Hc Hb. cbn in *. unfold x86_jump_target. rewrite Hb by lia.
    rewrite (read_u32_ext b b') by (done || lia || (intros; apply Hb; lia)). done.
  - intros b j t Hj Hs Hc Ht. cbn in *. unfold x86_patch_jump, i32_range, patch_u32.
    rewrite (proj2 (andb_true_iff _ _)) by (split; apply Z.leb_le; lia).
    rewrite (proj2 (Z.leb_le _ _)) by lia. eauto.
Qed.

Lemma x86_target_of_bytes b j :
  0 ≤ j → j + 5 ≤ capacity b → read_at (mem b) j 5 = [0xE9; 0; 0; 0; 0] →
  x86_jump_target b j = Some (j + 5).
Proof.
  intros Hj Hc Hr. unfold x86_jump_target, capacity in *.
  assert (∀ k x, [0xE9; 0; 0; 0; 0] !! k = Some x → mem b !! (Z.to_nat j + k)%nat = Some x) as Hk.
  { intros k x Hx. rewrite <- Hr in Hx. unfold read_at in Hx.
    apply lookup_take_Some in Hx as [Hx _]. by rewrite lookup_drop in Hx. }
  rewrite zlookup_nat, <- (Nat.add_0_r (Z.to_nat j)) by lia. rewrite (Hk 0%nat 0xE9) by done.
  cbn [mbind option_bind]. unfold read_u32. rewrite Z.eqb_refl.
  rewrite (proj2 (Z.leb_le _ _)) by (unfold capacity; lia). cbn [mbind option_bind].
  assert (read_at (mem b) (j + 1) 4 = [0; 0; 0; 0]) as ->.
  { unfold read_at in *. change [0; 0; 0; 0] with (drop 1 [0xE9; 0; 0; 0; 0]). rewrite <- Hr.
    rewrite skipn_firstn_comm, drop_drop. do 2 f_equal. lia. }
  f_equal. change (i32 (le_value [0; 0; 0; 0])) with 0. lia.
Qed.

(** [emit_goto_tb], when there is room for it. *)
Lemma emit_goto_tb_spec b :
  wf_buffer b →
  if decide (offset b + zlen (pad_bytes (offset b)) + 5 ≤ capacity b) then
    ∃ b', emit_goto_tb b = Some (b', (offset b' - 5, offset b')) ∧ wf_buffer b' ∧
      capacity b' = capacity b ∧ offset b' = offset b + zlen (pad_bytes (offset b)) + 5 ∧
      as_slice b' = as_slice b ++ pad_bytes (offset b) ++ [0xE9; 0; 0; 0; 0] ∧
      (∀ i, 0 ≤ i < offset b → (mem b').[i] = (mem b).[i]) ∧
      x86_jump_target b' (offset b' - 5) = Some (offset b')
  else emit_goto_tb b = None.
Proof.
  intros Hwf. pose proof (wb_offset _ Hwf) as Ho.
  destruct (pad_bytes_spec (offset b)) as (Hpb & Hpl & _).
  pose proof (emit_bytes_spec b (pad_bytes (offset b) ++ [0xE9; 0; 0; 0; 0]) Hwf) as He.
  rewrite zlen_app in He. change (zlen [0xE9; 0; 0; 0; 0]) with 5 in He.
  rewrite emit_goto_tb_bytes by done.
  specialize (He ltac:(apply Forall_app; split; [done|by apply (bool_decide_unpack _)])).
  destruct (decide (offset b + zlen (pad_bytes (offset b)) + 5 ≤ capacity b)) as [Hroom|Hroom].
  2:{ rewrite decide_False in He by lia. by rewrite He. }
  rewrite decide_True in He by lia. destruct He as (b' & He & Hwf' & Hc' & Ho' & Hs & Hf).
  rewrite He. exists b'. split_and!; try done; [lia|].
  unfold emit_bytes in He. destruct (_ <=? _) in He; [|done]. apply (inj Some) in He.
  assert (read_at (mem b') (offset b' - 5) 5 = [0xE9; 0; 0; 0; 0]) as Hr.
  { rewrite <- He. cbn [mem offset]. rewrite <- (write_at_app (mem b)) by
      (change (zlen [0xE9; 0; 0; 0; 0]) with 5; unfold capacity in *; lia).
    rewrite zlen_app. change (zlen [0xE9; 0; 0; 0; 0]) with 5.
    replace (_ - 5) with (offset b + zlen (pad_bytes (offset b))) by lia.
    apply (read_write_same _ _ [0xE9; 0; 0; 0; 0]).
    rewrite write_at_length by (unfold capacity in *; lia).
    change (zlen [0xE9; 0; 0; 0; 0]) with 5. unfold capacity in *. lia. }
  rewrite x86_target_of_bytes; [f_equal; lia|..]; try done; lia.
Qed.

(** Direct jumps on x86-64.  In a buffer with eight bytes left, [emit_goto_tb]
    succeeds; it appends at most three bytes of nops and the five-byte jump, whose
    displacement is aligned to four bytes, and the jump leads to the next
    instruction, which is the reset offset it returns.  [patch_jump] sends it to any
    offset of the buffer, and back to the reset offset, and touches nothing but
    the displacement. *)
Theorem x86_goto_tb_spec b t :
  wf_buffer b → offset b + 8 ≤ capacity b → capacity b ≤ 2 ^ 31 → 0 ≤ t ≤ capacity b →
  ∃ b' j r, emit_goto_tb b = Some (b', (j, r)) ∧ wf_buffer b' ∧
    as_slice b' = as_slice b ++ pad_bytes (offset b) ++ [0xE9; 0; 0; 0; 0] ∧
    zlen (pad_bytes (offset b)) ≤ 3 ∧ (j + 1) mod 4 = 0 ∧
    r = j + 5 ∧ offset b' = r ∧ x86_jump_target b' j = Some r ∧
    ∃ b1 b2, x86_patch_jump b' j t = Some b1 ∧ x86_jump_target b1 j = Some t ∧
      x86_patch_jump b1 j r = Some b2 ∧ x86_jump_target b2 j = Some r ∧
      ∀ i, 0 ≤ i → i < j + 1 ∨ j + 5 ≤ i → (mem b2).[i] = (mem b').[i].
Proof.
  intros Hwf Hroom Hcap Ht. pose proof (wb_offset _ Hwf) as Ho.
  destruct (pad_bytes_spec (offset b)) as (Hpb & Hpl & Hal).
  pose proof (emit_goto_tb_spec b Hwf) as He. rewrite decide_True in He by lia.
  destruct He as (b' & He & Hwf' & Hc' & Ho' & Hs & _ & Htgt).
  assert (0 ≤ offset b' - 5) as Hj0 by lia.
  destruct (patch_total b' (offset b' - 5) t) as [b1 H1]; cbn [jump_size x86_jump_code]; [lia..|].
  change (x86_patch_jump b' (offset b' - 5) t = Some b1) in H1.
  pose proof (x86_patch_frame _ _ _ _ Hj0 H1) as (Ho1 & Hc1 & _ & _ & _ & Hi1).
  destruct (patch_total b1 (offset b' - 5) (offset b')) as [b2 H2];
    cbn [jump_size x86_jump_code]; [lia..|].
  change (x86_patch_jump b1 (offset b' - 5) (offset b') = Some b2) in H2.
  pose proof (x86_patch_frame _ _ _ _ Hj0 H2) as (_ & _ & _ & _ & _ & Hi2).
  assert (x86_jump_target b1 (offset b' - 5) = Some t) as Ht1 by (eapply x86_patch_target; eauto).
  exists b', (offset b' - 5), (offset b'). rewrite He.
  split_and!; try done; [lia| |lia|].
  - rewrite <- Hal. f_equal. lia.
  - exists b1, b2. split_and!; try done; [eapply x86_patch_target; eauto|].
    intros i ? ?. rewrite Hi2, Hi1 by lia. done.
Qed.

Lemma x86_goto_tb_spec_witness :
  ∃ b' j r, emit_goto_tb example_buffer = Some (b', (j, r)) ∧ x86_jump_target b' j = Some r.
Proof.
  destruct (x86_goto_tb_spec example_buffer 0 example_buffer_wf) as
    (b' & j & r & He & _ & _ & _ & _ & _ & _ & Ht & _); [by vm_compute..|].
  exists b', j, r. split; [exact He|exact Ht].
Defined.
