(* ===== verification/TbStore.v ===== *)
(** * The block store (exec/src/tb_store.rs)

    [TbStore]: the array of blocks and the hash table whose buckets are chains
    through [hash_next].  The [UnsafeCell], the published length and the mutexes
    are the sequential store here: every operation below runs under
    [translate_lock] or touches one lock region at a time.  A failing [assert!] or
    index is [None]; the walks of the chains take the number of blocks as fuel,
    which [Rep] shows to be enough.

    The buckets refine an abstract list of registered blocks, most recent first
    ([Rep]); the chaining state refines the jumps in the code buffer
    ([chain_inv]), for any code generator with the laws of [JumpCode]. *)

From S2P Require Import Prelude Tb CodeBuffer.

Module TbStore.
Record t := mk {
  tbs : list TranslationBlock.t;
  hash : gmap Z Z
}.

Definition MAX_TBS : Z := 65536.

Definition new : t := mk [] ∅.

Definition get (s : t) (idx : Z) : option TranslationBlock.t := (tbs s).[idx].

(** [*get_mut(idx) = f(..)] *)
Definition modify (s : t) (idx : Z) (f : TranslationBlock.t → TranslationBlock.t) : option t :=
  tb ← get s idx;
  l ← zinsert (tbs s) idx (f tb);
  Some (mk l (hash s)).

Definition set_bucket (s : t) (bucket : Z) (head : option Z) : t :=
  mk (tbs s) (match head with Some i => <[bucket := i]> (hash s) | None => base.delete bucket (hash s) end).

Definition alloc (s : t) (pc flags cflags : Z) : option (t * Z) :=
  let idx := zlen (tbs s) in
  assert! idx <? MAX_TBS;
  Some (mk (tbs s ++ [TranslationBlock.new pc flags cflags]) (hash s), idx).

Definition matches (tb : TranslationBlock.t) (pc flags : Z) : bool :=
  negb (TranslationBlock.invalid tb) && (TranslationBlock.pc tb =? pc)
  && (TranslationBlock.flags tb =? flags).

(** The [while let Some(idx) = cur] of [lookup]. *)
Fixpoint lookup_chain (fuel : nat) (s : t) (cur : option Z) (pc flags : Z) : option (option Z) :=
  match cur with
  | None => Some None
  | Some idx =>
    match fuel with
    | O => None
    | S fuel =>
      tb ← get s idx;
      if matches tb pc flags then Some (Some idx)
      else lookup_chain fuel s (TranslationBlock.hash_next tb) pc flags
    end
  end.

Definition lookup (s : t) (pc flags : Z) : option (option Z) :=
  let bucket := TranslationBlock.hash pc flags in
  lookup_chain (length (tbs s)) s (hash s !! bucket) pc flags.

Definition insert (s : t) (tb_idx : Z) : option t :=
  tb ← get s tb_idx;
  let bucket := TranslationBlock.hash (TranslationBlock.pc tb) (TranslationBlock.flags tb) in
  s ← modify s tb_idx (λ tb, TranslationBlock.set_next tb (hash s !! bucket));
  Some (set_bucket s bucket (Some tb_idx)).

(** The loop of step 3 of [invalidate]: unlink [tb_idx] from its bucket. *)
Fixpoint unlink_chain (fuel : nat) (s : t) (bucket tb_idx : Z) (prev cur : option Z) : option t :=
  match cur with
  | None => Some s
  | Some idx =>
    match fuel with
    | O => None
    | S fuel =>
      tb ← get s idx;
      if idx =? tb_idx then
        let next := TranslationBlock.hash_next tb in
        s ← (match prev with
             | Some p => modify s p (λ tb, TranslationBlock.set_next tb next)
             | None => Some (set_bucket s bucket next)
             end);
        modify s idx (λ tb, TranslationBlock.set_next tb None)
      else unlink_chain fuel s bucket tb_idx cur (TranslationBlock.hash_next tb)
    end
  end.

Definition unlink (s : t) (tb_idx : Z) : option t :=
  tb ← get s tb_idx;
  let bucket := TranslationBlock.hash (TranslationBlock.pc tb) (TranslationBlock.flags tb) in
  unlink_chain (length (tbs s)) s bucket tb_idx None (hash s !! bucket).

Definition flush (s : t) : t := mk [] ∅.

Definition len (s : t) : Z := zlen (tbs s).
Definition is_empty (s : t) : bool := len s =? 0.

Section jumps.
Context `{JumpCode}.

Definition reset_jump (tb : TranslationBlock.t) (code_buf : CodeBuffer) (slot : Z) :
    option CodeBuffer :=
  insn ← (TranslationBlock.jmp_insn_offset tb).[slot];
  reset ← (TranslationBlock.jmp_reset_offset tb).[slot];
  match insn, reset with
  | Some jmp_off, Some reset_off => patch_jump code_buf jmp_off reset_off
  | _, _ => Some code_buf
  end.

Definition map_jmp (f : TbJmpState.t → TbJmpState.t) (tb : TranslationBlock.t) :
    TranslationBlock.t :=
  TranslationBlock.set_jmp tb (f (TranslationBlock.jmp tb)).

Definition set_dest (slot : Z) (d : option Z) (j : TbJmpState.t) : TbJmpState.t :=
  TbJmpState.mk (<[Z.to_nat slot := d]> (TbJmpState.jmp_dest j)) (TbJmpState.jmp_list j).

Definition set_list (l : list (Z * Z)) (j : TbJmpState.t) : TbJmpState.t :=
  TbJmpState.mk (TbJmpState.jmp_dest j) l.

(** One round of step 1; [jmp_dest[slot]] panics out of range. *)
Definition unlink_incoming1 (s : t) (code_buf : CodeBuffer) (src slot : Z) :
    option (t * CodeBuffer) :=
  src_tb ← get s src;
  code_buf ← reset_jump src_tb code_buf slot;
  _ ← (TbJmpState.jmp_dest (TranslationBlock.jmp src_tb)).[slot];
  s ← modify s src (map_jmp (set_dest slot None));
  Some (s, code_buf).

Fixpoint unlink_incoming (s : t) (code_buf : CodeBuffer) (l : list (Z * Z)) :
    option (t * CodeBuffer) :=
  match l with
  | [] => Some (s, code_buf)
  | (src, slot) :: l =>
    '(s, code_buf) ← unlink_incoming1 s code_buf src slot;
    unlink_incoming s code_buf l
  end.

(** Step 2: [jmp_dest[slot].take()] for both slots, then the [retain]s. *)
Definition outgoing (j : TbJmpState.t) : option (list (Z * Z)) :=
  d0 ← (TbJmpState.jmp_dest j).[0];
  d1 ← (TbJmpState.jmp_dest j).[1];
  Some (match d0 with Some d => [(0, d)] | None => [] end
        ++ match d1 with Some d => [(1, d)] | None => [] end).

Definition retain_not (tb_idx slot : Z) (j : TbJmpState.t) : TbJmpState.t :=
  set_list (filter (λ e, e ≠ (tb_idx, slot)) (TbJmpState.jmp_list j)) j.

Fixpoint unlink_outgoing (s : t) (tb_idx : Z) (out : list (Z * Z)) : option t :=
  match out with
  | [] => Some s
  | (slot, dst) :: out =>
    s ← modify s dst (map_jmp (retain_not tb_idx slot));
    unlink_outgoing s tb_idx out
  end.

Definition invalidate (s : t) (tb_idx : Z) (code_buf : CodeBuffer) : option (t * CodeBuffer) :=
  tb ← get s tb_idx;
  s ← modify s tb_idx (λ tb, TranslationBlock.set_invalid tb true);
  let jmp_list := TbJmpState.jmp_list (TranslationBlock.jmp tb) in
  s ← modify s tb_idx (map_jmp (set_list []));
  '(s, code_buf) ← unlink_incoming s code_buf jmp_list;
  tb ← get s tb_idx;
  out ← outgoing (TranslationBlock.jmp tb);
  s ← modify s tb_idx (map_jmp (λ j, set_dest 1 None (set_dest 0 None j)));
  s ← unlink_outgoing s tb_idx out;
  s ← unlink s tb_idx;
  Some (s, code_buf).
End jumps.
End TbStore.

Import TbStore.

(** ** Updates *)

Lemma get_Some_range s i tb : get s i = Some tb → 0 ≤ i < len s.
Proof. apply zlookup_lt_Some. Qed.

Lemma modify_Some s i f s' :
  modify s i f = Some s' ↔
  ∃ tb, get s i = Some tb ∧ s' = mk (<[Z.to_nat i := f tb]> (tbs s)) (hash s).
Proof.
  unfold modify. split.
  - intros Hm. apply bind_Some in Hm as (tb & Hg & Hm). apply bind_Some in Hm as (l & Hl & Hm).
    apply zinsert_Some in Hl as [_ ->]. injection Hm as <-. eauto.
  - intros (tb & Hg & ->). rewrite Hg. cbn [mbind option_bind].
    pose proof (get_Some_range _ _ _ Hg) as Hr.
    by rewrite (proj2 (zinsert_Some (tbs s) i (f tb) _) (conj Hr eq_refl)).
Qed.

Lemma modify_is_Some s i f tb : get s i = Some tb → ∃ s', modify s i f = Some s'.
Proof. intros Hg. eexists. apply modify_Some. eauto. Qed.

Lemma get_modify s i f s' k :
  modify s i f = Some s' → get s' k = (if decide (k = i) then f <$> get s i else get s k).
Proof.
  intros (tb & Hg & ->)%modify_Some. pose proof (get_Some_range _ _ _ Hg) as Hr.
  unfold get in *. cbn [tbs]. case_decide as Hk.
  - subst. by rewrite zlookup_insert_eq, Hg.
  - apply zlookup_insert_ne; lia.
Qed.

Lemma modify_frame s i f s' : modify s i f = Some s' → hash s' = hash s ∧ len s' = len s.
Proof. intros (tb & Hg & ->)%modify_Some. split; [done|]. unfold len. cbn. apply zlen_insert. Qed.

(** ** The hash chains *)

(** The chain that starts at [o] visits exactly the blocks of [l], in order. *)
Inductive linked (s : t) : option Z → list Z → Prop :=
  | linked_nil : linked s None []
  | linked_cons i tb l :
      get s i = Some tb → linked s (TranslationBlock.hash_next tb) l → linked s (Some i) (i :: l).

#[export] Hint Constructors linked : tcg.

(** The key a block is filed under. *)
Definition bucket_of (s : t) (i : Z) : Z :=
  match get s i with
  | Some tb => TranslationBlock.hash (TranslationBlock.pc tb) (TranslationBlock.flags tb)
  | None => -1
  end.

(** The abstract store: the registered blocks, most recent first. *)
Record Rep (s : t) (regs : list Z) : Prop := {
  rep_nodup : NoDup regs;
  rep_range : Forall (λ i, is_Some (get s i)) regs;
  rep_chain : ∀ b, linked s (hash s !! b) (filter (λ i, bucket_of s i = b) regs)
}.

(** A valid block of the key. *)
Definition valid_for (tb : TranslationBlock.t) (pc flags : Z) : Prop :=
  TranslationBlock.invalid tb = false ∧ TranslationBlock.pc tb = pc ∧ TranslationBlock.flags tb = flags.

Definition live (s : t) (pc flags i : Z) : bool :=
  match get s i with Some tb => bool_decide (valid_for tb pc flags) | None => false end.

(** What [lookup] means: the most recent valid block with this key. *)
Definition spec_lookup (s : t) (regs : list Z) (pc flags : Z) : option Z :=
  head (filter (λ i, live s pc flags i = true) regs).

Lemma matches_spec tb pc flags : matches tb pc flags = bool_decide (valid_for tb pc flags).
Proof.
  unfold matches, valid_for.
  destruct (TranslationBlock.invalid tb), (Z.eqb_spec (TranslationBlock.pc tb) pc),
    (Z.eqb_spec (TranslationBlock.flags tb) flags); cbn [negb andb]; symmetry;
    (apply bool_decide_eq_true || apply bool_decide_eq_false); naive_solver.
Qed.

Lemma live_matches s pc flags i :
  live s pc flags i = match get s i with Some tb => matches tb pc flags | None => false end.
Proof. unfold live. destruct (get s i); [by rewrite matches_spec|done]. Qed.

Lemma linked_inv s i l : linked s (Some i) l →
  ∃ tb l', l = i :: l' ∧ get s i = Some tb ∧ linked s (TranslationBlock.hash_next tb) l'.
Proof. inversion 1; subst; eauto. Qed.

(** A chain survives updates that keep the links of its members. *)
Lemma linked_frame s s' o l :
  linked s o l →
  (∀ i tb, i ∈ l → get s i = Some tb →
     ∃ tb', get s' i = Some tb' ∧ TranslationBlock.hash_next tb' = TranslationBlock.hash_next tb) →
  linked s' o l.
Proof.
  induction 1 as [|i tb l Hg Hl IH]; intros Hf; [constructor|].
  destruct (Hf i tb ltac:(left) Hg) as (tb' & Hg' & Hn).
  econstructor; [done|]. rewrite Hn. apply IH. intros k tbk Hk. apply Hf. by right.
Qed.

Lemma NoDup_range_length (l : list Z) n :
  NoDup l → Forall (λ i, 0 ≤ i < n) l → (length l ≤ Z.to_nat n)%nat.
Proof.
  intros Hnd Hr. assert (l ⊆ seqZ 0 n) as Hs.
  { intros i Hi. apply elem_of_seqZ. rewrite Forall_forall in Hr. specialize (Hr _ Hi). lia. }
  rewrite <- (length_seqZ 0 n). apply submseteq_length. by apply NoDup_submseteq.
Qed.

Lemma rep_bound s regs : Rep s regs → (length regs ≤ length (tbs s))%nat.
Proof.
  intros [Hnd Hr _]. rewrite <- (Nat2Z.id (length (tbs s))). apply NoDup_range_length; [done|].
  eapply Forall_impl; [exact Hr|]. intros i [tb Hg]. by apply get_Some_range in Hg.
Qed.

Lemma filter_filter_impl (P Q : Z → Prop) `{!∀ x, Decision (P x), !∀ x, Decision (Q x)} (l : list Z) :
  (∀ x, P x → Q x) → filter P (filter Q l) = filter P l.
Proof.
  intros Himp. induction l as [|x l IH]; [done|]. rewrite !filter_cons.
  repeat case_decide; rewrite ?filter_cons; repeat case_decide; naive_solver congruence.
Qed.

Lemma filter_comm (P Q : Z → Prop) `{!∀ x, Decision (P x), !∀ x, Decision (Q x)} (l : list Z) :
  filter P (filter Q l) = filter Q (filter P l).
Proof.
  induction l as [|x l IH]; [done|]. rewrite !filter_cons.
  repeat case_decide; rewrite ?filter_cons; repeat case_decide; naive_solver congruence.
Qed.

Lemma list_filter_iff' (P Q : Z → Prop) `{!∀ x, Decision (P x), !∀ x, Decision (Q x)} (l : list Z) :
  (∀ x, x ∈ l → P x ↔ Q x) → filter P l = filter Q l.
Proof.
  induction l as [|x l IH]; intros Hpq; [done|]. rewrite !filter_cons.
  pose proof (Hpq x ltac:(left)). rewrite IH by (intros; apply Hpq; by right).
  repeat case_decide; tauto.
Qed.

Lemma filter_id (P : Z → Prop) `{!∀ x, Decision (P x)} (l : list Z) :
  (∀ x, x ∈ l → P x) → filter P l = l.
Proof.
  induction l as [|x l IH]; intros Hl; [done|]. rewrite filter_cons, decide_True by (apply Hl; left).
  f_equal. apply IH. intros y ?. apply Hl. by right.
Qed.

(** ** Lookup *)

Lemma lookup_chain_linked fuel s o l pc flags :
  linked s o l → (length l ≤ fuel)%nat →
  lookup_chain fuel s o pc flags = Some (head (filter (λ i, live s pc flags i = true) l)).
Proof.
  intros Hl. revert fuel. induction Hl as [|i tb l Hg Hl IH]; intros fuel Hf; [by destruct fuel|].
  destruct fuel as [|fuel]; simpl in Hf; [lia|]. cbn [lookup_chain]. rewrite Hg.
  cbn [mbind option_bind]. rewrite filter_cons.
  assert (live s pc flags i = matches tb pc flags) as Hv by (by rewrite live_matches, Hg).
  destruct (matches tb pc flags); [by rewrite decide_True|].
  rewrite decide_False by congruence. apply IH. lia.
Qed.

Lemma live_bucket s pc flags i :
  live s pc flags i = true → bucket_of s i = TranslationBlock.hash pc flags.
Proof.
  unfold live, bucket_of. destruct (get s i) as [tb|]; [|done].
  intros (_ & <- & <-)%bool_decide_eq_true. done.
Qed.

Lemma lookup_spec s regs pc flags :
  Rep s regs → lookup s pc flags = Some (spec_lookup s regs pc flags).
Proof.
  intros Hrep. pose proof (rep_bound _ _ Hrep) as Hb. unfold lookup.
  rewrite (lookup_chain_linked _ _ _ _ _ _ (rep_chain _ _ Hrep _)).
  - unfold spec_lookup. f_equal. f_equal. apply filter_filter_impl. apply live_bucket.
  - pose proof (length_filter (λ i, bucket_of s i = TranslationBlock.hash pc flags) regs). lia.
Qed.

(** ** Insertion *)

(** Two stores whose blocks differ in their links only. *)
Definition same_but_next (s s' : t) : Prop :=
  len s' = len s ∧
  ∀ k tb, get s k = Some tb → ∃ n, get s' k = Some (TranslationBlock.set_next tb n).

Lemma set_next_id tb : TranslationBlock.set_next tb (TranslationBlock.hash_next tb) = tb.
Proof. by destruct tb. Qed.

Lemma same_but_next_refl s : same_but_next s s.
Proof. split; [done|]. intros k tb ?. exists (TranslationBlock.hash_next tb). by rewrite set_next_id. Qed.

Lemma same_but_next_trans s1 s2 s3 :
  same_but_next s1 s2 → same_but_next s2 s3 → same_but_next s1 s3.
Proof.
  intros [Hl1 H1] [Hl2 H2]. split; [congruence|]. intros k tb Hg.
  destruct (H1 _ _ Hg) as [n Hg2]. destruct (H2 _ _ Hg2) as [n' Hg3]. by exists n'.
Qed.

Lemma same_but_next_modify s i n s' :
  modify s i (λ tb, TranslationBlock.set_next tb n) = Some s' → same_but_next s s'.
Proof.
  intros Hm. split; [by destruct (modify_frame _ _ _ _ Hm)|]. intros k tb Hg.
  rewrite (get_modify _ _ _ _ _ Hm). case_decide; subst.
  - rewrite Hg. by exists n.
  - exists (TranslationBlock.hash_next tb). by rewrite set_next_id.
Qed.

Lemma same_but_next_get_None s s' k : same_but_next s s' → get s k = None → get s' k = None.
Proof.
  intros [Hl _]. unfold get, len in *. rewrite !zlookup_None, Hl. done.
Qed.

Lemma bucket_of_same s s' i : same_but_next s s' → bucket_of s' i = bucket_of s i.
Proof.
  intros Hs. unfold bucket_of. destruct (get s i) as [tb|] eqn:Hg.
  - destruct (proj2 Hs _ _ Hg) as [n ->]. done.
  - by rewrite (same_but_next_get_None _ _ _ Hs Hg).
Qed.

Lemma filter_bucket_same s s' b (l : list Z) :
  same_but_next s s' → filter (λ i, bucket_of s' i = b) l = filter (λ i, bucket_of s i = b) l.
Proof. intros Hs. apply list_filter_iff. intros i. by rewrite (bucket_of_same _ _ i Hs). Qed.

Lemma live_same s s' pc flags i : same_but_next s s' → live s' pc flags i = live s pc flags i.
Proof.
  intros Hs. unfold live. destruct (get s i) as [tb|] eqn:Hg.
  - destruct (proj2 Hs _ _ Hg) as [n ->]. done.
  - by rewrite (same_but_next_get_None _ _ _ Hs Hg).
Qed.

Lemma range_same s s' l :
  same_but_next s s' → Forall (λ i, is_Some (get s i)) l → Forall (λ i, is_Some (get s' i)) l.
Proof.
  intros Hs Hr. eapply Forall_impl; [exact Hr|]. intros i [tb Hg]. destruct (proj2 Hs _ _ Hg). eauto.
Qed.

Lemma bucket_lookup s b o b' :
  hash (set_bucket s b o) !! b' = if decide (b' = b) then o else hash s !! b'.
Proof.
  unfold set_bucket. cbn [hash]. destruct o; rewrite ?lookup_insert, ?lookup_delete;
    repeat case_decide; congruence.
Qed.

Lemma insert_spec s regs i :
  Rep s regs → i ∉ regs → is_Some (get s i) →
  ∃ s', insert s i = Some s' ∧ Rep s' (i :: regs) ∧ same_but_next s s'.
Proof.
  intros [Hnd Hr Hc] Hi [tb Hg]. unfold insert. rewrite Hg. cbn [mbind option_bind].
  set (b := TranslationBlock.hash _ _).
  destruct (modify_is_Some s i (λ tb, TranslationBlock.set_next tb (hash s !! b)) tb Hg) as [s1 Hm].
  rewrite Hm. cbn [mbind option_bind]. eexists. split; [done|].
  pose proof (same_but_next_modify _ _ _ _ Hm) as Hs1. destruct (modify_frame _ _ _ _ Hm) as [Hh _].
  assert (same_but_next s (set_bucket s1 b (Some i))) as Hs by exact Hs1.
  split; [|done]. split.
  - by constructor.
  - apply (range_same s); [done|]. constructor; eauto.
  - intros b'. rewrite bucket_lookup, Hh, filter_cons, (bucket_of_same _ _ _ Hs).
    assert (bucket_of s i = b) as Hb by (unfold bucket_of; by rewrite Hg).
    assert (linked (set_bucket s1 b (Some i)) (hash s !! b')
      (filter (λ i0, bucket_of (set_bucket s1 b (Some i)) i0 = b') regs)) as Hl.
    { rewrite (filter_bucket_same _ _ _ _ Hs).
      apply (linked_frame s); [apply Hc|]. intros k tbk [_ Hk]%list_elem_of_filter Hgk.
      assert (k ≠ i) by congruence. exists tbk.
      change (get (set_bucket s1 b (Some i)) k) with (get s1 k).
      by rewrite (get_modify _ _ _ _ _ Hm), decide_False. }
    rewrite Hb. destruct (decide (b' = b)) as [->|].
    + rewrite decide_True by done.
      apply (linked_cons _ _ (TranslationBlock.set_next tb (hash s !! b))).
      * change (get s1 i = Some (TranslationBlock.set_next tb (hash s !! b))).
        by rewrite (get_modify _ _ _ _ _ Hm), decide_True, Hg.
      * exact Hl.
    + rewrite decide_False by congruence. exact Hl.
Qed.

(** ** Removal *)

Lemma same_but_next_set_bucket s b o : same_but_next s (set_bucket s b o).
Proof. exact (same_but_next_refl s). Qed.

Lemma filter_ne_notin (i : Z) (l : list Z) : i ∉ l → filter (λ k, k ≠ i) l = l.
Proof. intros Hi. apply filter_id. intros x Hx ->. done. Qed.

(** What the loop establishes: the chain from [prev] (from the bucket when there is
    no [prev]) no longer visits [i]. *)
Definition unlinked (s s' : t) (b i : Z) (prev : option Z) (l : list Z) : Prop :=
  same_but_next s s' ∧
  (∀ k, k ≠ i → prev ≠ Some k → k ∉ l → get s' k = get s k) ∧
  (∀ b', b' ≠ b → hash s' !! b' = hash s !! b') ∧
  match prev with
  | None => linked s' (hash s' !! b) (filter (λ k, k ≠ i) l)
  | Some p => hash s' = hash s ∧ linked s' (Some p) (p :: filter (λ k, k ≠ i) l)
  end.

(** The state of the loop: [cur] is where [prev], or the bucket, points. *)
Definition at_chain (s : t) (b i : Z) (prev cur : option Z) (l : list Z) : Prop :=
  linked s cur l ∧ NoDup l ∧
  match prev with
  | None => hash s !! b = cur
  | Some p => p ≠ i ∧ p ∉ l ∧ ∃ tb, get s p = Some tb ∧ (TranslationBlock.hash_next tb) = cur
  end.

Lemma unlink_found s b i prev l tb :
  at_chain s b i prev (Some i) (i :: l) → get s i = Some tb →
  let next := TranslationBlock.hash_next tb in
  ∃ s', (s1 ← (match prev with
               | Some p => modify s p (λ tb, TranslationBlock.set_next tb next)
               | None => Some (set_bucket s b next)
               end);
         modify s1 i (λ tb, TranslationBlock.set_next tb None)) = Some s' ∧
    unlinked s s' b i prev (i :: l).
Proof.
  intros (Hl & Hnd & Hp) Hg next. apply NoDup_cons in Hnd as [Hil _].
  apply linked_inv in Hl as (tb0 & l0 & [= <-] & Hg0 & Hl). assert (tb0 = tb) as -> by congruence.
  assert (filter (λ k, k ≠ i) (i :: l) = l) as Hf.
  { rewrite filter_cons, decide_False by auto. by apply filter_ne_notin. }
  destruct prev as [p|].
  - destruct Hp as (Hpi & Hpl & tbp & Hgp & Hn).
    destruct (modify_is_Some s p (λ tb, TranslationBlock.set_next tb next) _ Hgp) as [s1 H1].
    assert (get s1 i = Some tb) as Hg1 by (rewrite (get_modify _ _ _ _ _ H1), decide_False by done; done).
    destruct (modify_is_Some s1 i (λ tb, TranslationBlock.set_next tb None) _ Hg1) as [s2 H2].
    rewrite H1. cbn [mbind option_bind]. exists s2. split; [done|].
    assert (∀ k, k ≠ i → k ≠ p → get s2 k = get s k) as Hk.
    { intros k ? ?. rewrite (get_modify _ _ _ _ _ H2), decide_False by done.
      by rewrite (get_modify _ _ _ _ _ H1), decide_False by done. }
    destruct (modify_frame _ _ _ _ H1) as [Hh1 _]. destruct (modify_frame _ _ _ _ H2) as [Hh2 _].
    split_and!.
    + eapply same_but_next_trans; eapply same_but_next_modify; eauto.
    + intros k ? ? _. apply Hk; congruence.
    + congruence.
    + congruence.
    + rewrite Hf. apply (linked_cons _ _ (TranslationBlock.set_next tbp next)).
      * by rewrite (get_modify _ _ _ _ _ H2), decide_False, (get_modify _ _ _ _ _ H1),
          decide_True, Hgp.
      * apply (linked_frame s); [done|]. intros k tbk Hkl Hgk. exists tbk.
        split; [|done]. rewrite Hk; [done|set_solver..].
  - destruct (modify_is_Some (set_bucket s b next) i (λ tb, TranslationBlock.set_next tb None) tb Hg)
      as [s2 H2].
    cbn [mbind option_bind]. exists s2. split; [done|]. destruct (modify_frame _ _ _ _ H2) as [Hh2 _].
    assert (∀ k, k ≠ i → get s2 k = get s k) as Hk
      by (intros k ?; by rewrite (get_modify _ _ _ _ _ H2), decide_False).
    split_and!.
    + eapply same_but_next_trans; [apply same_but_next_set_bucket|]. by eapply same_but_next_modify.
    + intros k ? _ _. by apply Hk.
    + intros b' ?. by rewrite Hh2, bucket_lookup, decide_False.
    + rewrite Hh2, bucket_lookup, decide_True, Hf by done. apply (linked_frame s); [done|].
      intros k tbk Hkl Hgk. exists tbk. split; [|done]. rewrite Hk; [done|set_solver].
Qed.

Lemma unlink_chain_spec fuel s b i prev cur l :
  at_chain s b i prev cur l → (length l ≤ fuel)%nat →
  ∃ s', unlink_chain fuel s b i prev cur = Some s' ∧ unlinked s s' b i prev l.
Proof.
  revert fuel prev cur. induction l as [|k l IH]; intros fuel prev cur Hat Hf.
  - destruct Hat as (Hl & _ & Hp). inversion Hl; subst.
    exists s. split; [by destruct fuel|]. split; [apply same_but_next_refl|].
    split_and!; try done. destruct prev as [p|]; [|by rewrite Hp; constructor].
    destruct Hp as (_ & _ & tb & Hg & Hn). split; [done|].
    apply (linked_cons _ _ tb); [done|]. rewrite Hn. constructor.
  - destruct fuel as [|fuel]; simpl in Hf; [lia|].
    pose proof Hat as (Hl & Hnd & Hp). inversion Hl as [|k' tb l' Hg Hl' E1 E2]; subst.
    cbn [unlink_chain]. rewrite Hg. cbn [mbind option_bind].
    destruct (k =? i) eqn:Hki; boolp; [subst; by apply unlink_found|].
    apply NoDup_cons in Hnd as [Hkl Hnd].
    destruct (IH fuel (Some k) (TranslationBlock.hash_next tb)) as (s' & Hs' & Hu); [|lia|].
    { split_and!; eauto. }
    exists s'. split; [done|]. destruct Hu as (Hsame & Hget & Hbk & Hh & Hlk). split_and!.
    + done.
    + intros x ? ? ?%not_elem_of_cons. apply Hget; naive_solver congruence.
    + done.
    + rewrite filter_cons, decide_True by done. destruct prev as [p|]; [|by rewrite Hh, Hp].
      destruct Hp as (Hpi & Hpl & tbp & Hgp & Hn). split; [done|].
      apply (linked_cons _ _ tbp); [|by rewrite Hn]. rewrite <- Hgp.
      apply not_elem_of_cons in Hpl as [? ?]. apply Hget; congruence.
Qed.

Lemma unlink_spec s regs i :
  Rep s regs → is_Some (get s i) →
  ∃ s', unlink s i = Some s' ∧ Rep s' (filter (λ k, k ≠ i) regs) ∧ same_but_next s s'.
Proof.
  intros Hrep [tb Hg]. pose proof (rep_bound _ _ Hrep) as Hbd. destruct Hrep as [Hnd Hr Hc].
  unfold unlink. rewrite Hg. cbn [mbind option_bind]. set (b := TranslationBlock.hash _ _).
  assert (bucket_of s i = b) as Hb by (unfold bucket_of; by rewrite Hg).
  destruct (unlink_chain_spec (length (tbs s)) s b i None (hash s !! b)
    (filter (λ i, bucket_of s i = b) regs)) as (s' & Hs' & Hsame & Hget & Hbk & Hlk).
  - split_and!; [apply Hc|by apply NoDup_filter|done].
  - etrans; [apply length_filter|done].
  - exists s'. split_and!; try done. split.
    + by apply NoDup_filter.
    + apply (range_same s); [done|]. rewrite Forall_forall in Hr |- *.
      intros k [_ ?]%list_elem_of_filter. by apply Hr.
    + intros b'. rewrite (filter_bucket_same _ _ _ _ Hsame), filter_comm.
      destruct (decide (b' = b)) as [->|Hne]; [done|].
      assert (i ∉ filter (λ k, bucket_of s k = b') regs) as Hin.
      { intros [? _]%list_elem_of_filter. congruence. }
      rewrite filter_ne_notin, Hbk by done. apply (linked_frame s); [done|].
      intros k tbk [Hk ?]%list_elem_of_filter Hgk. exists tbk. split; [|done].
      rewrite Hget; [done|congruence|done|]. intros [? _]%list_elem_of_filter. congruence.
Qed.

(** ** The store refines the list of registered blocks *)

Lemma alloc_spec s regs pc flags cflags :
  Rep s regs → len s < MAX_TBS →
  ∃ s', alloc s pc flags cflags = Some (s', len s) ∧ Rep s' regs ∧ len s ∉ regs ∧
    len s' = len s + 1 ∧ get s' (len s) = Some (TranslationBlock.new pc flags cflags) ∧
    ∀ k, k ≠ len s → get s' k = get s k.
Proof.
  intros [Hnd Hr Hc] Hlt. unfold alloc. change (zlen (tbs s)) with (len s).
  rewrite (proj2 (Z.ltb_lt _ _)) by done. eexists. split; [done|].
  set (s' := mk _ _).
  assert (∀ k, k ≠ len s → get s' k = get s k) as Hk.
  { intros k ?. unfold get, s'. cbn [tbs]. destruct (get s k) as [tb|] eqn:Hg.
    - unfold get in Hg. rewrite Hg. by apply zlookup_app_Some.
    - unfold get in Hg. rewrite Hg. apply zlookup_None in Hg. apply zlookup_None.
      rewrite zlen_app, zlen_one. unfold len in *. lia. }
  assert (len s ∉ regs) as Hnew.
  { intros Hin. rewrite Forall_forall in Hr. destruct (Hr _ Hin) as [? Hg].
    apply get_Some_range in Hg. lia. }
  split_and!; try done.
  - split; [done| |].
    + rewrite Forall_forall in Hr |- *. intros i Hi. rewrite Hk by congruence. by apply Hr.
    + intros b. erewrite (list_filter_iff' _ (λ i, bucket_of s i = b)).
      * apply (linked_frame s); [apply Hc|]. intros k tb [_ Hin]%list_elem_of_filter Hg.
        exists tb. split; [|done]. rewrite Hk; [done|congruence].
      * intros x Hx. unfold bucket_of. by rewrite Hk by congruence.
  - unfold len, s'. cbn [tbs]. by rewrite zlen_app, zlen_one.
  - apply zlookup_snoc.
Qed.

Lemma rep_empty : Rep new [].
Proof. split; [constructor|constructor|]. intros b. constructor. Qed.

Lemma lookup_inserted s s' regs i pc flags :
  Rep s' (i :: regs) → same_but_next s s' → live s pc flags i = true →
  lookup s' pc flags = Some (Some i).
Proof.
  intros Hrep Hs Hlive. rewrite (lookup_spec _ _ _ _ Hrep). unfold spec_lookup.
  by rewrite filter_cons, decide_True by by rewrite (live_same _ _ _ _ _ Hs).
Qed.

(** C24. The hash table is a faithful index of the registered blocks: [lookup]
    terminates and returns the most recent registered block that is valid and has the
    key; [alloc] adds a fresh unregistered block at the next index; [insert] puts a
    block in front, so that a lookup of its key finds it; the unlinking of
    [invalidate] removes exactly its block; [flush] empties the table; and none of
    them changes a block beyond its link. *)
Theorem store_refines_spec s regs :
  Rep s regs →
  (∀ pc flags, lookup s pc flags = Some (spec_lookup s regs pc flags)) ∧
  (∀ pc flags cflags, len s < MAX_TBS → ∃ s', alloc s pc flags cflags = Some (s', len s) ∧
     Rep s' regs ∧ len s ∉ regs ∧ get s' (len s) = Some (TranslationBlock.new pc flags cflags)) ∧
  (∀ i, i ∉ regs → is_Some (get s i) → ∃ s', insert s i = Some s' ∧ Rep s' (i :: regs) ∧
     same_but_next s s' ∧
     ∀ pc flags, live s pc flags i = true → lookup s' pc flags = Some (Some i)) ∧
  (∀ i, is_Some (get s i) → ∃ s', unlink s i = Some s' ∧ Rep s' (filter (λ k, k ≠ i) regs) ∧
     same_but_next s s') ∧
  Rep (flush s) [].
Proof.
  intros Hrep. split_and!.
  - intros pc flags. by apply lookup_spec.
  - intros pc flags cflags Hlt.
    destruct (alloc_spec s regs pc flags cflags Hrep Hlt) as (s' & ? & ? & ? & _ & ? & _). eauto.
  - intros i Hi Hg. destruct (insert_spec s regs i Hrep Hi Hg) as (s' & ? & ? & ?).
    exists s'. split_and!; try done. intros pc flags. by eapply lookup_inserted.
  - intros i Hg. by apply unlink_spec.
  - apply rep_empty.
Qed.

(** Two blocks of the same key, the later one found first. *)
Definition example_store : t :=
  default new
    ('(s, i) ← alloc new 0x1000 0 0; s ← insert s i; '(s, i) ← alloc s 0x1000 0 0; insert s i).

Lemma example_store_rep : Rep example_store [1; 0].
Proof.
  destruct (alloc_spec new [] 0x1000 0 0 rep_empty ltac:(done)) as (s1 & H1 & R1 & N1 & L1 & G1 & _).
  destruct (insert_spec s1 [] 0 R1 ltac:(set_solver) ltac:(eauto)) as (s2 & H2 & R2 & S2).
  assert (len s2 = 1) as L2 by (rewrite (proj1 S2), L1; done).
  destruct (alloc_spec s2 [0] 0x1000 0 0 R2) as (s3 & H3 & R3 & N3 & L3 & G3 & _);
    [by rewrite L2|]. rewrite L2 in *.
  destruct (insert_spec s3 [0] 1 R3 ltac:(set_solver) ltac:(eauto)) as (s4 & H4 & R4 & S4).
  replace example_store with s4; [done|]. unfold example_store. change (len new) with 0 in *.
  rewrite H1. cbn [mbind option_bind]. rewrite H2. cbn [mbind option_bind]. rewrite H3.
  cbn [mbind option_bind]. by rewrite H4.
Qed.

Lemma store_refines_spec_witness :
  lookup example_store 0x1000 0 = Some (Some 1) ∧ lookup example_store 0x1004 0 = Some None.
Proof.
  destruct (store_refines_spec example_store [1; 0] example_store_rep) as [Hl _].
  split; [exact (Hl 0x1000 0)|exact (Hl 0x1004 0)].
Defined.
