(* ===== verification/Chain.v ===== *)
(** * Chained jumps (invalidate of exec/src/tb_store.rs)

    The relation between the chaining state of the blocks ([jmp_dest],
    [jmp_list]) and the jumps in the code buffer, for any code generator with the
    laws of [JumpCode].  [chain_inv] says that every edge of a block is recorded at
    its destination, that the destination is valid, and that the jumps of a valid
    block lead where its edges say; [invalidate_spec] shows that invalidation
    keeps it and leaves no way into the block. *)

From S2P Require Import Prelude Tb CodeBuffer TbStore.

Import TbStore.

(** ** Layout: what chaining never changes *)

Definition dest (tb : TranslationBlock.t) : list (option Z) :=
  TbJmpState.jmp_dest (TranslationBlock.jmp tb).
Definition incoming (tb : TranslationBlock.t) : list (Z * Z) :=
  TbJmpState.jmp_list (TranslationBlock.jmp tb).

(** Equal but for the chaining fields and the link. *)
Definition same_code (tb tb' : TranslationBlock.t) : Prop :=
  TranslationBlock.host_offset tb' = TranslationBlock.host_offset tb ∧
  TranslationBlock.jmp_insn_offset tb' = TranslationBlock.jmp_insn_offset tb ∧
  TranslationBlock.jmp_reset_offset tb' = TranslationBlock.jmp_reset_offset tb ∧
  TranslationBlock.pc tb' = TranslationBlock.pc tb ∧
  TranslationBlock.flags tb' = TranslationBlock.flags tb.

(** Only the chaining fields changed. *)
Definition same_block (tb tb' : TranslationBlock.t) : Prop :=
  same_code tb tb' ∧
  (TranslationBlock.hash_next tb', TranslationBlock.exit_target tb') =
    (TranslationBlock.hash_next tb, TranslationBlock.exit_target tb) ∧
  TranslationBlock.invalid tb' = TranslationBlock.invalid tb.

(** Only the link and the exit cache changed. *)
Definition same_jumps (tb tb' : TranslationBlock.t) : Prop :=
  same_code tb tb' ∧ TranslationBlock.jmp tb' = TranslationBlock.jmp tb ∧
  TranslationBlock.invalid tb' = TranslationBlock.invalid tb.

(** Stores whose blocks are related one by one. *)
Definition upto (R : TranslationBlock.t → TranslationBlock.t → Prop) (s s' : t) : Prop :=
  len s' = len s ∧ ∀ k tb', get s' k = Some tb' → ∃ tb, get s k = Some tb ∧ R tb tb'.

Abbreviation same_layout := (upto same_code).

#[export] Instance same_code_preorder : PreOrder same_code.
Proof. split; [done|]. intros ???; unfold same_code. intuition congruence. Qed.

#[export] Instance same_block_preorder : PreOrder same_block.
Proof.
  split; [done|]. intros ??? (H1 & ? & ?) (H2 & ? & ?).
  split; [etrans; eassumption|split; congruence].
Qed.

#[export] Instance upto_preorder R : PreOrder R → PreOrder (upto R).
Proof.
  intros HR. split.
  - intros s. split; [done|]. intros k tb' Hg. by exists tb'.
  - intros s1 s2 s3 [Hl1 H1] [Hl2 H2]. split; [congruence|]. intros k tb3 Hg3.
    destruct (H2 _ _ Hg3) as (tb2 & Hg2 & ?). destruct (H1 _ _ Hg2) as (tb1 & ? & ?).
    exists tb1. split; [done|]. by etrans.
Qed.

Lemma upto_mono (R R' : TranslationBlock.t → TranslationBlock.t → Prop) s s' :
  (∀ tb tb', R tb tb' → R' tb tb') → upto R s s' → upto R' s s'.
Proof.
  intros HR [Hl Hs]. split; [done|]. intros k tb' Hg. destruct (Hs _ _ Hg) as (tb & ? & ?). eauto.
Qed.

Lemma upto_block_code s s' : upto same_block s s' → same_layout s s'.
Proof. apply upto_mono. by intros ?? []. Qed.

Lemma upto_get R s s' k tb :
  upto R s s' → get s k = Some tb → ∃ tb', get s' k = Some tb' ∧ R tb tb'.
Proof.
  intros [Hl Hs] Hg. pose proof (get_Some_range _ _ _ Hg) as Hr. rewrite <- Hl in Hr.
  apply zlookup_lt_is_Some in Hr as [tb' Hg']. destruct (Hs k tb' Hg') as (tb0 & Hg0 & ?).
  exists tb'. split; [done|]. congruence.
Qed.

Lemma modify_upto R s i f s' :
  PreOrder R → (∀ tb, R tb (f tb)) → modify s i f = Some s' → upto R s s'.
Proof.
  intros HR Hf Hm. split; [by destruct (modify_frame _ _ _ _ Hm)|]. intros k tb' Hg.
  rewrite (get_modify _ _ _ _ _ Hm) in Hg. case_decide; [|by exists tb'].
  subst. apply fmap_Some in Hg as (tb & Hg & ->). eauto.
Qed.

Lemma map_jmp_same f tb : same_block tb (map_jmp f tb).
Proof. done. Qed.

(** The index sees keys and links only. *)
Definition same_key (tb tb' : TranslationBlock.t) : Prop :=
  TranslationBlock.pc tb' = TranslationBlock.pc tb ∧
  TranslationBlock.flags tb' = TranslationBlock.flags tb ∧
  TranslationBlock.hash_next tb' = TranslationBlock.hash_next tb.

#[export] Instance same_key_preorder : PreOrder same_key.
Proof. split; [done|]. intros ???; unfold same_key. intuition congruence. Qed.

Lemma same_block_key tb tb' : same_block tb tb' → same_key tb tb'.
Proof. intros ((_ & _ & _ & ? & ?) & [= ? ?] & _). by split_and!. Qed.

Lemma rep_upto s s' regs :
  Rep s regs → hash s' = hash s → upto same_key s s' → Rep s' regs.
Proof.
  intros [Hnd Hr Hc] Hh Hs. split; [done| |].
  - eapply Forall_impl; [exact Hr|]. intros i [tb Hg].
    destruct (upto_get _ _ _ _ _ Hs Hg) as (tb' & ? & _). eauto.
  - intros b. rewrite Hh. rewrite (list_filter_iff' _ (λ i, bucket_of s i = b)).
    + apply (linked_frame s); [apply Hc|]. intros k tb _ Hg.
      destruct (upto_get _ _ _ _ _ Hs Hg) as (tb' & ? & _ & _ & ?). eauto.
    + intros i Hi. rewrite Forall_forall in Hr. destruct (Hr _ Hi) as [tb Hg].
      destruct (upto_get _ _ _ _ _ Hs Hg) as (tb' & Hg' & Hpc & Hf & _).
      unfold bucket_of. by rewrite Hg, Hg', Hpc, Hf.
Qed.

(** The patchable jump of slot [slot] of block [i]. *)
Definition site (s : t) (i slot j : Z) : Prop :=
  ∃ tb, get s i = Some tb ∧ (TranslationBlock.jmp_insn_offset tb).[slot] = Some (Some j).

Section chain.
Context `{JumpCodeLaws}.

Record layout (s : t) (b : CodeBuffer) : Prop := {
  lo_buf : wf_buffer b ∧ capacity b ≤ 2 ^ 31;
  lo_host i tb : get s i = Some tb → 0 ≤ TranslationBlock.host_offset tb ≤ capacity b;
  lo_len i tb : get s i = Some tb →
    zlen (TranslationBlock.jmp_insn_offset tb) = 2 ∧ zlen (TranslationBlock.jmp_reset_offset tb) = 2;
  lo_site i tb slot j : get s i = Some tb →
    (TranslationBlock.jmp_insn_offset tb).[slot] = Some (Some j) →
    0 ≤ j ∧ j + jump_size ≤ offset b ∧ is_Some (jump_target b j) ∧
    ∃ r, (TranslationBlock.jmp_reset_offset tb).[slot] = Some (Some r) ∧ 0 ≤ r ≤ capacity b;
  lo_apart i slot j i' slot' j' : site s i slot j → site s i' slot' j' →
    (i, slot) ≠ (i', slot') → j + jump_size ≤ j' ∨ j' + jump_size ≤ j
}.

(** Edges that point at [idx] are pending: they are those of [pend].  In a state at
    rest [idx] is no block and [pend] is empty. *)
Record edges (s : t) (idx : Z) (pend : list (Z * Z)) : Prop := {
  ed_len i tb : get s i = Some tb → zlen (dest tb) = 2;
  ed_list i tb src slot : get s i = Some tb → (src, slot) ∈ incoming tb →
    0 ≤ src < len s ∧ 0 ≤ slot < 2;
  ed_pend src slot : (src, slot) ∈ pend → 0 ≤ src < len s ∧ 0 ≤ slot < 2;
  ed_dest src tb slot d : get s src = Some tb → (dest tb).[slot] = Some (Some d) →
    if decide (d = idx) then (src, slot) ∈ pend
    else ∃ td, get s d = Some td ∧ TranslationBlock.invalid td = false ∧ (src, slot) ∈ incoming td
}.

(** Where the jump of a slot must lead. *)
Definition expected (s : t) (tb : TranslationBlock.t) (slot r : Z) : option Z :=
  match (dest tb).[slot] with
  | Some (Some d) => TranslationBlock.host_offset <$> get s d
  | _ => Some r
  end.

Definition coded (s : t) (b : CodeBuffer) : Prop :=
  ∀ i tb slot j r, get s i = Some tb → TranslationBlock.invalid tb = false →
    (TranslationBlock.jmp_insn_offset tb).[slot] = Some (Some j) →
    (TranslationBlock.jmp_reset_offset tb).[slot] = Some (Some r) →
    jump_target b j = expected s tb slot r.

Definition chain_inv (s : t) (b : CodeBuffer) : Prop := layout s b ∧ edges s (-1) [] ∧ coded s b.

(** ** The layout is kept *)

Lemma site_same s s' i slot j : same_layout s s' → site s' i slot j → site s i slot j.
Proof.
  intros [_ Hs] (tb' & Hg & Hj). destruct (Hs _ _ Hg) as (tb & ? & _ & Hi & _).
  exists tb. split; [done|]. by rewrite <- Hi.
Qed.

Lemma layout_same s s' b : same_layout s s' → layout s b → layout s' b.
Proof.
  intros Hs [Hb Hh Hl Hsite Hap]. split; [done|..].
  - intros i tb' Hg. destruct (proj2 Hs _ _ Hg) as (tb & ? & -> & _). eauto.
  - intros i tb' Hg. destruct (proj2 Hs _ _ Hg) as (tb & ? & _ & -> & -> & _). eauto.
  - intros i tb' slot j Hg. destruct (proj2 Hs _ _ Hg) as (tb & ? & _ & -> & -> & _). eauto.
  - intros i slot j i' slot' j' Hj Hj' ?. eapply Hap; [by eapply site_same..|done].
Qed.

(** Patching one jump keeps the layout and every other jump. *)
Lemma layout_patch s b i slot j t b' :
  layout s b → site s i slot j → patch_jump b j t = Some b' →
  layout s b' ∧ jump_target b' j = Some t ∧
  ∀ i' slot' j', site s i' slot' j' → (i', slot') ≠ (i, slot) → jump_target b' j' = jump_target b j'.
Proof.
  intros Hlo Hj Hp. destruct Hj as (tb & Hg & Hj).
  destruct (lo_site _ _ Hlo _ _ _ _ Hg Hj) as (Hj0 & Hjs & Hjt & _).
  destruct (patch_frame _ _ _ _ Hj0 Hp) as (Ho & Hc & Hwf & Hi).
  pose proof (patch_target _ _ _ _ Hjt Hp) as Ht.
  assert (∀ i' slot' j', site s i' slot' j' → (i', slot') ≠ (i, slot) →
    jump_target b' j' = jump_target b j') as Hother.
  { intros i' slot' j' Hj' Hne. assert (site s i slot j) as Hs by (exists tb; done).
    pose proof (lo_apart _ _ Hlo _ _ _ _ _ _ Hj' Hs Hne) as Hap.
    destruct Hj' as (tb' & Hg' & Hj'). destruct (lo_site _ _ Hlo _ _ _ _ Hg' Hj') as (? & _).
    apply target_ext; [done..|]. intros x Hx. apply Hi; lia. }
  split_and!; try done. split.
  - destruct (lo_buf _ _ Hlo). rewrite Hc. auto.
  - intros. rewrite Hc. by eapply lo_host.
  - apply Hlo.
  - intros i' tb' slot' j' Hg' Hj'. rewrite Hc, Ho.
    destruct (lo_site _ _ Hlo _ _ _ _ Hg' Hj') as (? & ? & ? & ?). split_and!; try done.
    destruct (decide ((i', slot') = (i, slot))) as [Heq|Hne].
    + injection Heq as -> ->. assert (j' = j) as -> by congruence. eauto.
    + rewrite (Hother i' slot' j'); [done|exists tb'; done|done].
  - apply Hlo.
Qed.

Lemma expected_same s s' tb tb' slot r :
  same_layout s s' → dest tb' = dest tb → expected s' tb' slot r = expected s tb slot r.
Proof.
  intros Hs Hd. unfold expected. rewrite Hd. destruct ((dest tb).[slot]) as [[d|]|]; [|done..].
  destruct (get s' d) as [td'|] eqn:Hg'.
  - destruct (proj2 Hs _ _ Hg') as (td & -> & Hh & _). cbn. by rewrite Hh.
  - destruct (get s d) as [td|] eqn:Hg; [|done].
    destruct (upto_get _ _ _ _ _ Hs Hg) as (td' & ? & _). congruence.
Qed.

(** ** Redirecting one slot *)

Lemma dest_set tb slot d :
  dest (map_jmp (set_dest slot d) tb) = <[Z.to_nat slot := d]> (dest tb).
Proof. done. Qed.

(** The patch that goes with setting [jmp_dest[slot]] to [d] in the block [tb]. *)
Definition repatched (s : t) (tb : TranslationBlock.t) (slot : Z) (d : option Z)
    (b b' : CodeBuffer) : Prop :=
  match (TranslationBlock.jmp_insn_offset tb).[slot] with
  | Some (Some j) => ∃ r t, (TranslationBlock.jmp_reset_offset tb).[slot] = Some (Some r) ∧
      patch_jump b j t = Some b' ∧
      Some t = match d with Some d => TranslationBlock.host_offset <$> get s d | None => Some r end
  | _ => b' = b
  end.

Lemma coded_set_dest s b src tb slot d s' b' :
  layout s b → coded s b → get s src = Some tb → zlen (dest tb) = 2 → 0 ≤ slot < 2 →
  modify s src (map_jmp (set_dest slot d)) = Some s' → repatched s tb slot d b b' →
  layout s' b' ∧ coded s' b'.
Proof.
  intros Hlo Hco Hg Hlen Hslot Hm Hp.
  assert (upto same_block s s') as Hs%upto_block_code
    by (eapply modify_upto; [apply _| |exact Hm]; by intros).
  assert (∀ i tb' slot', get s' i = Some tb' → (i, slot') ≠ (src, slot) → 0 ≤ slot' →
    ∃ tb0, get s i = Some tb0 ∧ (∀ r, expected s' tb' slot' r = expected s tb0 slot' r) ∧
      same_block tb0 tb') as Hother.
  { intros i tb' slot' Hg' Hne Hs0. rewrite (get_modify _ _ _ _ _ Hm) in Hg'. case_decide as Hi.
    - subst. rewrite Hg in Hg'. injection Hg' as <-. exists tb. split; [done|]. split; [|done].
      intros r. transitivity (expected s (map_jmp (set_dest slot d) tb) slot' r);
        [by apply expected_same|]. unfold expected. rewrite dest_set.
      rewrite zlookup_insert_ne; [done|lia|congruence].
    - exists tb'. split; [done|]. split; [|done]. intros r. by apply expected_same. }
  unfold repatched in Hp. destruct ((TranslationBlock.jmp_insn_offset tb).[slot]) as [[j|]|] eqn:Hj.
  - destruct Hp as (r & t & Hr & Hp & Ht).
    destruct (layout_patch s b src slot j t b' Hlo ltac:(by exists tb) Hp) as (Hlo' & Htj & Hto).
    split; [by eapply layout_same|]. intros i tb' slot' j' r' Hg' Hv Hj' Hr'.
    destruct (decide ((i, slot') = (src, slot))) as [Heq|Hne].
    + injection Heq as -> ->. rewrite (get_modify _ _ _ _ _ Hm), decide_True, Hg in Hg' by done.
      injection Hg' as <-. cbn in Hj', Hr'. assert (j' = j) as -> by congruence.
      assert (r' = r) as -> by congruence. rewrite Htj, Ht. unfold expected.
      rewrite dest_set, zlookup_insert_eq by lia. destruct d as [d|]; [|done].
      destruct (get s d) as [td|] eqn:Hgd; [|done].
      destruct (upto_get _ _ _ _ _ Hs Hgd) as (td' & -> & Hh & _). cbn. by rewrite Hh.
    + destruct (Hother _ _ _ Hg' Hne) as (tb0 & Hg0 & -> & (_ & Hi0 & Hr0 & _) & _ & Hv0).
      { apply zlookup_lt_Some in Hj'. lia. }
      rewrite (Hto i slot' j'); [|exists tb0; split; [done|congruence]|done].
      eapply Hco; [done|congruence..].
  - subst b'. split; [by eapply layout_same|]. intros i tb' slot' j' r' Hg' Hv Hj' Hr'.
    destruct (decide ((i, slot') = (src, slot))) as [Heq|Hne].
    + injection Heq as -> ->. rewrite (get_modify _ _ _ _ _ Hm), decide_True, Hg in Hg' by done.
      injection Hg' as <-. cbn in Hj'. congruence.
    + destruct (Hother _ _ _ Hg' Hne) as (tb0 & Hg0 & -> & (_ & Hi0 & Hr0 & _) & _ & Hv0).
      { apply zlookup_lt_Some in Hj'. lia. }
      eapply Hco; [done|congruence..].
  - apply zlookup_None in Hj. destruct (lo_len _ _ Hlo _ _ Hg) as [Hl _]. lia.
Qed.

(** ** Invalidation, step by step *)

Lemma reset_jump_spec s b src tb slot :
  layout s b → get s src = Some tb → 0 ≤ slot < 2 →
  ∃ b', reset_jump tb b slot = Some b' ∧ repatched s tb slot None b b'.
Proof.
  intros Hlo Hg Hslot. destruct (lo_len _ _ Hlo _ _ Hg) as [Hl1 Hl2].
  destruct (proj2 (zlookup_lt_is_Some (TranslationBlock.jmp_insn_offset tb) slot)) as [insn Hi]; [lia|].
  destruct (proj2 (zlookup_lt_is_Some (TranslationBlock.jmp_reset_offset tb) slot)) as [reset Hr]; [lia|].
  unfold reset_jump, repatched. rewrite Hi, Hr. cbn [mbind option_bind].
  destruct insn as [j|]; [|eauto].
  destruct (lo_site _ _ Hlo _ _ _ _ Hg Hi) as (Hj0 & Hjs & _ & r & Hr' & Hrange).
  assert (reset = Some r) as -> by congruence. destruct (lo_buf _ _ Hlo) as [Hwf Hcap].
  pose proof (wb_offset _ Hwf). destruct (patch_total b j r) as [b' Hb']; [lia..|].
  exists b'. split; [done|]. by exists r, r.
Qed.

Lemma set_dest_upto s src slot d s' :
  modify s src (map_jmp (set_dest slot d)) = Some s' → upto same_block s s' ∧ hash s' = hash s.
Proof.
  intros Hm. split; [|by destruct (modify_frame _ _ _ _ Hm)].
  eapply modify_upto; [apply _| |exact Hm]. by intros.
Qed.

(** The edges after one destination is cleared: one pending edge less. *)
Lemma edges_clear s idx src slot l s' :
  edges s idx ((src, slot) :: l) → modify s src (map_jmp (set_dest slot None)) = Some s' →
  edges s' idx l.
Proof.
  intros He Hm. pose proof (modify_frame _ _ _ _ Hm) as [_ Hlen].
  destruct (ed_pend _ _ _ He src slot ltac:(left)) as [Hsrc Hslot].
  assert (∀ k tb', get s' k = Some tb' → ∃ tb, get s k = Some tb ∧ incoming tb' = incoming tb ∧
    TranslationBlock.invalid tb' = TranslationBlock.invalid tb ∧
    dest tb' = if decide (k = src) then <[Z.to_nat slot := None]> (dest tb) else dest tb) as Hget.
  { intros k tb' Hg. rewrite (get_modify _ _ _ _ _ Hm) in Hg. case_decide; [|eauto].
    subst. apply fmap_Some in Hg as (tb & Hg & ->). eauto. }
  split.
  - intros i tb' Hg. destruct (Hget _ _ Hg) as (tb & Hg0 & _ & _ & ->).
    case_decide; rewrite ?zlen_insert; by eapply ed_len.
  - intros i tb' src' slot' Hg. destruct (Hget _ _ Hg) as (tb & Hg0 & -> & _). rewrite Hlen.
    by eapply ed_list.
  - intros src' slot' Hin. rewrite Hlen. eapply ed_pend; [done|by right].
  - intros src' tb' slot' d Hg Hd. destruct (Hget _ _ Hg) as (tb & Hg0 & _ & _ & Hdest).
    rewrite Hdest in Hd. assert ((dest tb).[slot'] = Some (Some d) ∧ (src', slot') ≠ (src, slot)) as [Hd0 Hne].
    { case_decide as Hs; [|split; [done|congruence]]. subst.
      destruct (decide (slot' = slot)) as [->|].
      - rewrite zlookup_insert_eq in Hd; [done|]. by rewrite (ed_len _ _ _ He _ _ Hg0).
      - rewrite zlookup_insert_ne in Hd; [|lia|done]. split; [done|congruence]. }
    pose proof (ed_dest _ _ _ He _ _ _ _ Hg0 Hd0) as Hp. case_decide.
    + by apply elem_of_cons in Hp as [?|?].
    + destruct Hp as (td & Hgd & Hv & Hin).
      destruct (get s' d) as [td'|] eqn:Hgd'.
      * destruct (Hget _ _ Hgd') as (td0 & Hgd0 & Hi & Hv' & _). exists td'. split; [done|].
        assert (td0 = td) as -> by congruence. by rewrite Hv', Hi.
      * unfold get, len in *. apply zlookup_None in Hgd'. apply zlookup_lt_Some in Hgd. lia.
Qed.

Lemma unlink_incoming_spec l s b idx :
  layout s b → edges s idx l → coded s b →
  ∃ s' b', unlink_incoming s b l = Some (s', b') ∧ layout s' b' ∧ edges s' idx [] ∧ coded s' b' ∧
    upto same_block s s' ∧ hash s' = hash s ∧ (∀ i tb tb', get s i = Some tb → get s' i = Some tb' →
      incoming tb' = incoming tb).
Proof.
  revert s b. induction l as [|[src slot] l IH]; intros s b Hlo He Hco.
  { exists s, b. split_and!; try done. congruence. }
  destruct (ed_pend _ _ _ He src slot ltac:(left)) as [Hsrc Hslot].
  destruct (proj2 (zlookup_lt_is_Some (tbs s) src) Hsrc) as [tb Hg]. change (get s src = Some tb) in Hg.
  destruct (reset_jump_spec s b src tb slot Hlo Hg Hslot) as (b1 & Hb1 & Hp).
  destruct (modify_is_Some s src (map_jmp (set_dest slot None)) tb Hg) as [s1 Hm].
  pose proof (ed_len _ _ _ He _ _ Hg) as Hlen.
  destruct (coded_set_dest s b src tb slot None s1 b1) as [Hlo1 Hco1]; try done.
  pose proof (edges_clear _ _ _ _ _ _ He Hm) as He1.
  destruct (IH s1 b1 Hlo1 He1 Hco1) as (s' & b' & Hu & ? & ? & ? & Hs' & Hh' & Hin).
  destruct (set_dest_upto _ _ _ _ _ Hm) as [Hs1 Hh1].
  exists s', b'. split_and!; try done.
  - cbn [unlink_incoming]. unfold unlink_incoming1. rewrite Hg. cbn [mbind option_bind]. rewrite Hb1.
    cbn [mbind option_bind]. change (TbJmpState.jmp_dest (TranslationBlock.jmp tb)) with (dest tb).
    destruct (proj2 (zlookup_lt_is_Some (dest tb) slot)) as [x ->]; [lia|]. cbn [mbind option_bind].
    rewrite Hm. exact Hu.
  - by etrans.
  - congruence.
  - intros i tbi tbi' Hgi Hgi'. destruct (upto_get _ _ _ _ _ Hs1 Hgi) as (tb1 & Hg1 & _).
    rewrite (Hin _ _ _ Hg1 Hgi'). rewrite (get_modify _ _ _ _ _ Hm) in Hg1. case_decide; [|congruence].
    subst. rewrite Hgi in Hg1. by injection Hg1 as <-.
Qed.

(** Updates that leave the destinations of valid blocks alone. *)
Lemma coded_mono s s' b :
  coded s b → same_layout s s' →
  (∀ k tb tb', get s k = Some tb → get s' k = Some tb' → TranslationBlock.invalid tb' = false →
     TranslationBlock.invalid tb = false ∧ dest tb' = dest tb) →
  coded s' b.
Proof.
  intros Hco Hs Hk i tb' slot j r Hg' Hv Hj Hr.
  destruct (proj2 Hs _ _ Hg') as (tb & Hg & _ & Hi0 & Hr0 & _).
  destruct (Hk _ _ _ Hg Hg' Hv) as [Hv0 Hd].
  rewrite (expected_same s s' tb tb') by done. eapply Hco; [done|congruence..].
Qed.

(** The first two stores of [invalidate]. *)
Lemma mark_spec s b idx tb :
  chain_inv s b → get s idx = Some tb →
  ∃ s1 s2, modify s idx (λ tb, TranslationBlock.set_invalid tb true) = Some s1 ∧
    modify s1 idx (map_jmp (set_list [])) = Some s2 ∧ layout s2 b ∧ edges s2 idx (incoming tb) ∧
    coded s2 b ∧ same_layout s s2 ∧ hash s2 = hash s ∧
    ∀ k, get s2 k = if decide (k = idx) then
      Some (map_jmp (set_list []) (TranslationBlock.set_invalid tb true)) else get s k.
Proof.
  intros (Hlo & He & Hco) Hg.
  destruct (modify_is_Some s idx (λ tb, TranslationBlock.set_invalid tb true) tb Hg) as [s1 H1].
  assert (get s1 idx = Some (TranslationBlock.set_invalid tb true)) as Hg1
    by (by rewrite (get_modify _ _ _ _ _ H1), decide_True, Hg).
  destruct (modify_is_Some s1 idx (map_jmp (set_list [])) _ Hg1) as [s2 H2].
  assert (∀ k, get s2 k = if decide (k = idx) then
    Some (map_jmp (set_list []) (TranslationBlock.set_invalid tb true)) else get s k) as Hget.
  { intros k. rewrite (get_modify _ _ _ _ _ H2), Hg1. case_decide; [done|].
    by rewrite (get_modify _ _ _ _ _ H1), decide_False. }
  assert (same_layout s s2) as Hs.
  { transitivity s1; eapply modify_upto; try apply _; try eassumption; by intros. }
  pose proof (proj1 Hs) as Hlen.
  exists s1, s2. split_and!; try done.
  - by eapply layout_same.
  - split.
    + intros i tb' Hg'. rewrite Hget in Hg'. case_decide; [|by eapply ed_len].
      injection Hg' as <-. exact (ed_len _ _ _ He idx tb Hg).
    + intros i tb' src slot Hg'. rewrite Hlen, Hget in *. case_decide; [|by eapply ed_list].
      injection Hg' as <-. cbn. by intros ?%not_elem_of_nil.
    + intros src slot Hin. rewrite Hlen. exact (ed_list _ _ _ He idx tb src slot Hg Hin).
    + intros src tb' slot d Hg' Hd. assert (∃ tb0, get s src = Some tb0 ∧ dest tb0 = dest tb') as
        (tb0 & Hg0 & Hd0).
      { rewrite Hget in Hg'. case_decide; [|eauto]. injection Hg' as <-. subst. by exists tb. }
      rewrite <- Hd0 in Hd. pose proof (ed_dest _ _ _ He _ _ _ _ Hg0 Hd) as Hp.
      case_decide as Hm1; [by apply not_elem_of_nil in Hp|]. destruct Hp as (td & Hgd & Hv & Hin).
      case_decide; subst; [congruence|]. exists td. by rewrite Hget, decide_False.
  - apply (coded_mono s); [done..|]. intros k tbk tbk' Hgk Hgk' Hv. rewrite Hget in Hgk'.
    case_decide; [|by simplify_eq]. injection Hgk' as <-. by cbn in Hv.
  - destruct (modify_frame _ _ _ _ H1), (modify_frame _ _ _ _ H2). congruence.
Qed.

(** No edges leave [idx]. *)
Definition no_outgoing (s : t) (idx : Z) : Prop :=
  ∀ tb slot d, get s idx = Some tb → (dest tb).[slot] ≠ Some (Some d).

Lemma retain_spec s idx slot k s' :
  edges s idx [] → no_outgoing s idx → modify s k (map_jmp (retain_not idx slot)) = Some s' →
  edges s' idx [] ∧ no_outgoing s' idx.
Proof.
  intros He Hno Hm. pose proof (modify_frame _ _ _ _ Hm) as [_ Hlen].
  assert (∀ i tb', get s' i = Some tb' → ∃ tb, get s i = Some tb ∧ dest tb' = dest tb ∧
    TranslationBlock.invalid tb' = TranslationBlock.invalid tb ∧
    (incoming tb' = incoming tb ∨ incoming tb' = filter (λ e, e ≠ (idx, slot)) (incoming tb))) as Hget.
  { intros i tb' Hg. rewrite (get_modify _ _ _ _ _ Hm) in Hg. case_decide; [|eauto 6].
    subst. apply fmap_Some in Hg as (tb & Hg & ->). exists tb. split_and!; try done. by right. }
  split; [split|].
  - intros i tb' Hg. destruct (Hget _ _ Hg) as (tb & ? & -> & _). by eapply ed_len.
  - intros i tb' src slot' Hg Hin. destruct (Hget _ _ Hg) as (tb & Hg0 & _ & _ & Hl). rewrite Hlen.
    eapply (ed_list _ _ _ He i tb); [done|]. destruct Hl as [Hl|Hl]; rewrite Hl in Hin; [done|].
    by apply list_elem_of_filter in Hin as [_ ?].
  - intros ? ? Hin. by apply not_elem_of_nil in Hin.
  - intros src tb' slot' d Hg Hd. destruct (Hget _ _ Hg) as (tb & Hg0 & Hd0 & _). rewrite Hd0 in Hd.
    pose proof (ed_dest _ _ _ He _ _ _ _ Hg0 Hd) as Hp. case_decide as Hdi; [done|].
    destruct Hp as (td & Hgd & Hv & Hin).
    assert (src ≠ idx) by (intros ->; by eapply Hno).
    destruct (get s' d) as [td'|] eqn:Hgd'.
    + destruct (Hget _ _ Hgd') as (td0 & Hgd0 & _ & Hv0 & Hl). assert (td0 = td) as -> by congruence.
      exists td'. split_and!; [done|congruence|]. destruct Hl as [-> | ->]; [done|].
      apply list_elem_of_filter. split; [congruence|done].
    + unfold get, len in *. apply zlookup_None in Hgd'. apply zlookup_lt_Some in Hgd. lia.
  - intros tb' slot' d Hg Hd. destruct (Hget _ _ Hg) as (tb & Hg0 & Hd0 & _). rewrite Hd0 in Hd.
    by eapply Hno.
Qed.

Lemma unlink_outgoing_spec s idx out :
  edges s idx [] → no_outgoing s idx → (∀ e, e ∈ out → is_Some (get s e.2)) →
  ∃ s', unlink_outgoing s idx out = Some s' ∧ edges s' idx [] ∧ upto same_block s s' ∧
    hash s' = hash s ∧ ∀ k tb tb', get s k = Some tb → get s' k = Some tb' → dest tb' = dest tb.
Proof.
  revert s. induction out as [|[slot d] out IH]; intros s He Hno Hr.
  { exists s. split_and!; try done. congruence. }
  destruct (Hr (slot, d) ltac:(left)) as [td Hg]. cbn in Hg.
  destruct (modify_is_Some s d (map_jmp (retain_not idx slot)) td Hg) as [s1 Hm].
  assert (upto same_block s s1) as Hs1 by (eapply modify_upto; [apply _| |exact Hm]; by intros).
  destruct (retain_spec _ _ _ _ _ He Hno Hm) as [He1 Hno1].
  destruct (IH s1 He1 Hno1) as (s' & Hu & He' & Hs' & Hh' & Hd').
  { intros e Hin. destruct (Hr e ltac:(by right)) as [tbe Hge].
    destruct (upto_get _ _ _ _ _ Hs1 Hge) as (? & ? & _). eauto. }
  exists s'. split_and!; try done.
  - cbn [unlink_outgoing]. by rewrite Hm.
  - by etrans.
  - destruct (modify_frame _ _ _ _ Hm). congruence.
  - intros k tb tb' Hgk Hgk'. destruct (upto_get _ _ _ _ _ Hs1 Hgk) as (tb1 & Hg1 & _).
    rewrite (Hd' _ _ _ Hg1 Hgk'). rewrite (get_modify _ _ _ _ _ Hm) in Hg1. case_decide; [|congruence].
    subst. rewrite Hgk in Hg1. by injection Hg1 as <-.
Qed.

(** Links and exit caches are invisible to the chaining state. *)
Lemma edges_upto s s' idx pend : upto same_jumps s s' → edges s idx pend → edges s' idx pend.
Proof.
  intros Hs He. pose proof Hs as [Hlen Hback]. split.
  - intros i tb' Hg'. destruct (Hback _ _ Hg') as (tb & Hg & _ & Hj & _). unfold dest. rewrite Hj.
    exact (ed_len _ _ _ He _ _ Hg).
  - intros i tb' src slot Hg'. destruct (Hback _ _ Hg') as (tb & Hg & _ & Hj & _). unfold incoming.
    rewrite Hlen, Hj. exact (ed_list _ _ _ He i tb src slot Hg).
  - intros. rewrite Hlen. by eapply ed_pend.
  - intros src tb' slot d Hg' Hd. destruct (Hback _ _ Hg') as (tb & Hg & _ & Hj & _).
    unfold dest in Hd. rewrite Hj in Hd. pose proof (ed_dest _ _ _ He src tb slot d Hg Hd) as Hp.
    case_decide; [done|]. destruct Hp as (td & Hgd & Hv & Hin).
    destruct (upto_get _ _ _ _ _ Hs Hgd) as (td' & Hgd' & _ & Hjd & Hvd). exists td'.
    unfold incoming. rewrite Hjd. split_and!; [done|congruence|done].
Qed.

Lemma upto_jumps_layout s s' : upto same_jumps s s' → same_layout s s'.
Proof. apply upto_mono. by intros ?? []. Qed.

Lemma chain_inv_upto s s' b : upto same_jumps s s' → chain_inv s b → chain_inv s' b.
Proof.
  intros Hs (Hlo & He & Hco). pose proof (upto_jumps_layout _ _ Hs). unfold chain_inv. split_and!.
  - by eapply layout_same.
  - by eapply edges_upto.
  - eapply coded_mono; [done..|]. intros k tb tb' Hg Hg' Hv.
    destruct (proj2 Hs _ _ Hg') as (tb0 & Hg0 & _ & Hj & Hv0). assert (tb0 = tb) as -> by congruence.
    unfold dest. rewrite Hj. split; [congruence|done].
Qed.

Lemma next_jumps s s' : same_but_next s s' → upto same_jumps s s'.
Proof.
  intros Hs. split; [apply Hs|]. intros k tb' Hg'. destruct (get s k) as [tb|] eqn:Hg.
  - exists tb. split; [done|]. destruct (proj2 Hs _ _ Hg) as [n Hn]. rewrite Hn in Hg'.
    by injection Hg' as <-.
  - pose proof (same_but_next_get_None _ _ _ Hs Hg). congruence.
Qed.

Lemma chain_inv_next s s' b : same_but_next s s' → chain_inv s b → chain_inv s' b.
Proof. intros ?%next_jumps. by apply chain_inv_upto. Qed.

(** Nothing points at [idx]: the state is at rest. *)
Lemma edges_rest s idx : edges s idx [] → edges s (-1) [].
Proof.
  intros He. split; try apply He. intros src tb slot d Hg Hd.
  pose proof (ed_dest _ _ _ He _ _ _ _ Hg Hd) as Hp. case_decide; [by apply not_elem_of_nil in Hp|].
  destruct Hp as (td & Hgd & Hp). pose proof (get_Some_range _ _ _ Hgd).
  rewrite decide_False by lia. eauto.
Qed.

(** The second step of [invalidate]: take both destinations, tell their blocks. *)
Lemma outgoing_spec s idx tb :
  edges s idx [] → get s idx = Some tb →
  ∃ out s1, outgoing (TranslationBlock.jmp tb) = Some out ∧
    modify s idx (map_jmp (λ j, set_dest 1 None (set_dest 0 None j))) = Some s1 ∧
    edges s1 idx [] ∧ no_outgoing s1 idx ∧ upto same_block s s1 ∧ hash s1 = hash s ∧
    (∀ e, e ∈ out → is_Some (get s1 e.2)) ∧
    ∀ k tbk tbk', k ≠ idx → get s k = Some tbk → get s1 k = Some tbk' → tbk' = tbk.
Proof.
  intros He Hg. pose proof (ed_len _ _ _ He _ _ Hg) as Hlen.
  destruct (modify_is_Some s idx (map_jmp (λ j, set_dest 1 None (set_dest 0 None j))) tb Hg) as [s1 Hm].
  destruct (proj2 (zlookup_lt_is_Some (dest tb) 0)) as [d0 H0']; [lia|].
  destruct (proj2 (zlookup_lt_is_Some (dest tb) 1)) as [d1 H1']; [lia|].
  assert (upto same_block s s1) as Hs by (eapply modify_upto; [apply _| |exact Hm]; by intros).
  assert (∀ slot d, (<[1%nat := None]> (<[0%nat := None]> (dest tb))).[slot] ≠ Some (Some d)) as Hnone.
  { intros slot d Hd. pose proof (zlookup_lt_Some _ _ _ Hd) as Hr. rewrite !zlen_insert in Hr.
    change 1%nat with (Z.to_nat 1) in Hd. change 0%nat with (Z.to_nat 0) in Hd.
    destruct (decide (slot = 1)) as [->|]; [rewrite zlookup_insert_eq in Hd; [done|rewrite zlen_insert; lia]|].
    assert (slot = 0) as -> by lia. rewrite zlookup_insert_ne, zlookup_insert_eq in Hd by lia. done. }
  assert (∀ i tb', get s1 i = Some tb' → ∃ tb0, get s i = Some tb0 ∧ incoming tb' = incoming tb0 ∧
    (i ≠ idx ∧ tb' = tb0 ∨ i = idx ∧ dest tb' = <[1%nat := None]> (<[0%nat := None]> (dest tb)) ∧
       TranslationBlock.invalid tb' = TranslationBlock.invalid tb0)) as Hget.
  { intros i tb' Hg'. rewrite (get_modify _ _ _ _ _ Hm) in Hg'. case_decide; [|eauto 6].
    subst. rewrite Hg in Hg'. injection Hg' as <-. eauto 8. }
  destruct (modify_frame _ _ _ _ Hm) as [Hh Hl].
  exists (match d0 with Some d => [(0, d)] | None => [] end ++
    match d1 with Some d => [(1, d)] | None => [] end), s1.
  split_and!; try done.
  - unfold outgoing. change (TbJmpState.jmp_dest (TranslationBlock.jmp tb)) with (dest tb).
    by rewrite H0', H1'.
  - split.
    + intros i tb' Hg'. destruct (Hget _ _ Hg') as (tb0 & Hg0 & _ & [(_ & ->)|(_ & -> & _)]).
      * by eapply ed_len.
      * by rewrite !zlen_insert.
    + intros i tb' src slot Hg'. destruct (Hget _ _ Hg') as (tb0 & Hg0 & -> & _). rewrite Hl.
      by eapply ed_list.
    + intros src slot Hin. by apply not_elem_of_nil in Hin.
    + intros src tb' slot d Hg' Hd. destruct (Hget _ _ Hg') as (tb0 & Hg0 & _ & [(_ & ->)|(_ & Hd0 & _)]).
      * pose proof (ed_dest _ _ _ He _ _ _ _ Hg0 Hd) as Hp. case_decide; [done|].
        destruct Hp as (td & Hgd & Hv & Hin). destruct (upto_get _ _ _ _ _ Hs Hgd) as (td' & Hgd' & _).
        destruct (Hget _ _ Hgd') as (td0 & ? & Hi & [(_ & ->)|(? & _)]); [|done].
        exists td0. split_and!; [done|congruence..].
      * rewrite Hd0 in Hd. by apply Hnone in Hd.
  - intros tb' slot d Hg' Hd. destruct (Hget _ _ Hg') as (tb0 & Hg0 & _ & [(? & _)|(_ & Hd0 & _)]); [done|].
    rewrite Hd0 in Hd. by apply Hnone in Hd.
  - intros [slot d] Hin. assert (∃ slot, (dest tb).[slot] = Some (Some d)) as [slot' Hd].
    { apply elem_of_app in Hin as [Hin|Hin]; [exists 0; destruct d0|exists 1; destruct d1];
        try (by apply not_elem_of_nil in Hin); apply list_elem_of_singleton in Hin; congruence. }
    pose proof (ed_dest _ _ _ He _ _ _ _ Hg Hd) as Hp. case_decide; [by apply not_elem_of_nil in Hp|].
    destruct Hp as (td & Hgd & _). destruct (upto_get _ _ _ _ _ Hs Hgd) as (td' & ? & _). cbn. eauto.
  - intros k tbk tbk' Hk Hgk Hgk'. rewrite (get_modify _ _ _ _ _ Hm), decide_False in Hgk' by done.
    congruence.
Qed.

(** What [chain_inv] is for: the jumps of a valid block stay in valid code. *)
Definition jumps_ok (s : t) (b : CodeBuffer) : Prop :=
  ∀ i tb slot j, get s i = Some tb → TranslationBlock.invalid tb = false →
    (TranslationBlock.jmp_insn_offset tb).[slot] = Some (Some j) →
    ∃ r, (TranslationBlock.jmp_reset_offset tb).[slot] = Some (Some r) ∧
      match (dest tb).[slot] with
      | Some (Some d) => ∃ td, get s d = Some td ∧ TranslationBlock.invalid td = false ∧
          jump_target b j = Some (TranslationBlock.host_offset td)
      | _ => jump_target b j = Some r
      end.

Lemma chain_inv_jumps s b : chain_inv s b → jumps_ok s b.
Proof.
  intros (Hlo & He & Hco) i tb slot j Hg Hv Hj.
  destruct (lo_site _ _ Hlo _ _ _ _ Hg Hj) as (_ & _ & _ & r & Hr & _). exists r. split; [done|].
  pose proof (Hco _ _ _ _ _ Hg Hv Hj Hr) as Ht. unfold expected in Ht.
  destruct ((dest tb).[slot]) as [[d|]|] eqn:Hd; [|done..].
  pose proof (ed_dest _ _ _ He _ _ _ _ Hg Hd) as Hp. case_decide; [by apply not_elem_of_nil in Hp|].
  destruct Hp as (td & Hgd & Hvd & _). exists td. rewrite Hgd in Ht. done.
Qed.

(** The blocks after an invalidation: [idx] is invalid, the others keep their
    validity. *)
Definition invalidated (idx : Z) (s s' : t) : Prop :=
  same_layout s s' ∧
  ∀ k tb tb', get s k = Some tb → get s' k = Some tb' →
    TranslationBlock.invalid tb' = if decide (k = idx) then true else TranslationBlock.invalid tb.

Lemma edges_no_dest s src tb slot d idx :
  edges s idx [] → get s src = Some tb → (dest tb).[slot] = Some (Some d) → d ≠ idx.
Proof.
  intros He Hg Hd ->. pose proof (ed_dest _ _ _ He _ _ _ _ Hg Hd) as Hp.
  rewrite decide_True in Hp by done. by apply not_elem_of_nil in Hp.
Qed.

Lemma invalidate_steps s b regs idx tb :
  Rep s regs → chain_inv s b → get s idx = Some tb →
  ∃ s' b', invalidate s idx b = Some (s', b') ∧ Rep s' (filter (λ k, k ≠ idx) regs) ∧
    chain_inv s' b' ∧ edges s' idx [] ∧ invalidated idx s s'.
Proof.
  intros Hrep Hci Hg.
  destruct (mark_spec s b idx tb Hci Hg) as (s1 & s2 & H1 & H2 & Hlo2 & He2 & Hco2 & Hs2 & Hh2 & Hg2).
  destruct (unlink_incoming_spec (incoming tb) s2 b idx Hlo2 He2 Hco2)
    as (s3 & b3 & H3 & Hlo3 & He3 & Hco3 & Hs3 & Hh3 & _).
  assert (get s2 idx = Some (map_jmp (set_list []) (TranslationBlock.set_invalid tb true))) as Hg2i
    by (by rewrite Hg2, decide_True).
  destruct (upto_get _ _ _ _ _ Hs3 Hg2i) as (tb3 & Hg3 & (_ & _ & Hv3)).
  destruct (outgoing_spec s3 idx tb3 He3 Hg3)
    as (out & s4 & Ho & H4 & He4 & Hno4 & Hs4 & Hh4 & Hout & Hk4).
  destruct (unlink_outgoing_spec s4 idx out He4 Hno4 Hout) as (s5 & H5 & He5 & Hs5 & Hh5 & Hd5).
  assert (upto same_block s2 s5) as Hs25 by (etrans; [done|]; by etrans).
  assert (Rep s5 regs) as Hrep5.
  { apply (rep_upto s); [done|congruence|]. split; [rewrite (proj1 Hs25); apply Hs2|].
    intros k tb5 Hg5. destruct (proj2 Hs25 _ _ Hg5) as (tb2 & Hgk & Hc5).
    destruct (proj2 Hs2 _ _ Hgk) as (tb0 & Hg0 & Hc0). exists tb0. split; [done|].
    transitivity tb2; [|by apply same_block_key]. rewrite Hg2 in Hgk.
    case_decide; [|by assert (tb0 = tb2) as -> by congruence].
    subst. injection Hgk as <-. by assert (tb0 = tb) as -> by congruence. }
  assert (coded s5 b3) as Hco5.
  { apply (coded_mono s3); [done|apply upto_block_code; by etrans|].
    intros k tbk tbk' Hgk Hgk' Hv. assert (upto same_block s3 s5) as Hs35 by (by etrans).
    destruct (proj2 Hs35 _ _ Hgk') as (tbk0 & Hgk0 & _ & _ & Hvk).
    assert (tbk0 = tbk) as -> by congruence. split; [congruence|].
    assert (k ≠ idx) as Hne. { intros ->. assert (tbk = tb3) as -> by congruence. cbn in Hv3. congruence. }
    destruct (upto_get _ _ _ _ _ Hs4 Hgk) as (tb4 & Hgk4 & _).
    rewrite (Hd5 _ _ _ Hgk4 Hgk'). by rewrite (Hk4 _ _ _ Hne Hgk Hgk4). }
  assert (upto same_block s3 s5) as Hs35%upto_block_code by (by etrans).
  assert (is_Some (get s5 idx)) as Hr5.
  { destruct (upto_get _ _ _ _ _ Hs35 Hg3) as (? & ? & _). eauto. }
  destruct (unlink_spec s5 regs idx Hrep5 Hr5) as (s6 & H6 & Hrep6 & Hs6).
  exists s6, b3. split_and!.
  - unfold invalidate. rewrite Hg. cbn [mbind option_bind]. rewrite H1. cbn [mbind option_bind].
    rewrite H2. cbn [mbind option_bind]. change (TbJmpState.jmp_list _) with (incoming tb).
    rewrite H3. cbn [mbind option_bind]. rewrite Hg3. cbn [mbind option_bind]. rewrite Ho.
    cbn [mbind option_bind]. rewrite H4. cbn [mbind option_bind]. rewrite H5. cbn [mbind option_bind].
    by rewrite H6.
  - done.
  - apply (chain_inv_next s5); [done|]. split_and!; [by eapply layout_same|by eapply edges_rest|done].
  - eapply edges_upto; [by apply next_jumps|done].
  - split; [etrans; [exact Hs2|]; etrans; [by apply upto_block_code|by apply upto_jumps_layout, next_jumps]|].
    intros k tbk tbk' Hgk Hgk'. pose proof (Hg2 k) as Hgk2.
    assert (∃ tb2, get s2 k = Some tb2 ∧ TranslationBlock.invalid tb2 =
      if decide (k = idx) then true else TranslationBlock.invalid tbk) as (tb2 & Hgk2' & <-).
    { rewrite Hgk2. case_decide; [by eexists|by exists tbk]. }
    destruct (upto_get _ _ _ _ _ Hs25 Hgk2') as (tb5 & Hg5 & _ & _ & <-).
    destruct (proj2 Hs6 _ _ Hg5) as [n Hn]. rewrite Hn in Hgk'. by injection Hgk' as <-.
Qed.

(** ** Adding blocks and edges *)

Lemma chain_inv_empty b : wf_buffer b → capacity b ≤ 2 ^ 31 → chain_inv new b.
Proof.
  intros Hwf Hcap. assert (∀ i tb, get new i ≠ Some tb) as Hno
    by (intros i tb Hg; apply get_Some_range in Hg; change (len new) with 0 in Hg; lia).
  split_and!; [split|split|].
  - done.
  - intros i tb Hg. by apply Hno in Hg.
  - intros i tb Hg. by apply Hno in Hg.
  - intros i tb slot j Hg. by apply Hno in Hg.
  - intros i slot j i' slot' j' (tb & Hg & _). by apply Hno in Hg.
  - intros i tb Hg. by apply Hno in Hg.
  - intros i tb src slot Hg. by apply Hno in Hg.
  - intros src slot Hin. by apply not_elem_of_nil in Hin.
  - intros src tb slot d Hg. by apply Hno in Hg.
  - intros i tb slot j r Hg. by apply Hno in Hg.
Qed.

Definition push_incoming (e : Z * Z) (j : TbJmpState.t) : TbJmpState.t :=
  set_list (TbJmpState.jmp_list j ++ [e]) j.

Lemma add_edge_spec s b src slot dst stb dtb j :
  chain_inv s b → get s src = Some stb → 0 ≤ slot < 2 → get s dst = Some dtb →
  TranslationBlock.invalid dtb = false →
  (TranslationBlock.jmp_insn_offset stb).[slot] = Some (Some j) →
  ∃ b' s1 s2, patch_jump b j (TranslationBlock.host_offset dtb) = Some b' ∧
    modify s src (map_jmp (set_dest slot (Some dst))) = Some s1 ∧
    modify s1 dst (map_jmp (push_incoming (src, slot))) = Some s2 ∧
    chain_inv s2 b' ∧ upto same_block s s2 ∧ hash s2 = hash s ∧
    (∃ stb', get s2 src = Some stb' ∧ (dest stb').[slot] = Some (Some dst)) ∧
    jump_target b' j = Some (TranslationBlock.host_offset dtb).
Proof.
  intros (Hlo & He & Hco) Hg Hslot Hgd Hvd Hj.
  destruct (lo_site _ _ Hlo _ _ _ _ Hg Hj) as (Hj0 & Hjs & Hjt & r & Hr & _).
  destruct (lo_buf _ _ Hlo) as [Hwf Hcap]. pose proof (wb_offset _ Hwf).
  destruct (patch_total b j (TranslationBlock.host_offset dtb)) as [b' Hb'];
    [lia|lia|lia|by eapply lo_host|].
  pose proof (ed_len _ _ _ He _ _ Hg) as Hlen.
  destruct (modify_is_Some s src (map_jmp (set_dest slot (Some dst))) stb Hg) as [s1 Hm1].
  destruct (set_dest_upto _ _ _ _ _ Hm1) as [Hs1 Hh1].
  destruct (upto_get _ _ _ _ _ Hs1 Hgd) as (dtb1 & Hgd1 & _).
  destruct (modify_is_Some s1 dst (map_jmp (push_incoming (src, slot))) dtb1 Hgd1) as [s2 Hm2].
  assert (upto same_block s1 s2) as Hs2 by (eapply modify_upto; [apply _| |exact Hm2]; by intros).
  assert (upto same_block s s2) as Hs by (by etrans).
  destruct (coded_set_dest s b src stb slot (Some dst) s1 b') as [Hlo1 Hco1]; try done.
  { unfold repatched. rewrite Hj. exists r, (TranslationBlock.host_offset dtb). by rewrite Hgd. }
  assert (∀ k tb', get s2 k = Some tb' → ∃ tb, get s k = Some tb ∧
    TranslationBlock.invalid tb' = TranslationBlock.invalid tb ∧
    dest tb' = (if decide (k = src) then <[Z.to_nat slot := Some dst]> (dest tb) else dest tb) ∧
    incoming tb' = (if decide (k = dst) then incoming tb ++ [(src, slot)] else incoming tb)) as Hget.
  { intros k tb' Hgk.
    assert (∃ tb1, get s1 k = Some tb1 ∧ TranslationBlock.invalid tb' = TranslationBlock.invalid tb1 ∧
      dest tb' = dest tb1 ∧ incoming tb' = if decide (k = dst) then incoming tb1 ++ [(src, slot)]
      else incoming tb1) as (tb1 & Hgk1 & -> & -> & ->).
    { rewrite (get_modify _ _ _ _ _ Hm2) in Hgk. case_decide; [|eauto].
      apply fmap_Some in Hgk as (tb1 & ? & ->). subst. eauto. }
    rewrite (get_modify _ _ _ _ _ Hm1) in Hgk1. destruct (decide (k = src)); [|eauto].
    apply fmap_Some in Hgk1 as (tb & ? & ->). subst. eauto. }
  pose proof (proj1 Hs) as Hl.
  exists b', s1, s2. unfold chain_inv. split_and!; try done.
  - apply (layout_same s1); [by apply upto_block_code|done].
  - split.
    + intros i tb' Hg'. destruct (Hget _ _ Hg') as (tb & ? & _ & -> & _).
      case_decide; rewrite ?zlen_insert; by eapply ed_len.
    + intros i tb' src' slot' Hg'. destruct (Hget _ _ Hg') as (tb & Hg0 & _ & _ & ->). rewrite Hl.
      pose proof (get_Some_range _ _ _ Hg). case_decide; [|by eapply ed_list].
      intros [Hin|Hin%list_elem_of_singleton]%elem_of_app; [by eapply ed_list|].
      by injection Hin as -> ->.
    + intros src' slot' Hin. by apply not_elem_of_nil in Hin.
    + intros src' tb' slot' d Hg' Hd. destruct (Hget _ _ Hg') as (tb & Hg0 & _ & Hd0 & _).
      rewrite Hd0 in Hd.
      assert ((dest tb).[slot'] = Some (Some d) ∨ (src', slot', d) = (src, slot, dst)) as Hcase.
      { case_decide as Hsrc; [|by left]. subst. destruct (decide (slot' = slot)) as [->|].
        - rewrite zlookup_insert_eq in Hd by (rewrite (ed_len _ _ _ He _ _ Hg0); lia). right. congruence.
        - left. rewrite zlookup_insert_ne in Hd by (done || lia). done. }
      assert (d ≠ -1 ∧ ∃ td, get s d = Some td ∧ TranslationBlock.invalid td = false ∧
        ((src', slot') ∈ incoming td ∨ (src', slot', d) = (src, slot, dst))) as (Hd1 & td & Htd & Hv & Hin).
      { destruct Hcase as [Hd'|Heq].
        - pose proof (ed_dest _ _ _ He _ _ _ _ Hg0 Hd') as Hp.
          case_decide; [by apply not_elem_of_nil in Hp|]. destruct Hp as (td & ? & ? & ?). eauto 6.
        - injection Heq as -> -> ->. pose proof (get_Some_range _ _ _ Hgd). split; [lia|]. eauto 6. }
      rewrite decide_False by done. destruct (upto_get _ _ _ _ _ Hs Htd) as (td' & Htd' & _).
      destruct (Hget _ _ Htd') as (td0 & Htd0 & Hv0 & _ & Hi0). assert (td0 = td) as -> by congruence.
      exists td'. split_and!; [done|congruence|]. rewrite Hi0.
      destruct Hin as [Hin|Heq]; [case_decide; [apply elem_of_app; by left|done]|].
      injection Heq as -> -> ->. rewrite decide_True by done. apply elem_of_app. right. left.
  - apply (coded_mono s1); [done|by apply upto_block_code|].
    intros k tb tb' Hgk Hgk' Hv. rewrite (get_modify _ _ _ _ _ Hm2) in Hgk'. case_decide; [|by simplify_eq].
    subst. rewrite Hgk in Hgk'. by injection Hgk' as <-.
  - destruct (modify_frame _ _ _ _ Hm2). congruence.
  - destruct (upto_get _ _ _ _ _ Hs Hg) as (stb' & Hg' & _). exists stb'. split; [done|].
    destruct (Hget _ _ Hg') as (tb & Hg0 & _ & Hd0 & _). rewrite decide_True in Hd0 by done.
    rewrite Hd0, zlookup_insert_eq; [done|]. rewrite (ed_len _ _ _ He _ _ Hg0). lia.
  - by eapply patch_target.
Qed.

Lemma no_slots (x : Z) slot : [None; None].[slot] ≠ Some (Some x).
Proof.
  intros Hs. pose proof (zlookup_lt_Some _ _ _ Hs) as Hz. change (zlen [None; None]) with 2 in Hz.
  assert (slot = 0 ∨ slot = 1) by lia. by destruct_or?; subst.
Qed.

(** A block without jumps and edges joins a state at rest. *)
Lemma chain_inv_alloc s b pc flags cflags s' i :
  chain_inv s b → alloc s pc flags cflags = Some (s', i) → chain_inv s' b.
Proof.
  intros (Hlo & He & Hco) Ha.
  assert (i = len s ∧ get s' i = Some (TranslationBlock.new pc flags cflags) ∧ len s' = len s + 1 ∧
    ∀ k, k ≠ len s → get s' k = get s k) as (-> & Hnew & Hlen & Hget).
  { unfold alloc in Ha. destruct (_ <? _); [|done]. injection Ha as <- <-. split; [done|].
    split; [apply zlookup_snoc|]. split; [unfold len; cbn; by rewrite zlen_app, zlen_one|].
    intros k Hk. unfold get, len in *. cbn [tbs]. destruct ((tbs s).[k]) as [tb|] eqn:Hg.
    - by apply zlookup_app_Some.
    - apply zlookup_None in Hg. apply zlookup_None. rewrite zlen_app, zlen_one. lia. }
  assert (∀ k tb, get s' k = Some tb → k ≠ len s ∧ get s k = Some tb ∨
    k = len s ∧ tb = TranslationBlock.new pc flags cflags) as Hcase.
  { intros k tb Hg. destruct (decide (k = len s)) as [->|]; [right; split; congruence|].
    left. by rewrite Hget in Hg. }
  assert (∀ k slot j, site s' k slot j → site s k slot j) as Hsite.
  { intros k slot j (tb & Hg & Hj). destruct (Hcase _ _ Hg) as [[_ ?]|[_ ->]]; [by exists tb|].
    by apply no_slots in Hj. }
  unfold chain_inv. split_and!; [split|split|].
  - apply Hlo.
  - intros k tb Hg. destruct (Hcase _ _ Hg) as [[_ ?]|[_ ->]]; [by eapply lo_host|].
    destruct (lo_buf _ _ Hlo) as [Hwf _]. pose proof (wb_offset _ Hwf). cbn. lia.
  - intros k tb Hg. destruct (Hcase _ _ Hg) as [[_ ?]|[_ ->]]; [by eapply lo_len|done].
  - intros k tb slot j Hg Hj. destruct (Hcase _ _ Hg) as [[_ ?]|[_ ->]]; [by eapply lo_site|].
    by apply no_slots in Hj.
  - intros k slot j k' slot' j' ??. eapply lo_apart; eauto.
  - intros k tb Hg. destruct (Hcase _ _ Hg) as [[_ ?]|[_ ->]]; [by eapply ed_len|done].
  - intros k tb src slot Hg Hin. rewrite Hlen. destruct (Hcase _ _ Hg) as [[_ Hg0]|[_ ->]].
    + destruct (ed_list _ _ _ He _ _ _ _ Hg0 Hin). lia.
    + by apply not_elem_of_nil in Hin.
  - intros src slot Hin. by apply not_elem_of_nil in Hin.
  - intros src tb slot d Hg Hd. destruct (Hcase _ _ Hg) as [[_ Hg0]|[_ ->]]; [|by apply no_slots in Hd].
    pose proof (ed_dest _ _ _ He _ _ _ _ Hg0 Hd) as Hp. case_decide; [done|].
    destruct Hp as (td & Htd & ?). exists td. rewrite Hget; [done|].
    apply get_Some_range in Htd. lia.
  - intros k tb slot j r Hg Hv Hj Hr. destruct (Hcase _ _ Hg) as [[_ Hg0]|[_ ->]]; [|by apply no_slots in Hj].
    rewrite (Hco _ _ _ _ _ Hg0 Hv Hj Hr). unfold expected.
    destruct ((dest tb).[slot]) as [[d|]|] eqn:Hd; [|done..].
    pose proof (ed_dest _ _ _ He _ _ _ _ Hg0 Hd) as Hp. case_decide; [by apply not_elem_of_nil in Hp|].
    destruct Hp as (td & Htd & _). rewrite Hget; [done|]. apply get_Some_range in Htd. lia.
Qed.

(** What code generation owes to chaining: it appends, and the jumps it records are
    its own, apart, and lead to their reset offsets. *)
Record emitted (b b' : CodeBuffer) (tb : TranslationBlock.t) : Prop := {
  em_buf : wf_buffer b' ∧ capacity b' = capacity b ∧ offset b ≤ offset b';
  em_frame i : 0 ≤ i < offset b → (mem b').[i] = (mem b).[i];
  em_host : 0 ≤ TranslationBlock.host_offset tb ≤ capacity b;
  em_len : zlen (TranslationBlock.jmp_insn_offset tb) = 2 ∧
    zlen (TranslationBlock.jmp_reset_offset tb) = 2;
  em_site slot j : (TranslationBlock.jmp_insn_offset tb).[slot] = Some (Some j) →
    offset b ≤ j ∧ j + jump_size ≤ offset b' ∧
    ∃ r, (TranslationBlock.jmp_reset_offset tb).[slot] = Some (Some r) ∧ 0 ≤ r ≤ capacity b ∧
      jump_target b' j = Some r;
  em_apart slot j slot' j' : slot ≠ slot' →
    (TranslationBlock.jmp_insn_offset tb).[slot] = Some (Some j) →
    (TranslationBlock.jmp_insn_offset tb).[slot'] = Some (Some j') →
    j + jump_size ≤ j' ∨ j' + jump_size ≤ j
}.

Lemma chain_inv_emit s b b' idx tb f s' :
  chain_inv s b → get s idx = Some tb → TranslationBlock.jmp tb = TbJmpState.new →
  TranslationBlock.jmp (f tb) = TbJmpState.new →
  TranslationBlock.invalid (f tb) = TranslationBlock.invalid tb →
  emitted b b' (f tb) → modify s idx f = Some s' → chain_inv s' b'.
Proof.
  intros (Hlo & He & Hco) Hg Hj0 Hj1 Hinv Hem Hm.
  destruct (lo_buf _ _ Hlo) as [Hwf Hcap]. pose proof (wb_offset _ Hwf) as Hoff.
  destruct (em_buf _ _ _ Hem) as (Hwf' & Hcap' & Hoff').
  destruct (modify_frame _ _ _ _ Hm) as [_ Hlen].
  assert (∀ k tbk, get s' k = Some tbk → k ≠ idx ∧ get s k = Some tbk ∨ k = idx ∧ tbk = f tb) as Hcase.
  { intros k tbk Hgk. rewrite (get_modify _ _ _ _ _ Hm) in Hgk. case_decide; [|by left].
    right. rewrite Hg in Hgk. cbn in Hgk. split; [done|congruence]. }
  assert (∀ i tbi slot d, get s i = Some tbi → (dest tbi).[slot] = Some (Some d) →
    d ≠ idx ∧ d ≠ -1 ∧ ∃ td, get s d = Some td ∧ get s' d = Some td ∧
      TranslationBlock.invalid td = false ∧ (i, slot) ∈ incoming td) as Hedge.
  { intros i tbi slot d Hgi Hd. pose proof (ed_dest _ _ _ He _ _ _ _ Hgi Hd) as Hp.
    case_decide; [by apply not_elem_of_nil in Hp|]. destruct Hp as (td & Htd & Hv & Hin).
    assert (d ≠ idx).
    { intros ->. assert (td = tb) as -> by congruence. unfold incoming in Hin. rewrite Hj0 in Hin.
      by apply not_elem_of_nil in Hin. }
    split_and!; try done. exists td. by rewrite (get_modify _ _ _ _ _ Hm), decide_False. }
  assert (∀ j, 0 ≤ j → j + jump_size ≤ offset b → jump_target b' j = jump_target b j) as Hold.
  { intros j ? ?. apply target_ext; [done..|]. intros i ?. apply (em_frame _ _ _ Hem). lia. }
  unfold chain_inv. split_and!; [split|split|].
  - split; [done|lia].
  - intros k tbk Hgk. rewrite Hcap'. destruct (Hcase _ _ Hgk) as [[_ ?]|[_ ->]]; [by eapply lo_host|].
    apply Hem.
  - intros k tbk Hgk. destruct (Hcase _ _ Hgk) as [[_ ?]|[_ ->]]; [by eapply lo_len|apply Hem].
  - intros k tbk slot j Hgk Hj. rewrite Hcap'. destruct (Hcase _ _ Hgk) as [[_ Hgk0]|[_ ->]].
    + destruct (lo_site _ _ Hlo _ _ _ _ Hgk0 Hj) as (? & ? & ? & ?).
      split_and!; try done; [lia|by rewrite Hold].
    + destruct (em_site _ _ _ Hem _ _ Hj) as (? & ? & r & ? & ? & ?). split_and!; [lia..| |]; eauto.
  - intros k slot j k' slot' j' (tbk & Hgk & Hj) (tbk' & Hgk' & Hj') Hne.
    destruct (Hcase _ _ Hgk) as [[_ Hgk0]|[-> ->]], (Hcase _ _ Hgk') as [[_ Hgk0']|[-> ->]].
    + eapply (lo_apart _ _ Hlo); [by exists tbk|by exists tbk'|done].
    + destruct (lo_site _ _ Hlo _ _ _ _ Hgk0 Hj) as (_ & ? & _).
      destruct (em_site _ _ _ Hem _ _ Hj') as (? & _). lia.
    + destruct (lo_site _ _ Hlo _ _ _ _ Hgk0' Hj') as (_ & ? & _).
      destruct (em_site _ _ _ Hem _ _ Hj) as (? & _). lia.
    + eapply (em_apart _ _ _ Hem); [|done..]. congruence.
  - intros k tbk Hgk. destruct (Hcase _ _ Hgk) as [[_ ?]|[_ ->]]; [by eapply ed_len|].
    unfold dest. by rewrite Hj1.
  - intros k tbk src slot Hgk Hin. rewrite Hlen.
    destruct (Hcase _ _ Hgk) as [[_ ?]|[_ ->]]; [by eapply ed_list|].
    unfold incoming in Hin. rewrite Hj1 in Hin. by apply not_elem_of_nil in Hin.
  - intros src slot Hin. by apply not_elem_of_nil in Hin.
  - intros src tbs slot d Hgs Hd. destruct (Hcase _ _ Hgs) as [[_ Hg0]|[_ ->]].
    + destruct (Hedge _ _ _ _ Hg0 Hd) as (_ & ? & td & _ & ? & ?). rewrite decide_False by done. eauto.
    + unfold dest in Hd. rewrite Hj1 in Hd. by apply no_slots in Hd.
  - intros k tbk slot j r Hgk Hv Hj Hr. unfold expected. destruct (Hcase _ _ Hgk) as [[_ Hg0]|[_ ->]].
    + destruct (lo_site _ _ Hlo _ _ _ _ Hg0 Hj) as (? & ? & _). rewrite Hold by done.
      rewrite (Hco _ _ _ _ _ Hg0 Hv Hj Hr). unfold expected.
      destruct ((dest tbk).[slot]) as [[d|]|] eqn:Hd; [|done..].
      destruct (Hedge _ _ _ _ Hg0 Hd) as (_ & _ & td & -> & -> & _). done.
    + destruct (em_site _ _ _ Hem _ _ Hj) as (_ & _ & r' & Hr' & _ & Ht).
      unfold dest. rewrite Hj1, Ht. assert (r' = r) as -> by congruence.
      change (TbJmpState.jmp_dest TbJmpState.new) with (@cons (option Z) None [None]).
      destruct ([None; None].[slot]) as [[d|]|] eqn:Hd; [by apply no_slots in Hd|done..].
Qed.

(** Publishing a block: [alloc], fill in what was generated, [insert]. *)
Lemma publish_spec s b regs pc flags cflags f b' :
  Rep s regs → chain_inv s b → len s < MAX_TBS →
  let tb := TranslationBlock.new pc flags cflags in
  same_key tb (f tb) → TranslationBlock.jmp (f tb) = TbJmpState.new →
  TranslationBlock.invalid (f tb) = false → emitted b b' (f tb) →
  ∃ s1 s2 s3 n, alloc s pc flags cflags = Some (s1, len s) ∧ modify s1 (len s) f = Some s2 ∧
    insert s2 (len s) = Some s3 ∧ Rep s3 (len s :: regs) ∧ chain_inv s3 b' ∧ len s3 = len s + 1 ∧
    get s3 (len s) = Some (TranslationBlock.set_next (f tb) n) ∧
    ∀ k tbk, get s k = Some tbk → ∃ n, get s3 k = Some (TranslationBlock.set_next tbk n).
Proof.
  intros Hrep Hci Hlt tb Hkey Hj Hv Hem.
  destruct (alloc_spec s regs pc flags cflags Hrep Hlt) as (s1 & H1' & Hrep1 & Hnew & Hl1 & Hg1 & Hk1).
  pose proof (chain_inv_alloc _ _ _ _ _ _ _ Hci H1') as Hci1.
  destruct (modify_is_Some s1 (len s) f tb Hg1) as [s2 H2'].
  assert (chain_inv s2 b') as Hci2 by (by eapply chain_inv_emit).
  assert (Rep s2 regs) as Hrep2.
  { destruct (modify_frame _ _ _ _ H2') as [Hh2 Hl2]. apply (rep_upto s1); [done..|].
    split; [done|]. intros k tb' Hg'. rewrite (get_modify _ _ _ _ _ H2') in Hg'.
    case_decide; [|by exists tb']. subst. rewrite Hg1 in Hg'. injection Hg' as <-. eauto. }
  assert (get s2 (len s) = Some (f tb)) as Hg2
    by (by rewrite (get_modify _ _ _ _ _ H2'), decide_True, Hg1).
  destruct (insert_spec s2 regs (len s) Hrep2 Hnew) as (s3 & H3 & Hrep3 & Hs3); [by eauto|].
  destruct (proj2 Hs3 _ _ Hg2) as [n Hn]. exists s1, s2, s3, n. split_and!; try done.
  - by eapply chain_inv_next.
  - rewrite (proj1 Hs3). destruct (modify_frame _ _ _ _ H2'). lia.
  - intros k tbk Hgk. pose proof (get_Some_range _ _ _ Hgk).
    apply Hs3. rewrite (get_modify _ _ _ _ _ H2'), decide_False, Hk1 by lia. done.
Qed.

(** C14. Invalidating a block never fails on a well-formed store; afterwards the block
    is invalid and no lookup finds it, every other block keeps its validity and
    its code, no block is chained to it, and the jumps of every valid block lead to
    their reset offsets or to the valid block their edge names. *)
Theorem invalidate_unlinks s b regs idx tb :
  Rep s regs → chain_inv s b → get s idx = Some tb →
  ∃ s' b', invalidate s idx b = Some (s', b') ∧ Rep s' (filter (λ k, k ≠ idx) regs) ∧
    chain_inv s' b' ∧ jumps_ok s' b' ∧ invalidated idx s s' ∧
    (∀ pc flags, lookup s' pc flags ≠ Some (Some idx)) ∧
    (∀ src stb slot, get s' src = Some stb → (dest stb).[slot] ≠ Some (Some idx)).
Proof.
  intros Hrep Hci Hg.
  destruct (invalidate_steps s b regs idx tb Hrep Hci Hg) as (s' & b' & Hi & Hrep' & Hci' & He & Hv).
  exists s', b'. split_and!; try done.
  - by apply chain_inv_jumps.
  - intros pc flags. rewrite (lookup_spec _ _ _ _ Hrep'). unfold spec_lookup. intros [= Hh].
    apply head_Some_elem_of, list_elem_of_filter in Hh as [_ [? _]%list_elem_of_filter]. done.
  - intros src stb slot Hgs Hd. by apply (edges_no_dest _ _ _ _ _ _ He Hgs Hd).
Qed.
End chain.

(** Two blocks, the jump of the first patched to lead to the second. *)
Definition example_jump (tb : TranslationBlock.t) : TranslationBlock.t :=
  TranslationBlock.set_offsets (TranslationBlock.set_host tb 0 8) [Some 3; None] [Some 8; None].

Definition example_code : CodeBuffer :=
  default example_buffer (fst <$> emit_goto_tb example_buffer).

Lemma example_code_emitted tb : emitted example_buffer example_code (example_jump tb).
Proof.
  assert (∀ slot j, [Some 3; None].[slot] = Some (Some j) → slot = 0 ∧ j = 3) as Hs.
  { intros slot j Hj. pose proof (zlookup_lt_Some _ _ _ Hj) as Hz.
    change (zlen [Some 3; None]) with 2 in Hz. assert (slot = 0 ∨ slot = 1) as [-> | ->] by lia; [|done].
    change (Some (Some 3) = Some (Some j)) in Hj. by injection Hj as <-. }
  split.
  - split; [|by vm_compute]. split; [vm_compute; split; discriminate|].
    apply (bool_decide_unpack _). by vm_compute.
  - intros i Hi. exfalso. change (offset example_buffer) with 0 in Hi. lia.
  - cbn. vm_compute. split; discriminate.
  - done.
  - intros slot j [-> ->]%Hs. split; [by vm_compute|]. split; [by vm_compute|]. exists 8.
    split; [done|]. split; [vm_compute; split; discriminate|by vm_compute].
  - intros slot j slot' j' Hne [-> ->]%Hs [-> ->]%Hs. done.
Qed.

Definition example_chain : option (t * CodeBuffer) :=
  '(s, i) ← alloc new 0x1000 0 0;
  s ← modify s 0 example_jump;
  s ← insert s 0;
  '(s, _) ← alloc s 0x2000 0 0;
  s ← insert s 1;
  b ← x86_patch_jump example_code 3 0;
  s ← modify s 0 (map_jmp (set_dest 0 (Some 1)));
  s ← modify s 1 (map_jmp (push_incoming (0, 0)));
  Some (s, b).

Lemma emitted_nothing b tb :
  wf_buffer b → emitted b b (TranslationBlock.new (TranslationBlock.pc tb) 0 0).
Proof.
  intros Hwf. pose proof (wb_offset _ Hwf). split; cbn; try done; try lia.
  - intros slot j Hj. by apply no_slots in Hj.
  - intros slot j slot' j' _ Hj. by apply no_slots in Hj.
Qed.

Lemma example_chain_ok :
  ∃ s b tb, example_chain = Some (s, b) ∧ Rep s [1; 0] ∧ chain_inv s b ∧ get s 1 = Some tb.
Proof.
  pose proof (chain_inv_empty example_buffer example_buffer_wf ltac:(by vm_compute)) as C0.
  destruct (publish_spec new example_buffer [] 0x1000 0 0 example_jump example_code rep_empty C0
    ltac:(done) ltac:(done) ltac:(done) ltac:(done) (example_code_emitted _))
    as (s1 & s2 & s3 & n & H1 & H2 & H3 & R3 & C3 & L3 & G3 & _).
  change (len new) with 0 in *. change (0 + 1) with 1 in L3.
  destruct (publish_spec s3 example_code [0] 0x2000 0 0 id example_code R3 C3
    ltac:(by rewrite L3) ltac:(done) ltac:(done) ltac:(done)
    (emitted_nothing example_code (TranslationBlock.new 0x2000 0 0) (proj1 (lo_buf _ _ (proj1 C3)))))
    as (s4 & s5 & s6 & n' & H4 & H5 & H6 & R6 & C6 & L6 & G6 & K6).
  rewrite L3 in *. destruct (K6 _ _ G3) as [n'' G6'].
  destruct (add_edge_spec s6 example_code 0 0 1 _ _ 3 C6 G6' ltac:(done) G6 eq_refl eq_refl)
    as (b' & s7 & s8 & Hp & H7 & H8 & C8 & S8 & Hh8 & _).
  assert (s5 = s4) as ->.
  { apply modify_Some in H5 as (tb & Hg & ->). destruct s4 as [l h]. cbn. f_equal.
    apply list_insert_id. apply zlookup_Some in Hg as [_ ?]. done. }
  destruct (upto_get _ _ _ _ _ S8 G6) as (tb & G8 & _).
  exists s8, b', tb. split_and!; try done.
  - unfold example_chain. rewrite H1. cbn [mbind option_bind]. rewrite H2. cbn [mbind option_bind].
    rewrite H3. cbn [mbind option_bind]. rewrite H4. cbn [mbind option_bind]. rewrite H6.
    cbn [mbind option_bind].
    change (TranslationBlock.host_offset _) with 0 in Hp. change (patch_jump example_code 3 0) with
      (x86_patch_jump example_code 3 0) in Hp.
    rewrite Hp. cbn [mbind option_bind]. rewrite H7. cbn [mbind option_bind]. by rewrite H8.
  - apply (rep_upto s6); [done..|]. eapply upto_mono; [apply same_block_key|done].
Qed.

Lemma invalidate_unlinks_witness :
  ∃ s b s' b', example_chain = Some (s, b) ∧ x86_jump_target b 3 = Some 0 ∧
    invalidate s 1 b = Some (s', b') ∧ lookup s' 0x2000 0 ≠ Some (Some 1) ∧ jumps_ok s' b'.
Proof.
  destruct example_chain_ok as (s & b & tb & He & Hrep & Hci & Hg).
  destruct (invalidate_unlinks s b [1; 0] 1 tb Hrep Hci Hg) as (s' & b' & Hi & _ & _ & Hj & _ & Hl & _).
  exists s, b, s', b'. split; [exact He|]. split; [|split; [exact Hi|split; [apply Hl|exact Hj]]].
  assert (b = default example_code (snd <$> example_chain)) as -> by (rewrite He; reflexivity).
  vm_compute. reflexivity.
Defined.
