(* ===== verification/Exec.v ===== *)
(** * The execution engine (exec/src/lib.rs, exec/src/exec_loop.rs)

    Finding, translating, running and chaining blocks, single-threaded.  The state
    is the shared store, code buffer and translation context, the per-CPU jump
    cache and counters, and the guest CPU.

    [GuestCpu] is the trait; [regalloc_and_codegen] stands for register
    allocation and code emission behind [translate], with the [goto_tb] offsets the
    backend recorded; [run] is the host processor entering the buffer through the
    prologue at a block: the new CPU state and the raw exit value.  Their laws are
    hypotheses.  The locks and atomics are not modelled; a panic is [None]. *)

From S2P Require Import Prelude Ir Optimize Liveness PassLabels Tb CodeBuffer TbStore Chain.

(** ** Counters *)

Record ExecStats := mkStats {
  loop_iters : Z;
  jc_hit : Z;
  ht_hit : Z;
  translations : Z;
  chain_exit : list Z;
  nochain_exit : Z;
  real_exit : Z;
  chain_patched : Z;
  chain_already : Z;
  hint_used : Z
}.

Definition stats_default : ExecStats := mkStats 0 0 0 0 [0; 0] 0 0 0 0 0.

Inductive Counter :=
  | LoopIters | JcHit | HtHit | Translate | ChainExit (slot : Z) | NochainExit | RealExit
  | ChainPatched | ChainAlready | HintUsed.

(** [stats.c += 1] *)
Definition bump (c : Counter) (s : ExecStats) : ExecStats :=
  let d (c' : bool) (x : Z) := if c' then x + 1 else x in
  let eqc c' := match c, c' with
    | LoopIters, LoopIters | JcHit, JcHit | HtHit, HtHit | Translate, Translate
    | NochainExit, NochainExit | RealExit, RealExit | ChainPatched, ChainPatched
    | ChainAlready, ChainAlready | HintUsed, HintUsed => true
    | _, _ => false end in
  mkStats (d (eqc LoopIters) (loop_iters s)) (d (eqc JcHit) (jc_hit s)) (d (eqc HtHit) (ht_hit s))
    (d (eqc Translate) (translations s))
    (match c with
     | ChainExit slot => alter (λ x, x + 1) (Z.to_nat slot) (chain_exit s)
     | _ => chain_exit s end)
    (d (eqc NochainExit) (nochain_exit s)) (d (eqc RealExit) (real_exit s))
    (d (eqc ChainPatched) (chain_patched s)) (d (eqc ChainAlready) (chain_already s))
    (d (eqc HintUsed) (hint_used s)).

(** ** State *)

Record PerCpuState := mkPerCpu {
  jump_cache : JumpCache.t;
  stats : ExecStats
}.

(** [SharedState]: [ir_ctx] is what [translate_lock] guards; the backend and
    [code_gen_start] never change. *)
Record SharedState := mkShared {
  tb_store : TbStore.t;
  code_buf : CodeBuffer;
  ir_ctx : Context
}.

Class GuestCpu (C : Type) := {
  get_pc : C → Z;
  get_flags : C → Z;
  gen_code : C → Context → Z → Z → option (C * Context * Z)
}.

Inductive ExitReason := Exit (v : Z) | BufferFull.

Definition MIN_CODE_BUF_REMAINING : Z := 4096.

Definition set_tb_idx (c : Context) (i : Z) : Context :=
  mkContext (temps c) (ops c) (labels c) (nb_globals c) (frame_reg c) (frame_start c)
    (frame_end c) (frame_alloc_end c) (reserved_regs c) (const_table c) (gen_insn_end_off c) i.

(** [for (i, &(jmp, reset)) in offsets.iter().enumerate().take(2)] *)
Fixpoint record_offsets (tb : TranslationBlock.t) (i : Z) (offsets : list (Z * Z)) :
    option TranslationBlock.t :=
  match offsets with
  | [] => Some tb
  | (jmp, reset) :: offsets =>
    tb ← TranslationBlock.set_jmp_insn_offset tb i (u32 jmp);
    tb ← TranslationBlock.set_jmp_reset_offset tb i (u32 reset);
    record_offsets tb (i + 1) offsets
  end.

Section exec.
Context `{JumpCode} {C : Type} `{GuestCpu C}.
Context (regalloc_and_codegen : Context → CodeBuffer → option (Context * CodeBuffer * list (Z * Z))).
Context (run : C → CodeBuffer → Z → C * Z).

Record ExecState := mkExec {
  shared : SharedState;
  per_cpu : PerCpuState;
  cpu : C
}.

Definition count (c : Counter) (e : ExecState) : ExecState :=
  mkExec (shared e) (mkPerCpu (jump_cache (per_cpu e)) (bump c (stats (per_cpu e)))) (cpu e).

Definition cache_insert (pc idx : Z) (e : ExecState) : ExecState :=
  mkExec (shared e)
    (mkPerCpu (JumpCache.insert (jump_cache (per_cpu e)) pc idx) (stats (per_cpu e))) (cpu e).

Definition set_shared (s : SharedState) (e : ExecState) : ExecState :=
  mkExec s (per_cpu e) (cpu e).

Definition set_cpu (c : C) (e : ExecState) : ExecState := mkExec (shared e) (per_cpu e) c.

Definition store (e : ExecState) : TbStore.t := tb_store (shared e).

(** backend/src/translate.rs: the host offset of the block and the offsets of its
    [goto_tb]s. *)
Definition translate (ctx : Context) (buf : CodeBuffer) :
    option (Context * CodeBuffer * list (Z * Z) * Z) :=
  ctx ← optimize ctx;
  ctx ← liveness_analysis ctx;
  let tb_start := offset buf in
  '(ctx, buf, goto_tb_offsets) ← regalloc_and_codegen ctx buf;
  Some (ctx, buf, goto_tb_offsets, tb_start).

(** The block is entered through the prologue, at the start of the buffer; the index of the block is
    stripped from the exit value. *)
Definition translate_and_execute (ctx : Context) (buf : CodeBuffer) (env : C) :
    option (Context * CodeBuffer * C * Z) :=
  '(ctx, buf, _, tb_start) ← translate ctx buf;
  tb_ptr ← ptr_at buf tb_start;
  let '(env, raw) := run env buf tb_ptr in
  let '(_, exit_code) := decode_tb_exit raw in
  Some (ctx, buf, env, exit_code).

Definition tb_gen_code (e : ExecState) (pc flags : Z) : option (ExecState * option Z) :=
  let buf := code_buf (shared e) in
  if remaining buf <? MIN_CODE_BUF_REMAINING then Some (e, None)
  else
    found ← TbStore.lookup (store e) pc flags;
    match found with
    | Some idx => Some (cache_insert pc idx e, Some idx)
    | None =>
      '(s, tb_idx) ← TbStore.alloc (store e) pc flags 0;
      let ctx := set_tb_idx (reset (ir_ctx (shared e))) (u32 tb_idx) in
      '(c, ctx, guest_size) ← gen_code (cpu e) ctx pc (TranslationBlock.max_insns 0);
      s ← TbStore.modify s tb_idx (λ tb, TranslationBlock.set_size tb guest_size);
      '(ctx, buf, offsets, host_offset) ← translate ctx buf;
      let host_size := offset buf - host_offset in
      s ← TbStore.modify s tb_idx (λ tb, TranslationBlock.set_host tb host_offset host_size);
      tb ← TbStore.get s tb_idx;
      tb ← record_offsets tb 0 (take 2 offsets);
      s ← TbStore.modify s tb_idx (λ _, tb);
      s ← TbStore.insert s tb_idx;
      Some (cache_insert pc tb_idx (mkExec (mkShared s buf ctx) (per_cpu e) c), Some tb_idx)
    end.

Definition tb_find (e : ExecState) (pc flags : Z) : option (ExecState * option Z) :=
  let slow :=
    found ← TbStore.lookup (store e) pc flags;
    match found with
    | Some idx => Some (count HtHit (cache_insert pc idx e), Some idx)
    | None => tb_gen_code (count Translate e) pc flags
    end in
  match JumpCache.lookup (jump_cache (per_cpu e)) pc with
  | Some idx =>
    tb ← TbStore.get (store e) idx;
    if TbStore.matches tb pc flags then Some (count JcHit e, Some idx) else slow
  | None => slow
  end.

Definition tb_add_jump (e : ExecState) (src slot dst : Z) : option ExecState :=
  src_tb ← TbStore.get (store e) src;
  insn ← (TranslationBlock.jmp_insn_offset src_tb).[slot];
  match insn with
  | None => Some e
  | Some jmp_off =>
    dst_tb ← TbStore.get (store e) dst;
    if TranslationBlock.invalid dst_tb then Some e
    else
      cur ← (TbJmpState.jmp_dest (TranslationBlock.jmp src_tb)).[slot];
      if bool_decide (cur = Some dst) then Some (count ChainAlready e)
      else
        buf ← patch_jump (code_buf (shared e)) jmp_off (TranslationBlock.host_offset dst_tb);
        s ← TbStore.modify (store e) src (TbStore.map_jmp (TbStore.set_dest slot (Some dst)));
        s ← TbStore.modify s dst (TbStore.map_jmp (push_incoming (src, slot)));
        Some (count ChainPatched (set_shared (mkShared s buf (ir_ctx (shared e))) e))
  end.

(** The state after the block and the raw exit value. *)
Definition cpu_tb_exec (e : ExecState) (tb_idx : Z) : option (ExecState * Z) :=
  tb ← TbStore.get (store e) tb_idx;
  ptr ← ptr_at (code_buf (shared e)) (TranslationBlock.host_offset tb);
  let '(c, raw) := run (cpu e) (code_buf (shared e)) ptr in
  Some (set_cpu c e, raw).

(** What one iteration of the loop decides: the next hint, or to return. *)
Inductive next := Continue (hint : option Z) | Return (r : ExitReason).

Definition chain_slot (e : ExecState) (src_tb slot : Z) : option (ExecState * next) :=
  let e := count (ChainExit slot) e in
  '(e, dst) ← tb_find e (get_pc (cpu e)) (get_flags (cpu e));
  match dst with
  | None => Some (e, Return BufferFull)
  | Some dst => e ← tb_add_jump e src_tb slot dst; Some (e, Continue (Some dst))
  end.

(** The [exit_target] cache of an unchainable exit. *)
Definition nochain (e : ExecState) (src_tb : Z) : option (ExecState * next) :=
  let e := count NochainExit e in
  let pc := get_pc (cpu e) in
  let flags := get_flags (cpu e) in
  stb ← TbStore.get (store e) src_tb;
  let cached := TranslationBlock.exit_target stb in
  hit ← (if cached =? EXIT_TARGET_NONE then Some false
         else tb ← TbStore.get (store e) cached; Some (TbStore.matches tb pc flags));
  if hit : bool then Some (e, Continue (Some cached))
  else
    '(e, dst) ← tb_find e pc flags;
    match dst with
    | None => Some (e, Return BufferFull)
    | Some dst =>
      s ← TbStore.modify (store e) src_tb (λ tb, TranslationBlock.set_exit_target tb dst);
      Some (set_shared (mkShared s (code_buf (shared e)) (ir_ctx (shared e))) e, Continue (Some dst))
    end.

(** The block the iteration runs. *)
Definition choose (e : ExecState) (hint : option Z) : option (ExecState * option Z) :=
  let e := count LoopIters e in
  match hint with
  | Some idx => Some (count HintUsed e, Some idx)
  | None => tb_find e (get_pc (cpu e)) (get_flags (cpu e))
  end.

Definition after_exec (e : ExecState) (tb_idx raw_exit : Z) : option (ExecState * next) :=
  let '(last_tb, exit_code) := decode_tb_exit raw_exit in
  let src_tb := default tb_idx last_tb in
  if (0 <=? exit_code) && (exit_code <=? 1) then chain_slot e src_tb exit_code
  else if exit_code =? TB_EXIT_NOCHAIN then nochain e src_tb
  else Some (count RealExit e, Return (Exit exit_code)).

Definition exec_iter (e : ExecState) (hint : option Z) : option (ExecState * next) :=
  '(e, tb_idx) ← choose e hint;
  match tb_idx with
  | None => Some (e, Return BufferFull)
  | Some tb_idx =>
    '(e, raw_exit) ← cpu_tb_exec e tb_idx;
    after_exec e tb_idx raw_exit
  end.

(** [cpu_exec_loop_mt] for at most [fuel] iterations; [None] in the second place:
    still running. *)
Fixpoint cpu_exec_loop (fuel : nat) (e : ExecState) (hint : option Z) :
    option (ExecState * option ExitReason) :=
  match fuel with
  | O => Some (e, None)
  | S fuel =>
    '(e, n) ← exec_iter e hint;
    match n with
    | Continue hint => cpu_exec_loop fuel e hint
    | Return r => Some (e, Some r)
    end
  end.
End exec.

(** ** Invariant *)

Lemma modify_modify s i f g s1 s2 :
  TbStore.modify s i f = Some s1 → TbStore.modify s1 i g = Some s2 →
  TbStore.modify s i (λ tb, g (f tb)) = Some s2.
Proof.
  intros Hf Hg. pose proof (get_modify _ _ _ _ i Hf) as Hgi. rewrite decide_True in Hgi by done.
  apply modify_Some in Hf as (tb & Hi & ->). apply modify_Some in Hg as (tb' & Hi' & ->).
  rewrite Hi in Hgi. cbn in Hgi. assert (tb' = f tb) as -> by congruence.
  apply modify_Some. exists tb. split; [done|]. cbn [TbStore.tbs TbStore.hash]. by rewrite list_insert_insert_eq.
Qed.

Lemma modify_ext s i f g tb :
  TbStore.get s i = Some tb → f tb = g tb → TbStore.modify s i f = TbStore.modify s i g.
Proof. intros Hi Hfg. unfold TbStore.modify. rewrite Hi. cbn [mbind option_bind]. by rewrite Hfg. Qed.

(** What the recorded offsets become. *)
Definition slots2 (l : list Z) : list (option Z) :=
  match l with
  | [] => [None; None]
  | [a] => [Some (u32 a); None]
  | a :: b :: _ => [Some (u32 a); Some (u32 b)]
  end.

Lemma record_offsets_spec tb offs :
  TranslationBlock.jmp_insn_offset tb = [None; None] →
  TranslationBlock.jmp_reset_offset tb = [None; None] →
  record_offsets tb 0 (take 2 offs) =
    Some (TranslationBlock.set_offsets tb (slots2 (fst <$> offs)) (slots2 (snd <$> offs))).
Proof.
  destruct tb as [? ? ? ? ? ? ? ? insn reset]. cbn [TranslationBlock.jmp_insn_offset
    TranslationBlock.jmp_reset_offset]. intros -> ->.
  destruct offs as [|[j0 r0] [|[j1 r1] offs]]; reflexivity.
Qed.

Lemma slots2_lookup l slot x :
  Forall (λ a, 0 ≤ a < 2 ^ 32) l → (slots2 l).[slot] = Some (Some x) →
  0 ≤ slot < 2 ∧ l.[slot] = Some x.
Proof.
  intros Hl Hs. pose proof (zlookup_lt_Some _ _ _ Hs) as Hr.
  assert (zlen (slots2 l) = 2) as Hlen by (by destruct l as [|? [|]]). rewrite Hlen in Hr.
  split; [done|]. assert (slot = 0 ∨ slot = 1) as [-> | ->] by lia;
    destruct l as [|a [|b l]]; try done; cbn in Hs;
    inversion Hl as [|? ? Ha Hl']; subst; rewrite zlookup_nat by lia.
  - rewrite u32_small in Hs by done. by injection Hs as <-.
  - rewrite u32_small in Hs by done. by injection Hs as <-.
  - inversion Hl' as [|? ? Hb _]; subst. rewrite (u32_small b) in Hs by done. by injection Hs as <-.
Qed.

Section proofs.
Context `{JumpCodeLaws} {C : Type} `{GuestCpu C}.
Context (regalloc_and_codegen : Context → CodeBuffer → option (Context * CodeBuffer * list (Z * Z))).
Context (run : C → CodeBuffer → Z → C * Z).

Abbreviation tb_find := (tb_find regalloc_and_codegen).
Abbreviation tb_gen_code := (tb_gen_code regalloc_and_codegen).
Abbreviation exec_iter := (exec_iter regalloc_and_codegen run).

(** What code emission promises for labels without uses: it appends; the [goto_tb] jumps it records are its
    own, apart from each other, and lead to their reset offsets. *)
Definition codegen_ok : Prop :=
  ∀ ctx buf ctx' buf' offs, regalloc_and_codegen ctx buf = Some (ctx', buf', offs) →
    fresh_labels ctx → wf_buffer buf → capacity buf ≤ 2 ^ 31 →
    wf_buffer buf' ∧ capacity buf' = capacity buf ∧ offset buf ≤ offset buf' ∧
    (∀ i, 0 ≤ i < offset buf → (mem buf').[i] = (mem buf).[i]) ∧
    (∀ i j r, offs.[i] = Some (j, r) → offset buf ≤ j ∧ j + jump_size ≤ offset buf' ∧
       0 ≤ r ≤ capacity buf ∧ jump_target buf' j = Some r) ∧
    (∀ i j r i' j' r', i ≠ i' → offs.[i] = Some (j, r) → offs.[i'] = Some (j', r') →
       j + jump_size ≤ j' ∨ j' + jump_size ≤ j).

(** What the guest promises: generating code leaves the state that selects blocks alone, and uses
    no label. *)
Definition same_guest (c c' : C) : Prop := get_pc c' = get_pc c ∧ get_flags c' = get_flags c.

Definition gen_code_ok : Prop :=
  ∀ c ctx pc n c' ctx' size, gen_code c ctx pc n = Some (c', ctx', size) →
    same_guest c c' ∧ (fresh_labels ctx → fresh_labels ctx').

(** Block [idx] is valid and is the code of [(pc, flags)]. *)
Definition current (e : ExecState (C := C)) (idx pc flags : Z) : Prop :=
  TbStore.live (store e) pc flags idx = true.

Record exec_inv (e : ExecState (C := C)) (regs : list Z) : Prop := {
  xi_rep : Rep (store e) regs;
  xi_chain : chain_inv (store e) (code_buf (shared e));
  (** valid blocks are registered, one per key; *)
  xi_reg i tb : TbStore.get (store e) i = Some tb → TranslationBlock.invalid tb = false → i ∈ regs;
  xi_uniq i j pc flags : current e i pc flags → current e j pc flags → i = j;
  (** the caches hold indices of blocks. *)
  xi_cache k i : jump_cache (per_cpu e) !! k = Some i → 0 ≤ i < TbStore.len (store e);
  xi_exit i tb : TbStore.get (store e) i = Some tb →
    TranslationBlock.exit_target tb = EXIT_TARGET_NONE ∨
    0 ≤ TranslationBlock.exit_target tb < TbStore.len (store e)
}.

Lemma spec_lookup_current e regs pc flags idx :
  spec_lookup (store e) regs pc flags = Some idx → current e idx pc flags.
Proof. unfold spec_lookup. intros Hh%head_Some_elem_of. by apply list_elem_of_filter in Hh as [? _]. Qed.

(** A valid block of the key is the one the index names. *)
Lemma current_spec_lookup e regs pc flags idx :
  exec_inv e regs → current e idx pc flags → spec_lookup (store e) regs pc flags = Some idx.
Proof.
  intros Hinv Hc. destruct (spec_lookup (store e) regs pc flags) as [i|] eqn:Hs.
  - f_equal. eapply xi_uniq; [done| |done]. by eapply spec_lookup_current.
  - exfalso. unfold spec_lookup in Hs. apply head_None in Hs.
    assert (idx ∈ filter (λ i, TbStore.live (store e) pc flags i = true) regs) as Hin;
      [|rewrite Hs in Hin; by apply not_elem_of_nil in Hin].
    apply list_elem_of_filter. split; [done|]. unfold current in Hc. rewrite TbStore.live_matches in Hc.
    destruct (TbStore.get (store e) idx) as [tb|] eqn:Hg; [|done]. eapply xi_reg; [done..|].
    unfold TbStore.matches in Hc. by boolp.
Qed.

(** Counters and cache entries are invisible to the invariant. *)
Lemma exec_inv_count c e regs : exec_inv e regs → exec_inv (count c e) regs.
Proof. intros []. by split. Qed.

Lemma exec_inv_cache pc idx e regs :
  0 ≤ idx < TbStore.len (store e) → exec_inv e regs → exec_inv (cache_insert pc idx e) regs.
Proof.
  intros Hidx []. split; try done. intros k i. cbn. unfold JumpCache.insert. rewrite lookup_insert.
  case_decide; [by intros [= <-]|]. eauto.
Qed.

Lemma current_range e idx pc flags : current e idx pc flags → 0 ≤ idx < TbStore.len (store e).
Proof.
  unfold current. rewrite TbStore.live_matches. destruct (TbStore.get (store e) idx) as [tb|] eqn:Hg; [|done].
  intros _. by eapply get_Some_range.
Qed.

(** An empty store is consistent with any buffer. *)
Lemma exec_inv_empty buf ctx st c :
  wf_buffer buf → capacity buf ≤ 2 ^ 31 →
  exec_inv (mkExec (mkShared TbStore.new buf ctx) (mkPerCpu JumpCache.new st) c) [].
Proof.
  intros Hwf Hcap. set (e := mkExec _ _ c). assert (TbStore.len (store e) = 0) as Hl by done.
  assert (∀ i tb, TbStore.get (store e) i = Some tb → False) as Hno.
  { intros i tb Hg. apply get_Some_range in Hg. lia. }
  split.
  - apply rep_empty.
  - by apply chain_inv_empty.
  - intros i tb Hg. by apply Hno in Hg.
  - intros i j pc flags Hi. apply current_range in Hi. lia.
  - intros k i Hk. change (jump_cache (per_cpu e)) with (∅ : gmap Z Z) in Hk. by rewrite lookup_empty in Hk.
  - intros i tb Hg. by apply Hno in Hg.
Qed.

(** ** Translation of a new block *)

(** The part of [tb_gen_code] that produces code. *)
Definition generated (e : ExecState (C := C)) (pc : Z) :
    option (C * Context * Z * CodeBuffer * list (Z * Z) * Z) :=
  '(c, ctx, guest_size) ← gen_code (cpu e)
     (set_tb_idx (reset (ir_ctx (shared e))) (u32 (TbStore.len (store e)))) pc
     (TranslationBlock.max_insns 0);
  '(ctx, buf, offsets, host_offset) ← translate regalloc_and_codegen ctx (code_buf (shared e));
  Some (c, ctx, guest_size, buf, offsets, host_offset).

Definition new_block (pc flags gsz host hsz : Z) (offs : list (Z * Z)) : TranslationBlock.t :=
  TranslationBlock.set_offsets
    (TranslationBlock.set_host (TranslationBlock.set_size (TranslationBlock.new pc flags 0) gsz) host hsz)
    (slots2 (fst <$> offs)) (slots2 (snd <$> offs)).

Lemma translate_emitted ctx buf ctx' buf' offs host pc flags gsz hsz :
  codegen_ok → fresh_labels ctx → wf_buffer buf → capacity buf ≤ 2 ^ 31 →
  translate regalloc_and_codegen ctx buf = Some (ctx', buf', offs, host) →
  host = offset buf ∧ emitted buf buf' (new_block pc flags gsz host hsz offs).
Proof.
  intros Hcg Hfresh Hwf Hcap Ht. unfold translate in Ht.
  apply bind_Some in Ht as (c1 & Hc1%optimize_labels & Ht). apply bind_Some in Ht as (c2 & Hc2%liveness_labels & Ht).
  apply bind_Some in Ht as ([[c3 b3] o3] & Hr & Ht). injection Ht as -> -> -> <-. split; [done|].
  assert (fresh_labels c2) as Hf2 by (unfold fresh_labels; by rewrite Hc2, Hc1).
  destruct (Hcg _ _ _ _ _ Hr Hf2 Hwf Hcap) as (Hwf' & Hc' & Ho' & Hframe & Hsite & Hap).
  pose proof (wb_offset _ Hwf) as Hoff. pose proof (wb_offset _ Hwf') as Hoff'.
  pose proof jump_size_pos as Hjs.
  assert (Forall (λ a, 0 ≤ a < 2 ^ 32) (fst <$> offs) ∧ Forall (λ a, 0 ≤ a < 2 ^ 32) (snd <$> offs))
    as [Hm1 Hm2].
  { rewrite !Forall_fmap, !Forall_forall. split; intros [j r] [k Hk]%list_elem_of_lookup;
      rewrite <- zlookup_of_nat in Hk; destruct (Hsite _ _ _ Hk) as (? & ? & ? & _); cbn; lia. }
  assert (∀ slot j, (slots2 (fst <$> offs)).[slot] = Some (Some j) →
    ∃ r, offs.[slot] = Some (j, r) ∧ (slots2 (snd <$> offs)).[slot] = Some (Some r)) as Hsl.
  { intros slot j Hj. apply slots2_lookup in Hj as [Hr2 Hj]; [|done].
    rewrite zlookup_fmap in Hj. apply fmap_Some in Hj as ([j' r] & Hj & ->). exists r. split; [done|].
    assert (slot = 0 ∨ slot = 1) as [-> | ->] by lia; rewrite zlookup_nat in Hj by lia;
      destruct offs as [|[j0 r0] [|[j1 r1] offs]]; try done; cbn in Hj, Hm2 |- *;
      inversion Hm2 as [|? ? Hr0 Hm2']; subst.
    - rewrite u32_small by done. by injection Hj as -> ->.
    - rewrite u32_small by done. by injection Hj as -> ->.
    - inversion Hm2' as [|? ? Hr1 _]; subst. rewrite (u32_small r1) by done. by injection Hj as -> ->. }
  split.
  - done.
  - done.
  - cbn. lia.
  - cbn. split; by destruct offs as [|? [|]].
  - intros slot j Hj. destruct (Hsl _ _ Hj) as (r & Hk & Hrs).
    destruct (Hsite _ _ _ Hk) as (? & ? & ? & ?). split_and!; [done..|]. exists r. done.
  - intros slot j slot' j' Hne Hj Hj'. destruct (Hsl _ _ Hj) as (r & Hk & _).
    destruct (Hsl _ _ Hj') as (r' & Hk' & _). by eapply Hap.
Qed.

(** The blocks of [e] are those of [e'] up to their links. *)
Definition kept (e e' : ExecState (C := C)) : Prop :=
  TbStore.len (store e) ≤ TbStore.len (store e') ∧
  ∀ k tb, TbStore.get (store e) k = Some tb →
    ∃ n, TbStore.get (store e') k = Some (TranslationBlock.set_next tb n).

Lemma kept_current e e' idx pc flags : kept e e' → current e idx pc flags → current e' idx pc flags.
Proof.
  intros [_ Hk] Hc. unfold current in *. rewrite ?TbStore.live_matches in *.
  destruct (TbStore.get (store e) idx) as [tb|] eqn:Hg; [|done]. by destruct (Hk _ _ Hg) as [n ->].
Qed.

(** Replaying the updates of [tb_gen_code] as one. *)
Lemma fill_block s i tb gsz host hsz offs s' :
  TbStore.get s i = Some tb →
  TranslationBlock.jmp_insn_offset tb = [None; None] →
  TranslationBlock.jmp_reset_offset tb = [None; None] →
  TbStore.modify s i (λ tb, TranslationBlock.set_offsets
    (TranslationBlock.set_host (TranslationBlock.set_size tb gsz) host hsz)
    (slots2 (fst <$> offs)) (slots2 (snd <$> offs))) = Some s' →
  ∃ s1 s2 tb2 tb3, TbStore.modify s i (λ tb, TranslationBlock.set_size tb gsz) = Some s1 ∧
    TbStore.modify s1 i (λ tb, TranslationBlock.set_host tb host hsz) = Some s2 ∧
    TbStore.get s2 i = Some tb2 ∧ record_offsets tb2 0 (take 2 offs) = Some tb3 ∧
    TbStore.modify s2 i (λ _, tb3) = Some s'.
Proof.
  intros Hg Hi Hr Hm.
  destruct (modify_is_Some s i (λ tb, TranslationBlock.set_size tb gsz) tb Hg) as [s1 Hm1].
  assert (TbStore.get s1 i = Some (TranslationBlock.set_size tb gsz)) as Hg1
    by (by rewrite (get_modify _ _ _ _ _ Hm1), decide_True, Hg).
  destruct (modify_is_Some s1 i (λ tb, TranslationBlock.set_host tb host hsz) _ Hg1) as [s2 Hm2].
  assert (TbStore.get s2 i = Some (TranslationBlock.set_host (TranslationBlock.set_size tb gsz) host hsz))
    as Hg2 by (by rewrite (get_modify _ _ _ _ _ Hm2), decide_True, Hg1).
  eexists s1, s2, _, _. split_and!; [done|done|done|by apply record_offsets_spec|].
  destruct (modify_is_Some s2 i (λ _, TranslationBlock.set_offsets
    (TranslationBlock.set_host (TranslationBlock.set_size tb gsz) host hsz)
    (slots2 (fst <$> offs)) (slots2 (snd <$> offs))) _ Hg2) as [s3 Hm3].
  rewrite Hm3. rewrite <- Hm. symmetry.
  pose proof (modify_modify _ _ _ _ _ _ Hm1 Hm2) as H12. pose proof (modify_modify _ _ _ _ _ _ H12 Hm3) as H123.
  rewrite <- H123. by eapply modify_ext.
Qed.

(** The state after a translation. *)
Definition translated (e e' : ExecState (C := C)) (regs : list Z) (pc flags : Z) : Prop :=
  exec_inv e' (TbStore.len (store e) :: regs) ∧ kept e e' ∧
  TbStore.len (store e') = TbStore.len (store e) + 1 ∧
  current e' (TbStore.len (store e)) pc flags.

(** The invariant once a fresh block of a new key has been published. *)
Lemma exec_inv_publish e regs pc flags s3 buf ctx c tb n :
  exec_inv e regs → spec_lookup (store e) regs pc flags = None →
  let i := TbStore.len (store e) in
  TranslationBlock.pc tb = pc → TranslationBlock.flags tb = flags →
  TranslationBlock.invalid tb = false → TranslationBlock.exit_target tb = EXIT_TARGET_NONE →
  Rep s3 (i :: regs) → chain_inv s3 buf → TbStore.len s3 = i + 1 →
  TbStore.get s3 i = Some (TranslationBlock.set_next tb n) →
  (∀ k tbk, TbStore.get (store e) k = Some tbk →
     ∃ n, TbStore.get s3 k = Some (TranslationBlock.set_next tbk n)) →
  translated e (cache_insert pc i (mkExec (mkShared s3 buf ctx) (per_cpu e) c)) regs pc flags.
Proof.
  intros Hinv Hnone i Hpc Hfl Hv Hex Hrep Hci Hlen Hgi Hk.
  set (e' := cache_insert _ _ _). change s3 with (store e') in Hrep, Hci, Hlen, Hgi, Hk.
  assert (∀ k tb', TbStore.get (store e') k = Some tb' → k = i ∧ tb' = TranslationBlock.set_next tb n ∨
    ∃ tb0 nk, TbStore.get (store e) k = Some tb0 ∧ tb' = TranslationBlock.set_next tb0 nk) as Hback.
  { intros k tb' Hg'. destruct (decide (k = i)) as [->|]; [left; split; congruence|]. right.
    pose proof (get_Some_range _ _ _ Hg') as Hr. rewrite Hlen in Hr.
    destruct (proj2 (zlookup_lt_is_Some (TbStore.tbs (store e)) k)) as [tb0 Hg0];
      [unfold i, TbStore.len in *; lia|].
    destruct (Hk _ _ Hg0) as [nk Hn0]. exists tb0, nk. split; [exact Hg0|congruence]. }
  assert (∀ k p f, current e' k p f → k = i ∧ p = pc ∧ f = flags ∨ current e k p f) as Hcur.
  { intros k p f Hc. unfold current in Hc. rewrite TbStore.live_matches in Hc.
    destruct (TbStore.get (store e') k) as [tb'|] eqn:Hg'; [|done].
    destruct (Hback _ _ Hg') as [[-> ->]|(tb0 & nk & Hg0 & ->)].
    - left. unfold TbStore.matches in Hc. cbn in Hc. boolp. subst. done.
    - right. unfold current. rewrite TbStore.live_matches. by rewrite Hg0. }
  assert (current e' i pc flags) as Hnew.
  { unfold current. rewrite TbStore.live_matches. rewrite Hgi. unfold TbStore.matches. cbn.
    by rewrite Hv, Hpc, Hfl, !Z.eqb_refl. }
  assert (∀ k, ¬ current e k pc flags) as Hno.
  { intros k Hc. pose proof (current_spec_lookup _ _ _ _ _ Hinv Hc). congruence. }
  split_and!; [|split; [lia|done]|done|done]. split; try done.
  - intros k tb' Hg' Hv'. destruct (Hback _ _ Hg') as [[-> _]|(tb0 & nk & Hg0 & ->)]; [left|].
    right. by eapply xi_reg.
  - intros k k' p f Hc Hc'. destruct (Hcur _ _ _ Hc) as [(-> & -> & ->)|Hc0],
      (Hcur _ _ _ Hc') as [(-> & E1 & E2)|Hc0']; try done; subst.
    + by apply Hno in Hc0'.
    + by apply Hno in Hc0.
    + by eapply xi_uniq.
  - intros k x. cbn [cache_insert per_cpu jump_cache e']. unfold JumpCache.insert.
    rewrite lookup_insert, Hlen. case_decide.
    { intros Hx. apply (inj Some) in Hx as <-. pose proof (zlen_nonneg (TbStore.tbs (store e))).
      unfold i, TbStore.len. lia. }
    intros Hx. pose proof (xi_cache _ _ Hinv _ _ Hx). unfold i. lia.
  - intros k tb' Hg'. destruct (Hback _ _ Hg') as [[-> ->]|(tb0 & nk & Hg0 & ->)]; [by left|].
    rewrite Hlen. destruct (xi_exit _ _ Hinv _ _ Hg0) as [Hx|Hx]; [by left|right].
    change (0 ≤ TranslationBlock.exit_target tb0 < i + 1). unfold i. lia.
Qed.

Lemma tb_gen_code_miss e regs pc flags c ctx gsz buf offs host :
  codegen_ok → gen_code_ok → exec_inv e regs → spec_lookup (store e) regs pc flags = None →
  MIN_CODE_BUF_REMAINING ≤ remaining (code_buf (shared e)) →
  TbStore.len (store e) < TbStore.MAX_TBS →
  generated e pc = Some (c, ctx, gsz, buf, offs, host) →
  ∃ e', tb_gen_code e pc flags = Some (e', Some (TbStore.len (store e))) ∧
    translated e e' regs pc flags ∧ cpu e' = c.
Proof.
  intros Hcg Hgk Hinv Hnone Hrem Hlt Hgen.
  pose proof (xi_chain _ _ Hinv) as Hci. destruct (lo_buf _ _ (proj1 Hci)) as [Hwf Hcap].
  unfold generated in Hgen. apply bind_Some in Hgen as ([[c0 ctx0] gsz0] & Hgc & Hgen).
  apply bind_Some in Hgen as ([[[ctx1 buf1] offs1] host1] & Htr & Hgen).
  injection Hgen as -> -> -> -> -> ->.
  destruct (Hgk _ _ _ _ _ _ _ Hgc) as [_ Hfresh]. specialize (Hfresh (List.Forall_nil _)).
  destruct (translate_emitted _ _ _ _ _ _ pc flags gsz (offset buf - host) Hcg Hfresh Hwf Hcap Htr) as [Hhost Hem].
  destruct (publish_spec (store e) (code_buf (shared e)) regs pc flags 0
    (λ tb, TranslationBlock.set_offsets
      (TranslationBlock.set_host (TranslationBlock.set_size tb gsz) host (offset buf - host))
      (slots2 (fst <$> offs)) (slots2 (snd <$> offs))) buf (xi_rep _ _ Hinv) Hci Hlt)
    as (s1 & s2 & s3 & n & Ha & Hm & Hin & Hrep & Hci3 & Hl3 & Hg3 & Hk3); try done.
  destruct (alloc_spec (store e) regs pc flags 0 (xi_rep _ _ Hinv) Hlt) as (s1' & Ha' & _ & _ & _ & Hg1 & _).
  assert (s1' = s1) as -> by congruence.
  destruct (fill_block _ _ _ _ _ _ _ _ Hg1 eq_refl eq_refl Hm) as (sa & sb & tb2 & tb3 & Hsa & Hsb & Hgb & Hro & Hsc).
  exists (cache_insert pc (TbStore.len (store e)) (mkExec (mkShared s3 buf ctx) (per_cpu e) c)).
  split; [|split; [|done]].
  2:{ apply (exec_inv_publish e regs pc flags s3 buf ctx c
        (new_block pc flags gsz host (offset buf - host) offs) n); done. }
  unfold Exec.tb_gen_code. rewrite (proj2 (Z.ltb_ge _ _)) by done.
  rewrite (lookup_spec _ _ _ _ (xi_rep _ _ Hinv)), Hnone. cbn [mbind option_bind].
  rewrite Ha. cbn [mbind option_bind]. rewrite Hgc. cbn [mbind option_bind]. rewrite Hsa.
  cbn [mbind option_bind]. rewrite Htr. cbn [mbind option_bind]. rewrite Hsb. cbn [mbind option_bind].
  rewrite Hgb. cbn [mbind option_bind]. rewrite Hro. cbn [mbind option_bind]. rewrite Hsc.
  cbn [mbind option_bind]. by rewrite Hin.
Qed.

(** ** Finding *)

Lemma slow_path e regs pc flags :
  exec_inv e regs →
  tb_find e pc flags =
    match spec_lookup (store e) regs pc flags with
    | Some idx =>
      match JumpCache.lookup (jump_cache (per_cpu e)) pc with
      | Some i => if TbStore.live (store e) pc flags i then Some (count JcHit e, Some idx)
                  else Some (count HtHit (cache_insert pc idx e), Some idx)
      | None => Some (count HtHit (cache_insert pc idx e), Some idx)
      end
    | None => tb_gen_code (count Translate e) pc flags
    end.
Proof.
  intros Hinv. unfold Exec.tb_find. rewrite (lookup_spec _ _ _ _ (xi_rep _ _ Hinv)).
  cbn [mbind option_bind]. destruct (JumpCache.lookup _ pc) as [i|] eqn:Hc;
    [|by destruct (spec_lookup _ _ _ _)].
  pose proof (xi_cache _ _ Hinv _ _ Hc) as Hr.
  destruct (proj2 (zlookup_lt_is_Some (TbStore.tbs (store e)) i) Hr) as [tb Hg].
  change (TbStore.get (store e) i = Some tb) in Hg.
  assert (TbStore.live (store e) pc flags i = TbStore.matches tb pc flags) as Hl
    by (by rewrite TbStore.live_matches, Hg).
  rewrite Hg, Hl. cbn [mbind option_bind]. destruct (TbStore.matches tb pc flags) eqn:Hm.
  - by rewrite (current_spec_lookup e regs pc flags i Hinv Hl).
  - by destruct (spec_lookup _ _ _ _).
Qed.

Lemma tb_find_hit e regs pc flags idx :
  exec_inv e regs → spec_lookup (store e) regs pc flags = Some idx →
  ∃ e', tb_find e pc flags = Some (e', Some idx) ∧ exec_inv e' regs ∧ shared e' = shared e ∧
    cpu e' = cpu e.
Proof.
  intros Hinv Hs. rewrite (slow_path _ _ _ _ Hinv), Hs.
  assert (exec_inv (count HtHit (cache_insert pc idx e)) regs) as Hslow.
  { apply exec_inv_count, exec_inv_cache; [|done]. by eapply current_range, spec_lookup_current. }
  destruct (JumpCache.lookup _ _) as [i|]; [destruct (TbStore.live _ _ _ _)|];
    eexists; (split; [done|]); (split; [|done]); try done. by apply exec_inv_count.
Qed.

Lemma tb_gen_code_fails e regs pc flags :
  exec_inv e regs → spec_lookup (store e) regs pc flags = None →
  MIN_CODE_BUF_REMAINING ≤ remaining (code_buf (shared e)) →
  TbStore.MAX_TBS ≤ TbStore.len (store e) ∨ generated e pc = None →
  tb_gen_code e pc flags = None.
Proof.
  intros Hinv Hs Hrem Hfail. unfold Exec.tb_gen_code. rewrite (proj2 (Z.ltb_ge _ _)) by done.
  rewrite (lookup_spec _ _ _ _ (xi_rep _ _ Hinv)), Hs. cbn [mbind option_bind].
  unfold TbStore.alloc. change (zlen (TbStore.tbs (store e))) with (TbStore.len (store e)).
  destruct (_ <? TbStore.MAX_TBS) eqn:Hlt; [|done]. boolp. destruct Hfail as [?|Hgen]; [lia|].
  cbn [mbind option_bind]. unfold generated in Hgen.
  destruct (gen_code _ _ _ _) as [[[c ctx] gsz]|]; [|done]. cbn [mbind option_bind] in *.
  destruct (TbStore.modify _ _ _) as [sa|]; [|done]. cbn [mbind option_bind].
  by destruct (translate _ _ _) as [[[[? ?] ?] ?]|].
Qed.

(** C25. Finding the block of a guest state.  The jump cache and the hash table are
    transparent: when a valid block of [(pc, flags)] exists, [tb_find] returns it,
    the only one, and changes neither the store nor the code buffer nor the CPU.
    Otherwise it reports a full buffer when less than the minimum is left, panics
    exactly when the store is full or translation panics, and else returns a
    fresh block of this key, every earlier block unchanged but for its link. *)
Theorem tb_find_correct e regs pc flags :
  codegen_ok → gen_code_ok → exec_inv e regs →
  match spec_lookup (store e) regs pc flags with
  | Some idx => current e idx pc flags ∧ ∃ e', tb_find e pc flags = Some (e', Some idx) ∧
      exec_inv e' regs ∧ shared e' = shared e ∧ cpu e' = cpu e
  | None => (∀ idx, ¬ current e idx pc flags) ∧
    if decide (remaining (code_buf (shared e)) < MIN_CODE_BUF_REMAINING) then
      ∃ e', tb_find e pc flags = Some (e', None) ∧ exec_inv e' regs ∧ shared e' = shared e ∧ cpu e' = cpu e
    else match generated e pc with
      | Some (c, _, _, _, _, _) =>
        if decide (TbStore.len (store e) < TbStore.MAX_TBS) then
          ∃ e', tb_find e pc flags = Some (e', Some (TbStore.len (store e))) ∧
            translated e e' regs pc flags ∧ cpu e' = c
        else tb_find e pc flags = None
      | None => tb_find e pc flags = None
      end
  end.
Proof.
  intros Hcg Hgc Hinv. destruct (spec_lookup (store e) regs pc flags) as [idx|] eqn:Hs.
  { split; [by eapply spec_lookup_current|]. by apply tb_find_hit. }
  split.
  { intros idx Hc. pose proof (current_spec_lookup _ _ _ _ _ Hinv Hc). congruence. }
  rewrite (slow_path _ _ _ _ Hinv), Hs. pose proof (exec_inv_count Translate _ _ Hinv) as Hinv1.
  case_decide as Hrem.
  { exists (count Translate e). split; [|done]. unfold Exec.tb_gen_code.
    by rewrite (proj2 (Z.ltb_lt _ _)). }
  assert (MIN_CODE_BUF_REMAINING ≤ remaining (code_buf (shared e))) as Hrem' by lia.
  destruct (generated e pc) as [[[[[[c ctx] gsz] buf] offs] host]|] eqn:Hgen;
    [case_decide|]; try (eapply tb_gen_code_fails; [done..|]).
  - by apply (tb_gen_code_miss (count Translate e) regs pc flags c ctx gsz buf offs host).
  - left. change (store (count Translate e)) with (store e). lia.
  - by right.
Qed.

(** ** Chaining and running *)

(** Later states know every block of earlier ones: keys and validity stay. *)
Definition grows (e e' : ExecState (C := C)) : Prop :=
  TbStore.len (store e) ≤ TbStore.len (store e') ∧
  ∀ idx pc flags, current e idx pc flags → current e' idx pc flags.

#[local] Instance grows_preorder : PreOrder grows.
Proof. split; [done|]. intros e1 e2 e3 [? ?] [? ?]. split; [lia|eauto]. Qed.

Definition same_visible (tb tb' : TranslationBlock.t) : Prop :=
  TranslationBlock.pc tb' = TranslationBlock.pc tb ∧
  TranslationBlock.flags tb' = TranslationBlock.flags tb ∧
  TranslationBlock.invalid tb' = TranslationBlock.invalid tb.

Lemma live_visible s s' pc flags i :
  upto same_visible s s' → TbStore.live s' pc flags i = TbStore.live s pc flags i.
Proof.
  intros Hs. rewrite !TbStore.live_matches. destruct (TbStore.get s i) as [tb|] eqn:Hg.
  - destruct (upto_get _ _ _ _ _ Hs Hg) as (tb' & -> & Hp & Hf & Hv). unfold TbStore.matches.
    by rewrite Hp, Hf, Hv.
  - destruct (TbStore.get s' i) as [tb'|] eqn:Hg'; [|done].
    destruct (proj2 Hs _ _ Hg') as (tb & ? & _). congruence.
Qed.

(** Replacing the store by one with the same visible blocks. *)
Lemma exec_inv_store e regs s' buf :
  exec_inv e regs → upto same_visible (store e) s' → Rep s' regs → chain_inv s' buf →
  (∀ i tb, TbStore.get s' i = Some tb → TranslationBlock.exit_target tb = EXIT_TARGET_NONE ∨
     0 ≤ TranslationBlock.exit_target tb < TbStore.len s') →
  let e' := set_shared (mkShared s' buf (ir_ctx (shared e))) e in exec_inv e' regs ∧ grows e e'.
Proof.
  intros Hinv Hs Hrep Hci Hex e'.
  assert (∀ i pc flags, current e' i pc flags ↔ current e i pc flags) as Hcur.
  { intros i pc flags. unfold current. change (store e') with s'. by rewrite (live_visible _ _ _ _ _ Hs). }
  split; [split; try done|].
  - intros i tb' Hg' Hv. destruct (proj2 Hs _ _ Hg') as (tb & Hg & _ & _ & Hv'). eapply xi_reg; [done..|].
    congruence.
  - intros i j pc flags Hi%Hcur Hj%Hcur. by eapply xi_uniq.
  - intros k i Hk. change (store e') with s'. rewrite (proj1 Hs). by eapply xi_cache.
  - split; [change (store e') with s'; by rewrite (proj1 Hs)|]. intros. by apply Hcur.
Qed.

Lemma block_visible tb tb' : same_block tb tb' → same_visible tb tb'.
Proof. intros ((_ & _ & _ & ? & ?) & _ & ?). by split_and!. Qed.

Lemma tb_add_jump_spec e regs src slot dst pc flags :
  exec_inv e regs → 0 ≤ src < TbStore.len (store e) → 0 ≤ slot < 2 → current e dst pc flags →
  ∃ e', tb_add_jump e src slot dst = Some e' ∧ exec_inv e' regs ∧ grows e e' ∧ cpu e' = cpu e ∧
    TbStore.len (store e') = TbStore.len (store e).
Proof.
  intros Hinv Hsrc Hslot Hdst. pose proof (xi_chain _ _ Hinv) as Hci.
  destruct (proj2 (zlookup_lt_is_Some (TbStore.tbs (store e)) src) Hsrc) as [stb Hg].
  change (TbStore.get (store e) src = Some stb) in Hg.
  pose proof Hdst as Hlive. unfold current in Hlive. rewrite TbStore.live_matches in Hlive.
  destruct (TbStore.get (store e) dst) as [dtb|] eqn:Hgd; [|done].
  assert (TranslationBlock.invalid dtb = false) as Hv by (unfold TbStore.matches in Hlive; by boolp).
  destruct (lo_len _ _ (proj1 Hci) _ _ Hg) as [Hl _]. pose proof (ed_len _ _ _ (proj1 (proj2 Hci)) _ _ Hg) as Hl'.
  unfold tb_add_jump. rewrite Hg, Hgd. cbn [mbind option_bind].
  destruct (proj2 (zlookup_lt_is_Some (TranslationBlock.jmp_insn_offset stb) slot)) as [insn Hi]; [lia|].
  rewrite Hi. cbn [mbind option_bind]. destruct insn as [j|]; [|by exists e].
  change (TbJmpState.jmp_dest (TranslationBlock.jmp stb)) with (dest stb). rewrite Hv.
  destruct (proj2 (zlookup_lt_is_Some (dest stb) slot)) as [cur Hcur]; [lia|]. rewrite Hcur.
  cbn [mbind option_bind]. case_bool_decide.
  { exists (count ChainAlready e). split; [done|]. split; [by apply exec_inv_count|done]. }
  destruct (add_edge_spec _ _ src slot dst stb dtb j Hci Hg Hslot Hgd Hv Hi)
    as (b' & s1 & s2 & Hp & Hm1 & Hm2 & Hci2 & Hs2 & Hh2 & _).
  rewrite Hp. cbn [mbind option_bind]. rewrite Hm1. cbn [mbind option_bind]. rewrite Hm2.
  cbn [mbind option_bind].
  destruct (exec_inv_store e regs s2 b' Hinv) as [Hinv' Hgr].
  - eapply upto_mono; [apply block_visible|done].
  - apply (rep_upto (store e)); [apply Hinv|done|]. eapply upto_mono; [apply same_block_key|done].
  - done.
  - intros i tb' Hg'. destruct (proj2 Hs2 _ _ Hg') as (tb & Hg0 & _ & Hx & _). injection Hx as _ ->.
    rewrite (proj1 Hs2). by eapply xi_exit.
  - eexists. split; [done|]. split; [by apply exec_inv_count|]. split; [exact Hgr|].
    split; [done|]. exact (proj1 Hs2).
Qed.

(** Translation of the next block panics, with room left for it. *)
Definition stuck (e : ExecState (C := C)) (pc : Z) : Prop :=
  MIN_CODE_BUF_REMAINING ≤ remaining (code_buf (shared e)) ∧ generated e pc = None.

(** What a search gives, or that it panics in translation. *)
Definition found (e : ExecState (C := C)) (pc flags : Z) (o : option (ExecState * option Z)) : Prop :=
  match o with
  | Some (e', r) => ∃ regs', exec_inv e' regs' ∧ grows e e' ∧
      TbStore.len (store e') ≤ TbStore.len (store e) + 1 ∧ same_guest (cpu e) (cpu e') ∧
      ∀ idx, r = Some idx → current e' idx pc flags
  | None => stuck e pc
  end.

Lemma tb_find_found e regs pc flags :
  codegen_ok → gen_code_ok → exec_inv e regs → TbStore.len (store e) < TbStore.MAX_TBS →
  found e pc flags (tb_find e pc flags).
Proof.
  intros Hcg Hgc Hinv Hlt. rewrite (slow_path _ _ _ _ Hinv).
  destruct (spec_lookup (store e) regs pc flags) as [idx|] eqn:Hs.
  - pose proof (spec_lookup_current _ _ _ _ _ Hs) as Hc.
    destruct (tb_find_hit e regs pc flags idx Hinv Hs) as (e' & Hf & Hinv' & Hsh & Hcpu).
    rewrite (slow_path _ _ _ _ Hinv), Hs in Hf. rewrite Hf. exists regs.
    assert (store e' = store e) as Hst by (unfold store; by rewrite Hsh).
    unfold grows, current in *. rewrite Hst.
    split_and!; try (done || lia || by rewrite Hcpu). by intros ? [= <-].
  - pose proof (exec_inv_count Translate _ _ Hinv) as Hinv1.
    destruct (decide (remaining (code_buf (shared e)) < MIN_CODE_BUF_REMAINING)) as [Hr|Hr].
    + unfold Exec.tb_gen_code. rewrite (proj2 (Z.ltb_lt _ _)) by done. exists regs. split_and!; try done.
      change (store (count Translate e)) with (store e). lia.
    + destruct (generated e pc) as [[[[[[c ctx] gsz] buf] offs] host]|] eqn:Hgen.
      2:{ rewrite (tb_gen_code_fails (count Translate e) regs); [split; [lia|done]|done..| |by right].
          change (shared (count Translate e)) with (shared e). lia. }
      destruct (tb_gen_code_miss (count Translate e) regs pc flags c ctx gsz buf offs host)
        as (e' & Hf & (Hinv' & Hk & Hl & Hc) & Hcpu); try done.
      { change (shared (count Translate e)) with (shared e). lia. }
      change (store (count Translate e)) with (store e) in *. rewrite Hf.
      exists (TbStore.len (store e) :: regs). split; [done|]. split; [|split; [lia|split]].
      * split; [lia|]. intros i p f. by apply (kept_current (count Translate e)).
      * unfold generated in Hgen. apply bind_Some in Hgen as ([[c0 ctx0] gsz0] & Hgen & Hrest).
        apply bind_Some in Hrest as ([[[? ?] ?] ?] & _ & Hrest). injection Hrest as -> _ _ _ _ _.
        rewrite Hcpu. by eapply (proj1 (Hgc _ _ _ _ _ _ _ Hgen)).
      * by intros ? [= <-].
Qed.

(** A hint names the block of the present guest state. *)
Definition hint_ok (e : ExecState (C := C)) (hint : option Z) : Prop :=
  ∀ idx, hint = Some idx → current e idx (get_pc (cpu e)) (get_flags (cpu e)).

(** The translation of the block the guest is to run next panics. *)
Definition next_stuck (e : ExecState (C := C)) : Prop := stuck e (get_pc (cpu e)).

(** The code of the turn exits with a code, from a block of the store. *)
Definition exit_ok (e : ExecState (C := C)) (hint : option Z) : Prop :=
  ∀ e1 idx e2 raw, choose regalloc_and_codegen e hint = Some (e1, Some idx) →
    cpu_tb_exec run e1 idx = Some (e2, raw) →
    0 ≤ (decode_tb_exit raw).2 ∧
    ∀ i, (decode_tb_exit raw).1 = Some i → 0 ≤ i < TbStore.len (store e1).

(** The turn panics in the translator, before or after it runs code. *)
Definition turn_stuck (e : ExecState (C := C)) (hint : option Z) : Prop :=
  (hint = None ∧ next_stuck e) ∨
  ∃ e1 idx e2 raw, choose regalloc_and_codegen e hint = Some (e1, Some idx) ∧
    cpu_tb_exec run e1 idx = Some (e2, raw) ∧ next_stuck e2.

(** What a part of a turn leaves, for a good next turn. *)
Definition carries_on (k : Z) (e : ExecState (C := C)) (o : option (ExecState * next)) (P : Prop) : Prop :=
  match o with
  | Some (e', n) => ∃ regs', exec_inv e' regs' ∧
      TbStore.len (store e) ≤ TbStore.len (store e') ≤ TbStore.len (store e) + k ∧ ∀ h, n = Continue h → hint_ok e' h
  | None => P
  end.

Section iteration.
Context (Hcg : codegen_ok) (Hgc : gen_code_ok).

Lemma choose_spec e regs hint :
  exec_inv e regs → hint_ok e hint → TbStore.len (store e) + 1 ≤ TbStore.MAX_TBS →
  match choose regalloc_and_codegen e hint with
  | Some (e1, r) => ∃ regs1, exec_inv e1 regs1 ∧ grows e e1 ∧
      TbStore.len (store e1) ≤ TbStore.len (store e) + 1 ∧
      ∀ idx, r = Some idx → current e1 idx (get_pc (cpu e1)) (get_flags (cpu e1))
  | None => hint = None ∧ next_stuck e
  end.
Proof.
  intros Hinv Hh Hlen. unfold choose. pose proof (exec_inv_count LoopIters _ _ Hinv) as Hinv1.
  destruct hint as [idx|].
  - exists regs.
    split; [by apply exec_inv_count|]. split; [done|].
    split; [change (store (count HintUsed (count LoopIters e))) with (store e); lia|].
    intros i Hi. injection Hi as <-. by apply Hh.
  - pose proof (tb_find_found (count LoopIters e) regs (get_pc (cpu e)) (get_flags (cpu e)) Hcg Hgc Hinv1) as Hf.
    change (cpu (count LoopIters e)) with (cpu e).
    destruct (tb_find _ _ _) as [[e1 r]|].
    + destruct Hf as (regs1 & Hi1 & Hg & Hl & [Hp Hfl] & Hc).
      { change (store (count LoopIters e)) with (store e). lia. }
      exists regs1. split_and!; try done. change (cpu (count LoopIters e)) with (cpu e) in *. by rewrite Hp, Hfl.
    + split; [done|]. apply Hf. change (store (count LoopIters e)) with (store e). lia.
Qed.

Lemma chain_slot_spec e regs src slot :
  exec_inv e regs → 0 ≤ src < TbStore.len (store e) → 0 ≤ slot < 2 →
  TbStore.len (store e) + 1 ≤ TbStore.MAX_TBS →
  carries_on 1 e (chain_slot regalloc_and_codegen e src slot) (next_stuck e).
Proof.
  intros Hinv Hsrc Hslot Hlen. unfold chain_slot.
  pose proof (exec_inv_count (ChainExit slot) _ _ Hinv) as Hinv1.
  pose proof (tb_find_found (count (ChainExit slot) e) regs (get_pc (cpu e)) (get_flags (cpu e)) Hcg Hgc Hinv1) as Hf.
  change (cpu (count (ChainExit slot) e)) with (cpu e). change (store (count (ChainExit slot) e)) with (store e) in Hf.
  destruct (tb_find _ _ _) as [[e1 r]|]; [|by apply Hf; lia].
  destruct Hf as (regs1 & Hi1 & Hg & Hl1 & [Hp Hfl] & Hc); [lia|]. cbn [mbind option_bind].
  change (store (count (ChainExit slot) e)) with (store e) in Hl1. destruct Hg as [Hg _].
  change (store (count (ChainExit slot) e)) with (store e) in Hg.
  destruct r as [dst|]; [|by exists regs1]. specialize (Hc dst eq_refl).
  destruct (tb_add_jump_spec e1 regs1 src slot dst (get_pc (cpu e)) (get_flags (cpu e)) Hi1) as (e2 & Ha & Hi2 & Hg2 & Hcpu & Hl2);
    [lia|done|done|].
  rewrite Ha. cbn [mbind option_bind]. exists regs1.
  split_and!; [done|lia|lia|].
  intros h Hh. injection Hh as <-. intros i Hi. injection Hi as <-.
  change (cpu (count (ChainExit slot) e)) with (cpu e) in *. rewrite Hcpu, Hp, Hfl. by apply Hg2.
Qed.

Lemma nochain_spec e regs src :
  exec_inv e regs → 0 ≤ src < TbStore.len (store e) → TbStore.len (store e) + 1 ≤ TbStore.MAX_TBS →
  carries_on 1 e (nochain regalloc_and_codegen e src) (next_stuck e).
Proof.
  intros Hinv Hsrc Hlen. unfold nochain. set (e0 := count NochainExit e).
  change (next_stuck e) with (next_stuck e0).
  assert (exec_inv e0 regs) as Hinv0 by by apply exec_inv_count.
  change (store e) with (store e0) in *.
  destruct (proj2 (zlookup_lt_is_Some (TbStore.tbs (store e0)) src) Hsrc) as [stb Hg].
  change (TbStore.get (store e0) src = Some stb) in Hg. rewrite Hg. cbn [mbind option_bind].
  set (cached := TranslationBlock.exit_target stb).
  assert (∃ hit : bool, (if cached =? EXIT_TARGET_NONE then Some false
     else tb ← TbStore.get (store e0) cached;
          Some (TbStore.matches tb (get_pc (cpu e0)) (get_flags (cpu e0)))) = Some hit ∧
     (hit = true → current e0 cached (get_pc (cpu e0)) (get_flags (cpu e0)))) as (hit & -> & Hhit).
  { destruct (cached =? EXIT_TARGET_NONE) eqn:Hn; [by exists false|]. boolp.
    destruct (xi_exit _ _ Hinv0 _ _ Hg) as [?|Hr]; [done|].
    destruct (proj2 (zlookup_lt_is_Some (TbStore.tbs (store e0)) cached) Hr) as [tb Hgc'].
    change (TbStore.get (store e0) cached = Some tb) in Hgc'. rewrite Hgc'. cbn [mbind option_bind].
    eexists. split; [done|]. intros Hm. unfold current. rewrite TbStore.live_matches. by rewrite Hgc'. }
  cbn [mbind option_bind]. destruct hit.
  { exists regs. split; [done|]. split; [change (store e) with (store e0); lia|].
    intros h Hh. injection Hh as <-. intros i Hi. injection Hi as <-. by apply Hhit. }
  pose proof (tb_find_found e0 regs (get_pc (cpu e0)) (get_flags (cpu e0)) Hcg Hgc Hinv0) as Hf.
  destruct (tb_find _ _ _) as [[e1 r]|]; [|by apply Hf; lia].
  destruct Hf as (regs1 & Hi1 & Hgr & Hl1 & [Hp Hfl] & Hc); [lia|]. cbn [mbind option_bind].
  destruct r as [dst|]; [|exists regs1; destruct Hgr; by split_and!].
  specialize (Hc dst eq_refl).
  destruct (proj2 (zlookup_lt_is_Some (TbStore.tbs (store e1)) src)) as [stb1 Hg1].
  { destruct Hgr as [Hgr _]. unfold TbStore.len in *. lia. }
  destruct (modify_is_Some (store e1) src (λ tb, TranslationBlock.set_exit_target tb dst) stb1 Hg1) as [s' Hm].
  rewrite Hm. cbn [mbind option_bind].
  assert (upto (λ tb tb', same_jumps tb tb' ∧ same_key tb tb') (store e1) s') as Hup.
  { split; [by destruct (modify_frame _ _ _ _ Hm)|]. intros k tb' Hg'.
    rewrite (get_modify _ _ _ _ _ Hm) in Hg'. case_decide; [|by exists tb'].
    subst. apply fmap_Some in Hg' as (tb & ? & ->). by exists tb. }
  destruct (exec_inv_store e1 regs1 s' (code_buf (shared e1)) Hi1) as [Hi2 Hg2].
  - eapply upto_mono; [|exact Hup]. intros tb tb' [(? & ? & ?) (? & ? & ?)]. by split_and!.
  - apply (rep_upto (store e1)); [apply Hi1|by destruct (modify_frame _ _ _ _ Hm)|].
    eapply upto_mono; [|exact Hup]. by intros ?? [].
  - apply (chain_inv_upto (store e1)); [|apply Hi1]. eapply upto_mono; [|exact Hup]. by intros ?? [].
  - intros i tb' Hg'. rewrite (proj1 Hup), (get_modify _ _ _ _ _ Hm) in *.
    case_decide; [|by eapply xi_exit]. subst. apply fmap_Some in Hg' as (tb & _ & ->). right.
    by eapply current_range.
  - exists regs1. split; [done|].
    split; [change (TbStore.len (store e0) ≤ TbStore.len s' ≤ TbStore.len (store e0) + 1); rewrite (proj1 Hup); destruct Hgr; by split|].
    intros h Hh. injection Hh as <-. intros i Hi. injection Hi as <-. apply Hg2.
    change (cpu (set_shared _ e1)) with (cpu e1). by rewrite Hp, Hfl.
Qed.

Lemma exec_iter_spec e regs hint :
  exec_inv e regs → hint_ok e hint → exit_ok e hint → TbStore.len (store e) + 2 ≤ TbStore.MAX_TBS →
  carries_on 2 e (exec_iter e hint) (turn_stuck e hint).
Proof.
  intros Hinv Hh Hrun Hlen. unfold turn_stuck, exit_ok in *.
  pose proof (choose_spec e regs hint Hinv Hh ltac:(lia)) as Hch.
  unfold Exec.exec_iter. destruct (choose _ e hint) as [[e1 r]|]; [|by left].
  destruct Hch as (regs1 & Hi1 & Hg1 & Hl1 & Hcur). cbn [mbind option_bind].
  destruct r as [idx|]; [|exists regs1; destruct Hg1; split_and!; (done || lia)].
  pose proof (current_range _ _ _ _ (Hcur idx eq_refl)) as Hidx.
  destruct (proj2 (zlookup_lt_is_Some (TbStore.tbs (store e1)) idx) Hidx) as [tb Hg].
  change (TbStore.get (store e1) idx = Some tb) in Hg.
  pose proof (lo_host _ _ (proj1 (xi_chain _ _ Hi1)) _ _ Hg) as Hhost.
  destruct (cpu_tb_exec run e1 idx) as [[e2 raw]|] eqn:Hr.
  2:{ unfold cpu_tb_exec, ptr_at in Hr. rewrite Hg in Hr. cbn [mbind option_bind] in Hr.
      rewrite (proj2 (Z.leb_le _ _)) in Hr by lia. cbn [mbind option_bind] in Hr. by destruct (run _ _ _). }
  destruct (Hrun _ _ _ _ eq_refl Hr) as [Hcode Hlast]. cbn [mbind option_bind].
  assert (∃ c, e2 = set_cpu c e1) as [c ->].
  { unfold cpu_tb_exec in Hr. apply bind_Some in Hr as (? & _ & Hr). apply bind_Some in Hr as (? & _ & Hr).
    destruct (run _ _ _) as [c ?]. exists c. by injection Hr as <- _. }
  assert (exec_inv (set_cpu c e1) regs1) as Hi2 by (destruct Hi1; by split).
  assert (∀ o, carries_on 1 (set_cpu c e1) o (next_stuck (set_cpu c e1)) →
    carries_on 2 e o ((hint = None ∧ next_stuck e) ∨ ∃ e3 i e2 raw', Some (e1, Some idx) = Some (e3, Some i) ∧
      cpu_tb_exec run e3 i = Some (e2, raw') ∧ next_stuck e2)) as Hlift.
  { destruct Hg1 as [Hg1 _]. change (TbStore.len (store e1)) with (TbStore.len (store (set_cpu c e1))) in *. intros [[e' n]|].
    - intros (regs' & ? & Hl & ?). exists regs'. split_and!; [done|lia..|done].
    - intros Hst. right. by exists e1, idx, (set_cpu c e1), raw. }
  unfold after_exec. destruct (decode_tb_exit raw) as [last code]. cbn [fst snd] in *.
  assert (0 ≤ default idx last < TbStore.len (store e1)) as Hsrc
    by (destruct last as [i|]; [by apply Hlast|done]).
  destruct ((0 <=? code) && (code <=? 1)) eqn:Hcase; [|destruct (code =? TB_EXIT_NOCHAIN)].
  - boolp. apply Hlift. apply (chain_slot_spec _ regs1); [done..|lia|].
    change (store (set_cpu c e1)) with (store e1). lia.
  - apply Hlift. apply (nochain_spec _ regs1); [done..|]. change (store (set_cpu c e1)) with (store e1). lia.
  - apply Hlift. exists regs1. split; [by apply exec_inv_count|]. split; [|done].
    change (store (count RealExit (set_cpu c e1))) with (store (set_cpu c e1)). lia.
Qed.
End iteration.

(** One turn of the loop of [cpu_exec_loop_mt] that does not return. *)
Definition iter_step (x y : ExecState (C := C) * option Z) : Prop :=
  exec_iter x.1 x.2 = Some (y.1, Continue y.2).

(** Generated code exits with a code, from a block of the store, whenever the loop runs it. *)
Definition run_ok (e0 : ExecState (C := C)) : Prop :=
  ∀ e hint, rtc iter_step (e0, None) (e, hint) → exit_ok e hint.

Lemma iter_step_inv e regs hint e' hint' :
  codegen_ok → gen_code_ok → exec_inv e regs → hint_ok e hint → exit_ok e hint →
  iter_step (e, hint) (e', hint') → TbStore.len (store e) + 2 ≤ TbStore.MAX_TBS →
  ∃ regs', exec_inv e' regs' ∧ hint_ok e' hint' ∧ TbStore.len (store e) ≤ TbStore.len (store e').
Proof.
  intros Hcg Hgc Hi Hh Hx Hs Hl. pose proof (exec_iter_spec Hcg Hgc e regs hint Hi Hh Hx Hl) as He.
  unfold iter_step in Hs. cbn [fst snd] in Hs. rewrite Hs in He. destruct He as (regs' & ? & ? & Hc).
  exists regs'. split; [done|]. split; [by apply Hc|]. lia.
Qed.

(** What a state of the loop promises: consistent; every jump of a valid block leads to valid code;
    the block the turn chooses is valid and is the code of the guest state it runs on; and the
    turn, if it panics, does so in the translator. *)
Definition safe_turn (e : ExecState (C := C)) (hint : option Z) : Prop :=
  (∃ regs, exec_inv e regs) ∧ jumps_ok (store e) (code_buf (shared e)) ∧
  (∀ e1 idx, choose regalloc_and_codegen e hint = Some (e1, Some idx) →
     current e1 idx (get_pc (cpu e1)) (get_flags (cpu e1))) ∧
  (exec_iter e hint = None → turn_stuck e hint).

Lemma safe_turn_inv e regs hint :
  codegen_ok → gen_code_ok → exec_inv e regs → hint_ok e hint → exit_ok e hint →
  TbStore.len (store e) + 2 ≤ TbStore.MAX_TBS → safe_turn e hint.
Proof.
  intros Hcg Hgc Hi Hh Hx Hl. split_and!.
  - eauto.
  - apply chain_inv_jumps, Hi.
  - intros e1 idx He. pose proof (choose_spec Hcg Hgc e regs hint Hi Hh ltac:(lia)) as Hch.
    rewrite He in Hch. destruct Hch as (regs1 & _ & _ & _ & Hcur). by apply Hcur.
  - intros Hn. pose proof (exec_iter_spec Hcg Hgc e regs hint Hi Hh Hx Hl) as He. by rewrite Hn in He.
Qed.

(** The loop never takes a block out of the store. *)
Lemma insert_len s i s' : TbStore.insert s i = Some s' → TbStore.len s' = TbStore.len s.
Proof.
  intros Hs. apply bind_Some in Hs as (tb & _ & Hs). apply bind_Some in Hs as (s1 & Hm & Hs). injection Hs as <-.
  by apply modify_frame in Hm as [_ Hm].
Qed.

Lemma tb_gen_code_len e pc flags e' r :
  tb_gen_code e pc flags = Some (e', r) → TbStore.len (store e) ≤ TbStore.len (store e').
Proof.
  unfold Exec.tb_gen_code. destruct (_ <? _); [by intros [= <- _]|]. intros Ht.
  apply bind_Some in Ht as ([idx|] & _ & Ht); [by injection Ht as <- _|].
  apply bind_Some in Ht as ([s i] & Ha & Ht). apply bind_Some in Ht as ([[c ctx] gsz] & _ & Ht).
  apply bind_Some in Ht as (s1 & Hm1 & Ht). apply bind_Some in Ht as ([[[ctx' buf] offs] host] & _ & Ht).
  apply bind_Some in Ht as (s2 & Hm2 & Ht). apply bind_Some in Ht as (tb & _ & Ht).
  apply bind_Some in Ht as (tb' & _ & Ht). apply bind_Some in Ht as (s3 & Hm3 & Ht).
  apply bind_Some in Ht as (s4 & Hm4 & Ht). injection Ht as <- _.
  apply modify_frame in Hm1 as [_ Hm1], Hm2 as [_ Hm2], Hm3 as [_ Hm3]. apply insert_len in Hm4.
  unfold TbStore.alloc in Ha. destruct (_ <? _); [|done]. injection Ha as <- _.
  change (TbStore.len (store e) ≤ TbStore.len s4). rewrite Hm4, Hm3, Hm2, Hm1. unfold TbStore.len.
  cbn [TbStore.tbs]. rewrite zlen_app. pose proof (zlen_nonneg [TranslationBlock.new pc flags 0]). lia.
Qed.

Lemma tb_find_len e pc flags e' r :
  tb_find e pc flags = Some (e', r) → TbStore.len (store e) ≤ TbStore.len (store e').
Proof.
  assert (∀ o, (found ← o; match found with
      | Some idx => Some (count HtHit (cache_insert pc idx e), Some idx)
      | None => tb_gen_code (count Translate e) pc flags end) = Some (e', r) →
    TbStore.len (store e) ≤ TbStore.len (store e')) as Hslow.
  { intros o Ht. apply bind_Some in Ht as ([idx|] & _ & Ht); [by injection Ht as <- _|].
    by apply tb_gen_code_len in Ht. }
  unfold Exec.tb_find. destruct (JumpCache.lookup _ pc); [|apply Hslow].
  intros Ht. apply bind_Some in Ht as (tb & _ & Ht). destruct (TbStore.matches _ _ _); [by injection Ht as <- _|].
  by eapply Hslow.
Qed.

Lemma tb_add_jump_len (e e' : ExecState (C := C)) src slot dst : tb_add_jump e src slot dst = Some e' → TbStore.len (store e') = TbStore.len (store e).
Proof.
  intros Ha. apply bind_Some in Ha as (stb & _ & Ha). apply bind_Some in Ha as ([j|] & _ & Ha); [|by injection Ha as <-].
  apply bind_Some in Ha as (dtb & _ & Ha). destruct (TranslationBlock.invalid _); [by injection Ha as <-|].
  apply bind_Some in Ha as (cur & _ & Ha). case_bool_decide; [by injection Ha as <-|].
  apply bind_Some in Ha as (buf & _ & Ha). apply bind_Some in Ha as (s1 & Hm1 & Ha).
  apply bind_Some in Ha as (s2 & Hm2 & Ha). injection Ha as <-. apply modify_frame in Hm1 as [_ Hm1], Hm2 as [_ Hm2].
  change (TbStore.len s2 = TbStore.len (store e)). congruence.
Qed.

Lemma after_exec_len (e e' : ExecState (C := C)) i raw n :
  after_exec regalloc_and_codegen e i raw = Some (e', n) → TbStore.len (store e) ≤ TbStore.len (store e').
Proof.
  unfold after_exec. destruct (decode_tb_exit raw) as [last code].
  destruct (_ && _); [|destruct (_ =? _); [|by intros [= <- _]]]; intros Ha.
  - apply bind_Some in Ha as ([e1 r] & Hf & Ha). apply tb_find_len in Hf.
    change (store (count (ChainExit code) e)) with (store e) in Hf.
    destruct r as [dst|]; [|by injection Ha as <- _]. apply bind_Some in Ha as (e2 & Hj & Ha). injection Ha as <- _.
    apply tb_add_jump_len in Hj. lia.
  - apply bind_Some in Ha as (stb & _ & Ha). apply bind_Some in Ha as (hit & _ & Ha).
    destruct hit; [by injection Ha as <- _|]. apply bind_Some in Ha as ([e1 r] & Hf & Ha). apply tb_find_len in Hf.
    change (store (count NochainExit e)) with (store e) in Hf.
    destruct r as [dst|]; [|by injection Ha as <- _]. apply bind_Some in Ha as (s & Hm & Ha). injection Ha as <- _.
    apply modify_frame in Hm as [_ Hm]. change (TbStore.len (store e) ≤ TbStore.len s). lia.
Qed.

Lemma exec_iter_len e hint e' n :
  exec_iter e hint = Some (e', n) → TbStore.len (store e) ≤ TbStore.len (store e').
Proof.
  intros Hs. apply bind_Some in Hs as ([e1 r] & Hc & Hs).
  assert (TbStore.len (store e) ≤ TbStore.len (store e1)) as Hl1.
  { unfold choose in Hc. destruct hint; [by injection Hc as <- _|by apply tb_find_len in Hc]. }
  destruct r as [idx|]; [|by injection Hs as <- _]. apply bind_Some in Hs as ([e2 raw] & Hr & Hs).
  apply after_exec_len in Hs. apply bind_Some in Hr as (? & _ & Hr). apply bind_Some in Hr as (? & _ & Hr).
  destruct (run _ _ _). injection Hr as <- _. change (store (set_cpu _ e1)) with (store e1) in Hs. lia.
Qed.

(** Before the store fills up it had room, too. *)
Lemma iter_steps_inv e0 regs0 x :
  codegen_ok → gen_code_ok → run_ok e0 → exec_inv e0 regs0 → rtc iter_step (e0, None) x →
  TbStore.len (store x.1) + 2 ≤ TbStore.MAX_TBS → ∃ regs, exec_inv x.1 regs ∧ hint_ok x.1 x.2.
Proof.
  intros Hcg Hgc Hrun Hinv0. revert x. apply (rtc_ind_r (λ x, TbStore.len (store x.1) + 2 ≤ TbStore.MAX_TBS → _)).
  { intros _. exists regs0. split; [done|]. by intros ? [=]. }
  intros [e hint] [e' hint'] Hs0 Hs IH.
  cbn [fst snd] in *. intros Hlen.
  destruct (decide (TbStore.len (store e) + 2 ≤ TbStore.MAX_TBS)) as [Hl|Hl].
  - destruct (IH Hl) as (regs & Hi & Hh).
    destruct (iter_step_inv e regs hint e' hint') as (regs' & ? & ? & _); try done; [by apply Hrun|eauto].
  - exfalso. apply exec_iter_len in Hs. cbn [fst] in Hs. lia.
Qed.

(** C8. The execution loop is safe: from a consistent state, after any number of
    turns, as long as the store has room for the blocks of one more, the state is consistent, every jump of a
    valid block leads to valid code, the block the next turn chooses is valid and is
    the code of the guest state it runs on, whether it came from a hint, the
    caches or the translator, and the only panic of the turn is one of the translator. *)
Theorem exec_loop_safe e0 regs0 e hint :
  codegen_ok → gen_code_ok → run_ok e0 → exec_inv e0 regs0 →
  rtc iter_step (e0, None) (e, hint) → TbStore.len (store e) + 2 ≤ TbStore.MAX_TBS →
  safe_turn e hint.
Proof.
  intros Hcg Hgc Hrun Hinv Hs Hlen. destruct (iter_steps_inv e0 regs0 (e, hint)) as (regs & Hi & Hh); [done..|].
  apply (safe_turn_inv e regs); [done..|by apply Hrun|done].
Qed.
End proofs.

(** ** A concrete engine *)

(** A guest whose state is its program counter; every block is one patchable jump,
    and running it moves between two addresses and leaves by slot 0. *)
#[local] Instance toy_cpu : GuestCpu Z := {
  get_pc c := c;
  get_flags _ := 0;
  gen_code c ctx pc n := Some (c, ctx, 4)
}.

Definition toy_codegen (ctx : Context) (buf : CodeBuffer) :
    option (Context * CodeBuffer * list (Z * Z)) :=
  '(b, jr) ← emit_goto_tb buf; Some (ctx, b, [jr]).

Definition toy_run (c : Z) (buf : CodeBuffer) (off : Z) : Z * Z :=
  (if c =? 0x1000 then 0x2000 else 0x1000, 0).

Definition toy_start : ExecState (C := Z) :=
  mkExec (mkShared TbStore.new (mkBuffer (replicate (Z.to_nat 8192) 0) 0) context_new)
    (mkPerCpu JumpCache.new stats_default) 0x1000.

Lemma toy_codegen_ok : codegen_ok toy_codegen.
Proof.
  intros ctx buf ctx' buf' offs Hc _ Hwf Hcap. unfold toy_codegen in Hc.
  pose proof (emit_goto_tb_spec buf Hwf) as He. pose proof (pad_bytes_spec (offset buf)) as (_ & Hp & _).
  pose proof (wb_offset _ Hwf) as Ho.
  case_decide as Hroom; [|by rewrite He in Hc].
  destruct He as (b' & He & Hwf' & Hcb & Ho' & _ & Hf & Ht). rewrite He in Hc.
  cbn [mbind option_bind] in Hc. injection Hc as _ <- <-.
  assert (∀ i j r, [(offset b' - 5, offset b')].[i] = Some (j, r) → i = 0 ∧ j = offset b' - 5 ∧ r = offset b')
    as Hone.
  { intros i j r Hi. pose proof (zlookup_lt_Some _ _ _ Hi) as Hr.
    change (zlen [(offset b' - 5, offset b')]) with 1 in Hr. assert (i = 0) as -> by lia.
    rewrite zlookup_nat in Hi by lia. cbn in Hi. by injection Hi as <- <-. }
  split_and!; try done; [lia| |].
  - intros i j r (_ & -> & ->)%Hone. cbn [jump_size x86_jump_code]. split_and!; [lia..|done].
  - intros i j r i' j' r' Hne (-> & _)%Hone (-> & _)%Hone. done.
Qed.

Lemma toy_total e regs pc :
  exec_inv e regs → MIN_CODE_BUF_REMAINING ≤ remaining (code_buf (shared e)) →
  is_Some (generated toy_codegen e pc).
Proof.
  intros Hinv Hrem. unfold generated. cbn [gen_code toy_cpu mbind option_bind].
  set (ctx := set_tb_idx _ _). unfold translate.
  assert (optimize ctx = Some ctx) as -> by done. cbn [mbind option_bind].
  assert (liveness_analysis ctx = Some ctx) as -> by done. cbn [mbind option_bind].
  destruct (lo_buf _ _ (proj1 (xi_chain _ _ Hinv))) as [Hwf _].
  pose proof (emit_goto_tb_spec (code_buf (shared e)) Hwf) as He.
  pose proof (pad_bytes_spec (offset (code_buf (shared e)))) as (_ & Hp & _).
  unfold remaining, MIN_CODE_BUF_REMAINING in Hrem. rewrite decide_True in He by lia.
  destruct He as (b' & He & _). unfold toy_codegen. rewrite He. cbn [mbind option_bind]. eauto.
Qed.

Lemma toy_inv : exec_inv toy_start [].
Proof.
  apply exec_inv_empty; [|by vm_compute]. split; [vm_compute; split; discriminate|]. by apply Forall_replicate.
Qed.

Lemma toy_run_ok e0 : run_ok toy_codegen toy_run e0.
Proof.
  intros e hint _ e1 idx e2 raw _ Hr. apply bind_Some in Hr as (tb & _ & Hr).
  apply bind_Some in Hr as (ptr & _ & Hr). injection Hr as _ <-. change (decode_tb_exit 0) with (@None Z, 0).
  split; [done|]. by intros i [=].
Qed.

Lemma toy_gen_ok : gen_code_ok (C := Z).
Proof.
  intros c ctx pc n c' ctx' size Hg. by injection Hg as <- <- _.
Qed.

(** Two turns: the first translates both blocks and chains them, the second chains
    the second block back. *)
Definition after_iter (o : option (ExecState (C := Z) * next)) : option (option Z * Z) :=
  match o with Some (e, Continue h) => Some (h, TbStore.len (store e)) | _ => None end.

Lemma toy_steps :
  ∃ e, rtc (iter_step toy_codegen toy_run) (toy_start, None) (e, Some 0) ∧ TbStore.len (store e) = 2.
Proof.
  destruct (exec_iter toy_codegen toy_run toy_start None) as [[e1 n1]|] eqn:He1; [|by vm_compute in He1].
  assert (after_iter (exec_iter toy_codegen toy_run toy_start None) = Some (Some 1, 2)) as Hn1 by (by vm_compute).
  assert (after_iter ('(e, _) ← exec_iter toy_codegen toy_run toy_start None;
      exec_iter toy_codegen toy_run e (Some 1)) = Some (Some 0, 2)) as Hn2 by (by vm_compute).
  rewrite He1 in Hn1, Hn2. cbn [mbind option_bind] in Hn2.
  destruct n1 as [h1|]; [|done]. apply (inj Some), pair_equal_spec in Hn1 as [-> _].
  destruct (exec_iter toy_codegen toy_run e1 (Some 1)) as [[e2 [h2|]]|] eqn:He2; [|done..].
  apply (inj Some), pair_equal_spec in Hn2 as [-> Hl].
  exists e2. split; [|done]. apply (rtc_l _ _ (e1, Some 1)); [exact He1|].
  apply (rtc_l _ _ (e2, Some 0)); [exact He2|]. apply rtc_refl.
Qed.

Lemma exec_loop_safe_witness :
  ∃ e, rtc (iter_step toy_codegen toy_run) (toy_start, None) (e, Some 0) ∧
    jumps_ok (store e) (code_buf (shared e)) ∧
    (exec_iter toy_codegen toy_run e (Some 0) = None → turn_stuck toy_codegen toy_run e (Some 0)).
Proof.
  destruct toy_steps as [e [Hs Hl]]. exists e.
  destruct (exec_loop_safe toy_codegen toy_run toy_start [] e (Some 0) toy_codegen_ok toy_gen_ok
    (toy_run_ok _) toy_inv Hs ltac:(rewrite Hl; discriminate)) as (_ & Hj & _ & Hn).
  split; [exact Hs|]. split; [exact Hj|exact Hn].
Defined.

Lemma tb_find_correct_witness :
  ∃ e, tb_find toy_codegen toy_start 0x1000 0 = Some (e, Some 0) ∧ current e 0 0x1000 0.
Proof.
  pose proof (tb_find_correct toy_codegen toy_start [] 0x1000 0 toy_codegen_ok toy_gen_ok toy_inv) as Ht.
  change (spec_lookup (store toy_start) [] 0x1000 0) with (@None Z) in Ht. cbv iota in Ht.
  destruct Ht as [_ Ht]. rewrite decide_False in Ht by (by vm_compute).
  destruct (toy_total toy_start [] 0x1000 toy_inv ltac:(by vm_compute))
    as [[[[[[c ctx] gsz] buf] offs] host] Hg].
  rewrite Hg in Ht. rewrite decide_True in Ht by (by vm_compute).
  destruct Ht as (e & Hf & (_ & _ & _ & Hc) & _). exists e. split; [exact Hf|exact Hc].
Defined.
