(* ===== verification/X86Regs.v ===== *)
(** * x86-64 registers and frame layout (backend/src/x86_64/regs.rs)

    [Reg] with its encoding, the reserved and allocatable sets, the System V
    conventions and the constants of the stack frame. *)

From S2P Require Import Prelude Types.

Module Reg.
Inductive t :=
| Rax | Rcx | Rdx | Rbx | Rsp | Rbp | Rsi | Rdi | R8 | R9 | R10 | R11 | R12 | R13 | R14 | R15.

#[global] Instance t_eq_dec : EqDecision t.
Proof. solve_decision. Defined.

(** [reg as u8] *)
Definition discr (r : t) : Z :=
  match r with
  | Rax => 0 | Rcx => 1 | Rdx => 2 | Rbx => 3 | Rsp => 4 | Rbp => 5 | Rsi => 6 | Rdi => 7
  | R8 => 8 | R9 => 9 | R10 => 10 | R11 => 11 | R12 => 12 | R13 => 13 | R14 => 14 | R15 => 15
  end.

Definition all : list t :=
  [Rax; Rcx; Rdx; Rbx; Rsp; Rbp; Rsi; Rdi; R8; R9; R10; R11; R12; R13; R14; R15].

Definition low3 (r : t) : Z := Z.land (discr r) 0x7.
Definition needs_rex (r : t) : bool := 8 <=? discr r.
Definition from_u8 (val : Z) : option t := all.[val].
End Reg.

Definition TCG_AREG0 : Reg.t := Reg.Rbp.
Definition TCG_GUEST_BASE_REG : Reg.t := Reg.R14.

Definition CALLEE_SAVED : list Reg.t := [Reg.Rbp; Reg.Rbx; Reg.R12; Reg.R13; Reg.R14; Reg.R15].
Definition CALL_ARG_REGS : list Reg.t := [Reg.Rdi; Reg.Rsi; Reg.Rdx; Reg.Rcx; Reg.R8; Reg.R9].

Definition RESERVED_REGS : RegSet.t :=
  RegSet.from_raw (Z.lor (Z.lor (Z.shiftl 1 (Reg.discr Reg.Rsp)) (Z.shiftl 1 (Reg.discr Reg.Rbp)))
                    (Z.shiftl 1 (Reg.discr Reg.R14))).

Definition STACK_ALIGN : Z := 16.
Definition STATIC_CALL_ARGS_SIZE : Z := 128.
Definition CPU_TEMP_BUF_NLONGS : Z := 128.
Definition PUSH_SIZE : Z := (1 + zlen CALLEE_SAVED) * 8.

Definition FRAME_SIZE : Z :=
  let raw := PUSH_SIZE + STATIC_CALL_ARGS_SIZE + CPU_TEMP_BUF_NLONGS * 8 in
  Z.land (raw + STACK_ALIGN - 1) (Z.lnot (STACK_ALIGN - 1)).

Definition STACK_ADDEND : Z := FRAME_SIZE - PUSH_SIZE.

Definition ALLOCATABLE_REGS : RegSet.t :=
  RegSet.from_raw (Z.land 0xFFFF (Z.lnot (Z.lor (Z.lor (Z.shiftl 1 (Reg.discr Reg.Rsp))
    (Z.shiftl 1 (Reg.discr Reg.Rbp))) (Z.shiftl 1 (Reg.discr Reg.R14))))).

Lemma reg_from_discr r : Reg.from_u8 (Reg.discr r) = Some r.
Proof. by destruct r. Qed.

Lemma reg_discr_range r : 0 ≤ Reg.discr r < 16.
Proof. destruct r; simpl; lia. Qed.

Lemma reg_from_Some v r : Reg.from_u8 v = Some r → Reg.discr r = v.
Proof.
  intros H. pose proof (zlookup_lt_Some _ _ _ H) as Hv. change (zlen Reg.all) with 16 in Hv.
  assert (v ∈ seqZ 0 16) as Hin by (apply elem_of_seqZ; lia).
  assert (Forall (λ v, Reg.discr <$> Reg.from_u8 v = Some v) (seqZ 0 16)) as Hall
    by (apply (bool_decide_unpack _); by vm_compute).
  rewrite Forall_forall in Hall. specialize (Hall v Hin). rewrite H in Hall. by injection Hall.
Qed.

#[global] Instance reg_discr_inj : Inj (=) (=) Reg.discr.
Proof. intros r1 r2 H. apply (f_equal Reg.from_u8) in H. rewrite !reg_from_discr in H. congruence. Qed.
