(* ===== verification/Constraint.v ===== *)
(** * Register constraints of the IR ops
      (backend/src/constraint.rs, backend/src/x86_64/constraints.rs)

    [ArgConstraint] and [OpConstraint] with their builders, and the x86-64 table. *)

From S2P Require Import Prelude Types Opcodes Ir X86Regs.

Module ArgConstraint.
Record t := mk {
  regs : RegSet.t;
  oalias : bool;
  ialias : bool;
  alias_index : Z;
  newreg : bool
}.

Definition UNUSED : t := mk RegSet.EMPTY false false 0 false.
End ArgConstraint.

(** [OpConstraint { args }]: ten arguments, the given ones first. *)
Module OpConstraint.
Record t := mk { args : list ArgConstraint.t }.

Definition EMPTY : t := mk (replicate (Z.to_nat MAX_OP_ARGS) ArgConstraint.UNUSED).

Definition of_args (l : list ArgConstraint.t) : t :=
  mk (l ++ replicate (Z.to_nat MAX_OP_ARGS - length l) ArgConstraint.UNUSED).
End OpConstraint.

(** ** Builders *)

Definition r (regs : RegSet.t) : ArgConstraint.t := ArgConstraint.mk regs false false 0 false.

(** [1u64 << reg] *)
Definition fixed (reg : Z) : ArgConstraint.t :=
  ArgConstraint.mk (RegSet.from_raw (u64 (Z.shiftl 1 reg))) false false 0 false.

Definition newreg (regs : RegSet.t) : ArgConstraint.t := ArgConstraint.mk regs false false 0 true.

Definition oalias_to (regs : RegSet.t) (i : Z) : ArgConstraint.t :=
  ArgConstraint.mk regs true false i false.
Definition ialias_to (regs : RegSet.t) (i : Z) : ArgConstraint.t :=
  ArgConstraint.mk regs false true i false.

Definition o1_i1_alias (o0 i0 : RegSet.t) : OpConstraint.t :=
  OpConstraint.of_args [oalias_to o0 0; ialias_to o0 0].

Definition o1_i1 (o0 i0 : RegSet.t) : OpConstraint.t := OpConstraint.of_args [r o0; r i0].

Definition o1_i2 (o0 i0 i1 : RegSet.t) : OpConstraint.t := OpConstraint.of_args [r o0; r i0; r i1].

Definition o1_i2_alias (o0 i0 i1 : RegSet.t) : OpConstraint.t :=
  OpConstraint.of_args [oalias_to o0 0; ialias_to o0 0; r i1].

Definition o1_i2_alias_fixed (o0 i0 : RegSet.t) (i1_reg : Z) : OpConstraint.t :=
  OpConstraint.of_args [oalias_to o0 0; ialias_to o0 0; fixed i1_reg].

Definition o0_i2 (i0 i1 : RegSet.t) : OpConstraint.t := OpConstraint.of_args [r i0; r i1].

Definition n1_i2 (o0 i0 i1 : RegSet.t) : OpConstraint.t :=
  OpConstraint.of_args [newreg o0; r i0; r i1].

Definition o0_i1 (i0 : RegSet.t) : OpConstraint.t := OpConstraint.of_args [r i0].

Definition o2_i2_fixed (o0_reg o1_reg : Z) (i1 : RegSet.t) : OpConstraint.t :=
  let o0 := RegSet.from_raw (u64 (Z.shiftl 1 o0_reg)) in
  OpConstraint.of_args [oalias_to o0 0; fixed o1_reg; ialias_to o0 0; r i1].

Definition o2_i3_fixed (o0_reg o1_reg : Z) (i2 : RegSet.t) : OpConstraint.t :=
  let o0 := RegSet.from_raw (u64 (Z.shiftl 1 o0_reg)) in
  let o1 := RegSet.from_raw (u64 (Z.shiftl 1 o1_reg)) in
  OpConstraint.of_args [oalias_to o0 0; oalias_to o1 1; ialias_to o0 0; ialias_to o1 1; r i2].

Definition o1_i4_alias2 (o0 i0 i1 i2 i3 : RegSet.t) : OpConstraint.t :=
  OpConstraint.of_args [oalias_to o0 2; r i0; r i1; ialias_to o0 0; r i3].

(** ** The x86-64 table *)

Module X86.
Definition R : RegSet.t := ALLOCATABLE_REGS.
Definition R_NO_RCX : RegSet.t :=
  RegSet.from_raw (Z.land (RegSet.raw ALLOCATABLE_REGS)
    (RegSet.not64 (Z.shiftl 1 (Reg.discr Reg.Rcx)))).
Definition R_NO_RAX_RDX : RegSet.t :=
  RegSet.from_raw (Z.land (RegSet.raw ALLOCATABLE_REGS)
    (RegSet.not64 (Z.lor (Z.shiftl 1 (Reg.discr Reg.Rax)) (Z.shiftl 1 (Reg.discr Reg.Rdx))))).

Definition op_constraint (opc : Opcode.t) : OpConstraint.t :=
  match opc with
  | Opcode.Add => o1_i2 R R R
  | Opcode.Sub | Opcode.Mul | Opcode.And | Opcode.Or | Opcode.Xor => o1_i2_alias R R R
  | Opcode.Neg | Opcode.Not => o1_i1_alias R R
  | Opcode.Shl | Opcode.Shr | Opcode.Sar | Opcode.RotL | Opcode.RotR =>
      o1_i2_alias_fixed R_NO_RCX R_NO_RCX (Reg.discr Reg.Rcx)
  | Opcode.SetCond => n1_i2 R R R
  | Opcode.NegSetCond => n1_i2 R R R
  | Opcode.MovCond => o1_i4_alias2 R R R R R
  | Opcode.BrCond => o0_i2 R R
  | Opcode.MulS2 | Opcode.MulU2 =>
      o2_i2_fixed (Reg.discr Reg.Rax) (Reg.discr Reg.Rdx) R_NO_RAX_RDX
  | Opcode.DivS2 | Opcode.DivU2 =>
      o2_i3_fixed (Reg.discr Reg.Rax) (Reg.discr Reg.Rdx) R_NO_RAX_RDX
  | Opcode.AddCO | Opcode.AddCI | Opcode.AddCIO | Opcode.AddC1O
  | Opcode.SubBO | Opcode.SubBI | Opcode.SubBIO | Opcode.SubB1O => o1_i2_alias R R R
  | Opcode.AndC => o1_i2 R R R
  | Opcode.Extract | Opcode.SExtract => o1_i1 R R
  | Opcode.Deposit => o1_i2_alias R R R
  | Opcode.Extract2 => o1_i2_alias R R R
  | Opcode.Bswap16 | Opcode.Bswap32 | Opcode.Bswap64 => o1_i1_alias R R
  | Opcode.Clz | Opcode.Ctz => n1_i2 R R R
  | Opcode.CtPop => o1_i1 R R
  | Opcode.ExtrhI64I32 => o1_i1_alias R R
  | Opcode.GotoPtr => o0_i1 R
  | Opcode.Ld | Opcode.Ld8U | Opcode.Ld8S | Opcode.Ld16U | Opcode.Ld16S | Opcode.Ld32U
  | Opcode.Ld32S => o1_i1 R R
  | Opcode.St | Opcode.St8 | Opcode.St16 | Opcode.St32 => o0_i2 R R
  | Opcode.ExtI32I64 | Opcode.ExtUI32I64 | Opcode.ExtrlI64I32 => o1_i1 R R
  | Opcode.QemuLd => o1_i1 R R
  | Opcode.QemuSt => o0_i2 R R
  | Opcode.Call =>
      OpConstraint.mk (map (λ r, fixed (Reg.discr r)) [Reg.Rax; Reg.Rdi; Reg.Rsi; Reg.Rdx; Reg.Rcx; Reg.R8; Reg.R9]
        ++ replicate 3 ArgConstraint.UNUSED)
  | _ => OpConstraint.EMPTY
  end.
End X86.
