(* ===== verification/X86Emit.v ===== *)
(** * The x86-64 instruction emitters (backend/src/x86_64/emitter.rs)

    One definition per function of the file, on the code buffer of CodeBuffer.v;
    [None] is a failed assertion (buffer full, displacement out of range).  The
    patchable jumps ([emit_jmp], [emit_nops], [emit_goto_tb]) are in CodeBuffer.v. *)

From S2P Require Import Prelude Types CodeBuffer X86Regs.

(** ** Prefix flags and opcodes *)

Definition P_EXT : Z := 0x100.
Definition P_EXT38 : Z := 0x200.
Definition P_DATA16 : Z := 0x400.
Definition P_REXW : Z := 0x1000.
Definition P_REXB_R : Z := 0x2000.
Definition P_REXB_RM : Z := 0x4000.
Definition P_EXT3A : Z := 0x10000.
Definition P_SIMDF3 : Z := 0x20000.
Definition P_SIMDF2 : Z := 0x40000.

Definition OPC_ARITH_EvIb : Z := 0x83.
Definition OPC_ARITH_EvIz : Z := 0x81.
Definition OPC_ARITH_GvEv : Z := 0x03.
Definition OPC_ARITH_EvGv : Z := 0x01.
Definition OPC_SHIFT_1 : Z := 0xD1.
Definition OPC_SHIFT_Ib : Z := 0xC1.
Definition OPC_SHIFT_cl : Z := 0xD3.
Definition OPC_MOVB_EvGv : Z := 0x88.
Definition OPC_MOVL_EvGv : Z := 0x89.
Definition OPC_MOVL_GvEv : Z := 0x8B.
Definition OPC_MOVB_EvIz : Z := 0xC6.
Definition OPC_MOVL_EvIz : Z := 0xC7.
Definition OPC_MOVL_Iv : Z := 0xB8.
Definition OPC_MOVZBL : Z := Z.lor 0xB6 P_EXT.
Definition OPC_MOVZWL : Z := Z.lor 0xB7 P_EXT.
Definition OPC_MOVSBL : Z := Z.lor 0xBE P_EXT.
Definition OPC_MOVSWL : Z := Z.lor 0xBF P_EXT.
Definition OPC_MOVSLQ : Z := Z.lor 0x63 P_REXW.
Definition OPC_JCC_long : Z := Z.lor 0x80 P_EXT.
Definition OPC_JMP_short : Z := 0xEB.
Definition OPC_JMP_long : Z := 0xE9.
Definition OPC_CALL_Jz : Z := 0xE8.
Definition OPC_BSF : Z := Z.lor 0xBC P_EXT.
Definition OPC_BSR : Z := Z.lor 0xBD P_EXT.
Definition OPC_LZCNT : Z := Z.lor (Z.lor 0xBD P_EXT) P_SIMDF3.
Definition OPC_TZCNT : Z := Z.lor (Z.lor 0xBC P_EXT) P_SIMDF3.
Definition OPC_POPCNT : Z := Z.lor (Z.lor 0xB8 P_EXT) P_SIMDF3.
Definition OPC_BSWAP : Z := Z.lor 0xC8 P_EXT.
Definition OPC_ANDN : Z := Z.lor 0xF2 P_EXT38.
Definition OPC_CMOVCC : Z := Z.lor 0x40 P_EXT.
Definition OPC_SETCC : Z := Z.lor (Z.lor 0x90 P_EXT) P_REXB_RM.
Definition OPC_TESTB : Z := 0x84.
Definition OPC_TESTL : Z := 0x85.
Definition OPC_GRP3_Ev : Z := 0xF7.
Definition OPC_GRP3_Eb : Z := 0xF6.
Definition OPC_GRP5 : Z := 0xFF.
Definition OPC_GRPBT : Z := Z.lor 0xBA P_EXT.
Definition OPC_IMUL_GvEv : Z := Z.lor 0xAF P_EXT.
Definition OPC_IMUL_GvEvIb : Z := 0x6B.
Definition OPC_IMUL_GvEvIz : Z := 0x69.
Definition OPC_LEA : Z := 0x8D.
Definition OPC_XCHG_ax_r32 : Z := 0x90.
Definition OPC_XCHG_EvGv : Z := 0x87.
Definition OPC_PUSH_r32 : Z := 0x50.
Definition OPC_POP_r32 : Z := 0x58.
Definition OPC_RET : Z := 0xC3.
Definition OPC_UD2 : Z := Z.lor 0x0B P_EXT.
Definition OPC_PUSH_Iz : Z := 0x68.
Definition OPC_PUSH_Ib : Z := 0x6A.
Definition OPC_SHLD_Ib : Z := Z.lor 0xA4 P_EXT.
Definition OPC_SHRD_Ib : Z := Z.lor 0xAC P_EXT.

(** ** Sub-operations *)

Module ArithOp.
Inductive t := Add | Or | Adc | Sbb | And | Sub | Xor | Cmp.
Definition discr (o : t) : Z :=
  match o with Add => 0 | Or => 1 | Adc => 2 | Sbb => 3 | And => 4 | Sub => 5 | Xor => 6 | Cmp => 7 end.
End ArithOp.

Module ShiftOp.
Inductive t := Rol | Ror | Shl | Shr | Sar.
Definition discr (o : t) : Z := match o with Rol => 0 | Ror => 1 | Shl => 4 | Shr => 5 | Sar => 7 end.
End ShiftOp.

Module Ext3Op.
Inductive t := Not | Neg | Mul | Imul | Div | Idiv.
Definition discr (o : t) : Z :=
  match o with Not => 2 | Neg => 3 | Mul => 4 | Imul => 5 | Div => 6 | Idiv => 7 end.
End Ext3Op.

Module Ext5Op.
Inductive t := IncEv | DecEv | CallN | JmpN.
Definition discr (o : t) : Z := match o with IncEv => 0 | DecEv => 1 | CallN => 2 | JmpN => 4 end.
End Ext5Op.

Module GrpBtOp.
Inductive t := Bt | Bts | Btr | Btc.
Definition discr (o : t) : Z := match o with Bt => 4 | Bts => 5 | Btr => 6 | Btc => 7 end.
End GrpBtOp.

Module X86Cond.
Inductive t := Jo | Jno | Jb | Jae | Je | Jne | Jbe | Ja | Js | Jns | Jp | Jnp | Jl | Jge | Jle | Jg.

Definition discr (c : t) : Z :=
  match c with
  | Jo => 0x0 | Jno => 0x1 | Jb => 0x2 | Jae => 0x3 | Je => 0x4 | Jne => 0x5 | Jbe => 0x6 | Ja => 0x7
  | Js => 0x8 | Jns => 0x9 | Jp => 0xA | Jnp => 0xB | Jl => 0xC | Jge => 0xD | Jle => 0xE | Jg => 0xF
  end.

Definition all : list t :=
  [Jo; Jno; Jb; Jae; Je; Jne; Jbe; Ja; Js; Jns; Jp; Jnp; Jl; Jge; Jle; Jg].

Definition from_tcg (cond : Cond.t) : t :=
  match cond with
  | Cond.Eq | Cond.TstEq => Je
  | Cond.Ne | Cond.TstNe => Jne
  | Cond.Lt => Jl
  | Cond.Ge => Jge
  | Cond.Le => Jle
  | Cond.Gt => Jg
  | Cond.Ltu => Jb
  | Cond.Geu => Jae
  | Cond.Leu => Jbe
  | Cond.Gtu => Ja
  | Cond.Always => Je
  | Cond.Never => Jne
  end.

(** The [transmute] of [self as u8 ^ 1], which is always a discriminant. *)
Definition invert (self : t) : t := default self (all.[Z.lxor (discr self) 1]).
End X86Cond.

(** ** Core encoding functions *)

Definition has (opc flags : Z) : bool := negb (Z.land opc flags =? 0).
Definition rexw_flag (rexw : bool) : Z := if rexw then P_REXW else 0.

(** [(-128..=127).contains(&x)] *)
Definition imm8 (x : Z) : bool := (-128 <=? x) && (x <=? 127).

Definition emit_when (c : bool) (b : CodeBuffer) (v : Z) : option CodeBuffer :=
  if c then emit_u8 b v else Some b.

(** What [emit_opc] and [emit_opc_3] do once the REX byte is known. *)
Definition emit_prefixes (b : CodeBuffer) (opc rex : Z) : option CodeBuffer :=
  b ← emit_when (has opc P_DATA16) b 0x66;
  b ← (if has opc P_SIMDF3 then emit_u8 b 0xF3
       else if has opc P_SIMDF2 then emit_u8 b 0xF2 else Some b);
  b ← emit_when (negb (rex =? 0)) b (Z.lor 0x40 rex);
  b ← (if has opc (Z.lor (Z.lor P_EXT P_EXT38) P_EXT3A) then
         b ← emit_u8 b 0x0F;
         if has opc P_EXT38 then emit_u8 b 0x38
         else if has opc P_EXT3A then emit_u8 b 0x3A else Some b
       else Some b);
  emit_u8 b (u8 opc).

(** The REX byte forced for the byte registers SPL, BPL, SIL and DIL. *)
Definition force_rex (opc r rm rex : Z) : Z :=
  let rex := if has opc P_REXB_R && (4 <=? r) && (rex =? 0) then 0x40 else rex in
  if has opc P_REXB_RM && (4 <=? rm) && (rex =? 0) then 0x40 else rex.

Definition emit_opc (b : CodeBuffer) (opc r rm : Z) : option CodeBuffer :=
  let rex := if has opc P_REXW then 0x08 else 0 in
  let rex := if 8 <=? r then Z.lor rex 0x04 else rex in
  let rex := if 8 <=? rm then Z.lor rex 0x01 else rex in
  emit_prefixes b opc (force_rex opc r rm rex).

Definition emit_opc_3 (b : CodeBuffer) (opc r rm index : Z) : option CodeBuffer :=
  let rex := if has opc P_REXW then 0x08 else 0 in
  let rex := if 8 <=? r then Z.lor rex 0x04 else rex in
  let rex := if 8 <=? index then Z.lor rex 0x02 else rex in
  let rex := if 8 <=? rm then Z.lor rex 0x01 else rex in
  emit_prefixes b opc (force_rex opc r rm rex).

Definition emit_modrm (b : CodeBuffer) (opc : Z) (r rm : Reg.t) : option CodeBuffer :=
  b ← emit_opc b opc (Reg.discr r) (Reg.discr rm);
  emit_u8 b (Z.lor (Z.lor 0xC0 (Z.shiftl (Reg.low3 r) 3)) (Reg.low3 rm)).

Definition emit_modrm_ext (b : CodeBuffer) (opc ext : Z) (rm : Reg.t) : option CodeBuffer :=
  b ← emit_opc b opc ext (Reg.discr rm);
  emit_u8 b (Z.lor (Z.lor 0xC0 (Z.shiftl ext 3)) (Reg.low3 rm)).

(** The ModR/M byte, SIB byte and displacement of [[base + offset]], for the value
    [r3] of the reg field. *)
Definition emit_mem_operand (b : CodeBuffer) (r3 b3 offset : Z) : option CodeBuffer :=
  if (offset =? 0) && negb (b3 =? 5) then
    if b3 =? 4 then
      b ← emit_u8 b (Z.lor (Z.shiftl r3 3) 0x04);
      emit_u8 b 0x24
    else emit_u8 b (Z.lor (Z.shiftl r3 3) b3)
  else if imm8 offset then
    b ← (if b3 =? 4 then
           b ← emit_u8 b (Z.lor 0x44 (Z.shiftl r3 3));
           emit_u8 b 0x24
         else emit_u8 b (Z.lor (Z.lor 0x40 (Z.shiftl r3 3)) b3));
    emit_u8 b (u8 offset)
  else
    b ← (if b3 =? 4 then
           b ← emit_u8 b (Z.lor 0x84 (Z.shiftl r3 3));
           emit_u8 b 0x24
         else emit_u8 b (Z.lor (Z.lor 0x80 (Z.shiftl r3 3)) b3));
    emit_u32 b (u32 offset).

Definition emit_modrm_offset (b : CodeBuffer) (opc : Z) (r base : Reg.t) (offset : Z) :
    option CodeBuffer :=
  b ← emit_opc b opc (Reg.discr r) (Reg.discr base);
  emit_mem_operand b (Reg.low3 r) (Reg.low3 base) offset.

Definition emit_modrm_ext_offset (b : CodeBuffer) (opc ext : Z) (base : Reg.t) (offset : Z) :
    option CodeBuffer :=
  b ← emit_opc b opc ext (Reg.discr base);
  emit_mem_operand b ext (Reg.low3 base) offset.

Definition emit_modrm_sib (b : CodeBuffer) (opc : Z) (r base index : Reg.t) (shift offset : Z) :
    option CodeBuffer :=
  assert! shift <=? 3;
  assert! negb (bool_decide (index = Reg.Rsp));
  b ← emit_opc_3 b opc (Reg.discr r) (Reg.discr base) (Reg.discr index);
  let r3 := Reg.low3 r in
  let b3 := Reg.low3 base in
  let x3 := Reg.low3 index in
  let sib := Z.lor (Z.lor (Z.shiftl shift 6) (Z.shiftl x3 3)) b3 in
  if (offset =? 0) && negb (b3 =? 5) then
    b ← emit_u8 b (Z.lor (Z.shiftl r3 3) 0x04);
    emit_u8 b sib
  else if imm8 offset then
    b ← emit_u8 b (Z.lor 0x44 (Z.shiftl r3 3));
    b ← emit_u8 b sib;
    emit_u8 b (u8 offset)
  else
    b ← emit_u8 b (Z.lor 0x84 (Z.shiftl r3 3));
    b ← emit_u8 b sib;
    emit_u32 b (u32 offset).

(** VEX prefix, opcode and ModR/M; [!(v as u8) & 0x0F] is [15 - v]. *)
Definition emit_vex_modrm (b : CodeBuffer) (opc : Z) (r v rm : Reg.t) : option CodeBuffer :=
  let r_bit := if Reg.needs_rex r then 0 else 0x80 in
  let x_bit := 0x40 in
  let b_bit := if Reg.needs_rex rm then 0 else 0x20 in
  let vvvv := Z.shiftl (Z.land (Z.lnot (Reg.discr v)) 0x0F) 3 in
  let w := if has opc P_REXW then 0x80 else 0 in
  let pp := if has opc P_DATA16 then 1 else if has opc P_SIMDF3 then 2
            else if has opc P_SIMDF2 then 3 else 0 in
  let mm := if has opc P_EXT38 then 2 else if has opc P_EXT3A then 3 else 1 in
  b ← (if (mm =? 1) && (w =? 0) && negb (b_bit =? 0) && negb (x_bit =? 0) then
         b ← emit_u8 b 0xC5;
         emit_u8 b (Z.lor (Z.lor r_bit vvvv) pp)
       else
         b ← emit_u8 b 0xC4;
         b ← emit_u8 b (Z.lor (Z.lor (Z.lor r_bit x_bit) b_bit) mm);
         emit_u8 b (Z.lor (Z.lor w vvvv) pp));
  b ← emit_u8 b (u8 opc);
  emit_u8 b (Z.lor (Z.lor 0xC0 (Z.shiftl (Reg.low3 r) 3)) (Reg.low3 rm)).

(** ** Arithmetic *)

Definition emit_arith_rr (b : CodeBuffer) (op : ArithOp.t) (rexw : bool) (dst src : Reg.t) :=
  emit_modrm b (Z.lor (OPC_ARITH_GvEv + Z.shiftl (ArithOp.discr op) 3) (rexw_flag rexw)) dst src.

Definition emit_arith_ri (b : CodeBuffer) (op : ArithOp.t) (rexw : bool) (dst : Reg.t) (imm : Z) :=
  let w := rexw_flag rexw in
  if imm8 imm then
    b ← emit_modrm_ext b (Z.lor OPC_ARITH_EvIb w) (ArithOp.discr op) dst;
    emit_u8 b (u8 imm)
  else
    b ← emit_modrm_ext b (Z.lor OPC_ARITH_EvIz w) (ArithOp.discr op) dst;
    emit_u32 b (u32 imm).

Definition emit_arith_mr (b : CodeBuffer) (op : ArithOp.t) (rexw : bool) (base : Reg.t) (offset : Z)
    (src : Reg.t) :=
  emit_modrm_offset b (Z.lor (OPC_ARITH_EvGv + Z.shiftl (ArithOp.discr op) 3) (rexw_flag rexw))
    src base offset.

Definition emit_arith_rm (b : CodeBuffer) (op : ArithOp.t) (rexw : bool) (dst base : Reg.t)
    (offset : Z) :=
  emit_modrm_offset b (Z.lor (OPC_ARITH_GvEv + Z.shiftl (ArithOp.discr op) 3) (rexw_flag rexw))
    dst base offset.

Definition emit_neg (b : CodeBuffer) (rexw : bool) (reg : Reg.t) :=
  emit_modrm_ext b (Z.lor OPC_GRP3_Ev (rexw_flag rexw)) (Ext3Op.discr Ext3Op.Neg) reg.

Definition emit_not (b : CodeBuffer) (rexw : bool) (reg : Reg.t) :=
  emit_modrm_ext b (Z.lor OPC_GRP3_Ev (rexw_flag rexw)) (Ext3Op.discr Ext3Op.Not) reg.

Definition emit_shift_ri (b : CodeBuffer) (op : ShiftOp.t) (rexw : bool) (dst : Reg.t) (imm : Z) :=
  let w := rexw_flag rexw in
  if imm =? 1 then emit_modrm_ext b (Z.lor OPC_SHIFT_1 w) (ShiftOp.discr op) dst
  else
    b ← emit_modrm_ext b (Z.lor OPC_SHIFT_Ib w) (ShiftOp.discr op) dst;
    emit_u8 b imm.

Definition emit_shift_cl (b : CodeBuffer) (op : ShiftOp.t) (rexw : bool) (dst : Reg.t) :=
  emit_modrm_ext b (Z.lor OPC_SHIFT_cl (rexw_flag rexw)) (ShiftOp.discr op) dst.

(** ** Data movement *)

Definition emit_mov_rr (b : CodeBuffer) (rexw : bool) (dst src : Reg.t) :=
  emit_modrm b (Z.lor OPC_MOVL_EvGv (rexw_flag rexw)) src dst.

Definition emit_mov_ri (b : CodeBuffer) (rexw : bool) (reg : Reg.t) (val : Z) :=
  if val =? 0 then emit_modrm b 0x31 reg reg
  else if negb rexw || (val <=? 2 ^ 32 - 1) then
    b ← emit_opc b (OPC_MOVL_Iv + Reg.low3 reg) 0 (Reg.discr reg);
    emit_u32 b (u32 val)
  else if (- 2 ^ 31 <=? i64 val) && (i64 val <=? 2 ^ 31 - 1) then
    b ← emit_modrm_ext b (Z.lor OPC_MOVL_EvIz P_REXW) 0 reg;
    emit_u32 b (u32 val)
  else
    b ← emit_opc b (Z.lor (OPC_MOVL_Iv + Reg.low3 reg) P_REXW) 0 (Reg.discr reg);
    emit_u64 b val.

Definition emit_movzx (b : CodeBuffer) (opc : Z) (dst src : Reg.t) := emit_modrm b opc dst src.
Definition emit_movsx (b : CodeBuffer) (opc : Z) (dst src : Reg.t) := emit_modrm b opc dst src.

Definition emit_bswap (b : CodeBuffer) (rexw : bool) (reg : Reg.t) :=
  emit_opc b (Z.lor (OPC_BSWAP + Reg.low3 reg) (rexw_flag rexw)) 0 (Reg.discr reg).

(** ** Memory operations *)

Definition emit_load (b : CodeBuffer) (rexw : bool) (dst base : Reg.t) (offset : Z) :=
  emit_modrm_offset b (Z.lor OPC_MOVL_GvEv (rexw_flag rexw)) dst base offset.

Definition emit_store (b : CodeBuffer) (rexw : bool) (src base : Reg.t) (offset : Z) :=
  emit_modrm_offset b (Z.lor OPC_MOVL_EvGv (rexw_flag rexw)) src base offset.

Definition emit_store_byte (b : CodeBuffer) (src base : Reg.t) (offset : Z) :=
  emit_modrm_offset b (Z.lor OPC_MOVB_EvGv P_REXB_R) src base offset.

Definition emit_store_word (b : CodeBuffer) (src base : Reg.t) (offset : Z) :=
  emit_modrm_offset b (Z.lor P_DATA16 OPC_MOVL_EvGv) src base offset.

Definition emit_store_imm (b : CodeBuffer) (rexw : bool) (base : Reg.t) (offset imm : Z) :=
  b ← emit_modrm_ext_offset b (Z.lor OPC_MOVL_EvIz (rexw_flag rexw)) 0 base offset;
  emit_u32 b (u32 imm).

Definition emit_lea (b : CodeBuffer) (rexw : bool) (dst base : Reg.t) (offset : Z) :=
  emit_modrm_offset b (Z.lor OPC_LEA (rexw_flag rexw)) dst base offset.

Definition emit_lea_sib (b : CodeBuffer) (rexw : bool) (dst base index : Reg.t) (shift offset : Z) :=
  emit_modrm_sib b (Z.lor OPC_LEA (rexw_flag rexw)) dst base index shift offset.

Definition emit_load_sib (b : CodeBuffer) (rexw : bool) (dst base index : Reg.t) (shift offset : Z) :=
  emit_modrm_sib b (Z.lor OPC_MOVL_GvEv (rexw_flag rexw)) dst base index shift offset.

Definition emit_store_sib (b : CodeBuffer) (rexw : bool) (src base index : Reg.t) (shift offset : Z) :=
  emit_modrm_sib b (Z.lor OPC_MOVL_EvGv (rexw_flag rexw)) src base index shift offset.

Definition emit_store_byte_sib (b : CodeBuffer) (src base index : Reg.t) :=
  emit_modrm_sib b (Z.lor OPC_MOVB_EvGv P_REXB_R) src base index 0 0.

Definition emit_store_word_sib (b : CodeBuffer) (src base index : Reg.t) :=
  emit_modrm_sib b (Z.lor P_DATA16 OPC_MOVL_EvGv) src base index 0 0.

Definition emit_load_zx_sib (b : CodeBuffer) (opc : Z) (dst base index : Reg.t) :=
  emit_modrm_sib b opc dst base index 0 0.
Definition emit_load_sx_sib (b : CodeBuffer) (opc : Z) (dst base index : Reg.t) :=
  emit_modrm_sib b opc dst base index 0 0.
Definition emit_load_zx (b : CodeBuffer) (opc : Z) (dst base : Reg.t) (offset : Z) :=
  emit_modrm_offset b opc dst base offset.
Definition emit_load_sx (b : CodeBuffer) (opc : Z) (dst base : Reg.t) (offset : Z) :=
  emit_modrm_offset b opc dst base offset.

(** ** Multiplication and division *)

Definition emit_mul (b : CodeBuffer) (rexw : bool) (reg : Reg.t) :=
  emit_modrm_ext b (Z.lor OPC_GRP3_Ev (rexw_flag rexw)) (Ext3Op.discr Ext3Op.Mul) reg.

Definition emit_imul1 (b : CodeBuffer) (rexw : bool) (reg : Reg.t) :=
  emit_modrm_ext b (Z.lor OPC_GRP3_Ev (rexw_flag rexw)) (Ext3Op.discr Ext3Op.Imul) reg.

Definition emit_imul_rr (b : CodeBuffer) (rexw : bool) (dst src : Reg.t) :=
  emit_modrm b (Z.lor OPC_IMUL_GvEv (rexw_flag rexw)) dst src.

Definition emit_imul_ri (b : CodeBuffer) (rexw : bool) (dst src : Reg.t) (imm : Z) :=
  let w := rexw_flag rexw in
  if imm8 imm then
    b ← emit_modrm b (Z.lor OPC_IMUL_GvEvIb w) dst src;
    emit_u8 b (u8 imm)
  else
    b ← emit_modrm b (Z.lor OPC_IMUL_GvEvIz w) dst src;
    emit_u32 b (u32 imm).

Definition emit_div (b : CodeBuffer) (rexw : bool) (reg : Reg.t) :=
  emit_modrm_ext b (Z.lor OPC_GRP3_Ev (rexw_flag rexw)) (Ext3Op.discr Ext3Op.Div) reg.

Definition emit_idiv (b : CodeBuffer) (rexw : bool) (reg : Reg.t) :=
  emit_modrm_ext b (Z.lor OPC_GRP3_Ev (rexw_flag rexw)) (Ext3Op.discr Ext3Op.Idiv) reg.

Definition emit_cdq (b : CodeBuffer) : option CodeBuffer := emit_u8 b 0x99.
Definition emit_cqo (b : CodeBuffer) : option CodeBuffer := b ← emit_u8 b 0x48; emit_u8 b 0x99.

(** ** Bit operations *)

Definition emit_bsf (b : CodeBuffer) (rexw : bool) (dst src : Reg.t) :=
  emit_modrm b (Z.lor OPC_BSF (rexw_flag rexw)) dst src.
Definition emit_bsr (b : CodeBuffer) (rexw : bool) (dst src : Reg.t) :=
  emit_modrm b (Z.lor OPC_BSR (rexw_flag rexw)) dst src.
Definition emit_lzcnt (b : CodeBuffer) (rexw : bool) (dst src : Reg.t) :=
  emit_modrm b (Z.lor OPC_LZCNT (rexw_flag rexw)) dst src.
Definition emit_tzcnt (b : CodeBuffer) (rexw : bool) (dst src : Reg.t) :=
  emit_modrm b (Z.lor OPC_TZCNT (rexw_flag rexw)) dst src.
Definition emit_popcnt (b : CodeBuffer) (rexw : bool) (dst src : Reg.t) :=
  emit_modrm b (Z.lor OPC_POPCNT (rexw_flag rexw)) dst src.

Definition emit_bt_ri (b : CodeBuffer) (rexw : bool) (reg : Reg.t) (bit : Z) :=
  b ← emit_modrm_ext b (Z.lor OPC_GRPBT (rexw_flag rexw)) (GrpBtOp.discr GrpBtOp.Bt) reg;
  emit_u8 b bit.
Definition emit_bts_ri (b : CodeBuffer) (rexw : bool) (reg : Reg.t) (bit : Z) :=
  b ← emit_modrm_ext b (Z.lor OPC_GRPBT (rexw_flag rexw)) (GrpBtOp.discr GrpBtOp.Bts) reg;
  emit_u8 b bit.
Definition emit_btr_ri (b : CodeBuffer) (rexw : bool) (reg : Reg.t) (bit : Z) :=
  b ← emit_modrm_ext b (Z.lor OPC_GRPBT (rexw_flag rexw)) (GrpBtOp.discr GrpBtOp.Btr) reg;
  emit_u8 b bit.
Definition emit_btc_ri (b : CodeBuffer) (rexw : bool) (reg : Reg.t) (bit : Z) :=
  b ← emit_modrm_ext b (Z.lor OPC_GRPBT (rexw_flag rexw)) (GrpBtOp.discr GrpBtOp.Btc) reg;
  emit_u8 b bit.

Definition emit_andn (b : CodeBuffer) (rexw : bool) (dst src1 src2 : Reg.t) :=
  emit_vex_modrm b (Z.lor OPC_ANDN (rexw_flag rexw)) dst src1 src2.

(** ** Branches and comparisons *)

Definition emit_jcc (b : CodeBuffer) (cond : X86Cond.t) (target_offset : Z) :=
  b ← emit_opc b (OPC_JCC_long + X86Cond.discr cond) 0 0;
  let after := offset b + 4 in
  let disp := target_offset - after in
  assert! i32_range disp;
  emit_u32 b (u32 disp).

Definition emit_call (b : CodeBuffer) (target_offset : Z) :=
  b ← emit_u8 b (u8 OPC_CALL_Jz);
  let after := offset b + 4 in
  let disp := target_offset - after in
  assert! i32_range disp;
  emit_u32 b (u32 disp).

Definition emit_jmp_reg (b : CodeBuffer) (reg : Reg.t) :=
  emit_modrm_ext b OPC_GRP5 (Ext5Op.discr Ext5Op.JmpN) reg.
Definition emit_call_reg (b : CodeBuffer) (reg : Reg.t) :=
  emit_modrm_ext b OPC_GRP5 (Ext5Op.discr Ext5Op.CallN) reg.
Definition emit_setcc (b : CodeBuffer) (cond : X86Cond.t) (dst : Reg.t) :=
  emit_modrm_ext b (OPC_SETCC + X86Cond.discr cond) 0 dst.
Definition emit_cmovcc (b : CodeBuffer) (cond : X86Cond.t) (rexw : bool) (dst src : Reg.t) :=
  emit_modrm b (Z.lor (OPC_CMOVCC + X86Cond.discr cond) (rexw_flag rexw)) dst src.
Definition emit_test_rr (b : CodeBuffer) (rexw : bool) (r1 r2 : Reg.t) :=
  emit_modrm b (Z.lor OPC_TESTL (rexw_flag rexw)) r1 r2.
Definition emit_test_bi (b : CodeBuffer) (reg : Reg.t) (imm : Z) :=
  b ← emit_modrm_ext b (Z.lor OPC_GRP3_Eb P_REXB_RM) 0 reg;
  emit_u8 b imm.

(** ** Miscellaneous *)

Definition emit_xchg (b : CodeBuffer) (rexw : bool) (r1 r2 : Reg.t) :=
  emit_modrm b (Z.lor OPC_XCHG_EvGv (rexw_flag rexw)) r1 r2.
Definition emit_push (b : CodeBuffer) (reg : Reg.t) :=
  emit_opc b (OPC_PUSH_r32 + Reg.low3 reg) 0 (Reg.discr reg).
Definition emit_pop (b : CodeBuffer) (reg : Reg.t) :=
  emit_opc b (OPC_POP_r32 + Reg.low3 reg) 0 (Reg.discr reg).

Definition emit_push_imm (b : CodeBuffer) (imm : Z) :=
  if imm8 imm then
    b ← emit_u8 b (u8 OPC_PUSH_Ib);
    emit_u8 b (u8 imm)
  else
    b ← emit_u8 b (u8 OPC_PUSH_Iz);
    emit_u32 b (u32 imm).

Definition emit_ret (b : CodeBuffer) : option CodeBuffer := emit_u8 b (u8 OPC_RET).

Definition emit_mfence (b : CodeBuffer) : option CodeBuffer :=
  b ← emit_u8 b 0x0F;
  b ← emit_u8 b 0xAE;
  emit_u8 b 0xF0.

Definition emit_ud2 (b : CodeBuffer) : option CodeBuffer := emit_opc b OPC_UD2 0 0.

Definition emit_inc (b : CodeBuffer) (rexw : bool) (reg : Reg.t) :=
  emit_modrm_ext b (Z.lor OPC_GRP5 (rexw_flag rexw)) (Ext5Op.discr Ext5Op.IncEv) reg.
Definition emit_dec (b : CodeBuffer) (rexw : bool) (reg : Reg.t) :=
  emit_modrm_ext b (Z.lor OPC_GRP5 (rexw_flag rexw)) (Ext5Op.discr Ext5Op.DecEv) reg.

Definition emit_shld_ri (b : CodeBuffer) (rexw : bool) (dst src : Reg.t) (imm : Z) :=
  b ← emit_modrm b (Z.lor OPC_SHLD_Ib (rexw_flag rexw)) src dst;
  emit_u8 b imm.
Definition emit_shrd_ri (b : CodeBuffer) (rexw : bool) (dst src : Reg.t) (imm : Z) :=
  b ← emit_modrm b (Z.lor OPC_SHRD_Ib (rexw_flag rexw)) src dst;
  emit_u8 b imm.

Definition emit_rolw_8 (b : CodeBuffer) (reg : Reg.t) :=
  b ← emit_modrm_ext b (Z.lor OPC_SHIFT_Ib P_DATA16) (ShiftOp.discr ShiftOp.Rol) reg;
  emit_u8 b 8.

Definition emit_stc (b : CodeBuffer) : option CodeBuffer := emit_u8 b 0xF9.

(** ** The code generator *)

(** [goto_tb_info] is the vector behind the mutex. *)
Module X86_64CodeGen.
Record t := mk {
  prologue_offset : Z;
  epilogue_return_zero_offset : Z;
  tb_ret_offset : Z;
  code_gen_start : Z;
  goto_tb_info : list (Z * Z)
}.

Definition new : t := mk 0 0 0 0 [].

Definition emit_exit_tb (self : t) (b : CodeBuffer) (val : Z) : option CodeBuffer :=
  if val =? 0 then emit_jmp b (epilogue_return_zero_offset self)
  else
    b ← emit_mov_ri b true Reg.Rax val;
    emit_jmp b (tb_ret_offset self).

Definition emit_goto_ptr (b : CodeBuffer) (reg : Reg.t) : option CodeBuffer := emit_jmp_reg b reg.
End X86_64CodeGen.
