(* ===== verification/HostCodeGen.v ===== *)
(** * The code generator interface (backend/src/lib.rs)

    The [HostCodeGen] trait as a class over the state [G] of the generator.  A
    [&self] method does not change [G], except [tcg_out_op] and
    [clear_goto_tb_offsets], which reach the recorded jumps behind a mutex.  Host
    registers are numbers; [None] is a panic.  [patch_jump] is in the class
    [JumpCode] of CodeBuffer.v. *)

From S2P Require Import Prelude Types Opcodes Ir CodeBuffer Constraint.

Class HostCodeGen (G : Type) := {
  emit_prologue : G → CodeBuffer → option (G * CodeBuffer);
  emit_epilogue : G → CodeBuffer → option (G * CodeBuffer);
  epilogue_offset : G → Z;
  init_context : G → Context → Context;
  op_constraint : G → Opcode.t → OpConstraint.t;
  tcg_out_mov : G → CodeBuffer → Type_.t → Z → Z → option CodeBuffer;
  tcg_out_movi : G → CodeBuffer → Type_.t → Z → Z → option CodeBuffer;
  tcg_out_ld : G → CodeBuffer → Type_.t → Z → Z → Z → option CodeBuffer;
  tcg_out_st : G → CodeBuffer → Type_.t → Z → Z → Z → option CodeBuffer;
  tcg_out_op : G → CodeBuffer → Context → Op.t → list Z → list Z → list Z → option (G * CodeBuffer);
  goto_tb_offsets : G → list (Z * Z);
  clear_goto_tb_offsets : G → G
}.
