(* ===== verification/X86CodeGen.v ===== *)
(** * The x86-64 code generator (backend/src/x86_64/codegen.rs)

    Prologue, epilogue, and the lowering of each IR op to instructions; the
    instance of [HostCodeGen] for the generator state of X86Emit.v. *)

From S2P Require Import Prelude Types Opcodes Ir Tb CodeBuffer X86Regs Constraint X86Emit HostCodeGen.
Import X86_64CodeGen.

Abbreviation G := X86_64CodeGen.t.

(** ** Prologue and epilogue *)

(** A sequence of pushes or pops. *)
Fixpoint emit_each (f : CodeBuffer → Reg.t → option CodeBuffer) (b : CodeBuffer) (l : list Reg.t) :
    option CodeBuffer :=
  match l with [] => Some b | r :: l => b ← f b r; emit_each f b l end.

Definition GUEST_BASE_DISP : Z := 520.

Definition x86_emit_prologue (self : G) (b : CodeBuffer) : option (G * CodeBuffer) :=
  let start := offset b in
  b ← emit_each emit_push b CALLEE_SAVED;
  rdi ← CALL_ARG_REGS.[0];
  b ← emit_mov_rr b true Reg.Rbp rdi;
  b ← emit_load b true Reg.R14 Reg.Rbp GUEST_BASE_DISP;
  b ← emit_arith_ri b ArithOp.Sub true Reg.Rsp STACK_ADDEND;
  rsi ← CALL_ARG_REGS.[1];
  b ← emit_jmp_reg b rsi;
  Some (mk start (epilogue_return_zero_offset self) (tb_ret_offset self) (offset b)
          (goto_tb_info self), b).

Definition x86_emit_epilogue (self : G) (b : CodeBuffer) : option (G * CodeBuffer) :=
  let return_zero := offset b in
  b ← emit_mov_ri b false Reg.Rax 0;
  let ret := offset b in
  b ← emit_arith_ri b ArithOp.Add true Reg.Rsp STACK_ADDEND;
  b ← emit_each emit_pop b (rev CALLEE_SAVED);
  b ← emit_ret b;
  Some (mk (prologue_offset self) return_zero ret (code_gen_start self) (goto_tb_info self), b).

Definition x86_init_context (self : G) (ctx : Context) : Context :=
  set_frame
    (mkContext (temps ctx) (ops ctx) (labels ctx) (nb_globals ctx) (frame_reg ctx) (frame_start ctx)
       (frame_end ctx) (frame_alloc_end ctx) RESERVED_REGS (const_table ctx) (gen_insn_end_off ctx)
       (tb_idx ctx))
    (Reg.discr Reg.Rsp) STATIC_CALL_ARGS_SIZE (CPU_TEMP_BUF_NLONGS * 8).

(** ** Moves, loads and stores *)

Definition is_i64 (ty : Type_.t) : bool := bool_decide (ty = Type_.I64).

Definition x86_out_mov (self : G) (b : CodeBuffer) (ty : Type_.t) (dst src : Z) : option CodeBuffer :=
  if dst =? src then Some b
  else d ← Reg.from_u8 dst; s ← Reg.from_u8 src; emit_mov_rr b (is_i64 ty) d s.

Definition x86_out_movi (self : G) (b : CodeBuffer) (ty : Type_.t) (dst val : Z) : option CodeBuffer :=
  d ← Reg.from_u8 dst; emit_mov_ri b (is_i64 ty) d val.

(** [offset as i32] *)
Definition x86_out_ld (self : G) (b : CodeBuffer) (ty : Type_.t) (dst base offset : Z) :
    option CodeBuffer :=
  d ← Reg.from_u8 dst; s ← Reg.from_u8 base; emit_load b (is_i64 ty) d s (i32 offset).

Definition x86_out_st (self : G) (b : CodeBuffer) (ty : Type_.t) (src base offset : Z) :
    option CodeBuffer :=
  s ← Reg.from_u8 src; d ← Reg.from_u8 base; emit_store b (is_i64 ty) s d (i32 offset).

(** ** Lowering of an op *)

Definition cond_from_u32 (val : Z) : option Cond.t :=
  match val with
  | 0 => Some Cond.Never
  | 1 => Some Cond.Always
  | 8 => Some Cond.Eq
  | 9 => Some Cond.Ne
  | 10 => Some Cond.Lt
  | 11 => Some Cond.Ge
  | 12 => Some Cond.Le
  | 13 => Some Cond.Gt
  | 14 => Some Cond.Ltu
  | 15 => Some Cond.Geu
  | 16 => Some Cond.Leu
  | 17 => Some Cond.Gtu
  | 18 => Some Cond.TstEq
  | 19 => Some Cond.TstNe
  | _ => None
  end.

(** [Reg::from_u8(regs[i])] *)
Definition reg_at (regs : list Z) (i : Z) : option Reg.t := v ← regs.[i]; Reg.from_u8 v.

(** The comparison in front of SETcc, Jcc and CMOVcc. *)
Definition emit_compare (b : CodeBuffer) (rexw : bool) (cond : Cond.t) (a c : Reg.t) :
    option CodeBuffer :=
  if Cond.is_tst cond then emit_test_rr b rexw a c else emit_arith_rr b ArithOp.Cmp rexw a c.

Definition emit_setcond (b : CodeBuffer) (rexw : bool) (oregs iregs cargs : list Z) :
    option (CodeBuffer * Reg.t) :=
  d ← reg_at oregs 0; a ← reg_at iregs 0; c ← reg_at iregs 1;
  x ← cargs.[0]; cond ← cond_from_u32 x;
  let x86c := X86Cond.from_tcg cond in
  b ← emit_compare b rexw cond a c;
  b ← emit_setcc b x86c d;
  b ← emit_movzx b (Z.lor OPC_MOVZBL P_REXB_RM) d d;
  Some (b, d).

Definition sx_opc (rexw : bool) (opc : Z) : Z := if rexw then Z.lor opc P_REXW else opc.

Definition emit_qemu_ld (b : CodeBuffer) (rexw : bool) (d addr : Reg.t) (memop : Z) :
    option CodeBuffer :=
  let size := Z.land memop 0x3 in
  let sign := negb (Z.land memop 4 =? 0) in
  let gb := Reg.R14 in
  match size, sign with
  | 0, false => emit_load_zx_sib b OPC_MOVZBL d gb addr
  | 0, true => emit_load_sx_sib b (sx_opc rexw OPC_MOVSBL) d gb addr
  | 1, false => emit_load_zx_sib b OPC_MOVZWL d gb addr
  | 1, true => emit_load_sx_sib b (sx_opc rexw OPC_MOVSWL) d gb addr
  | 2, false => emit_load_sib b false d gb addr 0 0
  | 2, true => emit_load_sx_sib b OPC_MOVSLQ d gb addr
  | 3, _ => emit_load_sib b true d gb addr 0 0
  | _, _ => None
  end.

Definition emit_qemu_st (b : CodeBuffer) (val addr : Reg.t) (memop : Z) : option CodeBuffer :=
  let gb := Reg.R14 in
  match Z.land memop 0x3 with
  | 0 => emit_store_byte_sib b val gb addr
  | 1 => emit_store_word_sib b val gb addr
  | 2 => emit_store_sib b false val gb addr 0 0
  | 3 => emit_store_sib b true val gb addr 0 0
  | _ => None
  end.

Definition emit_bswap16 (b : CodeBuffer) (rexw : bool) (d : Reg.t) (flags : Z) : option CodeBuffer :=
  if negb (Z.land flags 4 =? 0) then
    if rexw then b ← emit_bswap b true d; emit_shift_ri b ShiftOp.Sar true d 48
    else b ← emit_bswap b false d; emit_shift_ri b ShiftOp.Sar false d 16
  else if Z.land flags 3 =? 2 then
    b ← emit_bswap b false d; emit_shift_ri b ShiftOp.Shr false d 16
  else emit_rolw_8 b d.

(** ** The arms of [tcg_out_op]

    One definition per run of arms; each matches its own opcodes only. *)

Section arms.
Context (self : G) (b : CodeBuffer) (ctx : Context) (op : Op.t) (oregs iregs cargs : list Z).

(** [op.op_type == Type::I64] *)
Definition rexw_of : bool := is_i64 (Op.op_type op).

Definition out_arith (o : ArithOp.t) : option CodeBuffer :=
  d ← reg_at oregs 0; c ← reg_at iregs 1; emit_arith_rr b o rexw_of d c.

Definition out_shift (o : ShiftOp.t) : option CodeBuffer :=
  d ← reg_at oregs 0; emit_shift_cl b o rexw_of d.

Definition out_unary (f : Reg.t → Reg.t → option CodeBuffer) : option CodeBuffer :=
  d ← reg_at oregs 0; a ← reg_at iregs 0; f d a.

Definition out_load (f : Reg.t → Reg.t → Z → option CodeBuffer) : option CodeBuffer :=
  d ← reg_at oregs 0; base ← reg_at iregs 0; x ← cargs.[0]; f d base (i32 x).

Definition out_store (f : Reg.t → Reg.t → Z → option CodeBuffer) : option CodeBuffer :=
  src ← reg_at iregs 0; base ← reg_at iregs 1; x ← cargs.[0]; f src base (i32 x).

Definition out_alu : option CodeBuffer :=
  match Op.opc op with
  | Opcode.Add =>
      d ← reg_at oregs 0; a ← reg_at iregs 0; c ← reg_at iregs 1;
      if bool_decide (d = a) then emit_arith_rr b ArithOp.Add rexw_of d c
      else if bool_decide (d = c) then emit_arith_rr b ArithOp.Add rexw_of d a
      else emit_lea_sib b rexw_of d a c 0 0
  | Opcode.Sub => out_arith ArithOp.Sub
  | Opcode.Mul => d ← reg_at oregs 0; c ← reg_at iregs 1; emit_imul_rr b rexw_of d c
  | Opcode.And => out_arith ArithOp.And
  | Opcode.Or => out_arith ArithOp.Or
  | Opcode.Xor => out_arith ArithOp.Xor
  | Opcode.Neg => d ← reg_at oregs 0; emit_neg b rexw_of d
  | Opcode.Not => d ← reg_at oregs 0; emit_not b rexw_of d
  | Opcode.Shl => out_shift ShiftOp.Shl
  | Opcode.Shr => out_shift ShiftOp.Shr
  | Opcode.Sar => out_shift ShiftOp.Sar
  | _ => None
  end.

Definition out_brcond : option CodeBuffer :=
  a ← reg_at iregs 0; c ← reg_at iregs 1;
  x ← cargs.[0]; cond ← cond_from_u32 x;
  label_id ← cargs.[1];
  let x86c := X86Cond.from_tcg cond in
  b ← emit_compare b rexw_of cond a c;
  label ← label ctx label_id;
  if Label.has_value label then emit_jcc b x86c (Label.value label)
  else
    b ← emit_opc b (OPC_JCC_long + X86Cond.discr x86c) 0 0;
    emit_u32 b 0.

Definition out_mem : option CodeBuffer :=
  match Op.opc op with
  | Opcode.Ld => out_load (λ d base off, emit_load b rexw_of d base off)
  | Opcode.Ld8U => out_load (λ d base off, emit_load_zx b OPC_MOVZBL d base off)
  | Opcode.Ld8S => out_load (λ d base off, emit_load_sx b (sx_opc rexw_of OPC_MOVSBL) d base off)
  | Opcode.Ld16U => out_load (λ d base off, emit_load_zx b OPC_MOVZWL d base off)
  | Opcode.Ld16S => out_load (λ d base off, emit_load_sx b (sx_opc rexw_of OPC_MOVSWL) d base off)
  | Opcode.Ld32U => out_load (λ d base off, emit_load b false d base off)
  | Opcode.Ld32S => out_load (λ d base off, emit_load_sx b OPC_MOVSLQ d base off)
  | Opcode.St => out_store (λ src base off, emit_store b rexw_of src base off)
  | Opcode.St8 => out_store (λ src base off, emit_store_byte b src base off)
  | Opcode.St16 => out_store (λ src base off, emit_store_word b src base off)
  | Opcode.St32 => out_store (λ src base off, emit_store b false src base off)
  | _ => None
  end.

Definition out_ext : option CodeBuffer :=
  match Op.opc op with
  | Opcode.ExtI32I64 => out_unary (λ d s, emit_movsx b OPC_MOVSLQ d s)
  | Opcode.ExtUI32I64 | Opcode.ExtrlI64I32 =>
      out_unary (λ d s, if negb (bool_decide (d = s)) then emit_mov_rr b false d s else Some b)
  | Opcode.ExtrhI64I32 => d ← reg_at oregs 0; emit_shift_ri b ShiftOp.Shr true d 32
  | _ => None
  end.

(** Rotations and the double-width operations. *)
Definition out_wide : option CodeBuffer :=
  match Op.opc op with
  | Opcode.RotL => out_shift ShiftOp.Rol
  | Opcode.RotR => out_shift ShiftOp.Ror
  | Opcode.MulS2 => src ← reg_at iregs 1; emit_imul1 b rexw_of src
  | Opcode.MulU2 => src ← reg_at iregs 1; emit_mul b rexw_of src
  | Opcode.DivS2 => divisor ← reg_at iregs 2; emit_idiv b rexw_of divisor
  | Opcode.DivU2 => divisor ← reg_at iregs 2; emit_div b rexw_of divisor
  | _ => None
  end.

Definition out_carry : option CodeBuffer :=
  match Op.opc op with
  | Opcode.AddCO => out_arith ArithOp.Add
  | Opcode.AddCI | Opcode.AddCIO => out_arith ArithOp.Adc
  | Opcode.AddC1O =>
      d ← reg_at oregs 0; c ← reg_at iregs 1; b ← emit_stc b; emit_arith_rr b ArithOp.Adc rexw_of d c
  | Opcode.SubBO => out_arith ArithOp.Sub
  | Opcode.SubBI | Opcode.SubBIO => out_arith ArithOp.Sbb
  | Opcode.SubB1O =>
      d ← reg_at oregs 0; c ← reg_at iregs 1; b ← emit_stc b; emit_arith_rr b ArithOp.Sbb rexw_of d c
  | _ => None
  end.

Definition out_bits : option CodeBuffer :=
  match Op.opc op with
  | Opcode.AndC =>
      d ← reg_at oregs 0; a ← reg_at iregs 0; c ← reg_at iregs 1; emit_andn b rexw_of d c a
  | Opcode.Extract =>
      d ← reg_at oregs 0; s ← reg_at iregs 0; ofs ← cargs.[0]; len ← cargs.[1];
      assert! ofs =? 0;
      match len with
      | 8 => emit_movzx b OPC_MOVZBL d s
      | 16 => emit_movzx b OPC_MOVZWL d s
      | 32 => emit_mov_rr b false d s
      | _ => None
      end
  | Opcode.SExtract =>
      d ← reg_at oregs 0; s ← reg_at iregs 0; ofs ← cargs.[0]; len ← cargs.[1];
      assert! ofs =? 0;
      match len with
      | 8 => emit_movsx b (sx_opc rexw_of OPC_MOVSBL) d s
      | 16 => emit_movsx b (sx_opc rexw_of OPC_MOVSWL) d s
      | 32 => emit_movsx b OPC_MOVSLQ d s
      | _ => None
      end
  | Opcode.Deposit =>
      d ← reg_at oregs 0; src ← reg_at iregs 1; ofs ← cargs.[0]; len ← cargs.[1];
      assert! ofs =? 0;
      match len with
      | 8 => emit_modrm b (Z.lor (Z.lor OPC_MOVB_EvGv P_REXB_R) P_REXB_RM) src d
      | 16 => emit_modrm b (Z.lor P_DATA16 OPC_MOVL_EvGv) src d
      | _ => None
      end
  | Opcode.Extract2 =>
      d ← reg_at oregs 0; src ← reg_at iregs 1; shift ← cargs.[0];
      emit_shrd_ri b rexw_of d src (u8 shift)
  | Opcode.Bswap16 => d ← reg_at oregs 0; flags ← cargs.[0]; emit_bswap16 b rexw_of d flags
  | Opcode.Bswap32 =>
      d ← reg_at oregs 0; flags ← cargs.[0];
      b ← emit_bswap b false d;
      if negb (Z.land flags 4 =? 0) then emit_movsx b OPC_MOVSLQ d d else Some b
  | Opcode.Bswap64 => d ← reg_at oregs 0; emit_bswap b true d
  | Opcode.Clz => out_unary (λ d a, emit_lzcnt b rexw_of d a)
  | Opcode.Ctz => out_unary (λ d a, emit_tzcnt b rexw_of d a)
  | Opcode.CtPop => out_unary (λ d a, emit_popcnt b rexw_of d a)
  | _ => None
  end.

(** Conditional values. *)
Definition out_cond : option CodeBuffer :=
  match Op.opc op with
  | Opcode.SetCond => '(b, _) ← emit_setcond b rexw_of oregs iregs cargs; Some b
  | Opcode.NegSetCond => '(b, d) ← emit_setcond b rexw_of oregs iregs cargs; emit_neg b rexw_of d
  | Opcode.MovCond =>
      d ← reg_at oregs 0; c1 ← reg_at iregs 0; c2 ← reg_at iregs 1; v2 ← reg_at iregs 3;
      x ← cargs.[0]; cond ← cond_from_u32 x;
      let x86c := X86Cond.from_tcg cond in
      b ← emit_compare b rexw_of cond c1 c2;
      emit_cmovcc b (X86Cond.invert x86c) rexw_of d v2
  | _ => None
  end.

(** Guest memory, calls and exits. *)
Definition out_guest : option CodeBuffer :=
  match Op.opc op with
  | Opcode.QemuLd =>
      d ← reg_at oregs 0; addr ← reg_at iregs 0; x ← cargs.[0]; emit_qemu_ld b rexw_of d addr (u16 x)
  | Opcode.QemuSt =>
      val ← reg_at iregs 0; addr ← reg_at iregs 1; x ← cargs.[0]; emit_qemu_st b val addr (u16 x)
  | Opcode.ExitTb =>
      val ← cargs.[0];
      emit_exit_tb self b (encode_tb_exit (tb_idx ctx) val)
  | Opcode.GotoPtr => reg ← reg_at iregs 0; emit_goto_ptr b reg
  | Opcode.Call =>
      lo ← cargs.[0]; hi ← cargs.[1];
      b ← emit_mov_ri b true Reg.R11 (Z.lor (Z.shiftl hi 32) lo);
      emit_call_reg b Reg.R11
  | _ => None
  end.

(** The arms that only append code. *)
Definition out_plain : option CodeBuffer :=
  match Op.opc op with
  | Opcode.Add | Opcode.Sub | Opcode.Mul | Opcode.And | Opcode.Or | Opcode.Xor
  | Opcode.Neg | Opcode.Not | Opcode.Shl | Opcode.Shr | Opcode.Sar => out_alu
  | Opcode.BrCond => out_brcond
  | Opcode.Ld | Opcode.Ld8U | Opcode.Ld8S | Opcode.Ld16U | Opcode.Ld16S | Opcode.Ld32U | Opcode.Ld32S
  | Opcode.St | Opcode.St8 | Opcode.St16 | Opcode.St32 => out_mem
  | Opcode.ExtI32I64 | Opcode.ExtUI32I64 | Opcode.ExtrlI64I32 | Opcode.ExtrhI64I32 => out_ext
  | Opcode.RotL | Opcode.RotR | Opcode.MulS2 | Opcode.MulU2 | Opcode.DivS2 | Opcode.DivU2 => out_wide
  | Opcode.AddCO | Opcode.AddCI | Opcode.AddCIO | Opcode.AddC1O
  | Opcode.SubBO | Opcode.SubBI | Opcode.SubBIO | Opcode.SubB1O => out_carry
  | Opcode.AndC | Opcode.Extract | Opcode.SExtract | Opcode.Deposit | Opcode.Extract2
  | Opcode.Bswap16 | Opcode.Bswap32 | Opcode.Bswap64 | Opcode.Clz | Opcode.Ctz | Opcode.CtPop => out_bits
  | Opcode.SetCond | Opcode.NegSetCond | Opcode.MovCond => out_cond
  | Opcode.QemuLd | Opcode.QemuSt | Opcode.ExitTb | Opcode.GotoPtr | Opcode.Call => out_guest
  | _ => None
  end.
End arms.

(** [tcg_out_op]: [GotoTb] also records the jump. *)
Definition x86_out_op (self : G) (b : CodeBuffer) (ctx : Context) (op : Op.t)
    (oregs iregs cargs : list Z) : option (G * CodeBuffer) :=
  match Op.opc op with
  | Opcode.GotoTb =>
      '(b, jmp) ← emit_goto_tb b;
      Some (mk (prologue_offset self) (epilogue_return_zero_offset self) (tb_ret_offset self)
              (code_gen_start self) (goto_tb_info self ++ [jmp]), b)
  | _ => b ← out_plain self b ctx op oregs iregs cargs; Some (self, b)
  end.

#[export] Instance x86_code_gen : HostCodeGen G := {
  emit_prologue := x86_emit_prologue;
  emit_epilogue := x86_emit_epilogue;
  epilogue_offset := tb_ret_offset;
  init_context := x86_init_context;
  op_constraint _ := X86.op_constraint;
  tcg_out_mov := x86_out_mov;
  tcg_out_movi := x86_out_movi;
  tcg_out_ld := x86_out_ld;
  tcg_out_st := x86_out_st;
  tcg_out_op := x86_out_op;
  goto_tb_offsets := goto_tb_info;
  clear_goto_tb_offsets self :=
    mk (prologue_offset self) (epilogue_return_zero_offset self) (tb_ret_offset self)
      (code_gen_start self) []
}.
