(* ===== verification/Emission.v ===== *)
(** * Emission only appends

    What the rest of the system relies on when code is emitted: the bytes before the write
    position stay.  [adds] says so of one emission; it holds of every emitter of the x86-64
    backend, so the backend meets [HostCodeGenLaws], the contract of a code generator towards the
    register allocator. *)

From S2P Require Import Prelude Types Opcodes Ir Tb CodeBuffer X86Regs Constraint X86Emit HostCodeGen X86CodeGen.

(** ** Appending *)

(** [b'] is [b] with more code. *)
Record extends (b b' : CodeBuffer) : Prop := {
  ex_wf : wf_buffer b';
  ex_capacity : capacity b' = capacity b;
  ex_offset : offset b ≤ offset b';
  ex_frame i : 0 ≤ i < offset b → (mem b').[i] = (mem b).[i]
}.

Lemma extends_refl b : wf_buffer b → extends b b.
Proof. by split. Qed.

Lemma extends_trans b b1 b2 : extends b b1 → extends b1 b2 → extends b b2.
Proof.
  intros [? ? ? Hf1] [? ? ? Hf2]. split; [done|congruence|lia|]. intros i Hi. by rewrite Hf2, Hf1 by lia.
Qed.

(** An emission from [b] that, if it does not panic, appends. *)
Definition adds (b : CodeBuffer) (o : option CodeBuffer) : Prop :=
  ∀ b', o = Some b' → wf_buffer b → extends b b'.

Lemma adds_some b : adds b (Some b).
Proof. intros b' [= <-] Hwf. by apply extends_refl. Qed.

Lemma adds_none b : adds b None.
Proof. by intros b' [=]. Qed.

Lemma adds_bind b o k : adds b o → (∀ b1, adds b1 (k b1)) → adds b (o ≫= k).
Proof.
  intros Ho Hk b' Hb Hwf. apply bind_Some in Hb as (b1 & H1 & Hb). pose proof (Ho _ H1 Hwf) as He.
  eapply extends_trans; [exact He|]. apply Hk; [done|apply He].
Qed.

Lemma adds_bind_val {A} b (o : option A) k : (∀ a, adds b (k a)) → adds b (o ≫= k).
Proof. intros Hk b' Hb Hwf. apply bind_Some in Hb as (a & _ & Hb). by apply (Hk a). Qed.

Lemma adds_emit_bytes b data : Forall (in_width 8) data → adds b (emit_bytes b data).
Proof.
  intros Hd b' Hb Hwf. pose proof (emit_bytes_spec b data Hwf Hd) as He. pose proof (zlen_nonneg data).
  case_decide; [|congruence]. destruct He as (b1 & H1 & ? & ? & ? & _ & ?).
  assert (b1 = b') as -> by congruence. split; [done..|lia|done].
Qed.

Lemma adds_u8 b v : adds b (emit_u8 b v).
Proof. rewrite (proj1 (emit_as_bytes b v)). apply adds_emit_bytes, le_bytes_range. Qed.

Lemma adds_u32 b v : adds b (emit_u32 b v).
Proof. rewrite (proj1 (proj2 (proj2 (emit_as_bytes b v)))). apply adds_emit_bytes, le_bytes_range. Qed.

Lemma adds_u64 b v : adds b (emit_u64 b v).
Proof. rewrite (proj2 (proj2 (proj2 (emit_as_bytes b v)))). apply adds_emit_bytes, le_bytes_range. Qed.

Create HintDb adds discriminated.
#[export] Hint Resolve adds_some adds_none adds_u8 adds_u32 adds_u64 : adds.

(** Follow the structure of an emitter: a hint for what it calls, a bind, a case, and otherwise
    the definition. *)
Ltac adds :=
  cbv zeta;
  match goal with
  | |- adds _ _ => solve [auto 1 with adds nocore]
  | |- adds _ (@mbind option _ CodeBuffer CodeBuffer _ _) => apply adds_bind; [adds|intros; adds]
  | |- adds _ (@mbind option _ _ _ _ _) => apply adds_bind_val; intros; adds
  | |- adds _ ((λ _, _) _) => cbv beta; adds
  | |- adds _ (if ?c then _ else _) => destruct c; adds
  | |- adds _ (match ?x with _ => _ end) => destruct x; adds
  | |- adds _ ?o => let f := head_of o in unfold f; adds
  end.

(** ** The emitters *)

Lemma adds_prefixes b opc rex : adds b (emit_prefixes b opc rex).
Proof. adds. Qed.
#[export] Hint Resolve adds_prefixes : adds.

Lemma adds_opc b opc r rm : adds b (emit_opc b opc r rm).
Proof. adds. Qed.

Lemma adds_opc_3 b opc r rm i : adds b (emit_opc_3 b opc r rm i).
Proof. adds. Qed.
#[export] Hint Resolve adds_opc adds_opc_3 : adds.

Lemma adds_modrm b opc r rm : adds b (emit_modrm b opc r rm).
Proof. adds. Qed.

Lemma adds_modrm_ext b opc ext rm : adds b (emit_modrm_ext b opc ext rm).
Proof. adds. Qed.

Lemma adds_mem_operand b r3 b3 off : adds b (emit_mem_operand b r3 b3 off).
Proof. adds. Qed.

Lemma adds_modrm_sib b opc r base index shift off : adds b (emit_modrm_sib b opc r base index shift off).
Proof. adds. Qed.

Lemma adds_vex_modrm b opc r v rm : adds b (emit_vex_modrm b opc r v rm).
Proof. adds. Qed.
#[export] Hint Resolve adds_modrm adds_modrm_ext adds_mem_operand adds_modrm_sib adds_vex_modrm : adds.

Lemma adds_emit_each f b l : (∀ b r, adds b (f b r)) → adds b (emit_each f b l).
Proof. intros Hf. revert b. induction l as [|r l IH]; intros b; cbn [emit_each]; [adds|]. apply adds_bind; auto. Qed.

(** ** The fixed sequences *)

Lemma adds_pair {A} b (m : option (A * CodeBuffer)) a b' :
  m = Some (a, b') → adds b (snd <$> m) → wf_buffer b → extends b b'.
Proof. intros -> Ha. by apply Ha. Qed.

Lemma fmap_bind_opt {A B C} (f : B → C) (o : option A) (k : A → option B) : f <$> (o ≫= k) = o ≫= (λ a, f <$> k a).
Proof. by destruct o. Qed.

Ltac adds_sequence :=
  cbv zeta; repeat (rewrite fmap_bind_opt;
    first [apply adds_bind; [first [apply adds_emit_each; intros; adds|adds]|intros]|apply adds_bind_val; intros]); adds.

Lemma prologue_extends self b g' b' : x86_emit_prologue self b = Some (g', b') → wf_buffer b → extends b b'.
Proof. intros Hp. apply (adds_pair b _ _ _ Hp). unfold x86_emit_prologue. adds_sequence. Qed.

Lemma epilogue_extends self b g' b' : x86_emit_epilogue self b = Some (g', b') → wf_buffer b → extends b b'.
Proof. intros Hp. apply (adds_pair b _ _ _ Hp). unfold x86_emit_epilogue. adds_sequence. Qed.

(** ** The arms of [tcg_out_op] *)

Lemma adds_mov self b ty d s : adds b (x86_out_mov self b ty d s).
Proof. adds. Qed.

Lemma adds_movi self b ty d v : adds b (x86_out_movi self b ty d v).
Proof. adds. Qed.

Lemma adds_ld self b ty d base off : adds b (x86_out_ld self b ty d base off).
Proof. adds. Qed.

Lemma adds_st self b ty s base off : adds b (x86_out_st self b ty s base off).
Proof. adds. Qed.

Lemma adds_compare b w cond a c : adds b (emit_compare b w cond a c).
Proof. adds. Qed.
#[export] Hint Resolve adds_compare : adds.

Lemma adds_brcond b ctx op iregs cargs : adds b (out_brcond b ctx op iregs cargs).
Proof. adds. Qed.

(** Emissions that also give a value. *)
Lemma adds_bind_pair {A} b (o : option (CodeBuffer * A)) k :
  (∀ b1 a, o = Some (b1, a) → wf_buffer b → extends b b1) → (∀ b1 a, adds b1 (k (b1, a))) → adds b (o ≫= k).
Proof.
  intros Ho Hk b' Hb Hwf. apply bind_Some in Hb as ([b1 a] & H1 & Hb). pose proof (Ho _ _ H1 Hwf) as He.
  eapply extends_trans; [exact He|]. apply (Hk b1 a); [done|apply He].
Qed.

Lemma setcond_extends b w oregs iregs cargs b1 d :
  emit_setcond b w oregs iregs cargs = Some (b1, d) → wf_buffer b → extends b b1.
Proof.
  unfold emit_setcond. intros Hs Hwf.
  repeat lazymatch type of Hs with
  | (@mbind option _ CodeBuffer _ _ _) = _ => fail
  | _ => apply bind_Some in Hs as (? & _ & Hs)
  end.
  assert (adds b (b ← emit_compare b w x3 x0 x1; b ← emit_setcc b (X86Cond.from_tcg x3) x;
    emit_movzx b (Z.lor OPC_MOVZBL P_REXB_RM) x x)) as Ha by adds.
  apply Ha; [|done]. cbv zeta in Hs. apply bind_Some in Hs as (b2 & H2 & Hs). rewrite H2. cbn [mbind option_bind].
  apply bind_Some in Hs as (b3 & H3 & Hs). rewrite H3. cbn [mbind option_bind].
  apply bind_Some in Hs as (b4 & H4 & Hs). by injection Hs as <- _.
Qed.

Lemma adds_cond b op oregs iregs cargs : adds b (out_cond b op oregs iregs cargs).
Proof.
  unfold out_cond. destruct (Op.opc op); try adds.
  all: eapply adds_bind_pair; [apply setcond_extends|intros; adds].
Qed.

Lemma adds_alu b op oregs iregs : adds b (out_alu b op oregs iregs).
Proof. adds. Qed.

Lemma adds_mem b op oregs iregs cargs : adds b (out_mem b op oregs iregs cargs).
Proof. adds. Qed.

Lemma adds_ext b op oregs iregs : adds b (out_ext b op oregs iregs).
Proof. adds. Qed.

Lemma adds_wide b op oregs iregs : adds b (out_wide b op oregs iregs).
Proof. adds. Qed.

Lemma adds_carry b op oregs iregs : adds b (out_carry b op oregs iregs).
Proof. adds. Qed.

Lemma adds_bits b op oregs iregs cargs : adds b (out_bits b op oregs iregs cargs).
Proof. adds. Qed.

Lemma adds_guest self b ctx op oregs iregs cargs : adds b (out_guest self b ctx op oregs iregs cargs).
Proof. adds. Qed.
#[export] Hint Resolve adds_brcond adds_cond adds_alu adds_mem adds_ext adds_wide adds_carry adds_bits adds_guest : adds.

Lemma adds_plain self b ctx op oregs iregs cargs : adds b (out_plain self b ctx op oregs iregs cargs).
Proof. adds. Qed.

(** ** The contract *)

(** What a code generator promises to the allocator.  A recorded [goto_tb] jump lies in what its op
    emitted and leads to its reset offset. *)
Class HostCodeGenLaws (G : Type) `{HostCodeGen G, JumpCode} : Prop := {
  law_prologue (g : G) b g' b' : emit_prologue g b = Some (g', b') → wf_buffer b → extends b b';
  law_epilogue (g : G) b g' b' : emit_epilogue g b = Some (g', b') → wf_buffer b → extends b b';
  law_mov (g : G) b ty d s : adds b (tcg_out_mov g b ty d s);
  law_movi (g : G) b ty d v : adds b (tcg_out_movi g b ty d v);
  law_ld (g : G) b ty d base off : adds b (tcg_out_ld g b ty d base off);
  law_st (g : G) b ty s base off : adds b (tcg_out_st g b ty s base off);
  law_op (g : G) b ctx op oregs iregs cargs g' b' :
    tcg_out_op g b ctx op oregs iregs cargs = Some (g', b') → wf_buffer b →
    extends b b' ∧
    (goto_tb_offsets g' = goto_tb_offsets g ∨
     Op.opc op = Opcode.GotoTb ∧ ∃ j r,
       goto_tb_offsets g' = goto_tb_offsets g ++ [(j, r)] ∧ offset b ≤ j ∧ j + jump_size ≤ offset b' ∧
       0 ≤ r ≤ capacity b ∧ jump_target b' j = Some r);
  (** A branch to a label without a place ends with four bytes for its displacement. *)
  law_brcond (g : G) b ctx op oregs iregs cargs g' b' l lab :
    tcg_out_op g b ctx op oregs iregs cargs = Some (g', b') → wf_buffer b → Op.opc op = Opcode.BrCond →
    cargs.[1] = Some l → label ctx l = Some lab → Label.has_value lab = false → offset b + 4 ≤ offset b';
  law_clear (g : G) : goto_tb_offsets (clear_goto_tb_offsets g) = []
}.

Lemma emit_u32_room b v b' : emit_u32 b v = Some b' → offset b' = offset b + 4.
Proof. unfold emit_u32. case_match; [|done]. by intros [= <-]. Qed.

Lemma brcond_room b ctx op iregs cargs b' l lab :
  out_brcond b ctx op iregs cargs = Some b' → wf_buffer b →
  cargs.[1] = Some l → label ctx l = Some lab → Label.has_value lab = false → offset b + 4 ≤ offset b'.
Proof.
  unfold out_brcond. intros Ho Hwf Hl Hlab Hv.
  apply bind_Some in Ho as (a & _ & Ho). apply bind_Some in Ho as (c & _ & Ho).
  apply bind_Some in Ho as (x & _ & Ho). apply bind_Some in Ho as (cond & _ & Ho).
  rewrite Hl in Ho. cbn [mbind option_bind] in Ho. cbv zeta in Ho. apply bind_Some in Ho as (b1 & H1 & Ho).
  rewrite Hlab in Ho. cbn [mbind option_bind] in Ho. rewrite Hv in Ho.
  apply bind_Some in Ho as (b2 & H2 & Ho). apply emit_u32_room in Ho.
  destruct (adds_compare b (rexw_of op) cond a c b1 H1 Hwf) as [Hwf1 _ Ho1 _].
  destruct (adds_opc b1 _ _ _ b2 H2 Hwf1) as [_ _ Ho2 _]. lia.
Qed.

#[export] Instance x86_laws : HostCodeGenLaws G.
Proof.
  split.
  - exact prologue_extends.
  - exact epilogue_extends.
  - exact adds_mov.
  - exact adds_movi.
  - exact adds_ld.
  - exact adds_st.
  - intros g b ctx op oregs iregs cargs g' b' Ho Hwf. cbn [tcg_out_op x86_code_gen] in Ho. unfold x86_out_op in Ho.
    destruct (decide (Op.opc op = Opcode.GotoTb)) as [Hop|Hop].
    + rewrite Hop in Ho. apply bind_Some in Ho as ([b1 [j r]] & He & Ho). injection Ho as <- <-.
      pose proof (emit_goto_tb_spec b Hwf) as Hs. pose proof (pad_bytes_spec (offset b)) as (_ & Hp & _).
      pose proof (wb_offset _ Hwf). case_decide; [|congruence].
      destruct Hs as (b2 & H2 & Hwf2 & Hc2 & Ho2 & _ & Hf2 & Ht2). rewrite He in H2. injection H2 as <- -> ->.
      split; [split; [done..|lia|done]|]. right. split; [done|]. do 2 eexists. split; [reflexivity|].
      change jump_size with 5. split_and!; [lia..|done].
    + assert (∃ b1, out_plain g b ctx op oregs iregs cargs = Some b1 ∧ (g', b') = (g, b1)) as (b1 & H1 & [= -> ->]).
      { destruct (Op.opc op); try done; by apply bind_Some in Ho as (b1 & H1 & [= <- <-]); exists b1. }
      split; [by eapply adds_plain|by left].
  - intros g b ctx op oregs iregs cargs g' b' l lab Ho Hwf Hop. cbn [tcg_out_op x86_code_gen] in Ho.
    unfold x86_out_op, out_plain in Ho. rewrite Hop in Ho. apply bind_Some in Ho as (b1 & H1 & Ho).
    injection Ho as <- <-. by eapply brcond_room.
  - done.
Qed.
