(* ===== verification/RegAlloc.v ===== *)
(** * The register allocator (backend/src/regalloc.rs)

    One pass over the ops: operands are brought into registers, host code is emitted
    through the [HostCodeGen] interface, and the locations of the temps ([val_type],
    [reg], [mem_coherent], the spill slot) are updated in the context.

    The functions thread [ctx], [state], the code generator and the buffer; here they
    run in the state monad [M] over the four, with panics as [None].  The fixed-size
    arrays of the source are lists of ten elements. *)

From S2P Require Import Prelude Types Opcodes Ir CodeBuffer X86Regs Constraint X86Emit HostCodeGen.

(** ** The allocator's own state *)

Module RegAllocState.
Record t := mk {
  reg_to_temp : list (option Z);
  free_regs : RegSet.t;
  allocatable : RegSet.t
}.

Definition new (allocatable : RegSet.t) : t := mk (replicate 16 None) allocatable allocatable.

Definition free_reg (self : t) (reg : Z) : option t :=
  l ← zinsert (reg_to_temp self) reg None;
  c ← RegSet.contains (allocatable self) reg;
  f ← (if (c : bool) then RegSet.set (free_regs self) reg else Some (free_regs self));
  Some (mk l f (allocatable self)).

Definition assign (self : t) (reg tidx : Z) : option t :=
  l ← zinsert (reg_to_temp self) reg (Some tidx);
  f ← RegSet.clear (free_regs self) reg;
  Some (mk l f (allocatable self)).
End RegAllocState.

(** x86-64 System V caller-saved registers. *)
Definition CALLER_SAVED : list Z := [0; 1; 2; 6; 7; 8; 9; 10; 11].

Section regalloc.
Context {G : Type} `{HostCodeGen G}.

(** ** The state threaded through the functions *)

Record Alloc := mkAlloc {
  ctx : Context;
  state : RegAllocState.t;
  backend : G;
  buf : CodeBuffer
}.

Definition M (A : Type) : Type := Alloc → option (A * Alloc).

#[global] Instance alloc_ret : MRet M := λ A a s, Some (a, s).
#[global] Instance alloc_bind : MBind M := λ A B f m s, '(a, s) ← m s; f a s.

(** A value that may be missing: an index, an [unwrap]. *)
Definition lift {A} (o : option A) : M A := λ s, a ← o; Some (a, s).
Definition get {A} (f : Alloc → A) : M A := λ s, Some (f s, s).
Definition panic {A} : M A := λ _, None.

Definition upd_ctx (f : Context → option Context) : M unit := λ s,
  c ← f (ctx s); Some (tt, mkAlloc c (state s) (backend s) (buf s)).
Definition upd_state (f : RegAllocState.t → option RegAllocState.t) : M unit := λ s,
  t ← f (state s); Some (tt, mkAlloc (ctx s) t (backend s) (buf s)).
Definition out (f : G → CodeBuffer → option CodeBuffer) : M unit := λ s,
  b ← f (backend s) (buf s); Some (tt, mkAlloc (ctx s) (state s) (backend s) b).

Definition get_temp (tidx : Z) : M Temp.t := λ s, t ← temp (ctx s) tidx; Some (t, s).
Definition upd_temp (tidx : Z) (f : Temp.t → Temp.t) : M unit := upd_ctx (λ c, temp_mut c tidx f).
Definition free_reg (reg : Z) : M unit := upd_state (λ t, RegAllocState.free_reg t reg).
Definition assign (reg tidx : Z) : M unit := upd_state (λ t, RegAllocState.assign t reg tidx).
Definition occupant (reg : Z) : M (option Z) :=
  l ← get (λ s, RegAllocState.reg_to_temp (state s)); lift (l.[reg]).

(** [t.reg = Some(reg)], and together with [t.val_type = Reg]. *)
Definition set_reg (reg : Z) (t : Temp.t) : Temp.t :=
  Temp.set_loc t (Temp.val_type t) (Some reg) (Temp.mem_coherent t).
Definition in_reg (reg : Z) (t : Temp.t) : Temp.t :=
  Temp.set_loc t TempVal.Reg (Some reg) (Temp.mem_coherent t).

(** [val_type = Mem; reg = None; mem_coherent = true] *)
Definition in_mem (t : Temp.t) : Temp.t := Temp.set_loc t TempVal.Mem None true.
Definition dead (t : Temp.t) : Temp.t := Temp.set_loc t TempVal.Dead None (Temp.mem_coherent t).

(** [for x in l { acc = f(acc, x) }] *)
Fixpoint for_each {A B} (f : A → B → M A) (l : list B) (acc : A) : M A :=
  match l with
  | [] => mret acc
  | x :: l => acc ← f acc x; for_each f l acc
  end.

Definition for_all {B} (f : B → M unit) (l : list B) : M unit := for_each (λ _ x, f x) l tt.

(** ** Syncing and eviction *)

Definition temp_sync (tidx : Z) : M unit :=
  temp ← get_temp tidx;
  if Temp.mem_coherent temp then mret tt
  else
    match Temp.reg temp with
    | None => mret tt
    | Some reg =>
        match Temp.mem_base temp with
        | Some base_idx =>
            base ← get_temp base_idx;
            base_reg ← lift (Temp.reg base);
            out (λ g b, tcg_out_st g b (Temp.ty temp) reg base_reg (Temp.mem_offset temp))
        | None =>
            if Temp.mem_allocated temp then
              frame ← get (λ s, frame_reg (ctx s));
              frame_reg ← lift frame;
              out (λ g b, tcg_out_st g b (Temp.ty temp) reg frame_reg (Temp.mem_offset temp))
            else mret tt
        end
    end.

Definition sync_globals : M unit :=
  n ← get (λ s, nb_globals (ctx s));
  for_all (λ tidx,
    temp ← get_temp tidx;
    if bool_decide (Temp.val_type temp = TempVal.Reg) && negb (Temp.mem_coherent temp) then
      _ ← temp_sync tidx;
      upd_temp tidx (λ t, Temp.set_coherent t true)
    else mret tt) (seqZ 0 n).

Definition alloc_frame (tidx : Z) : M Z := λ s,
  '(offset, c) ← alloc_temp_frame (ctx s) tidx;
  Some (offset, mkAlloc c (state s) (backend s) (buf s)).

Definition evict_reg (reg : Z) : M unit :=
  occ ← occupant reg;
  match occ with
  | None => mret tt
  | Some tidx =>
      temp ← get_temp tidx;
      if Temp.is_global_or_fixed temp then
        _ ← temp_sync tidx;
        _ ← upd_temp tidx in_mem;
        free_reg reg
      else
        offset ← alloc_frame tidx;
        frame ← get (λ s, frame_reg (ctx s));
        frame_reg ← lift frame;
        _ ← out (λ g b, tcg_out_st g b (Temp.ty temp) reg frame_reg offset);
        _ ← free_reg reg;
        upd_temp tidx in_mem
  end.

Definition reg_alloc (required forbidden preferred : RegSet.t) : M Z :=
  allocatable ← get (λ s, RegAllocState.allocatable (state s));
  free_regs ← get (λ s, RegAllocState.free_regs (state s));
  let candidates := RegSet.subtract (RegSet.intersect required allocatable) forbidden in
  let pref_free := RegSet.intersect (RegSet.intersect candidates free_regs) preferred in
  match RegSet.first pref_free with
  | Some r => mret r
  | None =>
      let any_free := RegSet.intersect candidates free_regs in
      match RegSet.first any_free with
      | Some r => mret r
      | None =>
          match RegSet.first candidates with
          | Some r => _ ← evict_reg r; mret r
          | None =>
              let forced := RegSet.intersect required allocatable in
              r ← lift (RegSet.first forced);
              _ ← evict_reg r; mret r
          end
      end
  end.

(** The load of a temp that is in memory, into [reg]; nothing if it has no slot. *)
Definition load_mem (temp : Temp.t) (reg : Z) : M unit :=
  match Temp.mem_base temp with
  | Some base_idx =>
      base ← get_temp base_idx;
      base_reg ← lift (Temp.reg base);
      out (λ g b, tcg_out_ld g b (Temp.ty temp) reg base_reg (Temp.mem_offset temp))
  | None =>
      if Temp.mem_allocated temp then
        frame ← get (λ s, frame_reg (ctx s));
        frame_reg ← lift frame;
        out (λ g b, tcg_out_ld g b (Temp.ty temp) reg frame_reg (Temp.mem_offset temp))
      else mret tt
  end.

Definition temp_load_to (tidx : Z) (required forbidden preferred : RegSet.t) : M Z :=
  temp ← get_temp tidx;
  match Temp.val_type temp with
  | TempVal.Reg =>
      cur ← lift (Temp.reg temp);
      ok ← lift (RegSet.contains required cur);
      bad ← lift (RegSet.contains forbidden cur);
      if (ok : bool) && negb (bad : bool) then mret cur
      else
        dst ← reg_alloc required forbidden preferred;
        _ ← out (λ g b, tcg_out_mov g b (Temp.ty temp) dst cur);
        _ ← free_reg cur;
        _ ← assign dst tidx;
        _ ← upd_temp tidx (set_reg dst);
        mret dst
  | TempVal.Const =>
      reg ← reg_alloc required forbidden preferred;
      _ ← assign reg tidx;
      _ ← out (λ g b, tcg_out_movi g b (Temp.ty temp) reg (Temp.val temp));
      _ ← upd_temp tidx (in_reg reg);
      mret reg
  | TempVal.Mem =>
      reg ← reg_alloc required forbidden preferred;
      _ ← assign reg tidx;
      _ ← load_mem temp reg;
      _ ← upd_temp tidx (λ t, Temp.set_loc t TempVal.Reg (Some reg) true);
      mret reg
  | TempVal.Dead => panic
  end.

(** ** Death of temps *)

Definition temp_dead (tidx : Z) : M unit :=
  temp ← get_temp tidx;
  if Temp.is_global_or_fixed temp then mret tt
  else
    _ ← match Temp.reg temp with Some reg => free_reg reg | None => mret tt end;
    upd_temp tidx dead.

Definition temp_dead_input (tidx : Z) : M unit :=
  temp ← get_temp tidx;
  if Temp.is_global_or_fixed temp then mret tt
  else
    _ ← match Temp.reg temp with
        | Some reg =>
            occ ← occupant reg;
            if bool_decide (occ = Some tidx) then free_reg reg else mret tt
        | None => mret tt
        end;
    upd_temp tidx dead.

(** ** Calls *)

Definition emit_op_code (op : Op.t) (oregs iregs cargs : list Z) : M unit := λ s,
  '(g, b) ← tcg_out_op (backend s) (buf s) (ctx s) op oregs iregs cargs;
  Some (tt, mkAlloc (ctx s) (state s) g b).

Definition nb_oargs_of (op : Op.t) : Z := nb_oargs (def (Op.opc op)).
Definition nb_iargs_of (op : Op.t) : Z := nb_iargs (def (Op.opc op)).

(** [(0..nb_cargs).map(|i| op.args[cstart + i].0).collect()] *)
Definition collect_cargs (op : Op.t) : M (list Z) :=
  lift (mapM (λ i, (Op.args op).[nb_oargs_of op + nb_iargs_of op + i])
             (seqZ 0 (nb_cargs (def (Op.opc op))))).

(** Step 3: the input into its register, without changing the state of the temp. *)
Definition load_call_arg (op : Op.t) (ct : OpConstraint.t) (i_regs : list Z) (i : Z) : M (list Z) :=
  tidx ← lift ((Op.args op).[nb_oargs_of op + i]);
  c ← lift ((OpConstraint.args ct).[nb_oargs_of op + i]);
  target ← lift (RegSet.first (ArgConstraint.regs c));
  temp ← get_temp tidx;
  _ ← match Temp.val_type temp with
      | TempVal.Reg =>
          src ← lift (Temp.reg temp);
          if negb (src =? target) then
            out (λ g b, tcg_out_mov g b (Temp.ty temp) target src)
          else mret tt
      | TempVal.Const => out (λ g b, tcg_out_movi g b (Temp.ty temp) target (Temp.val temp))
      | TempVal.Mem => load_mem temp target
      | TempVal.Dead => out (λ g b, tcg_out_movi g b (Temp.ty temp) target 0)
      end;
  lift (zinsert i_regs i target).

Definition clobber_caller_saved (reg : Z) : M unit :=
  occ ← occupant reg;
  match occ with
  | None => mret tt
  | Some tidx =>
      temp ← get_temp tidx;
      _ ← (if Temp.is_global_or_fixed temp then upd_temp tidx in_mem else mret tt);
      free_reg reg
  end.

(** [t.val_type = Reg; t.reg = Some(reg); t.mem_coherent = false] after [assign]. *)
Definition define_in (reg dst_tidx : Z) : M unit :=
  _ ← assign reg dst_tidx;
  upd_temp dst_tidx (λ t, Temp.set_loc t TempVal.Reg (Some reg) false).

Definition regalloc_call (op : Op.t) (ct : OpConstraint.t) : M unit :=
  let nb_oargs := nb_oargs_of op in
  let nb_iargs := nb_iargs_of op in
  let life := Op.life op in
  _ ← sync_globals;
  _ ← for_all (λ reg,
        occ ← occupant reg;
        match occ with
        | None => mret tt
        | Some tidx =>
            temp ← get_temp tidx;
            if negb (Temp.is_global_or_fixed temp) then evict_reg reg else mret tt
        end) CALLER_SAVED;
  i_regs ← for_each (load_call_arg op ct) (seqZ 0 nb_iargs) (replicate 10 0);
  _ ← for_all (λ i,
        if LifeData.is_dead life (nb_oargs + i) then
          tidx ← lift ((Op.args op).[nb_oargs + i]);
          temp_dead_input tidx
        else mret tt) (seqZ 0 nb_iargs);
  _ ← for_all clobber_caller_saved CALLER_SAVED;
  cargs ← collect_cargs op;
  c ← lift ((OpConstraint.args ct).[0]);
  out_reg ← lift (RegSet.first (ArgConstraint.regs c));
  _ ← emit_op_code op [out_reg] (take (Z.to_nat nb_iargs) i_regs) cargs;
  dst_tidx ← lift ((Op.args op).[0]);
  _ ← define_in out_reg dst_tidx;
  if LifeData.is_dead life 0 then temp_dead dst_tidx else mret tt.

(** ** Constraint-driven allocation for one op *)

Record Inputs := mkInputs {
  i_regs : list Z;
  i_allocated : RegSet.t;
  i_reusable : list bool;
  fixed_moves : list (Z * Z * Z)
}.

(** Step 1, for input [i]. *)
Definition process_input (op : Op.t) (ct : OpConstraint.t) (acc : Inputs) (i : Z) : M Inputs :=
  let nb_oargs := nb_oargs_of op in
  arg_ct ← lift ((OpConstraint.args ct).[nb_oargs + i]);
  tidx ← lift ((Op.args op).[nb_oargs + i]);
  let required := ArgConstraint.regs arg_ct in
  let is_dead := LifeData.is_dead (Op.life op) (nb_oargs + i) in
  temp ← get_temp tidx;
  let is_readonly := Temp.is_global_or_fixed temp || Temp.is_const temp in
  let orig_fixed := if Temp.is_fixed temp then Temp.reg temp else None in
  let reusable := ArgConstraint.ialias arg_ct && is_dead && negb is_readonly in
  preferred ← (if reusable then lift ((Op.output_pref op).[ArgConstraint.alias_index arg_ct])
               else mret RegSet.EMPTY);
  reg ← temp_load_to tidx required (i_allocated acc) preferred;
  regs ← lift (zinsert (i_regs acc) i reg);
  allocated ← lift (RegSet.set (i_allocated acc) reg);
  reuse ← (if reusable then lift (zinsert (i_reusable acc) i true) else mret (i_reusable acc));
  moves ← match orig_fixed with
          | Some orig_reg =>
              temp ← get_temp tidx;
              match Temp.reg temp with
              | Some cur =>
                  mret (if negb (cur =? orig_reg) then fixed_moves acc ++ [(tidx, orig_reg, cur)]
                        else fixed_moves acc)
              | None => mret (fixed_moves acc)
              end
          | None => mret (fixed_moves acc)
          end;
  mret (mkInputs regs allocated reuse moves).

(** The fixup after the inputs: re-read the registers. *)
Definition reread_input (op : Op.t) (acc : list Z * RegSet.t) (i : Z) : M (list Z * RegSet.t) :=
  tidx ← lift ((Op.args op).[nb_oargs_of op + i]);
  temp ← get_temp tidx;
  if bool_decide (Temp.val_type temp = TempVal.Reg) then
    reg ← lift (Temp.reg temp);
    regs ← lift (zinsert acc.1 i reg);
    allocated ← lift (RegSet.set acc.2 reg);
    mret (regs, allocated)
  else mret acc.

(** Step 2: the register of output [k], given the outputs so far. *)
Definition output_reg (op : Op.t) (arg_ct : ArgConstraint.t) (i_regs : list Z) (i_allocated : RegSet.t)
    (i_reusable : list bool) (o_allocated : RegSet.t) : M Z :=
  if ArgConstraint.oalias arg_ct then
    let ai := ArgConstraint.alias_index arg_ct in
    reusable ← lift (i_reusable.[ai]);
    old_reg ← lift (i_regs.[ai]);
    if (reusable : bool) then mret old_reg
    else
      src_tidx ← lift ((Op.args op).[nb_oargs_of op + ai]);
      src_temp ← get_temp src_tidx;
      allocatable ← get (λ s, RegAllocState.allocatable (state s));
      copy_reg ← reg_alloc allocatable (RegSet.union i_allocated o_allocated) RegSet.EMPTY;
      _ ← out (λ g b, tcg_out_mov g b (Temp.ty src_temp) copy_reg old_reg);
      _ ← assign copy_reg src_tidx;
      _ ← upd_temp src_tidx (set_reg copy_reg);
      mret old_reg
  else if ArgConstraint.newreg arg_ct then
    reg_alloc (ArgConstraint.regs arg_ct) (RegSet.union i_allocated o_allocated) RegSet.EMPTY
  else reg_alloc (ArgConstraint.regs arg_ct) o_allocated RegSet.EMPTY.

Definition process_output (op : Op.t) (ct : OpConstraint.t) (i_regs : list Z) (i_allocated : RegSet.t)
    (i_reusable : list bool) (acc : list Z * RegSet.t) (k : Z) : M (list Z * RegSet.t) :=
  arg_ct ← lift ((OpConstraint.args ct).[k]);
  dst_tidx ← lift ((Op.args op).[k]);
  reg ← output_reg op arg_ct i_regs i_allocated i_reusable acc.2;
  _ ← define_in reg dst_tidx;
  o_regs ← lift (zinsert acc.1 k reg);
  o_allocated ← lift (RegSet.set acc.2 reg);
  mret (o_regs, o_allocated).

(** The fixup after the outputs. *)
Definition refix_input (op : Op.t) (i_regs : list Z) (i : Z) : M (list Z) :=
  tidx ← lift ((Op.args op).[nb_oargs_of op + i]);
  temp ← get_temp tidx;
  if bool_decide (Temp.val_type temp = TempVal.Reg) then
    match Temp.reg temp with
    | Some reg => lift (zinsert i_regs i reg)
    | None => mret i_regs
    end
  else mret i_regs.

(** Step 5, for input [i]. *)
Definition free_dead_input (op : Op.t) (i : Z) : M unit :=
  let nb_oargs := nb_oargs_of op in
  if LifeData.is_dead (Op.life op) (nb_oargs + i) then
    tidx ← lift ((Op.args op).[nb_oargs + i]);
    let aliased := bool_decide (tidx ∈ Op.slice (Op.args op) 0 nb_oargs) in
    if negb aliased then temp_dead_input tidx else mret tt
  else mret tt.

(** Step 6, for one moved temp. *)
Definition restore_fixed (m : Z * Z * Z) : M unit :=
  let '(tidx, orig_reg, moved_reg) := m in
  temp ← get_temp tidx;
  _ ← (if Temp.is_fixed temp then
         _ ← upd_temp tidx (in_reg orig_reg);
         assign orig_reg tidx
       else mret tt);
  occ ← occupant moved_reg;
  if bool_decide (occ = Some tidx) then free_reg moved_reg else mret tt.

Definition regalloc_op (op : Op.t) (ct : OpConstraint.t) : M unit :=
  let nb_oargs := nb_oargs_of op in
  let nb_iargs := nb_iargs_of op in
  let life := Op.life op in
  ins ← for_each (process_input op ct) (seqZ 0 nb_iargs)
          (mkInputs (replicate 10 0) RegSet.EMPTY (replicate 10 false) []);
  '(i_regs, i_allocated) ← for_each (reread_input op) (seqZ 0 nb_iargs) (i_regs ins, RegSet.EMPTY);
  '(o_regs, _) ← for_each (process_output op ct i_regs i_allocated (i_reusable ins))
                   (seqZ 0 nb_oargs) (replicate 10 0, RegSet.EMPTY);
  i_regs ← for_each (refix_input op) (seqZ 0 nb_iargs) i_regs;
  cargs ← collect_cargs op;
  _ ← emit_op_code op (take (Z.to_nat nb_oargs) o_regs) (take (Z.to_nat nb_iargs) i_regs) cargs;
  _ ← for_all (free_dead_input op) (seqZ 0 nb_iargs);
  _ ← for_all restore_fixed (fixed_moves ins);
  _ ← for_all (λ k,
        if LifeData.is_dead life k then
          tidx ← lift ((Op.args op).[k]);
          temp_dead tidx
        else mret tt) (seqZ 0 nb_oargs);
  for_all (λ i,
    if LifeData.is_sync life (nb_oargs + i) then
      tidx ← lift ((Op.args op).[nb_oargs + i]);
      _ ← temp_sync tidx;
      upd_temp tidx (λ t, Temp.set_coherent t true)
    else mret tt) (seqZ 0 nb_iargs).

(** ** The main pass *)

Definition alloc_mov (op : Op.t) : M unit :=
  dst_idx ← lift ((Op.args op).[0]);
  src_idx ← lift ((Op.args op).[1]);
  let life := Op.life op in
  src_reg ← temp_load_to src_idx ALLOCATABLE_REGS RegSet.EMPTY RegSet.EMPTY;
  _ ← (if LifeData.is_dead life 1 then temp_dead src_idx else mret tt);
  dst_reg ← reg_alloc ALLOCATABLE_REGS RegSet.EMPTY RegSet.EMPTY;
  _ ← define_in dst_reg dst_idx;
  _ ← (if negb (dst_reg =? src_reg) then
         out (λ g b, tcg_out_mov g b (Op.op_type op) dst_reg src_reg)
       else mret tt);
  if LifeData.is_dead life 0 then temp_dead dst_idx else mret tt.

Definition upd_label (label_id : Z) (f : Label.t → Label.t) : M unit :=
  upd_ctx (λ c, label_mut c label_id f).

Definition get_label (label_id : Z) : M Label.t := λ s, l ← label (ctx s) label_id; Some (l, s).

(** [label.uses.drain(..)] *)
Definition drain_uses (l : Label.t) : Label.t :=
  Label.mk (Label.id l) (Label.present l) (Label.has_value l) (Label.value l) [].

Definition alloc_set_label (op : Op.t) : M unit :=
  label_id ← lift ((Op.args op).[0]);
  _ ← sync_globals;
  off ← get (λ s, offset (buf s));
  _ ← upd_label label_id (λ l, Label.set_value l off);
  label ← get_label label_id;
  _ ← upd_label label_id drain_uses;
  for_all (λ u,
    match LabelUse.kind u with
    | RelocKind.Rel32 =>
        let disp := off - (LabelUse.offset u + 4) in
        out (λ _ b, patch_u32 b (LabelUse.offset u) (u32 disp))
    end) (Label.uses label).

Definition alloc_br (op : Op.t) : M unit :=
  label_id ← lift ((Op.args op).[0]);
  _ ← sync_globals;
  label ← get_label label_id;
  if Label.has_value label then out (λ _ b, emit_jmp b (Label.value label))
  else
    _ ← out (λ _ b, emit_u8 b 0xE9);
    patch_off ← get (λ s, offset (buf s));
    _ ← out (λ _ b, emit_u32 b 0);
    upd_label label_id (λ l, Label.add_use l patch_off RelocKind.Rel32).

Definition alloc_exit (op : Op.t) : M unit :=
  _ ← sync_globals;
  cargs ← collect_cargs op;
  emit_op_code op [] [] cargs.

Definition get_constraint (op : Op.t) : M OpConstraint.t :=
  get (λ s, op_constraint (backend s) (Op.opc op)).

Definition alloc_goto_ptr (op : Op.t) : M unit :=
  ct ← get_constraint op;
  tidx ← lift ((Op.args op).[0]);
  arg_ct ← lift ((OpConstraint.args ct).[0]);
  reg ← temp_load_to tidx (ArgConstraint.regs arg_ct) RegSet.EMPTY RegSet.EMPTY;
  _ ← (if LifeData.is_dead (Op.life op) 0 then temp_dead tidx else mret tt);
  _ ← sync_globals;
  emit_op_code op [] [reg] [].

Definition alloc_brcond (op : Op.t) : M unit :=
  ct ← get_constraint op;
  let nb_oargs := nb_oargs_of op in
  let nb_iargs := nb_iargs_of op in
  '(iregs, _) ← for_each (λ (acc : list Z * RegSet.t) i,
      tidx ← lift ((Op.args op).[nb_oargs + i]);
      arg_ct ← lift ((OpConstraint.args ct).[nb_oargs + i]);
      reg ← temp_load_to tidx (ArgConstraint.regs arg_ct) acc.2 RegSet.EMPTY;
      allocated ← lift (RegSet.set acc.2 reg);
      mret (acc.1 ++ [reg], allocated)) (seqZ 0 nb_iargs) ([], RegSet.EMPTY);
  cargs ← collect_cargs op;
  _ ← for_all (λ i,
        if LifeData.is_dead (Op.life op) (nb_oargs + i) then
          tidx ← lift ((Op.args op).[nb_oargs + i]);
          temp_dead tidx
        else mret tt) (seqZ 0 nb_iargs);
  _ ← sync_globals;
  label_id ← lift (cargs.[1]);
  label ← get_label label_id;
  let label_resolved := Label.has_value label in
  _ ← emit_op_code op [] iregs cargs;
  if negb label_resolved then
    off ← get (λ s, offset (buf s));
    upd_label label_id (λ l, Label.add_use l (off - 4) RelocKind.Rel32)
  else mret tt.

(** The body of the loop for one op. *)
Definition alloc_step (op : Op.t) : M unit :=
  match Op.opc op with
  | Opcode.Nop | Opcode.InsnStart => mret tt
  | Opcode.Mov => alloc_mov op
  | Opcode.SetLabel => alloc_set_label op
  | Opcode.Br => alloc_br op
  | Opcode.ExitTb | Opcode.GotoTb => alloc_exit op
  | Opcode.Call => ct ← get_constraint op; regalloc_call op ct
  | Opcode.GotoPtr => alloc_goto_ptr op
  | Opcode.Mb => out (λ _ b, emit_mfence b)
  | Opcode.BrCond => alloc_brcond op
  | _ =>
      ct ← get_constraint op;
      _ ← regalloc_op op ct;
      if OpFlags.contains (def_flags (def (Op.opc op))) OpFlags.BB_END then sync_globals else mret tt
  end.

(** Fixed temps start in their registers. *)
Definition init_fixed : M unit :=
  n ← get (λ s, nb_globals (ctx s));
  for_all (λ tidx,
    temp ← get_temp tidx;
    if bool_decide (Temp.kind temp = TempKind.Fixed) then
      match Temp.reg temp with Some reg => assign reg tidx | None => mret tt end
    else mret tt) (seqZ 0 n).

Definition alloc_block : M unit :=
  _ ← init_fixed;
  n ← get (λ s, num_ops (ctx s));
  for_all (λ oi,
    o ← get (λ s, op (ctx s) oi);
    op ← lift o;
    alloc_step op) (seqZ 0 n).

Definition regalloc_and_codegen (c : Context) (g : G) (b : CodeBuffer) : option (Context * G * CodeBuffer) :=
  '(_, s) ← alloc_block (mkAlloc c (RegAllocState.new ALLOCATABLE_REGS) g b);
  Some (ctx s, backend s, buf s).
End regalloc.
