(* ===== verification/X86Isa.v ===== *)
(** * A reference for the x86-64 instructions the backend emits

    Written after the Intel manual, not after the emitter: instructions as data, a
    decoder of instruction bytes, and the effect of an instruction on registers,
    flags and memory.  It covers the integer instructions of emitter.rs in 64-bit
    mode; anything else does not decode.

    Flags that an instruction leaves undefined are an arbitrary function of the
    operands ([undef]), except for shifts, which leave all flags to it.  A division
    whose divisor is zero or whose quotient does not fit faults ([None]).  An address
    is a [u64] and wraps; memory does not fault. *)

From S2P Require Import Prelude Types CodeBuffer X86Regs X86Emit.

(** ** Instructions *)

Module Size.
Inductive t := S8 | S16 | S32 | S64.
Definition bits (s : t) : Z := match s with S8 => 8 | S16 => 16 | S32 => 32 | S64 => 64 end.
Definition bytes (s : t) : nat := match s with S8 => 1 | S16 => 2 | S32 => 4 | S64 => 8 end.
#[global] Instance t_eq_dec : EqDecision t.
Proof. solve_decision. Defined.
End Size.

(** [[base + index * 2^shift + disp]] *)
Module Addr.
Record t := mk { base : Reg.t; index : option (Reg.t * Z); disp : Z }.
End Addr.

(** A register or memory operand; [High r] is one of AH, CH, DH and BH. *)
Inductive operand := R (r : Reg.t) | High (r : Reg.t) | Mem (a : Addr.t).

Inductive count := Imm (n : Z) | CL.
Inductive scan := Bsf | Bsr | Lzcnt | Tzcnt | Popcnt.

Inductive insn :=
| Arith (op : ArithOp.t) (s : Size.t) (dst src : operand)
| ArithI (op : ArithOp.t) (s : Size.t) (dst : operand) (imm : Z)
| Test (s : Size.t) (a b : operand)
| TestI (s : Size.t) (a : operand) (imm : Z)
| Grp3 (op : Ext3Op.t) (s : Size.t) (x : operand)
| Imul2 (s : Size.t) (dst : Reg.t) (src : operand)
| Imul3 (s : Size.t) (dst : Reg.t) (src : operand) (imm : Z)
| Shift (op : ShiftOp.t) (s : Size.t) (dst : operand) (n : count)
| Shrd (s : Size.t) (dst : operand) (src : Reg.t) (n : Z)
| Shld (s : Size.t) (dst : operand) (src : Reg.t) (n : Z)
| Mov (s : Size.t) (dst src : operand)
| MovI (s : Size.t) (dst : operand) (imm : Z)
| Movx (sign : bool) (from to : Size.t) (dst : Reg.t) (src : operand)
| Lea (s : Size.t) (dst : Reg.t) (a : Addr.t)
| Bswap (s : Size.t) (r : Reg.t)
| Scan (op : scan) (s : Size.t) (dst : Reg.t) (src : operand)
| Andn (s : Size.t) (dst src1 : Reg.t) (src2 : operand)
| BitTest (op : GrpBtOp.t) (s : Size.t) (x : operand) (n : Z)
| Cmov (c : X86Cond.t) (s : Size.t) (dst : Reg.t) (src : operand)
| Setcc (c : X86Cond.t) (dst : operand)
| Xchg (s : Size.t) (x : operand) (r : Reg.t)
| IncDec (dec : bool) (s : Size.t) (x : operand)
| SignExtA (s : Size.t)
| Stc
| Push (r : Reg.t) | PushI (imm : Z) | Pop (r : Reg.t)
| Jcc (c : X86Cond.t) (disp : Z) | Jmp (disp : Z) | Call (disp : Z)
| JmpR (x : operand) | CallR (x : operand) | Ret
| Nop | Ud2 | Mfence.

(** ** Decoding *)

(** What the prefixes say: the REX bits and whether there is a REX byte at all. *)
Record prefix := mkPrefix {
  opsize : bool;
  rep : Z;
  has_rex : bool;
  rex_w : bool;
  rex_r : bool;
  rex_x : bool;
  rex_b : bool
}.

Definition rex_of (x : Z) : option Z := if Z.land x 0xF0 =? 0x40 then Some x else None.

(** Whether the list starts with [x], and the rest. *)
Definition skip (x : Z) (l : list Z) : bool * list Z :=
  match l with y :: l' => if y =? x then (true, l') else (false, l) | [] => (false, []) end.

(** [0x66], then [0xF3] or [0xF2], then REX. *)
Definition decode_prefix (l : list Z) : prefix * list Z :=
  let '(p16, l) := skip 0x66 l in
  let '(f3, l) := skip 0xF3 l in
  let '(f2, l) := skip 0xF2 l in
  let rp := if f3 then 0xF3 else if f2 then 0xF2 else 0 in
  match l with
  | x :: l' =>
      match rex_of x with
      | Some x => (mkPrefix p16 rp true (Z.testbit x 3) (Z.testbit x 2) (Z.testbit x 1) (Z.testbit x 0), l')
      | None => (mkPrefix p16 rp false false false false false, l)
      end
  | [] => (mkPrefix p16 rp false false false false false, l)
  end.

Definition operand_size (p : prefix) : Size.t :=
  if rex_w p then Size.S64 else if opsize p then Size.S16 else Size.S32.

Definition high_bit (b : bool) : Z := if b then 8 else 0.
Definition reg_of (hi : bool) (low : Z) : option Reg.t := Reg.from_u8 (high_bit hi + low).

Definition take_disp8 (l : list Z) : option (Z * list Z) :=
  match l with b :: l => Some (signed 8 b, l) | [] => None end.
Definition take_disp32 (l : list Z) : option (Z * list Z) :=
  match l with
  | b0 :: b1 :: b2 :: b3 :: l => Some (signed 32 (le_value [b0; b1; b2; b3]), l)
  | _ => None
  end.

(** The address of a ModR/M byte that is not a register; RIP-relative and
    base-less addresses are left out. *)
Definition decode_addr (p : prefix) (md rm : Z) (l : list Z) : option (Addr.t * list Z) :=
  '(base, index, l) ← (if rm =? 4 then
      match l with
      | sib :: l =>
          let bl := Z.land sib 7 in
          assert! negb ((md =? 0) && (bl =? 5));
          base ← reg_of (rex_b p) bl;
          let xl := high_bit (rex_x p) + Z.land (Z.shiftr sib 3) 7 in
          index ← (if xl =? 4 then Some None
                   else x ← Reg.from_u8 xl; Some (Some (x, Z.shiftr sib 6)));
          Some (base, index, l)
      | [] => None
      end
    else
      assert! negb ((md =? 0) && (rm =? 5));
      base ← reg_of (rex_b p) rm; Some (base, None, l));
  '(disp, l) ← (if md =? 0 then Some (0, l) else if md =? 1 then take_disp8 l else take_disp32 l);
  Some (Addr.mk base index disp, l).

(** The reg field (with REX.R) and the operand of a ModR/M byte. *)
Definition decode_modrm (p : prefix) (l : list Z) : option (Z * operand * list Z) :=
  match l with
  | m :: l =>
      let md := Z.shiftr m 6 in
      let rm := Z.land m 7 in
      let reg := high_bit (rex_r p) + Z.land (Z.shiftr m 3) 7 in
      if md =? 3 then r ← reg_of (rex_b p) rm; Some (reg, R r, l)
      else '(a, l) ← decode_addr p md rm l; Some (reg, Mem a, l)
  | [] => None
  end.

(** A byte register: without REX, 4 to 7 are the high bytes of the first four. *)
Definition byte_reg (p : prefix) (r : Reg.t) : option operand :=
  if negb (has_rex p) && (4 <=? Reg.discr r) && (Reg.discr r <? 8)
  then h ← Reg.from_u8 (Reg.discr r - 4); Some (High h) else Some (R r).

Definition byte_operand (p : prefix) (x : operand) : option operand :=
  match x with R r => byte_reg p r | _ => Some x end.

Definition arith_of (n : Z) : option ArithOp.t :=
  find (λ o, ArithOp.discr o =? n)
    [ArithOp.Add; ArithOp.Or; ArithOp.Adc; ArithOp.Sbb; ArithOp.And; ArithOp.Sub; ArithOp.Xor; ArithOp.Cmp].
Definition shift_of (n : Z) : option ShiftOp.t :=
  find (λ o, ShiftOp.discr o =? n) [ShiftOp.Rol; ShiftOp.Ror; ShiftOp.Shl; ShiftOp.Shr; ShiftOp.Sar].
Definition ext3_of (n : Z) : option Ext3Op.t :=
  find (λ o, Ext3Op.discr o =? n)
    [Ext3Op.Not; Ext3Op.Neg; Ext3Op.Mul; Ext3Op.Imul; Ext3Op.Div; Ext3Op.Idiv].
Definition grpbt_of (n : Z) : option GrpBtOp.t :=
  find (λ o, GrpBtOp.discr o =? n) [GrpBtOp.Bt; GrpBtOp.Bts; GrpBtOp.Btr; GrpBtOp.Btc].

Definition cond_of (o : Z) : option X86Cond.t := X86Cond.all.[Z.land o 15].

Definition reg_operand (n : Z) : option operand := r ← Reg.from_u8 n; Some (R r).

Definition take_imm8 (l : list Z) : option (Z * list Z) := take_disp8 l.

Definition take_imm64 (l : list Z) : option (Z * list Z) :=
  if (8 <=? length l)%nat then Some (le_value (take 8 l), drop 8 l) else None.

(** One-byte opcodes. *)
Definition decode_1 (p : prefix) (o : Z) (l : list Z) : option (insn * list Z) :=
  let s := operand_size p in
  if (o <? 0x40) && (Z.land o 7 =? 3) then
    op ← arith_of (Z.shiftr o 3); '(reg, x, l) ← decode_modrm p l; r ← reg_operand reg;
    Some (Arith op s r x, l)
  else if (o <? 0x40) && (Z.land o 7 =? 1) then
    op ← arith_of (Z.shiftr o 3); '(reg, x, l) ← decode_modrm p l; r ← reg_operand reg;
    Some (Arith op s x r, l)
  else if Z.land o 0xF8 =? 0x50 then r ← reg_of (rex_b p) (Z.land o 7); Some (Push r, l)
  else if Z.land o 0xF8 =? 0x58 then r ← reg_of (rex_b p) (Z.land o 7); Some (Pop r, l)
  else if Z.land o 0xF8 =? 0xB8 then
    r ← reg_of (rex_b p) (Z.land o 7);
    if rex_w p then '(i, l) ← take_imm64 l; Some (MovI Size.S64 (R r) i, l)
    else '(i, l) ← take_disp32 l; Some (MovI Size.S32 (R r) i, l)
  else
    match o with
    | 0x63 => '(reg, x, l) ← decode_modrm p l; r ← Reg.from_u8 reg;
              Some (Movx true Size.S32 s r x, l)
    | 0x68 => '(i, l) ← take_disp32 l; Some (PushI i, l)
    | 0x6A => '(i, l) ← take_imm8 l; Some (PushI i, l)
    | 0x69 => '(reg, x, l) ← decode_modrm p l; r ← Reg.from_u8 reg; '(i, l) ← take_disp32 l;
              Some (Imul3 s r x i, l)
    | 0x6B => '(reg, x, l) ← decode_modrm p l; r ← Reg.from_u8 reg; '(i, l) ← take_imm8 l;
              Some (Imul3 s r x i, l)
    | 0x81 => '(reg, x, l) ← decode_modrm p l; op ← arith_of (Z.land reg 7); '(i, l) ← take_disp32 l;
              Some (ArithI op s x i, l)
    | 0x83 => '(reg, x, l) ← decode_modrm p l; op ← arith_of (Z.land reg 7); '(i, l) ← take_imm8 l;
              Some (ArithI op s x i, l)
    | 0x85 => '(reg, x, l) ← decode_modrm p l; r ← reg_operand reg; Some (Test s x r, l)
    | 0x87 => '(reg, x, l) ← decode_modrm p l; r ← Reg.from_u8 reg; Some (Xchg s x r, l)
    | 0x88 => '(reg, x, l) ← decode_modrm p l; r ← Reg.from_u8 reg;
              r ← byte_reg p r; x ← byte_operand p x; Some (Mov Size.S8 x r, l)
    | 0x89 => '(reg, x, l) ← decode_modrm p l; r ← reg_operand reg; Some (Mov s x r, l)
    | 0x8B => '(reg, x, l) ← decode_modrm p l; r ← reg_operand reg; Some (Mov s r x, l)
    | 0x8D => '(reg, x, l) ← decode_modrm p l; r ← Reg.from_u8 reg;
              match x with Mem a => Some (Lea s r a, l) | _ => None end
    | 0x90 => assert! negb (rex_b p); Some (Nop, l)
    | 0x99 => Some (SignExtA s, l)
    | 0xC1 => '(reg, x, l) ← decode_modrm p l; op ← shift_of (Z.land reg 7);
              match l with n :: l => Some (Shift op s x (Imm n), l) | [] => None end
    | 0xC3 => Some (Ret, l)
    | 0xC7 => '(reg, x, l) ← decode_modrm p l; assert! Z.land reg 7 =? 0; '(i, l) ← take_disp32 l;
              Some (MovI s x i, l)
    | 0xD1 => '(reg, x, l) ← decode_modrm p l; op ← shift_of (Z.land reg 7);
              Some (Shift op s x (Imm 1), l)
    | 0xD3 => '(reg, x, l) ← decode_modrm p l; op ← shift_of (Z.land reg 7); Some (Shift op s x CL, l)
    | 0xE8 => '(d, l) ← take_disp32 l; Some (Call d, l)
    | 0xE9 => '(d, l) ← take_disp32 l; Some (Jmp d, l)
    | 0xF6 => '(reg, x, l) ← decode_modrm p l; assert! Z.land reg 7 =? 0; x ← byte_operand p x;
              '(i, l) ← take_imm8 l; Some (TestI Size.S8 x i, l)
    | 0xF7 => '(reg, x, l) ← decode_modrm p l; op ← ext3_of (Z.land reg 7); Some (Grp3 op s x, l)
    | 0xF9 => Some (Stc, l)
    | 0xFF => '(reg, x, l) ← decode_modrm p l;
              match Z.land reg 7 with
              | 0 => Some (IncDec false s x, l)
              | 1 => Some (IncDec true s x, l)
              | 2 => Some (CallR x, l)
              | 4 => Some (JmpR x, l)
              | _ => None
              end
    | _ => None
    end.

(** Opcodes behind [0x0F]. *)
Definition decode_0f (p : prefix) (o : Z) (l : list Z) : option (insn * list Z) :=
  let s := operand_size p in
  if Z.land o 0xF0 =? 0x40 then
    c ← cond_of o; '(reg, x, l) ← decode_modrm p l; r ← Reg.from_u8 reg; Some (Cmov c s r x, l)
  else if Z.land o 0xF0 =? 0x80 then
    c ← cond_of o; '(d, l) ← take_disp32 l; Some (Jcc c d, l)
  else if Z.land o 0xF0 =? 0x90 then
    c ← cond_of o; '(reg, x, l) ← decode_modrm p l; x ← byte_operand p x; Some (Setcc c x, l)
  else if Z.land o 0xF8 =? 0xC8 then
    r ← reg_of (rex_b p) (Z.land o 7); Some (Bswap s r, l)
  else
    match o with
    | 0x0B => Some (Ud2, l)
    | 0x1F => '(_, _, l) ← decode_modrm p l; Some (Nop, l)
    | 0xA4 => '(reg, x, l) ← decode_modrm p l; r ← Reg.from_u8 reg;
              match l with n :: l => Some (Shld s x r n, l) | [] => None end
    | 0xAC => '(reg, x, l) ← decode_modrm p l; r ← Reg.from_u8 reg;
              match l with n :: l => Some (Shrd s x r n, l) | [] => None end
    | 0xAE => match l with 0xF0 :: l => Some (Mfence, l) | _ => None end
    | 0xAF => '(reg, x, l) ← decode_modrm p l; r ← Reg.from_u8 reg; Some (Imul2 s r x, l)
    | 0xB6 => '(reg, x, l) ← decode_modrm p l; r ← Reg.from_u8 reg; x ← byte_operand p x;
              Some (Movx false Size.S8 s r x, l)
    | 0xB7 => '(reg, x, l) ← decode_modrm p l; r ← Reg.from_u8 reg; Some (Movx false Size.S16 s r x, l)
    | 0xBE => '(reg, x, l) ← decode_modrm p l; r ← Reg.from_u8 reg; x ← byte_operand p x;
              Some (Movx true Size.S8 s r x, l)
    | 0xBF => '(reg, x, l) ← decode_modrm p l; r ← Reg.from_u8 reg; Some (Movx true Size.S16 s r x, l)
    | 0xB8 => assert! rep p =? 0xF3;
              '(reg, x, l) ← decode_modrm p l; r ← Reg.from_u8 reg; Some (Scan Popcnt s r x, l)
    | 0xBA => '(reg, x, l) ← decode_modrm p l; op ← grpbt_of (Z.land reg 7);
              match l with n :: l => Some (BitTest op s x n, l) | [] => None end
    | 0xBC => '(reg, x, l) ← decode_modrm p l; r ← Reg.from_u8 reg;
              Some (Scan (if rep p =? 0xF3 then Tzcnt else Bsf) s r x, l)
    | 0xBD => '(reg, x, l) ← decode_modrm p l; r ← Reg.from_u8 reg;
              Some (Scan (if rep p =? 0xF3 then Lzcnt else Bsr) s r x, l)
    | _ => None
    end.

(** The three-byte VEX prefix, for ANDN only. *)
Definition decode_vex (l : list Z) : option (insn * list Z) :=
  match l with
  | b1 :: b2 :: o :: l =>
      assert! Z.land b1 31 =? 2;
      assert! Z.land b2 7 =? 0;
      assert! o =? 0xF2;
      let p := mkPrefix false 0 true (Z.testbit b2 7) (negb (Z.testbit b1 7)) (negb (Z.testbit b1 6))
                 (negb (Z.testbit b1 5)) in
      '(reg, x, l) ← decode_modrm p l; r ← Reg.from_u8 reg;
      v ← Reg.from_u8 (15 - Z.land (Z.shiftr b2 3) 15);
      Some (Andn (operand_size p) r v x, l)
  | _ => None
  end.

(** The first instruction of [l] and what follows it. *)
Definition decode (l : list Z) : option (insn * list Z) :=
  let '(vex, l) := skip 0xC4 l in
  if vex then decode_vex l
  else
    let '(p, l) := decode_prefix l in
    let '(esc, l) := skip 0x0F l in
    match l with
    | o :: l => if esc then decode_0f p o l else decode_1 p o l
    | [] => None
    end.

(** ** Machine states *)

Module Flags.
Record t := mk { cf : bool; pf : bool; zf : bool; sf : bool; ovf : bool }.
End Flags.

Module Host.
Record t := mk { reg : Reg.t → Z; flags : Flags.t; mem : Z → Z }.

Definition set_reg (h : t) (r : Reg.t) (v : Z) : t :=
  mk (λ x, if bool_decide (x = r) then v else reg h x) (flags h) (mem h).
Definition set_flags (h : t) (f : Flags.t) : t := mk (reg h) f (mem h).

Definition load (h : t) (a : Z) (n : nat) : Z :=
  le_value (map (λ i, mem h (u64 (a + Z.of_nat i)) mod 256) (seq 0 n)).

(** The low [n] bytes of [v] at [a]. *)
Definition store (h : t) (a : Z) (n : nat) (v : Z) : t :=
  mk (reg h) (flags h)
    (λ y, let i := u64 (y - a) in
          if i <? Z.of_nat n then v / 2 ^ (8 * i) mod 256 else mem h y).

(** Registers hold 64 bits. *)
Definition wf (h : t) : Prop := ∀ r, in_width 64 (reg h r).
End Host.

(** ** Operands *)

Definition address (h : Host.t) (a : Addr.t) : Z :=
  u64 (Host.reg h (Addr.base a) +
       match Addr.index a with Some (x, s) => Host.reg h x * 2 ^ s | None => 0 end + Addr.disp a).

Definition read (s : Size.t) (h : Host.t) (x : operand) : Z :=
  match x with
  | R r => Host.reg h r mod 2 ^ Size.bits s
  | High r => Host.reg h r / 256 mod 256
  | Mem a => Host.load h (address h a) (Size.bytes s)
  end.

(** A 32-bit write clears the upper half of a register; 8- and 16-bit writes keep the rest. *)
Definition write_reg (s : Size.t) (h : Host.t) (r : Reg.t) (v : Z) : Host.t :=
  let old := Host.reg h r in
  Host.set_reg h r
    match s with
    | Size.S64 => v mod 2 ^ 64
    | Size.S32 => v mod 2 ^ 32
    | _ => old - old mod 2 ^ Size.bits s + v mod 2 ^ Size.bits s
    end.

Definition write (s : Size.t) (h : Host.t) (x : operand) (v : Z) : Host.t :=
  match x with
  | R r => write_reg s h r v
  | High r =>
      let old := Host.reg h r in
      Host.set_reg h r (old - old / 256 mod 256 * 256 + v mod 256 * 256)
  | Mem a => Host.store h (address h a) (Size.bytes s) v
  end.

(** ** Flags *)

Definition parity (r : Z) : bool :=
  Z.even (zlen (filter (λ i, Z.testbit r i = true) (seqZ 0 8))).

Definition result_flags (n : Z) (cf ovf : bool) (r : Z) : Flags.t :=
  Flags.mk cf (parity r) (r =? 0) (Z.testbit r (n - 1)) ovf.

Definition add_flags (n a b c : Z) : Flags.t :=
  let r := (a + b + c) mod 2 ^ n in
  result_flags n (2 ^ n <=? a + b + c)
    (negb (signed n a + signed n b + c =? signed n r)) r.

Definition sub_flags (n a b c : Z) : Flags.t :=
  let r := (a - b - c) mod 2 ^ n in
  result_flags n (a <? b + c) (negb (signed n a - signed n b - c =? signed n r)) r.

Definition logic_flags (n r : Z) : Flags.t := result_flags n false false r.

Definition cond_holds (c : X86Cond.t) (f : Flags.t) : bool :=
  match c with
  | X86Cond.Jo => Flags.ovf f
  | X86Cond.Jno => negb (Flags.ovf f)
  | X86Cond.Jb => Flags.cf f
  | X86Cond.Jae => negb (Flags.cf f)
  | X86Cond.Je => Flags.zf f
  | X86Cond.Jne => negb (Flags.zf f)
  | X86Cond.Jbe => Flags.cf f || Flags.zf f
  | X86Cond.Ja => negb (Flags.cf f || Flags.zf f)
  | X86Cond.Js => Flags.sf f
  | X86Cond.Jns => negb (Flags.sf f)
  | X86Cond.Jp => Flags.pf f
  | X86Cond.Jnp => negb (Flags.pf f)
  | X86Cond.Jl => xorb (Flags.sf f) (Flags.ovf f)
  | X86Cond.Jge => negb (xorb (Flags.sf f) (Flags.ovf f))
  | X86Cond.Jle => Flags.zf f || xorb (Flags.sf f) (Flags.ovf f)
  | X86Cond.Jg => negb (Flags.zf f || xorb (Flags.sf f) (Flags.ovf f))
  end.

(** ** Arithmetic *)

(** The result ([None] for CMP) and the flags. *)
Definition arith (op : ArithOp.t) (n a b : Z) (carry : bool) : option Z * Flags.t :=
  let c := if carry then 1 else 0 in
  match op with
  | ArithOp.Add => (Some ((a + b) mod 2 ^ n), add_flags n a b 0)
  | ArithOp.Adc => (Some ((a + b + c) mod 2 ^ n), add_flags n a b c)
  | ArithOp.Sub => (Some ((a - b) mod 2 ^ n), sub_flags n a b 0)
  | ArithOp.Sbb => (Some ((a - b - c) mod 2 ^ n), sub_flags n a b c)
  | ArithOp.Cmp => (None, sub_flags n a b 0)
  | ArithOp.And => (Some (Z.land a b), logic_flags n (Z.land a b))
  | ArithOp.Or => (Some (Z.lor a b), logic_flags n (Z.lor a b))
  | ArithOp.Xor => (Some (Z.lxor a b), logic_flags n (Z.lxor a b))
  end.

(** The count is taken modulo 64 for 64-bit operands and modulo 32 otherwise. *)
Definition shift_count (s : Size.t) (k : Z) : Z := k mod (if decide (s = Size.S64) then 64 else 32).

Definition shift (op : ShiftOp.t) (n a k : Z) : Z :=
  match op with
  | ShiftOp.Shl => (a * 2 ^ k) mod 2 ^ n
  | ShiftOp.Shr => a / 2 ^ k
  | ShiftOp.Sar => (signed n a / 2 ^ k) mod 2 ^ n
  | ShiftOp.Rol => let k := k mod n in (a * 2 ^ k) mod 2 ^ n + a / 2 ^ (n - k)
  | ShiftOp.Ror => let k := k mod n in a / 2 ^ k + (a * 2 ^ (n - k)) mod 2 ^ n
  end.

(** DIV and IDIV of [hi:lo]: quotient and remainder, unless the processor faults. *)
Definition divide (n hi lo d : Z) : option (Z * Z) :=
  let x := hi * 2 ^ n + lo in
  if d =? 0 then None
  else if x / d <? 2 ^ n then Some (x / d, x mod d) else None.

Definition sdivide (n hi lo d : Z) : option (Z * Z) :=
  let x := signed n hi * 2 ^ n + lo in
  let d := signed n d in
  if d =? 0 then None
  else
    let q := Z.quot x d in
    if (- 2 ^ (n - 1) <=? q) && (q <? 2 ^ (n - 1))
    then Some (q mod 2 ^ n, Z.rem x d mod 2 ^ n) else None.

Definition popcount (n a : Z) : Z := zlen (filter (λ i, Z.testbit a i = true) (seqZ 0 n)).
Definition trailing (n a : Z) : Z := default n (head (filter (λ i, Z.testbit a i = true) (seqZ 0 n))).
Definition leading (n a : Z) : Z :=
  default n (head (filter (λ i, Z.testbit a (n - 1 - i) = true) (seqZ 0 n))).

(** Bsf and Bsr leave the destination alone when the source is zero. *)
Definition scan_value (op : scan) (n old a : Z) : Z :=
  match op with
  | Popcnt => popcount n a
  | Tzcnt => trailing n a
  | Lzcnt => leading n a
  | Bsf => if a =? 0 then old else trailing n a
  | Bsr => if a =? 0 then old else n - 1 - leading n a
  end.

(** ** Execution *)

(** Where control goes: on, by a displacement from the next instruction, or to a host
    address. *)
Inductive next := Seq | Rel (d : Z) | Abs (a : Z) | CallRel (d : Z) | CallAbs (a : Z).

Section execution.
(** The flags an instruction leaves undefined. *)
Variable undef : insn → Host.t → Flags.t.

Definition push (h : Host.t) (v : Z) : Host.t :=
  let sp := u64 (Host.reg h Reg.Rsp - 8) in
  Host.store (Host.set_reg h Reg.Rsp sp) sp 8 v.

Definition pop (h : Host.t) : Z * Host.t :=
  let sp := Host.reg h Reg.Rsp in
  (Host.load h sp 8, Host.set_reg h Reg.Rsp (u64 (sp + 8))).

Definition put_arith (s : Size.t) (h : Host.t) (dst : operand) (r : option Z * Flags.t) : Host.t :=
  Host.set_flags (match r.1 with Some v => write s h dst v | None => h end) r.2.

Definition execute (i : insn) (h : Host.t) : option (Host.t * next) :=
  let seq h := Some (h, Seq) in
  let n s := Size.bits s in
  match i with
  | Arith op s dst src =>
      seq (put_arith s h dst (arith op (n s) (read s h dst) (read s h src) (Flags.cf (Host.flags h))))
  | ArithI op s dst imm =>
      seq (put_arith s h dst (arith op (n s) (read s h dst) (imm mod 2 ^ n s) (Flags.cf (Host.flags h))))
  | Test s a b => seq (Host.set_flags h (logic_flags (n s) (Z.land (read s h a) (read s h b))))
  | TestI s a imm => seq (Host.set_flags h (logic_flags (n s) (Z.land (read s h a) (imm mod 2 ^ n s))))
  | Grp3 Ext3Op.Not s x => seq (write s h x ((- read s h x - 1) mod 2 ^ n s))
  | Grp3 Ext3Op.Neg s x =>
      seq (Host.set_flags (write s h x ((- read s h x) mod 2 ^ n s)) (sub_flags (n s) 0 (read s h x) 0))
  | Grp3 Ext3Op.Mul s x =>
      let p := read s h (R Reg.Rax) * read s h x in
      seq (Host.set_flags (write_reg s (write_reg s h Reg.Rax (p mod 2 ^ n s)) Reg.Rdx (p / 2 ^ n s))
             (undef i h))
  | Grp3 Ext3Op.Imul s x =>
      let p := signed (n s) (read s h (R Reg.Rax)) * signed (n s) (read s h x) in
      seq (Host.set_flags
             (write_reg s (write_reg s h Reg.Rax (p mod 2 ^ n s)) Reg.Rdx (p / 2 ^ n s mod 2 ^ n s))
             (undef i h))
  | Grp3 Ext3Op.Div s x =>
      '(q, m) ← divide (n s) (read s h (R Reg.Rdx)) (read s h (R Reg.Rax)) (read s h x);
      seq (Host.set_flags (write_reg s (write_reg s h Reg.Rax q) Reg.Rdx m) (undef i h))
  | Grp3 Ext3Op.Idiv s x =>
      '(q, m) ← sdivide (n s) (read s h (R Reg.Rdx)) (read s h (R Reg.Rax)) (read s h x);
      seq (Host.set_flags (write_reg s (write_reg s h Reg.Rax q) Reg.Rdx m) (undef i h))
  | Imul2 s dst src =>
      seq (Host.set_flags (write_reg s h dst ((read s h (R dst) * read s h src) mod 2 ^ n s)) (undef i h))
  | Imul3 s dst src imm =>
      seq (Host.set_flags (write_reg s h dst ((read s h src * imm) mod 2 ^ n s)) (undef i h))
  | Shift op s dst k =>
      let k := match k with Imm k => k | CL => Host.reg h Reg.Rcx mod 256 end in
      seq (Host.set_flags (write s h dst (shift op (n s) (read s h dst) (shift_count s k))) (undef i h))
  | Shrd s dst src k =>
      let k := shift_count s k in
      seq (Host.set_flags
             (write s h dst ((read s h (R src) * 2 ^ n s + read s h dst) / 2 ^ k mod 2 ^ n s)) (undef i h))
  | Shld s dst src k =>
      let k := shift_count s k in
      seq (Host.set_flags
             (write s h dst ((read s h dst * 2 ^ n s + read s h (R src)) * 2 ^ k / 2 ^ n s mod 2 ^ n s))
             (undef i h))
  | Mov s dst src => seq (write s h dst (read s h src))
  | MovI s dst imm => seq (write s h dst (imm mod 2 ^ n s))
  | Movx sign from to dst src =>
      let v := read from h src in
      seq (write_reg to h dst ((if sign then signed (n from) v else v) mod 2 ^ n to))
  | Lea s dst a => seq (write_reg s h dst (address h a))
  | Bswap s r => seq (write_reg s h r (le_value (rev (le_bytes (Size.bytes s) (Host.reg h r)))))
  | Scan op s dst src =>
      seq (Host.set_flags (write_reg s h dst (scan_value op (n s) (read s h (R dst)) (read s h src)))
             (undef i h))
  | Andn s dst src1 src2 =>
      let v := Z.ldiff (read s h src2) (read s h (R src1)) in
      seq (Host.set_flags (write_reg s h dst v) (logic_flags (n s) v))
  | BitTest op s x k =>
      let k := k mod n s in
      let v := read s h x in
      let f := Host.flags h in
      let h' := match op with
                | GrpBtOp.Bt => h
                | GrpBtOp.Bts => write s h x (Z.lor v (2 ^ k))
                | GrpBtOp.Btr => write s h x (Z.ldiff v (2 ^ k))
                | GrpBtOp.Btc => write s h x (Z.lxor v (2 ^ k))
                end in
      seq (Host.set_flags h' (Flags.mk (Z.testbit v k) (Flags.pf f) (Flags.zf f) (Flags.sf f) (Flags.ovf f)))
  | Cmov c s dst src =>
      seq (write_reg s h dst (read s h (if cond_holds c (Host.flags h) then src else R dst)))
  | Setcc c dst => seq (write Size.S8 h dst (if cond_holds c (Host.flags h) then 1 else 0))
  | Xchg s x r => seq (write_reg s (write s h x (read s h (R r))) r (read s h x))
  | IncDec dec s x =>
      let a := read s h x in
      let d := if dec then -1 else 1 in
      let f := if dec then sub_flags (n s) a 1 0 else add_flags (n s) a 1 0 in
      seq (Host.set_flags (write s h x ((a + d) mod 2 ^ n s))
             (Flags.mk (Flags.cf (Host.flags h)) (Flags.pf f) (Flags.zf f) (Flags.sf f) (Flags.ovf f)))
  | SignExtA s =>
      let a := read s h (R Reg.Rax) in
      seq (write_reg s h Reg.Rdx (if Z.testbit a (n s - 1) then 2 ^ n s - 1 else 0))
  | Stc =>
      let f := Host.flags h in
      seq (Host.set_flags h (Flags.mk true (Flags.pf f) (Flags.zf f) (Flags.sf f) (Flags.ovf f)))
  | Push r => seq (push h (Host.reg h r))
  | PushI imm => seq (push h (u64 imm))
  | Pop r => let '(v, h) := pop h in seq (Host.set_reg h r v)
  | Jcc c d => Some (h, if cond_holds c (Host.flags h) then Rel d else Seq)
  | Jmp d => Some (h, Rel d)
  | Call d => Some (h, CallRel d)
  | JmpR x => Some (h, Abs (read Size.S64 h x))
  | CallR x => Some (h, CallAbs (read Size.S64 h x))
  | Ret => let '(v, h) := pop h in Some (h, Abs v)
  | Nop | Mfence => seq h
  | Ud2 => None
  end.
End execution.
