(* ===== verification/X86EmitSound.v ===== *)
(** * The emitters encode the instructions they name

    [encodes f i]: whatever buffer with room [f] is given, it appends bytes that
    decode to exactly the instruction [i], whatever follows them.  One lemma per
    emitter of X86Emit.v, for all registers, displacements and immediates. *)

From S2P Require Import Prelude Types CodeBuffer X86Regs X86Emit X86Isa.

(** ** Emitted bytes *)

Definition emits (f : CodeBuffer → option CodeBuffer) (bs : list Z) : Prop :=
  Forall (in_width 8) bs ∧ ∀ b, 0 ≤ offset b ≤ capacity b → f b = emit_bytes b bs.

Lemma emit_bytes_room b l b' :
  0 ≤ offset b ≤ capacity b → emit_bytes b l = Some b' → 0 ≤ offset b' ≤ capacity b'.
Proof.
  intros Hb. unfold emit_bytes, capacity in *. destruct (_ <=? _) eqn:E; [|done]. boolp. intros [= <-].
  cbn [mem offset]. pose proof (zlen_nonneg l). rewrite write_at_length; lia.
Qed.

Lemma emit_nothing b : 0 ≤ offset b ≤ capacity b → emit_bytes b [] = Some b.
Proof.
  intros Hb. pose proof (emit_u8s_bytes b [] Hb (Forall_nil_2 _)) as H. by rewrite <- H.
Qed.

Lemma emits_nil : emits Some [].
Proof. split; [constructor|]. intros b Hb. by rewrite emit_nothing. Qed.

Lemma emits_u8 v : emits (λ b, emit_u8 b v) [u8 v].
Proof. split; [apply (le_bytes_range 1)|]. intros b _. apply emit_as_bytes. Qed.

Lemma u8_u8 v : u8 (u8 v) = u8 v.
Proof. unfold u8. by rewrite Z.mod_mod. Qed.

Lemma emits_u8' v : emits (λ b, emit_u8 b (u8 v)) [u8 v].
Proof. pose proof (emits_u8 (u8 v)) as H. by rewrite u8_u8 in H. Qed.

Lemma emits_u32 v : emits (λ b, emit_u32 b v) (le_bytes 4 v).
Proof. split; [apply le_bytes_range|]. intros b _. apply emit_as_bytes. Qed.

Lemma emits_u64 v : emits (λ b, emit_u64 b v) (le_bytes 8 v).
Proof. split; [apply le_bytes_range|]. intros b _. apply emit_as_bytes. Qed.

Lemma emits_bind f g l1 l2 : emits f l1 → emits g l2 → emits (λ b, b ← f b; g b) (l1 ++ l2).
Proof.
  intros [H1 Hf] [H2 Hg]. split; [by apply Forall_app|]. intros b Hb.
  rewrite <- emit_bytes_app, Hf by lia. destruct (emit_bytes b l1) as [b'|] eqn:E; [|done].
  cbn [mbind option_bind]. apply Hg. by eapply emit_bytes_room.
Qed.

Lemma emits_if (c : bool) f g l1 l2 :
  emits f l1 → emits g l2 → emits (λ b, if c then f b else g b) (if c then l1 else l2).
Proof. by destruct c. Qed.

Lemma emits_ext f g l : (∀ b, f b = g b) → emits g l → emits f l.
Proof. intros He [? H]. split; [done|]. intros b Hb. by rewrite He, H. Qed.

(** ** Prefixes *)

Definition rex_value (w r x b forced : bool) : Z :=
  let v := (if w then 8 else 0) + (if r then 4 else 0) + (if x then 2 else 0) + (if b then 1 else 0) in
  if forced && (v =? 0) then 0x40 else v.

Definition rep_of (opc : Z) : Z := if has opc P_SIMDF3 then 0xF3 else if has opc P_SIMDF2 then 0xF2 else 0.

(** The escape bytes used by plain (not VEX) instructions: none or [0x0F]. *)
Definition escaped (opc : Z) : bool := has opc (Z.lor (Z.lor P_EXT P_EXT38) P_EXT3A).

Definition prefix_bytes (opc rex : Z) : list Z :=
  (if has opc P_DATA16 then [0x66] else []) ++
  (if has opc P_SIMDF3 then [0xF3] else if has opc P_SIMDF2 then [0xF2] else []) ++
  (if negb (rex =? 0) then [u8 (Z.lor 0x40 rex)] else []) ++
  (if escaped opc then [0x0F] else []) ++ [u8 (u8 opc)].

Lemma emits_prefixes opc rex :
  has opc P_EXT38 = false → has opc P_EXT3A = false →
  emits (λ b, emit_prefixes b opc rex) (prefix_bytes opc rex).
Proof.
  intros H38 H3a. unfold emit_prefixes, prefix_bytes, emit_when, escaped.
  apply emits_bind; [apply emits_if; [apply (emits_u8 0x66)|apply emits_nil]|].
  apply emits_bind; [apply emits_if; [apply (emits_u8 0xF3)|apply emits_if; [apply (emits_u8 0xF2)|apply emits_nil]]|].
  apply emits_bind; [apply emits_if; [apply emits_u8|apply emits_nil]|].
  apply emits_bind; [|apply emits_u8]. apply emits_if; [|apply emits_nil].
  rewrite H38, H3a. eapply emits_ext, (emits_u8 0x0F). intros b. by destruct (emit_u8 b 0x0F).
Qed.

(** The REX byte [emit_opc] and [emit_opc_3] compute. *)
Definition forces (opc r rm : Z) : bool :=
  (has opc P_REXB_R && (4 <=? r)) || (has opc P_REXB_RM && (4 <=? rm)).

Lemma emit_opc_rex b opc r rm :
  emit_opc b opc r rm =
    emit_prefixes b opc (rex_value (has opc P_REXW) (8 <=? r) false (8 <=? rm) (forces opc r rm)).
Proof.
  unfold emit_opc, force_rex, rex_value, forces. f_equal.
  destruct (has opc P_REXW), (8 <=? r), (8 <=? rm), (has opc P_REXB_R), (4 <=? r),
    (has opc P_REXB_RM), (4 <=? rm); reflexivity.
Qed.

Lemma emit_opc_3_rex b opc r rm index :
  emit_opc_3 b opc r rm index =
    emit_prefixes b opc (rex_value (has opc P_REXW) (8 <=? r) (8 <=? index) (8 <=? rm) (forces opc r rm)).
Proof.
  unfold emit_opc_3, force_rex, rex_value, forces. f_equal.
  destruct (has opc P_REXW), (8 <=? r), (8 <=? index), (8 <=? rm), (has opc P_REXB_R), (4 <=? r),
    (has opc P_REXB_RM), (4 <=? rm); reflexivity.
Qed.

(** What the decoder makes of them. *)
Definition prefix_of (opc : Z) (r x b forced : bool) : prefix :=
  let w := has opc P_REXW in
  mkPrefix (has opc P_DATA16) (rep_of opc) (negb (rex_value w r x b forced =? 0)) w r x b.

Definition decode_op (opc : Z) (p : prefix) (l : list Z) : option (insn * list Z) :=
  if escaped opc then decode_0f p (u8 opc) l else decode_1 p (u8 opc) l.

(** An opcode byte that is not taken for a prefix. *)
Definition plain_opcode (opc : Z) : bool :=
  negb (has opc P_EXT38) && negb (has opc P_EXT3A) &&
  negb (has opc P_SIMDF3 && has opc P_SIMDF2) &&
  (escaped opc ||
   negb (existsb (Z.eqb (u8 opc)) [0x66; 0xF3; 0xF2; 0xC4; 0x0F]) &&
   bool_decide (rex_of (u8 opc) = None)).

Lemma skip_ne x y l : y ≠ x → skip x (y :: l) = (false, y :: l).
Proof. intros. unfold skip. by rewrite (proj2 (Z.eqb_neq _ _)). Qed.

Lemma skip_eq x l : skip x (x :: l) = (true, l).
Proof. unfold skip. by rewrite Z.eqb_refl. Qed.

Ltac skips := repeat first [rewrite skip_eq; cbv beta iota | rewrite skip_ne by done; cbv beta iota].

Lemma rex_of_value w r x b forced :
  rex_value w r x b forced ≠ 0 →
  let v := u8 (Z.lor 0x40 (rex_value w r x b forced)) in
  rex_of v = Some v ∧ Z.testbit v 3 = w ∧ Z.testbit v 2 = r ∧ Z.testbit v 1 = x ∧ Z.testbit v 0 = b ∧
  v ≠ 0x66 ∧ v ≠ 0xF3 ∧ v ≠ 0xF2 ∧ v ≠ 0xC4.
Proof. destruct w, r, x, b, forced; intros H; (by split_and!) || by destruct H. Qed.

Lemma rex_value_zero w r x b forced :
  rex_value w r x b forced = 0 → w = false ∧ r = false ∧ x = false ∧ b = false.
Proof. by destruct w, r, x, b, forced. Qed.

Lemma decode_prefix_bytes opc r x b forced l :
  plain_opcode opc = true →
  let rex := rex_value (has opc P_REXW) r x b forced in
  decode (prefix_bytes opc rex ++ l) = decode_op opc (prefix_of opc r x b forced) l.
Proof.
  intros Hp rex. unfold plain_opcode in Hp. apply andb_true_iff in Hp as [Hp Hplain].
  apply andb_true_iff in Hp as [_ Hf].
  set (o := u8 opc) in *.
  assert (u8 (u8 opc) = o) as Ho by (unfold o, u8; by rewrite Z.mod_mod).
  set (tail := (if escaped opc then [0x0F] else []) ++ o :: l).
  assert (∃ y l', tail = y :: l' ∧ y ≠ 0x66 ∧ y ≠ 0xF3 ∧ y ≠ 0xF2 ∧ y ≠ 0xC4 ∧ rex_of y = None ∧
    (let '(esc, l) := skip 0x0F (y :: l') in
     match l with o :: l => λ p, if esc then decode_0f p o l else decode_1 p o l | [] => λ _, None end) =
    λ p, decode_op opc p l) as (y & l' & Ht & H66 & Hf3 & Hf2 & Hc4 & Hrex & Hd).
  { unfold tail, decode_op. fold o. destruct (escaped opc); [by exists 0x0F, (o :: l)|].
    cbn [orb] in Hplain. apply andb_true_iff in Hplain as [He Hr]. apply bool_decide_eq_true in Hr.
    cbn [existsb negb] in He. rewrite !negb_true_iff, !orb_false_iff, !Z.eqb_neq in He.
    destruct He as (? & ? & ? & ? & ? & _). exists o, l. rewrite skip_ne by done. by split_and!. }
  unfold decode, prefix_bytes. rewrite <- !(assoc app), Ho. cbn [app]. change ([o] ++ l) with (o :: l).
  fold tail. rewrite Ht.
  set (p := prefix_of opc r x b forced).
  assert (decode_prefix ((if has opc P_DATA16 then [0x66] else []) ++
    (if has opc P_SIMDF3 then [0xF3] else if has opc P_SIMDF2 then [0xF2] else []) ++
    (if negb (rex =? 0) then [u8 (Z.lor 0x40 rex)] else []) ++ y :: l') = (p, y :: l')) as Hpre.
  { unfold p, prefix_of, rep_of. fold rex. unfold decode_prefix.
    destruct (Z.eqb_spec rex 0) as [H0|H0]; cbn [negb app].
    - apply rex_value_zero in H0 as (Hw & -> & -> & ->). rewrite Hw.
      destruct (has opc P_DATA16), (has opc P_SIMDF3), (has opc P_SIMDF2); try done; cbn [app];
        skips; by rewrite Hrex.
    - pose proof (rex_of_value _ _ _ _ _ H0) as Hv. cbv zeta in Hv. fold rex in Hv.
      destruct Hv as (Hr & H3 & H2 & H1 & H00 & ? & ? & ? & ?).
      set (v := u8 (Z.lor 0x40 rex)) in *. clearbody v.
      destruct (has opc P_DATA16), (has opc P_SIMDF3), (has opc P_SIMDF2); try done; cbn [app];
        skips; by rewrite Hr, H3, H2, H1, H00. }
  match goal with |- context [skip 0xC4 ?l] => assert (skip 0xC4 l = (false, l)) as -> end.
  { destruct (has opc P_DATA16); [done|]. destruct (has opc P_SIMDF3); [done|].
    destruct (has opc P_SIMDF2); [done|]. cbn [app].
    destruct (Z.eqb_spec rex 0) as [H0|H0]; cbn [negb app]; apply skip_ne; [done|].
    by apply rex_of_value in H0 as (_ & _ & _ & _ & _ & _ & _ & _ & ?). }
  rewrite Hpre. apply (f_equal (λ f, f p)) in Hd. rewrite <- Hd.
  destruct (skip 0x0F (y :: l')) as [esc [|]]; done.
Qed.

(** ** Operands *)

Definition rr_byte (ext : Z) (rm : Reg.t) : Z := Z.lor (Z.lor 0xC0 (Z.shiftl ext 3)) (Reg.low3 rm).

Lemma decode_rr p r rm l :
  rex_r p = Reg.needs_rex r → rex_b p = Reg.needs_rex rm →
  decode_modrm p (u8 (rr_byte (Reg.low3 r) rm) :: l) = Some (Reg.discr r, R rm, l).
Proof. destruct p as [? ? ? ? pr ? pb]; cbn; intros -> ->. by destruct r, rm. Qed.

Lemma decode_ext p ext rm l :
  0 ≤ ext < 8 → rex_r p = false → rex_b p = Reg.needs_rex rm →
  decode_modrm p (u8 (rr_byte ext rm) :: l) = Some (ext, R rm, l).
Proof.
  destruct p as [? ? ? ? pr ? pb]; cbn; intros ? -> ->.
  assert (ext = 0 ∨ ext = 1 ∨ ext = 2 ∨ ext = 3 ∨ ext = 4 ∨ ext = 5 ∨ ext = 6 ∨ ext = 7) by lia.
  destruct_or?; subst; by destruct rm.
Qed.

(** The ModR/M byte, SIB byte and displacement of [[base + off]]. *)
Definition disp_bytes (b3 off : Z) : list Z :=
  if (off =? 0) && negb (b3 =? 5) then [] else if imm8 off then [u8 off] else le_bytes 4 (u32 off).

Definition mod_of (b3 off : Z) : Z :=
  if (off =? 0) && negb (b3 =? 5) then 0 else if imm8 off then 0x40 else 0x80.

Definition mem_bytes (r3 b3 off : Z) : list Z :=
  (if b3 =? 4 then [u8 (Z.lor (Z.lor (mod_of b3 off) (Z.shiftl r3 3)) 0x04); 0x24]
   else [u8 (Z.lor (Z.lor (mod_of b3 off) (Z.shiftl r3 3)) b3)]) ++ disp_bytes b3 off.

Lemma signed8_imm8 off : imm8 off = true → signed 8 (u8 off) = off.
Proof.
  unfold imm8. intros H. boolp. unfold u8. rewrite (signed_of_mod 8) by lia. apply signed_small; lia.
Qed.

Lemma take_disp32_bytes v l :
  take_disp32 (le_bytes 4 v ++ l) = Some (signed 32 v, l).
Proof.
  pose proof (le_value_bytes 4 v) as Hv. cbn [le_bytes app] in *. unfold take_disp32. rewrite Hv.
  by rewrite (signed_of_mod 32) by lia.
Qed.

Lemma take_disp8_byte v l : imm8 v = true → take_disp8 (u8 v :: l) = Some (v, l).
Proof. intros. unfold take_disp8. by rewrite signed8_imm8. Qed.

Lemma i32_disp off : - 2 ^ 31 ≤ off < 2 ^ 31 → signed 32 (u32 off) = off.
Proof. intros. apply i32_u32. lia. Qed.

Lemma emits_mem r3 b3 off :
  0 ≤ r3 < 8 → 0 ≤ b3 < 8 → emits (λ b, emit_mem_operand b r3 b3 off) (mem_bytes r3 b3 off).
Proof.
  intros Hr Hb. unfold emit_mem_operand, mem_bytes, disp_bytes, mod_of.
  assert (∀ m, Z.lor (Z.lor m (Z.shiftl r3 3)) 0x04 = Z.lor (Z.lor m 4) (Z.shiftl r3 3)) as Hlor.
  { intros m. rewrite <- !Z.lor_assoc. f_equal. apply Z.lor_comm. }
  destruct ((off =? 0) && negb (b3 =? 5)) eqn:E0; [|destruct (imm8 off) eqn:E8].
  - rewrite app_nil_r, !Z.lor_0_l. apply emits_if; [|apply emits_u8].
    eapply (emits_bind (λ b, emit_u8 b _) (λ b, emit_u8 b _) [_] [_]); [apply emits_u8|apply (emits_u8 0x24)].
  - apply emits_bind; [|apply emits_u8'].
    rewrite Hlor. apply emits_if; [|apply emits_u8].
    eapply (emits_bind (λ b, emit_u8 b _) (λ b, emit_u8 b _) [_] [_]); [apply emits_u8|apply (emits_u8 0x24)].
  - apply emits_bind; [|apply emits_u32].
    rewrite Hlor. apply emits_if; [|apply emits_u8].
    eapply (emits_bind (λ b, emit_u8 b _) (λ b, emit_u8 b _) [_] [_]); [apply emits_u8|apply (emits_u8 0x24)].
Qed.

(** The fields of a ModR/M byte. *)
Lemma modrm_fields m r3 b3 :
  m = 0 ∨ m = 0x40 ∨ m = 0x80 → 0 ≤ r3 < 8 → 0 ≤ b3 < 8 →
  let v := u8 (Z.lor (Z.lor m (Z.shiftl r3 3)) b3) in
  Z.shiftr v 6 = Z.shiftr m 6 ∧ Z.land v 7 = b3 ∧ Z.land (Z.shiftr v 3) 7 = r3.
Proof.
  intros Hm Hr Hb.
  assert (∀ x, 0 ≤ x < 8 → x = 0 ∨ x = 1 ∨ x = 2 ∨ x = 3 ∨ x = 4 ∨ x = 5 ∨ x = 6 ∨ x = 7) as H8
    by (intros; lia).
  apply H8 in Hr, Hb. destruct_or?; by subst.
Qed.

Lemma reg_of_base base b : b = Reg.needs_rex base → reg_of b (Reg.low3 base) = Some base.
Proof. intros ->. by destruct base. Qed.

Lemma low3_range r : 0 ≤ Reg.low3 r < 8.
Proof. destruct r; vm_compute; by split. Qed.

(** The displacement field is read back. *)
Lemma decode_disp b3 off l :
  - 2 ^ 31 ≤ off < 2 ^ 31 →
  (if Z.shiftr (mod_of b3 off) 6 =? 0 then Some (0, disp_bytes b3 off ++ l)
    else if Z.shiftr (mod_of b3 off) 6 =? 1 then take_disp8 (disp_bytes b3 off ++ l)
    else take_disp32 (disp_bytes b3 off ++ l)) = Some (off, l).
Proof.
  intros Hoff. unfold mod_of, disp_bytes. destruct (_ && _) eqn:E0; [|destruct (imm8 off) eqn:E8].
  - apply andb_true_iff in E0 as [E0 _]. boolp. by subst.
  - change (Z.shiftr 0x40 6) with 1. cbn [app Z.eqb Pos.eqb]. by rewrite take_disp8_byte.
  - change (Z.shiftr 0x80 6) with 2. cbn [Z.eqb Pos.eqb]. by rewrite take_disp32_bytes, i32_disp.
Qed.

Lemma mod_of_cases b3 off :
  (mod_of b3 off = 0 ∧ b3 ≠ 5) ∨ mod_of b3 off = 0x40 ∨ mod_of b3 off = 0x80.
Proof.
  unfold mod_of. destruct (_ =? 0), (Z.eqb_spec b3 5); cbn [negb andb]; destruct (imm8 off); tauto.
Qed.

Lemma mod_not_reg b3 off : (Z.shiftr (mod_of b3 off) 6 =? 3) = false.
Proof. by destruct (mod_of_cases b3 off) as [[-> _]|[-> | ->]]. Qed.

Lemma mod_base_ok b3 off : negb ((Z.shiftr (mod_of b3 off) 6 =? 0) && (b3 =? 5)) = true.
Proof.
  destruct (mod_of_cases b3 off) as [[-> H]|[-> | ->]]; try done. by rewrite (proj2 (Z.eqb_neq _ _) H).
Qed.

Lemma decode_mem p r3 base off l :
  0 ≤ r3 < 8 → rex_b p = Reg.needs_rex base → rex_x p = false → - 2 ^ 31 ≤ off < 2 ^ 31 →
  decode_modrm p (mem_bytes r3 (Reg.low3 base) off ++ l) =
    Some (high_bit (rex_r p) + r3, Mem (Addr.mk base None off), l).
Proof.
  intros Hr Hb Hx Hoff. pose proof (low3_range base) as Hl. unfold mem_bytes. rewrite <- (assoc app).
  set (tl := disp_bytes _ off ++ l).
  assert (mod_of (Reg.low3 base) off = 0 ∨ mod_of (Reg.low3 base) off = 0x40 ∨
    mod_of (Reg.low3 base) off = 0x80) as Hm by (pose proof (mod_of_cases (Reg.low3 base) off); tauto).
  pose proof (mod_base_ok (Reg.low3 base) off) as Hok.
  destruct (Z.eqb_spec (Reg.low3 base) 4) as [H4|H4]; cbn [app].
  - destruct (modrm_fields _ r3 4 Hm Hr ltac:(lia)) as (F1 & F2 & F3).
    unfold decode_modrm. rewrite F1, F2, F3, mod_not_reg. unfold decode_addr. change (4 =? 4) with true.
    cbv iota. change (Z.land 0x24 7) with 4. change (4 =? 5) with false.
    rewrite andb_false_r. cbn [negb].
    assert (reg_of (rex_b p) 4 = Some base) as -> by (rewrite <- H4; by apply reg_of_base).
    cbn [mbind option_bind]. rewrite Hx. change (high_bit false + Z.land (Z.shiftr 0x24 3) 7 =? 4) with true. cbn [mbind option_bind].
    unfold tl. by rewrite (decode_disp _ _ _ Hoff).
  - destruct (modrm_fields _ r3 _ Hm Hr Hl) as (F1 & F2 & F3).
    unfold decode_modrm. rewrite F1, F2, F3, mod_not_reg. unfold decode_addr.
    rewrite (proj2 (Z.eqb_neq _ _) H4), Hok, reg_of_base by done. cbn [mbind option_bind].
    unfold tl. by rewrite (decode_disp _ _ _ Hoff).
Qed.

(** The ModR/M byte, SIB byte and displacement of [[base + index * 2^shift + off]]. *)
Definition sib_bytes (r3 b3 x3 shift off : Z) : list Z :=
  [u8 (Z.lor (Z.lor (mod_of b3 off) (Z.shiftl r3 3)) 4);
   u8 (Z.lor (Z.lor (Z.shiftl shift 6) (Z.shiftl x3 3)) b3)] ++ disp_bytes b3 off.

Lemma sib_fields shift x3 b3 :
  0 ≤ shift < 4 → 0 ≤ x3 < 8 → 0 ≤ b3 < 8 →
  let v := u8 (Z.lor (Z.lor (Z.shiftl shift 6) (Z.shiftl x3 3)) b3) in
  Z.shiftr v 6 = shift ∧ Z.land v 7 = b3 ∧ Z.land (Z.shiftr v 3) 7 = x3.
Proof.
  intros Hs Hx Hb.
  assert (∀ x, 0 ≤ x < 8 → x = 0 ∨ x = 1 ∨ x = 2 ∨ x = 3 ∨ x = 4 ∨ x = 5 ∨ x = 6 ∨ x = 7) as H8
    by (intros; lia).
  assert (shift = 0 ∨ shift = 1 ∨ shift = 2 ∨ shift = 3) by lia.
  apply H8 in Hx, Hb. destruct_or?; by subst.
Qed.

Lemma index_of x b : x ≠ Reg.Rsp → b = Reg.needs_rex x →
  (high_bit b + Reg.low3 x =? 4) = false ∧ Reg.from_u8 (high_bit b + Reg.low3 x) = Some x.
Proof. intros Hx ->. by destruct x. Qed.

Lemma decode_sib p r3 base index shift off l :
  0 ≤ r3 < 8 → 0 ≤ shift < 4 → index ≠ Reg.Rsp →
  rex_b p = Reg.needs_rex base → rex_x p = Reg.needs_rex index → - 2 ^ 31 ≤ off < 2 ^ 31 →
  decode_modrm p (sib_bytes r3 (Reg.low3 base) (Reg.low3 index) shift off ++ l) =
    Some (high_bit (rex_r p) + r3, Mem (Addr.mk base (Some (index, shift)) off), l).
Proof.
  intros Hr Hs Hi Hb Hx Hoff. pose proof (low3_range base) as Hl. pose proof (low3_range index) as Hli.
  unfold sib_bytes. rewrite <- (assoc app). cbn [app].
  assert (mod_of (Reg.low3 base) off = 0 ∨ mod_of (Reg.low3 base) off = 0x40 ∨
    mod_of (Reg.low3 base) off = 0x80) as Hm by (pose proof (mod_of_cases (Reg.low3 base) off); tauto).
  destruct (modrm_fields _ r3 4 Hm Hr ltac:(lia)) as (F1 & F2 & F3).
  destruct (sib_fields _ _ _ Hs Hli Hl) as (S1 & S2 & S3).
  unfold decode_modrm. rewrite F1, F2, F3, mod_not_reg. unfold decode_addr.
  change (4 =? 4) with true. cbv iota. rewrite S1, S2, S3, mod_base_ok, reg_of_base by done.
  cbn [mbind option_bind]. destruct (index_of index (rex_x p) Hi Hx) as [-> ->]. cbn [mbind option_bind].
  by rewrite (decode_disp _ _ _ Hoff).
Qed.

(** ** Instructions *)

Definition encodes (f : CodeBuffer → option CodeBuffer) (i : insn) : Prop :=
  ∃ bs, emits f bs ∧ ∀ l, decode (bs ++ l) = Some (i, l).

Lemma emits_opc opc r rm :
  plain_opcode opc = true →
  emits (λ b, emit_opc b opc r rm)
    (prefix_bytes opc (rex_value (has opc P_REXW) (8 <=? r) false (8 <=? rm) (forces opc r rm))).
Proof.
  intros Hp. eapply emits_ext; [intros; apply emit_opc_rex|]. unfold plain_opcode in Hp.
  rewrite !andb_true_iff, !negb_true_iff in Hp. apply emits_prefixes; tauto.
Qed.

Lemma emits_opc_3 opc r rm x :
  plain_opcode opc = true →
  emits (λ b, emit_opc_3 b opc r rm x)
    (prefix_bytes opc (rex_value (has opc P_REXW) (8 <=? r) (8 <=? x) (8 <=? rm) (forces opc r rm))).
Proof.
  intros Hp. eapply emits_ext; [intros; apply emit_opc_3_rex|]. unfold plain_opcode in Hp.
  rewrite !andb_true_iff, !negb_true_iff in Hp. apply emits_prefixes; tauto.
Qed.

Definition prefix_rr (opc : Z) (r rm : Reg.t) : prefix :=
  prefix_of opc (Reg.needs_rex r) false (Reg.needs_rex rm) (forces opc (Reg.discr r) (Reg.discr rm)).

Definition prefix_ext (opc ext : Z) (rm : Reg.t) : prefix :=
  prefix_of opc (8 <=? ext) false (Reg.needs_rex rm) (forces opc ext (Reg.discr rm)).

Definition prefix_rrx (opc : Z) (r rm x : Reg.t) : prefix :=
  prefix_of opc (Reg.needs_rex r) (Reg.needs_rex x) (Reg.needs_rex rm)
    (forces opc (Reg.discr r) (Reg.discr rm)).

(** [f] emits the prefixes and the opcode [opc], and then the bytes [bs]. *)
Definition heads (f : CodeBuffer → option CodeBuffer) (opc : Z) (p : prefix) (bs : list Z) : Prop :=
  ∃ all, emits f all ∧ ∀ l, decode (all ++ l) = decode_op opc p (bs ++ l).

Lemma heads_encodes f opc p bs i :
  heads f opc p bs → (∀ l, decode_op opc p (bs ++ l) = Some (i, l)) → encodes f i.
Proof. intros (all & He & Hd) Hi. exists all. split; [done|]. intros l. by rewrite Hd. Qed.

Lemma heads_then f g opc p bs1 bs2 :
  heads f opc p bs1 → emits g bs2 → heads (λ b, b ← f b; g b) opc p (bs1 ++ bs2).
Proof.
  intros (all & He & Hd) Hg. exists (all ++ bs2). split; [by apply emits_bind|].
  intros l. by rewrite <- !(assoc app), Hd.
Qed.

Lemma heads_opc opc ext rm :
  plain_opcode opc = true →
  heads (λ b, emit_opc b opc ext (Reg.discr rm)) opc (prefix_ext opc ext rm) [].
Proof.
  intros Hp. eexists. split; [by apply emits_opc|]. intros l. by apply decode_prefix_bytes.
Qed.

Lemma heads_modrm opc r rm :
  plain_opcode opc = true →
  heads (λ b, emit_modrm b opc r rm) opc (prefix_rr opc r rm) [u8 (rr_byte (Reg.low3 r) rm)].
Proof.
  intros Hp. unfold emit_modrm. apply (heads_then _ _ _ _ []); [|apply emits_u8].
  eexists. split; [by apply emits_opc|]. intros l. by apply decode_prefix_bytes.
Qed.

Lemma heads_ext opc ext rm :
  plain_opcode opc = true →
  heads (λ b, emit_modrm_ext b opc ext rm) opc (prefix_ext opc ext rm) [u8 (rr_byte ext rm)].
Proof.
  intros Hp. unfold emit_modrm_ext. apply (heads_then _ _ _ _ []); [by apply heads_opc|apply emits_u8].
Qed.

Lemma heads_offset opc r base off :
  plain_opcode opc = true →
  heads (λ b, emit_modrm_offset b opc r base off) opc (prefix_rr opc r base)
    (mem_bytes (Reg.low3 r) (Reg.low3 base) off).
Proof.
  intros Hp. unfold emit_modrm_offset. apply (heads_then _ _ _ _ []);
    [|apply emits_mem; apply low3_range].
  eexists. split; [by apply emits_opc|]. intros l. by apply decode_prefix_bytes.
Qed.

Lemma heads_ext_offset opc ext base off :
  plain_opcode opc = true → 0 ≤ ext < 8 →
  heads (λ b, emit_modrm_ext_offset b opc ext base off) opc (prefix_ext opc ext base)
    (mem_bytes ext (Reg.low3 base) off).
Proof.
  intros Hp He. unfold emit_modrm_ext_offset. apply (heads_then _ _ _ _ []);
    [by apply heads_opc|apply emits_mem; [done|apply low3_range]].
Qed.

Lemma heads_sib opc r base x shift off :
  plain_opcode opc = true → 0 ≤ shift < 4 → x ≠ Reg.Rsp →
  heads (λ b, emit_modrm_sib b opc r base x shift off) opc (prefix_rrx opc r base x)
    (sib_bytes (Reg.low3 r) (Reg.low3 base) (Reg.low3 x) shift off).
Proof.
  intros Hp Hs Hx.
  assert (∀ m, Z.lor (Z.lor m (Z.shiftl (Reg.low3 r) 3)) 4 = Z.lor (Z.lor m 4) (Z.shiftl (Reg.low3 r) 3))
    as Hlor by (intros m; rewrite <- !Z.lor_assoc; f_equal; apply Z.lor_comm).
  eexists. split.
  { eapply emits_ext.
    { intros b. unfold emit_modrm_sib. rewrite (proj2 (Z.leb_le _ _)), bool_decide_false by (done || lia).
      reflexivity. }
    apply emits_bind; [by apply emits_opc_3|].
    instantiate (1 := sib_bytes (Reg.low3 r) (Reg.low3 base) (Reg.low3 x) shift off).
    unfold sib_bytes, mod_of, disp_bytes. destruct (_ && _) eqn:E0; [|destruct (imm8 off) eqn:E8].
    - rewrite Z.lor_0_l. apply (emits_bind _ (λ b, emit_u8 b _) [_] [_]); apply emits_u8.
    - rewrite Hlor. apply (emits_bind _ _ [_] [_; _]); [apply emits_u8|].
      apply (emits_bind _ (λ b, emit_u8 b _) [_] [_]); [apply emits_u8|apply emits_u8'].
    - rewrite Hlor. apply (emits_bind _ _ [_] (_ :: le_bytes 4 _)); [apply emits_u8|].
      apply (emits_bind _ (λ b, emit_u32 b _) [_]); [apply emits_u8|apply emits_u32]. }
  intros l. rewrite <- (assoc app). by apply decode_prefix_bytes.
Qed.

(** Runs the decoder behind a concrete opcode. *)
Ltac decode_opcode :=
  cbn [app]; unfold decode_op;
  lazymatch goal with
  | |- context [if escaped ?o then _ else _] =>
      let v := eval vm_compute in (escaped o) in change (escaped o) with v;
      let u := eval vm_compute in (u8 o) in change (u8 o) with u
  end; cbv iota; unfold decode_1, decode_0f; cbv beta zeta;
  repeat match goal with
  | |- context [Z.land ?a ?b =? ?c] =>
      let v := eval vm_compute in (Z.land a b =? c) in
      lazymatch v with true => idtac | false => idtac end; change (Z.land a b =? c) with v
  end;
  cbn -[decode_modrm operand_size rr_byte mem_bytes sib_bytes take_disp32 take_imm8 take_imm64 le_bytes
        byte_reg byte_operand prefix_rr prefix_rrx prefix_ext u8 reg_of high_bit rep app Reg.discr].

Ltac opcode_ok := by vm_compute.

Definition size_of (rexw : bool) : Size.t := if rexw then Size.S64 else Size.S32.

Lemma reg_from_low r : Reg.from_u8 (high_bit (Reg.needs_rex r) + Reg.low3 r) = Some r.
Proof. by destruct r. Qed.

Lemma take_imm8_byte v l : imm8 v = true → take_imm8 (u8 v :: l) = Some (v, l).
Proof. apply take_disp8_byte. Qed.

Lemma u8_small v : in_width 8 v → u8 v = v.
Proof. intros. by apply Z.mod_small. Qed.

(** The operand bytes of each form, once the opcode is known. *)
Ltac finish_decode :=
  cbn [mbind option_bind]; unfold reg_operand;
  repeat match goal with
  | |- context [rex_r (prefix_rr ?o ?r ?m)] => change (rex_r (prefix_rr o r m)) with (Reg.needs_rex r)
  | |- context [rex_r (prefix_rrx ?o ?r ?m ?x)] =>
      change (rex_r (prefix_rrx o r m x)) with (Reg.needs_rex r)
  end;
  rewrite ?reg_from_discr, ?reg_from_low; cbn [mbind option_bind]; try done.

Ltac encode_rr :=
  eapply heads_encodes; [apply heads_modrm; opcode_ok|]; intros l; decode_opcode;
  rewrite decode_rr by done; finish_decode.

Ltac encode_ext :=
  eapply heads_encodes; [apply heads_ext; opcode_ok|]; intros l; decode_opcode;
  rewrite decode_ext by done; finish_decode.

Ltac encode_mem :=
  eapply heads_encodes; [apply heads_offset; opcode_ok|]; intros l; decode_opcode;
  rewrite decode_mem by (done || apply low3_range); finish_decode.

Ltac encode_sib :=
  eapply heads_encodes; [apply heads_sib; [opcode_ok|lia|done]|]; intros l; decode_opcode;
  rewrite decode_sib by (done || lia || apply low3_range); finish_decode.

Ltac encode_rr_then tail :=
  eapply heads_encodes; [apply heads_then; [apply heads_modrm; opcode_ok|apply tail]|]; intros l;
  decode_opcode; rewrite decode_rr by done; finish_decode.

Ltac encode_ext_then tail :=
  eapply heads_encodes; [apply heads_then; [apply heads_ext; opcode_ok|apply tail]|]; intros l;
  decode_opcode; rewrite decode_ext by done; finish_decode.

(** A 32-bit displacement or immediate. *)
Definition is_i32 (v : Z) : Prop := - 2 ^ 31 ≤ v < 2 ^ 31.

Lemma enc_arith_rr op w d s : encodes (λ b, emit_arith_rr b op w d s) (Arith op (size_of w) (R d) (R s)).
Proof. destruct op, w; encode_rr. Qed.

Lemma enc_arith_ri op w d imm :
  is_i32 imm → encodes (λ b, emit_arith_ri b op w d imm) (ArithI op (size_of w) (R d) imm).
Proof.
  intros Hi. unfold emit_arith_ri. destruct (imm8 imm) eqn:E8.
  - destruct op, w; encode_ext_then emits_u8'; by rewrite take_imm8_byte.
  - destruct op, w; encode_ext_then emits_u32; by rewrite take_disp32_bytes, i32_disp.
Qed.

Lemma enc_arith_mr op w base off s :
  is_i32 off →
  encodes (λ b, emit_arith_mr b op w base off s) (Arith op (size_of w) (Mem (Addr.mk base None off)) (R s)).
Proof. intros. destruct op, w; encode_mem. Qed.

Lemma enc_arith_rm op w d base off :
  is_i32 off →
  encodes (λ b, emit_arith_rm b op w d base off) (Arith op (size_of w) (R d) (Mem (Addr.mk base None off))).
Proof. intros. destruct op, w; encode_mem. Qed.

Lemma enc_neg w r : encodes (λ b, emit_neg b w r) (Grp3 Ext3Op.Neg (size_of w) (R r)).
Proof. destruct w; encode_ext. Qed.

Lemma enc_not w r : encodes (λ b, emit_not b w r) (Grp3 Ext3Op.Not (size_of w) (R r)).
Proof. destruct w; encode_ext. Qed.

Lemma enc_mul w r : encodes (λ b, emit_mul b w r) (Grp3 Ext3Op.Mul (size_of w) (R r)).
Proof. destruct w; encode_ext. Qed.

Lemma enc_imul1 w r : encodes (λ b, emit_imul1 b w r) (Grp3 Ext3Op.Imul (size_of w) (R r)).
Proof. destruct w; encode_ext. Qed.

Lemma enc_div w r : encodes (λ b, emit_div b w r) (Grp3 Ext3Op.Div (size_of w) (R r)).
Proof. destruct w; encode_ext. Qed.

Lemma enc_idiv w r : encodes (λ b, emit_idiv b w r) (Grp3 Ext3Op.Idiv (size_of w) (R r)).
Proof. destruct w; encode_ext. Qed.

Lemma enc_shift_ri op w d n :
  in_width 8 n → encodes (λ b, emit_shift_ri b op w d n) (Shift op (size_of w) (R d) (Imm n)).
Proof.
  intros Hn. unfold emit_shift_ri. destruct (Z.eqb_spec n 1) as [->|].
  - destruct op, w; encode_ext.
  - destruct op, w; encode_ext_then emits_u8; by rewrite u8_small.
Qed.

Lemma enc_shift_cl op w d : encodes (λ b, emit_shift_cl b op w d) (Shift op (size_of w) (R d) CL).
Proof. destruct op, w; encode_ext. Qed.

Lemma enc_mov_rr w d s : encodes (λ b, emit_mov_rr b w d s) (Mov (size_of w) (R d) (R s)).
Proof. destruct w; encode_rr. Qed.

Lemma enc_load w d base off :
  is_i32 off → encodes (λ b, emit_load b w d base off) (Mov (size_of w) (R d) (Mem (Addr.mk base None off))).
Proof. intros. destruct w; encode_mem. Qed.

Lemma enc_store w s base off :
  is_i32 off → encodes (λ b, emit_store b w s base off) (Mov (size_of w) (Mem (Addr.mk base None off)) (R s)).
Proof. intros. destruct w; encode_mem. Qed.

Lemma enc_lea w d base off :
  is_i32 off → encodes (λ b, emit_lea b w d base off) (Lea (size_of w) d (Addr.mk base None off)).
Proof. intros. destruct w; encode_mem. Qed.

Lemma enc_lea_sib w d base x sh off :
  is_i32 off → 0 ≤ sh < 4 → x ≠ Reg.Rsp →
  encodes (λ b, emit_lea_sib b w d base x sh off) (Lea (size_of w) d (Addr.mk base (Some (x, sh)) off)).
Proof. intros. destruct w; encode_sib. Qed.

Lemma enc_load_sib w d base x sh off :
  is_i32 off → 0 ≤ sh < 4 → x ≠ Reg.Rsp →
  encodes (λ b, emit_load_sib b w d base x sh off)
    (Mov (size_of w) (R d) (Mem (Addr.mk base (Some (x, sh)) off))).
Proof. intros. destruct w; encode_sib. Qed.

Lemma enc_store_sib w s base x sh off :
  is_i32 off → 0 ≤ sh < 4 → x ≠ Reg.Rsp →
  encodes (λ b, emit_store_sib b w s base x sh off)
    (Mov (size_of w) (Mem (Addr.mk base (Some (x, sh)) off)) (R s)).
Proof. intros. destruct w; encode_sib. Qed.

Lemma enc_imul_rr w d s : encodes (λ b, emit_imul_rr b w d s) (Imul2 (size_of w) d (R s)).
Proof. destruct w; encode_rr. Qed.

Lemma enc_imul_ri w d s imm :
  is_i32 imm → encodes (λ b, emit_imul_ri b w d s imm) (Imul3 (size_of w) d (R s) imm).
Proof.
  intros Hi. unfold emit_imul_ri. destruct (imm8 imm) eqn:E8.
  - destruct w; encode_rr_then emits_u8'; by rewrite take_imm8_byte.
  - destruct w; encode_rr_then emits_u32; by rewrite take_disp32_bytes, i32_disp.
Qed.

Lemma enc_test_rr w a c : encodes (λ b, emit_test_rr b w a c) (Test (size_of w) (R c) (R a)).
Proof. destruct w; encode_rr. Qed.

Lemma enc_cmovcc c w d s : encodes (λ b, emit_cmovcc b c w d s) (Cmov c (size_of w) d (R s)).
Proof. destruct c, w; encode_rr. Qed.

Lemma enc_xchg w x y : encodes (λ b, emit_xchg b w x y) (Xchg (size_of w) (R y) x).
Proof. destruct w; encode_rr. Qed.

Lemma enc_inc w r : encodes (λ b, emit_inc b w r) (IncDec false (size_of w) (R r)).
Proof. destruct w; encode_ext. Qed.

Lemma enc_dec w r : encodes (λ b, emit_dec b w r) (IncDec true (size_of w) (R r)).
Proof. destruct w; encode_ext. Qed.

Lemma enc_jmp_reg r : encodes (λ b, emit_jmp_reg b r) (JmpR (R r)).
Proof. encode_ext. Qed.

Lemma enc_call_reg r : encodes (λ b, emit_call_reg b r) (CallR (R r)).
Proof. encode_ext. Qed.

Lemma enc_shld_ri w d s n :
  in_width 8 n → encodes (λ b, emit_shld_ri b w d s n) (Shld (size_of w) (R d) s n).
Proof. intros Hn. destruct w; encode_rr_then emits_u8; by rewrite u8_small. Qed.

Lemma enc_shrd_ri w d s n :
  in_width 8 n → encodes (λ b, emit_shrd_ri b w d s n) (Shrd (size_of w) (R d) s n).
Proof. intros Hn. destruct w; encode_rr_then emits_u8; by rewrite u8_small. Qed.

Lemma enc_rolw_8 r : encodes (λ b, emit_rolw_8 b r) (Shift ShiftOp.Rol Size.S16 (R r) (Imm 8)).
Proof. encode_ext_then emits_u8. Qed.

Lemma enc_bt op emit w r n :
  (op, emit) ∈ [(GrpBtOp.Bt, emit_bt_ri); (GrpBtOp.Bts, emit_bts_ri);
                (GrpBtOp.Btr, emit_btr_ri); (GrpBtOp.Btc, emit_btc_ri)] →
  in_width 8 n → encodes (λ b, emit b w r n) (BitTest op (size_of w) (R r) n).
Proof.
  intros He Hn. rewrite !elem_of_cons, elem_of_nil in He. destruct_or?; simplify_eq;
    destruct w; encode_ext_then emits_u8; by rewrite u8_small.
Qed.

Lemma enc_scan op emit w d s :
  (op, emit) ∈ [(Bsf, emit_bsf); (Bsr, emit_bsr); (Lzcnt, emit_lzcnt); (Tzcnt, emit_tzcnt);
                (Popcnt, emit_popcnt)] →
  encodes (λ b, emit b w d s) (Scan op (size_of w) d (R s)).
Proof.
  intros He. rewrite !elem_of_cons, elem_of_nil in He. destruct_or?; simplify_eq;
    destruct w; encode_rr.
Qed.

(** ** Immediate moves *)

(** The four forms of [mov reg, imm]. *)
Definition mov_ri_insn (w : bool) (r : Reg.t) (v : Z) : insn :=
  if v =? 0 then Arith ArithOp.Xor Size.S32 (R r) (R r)
  else if negb w || (v <=? 2 ^ 32 - 1) then MovI Size.S32 (R r) (signed 32 v)
  else if (- 2 ^ 31 <=? i64 v) && (i64 v <=? 2 ^ 31 - 1) then MovI Size.S64 (R r) (signed 32 v)
  else MovI Size.S64 (R r) v.

Lemma signed_u32 v : signed 32 (u32 v) = signed 32 v.
Proof. unfold u32. by rewrite (signed_of_mod 32). Qed.

Lemma reg_of_low r : reg_of (Reg.needs_rex r) (Reg.low3 r) = Some r.
Proof. by destruct r. Qed.

Lemma take_imm64_bytes v l : in_width 64 v → take_imm64 (le_bytes 8 v ++ l) = Some (v, l).
Proof.
  intros Hv. unfold take_imm64. rewrite (proj2 (Nat.leb_le _ _)) by (rewrite length_app; cbn; lia).
  rewrite take_app_length', drop_app_length' by done. rewrite (le_value_bytes 8).
  do 2 f_equal. by apply Z.mod_small.
Qed.

(** The opcodes that carry a register in their low bits. *)
Lemma low_opcode base r : (base = 0xB8 ∨ base = 0x50 ∨ base = 0x58) →
  plain_opcode (base + Reg.low3 r) = true ∧ plain_opcode (Z.lor (base + Reg.low3 r) P_REXW) = true ∧
  u8 (base + Reg.low3 r) = base + Reg.low3 r ∧ u8 (Z.lor (base + Reg.low3 r) P_REXW) = base + Reg.low3 r ∧
  escaped (base + Reg.low3 r) = false ∧ escaped (Z.lor (base + Reg.low3 r) P_REXW) = false ∧
  has (base + Reg.low3 r) P_REXW = false ∧ has (Z.lor (base + Reg.low3 r) P_REXW) P_REXW = true.
Proof. intros [-> | [-> | ->]]; by destruct r. Qed.

Lemma decode_low p base r l :
  rex_b p = Reg.needs_rex r →
  (base = 0x50 → decode_1 p (base + Reg.low3 r) l = Some (Push r, l)) ∧
  (base = 0x58 → decode_1 p (base + Reg.low3 r) l = Some (Pop r, l)) ∧
  (base = 0xB8 → rex_w p = true →
     decode_1 p (base + Reg.low3 r) l = '(i, l) ← take_imm64 l; Some (MovI Size.S64 (R r) i, l)) ∧
  (base = 0xB8 → rex_w p = false →
     decode_1 p (base + Reg.low3 r) l = '(i, l) ← take_disp32 l; Some (MovI Size.S32 (R r) i, l)).
Proof.
  destruct p as [? ? ? pw ? ? pb]; cbn [rex_b rex_w]. intros ->.
  split_and!; intros ->; [| |intros ->..]; by destruct r.
Qed.

Lemma enc_mov_ri w r v : in_width 64 v → encodes (λ b, emit_mov_ri b w r v) (mov_ri_insn w r v).
Proof.
  intros Hv. unfold emit_mov_ri, mov_ri_insn. destruct (v =? 0); [encode_rr|].
  destruct (low_opcode 0xB8 r ltac:(tauto)) as (P1 & P2 & U1 & U2 & E1 & E2 & W1 & W2).
  change 0xB8 with OPC_MOVL_Iv in *.
  destruct (negb w || _); [|destruct (_ && _)].
  - eapply heads_encodes; [apply heads_then; [by apply heads_opc|apply emits_u32]|]. intros l.
    unfold decode_op. rewrite E1, U1.
    destruct (decode_low (prefix_ext (OPC_MOVL_Iv + Reg.low3 r) 0 r) OPC_MOVL_Iv r ([] ++ le_bytes 4 (u32 v) ++ l))
      as (_ & _ & _ & D); [done|]. cbn [app] in D |- *. rewrite D by done.
    rewrite take_disp32_bytes. cbn [mbind option_bind]. by rewrite signed_u32.
  - encode_ext_then emits_u32. rewrite take_disp32_bytes. cbn [mbind option_bind]. by rewrite signed_u32.
  - eapply heads_encodes; [apply heads_then; [by apply heads_opc|apply emits_u64]|]. intros l.
    unfold decode_op. rewrite E2, U2.
    destruct (decode_low (prefix_ext (Z.lor (OPC_MOVL_Iv + Reg.low3 r) P_REXW) 0 r) OPC_MOVL_Iv r
      ([] ++ le_bytes 8 v ++ l)) as (_ & _ & D & _); [done|]. cbn [app] in D |- *. rewrite D by done.
    by rewrite take_imm64_bytes.
Qed.

Lemma heads_only f opc p i :
  heads f opc p [] → (∀ l, decode_op opc p l = Some (i, l)) → encodes f i.
Proof. intros. by eapply heads_encodes. Qed.

Lemma enc_push r : encodes (λ b, emit_push b r) (Push r).
Proof.
  destruct (low_opcode 0x50 r ltac:(tauto)) as (P1 & _ & U1 & _ & E1 & _).
  eapply heads_only; [by apply heads_opc|]. intros l. unfold decode_op.
  change OPC_PUSH_r32 with 0x50. rewrite E1, U1. by apply decode_low.
Qed.

Lemma enc_pop r : encodes (λ b, emit_pop b r) (Pop r).
Proof.
  destruct (low_opcode 0x58 r ltac:(tauto)) as (P1 & _ & U1 & _ & E1 & _).
  eapply heads_only; [by apply heads_opc|]. intros l. unfold decode_op.
  change OPC_POP_r32 with 0x58. rewrite E1, U1. by apply decode_low.
Qed.

Lemma enc_bswap w r : encodes (λ b, emit_bswap b w r) (Bswap (size_of w) r).
Proof.
  unfold emit_bswap. eapply heads_only; [apply heads_opc; by destruct w, r|].
  intros l. by destruct w, r.
Qed.

(** ** Moves with extension, bytes and words *)

(** The byte register an unforced operand names: [dh] and the like when there is no REX. *)
Definition byte_source (d s : Reg.t) : operand :=
  if Reg.needs_rex d || Reg.needs_rex s || (Reg.discr s <? 4) then R s
  else match Reg.from_u8 (Reg.discr s - 4) with Some h => High h | None => R s end.

Lemma byte_reg_forced opc d s :
  has opc P_REXB_RM = true → byte_reg (prefix_rr opc d s) s = Some (R s).
Proof.
  intros H. unfold byte_reg, prefix_rr, prefix_of, forces. rewrite H. cbn [has_rex].
  destruct (has opc P_REXW), (has opc P_REXB_R); by destruct d, s.
Qed.

Lemma byte_reg_unforced opc d s :
  has opc P_REXB_RM = false → has opc P_REXB_R = false → has opc P_REXW = false →
  byte_reg (prefix_rr opc d s) s = Some (byte_source d s).
Proof.
  intros H1 H2 H3. unfold byte_reg, prefix_rr, prefix_of, forces. rewrite H1, H2, H3. cbn [has_rex].
  by destruct d, s.
Qed.

Lemma byte_reg_wide opc d s :
  has opc P_REXW = true → byte_reg (prefix_rr opc d s) s = Some (R s).
Proof.
  intros H. unfold byte_reg, prefix_rr, prefix_of, forces. rewrite H. cbn [has_rex].
  destruct (has opc P_REXB_RM), (has opc P_REXB_R); by destruct d, s.
Qed.

Lemma enc_movzbl_forced d s :
  encodes (λ b, emit_movzx b (Z.lor OPC_MOVZBL P_REXB_RM) d s) (Movx false Size.S8 Size.S32 d (R s)).
Proof. encode_rr. unfold byte_operand. by rewrite byte_reg_forced. Qed.

Lemma enc_movzbl d s :
  encodes (λ b, emit_movzx b OPC_MOVZBL d s) (Movx false Size.S8 Size.S32 d (byte_source d s)).
Proof. encode_rr. unfold byte_operand. by rewrite byte_reg_unforced. Qed.

Lemma enc_movzwl d s : encodes (λ b, emit_movzx b OPC_MOVZWL d s) (Movx false Size.S16 Size.S32 d (R s)).
Proof. encode_rr. Qed.

Lemma enc_movsbl d s :
  encodes (λ b, emit_movsx b OPC_MOVSBL d s) (Movx true Size.S8 Size.S32 d (byte_source d s)).
Proof. encode_rr. unfold byte_operand. by rewrite byte_reg_unforced. Qed.

Lemma enc_movsbq d s :
  encodes (λ b, emit_movsx b (Z.lor OPC_MOVSBL P_REXW) d s) (Movx true Size.S8 Size.S64 d (R s)).
Proof. encode_rr. unfold byte_operand. by rewrite byte_reg_wide. Qed.

Lemma enc_movswl d s : encodes (λ b, emit_movsx b OPC_MOVSWL d s) (Movx true Size.S16 Size.S32 d (R s)).
Proof. encode_rr. Qed.

Lemma enc_movswq d s :
  encodes (λ b, emit_movsx b (Z.lor OPC_MOVSWL P_REXW) d s) (Movx true Size.S16 Size.S64 d (R s)).
Proof. encode_rr. Qed.

Lemma enc_movslq d s : encodes (λ b, emit_movsx b OPC_MOVSLQ d s) (Movx true Size.S32 Size.S64 d (R s)).
Proof. encode_rr. Qed.

(** The opcodes of the loads with extension, and what they load. *)
Definition load_opcodes : list (Z * (bool * Size.t * Size.t)) :=
  [(OPC_MOVZBL, (false, Size.S8, Size.S32)); (OPC_MOVZWL, (false, Size.S16, Size.S32));
   (OPC_MOVSBL, (true, Size.S8, Size.S32)); (Z.lor OPC_MOVSBL P_REXW, (true, Size.S8, Size.S64));
   (OPC_MOVSWL, (true, Size.S16, Size.S32)); (Z.lor OPC_MOVSWL P_REXW, (true, Size.S16, Size.S64));
   (OPC_MOVSLQ, (true, Size.S32, Size.S64))].

Lemma enc_load_x opc sg from to d base off :
  (opc, (sg, from, to)) ∈ load_opcodes → is_i32 off →
  encodes (λ b, emit_load_zx b opc d base off) (Movx sg from to d (Mem (Addr.mk base None off))).
Proof.
  intros He Hoff. unfold load_opcodes in He. rewrite !elem_of_cons, elem_of_nil in He.
  destruct_or?; simplify_eq; encode_mem.
Qed.

Lemma enc_load_x_sib opc sg from to d base x :
  (opc, (sg, from, to)) ∈ load_opcodes → x ≠ Reg.Rsp →
  encodes (λ b, emit_load_zx_sib b opc d base x) (Movx sg from to d (Mem (Addr.mk base (Some (x, 0)) 0))).
Proof.
  intros He Hx. unfold load_opcodes in He. rewrite !elem_of_cons, elem_of_nil in He.
  destruct_or?; simplify_eq; encode_sib.
Qed.

Lemma byte_reg_src opc s base :
  has opc P_REXB_R = true → byte_reg (prefix_rr opc s base) s = Some (R s).
Proof.
  intros H. unfold byte_reg, prefix_rr, prefix_of, forces. rewrite H. cbn [has_rex].
  destruct (has opc P_REXW), (has opc P_REXB_RM); by destruct s, base.
Qed.

Lemma byte_reg_srcx opc s base x :
  has opc P_REXB_R = true → byte_reg (prefix_rrx opc s base x) s = Some (R s).
Proof.
  intros H. unfold byte_reg, prefix_rrx, prefix_of, forces. rewrite H. cbn [has_rex].
  destruct (has opc P_REXW), (has opc P_REXB_RM), (Reg.needs_rex x); by destruct s, base.
Qed.

Lemma enc_store_byte s base off :
  is_i32 off → encodes (λ b, emit_store_byte b s base off) (Mov Size.S8 (Mem (Addr.mk base None off)) (R s)).
Proof. intros. encode_mem. by rewrite byte_reg_src. Qed.

Lemma enc_store_word s base off :
  is_i32 off → encodes (λ b, emit_store_word b s base off) (Mov Size.S16 (Mem (Addr.mk base None off)) (R s)).
Proof. intros. encode_mem. Qed.

Lemma enc_store_byte_sib s base x :
  x ≠ Reg.Rsp →
  encodes (λ b, emit_store_byte_sib b s base x) (Mov Size.S8 (Mem (Addr.mk base (Some (x, 0)) 0)) (R s)).
Proof. intros. encode_sib. by rewrite byte_reg_srcx. Qed.

Lemma enc_store_word_sib s base x :
  x ≠ Reg.Rsp →
  encodes (λ b, emit_store_word_sib b s base x) (Mov Size.S16 (Mem (Addr.mk base (Some (x, 0)) 0)) (R s)).
Proof. intros. encode_sib. Qed.

Lemma enc_store_imm w base off imm :
  is_i32 off → is_i32 imm →
  encodes (λ b, emit_store_imm b w base off imm) (MovI (size_of w) (Mem (Addr.mk base None off)) imm).
Proof.
  intros Hoff Hi. unfold emit_store_imm.
  destruct w; (eapply heads_encodes; [apply heads_then; [apply heads_ext_offset; [opcode_ok|lia]|apply emits_u32]|]);
    intros l; rewrite <- (assoc app); decode_opcode;
    rewrite decode_mem by (done || lia); finish_decode; by rewrite take_disp32_bytes, i32_disp.
Qed.

(** Overwriting the low byte or word of a register (Deposit). *)
Lemma enc_deposit8 d s :
  encodes (λ b, emit_modrm b (Z.lor (Z.lor OPC_MOVB_EvGv P_REXB_R) P_REXB_RM) s d) (Mov Size.S8 (R d) (R s)).
Proof. encode_rr. rewrite byte_reg_src by done. cbn. by rewrite byte_reg_forced. Qed.

Lemma enc_deposit16 d s :
  encodes (λ b, emit_modrm b (Z.lor P_DATA16 OPC_MOVL_EvGv) s d) (Mov Size.S16 (R d) (R s)).
Proof. encode_rr. Qed.

Lemma byte_reg_ext opc ext r :
  has opc P_REXB_RM = true → byte_reg (prefix_ext opc ext r) r = Some (R r).
Proof.
  intros H. unfold byte_reg, prefix_ext, prefix_of, forces. rewrite H. cbn [has_rex].
  destruct (has opc P_REXW), (has opc P_REXB_R), (8 <=? ext), (4 <=? ext); by destruct r.
Qed.

Lemma enc_setcc c d : encodes (λ b, emit_setcc b c d) (Setcc c (R d)).
Proof. destruct c; encode_ext; unfold byte_operand; by rewrite byte_reg_ext. Qed.

Lemma enc_test_bi r imm :
  encodes (λ b, emit_test_bi b r imm) (TestI Size.S8 (R r) (signed 8 imm)).
Proof.
  encode_ext_then emits_u8. unfold byte_operand. rewrite byte_reg_ext by done. cbn.
  unfold u8. by rewrite (signed_of_mod 8).
Qed.

(** ** Instructions without ModR/M *)

Lemma emits_literal l : Forall (in_width 8) l → emits (λ b, emit_u8s b l) l.
Proof. intros Hl. split; [done|]. intros b Hb. by apply emit_u8s_bytes. Qed.

Lemma encodes_bytes f bs i : emits f bs → (∀ l, decode (bs ++ l) = Some (i, l)) → encodes f i.
Proof. intros. by exists bs. Qed.

Lemma enc_cdq : encodes emit_cdq (SignExtA Size.S32).
Proof. eapply encodes_bytes; [apply (emits_u8 0x99)|done]. Qed.

Lemma enc_cqo : encodes emit_cqo (SignExtA Size.S64).
Proof. eapply encodes_bytes; [apply (emits_bind _ _ _ _ (emits_u8 0x48) (emits_u8 0x99))|done]. Qed.

Lemma enc_stc : encodes emit_stc Stc.
Proof. eapply encodes_bytes; [apply (emits_u8 0xF9)|done]. Qed.

Lemma enc_ret : encodes emit_ret Ret.
Proof. eapply encodes_bytes; [apply emits_u8|done]. Qed.

Lemma enc_mfence : encodes emit_mfence Mfence.
Proof.
  apply (encodes_bytes _ [0x0F; 0xAE; 0xF0]); [|done].
  apply (emits_bind _ _ [_] [_; _] (emits_u8 0x0F)).
  apply (emits_bind _ _ [_] [_] (emits_u8 0xAE) (emits_u8 0xF0)).
Qed.

Lemma enc_ud2 : encodes emit_ud2 Ud2.
Proof. eapply encodes_bytes; [by apply emits_opc|done]. Qed.

Lemma enc_push_imm imm : is_i32 imm → encodes (λ b, emit_push_imm b imm) (PushI imm).
Proof.
  intros Hi. unfold emit_push_imm. destruct (imm8 imm) eqn:E8.
  - eapply encodes_bytes; [apply (emits_bind _ _ [_] [_] (emits_u8 (u8 OPC_PUSH_Ib)) (emits_u8' imm))|].
    intros l. change (decode _) with ('(i, l) ← take_imm8 (u8 imm :: l); Some (PushI i, l)).
    by rewrite take_imm8_byte.
  - eapply encodes_bytes; [apply (emits_bind _ _ [_] _ (emits_u8 (u8 OPC_PUSH_Iz)) (emits_u32 (u32 imm)))|].
    intros l. change (decode _) with ('(i, l) ← take_disp32 (le_bytes 4 (u32 imm) ++ l); Some (PushI i, l)).
    by rewrite take_disp32_bytes, i32_disp.
Qed.

Lemma enc_andn w d s1 s2 : encodes (λ b, emit_andn b w d s1 s2) (Andn (size_of w) d s1 (R s2)).
Proof.
  set (bs := [0xC4;
    u8 (Z.lor (Z.lor (Z.lor (if Reg.needs_rex d then 0 else 0x80) 0x40) (if Reg.needs_rex s2 then 0 else 0x20)) 2);
    u8 (Z.lor (Z.lor (if w then 0x80 else 0) (Z.shiftl (Z.land (Z.lnot (Reg.discr s1)) 0x0F) 3)) 0);
    0xF2; u8 (rr_byte (Reg.low3 d) s2)]).
  apply (encodes_bytes _ bs).
  - unfold emit_andn, emit_vex_modrm.
    assert (has (Z.lor OPC_ANDN (rexw_flag w)) P_EXT38 = true) as -> by (by destruct w).
    assert (has (Z.lor OPC_ANDN (rexw_flag w)) P_REXW = w) as -> by (by destruct w).
    assert (has (Z.lor OPC_ANDN (rexw_flag w)) P_DATA16 = false) as -> by (by destruct w).
    assert (has (Z.lor OPC_ANDN (rexw_flag w)) P_SIMDF3 = false) as -> by (by destruct w).
    assert (has (Z.lor OPC_ANDN (rexw_flag w)) P_SIMDF2 = false) as -> by (by destruct w).
    cbn [Z.eqb Pos.eqb andb].
    apply (emits_bind _ _ [_; _; _] [_; _]).
    + apply (emits_bind _ _ [_] [_; _] (emits_u8 0xC4)). apply (emits_bind _ _ [_] [_]); apply emits_u8.
    + apply (emits_bind _ _ [_] [_]); [|apply emits_u8]. destruct w; apply emits_u8.
  - intros l. unfold bs. cbn [app]. unfold decode. rewrite skip_eq. cbv iota. unfold decode_vex.
    set (p := mkPrefix _ _ _ _ _ _ _).
    assert (p = mkPrefix false 0 true w (Reg.needs_rex d) false (Reg.needs_rex s2)) as Hp.
    { unfold p. destruct w, (Reg.needs_rex d), (Reg.needs_rex s2), s1; reflexivity. }
    assert (Reg.from_u8 (15 - Z.land (Z.shiftr (u8 (Z.lor (Z.lor (if w then 0x80 else 0)
      (Z.shiftl (Z.land (Z.lnot (Reg.discr s1)) 0x0F) 3)) 0)) 3) 15) = Some s1) as Hv by (by destruct w, s1).
    match goal with |- (if ?c then _ else _) = _ => assert (c = true) as ->
      by (destruct (Reg.needs_rex d), (Reg.needs_rex s2); reflexivity) end.
    match goal with |- (if ?c then _ else _) = _ => assert (c = true) as ->
      by (destruct w, s1; reflexivity) end.
    change (242 =? 242) with true. cbv iota.
    rewrite decode_rr by (by rewrite Hp). cbn [mbind option_bind]. rewrite reg_from_discr, Hv, Hp.
    cbn [mbind option_bind]. by destruct w.
Qed.

(** ** Direct jumps *)

(** [f] emits an instruction [i d] whose displacement leads to the offset [t]. *)
Definition jumps (f : CodeBuffer → option CodeBuffer) (i : Z → insn) (t : Z) : Prop :=
  ∀ b, 0 ≤ offset b ≤ capacity b → capacity b ≤ 2 ^ 30 → 0 ≤ t ≤ capacity b →
  ∃ bs d, f b = emit_bytes b bs ∧ Forall (in_width 8) bs ∧
    (∀ l, decode (bs ++ l) = Some (i d, l)) ∧ offset b + zlen bs + d = t.

Lemma jumps_rel32 f pre i t :
  emits f pre → zlen pre ≤ 2 →
  (∀ d l, is_i32 d → decode (pre ++ le_bytes 4 (u32 d) ++ l) = Some (i d, l)) →
  jumps (λ b, b ← f b; let disp := t - (offset b + 4) in assert! i32_range disp; emit_u32 b (u32 disp)) i t.
Proof.
  intros [Hr He] Hz Hd b Hb Hc Ht. rewrite He by done. pose proof (zlen_nonneg pre) as Hn.
  set (d := t - (offset b + zlen pre + 4)).
  assert (is_i32 d) as Hi by (unfold is_i32, d; lia).
  exists (pre ++ le_bytes 4 (u32 d)), d. split_and!.
  - rewrite <- emit_bytes_app by lia. destruct (emit_bytes b pre) as [b'|] eqn:E; [|done].
    cbn [mbind option_bind]. rewrite (emit_bytes_offset _ _ _ E). fold d. cbv zeta.
    unfold i32_range. rewrite (proj2 (andb_true_iff _ _)).
    { apply (emits_u32 (u32 d)). by eapply emit_bytes_room. }
    unfold is_i32 in Hi. split; apply Z.leb_le; lia.
  - apply Forall_app. split; [done|apply le_bytes_range].
  - intros l. rewrite <- (assoc app). by apply Hd.
  - rewrite zlen_app. change (zlen (le_bytes 4 (u32 d))) with 4. unfold d. lia.
Qed.

Lemma jump_jmp t : jumps (λ b, emit_jmp b t) Jmp t.
Proof.
  apply (jumps_rel32 _ _ _ _ (emits_u8 0xE9)); [done|]. intros d l Hd.
  change (decode _) with ('(d, l) ← take_disp32 (le_bytes 4 (u32 d) ++ l); Some (Jmp d, l)).
  by rewrite take_disp32_bytes, i32_disp.
Qed.

Lemma jump_call t : jumps (λ b, emit_call b t) Call t.
Proof.
  apply (jumps_rel32 _ _ _ _ (emits_u8 (u8 OPC_CALL_Jz))); [done|]. intros d l Hd.
  change (decode _) with ('(d, l) ← take_disp32 (le_bytes 4 (u32 d) ++ l); Some (Call d, l)).
  by rewrite take_disp32_bytes, i32_disp.
Qed.

(** The opcode bytes of Jcc, whose displacement may also be filled in later. *)
Lemma jcc_opcode c :
  emits (λ b, emit_opc b (OPC_JCC_long + X86Cond.discr c) 0 0) [0x0F; 0x80 + X86Cond.discr c] ∧
  ∀ d l, is_i32 d →
    decode ([0x0F; 0x80 + X86Cond.discr c] ++ le_bytes 4 (u32 d) ++ l) = Some (Jcc c d, l).
Proof.
  split.
  - assert ([0x0F; 0x80 + X86Cond.discr c] =
      prefix_bytes (OPC_JCC_long + X86Cond.discr c)
        (rex_value (has (OPC_JCC_long + X86Cond.discr c) P_REXW) (8 <=? 0) false (8 <=? 0)
           (forces (OPC_JCC_long + X86Cond.discr c) 0 0))) as -> by (by destruct c).
    apply emits_opc. by destruct c.
  - intros d l Hd.
    assert (decode ([0x0F; 0x80 + X86Cond.discr c] ++ le_bytes 4 (u32 d) ++ l) =
      '(d, l) ← take_disp32 (le_bytes 4 (u32 d) ++ l); Some (Jcc c d, l)) as -> by (by destruct c).
    by rewrite take_disp32_bytes, i32_disp.
Qed.

Lemma jump_jcc c t : jumps (λ b, emit_jcc b c t) (Jcc c) t.
Proof. destruct (jcc_opcode c) as [He Hd]. by apply (jumps_rel32 _ _ _ _ He). Qed.

(** ** The table of emitters *)

(** The instruction each emitter is there to emit. *)
Inductive emitter : (CodeBuffer → option CodeBuffer) → insn → Prop :=
| E_arith_rr op w d s : emitter (λ b, emit_arith_rr b op w d s) (Arith op (size_of w) (R d) (R s))
| E_arith_ri op w d imm :
    is_i32 imm → emitter (λ b, emit_arith_ri b op w d imm) (ArithI op (size_of w) (R d) imm)
| E_arith_mr op w base off s :
    is_i32 off →
    emitter (λ b, emit_arith_mr b op w base off s) (Arith op (size_of w) (Mem (Addr.mk base None off)) (R s))
| E_arith_rm op w d base off :
    is_i32 off →
    emitter (λ b, emit_arith_rm b op w d base off) (Arith op (size_of w) (R d) (Mem (Addr.mk base None off)))
| E_neg w r : emitter (λ b, emit_neg b w r) (Grp3 Ext3Op.Neg (size_of w) (R r))
| E_not w r : emitter (λ b, emit_not b w r) (Grp3 Ext3Op.Not (size_of w) (R r))
| E_mul w r : emitter (λ b, emit_mul b w r) (Grp3 Ext3Op.Mul (size_of w) (R r))
| E_imul1 w r : emitter (λ b, emit_imul1 b w r) (Grp3 Ext3Op.Imul (size_of w) (R r))
| E_div w r : emitter (λ b, emit_div b w r) (Grp3 Ext3Op.Div (size_of w) (R r))
| E_idiv w r : emitter (λ b, emit_idiv b w r) (Grp3 Ext3Op.Idiv (size_of w) (R r))
| E_imul_rr w d s : emitter (λ b, emit_imul_rr b w d s) (Imul2 (size_of w) d (R s))
| E_imul_ri w d s imm :
    is_i32 imm → emitter (λ b, emit_imul_ri b w d s imm) (Imul3 (size_of w) d (R s) imm)
| E_shift_ri op w d n :
    in_width 8 n → emitter (λ b, emit_shift_ri b op w d n) (Shift op (size_of w) (R d) (Imm n))
| E_shift_cl op w d : emitter (λ b, emit_shift_cl b op w d) (Shift op (size_of w) (R d) CL)
| E_shld_ri w d s n : in_width 8 n → emitter (λ b, emit_shld_ri b w d s n) (Shld (size_of w) (R d) s n)
| E_shrd_ri w d s n : in_width 8 n → emitter (λ b, emit_shrd_ri b w d s n) (Shrd (size_of w) (R d) s n)
| E_rolw_8 r : emitter (λ b, emit_rolw_8 b r) (Shift ShiftOp.Rol Size.S16 (R r) (Imm 8))
| E_bt op emit w r n :
    (op, emit) ∈ [(GrpBtOp.Bt, emit_bt_ri); (GrpBtOp.Bts, emit_bts_ri);
                  (GrpBtOp.Btr, emit_btr_ri); (GrpBtOp.Btc, emit_btc_ri)] →
    in_width 8 n → emitter (λ b, emit b w r n) (BitTest op (size_of w) (R r) n)
| E_scan op emit w d s :
    (op, emit) ∈ [(Bsf, emit_bsf); (Bsr, emit_bsr); (Lzcnt, emit_lzcnt); (Tzcnt, emit_tzcnt);
                  (Popcnt, emit_popcnt)] →
    emitter (λ b, emit b w d s) (Scan op (size_of w) d (R s))
| E_andn w d s1 s2 : emitter (λ b, emit_andn b w d s1 s2) (Andn (size_of w) d s1 (R s2))
| E_bswap w r : emitter (λ b, emit_bswap b w r) (Bswap (size_of w) r)
| E_mov_rr w d s : emitter (λ b, emit_mov_rr b w d s) (Mov (size_of w) (R d) (R s))
| E_mov_ri w r v : in_width 64 v → emitter (λ b, emit_mov_ri b w r v) (mov_ri_insn w r v)
| E_movzbl d s :
    emitter (λ b, emit_movzx b OPC_MOVZBL d s) (Movx false Size.S8 Size.S32 d (byte_source d s))
| E_movzwl d s : emitter (λ b, emit_movzx b OPC_MOVZWL d s) (Movx false Size.S16 Size.S32 d (R s))
| E_movsbl d s :
    emitter (λ b, emit_movsx b OPC_MOVSBL d s) (Movx true Size.S8 Size.S32 d (byte_source d s))
| E_movswl d s : emitter (λ b, emit_movsx b OPC_MOVSWL d s) (Movx true Size.S16 Size.S32 d (R s))
| E_movslq d s : emitter (λ b, emit_movsx b OPC_MOVSLQ d s) (Movx true Size.S32 Size.S64 d (R s))
| E_load w d base off :
    is_i32 off → emitter (λ b, emit_load b w d base off) (Mov (size_of w) (R d) (Mem (Addr.mk base None off)))
| E_store w s base off :
    is_i32 off → emitter (λ b, emit_store b w s base off) (Mov (size_of w) (Mem (Addr.mk base None off)) (R s))
| E_store_byte s base off :
    is_i32 off → emitter (λ b, emit_store_byte b s base off) (Mov Size.S8 (Mem (Addr.mk base None off)) (R s))
| E_store_word s base off :
    is_i32 off → emitter (λ b, emit_store_word b s base off) (Mov Size.S16 (Mem (Addr.mk base None off)) (R s))
| E_store_imm w base off imm :
    is_i32 off → is_i32 imm →
    emitter (λ b, emit_store_imm b w base off imm) (MovI (size_of w) (Mem (Addr.mk base None off)) imm)
| E_load_x opc sg from to d base off :
    (opc, (sg, from, to)) ∈ load_opcodes → is_i32 off →
    emitter (λ b, emit_load_zx b opc d base off) (Movx sg from to d (Mem (Addr.mk base None off)))
| E_lea w d base off :
    is_i32 off → emitter (λ b, emit_lea b w d base off) (Lea (size_of w) d (Addr.mk base None off))
| E_lea_sib w d base x sh off :
    is_i32 off → 0 ≤ sh < 4 → x ≠ Reg.Rsp →
    emitter (λ b, emit_lea_sib b w d base x sh off) (Lea (size_of w) d (Addr.mk base (Some (x, sh)) off))
| E_load_sib w d base x sh off :
    is_i32 off → 0 ≤ sh < 4 → x ≠ Reg.Rsp →
    emitter (λ b, emit_load_sib b w d base x sh off)
      (Mov (size_of w) (R d) (Mem (Addr.mk base (Some (x, sh)) off)))
| E_store_sib w s base x sh off :
    is_i32 off → 0 ≤ sh < 4 → x ≠ Reg.Rsp →
    emitter (λ b, emit_store_sib b w s base x sh off)
      (Mov (size_of w) (Mem (Addr.mk base (Some (x, sh)) off)) (R s))
| E_store_byte_sib s base x :
    x ≠ Reg.Rsp →
    emitter (λ b, emit_store_byte_sib b s base x) (Mov Size.S8 (Mem (Addr.mk base (Some (x, 0)) 0)) (R s))
| E_store_word_sib s base x :
    x ≠ Reg.Rsp →
    emitter (λ b, emit_store_word_sib b s base x) (Mov Size.S16 (Mem (Addr.mk base (Some (x, 0)) 0)) (R s))
| E_load_x_sib opc sg from to d base x :
    (opc, (sg, from, to)) ∈ load_opcodes → x ≠ Reg.Rsp →
    emitter (λ b, emit_load_zx_sib b opc d base x) (Movx sg from to d (Mem (Addr.mk base (Some (x, 0)) 0)))
| E_test_rr w a c : emitter (λ b, emit_test_rr b w a c) (Test (size_of w) (R c) (R a))
| E_test_bi r imm : emitter (λ b, emit_test_bi b r imm) (TestI Size.S8 (R r) (signed 8 imm))
| E_cmovcc c w d s : emitter (λ b, emit_cmovcc b c w d s) (Cmov c (size_of w) d (R s))
| E_setcc c d : emitter (λ b, emit_setcc b c d) (Setcc c (R d))
| E_xchg w x y : emitter (λ b, emit_xchg b w x y) (Xchg (size_of w) (R y) x)
| E_inc w r : emitter (λ b, emit_inc b w r) (IncDec false (size_of w) (R r))
| E_dec w r : emitter (λ b, emit_dec b w r) (IncDec true (size_of w) (R r))
| E_cdq : emitter emit_cdq (SignExtA Size.S32)
| E_cqo : emitter emit_cqo (SignExtA Size.S64)
| E_stc : emitter emit_stc Stc
| E_push r : emitter (λ b, emit_push b r) (Push r)
| E_push_imm imm : is_i32 imm → emitter (λ b, emit_push_imm b imm) (PushI imm)
| E_pop r : emitter (λ b, emit_pop b r) (Pop r)
| E_jmp_reg r : emitter (λ b, emit_jmp_reg b r) (JmpR (R r))
| E_call_reg r : emitter (λ b, emit_call_reg b r) (CallR (R r))
| E_ret : emitter emit_ret Ret
| E_ud2 : emitter emit_ud2 Ud2
| E_mfence : emitter emit_mfence Mfence.

Create HintDb enc discriminated.
#[export] Hint Constants Opaque : enc.
#[export] Hint Resolve enc_arith_rr enc_arith_ri enc_arith_mr enc_arith_rm enc_neg enc_not enc_mul
  enc_imul1 enc_div enc_idiv enc_imul_rr enc_imul_ri enc_shift_ri enc_shift_cl enc_shld_ri enc_shrd_ri
  enc_rolw_8 enc_bt enc_scan enc_andn enc_bswap enc_mov_rr enc_mov_ri enc_movzbl enc_movzwl enc_movsbl
  enc_movswl enc_movslq enc_load enc_store enc_store_byte enc_store_word enc_store_imm enc_load_x enc_lea
  enc_lea_sib enc_load_sib enc_store_sib enc_store_byte_sib enc_store_word_sib enc_load_x_sib enc_test_rr
  enc_test_bi enc_cmovcc enc_setcc enc_xchg enc_inc enc_dec enc_cdq enc_cqo enc_stc enc_push enc_push_imm
  enc_pop enc_jmp_reg enc_call_reg enc_ret enc_ud2 enc_mfence : enc.

(** C4. Every emitter appends, to any buffer with room, bytes that decode to the
    instruction it is there for and to nothing else, whatever follows them, for all
    registers, displacements and immediates it accepts; direct jumps and calls lead to
    the target offset. *)
Theorem emitters_encode :
  (∀ f i, emitter f i → encodes f i) ∧
  (∀ t, jumps (λ b, emit_jmp b t) Jmp t ∧ jumps (λ b, emit_call b t) Call t ∧
    ∀ c, jumps (λ b, emit_jcc b c t) (Jcc c) t).
Proof.
  split; [|auto using jump_jmp, jump_call, jump_jcc]. destruct 1; auto with enc.
Qed.

Lemma emitters_encode_witness :
  ∃ bs, emits (λ b, emit_lea_sib b true Reg.R13 Reg.R13 Reg.R12 1 (-8)) bs ∧
    decode (bs ++ [0xC3]) = Some (Lea Size.S64 Reg.R13 (Addr.mk Reg.R13 (Some (Reg.R12, 1)) (-8)), [0xC3]).
Proof.
  destruct (proj1 emitters_encode _ _ (E_lea_sib true Reg.R13 Reg.R13 Reg.R12 1 (-8)
    ltac:(unfold is_i32; lia) ltac:(lia) ltac:(done))) as (bs & He & Hd).
  exists bs. split; [exact He|exact (Hd [0xC3])].
Defined.
