(* ===== verification/X86OpSound.v ===== *)
(** * The lowering of IR ops computes what the ops mean

    [assembles f il]: [f] appends the bytes of the instructions [il].  The arms of
    [tcg_out_op] are assembled from emitters, so X86EmitSound.v gives their
    instructions; executing them by X86Isa.v leaves the results of [op_results] in the
    output registers, whenever the registers satisfy the constraints of the op. *)

From S2P Require Import Prelude Types Opcodes Ir IrSem CodeBuffer X86Regs Constraint X86Emit HostCodeGen.
From S2P Require Import X86CodeGen X86Isa X86EmitSound.

(** ** Straight-line code *)

Inductive decodes : list Z → list insn → Prop :=
| decodes_nil : decodes [] []
| decodes_cons b i bs il :
    (∀ l, decode (b ++ l) = Some (i, l)) → decodes bs il → decodes (b ++ bs) (i :: il).

Definition assembles (f : CodeBuffer → option CodeBuffer) (il : list insn) : Prop :=
  ∃ bs, emits f bs ∧ decodes bs il.

Lemma decodes_app b1 b2 i1 i2 : decodes b1 i1 → decodes b2 i2 → decodes (b1 ++ b2) (i1 ++ i2).
Proof.
  induction 1 as [|b i bs il Hi _ IH]; intros H2; [done|]. rewrite <- (assoc app). constructor; auto.
Qed.

Lemma assembles_nil : assembles Some [].
Proof. exists []. split; [apply emits_nil|constructor]. Qed.

Lemma assembles_one f i : encodes f i → assembles f [i].
Proof.
  intros (bs & He & Hd). exists bs. split; [done|].
  rewrite <- (right_id_L [] app bs). constructor; [done|constructor].
Qed.

Lemma assembles_bind f g i1 i2 :
  assembles f i1 → assembles g i2 → assembles (λ b, b ← f b; g b) (i1 ++ i2).
Proof.
  intros (b1 & E1 & D1) (b2 & E2 & D2). exists (b1 ++ b2).
  split; [by apply emits_bind|by apply decodes_app].
Qed.

Lemma assembles_ext f g il : (∀ b, f b = g b) → assembles g il → assembles f il.
Proof. intros He (bs & ? & ?). exists bs. split; [by eapply emits_ext|done]. Qed.

(** Two instructions, the usual case. *)
Lemma assembles_two f g i1 i2 :
  encodes f i1 → encodes g i2 → assembles (λ b, b ← f b; g b) [i1; i2].
Proof. intros. apply (assembles_bind _ _ [_] [_]); by apply assembles_one. Qed.

Lemma assembles_cons f g i il :
  encodes f i → assembles g il → assembles (λ b, b ← f b; g b) (i :: il).
Proof. intros. apply (assembles_bind _ _ [_]); [by apply assembles_one|done]. Qed.

Section run.
Variable undef : insn → Host.t → Flags.t.

(** Instructions that fall through. *)
Fixpoint exec_all (il : list insn) (h : Host.t) : option Host.t :=
  match il with
  | [] => Some h
  | i :: il => match execute undef i h with Some (h, Seq) => exec_all il h | _ => None end
  end.

Lemma exec_all_app i1 i2 h : exec_all (i1 ++ i2) h = h ← exec_all i1 h; exec_all i2 h.
Proof.
  revert h. induction i1 as [|i i1 IH]; intros h; [done|]. cbn [app exec_all].
  destruct (execute undef i h) as [[h' []]|]; [apply IH|done..].
Qed.
End run.

(** ** Reading back registers *)

Lemma reg_set_eq h r v : Host.reg (Host.set_reg h r v) r = v.
Proof. cbn. by rewrite bool_decide_true. Qed.

Lemma reg_set_ne h r x v : x ≠ r → Host.reg (Host.set_reg h r v) x = Host.reg h x.
Proof. intros. cbn. by rewrite bool_decide_false. Qed.

Definition opbits (w : bool) : Z := if w then 64 else 32.

Lemma bits_size_of w : Size.bits (size_of w) = opbits w.
Proof. by destruct w. Qed.

Lemma opbits_pos w : 0 < opbits w.
Proof. by destruct w. Qed.

(** The result register of an instruction of size [size_of w]. *)
Lemma write_reg_eq w h r v : Host.reg (write_reg (size_of w) h r v) r = v mod 2 ^ opbits w.
Proof. destruct w; apply reg_set_eq. Qed.

Lemma write_reg_ne s h r x v : x ≠ r → Host.reg (write_reg s h r v) x = Host.reg h x.
Proof. apply reg_set_ne. Qed.

Lemma read_R w h r : read (size_of w) h (R r) = Host.reg h r mod 2 ^ opbits w.
Proof. by destruct w. Qed.

(** [h'] differs from [h] in the register [d], which holds [v] at width [n], and in
    the flags. *)
Definition defines (n : Z) (d : Reg.t) (v : Z) (h h' : Host.t) : Prop :=
  Host.reg h' d mod 2 ^ n = v ∧ (∀ x, x ≠ d → Host.reg h' x = Host.reg h x) ∧
  Host.mem h' = Host.mem h.

Lemma defines_flags n d v h h' f : defines n d v h h' → defines n d v h (Host.set_flags h' f).
Proof. done. Qed.

Lemma defines_from_flags n d v h h' f : defines n d v (Host.set_flags h f) h' → defines n d v h h'.
Proof. done. Qed.

Lemma defines_write w d v x h :
  x mod 2 ^ opbits w = v → defines (opbits w) d v h (write_reg (size_of w) h d x).
Proof.
  intros <-. split_and!.
  - rewrite write_reg_eq, Z.mod_mod; [done|]. by destruct w.
  - intros. by apply write_reg_ne.
  - by destruct w.
Qed.

(** ** What the ops mean

    The register ops by docs/ir-ops.md: results, and the carry where the op produces
    one; [None] where the host traps or the op is not one of them.  [cf] is the carry
    before the op. *)

Definition swap_bytes (k : nat) (a : Z) : Z := le_value (rev (le_bytes k a)).

Definition op_results (o : Opcode.t) (ty : Type_.t) (ins cs : list Z) (cf : bool) :
    option (list Z * option bool) :=
  let n := Type_.size_bits ty in
  let m a := a mod 2 ^ n in
  let c := if cf then 1 else 0 in
  let one v := Some ([v], None) in
  let adds a b c := Some ([m (a + b + c)], Some (2 ^ n <=? m a + m b + c)) in
  let subs a b c := Some ([m (a - b - c)], Some (m a <? m b + c)) in
  match o, ins, cs with
  | Opcode.SetCond, [a; b], [k] => x ← cond_decode k; one (if Cond.holds x n a b then 1 else 0)
  | Opcode.NegSetCond, [a; b], [k] => x ← cond_decode k; one (if Cond.holds x n a b then 2 ^ n - 1 else 0)
  | Opcode.MovCond, [a; b; v1; v2], [k] => x ← cond_decode k; one (m (if Cond.holds x n a b then v1 else v2))
  | Opcode.MulS2, [a; b], _ =>
      let p := signed n a * signed n b in Some ([m p; m (p / 2 ^ n)], None)
  | Opcode.MulU2, [a; b], _ => let p := m a * m b in Some ([m p; p / 2 ^ n], None)
  | Opcode.DivS2, [lo; hi; b], _ => '(q, r) ← wide_divs n lo hi b; Some ([q; r], None)
  | Opcode.DivU2, [lo; hi; b], _ => '(q, r) ← wide_divu n lo hi b; Some ([q; r], None)
  | Opcode.AddCO, [a; b], _ => adds a b 0
  | Opcode.AddCI, [a; b], _ => one (m (a + b + c))
  | Opcode.AddCIO, [a; b], _ => adds a b c
  | Opcode.AddC1O, [a; b], _ => adds a b 1
  | Opcode.SubBO, [a; b], _ => subs a b 0
  | Opcode.SubBI, [a; b], _ => one (m (a - b - c))
  | Opcode.SubBIO, [a; b], _ => subs a b c
  | Opcode.SubB1O, [a; b], _ => subs a b 1
  | Opcode.Extract, [a], [ofs; len] => one (m a / 2 ^ ofs mod 2 ^ len)
  | Opcode.SExtract, [a], [ofs; len] => one (m (signed len (m a / 2 ^ ofs)))
  | Opcode.Deposit, [a; b], [ofs; len] =>
      one (m (m a - (m a / 2 ^ ofs mod 2 ^ len - b mod 2 ^ len) * 2 ^ ofs))
  | Opcode.Extract2, [al; ah], [ofs] => one (m ((m ah * 2 ^ n + m al) / 2 ^ ofs))
  | Opcode.Bswap16, [a], [f] =>
      let x := swap_bytes 2 a in one (m (if negb (Z.land f 4 =? 0) then signed 16 x else x))
  | Opcode.Bswap32, [a], [f] =>
      let x := swap_bytes 4 a in one (m (if negb (Z.land f 4 =? 0) then signed 32 x else x))
  | Opcode.Bswap64, [a], _ => one (swap_bytes 8 a)
  | Opcode.Clz, [a; b], _ => one (if m a =? 0 then m b else leading n (m a))
  | Opcode.Ctz, [a; b], _ => one (if m a =? 0 then m b else trailing n (m a))
  | Opcode.CtPop, [a], _ => one (popcount n (m a))
  | _, [a], _ => v ← spec_unary o n a; one v
  | _, [a; b], _ => v ← spec_binary o n a b; one v
  | _, _, _ => None
  end.

(** ** Registers that satisfy the constraints *)

(** The registers the inputs are read from: an aliased input in the output's. *)
Definition read_regs (o : Opcode.t) (oregs iregs : list Reg.t) : list Reg.t :=
  imap (λ i r,
    match (OpConstraint.args (X86.op_constraint o)).[nb_oargs (def o) + Z.of_nat i] with
    | Some c => if ArgConstraint.ialias c then default r (oregs.[ArgConstraint.alias_index c]) else r
    | None => r
    end) iregs.

Definition arg_ok (c : ArgConstraint.t) (r : Reg.t) : Prop :=
  RegSet.contains (ArgConstraint.regs c) (Reg.discr r) = Some true.

#[global] Instance arg_ok_dec c r : Decision (arg_ok c r).
Proof. unfold arg_ok. apply _. Defined.

Definition satisfies (o : Opcode.t) (oregs iregs : list Reg.t) : Prop :=
  let l := OpConstraint.args (X86.op_constraint o) in
  let no := Z.to_nat (nb_oargs (def o)) in
  Forall2 arg_ok (take no l) oregs ∧
  Forall2 arg_ok (take (Z.to_nat (nb_iargs (def o))) (drop no l)) (read_regs o oregs iregs).

#[global] Instance satisfies_dec o oregs iregs : Decision (satisfies o oregs iregs).
Proof. unfold satisfies. apply _. Defined.

(** A condition the lowering can test: [Always] and [Never] become the tests for
    equality and difference. *)
Definition testable (k : Z) : bool :=
  match cond_decode k with
  | Some c => negb (bool_decide (c = Cond.Always)) && negb (bool_decide (c = Cond.Never))
  | None => false
  end.

(** Whether an encoding without a forced REX reaches the low byte of [s]. *)
Definition low_byte (d s : Reg.t) : bool := Reg.needs_rex d || Reg.needs_rex s || (Reg.discr s <? 4).

(** Where the lowering is right: the constants it accepts, and what it assumes of
    registers beyond the constraints. *)
Definition lowerable (o : Opcode.t) (ty : Type_.t) (oregs iregs : list Reg.t) (cs : list Z) : bool :=
  let n := Type_.size_bits ty in
  match o, cs with
  | Opcode.SetCond, [k] | Opcode.NegSetCond, [k] | Opcode.MovCond, [k] => testable k
  | Opcode.Extract, [0; 8] =>
      match oregs, iregs with [d], [s] => low_byte d s | _, _ => false end
  | Opcode.SExtract, [0; 8] =>
      is_i64 ty || match oregs, iregs with [d], [s] => low_byte d s | _, _ => false end
  | Opcode.Extract, [0; 16] | Opcode.Extract, [0; 32]
  | Opcode.SExtract, [0; 16] | Opcode.SExtract, [0; 32]
  | Opcode.Deposit, [0; 8] | Opcode.Deposit, [0; 16] => true
  | Opcode.Extract2, [ofs] => (0 <=? ofs) && (ofs <? n)
  | Opcode.ExtUI32I64, [] => bool_decide (oregs ≠ iregs) && is_i64 ty
  | Opcode.ExtI32I64, [] => is_i64 ty
  | Opcode.ExtrlI64I32, [] | Opcode.ExtrhI64I32, [] => negb (is_i64 ty)
  | Opcode.Bswap16, [f] => negb (Z.land f 4 =? 0) || (Z.land f 3 =? 2)
  | Opcode.Bswap32, [_] => true
  | Opcode.Bswap64, [_] => is_i64 ty
  | (Opcode.Add | Opcode.Sub | Opcode.Mul | Opcode.Neg | Opcode.Not | Opcode.And | Opcode.Or | Opcode.Xor
    | Opcode.AndC | Opcode.Shl | Opcode.Shr | Opcode.Sar | Opcode.RotL | Opcode.RotR
    | Opcode.MulS2 | Opcode.MulU2 | Opcode.DivS2 | Opcode.DivU2 | Opcode.Clz | Opcode.Ctz | Opcode.CtPop
    | Opcode.AddCO | Opcode.AddCI | Opcode.AddCIO | Opcode.AddC1O
    | Opcode.SubBO | Opcode.SubBI | Opcode.SubBIO | Opcode.SubB1O), [] => true
  | _, _ => false
  end.

(** The fallback of a bit count of zero is not looked at: LZCNT and TZCNT give the width. *)
Definition fallback_ok (o : Opcode.t) (n : Z) (ins : list Z) : bool :=
  match o, ins with
  | (Opcode.Clz | Opcode.Ctz), [a; b] => negb (a mod 2 ^ n =? 0) || (b mod 2 ^ n =? n)
  | _, _ => true
  end.

(** [f] lowers an op with outputs [outs] whose meaning is [spec]. *)
Definition lowers (f : CodeBuffer → option CodeBuffer) (n : Z) (outs : list Reg.t)
    (spec : Host.t → option (list Z * option bool)) : Prop :=
  ∃ il, assembles f il ∧ ∀ undef h vs co,
    Host.wf h → spec h = Some (vs, co) →
    ∃ h', exec_all undef il h = Some h' ∧
      Forall2 (λ d v, Host.reg h' d mod 2 ^ n = v) outs vs ∧
      (∀ r, r ∉ outs → Host.reg h' r = Host.reg h r) ∧ Host.mem h' = Host.mem h ∧
      (∀ c, co = Some c → Flags.cf (Host.flags h') = c).

(** ** From one instruction to an op *)

(** What executing an op leaves. *)
Definition result (n : Z) (outs : list Reg.t) (vs : list Z) (co : option bool) (h h' : Host.t) : Prop :=
  Forall2 (λ d v, Host.reg h' d mod 2 ^ n = v) outs vs ∧
  (∀ r, r ∉ outs → Host.reg h' r = Host.reg h r) ∧ Host.mem h' = Host.mem h ∧
  (∀ c, co = Some c → Flags.cf (Host.flags h') = c).

Lemma result_one n d v co h h' :
  defines n d v h h' → (∀ c, co = Some c → Flags.cf (Host.flags h') = c) → result n [d] [v] co h h'.
Proof.
  intros (Hv & Hr & Hm) Hc. split_and!; [by constructor| |done..].
  intros r Hin. apply Hr. set_solver.
Qed.

Lemma lowers_one f i n outs spec :
  encodes f i →
  (∀ undef h vs co, Host.wf h → spec h = Some (vs, co) →
     ∃ h', execute undef i h = Some (h', Seq) ∧ result n outs vs co h h') →
  lowers f n outs spec.
Proof.
  intros He Hx. exists [i]. split; [by apply assembles_one|].
  intros undef h vs co Hw Hs. destruct (Hx undef h vs co Hw Hs) as (h' & E & ?).
  exists h'. cbn [exec_all]. by rewrite E.
Qed.

(** A last instruction after others whose joint effect is known. *)
Lemma lowers_list f il n outs spec :
  assembles f il →
  (∀ undef h vs co, Host.wf h → spec h = Some (vs, co) →
     ∃ h', exec_all undef il h = Some h' ∧ result n outs vs co h h') →
  lowers f n outs spec.
Proof. intros He Hx. exists il. split; [done|]. intros. by apply Hx. Qed.

Lemma lowers_ext f g n outs spec : (∀ b, f b = g b) → lowers g n outs spec → lowers f n outs spec.
Proof. intros He (il & Ha & Hx). exists il. split; [by eapply assembles_ext|done]. Qed.

(** ** Arithmetic at a width *)

Section width.
Context (n : Z) (Hn : 0 < n).

Lemma add_mod x y : (x mod 2 ^ n + y mod 2 ^ n) mod 2 ^ n = (x + y) mod 2 ^ n.
Proof. by rewrite <- Zplus_mod. Qed.

Lemma sub_mod x y : (x mod 2 ^ n - y mod 2 ^ n) mod 2 ^ n = (x - y) mod 2 ^ n.
Proof. by rewrite <- Zminus_mod. Qed.

Lemma mul_mod x y : (x mod 2 ^ n * (y mod 2 ^ n)) mod 2 ^ n = (x * y) mod 2 ^ n.
Proof. by rewrite <- Zmult_mod. Qed.

Lemma mod_idem x : x mod 2 ^ n mod 2 ^ n = x mod 2 ^ n.
Proof. apply Z.mod_mod. pose proof (pow2_pos n). lia. Qed.

Lemma bitwise_mod (f : Z → Z → Z) (g : bool → bool → bool) x y :
  g false false = false → (∀ x y i, 0 ≤ i → Z.testbit (f x y) i = g (Z.testbit x i) (Z.testbit y i)) →
  f (x mod 2 ^ n) (y mod 2 ^ n) mod 2 ^ n = f x y mod 2 ^ n.
Proof.
  intros Hg Hf. apply Z.bits_inj'. intros i Hi. destruct (decide (i < n)).
  - by rewrite !Z.mod_pow2_bits_low, !Hf, !Z.mod_pow2_bits_low by lia.
  - by rewrite !Z.mod_pow2_bits_high by lia.
Qed.

Lemma land_mod x y : Z.land (x mod 2 ^ n) (y mod 2 ^ n) mod 2 ^ n = Z.land x y mod 2 ^ n.
Proof. apply (bitwise_mod _ andb); [done|]. intros. apply Z.land_spec. Qed.

Lemma lor_mod x y : Z.lor (x mod 2 ^ n) (y mod 2 ^ n) mod 2 ^ n = Z.lor x y mod 2 ^ n.
Proof. apply (bitwise_mod _ orb); [done|]. intros. apply Z.lor_spec. Qed.

Lemma lxor_mod x y : Z.lxor (x mod 2 ^ n) (y mod 2 ^ n) mod 2 ^ n = Z.lxor x y mod 2 ^ n.
Proof. apply (bitwise_mod _ xorb); [done|]. intros. apply Z.lxor_spec. Qed.

Lemma ldiff_mod x y : Z.ldiff (x mod 2 ^ n) (y mod 2 ^ n) mod 2 ^ n = Z.ldiff x y mod 2 ^ n.
Proof. apply (bitwise_mod _ (λ a b, a && negb b)); [done|]. intros. apply Z.ldiff_spec. Qed.

Lemma opp_mod x : (- (x mod 2 ^ n)) mod 2 ^ n = (- x) mod 2 ^ n.
Proof. rewrite <- !(Z.sub_0_l (_)). by rewrite Zminus_mod_idemp_r. Qed.

Lemma not_mod x : (- (x mod 2 ^ n) - 1) mod 2 ^ n = (- x - 1) mod 2 ^ n.
Proof. by rewrite <- Zminus_mod_idemp_l, opp_mod, Zminus_mod_idemp_l. Qed.

(** Comparison of [a] and [b] by the flags of [a - b]. *)
Lemma signed_diff a b :
  let x := signed n a - signed n b in
  let r := signed n ((a - b) mod 2 ^ n) in
  (r < 0 ∧ (- 2 ^ (n - 1) ≤ x < 0 ∨ 2 ^ (n - 1) ≤ x) ∨
   0 ≤ r ∧ (0 ≤ x < 2 ^ (n - 1) ∨ x < - 2 ^ (n - 1))) ∧
  (r = x ↔ - 2 ^ (n - 1) ≤ x < 2 ^ (n - 1)).
Proof.
  intros x r. pose proof (signed_range n a Hn). pose proof (signed_range n b Hn).
  pose proof (signed_range n ((a - b) mod 2 ^ n) Hn).
  assert (2 ^ n = 2 * 2 ^ (n - 1)) as H2 by (rewrite <- Z.pow_succ_r by lia; f_equal; lia).
  assert (r mod 2 ^ n = x mod 2 ^ n) as Hm.
  { unfold r, x. rewrite signed_mod, mod_idem by lia.
    rewrite (Zminus_mod (signed n a)), !signed_mod by lia. by rewrite <- Zminus_mod. }
  assert (∃ k, r = x + k * 2 ^ n) as [k Hk].
  { exists (r / 2 ^ n - x / 2 ^ n). pose proof (pow2_pos n ltac:(lia)).
    rewrite (Z.div_mod r (2 ^ n)) at 1 by lia. rewrite (Z.div_mod x (2 ^ n)) at 1 by lia. rewrite Hm. ring. }
  fold r in H1. pose proof (pow2_pos (n - 1) ltac:(lia)) as HP.
  assert (- (2 * 2 ^ (n - 1)) < x < 2 * 2 ^ (n - 1)) as Hx by (unfold x; lia).
  clearbody x r. clear H H0 Hm. rewrite H2 in Hk. set (P := 2 ^ (n - 1)) in *. clearbody P.
  assert (k < 2) by nia. assert (-2 < k) by nia.
  assert (k = 0 ∨ k = 1 ∨ k = -1) as Hk3 by lia. destruct Hk3 as [-> | [-> | ->]]; lia.
Qed.

Lemma testbit_sign r : in_width n r → Z.testbit r (n - 1) = (signed n r <? 0).
Proof.
  intros Hr. rewrite Z.testbit_eqb by lia.
  assert (2 ^ n = 2 * 2 ^ (n - 1)) as H2 by (rewrite <- Z.pow_succ_r by lia; f_equal; lia).
  unfold in_width in Hr. pose proof (pow2_pos (n - 1)). unfold signed. rewrite (Z.mod_small r) by lia.
  destruct (r <? 2 ^ (n - 1)) eqn:E; boolp.
  - rewrite (Z.div_small r) by lia. symmetry. apply Z.ltb_ge. lia.
  - replace (r / 2 ^ (n - 1)) with 1 by (apply (Z.div_unique r (2 ^ (n - 1)) 1 (r - 2 ^ (n - 1))); lia).
    symmetry. apply Z.ltb_lt. lia.
Qed.

(** CMP followed by a condition. *)
Lemma cmp_holds c a b f :
  Cond.is_tst c = false → c ≠ Cond.Always → c ≠ Cond.Never →
  f = sub_flags n (a mod 2 ^ n) (b mod 2 ^ n) 0 →
  cond_holds (X86Cond.from_tcg c) f = Cond.holds c n a b.
Proof.
  intros Ht Ha Hv ->. unfold sub_flags, result_flags.
  pose proof (mod_in_width n a ltac:(lia)) as Wa. pose proof (mod_in_width n b ltac:(lia)) as Wb.
  destruct (signed_diff (a mod 2 ^ n) (b mod 2 ^ n)) as [S1 S2].
  cbv zeta in S1, S2. rewrite !signed_of_mod in S1, S2 by lia.
  set (r := (a mod 2 ^ n - b mod 2 ^ n - 0) mod 2 ^ n).
  assert (signed n r = signed n (a mod 2 ^ n - b mod 2 ^ n)) as Er.
  { unfold r. by rewrite signed_of_mod, Z.sub_0_r. }
  assert (Z.testbit r (n - 1) = (signed n r <? 0)) as Es by (apply testbit_sign, mod_in_width; lia).
  assert ((r =? 0) = (a mod 2 ^ n =? b mod 2 ^ n)) as Ez.
  { unfold r. rewrite Z.sub_0_r. unfold in_width in *. apply eq_bool_prop_intro.
    rewrite !Is_true_true, !Z.eqb_eq. split; [|intros ->; by rewrite Z.sub_diag].
    intros H. pose proof (pow2_pos n ltac:(lia)).
    apply Z.mod_divide in H as [k Hk]; [|lia]. assert (k < 1) by nia. assert (-1 < k) by nia.
    assert (k = 0) as -> by lia. lia. }
  assert (xorb (Z.testbit r (n - 1)) (negb (signed n (a mod 2 ^ n) - signed n (b mod 2 ^ n) - 0 =? signed n r))
    = (signed n a <? signed n b)) as Elt.
  { rewrite Es, !signed_of_mod, Z.sub_0_r by lia. rewrite Er. destruct (Z.ltb_spec (signed n (a mod 2 ^ n - b mod 2 ^ n)) 0);
      destruct (Z.eqb_spec (signed n a - signed n b) (signed n (a mod 2 ^ n - b mod 2 ^ n)));
      destruct (Z.ltb_spec (signed n a) (signed n b)); try done; exfalso; lia. }
  assert ((signed n a =? signed n b) = (a mod 2 ^ n =? b mod 2 ^ n)) as Eq.
  { apply eq_bool_prop_intro. rewrite !Is_true_true, !Z.eqb_eq. split; intros E.
    - apply (f_equal (λ x, x mod 2 ^ n)) in E. by rewrite !signed_mod in E by lia.
    - unfold signed. by rewrite E. }
  destruct c; try done; cbn [X86Cond.from_tcg cond_holds Flags.cf Flags.zf Flags.sf Flags.ovf Cond.holds];
    fold r; rewrite ?Elt, ?Ez, ?Z.add_0_r, ?Z.sub_0_r; try done.
  - rewrite <- Z.leb_antisym. done.
  - rewrite <- Eq. destruct (Z.eqb_spec (signed n a) (signed n b)), (Z.ltb_spec (signed n a) (signed n b)),
      (Z.leb_spec (signed n a) (signed n b)); done || lia.
  - rewrite <- Eq. destruct (Z.eqb_spec (signed n a) (signed n b)), (Z.ltb_spec (signed n a) (signed n b)),
      (Z.ltb_spec (signed n b) (signed n a)); done || lia.
  - by rewrite <- Z.leb_antisym.
  - destruct (Z.eqb_spec (a mod 2 ^ n) (b mod 2 ^ n)), (Z.ltb_spec (a mod 2 ^ n) (b mod 2 ^ n)),
      (Z.leb_spec (a mod 2 ^ n) (b mod 2 ^ n)); done || lia.
  - destruct (Z.eqb_spec (a mod 2 ^ n) (b mod 2 ^ n)), (Z.ltb_spec (a mod 2 ^ n) (b mod 2 ^ n)),
      (Z.ltb_spec (b mod 2 ^ n) (a mod 2 ^ n)); done || lia.
Qed.
End width.

(** ** The arms *)

(** The results an op is held to. *)
Definition op_spec (o : Opcode.t) (ty : Type_.t) (ins cs : list Z) (cf : bool) :
    option (list Z * option bool) :=
  if fallback_ok o (Type_.size_bits ty) ins then op_results o ty ins cs cf else None.

Lemma reg_at_fmap l i : reg_at (Reg.discr <$> l) i = l.[i].
Proof.
  unfold reg_at. rewrite zlookup_fmap. destruct (l.[i]); [apply reg_from_discr|done].
Qed.

Lemma size_bits_opbits ty : ty = Type_.I32 ∨ ty = Type_.I64 → Type_.size_bits ty = opbits (is_i64 ty).
Proof. by intros [-> | ->]. Qed.

Lemma exec_arith undef op w d c h :
  execute undef (Arith op (size_of w) (R d) (R c)) h =
    Some (put_arith (size_of w) h (R d)
      (arith op (opbits w) (Host.reg h d mod 2 ^ opbits w) (Host.reg h c mod 2 ^ opbits w)
         (Flags.cf (Host.flags h))), Seq).
Proof. by destruct w. Qed.

(** The count of a shift is in CL, and counts modulo the width. *)
Lemma shift_count_rcx w x : shift_count (size_of w) (x mod 256) = x mod opbits w.
Proof. destruct w; [apply (mod_mod_pow2 x 6 8)|apply (mod_mod_pow2 x 5 8)]; lia. Qed.

Lemma div_pow2_range n x k : 0 < n → in_width n x → 0 ≤ k → 0 ≤ x / 2 ^ k < 2 ^ n.
Proof.
  intros Hn [H0 H1] Hk. pose proof (pow2_pos k Hk). split; [by apply Z.div_pos|].
  apply Z.div_lt_upper_bound; [done|]. nia.
Qed.

Lemma rotate_small n x k :
  0 < n → in_width n x → 0 ≤ k ≤ n →
  ((x * 2 ^ k) mod 2 ^ n + x / 2 ^ (n - k)) mod 2 ^ n = (x * 2 ^ k) mod 2 ^ n + x / 2 ^ (n - k).
Proof.
  intros Hn [H0 H1] Hk. apply Z.mod_small.
  pose proof (pow2_pos k ltac:(lia)) as Pk. pose proof (pow2_pos (n - k) ltac:(lia)) as Pnk.
  assert (2 ^ n = 2 ^ k * 2 ^ (n - k)) as En by (rewrite <- Z.pow_add_r by lia; f_equal; lia).
  assert (0 ≤ x / 2 ^ (n - k) < 2 ^ k) as Hd.
  { split; [by apply Z.div_pos|]. apply Z.div_lt_upper_bound; [done|]. lia. }
  assert ((x * 2 ^ k) mod 2 ^ n = 2 ^ k * (x mod 2 ^ (n - k))) as ->.
  { rewrite (Z.mul_comm x), En. apply Z.mul_mod_distr_l; lia. }
  pose proof (Z.mod_pos_bound x (2 ^ (n - k)) Pnk). nia.
Qed.

(** DIV and IDIV divide as the ops do. *)
Lemma sdivide_wide n hi lo b :
  0 < n → sdivide n (hi mod 2 ^ n) (lo mod 2 ^ n) (b mod 2 ^ n) = wide_divs n lo hi b.
Proof. intros. unfold sdivide, wide_divs. by rewrite !signed_of_mod. Qed.

Lemma divide_wide n hi lo b :
  0 < n → divide n (hi mod 2 ^ n) (lo mod 2 ^ n) (b mod 2 ^ n) = wide_divu n lo hi b.
Proof. done. Qed.

Lemma wide_divs_mod n lo hi b q m :
  wide_divs n lo hi b = Some (q, m) → 0 < n → q mod 2 ^ n = q ∧ m mod 2 ^ n = m.
Proof.
  unfold wide_divs. intros H Hn. destruct (_ =? 0); [done|]. destruct (_ && _); [|done].
  injection H as <- <-. by rewrite !mod_idem.
Qed.

Lemma wide_divu_mod n lo hi b q m :
  wide_divu n lo hi b = Some (q, m) → 0 < n → q mod 2 ^ n = q ∧ m mod 2 ^ n = m.
Proof.
  unfold wide_divu. intros H Hn. pose proof (mod_in_width n b ltac:(lia)) as [Hb0 Hb1].
  pose proof (mod_in_width n hi ltac:(lia)) as [? ?]. pose proof (mod_in_width n lo ltac:(lia)) as [? ?].
  destruct (_ =? 0) eqn:E0; [done|]. destruct (_ <? _) eqn:E1; [|done]. boolp.
  injection H as <- <-. split; apply Z.mod_small.
  - split; [|done]. apply Z.div_pos; nia.
  - pose proof (Z.mod_pos_bound (hi mod 2 ^ n * 2 ^ n + lo mod 2 ^ n) (b mod 2 ^ n)). lia.
Qed.

(** Look up in the lists of the goal. *)
Ltac lookups :=
  repeat match goal with
  | |- context [zlookup ?l ?i] => let v := eval cbv in (zlookup l i) in change (zlookup l i) with v
  end;
  cbn [mbind option_bind].

(** Unfold the arm of an op with opcode [H] to its emitters. *)
Ltac arm H :=
  eapply lowers_ext;
  [intros buf; unfold out_plain, out_alu, out_ext, out_wide, out_carry, out_bits, out_cond, out_mem;
   rewrite H; unfold out_arith, out_shift, out_unary, rexw_of; rewrite !reg_at_fmap; lookups; reflexivity|].

Ltac one_insn :=
  eapply lowers_one; [solve [eauto with enc]|];
  intros undef h vs co Hwf Hs.

(** The effect on one output register: the value written is left to show. *)
Ltac writes :=
  eexists; split; [reflexivity|]; apply result_one;
  [try apply defines_flags; try apply defines_write; rewrite ?bits_size_of, ?read_R; cbn [read Size.bits]|try discriminate 1].

Lemma put_arith_flags s h x r : Host.flags (put_arith s h x r) = r.2.
Proof. done. Qed.

Lemma add_mod3 n x y c : (x mod 2 ^ n + y mod 2 ^ n + c) mod 2 ^ n = (x + y + c) mod 2 ^ n.
Proof. by rewrite <- Zplus_mod_idemp_l, add_mod, Zplus_mod_idemp_l. Qed.

Lemma sub_mod3 n x y c : (x mod 2 ^ n - y mod 2 ^ n - c) mod 2 ^ n = (x - y - c) mod 2 ^ n.
Proof. by rewrite <- Zminus_mod_idemp_l, sub_mod, Zminus_mod_idemp_l. Qed.

#[local] Arguments swap_bytes : simpl never.
#[local] Arguments cond_decode : simpl never.

Lemma swap_bytes_range k a : in_width (8 * Z.of_nat k) (swap_bytes k a).
Proof.
  unfold swap_bytes.
  pose proof (le_value_range (rev (le_bytes k a)) ltac:(by apply Forall_rev, le_bytes_range)) as H.
  unfold zlen in H. by rewrite length_rev, le_bytes_length in H.
Qed.

Lemma swap_bytes_mod k a : swap_bytes k a mod 2 ^ (8 * Z.of_nat k) = swap_bytes k a.
Proof. apply Z.mod_small, swap_bytes_range. Qed.

Lemma le_value_app l1 l2 : le_value (l1 ++ l2) = le_value l1 + 2 ^ (8 * zlen l1) * le_value l2.
Proof.
  unfold zlen. induction l1 as [|x l1 IH]; [cbn; lia|]. cbn [app le_value length]. rewrite IH.
  replace (8 * Z.of_nat (S (length l1))) with (8 + 8 * Z.of_nat (length l1)) by lia.
  rewrite Z.pow_add_r by lia. ring.
Qed.

(** The low bytes of a word are the high ones of the swapped word. *)
Lemma swap_bytes_high j k a : swap_bytes (j + k) a / 2 ^ (8 * Z.of_nat k) = swap_bytes j a.
Proof.
  unfold swap_bytes. assert (le_bytes (j + k) a = le_bytes j a ++ le_bytes k (Z.shiftr a (8 * Z.of_nat j))) as ->.
  { revert a. induction j as [|j IH]; intros a; [done|]. cbn [Nat.add le_bytes]. rewrite IH. cbn [app].
    rewrite Z.shiftr_shiftr by lia. do 4 f_equal. lia. }
  rewrite rev_app_distr, le_value_app. unfold zlen. rewrite length_rev, le_bytes_length.
  rewrite (Z.mul_comm (2 ^ _)), Z.div_add by lia. rewrite Z.div_small; [done|].
  apply (swap_bytes_range k (Z.shiftr a (8 * Z.of_nat j))).
Qed.

Lemma swap_bytes_small j m a : 8 * Z.of_nat j ≤ m → swap_bytes j a mod 2 ^ m = swap_bytes j a.
Proof. intros. rewrite <- (swap_bytes_mod j a). apply mod_mod_pow2_ge. lia. Qed.

(** An arithmetic shift reads the sign of the high part. *)
Lemma signed_high i k m x :
  0 < i → 0 ≤ k → m = i + k → in_width m x → signed m x / 2 ^ k = signed i (x / 2 ^ k).
Proof.
  intros Hi Hk -> [H0 H1]. unfold signed. rewrite (Z.mod_small x) by lia.
  assert (0 ≤ x / 2 ^ k < 2 ^ i) as Hd.
  { rewrite Z.pow_add_r in H1 by lia. pose proof (pow2_pos k Hk). split; [by apply Z.div_pos|].
    apply Z.div_lt_upper_bound; lia. }
  rewrite (Z.mod_small (x / 2 ^ k)) by lia. pose proof (pow2_pos k Hk).
  assert (2 ^ (i + k - 1) = 2 ^ k * 2 ^ (i - 1)) as E by (rewrite <- Z.pow_add_r by lia; f_equal; lia).
  assert ((x <? 2 ^ (i + k - 1)) = (x / 2 ^ k <? 2 ^ (i - 1))) as ->.
  { rewrite E. destruct (Z.ltb_spec x (2 ^ k * 2 ^ (i - 1))).
    - symmetry. apply Z.ltb_lt, Z.div_lt_upper_bound; lia.
    - symmetry. apply Z.ltb_ge, Z.div_le_lower_bound; lia. }
  case_match; [done|]. rewrite Z.pow_add_r by lia.
  replace (x - 2 ^ i * 2 ^ k) with (x + - 2 ^ i * 2 ^ k) by lia. by rewrite Z.div_add by lia.
Qed.

Lemma count_range w x : 0 ≤ x ≤ opbits w → 0 ≤ x < 2 ^ opbits w.
Proof. destruct w; cbn; lia. Qed.

Lemma popcount_range w x : 0 ≤ popcount (opbits w) x < 2 ^ opbits w.
Proof.
  apply count_range. unfold popcount, zlen. split; [lia|].
  pose proof (length_filter (λ i, Z.testbit x i = true) (seqZ 0 (opbits w))) as H.
  rewrite length_seqZ in H. pose proof (opbits_pos w). lia.
Qed.

Lemma first_range n (P : Z → Prop) `{∀ i, Decision (P i)} :
  0 ≤ n → 0 ≤ default n (head (filter P (seqZ 0 n))) ≤ n.
Proof.
  intros. destruct (filter P (seqZ 0 n)) as [|i l] eqn:E; cbn; [lia|].
  assert (i ∈ filter P (seqZ 0 n)) as [_ Hi]%list_elem_of_filter by (rewrite E; left).
  apply elem_of_seqZ in Hi. lia.
Qed.

Lemma trailing_range w x : 0 ≤ trailing (opbits w) x < 2 ^ opbits w.
Proof. apply count_range, first_range. pose proof (opbits_pos w). lia. Qed.

Lemma leading_range w x : 0 ≤ leading (opbits w) x < 2 ^ opbits w.
Proof. apply count_range, first_range. pose proof (opbits_pos w). lia. Qed.

Lemma testable_cond k :
  testable k = true →
  ∃ c, cond_decode k = Some c ∧ cond_from_u32 k = Some c ∧ c ≠ Cond.Always ∧ c ≠ Cond.Never.
Proof.
  unfold testable. destruct (cond_decode k) as [c|] eqn:E; [|done]. intros Ht. boolp.
  exists c. split_and!; try done. unfold cond_decode in E.
  apply find_some in E as [_ Ek%Z.eqb_eq]. subst k. by destruct c.
Qed.

(** The comparison in front of a conditional instruction. *)
Definition compare_insn (w : bool) (c : Cond.t) (a b : Reg.t) : insn :=
  if Cond.is_tst c then Test (size_of w) (R b) (R a) else Arith ArithOp.Cmp (size_of w) (R a) (R b).

Lemma enc_compare w c a b : encodes (λ buf, emit_compare buf w c a b) (compare_insn w c a b).
Proof. unfold emit_compare, compare_insn. destruct (Cond.is_tst c); eauto with enc. Qed.

Lemma exec_compare undef w c a b h :
  c ≠ Cond.Always → c ≠ Cond.Never →
  ∃ f, execute undef (compare_insn w c a b) h = Some (Host.set_flags h f, Seq) ∧
    cond_holds (X86Cond.from_tcg c) f = Cond.holds c (opbits w) (Host.reg h a) (Host.reg h b).
Proof.
  intros Ha Hv. unfold compare_insn. destruct (Cond.is_tst c) eqn:Et.
  - eexists. split; [reflexivity|]. rewrite !bits_size_of, !read_R.
    destruct c; try done; cbn; by rewrite Z.land_comm.
  - eexists. split; [reflexivity|]. apply cmp_holds; [apply opbits_pos|done..|].
    cbn [arith snd]. by rewrite bits_size_of, !read_R.
Qed.

Lemma cond_holds_inv c f : cond_holds (X86Cond.invert c) f = negb (cond_holds c f).
Proof. destruct c; cbn; by rewrite ?negb_involutive. Qed.

Definition setcond_code (w : bool) (x : Cond.t) (d a c : Reg.t) (b : CodeBuffer) : option CodeBuffer :=
  b ← emit_compare b w x a c;
  b ← emit_setcc b (X86Cond.from_tcg x) d;
  emit_movzx b (Z.lor OPC_MOVZBL P_REXB_RM) d d.

Definition setcond_insns (w : bool) (x : Cond.t) (d a c : Reg.t) : list insn :=
  [compare_insn w x a c; Setcc (X86Cond.from_tcg x) (R d); Movx false Size.S8 Size.S32 d (R d)].

Lemma assembles_setcond w x d a c : assembles (setcond_code w x d a c) (setcond_insns w x d a c).
Proof.
  apply (assembles_cons _ _ _ _ (enc_compare w x a c)).
  apply (assembles_cons _ _ _ _ (enc_setcc _ d)), assembles_one, enc_movzbl_forced.
Qed.

Lemma setcond_flat (g : CodeBuffer → Reg.t → option CodeBuffer) w x d a c b :
  ('(b, r) ← (b ← emit_compare b w x a c;
              b ← emit_setcc b (X86Cond.from_tcg x) d;
              b ← emit_movzx b (Z.lor OPC_MOVZBL P_REXB_RM) d d;
              Some (b, d)); g b r) = b ← setcond_code w x d a c b; g b d.
Proof.
  unfold setcond_code. destruct (emit_compare _ _ _ _ _) as [b1|]; [|done]. cbn [mbind option_bind].
  destruct (emit_setcc _ _ _) as [b2|]; [|done]. cbn [mbind option_bind]. by destruct (emit_movzx _ _ _ _).
Qed.

Lemma bind_ret {A} (x : option A) : (a ← x; Some a) = x.
Proof. by destruct x. Qed.

Lemma low_write m x v : 0 < m → (x - x mod m + v mod m) mod m = v mod m.
Proof.
  intros. replace (x - x mod m) with (x / m * m) by (rewrite (Z.mod_eq x m) by lia; lia).
  by rewrite Z.add_comm, Z.mod_add, Z.mod_mod by lia.
Qed.

Lemma exec_setcond undef w x d a c h :
  x ≠ Cond.Always → x ≠ Cond.Never →
  ∃ h', exec_all undef (setcond_insns w x d a c) h = Some h' ∧
    Host.reg h' d = (if Cond.holds x (opbits w) (Host.reg h a) (Host.reg h c) then 1 else 0) ∧
    (∀ y, y ≠ d → Host.reg h' y = Host.reg h y) ∧ Host.mem h' = Host.mem h.
Proof.
  intros Ha Hv. destruct (exec_compare undef w x a c h Ha Hv) as (f & He & Hf).
  unfold setcond_insns. cbn [exec_all]. rewrite He. cbn [execute]. eexists. split; [reflexivity|].
  cbn [Host.set_flags Host.flags write read Size.bits]. rewrite Hf.
  set (v := if Cond.holds _ _ _ _ then _ else _).
  assert (v = 0 ∨ v = 1) as Hv01 by (unfold v; case_match; auto).
  split_and!.
  - unfold write_reg at 1. rewrite reg_set_eq. unfold write_reg. rewrite reg_set_eq. cbn [Size.bits Host.reg].
    rewrite low_write by done. destruct Hv01 as [-> | ->]; done.
  - intros y Hy. rewrite !write_reg_ne by done. done.
  - done.
Qed.

Section arms.
Context (self : G) (ctx : Context) (op : Op.t).
Context (Hty : Op.op_type op = Type_.I32 ∨ Op.op_type op = Type_.I64).
Notation ty := (Op.op_type op).
Notation w := (is_i64 (Op.op_type op)).
Notation n := (opbits w).
Notation plain oregs iregs cs := (λ b, out_plain self b ctx op (Reg.discr <$> oregs) (Reg.discr <$> iregs) cs).
Notation results o ins cs :=
  (λ h, op_spec o ty (Host.reg h <$> ins) cs (Flags.cf (Host.flags h))).

Lemma arm_bits : Type_.size_bits ty = n.
Proof. by apply size_bits_opbits. Qed.

(** The results, from the equation of the specification. *)
Ltac spec_of :=
  match goal with Hs : _ = Some (_, _) |- _ =>
    pose proof (opbits_pos w); cbn in Hs; rewrite ?arm_bits in Hs; first [injection Hs as <- <- | injection Hs as <- Hco]
  end.

Ltac simple H := arm H; one_insn; spec_of; writes.

Lemma arm_sub d a c :
  Op.opc op = Opcode.Sub → lowers (plain [d] [a; c] []) n [d] (results Opcode.Sub [d; c] []).
Proof. intros H. simple H. by rewrite sub_mod, mod_idem. Qed.

Lemma arm_add d a c :
  Op.opc op = Opcode.Add → c ≠ Reg.Rsp →
  lowers (plain [d] [a; c] []) n [d] (results Opcode.Add [a; c] []).
Proof.
  intros H Hc. eapply lowers_ext.
  { intros b. unfold out_plain, out_alu. rewrite H, !reg_at_fmap. lookups. reflexivity. }
  case_bool_decide as E1; [|case_bool_decide as E2]; subst.
  - one_insn. spec_of. writes. by rewrite add_mod, mod_idem.
  - one_insn. spec_of. writes. by rewrite add_mod, mod_idem, Z.add_comm.
  - eapply lowers_one; [apply enc_lea_sib; [by unfold is_i32|lia|done]|].
    intros undef h vs co Hwf Hs. spec_of. writes. unfold address, u64. cbn [Addr.base Addr.index Addr.disp].
    rewrite (mod_mod_pow2 _ n 64), Z.mul_1_r, Z.add_0_r by (by destruct w). done.
Qed.

Lemma arm_mul d a c :
  Op.opc op = Opcode.Mul → lowers (plain [d] [a; c] []) n [d] (results Opcode.Mul [d; c] []).
Proof. intros H. simple H. by rewrite mul_mod, mod_idem. Qed.

Lemma arm_and d a c :
  Op.opc op = Opcode.And → lowers (plain [d] [a; c] []) n [d] (results Opcode.And [d; c] []).
Proof. intros H. simple H. by rewrite land_mod. Qed.

Lemma arm_or d a c :
  Op.opc op = Opcode.Or → lowers (plain [d] [a; c] []) n [d] (results Opcode.Or [d; c] []).
Proof. intros H. simple H. by rewrite lor_mod. Qed.

Lemma arm_xor d a c :
  Op.opc op = Opcode.Xor → lowers (plain [d] [a; c] []) n [d] (results Opcode.Xor [d; c] []).
Proof. intros H. simple H. by rewrite lxor_mod. Qed.

Lemma arm_neg d a :
  Op.opc op = Opcode.Neg → lowers (plain [d] [a] []) n [d] (results Opcode.Neg [d] []).
Proof. intros H. simple H. by rewrite mod_idem, opp_mod. Qed.

Lemma arm_not d a :
  Op.opc op = Opcode.Not → lowers (plain [d] [a] []) n [d] (results Opcode.Not [d] []).
Proof. intros H. simple H. by rewrite mod_idem, not_mod. Qed.

Lemma arm_andc d a c :
  Op.opc op = Opcode.AndC → lowers (plain [d] [a; c] []) n [d] (results Opcode.AndC [a; c] []).
Proof. intros H. simple H. by rewrite ldiff_mod. Qed.

Lemma arm_shift o d a :
  o ∈ [Opcode.Shl; Opcode.Shr; Opcode.Sar; Opcode.RotL; Opcode.RotR] → Op.opc op = o →
  lowers (plain [d] [a; Reg.Rcx] []) n [d] (results o [d; Reg.Rcx] []).
Proof.
  intros Ho H. rewrite !elem_of_cons, elem_of_nil in Ho.
  destruct_or?; subst o; try done; rename H into H'; simple H'; rewrite shift_count_rcx; cbn [shift].
  - by rewrite mod_idem, Zmult_mod_idemp_l.
  - apply Z.mod_small, div_pow2_range; [lia|apply mod_in_width; lia|apply Z.mod_pos_bound; lia].
  - by rewrite mod_idem, signed_of_mod.
  - rewrite Zmod_mod. pose proof (Z.mod_pos_bound (Host.reg h Reg.Rcx) n ltac:(lia)).
    apply rotate_small; [lia|apply mod_in_width; lia|lia].
  - rewrite Zmod_mod, (Z.add_comm (_ / _)).
    pose proof (Z.mod_pos_bound (Host.reg h Reg.Rcx) n ltac:(lia)). set (k := _ mod n) in *.
    replace k with (n - (n - k)) at 2 4 by lia. apply rotate_small; [lia|apply mod_in_width; lia|lia].
Qed.

Lemma defines_at m w' d v x h :
  0 ≤ m ≤ 64 → (x mod 2 ^ opbits w') mod 2 ^ m = v → defines m d v h (write_reg (size_of w') h d x).
Proof. intros Hm <-. split_and!; [by rewrite write_reg_eq|intros; by apply write_reg_ne|by destruct w']. Qed.

Lemma arm_exts d s :
  Op.opc op = Opcode.ExtI32I64 → ty = Type_.I64 →
  lowers (plain [d] [s] []) n [d] (results Opcode.ExtI32I64 [s] []).
Proof.
  intros H E. arm H. one_insn. spec_of. writes. rewrite E.
  apply (defines_at 64 true); [done|]. by rewrite (signed_of_mod 32), !Z.mod_mod.
Qed.

Lemma arm_extu d s :
  Op.opc op = Opcode.ExtUI32I64 → ty = Type_.I64 → d ≠ s →
  lowers (plain [d] [s] []) n [d] (results Opcode.ExtUI32I64 [s] []).
Proof.
  intros H E Hd. arm H. rewrite bool_decide_false by done. cbn [negb].
  one_insn. spec_of. writes. rewrite E. apply (defines_at 64 false); [done|].
  rewrite !Z.mod_mod by done. apply (mod_mod_pow2_ge _ 32 64). lia.
Qed.

Lemma arm_extrl d s :
  Op.opc op = Opcode.ExtrlI64I32 → ty = Type_.I32 →
  lowers (plain [d] [s] []) n [d] (results Opcode.ExtrlI64I32 [s] []).
Proof.
  intros H E. arm H. case_bool_decide as Hd; cbn [negb].
  - subst s. eapply lowers_list; [apply assembles_nil|]. intros undef h vs co Hwf Hs. spec_of.
    exists h. split; [done|]. apply result_one; [|done]. by rewrite E.
  - one_insn. spec_of. writes. rewrite E. apply (defines_at 32 false); [done|]. by rewrite !Z.mod_mod.
Qed.

Lemma arm_extrh d s :
  Op.opc op = Opcode.ExtrhI64I32 → ty = Type_.I32 →
  lowers (plain [d] [s] []) n [d] (results Opcode.ExtrhI64I32 [d] []).
Proof.
  intros H E. arm H. eapply lowers_one; [apply (enc_shift_ri ShiftOp.Shr true); done|].
  intros undef h vs co Hwf Hs. spec_of. writes. rewrite E. apply (defines_at 32 true); [done|].
  change (shift_count (size_of true) 32) with 32. cbn [shift].
  pose proof (mod_in_width 64 (Host.reg h d) ltac:(lia)) as [? ?].
  rewrite (mod_mod_pow2 _ 32 64) by lia. apply Z.mod_small. split; [by apply Z.div_pos|].
  by apply Z.div_lt_upper_bound.
Qed.

(** *** Two outputs *)

Lemma result_two d1 d2 v1 v2 m h h' f :
  d1 ≠ d2 → v1 mod 2 ^ n = m.1 → v2 mod 2 ^ n = m.2 →
  h' = Host.set_flags (write_reg (size_of w) (write_reg (size_of w) h d1 v1) d2 v2) f →
  result n [d1; d2] [m.1; m.2] None h h'.
Proof.
  intros Hd E1 E2 ->. pose proof (opbits_pos w). split_and!.
  - constructor; [|constructor; [|done]]; cbn [Host.set_flags Host.reg].
    + rewrite write_reg_ne, write_reg_eq by done. by rewrite mod_idem.
    + rewrite write_reg_eq. by rewrite mod_idem.
  - intros r Hr. cbn [Host.set_flags Host.reg]. rewrite !write_reg_ne by set_solver. done.
  - by destruct w.
  - done.
Qed.

Lemma arm_muls2 c a :
  Op.opc op = Opcode.MulS2 →
  lowers (plain [Reg.Rax; Reg.Rdx] [a; c] []) n [Reg.Rax; Reg.Rdx] (results Opcode.MulS2 [Reg.Rax; c] []).
Proof.
  intros H. arm H. one_insn. spec_of. eexists. split; [reflexivity|].
  eapply (result_two _ _ _ _ (_, _)); [done| | |reflexivity]; cbn [fst snd];
    rewrite !bits_size_of, !read_R, !signed_of_mod by done; by rewrite mod_idem.
Qed.

Lemma arm_mulu2 c a :
  Op.opc op = Opcode.MulU2 →
  lowers (plain [Reg.Rax; Reg.Rdx] [a; c] []) n [Reg.Rax; Reg.Rdx] (results Opcode.MulU2 [Reg.Rax; c] []).
Proof.
  intros H. arm H. one_insn. spec_of. eexists. split; [reflexivity|].
  eapply (result_two _ _ _ _ (_, _)); [done| | |reflexivity]; cbn [fst snd];
    rewrite !bits_size_of, !read_R; [by rewrite mod_idem|].
  apply Z.mod_small. pose proof (mod_in_width n (Host.reg h Reg.Rax) ltac:(lia)) as [? ?].
  pose proof (mod_in_width n (Host.reg h c) ltac:(lia)) as [? ?].
  split; [apply Z.div_pos; nia|]. apply Z.div_lt_upper_bound; nia.
Qed.

Lemma arm_div o e c a b :
  (o, e) ∈ [(Opcode.DivS2, wide_divs); (Opcode.DivU2, wide_divu)] → Op.opc op = o →
  lowers (plain [Reg.Rax; Reg.Rdx] [a; b; c] []) n [Reg.Rax; Reg.Rdx]
    (results o [Reg.Rax; Reg.Rdx; c] []).
Proof.
  intros Ho H. rewrite !elem_of_cons, elem_of_nil in Ho.
  destruct_or?; simplify_eq; rename H into H'; arm H'; one_insn; rewrite ?H' in Hs; cbn in Hs; rewrite arm_bits in Hs;
    destruct (_ n _ _ _) as [[q m]|] eqn:E; try done; injection Hs as <- <-.
  - eexists. split.
    { unfold execute. rewrite !bits_size_of, !read_R, sdivide_wide, E by apply opbits_pos. reflexivity. }
    destruct (wide_divs_mod _ _ _ _ _ _ E (opbits_pos w)).
    by eapply (result_two _ _ _ _ (q, m)).
  - eexists. split.
    { unfold execute. rewrite !bits_size_of, !read_R, divide_wide, E by apply opbits_pos. reflexivity. }
    destruct (wide_divu_mod _ _ _ _ _ _ E (opbits_pos w)).
    by eapply (result_two _ _ _ _ (q, m)).
Qed.

(** *** Carries *)

Ltac carry_flag :=
  intros ? [= <-]; rewrite put_arith_flags, ?bits_size_of, ?read_R; cbn; by rewrite ?Z.add_0_r.

Ltac carry_value := rewrite mod_idem, ?add_mod3, ?sub_mod3, ?add_mod, ?sub_mod, ?Z.add_0_r, ?Z.sub_0_r; done.

Lemma arm_carry o d a c :
  o ∈ [Opcode.AddCO; Opcode.AddCI; Opcode.AddCIO; Opcode.SubBO; Opcode.SubBI; Opcode.SubBIO] →
  Op.opc op = o →
  lowers (plain [d] [a; c] []) n [d] (results o [d; c] []).
Proof.
  intros Ho H. rewrite !elem_of_cons, elem_of_nil in Ho.
  destruct_or?; subst o; try done; rename H into H'; simple H'; (carry_value || carry_flag).
Qed.

Lemma arm_carry1 o d a c :
  o ∈ [Opcode.AddC1O; Opcode.SubB1O] → Op.opc op = o →
  lowers (plain [d] [a; c] []) n [d] (results o [d; c] []).
Proof.
  intros Ho H. rewrite !elem_of_cons, elem_of_nil in Ho.
  destruct_or?; subst o; try done; rename H into H'; arm H';
    (eapply lowers_list; [apply assembles_two; [apply enc_stc|apply enc_arith_rr]|]);
    intros undef h vs co Hwf Hs; spec_of; eexists; (split; [reflexivity|]); apply result_one;
    try carry_flag; apply defines_flags; eapply defines_from_flags, defines_write;
    rewrite ?bits_size_of, ?read_R; cbn; carry_value.
Qed.

(** *** Bit fields *)

Lemma byte_source_low d s : low_byte d s = true → byte_source d s = R s.
Proof. unfold low_byte, byte_source. by intros ->. Qed.

Lemma arm_extract d s len :
  Op.opc op = Opcode.Extract → lowerable Opcode.Extract ty [d] [s] [0; len] = true →
  lowers (plain [d] [s] [0; len]) n [d] (results Opcode.Extract [s] [0; len]).
Proof.
  intros H Hl.
  assert (∀ m x, 0 ≤ m ≤ n → m ≤ 32 → (x mod 2 ^ m) mod 2 ^ 32 mod 2 ^ n = x mod 2 ^ n / 2 ^ 0 mod 2 ^ m) as Hv.
  { intros m x Hm H32. pose proof (opbits_pos w).
    rewrite Z.div_1_r, (mod_mod_pow2 x m n), (mod_mod_pow2_ge x m 32), (mod_mod_pow2_ge x m n) by lia. done. }
  assert (len = 8 ∧ low_byte d s = true ∨ len = 16 ∨ len = 32) as [ [-> Hb] | [-> | ->] ].
  { cbn in Hl. repeat case_match; naive_solver. }
  - arm H. eapply lowers_one; [apply enc_movzbl|]. rewrite (byte_source_low _ _ Hb).
    intros undef h vs co Hwf Hs. spec_of. writes. apply (defines_at _ false); [by destruct w|].
    rewrite (mod_mod_pow2_ge _ 8 32) by done. apply (Hv 8); by destruct w.
  - arm H. eapply lowers_one; [apply enc_movzwl|].
    intros undef h vs co Hwf Hs. spec_of. writes. apply (defines_at _ false); [by destruct w|].
    rewrite (mod_mod_pow2_ge _ 16 32) by done. apply (Hv 16); by destruct w.
  - arm H. eapply lowers_one; [apply (enc_mov_rr false)|].
    intros undef h vs co Hwf Hs. spec_of. writes. apply (defines_at _ false); [by destruct w|].
    apply (Hv 32); by destruct w.
Qed.

Lemma arm_sextract d s len :
  Op.opc op = Opcode.SExtract → lowerable Opcode.SExtract ty [d] [s] [0; len] = true →
  lowers (plain [d] [s] [0; len]) n [d] (results Opcode.SExtract [s] [0; len]).
Proof.
  intros H Hl.
  assert (∀ m x, 0 < m ≤ n → signed m (x mod 2 ^ m) mod 2 ^ n = signed m (x mod 2 ^ n / 2 ^ 0) mod 2 ^ n) as Hv.
  { intros m x Hm. rewrite Z.div_1_r, signed_of_mod by lia. f_equal. unfold signed.
    by rewrite (mod_mod_pow2 x m n) by lia. }
  assert (len = 8 ∧ (w = true ∨ low_byte d s = true) ∨ len = 16 ∨ len = 32) as Hlen.
  { cbn in Hl. repeat case_match; try done; try naive_solver.
    apply orb_true_iff in Hl. naive_solver. }
  destruct Hlen as [ [-> Hb] | [-> | ->] ]; arm H; unfold sx_opc.
  - assert (encodes (λ b, emit_movsx b (if w then Z.lor OPC_MOVSBL P_REXW else OPC_MOVSBL) d s)
      (Movx true Size.S8 (size_of w) d (R s))) as He.
    { destruct w; [apply enc_movsbq|]. destruct Hb as [|Hb]; [done|].
      rewrite <- (byte_source_low _ _ Hb). apply enc_movsbl. }
    eapply lowers_one; [exact He|]. intros undef h vs co Hwf Hs. spec_of. writes.
    rewrite mod_idem by done. apply (Hv 8). by destruct w.
  - assert (encodes (λ b, emit_movsx b (if w then Z.lor OPC_MOVSWL P_REXW else OPC_MOVSWL) d s)
      (Movx true Size.S16 (size_of w) d (R s))) as He by (destruct w; [apply enc_movswq|apply enc_movswl]).
    eapply lowers_one; [exact He|]. intros undef h vs co Hwf Hs. spec_of. writes.
    rewrite mod_idem by done. apply (Hv 16). by destruct w.
  - eapply lowers_one; [apply enc_movslq|]. intros undef h vs co Hwf Hs. spec_of. writes.
    apply (defines_at _ true); [by destruct w|]. rewrite Z.mod_mod by done.
    rewrite (mod_mod_pow2 _ n 64) by (by destruct w). apply (Hv 32). by destruct w.
Qed.

Lemma arm_deposit d a s len :
  Op.opc op = Opcode.Deposit → lowerable Opcode.Deposit ty [d] [a; s] [0; len] = true →
  lowers (plain [d] [a; s] [0; len]) n [d] (results Opcode.Deposit [d; s] [0; len]).
Proof.
  intros H Hl.
  assert (∀ m x y, 0 ≤ m ≤ n → (x - x mod 2 ^ m + y mod 2 ^ m) mod 2 ^ n =
    (x mod 2 ^ n - (x mod 2 ^ n / 2 ^ 0 mod 2 ^ m - y mod 2 ^ m) * 2 ^ 0) mod 2 ^ n) as Hv.
  { intros m x y Hm. rewrite Z.div_1_r, Z.mul_1_r, (mod_mod_pow2 x m n) by lia.
    rewrite Zminus_mod_idemp_l. f_equal. lia. }
  assert (len = 8 ∨ len = 16) as Hlen by (cbn in Hl; repeat case_match; naive_solver).
  destruct Hlen as [-> | ->]; arm H.
  - eapply lowers_one; [apply enc_deposit8|]. intros undef h vs co Hwf Hs. spec_of. writes.
    split_and!; [|by intros; apply reg_set_ne|done]. cbn [write]. unfold write_reg. rewrite reg_set_eq, Z.mod_mod by done.
    apply (Hv 8). by destruct w.
  - eapply lowers_one; [apply enc_deposit16|]. intros undef h vs co Hwf Hs. spec_of. writes.
    split_and!; [|by intros; apply reg_set_ne|done]. cbn [write]. unfold write_reg. rewrite reg_set_eq, Z.mod_mod by done.
    apply (Hv 16). by destruct w.
Qed.

Lemma arm_extract2 d a s ofs :
  Op.opc op = Opcode.Extract2 → 0 ≤ ofs < n →
  lowers (plain [d] [a; s] [ofs]) n [d] (results Opcode.Extract2 [d; s] [ofs]).
Proof.
  intros H Ho. assert (in_width 8 (u8 ofs)) as H8 by (apply (mod_in_width 8); lia).
  arm H. eapply lowers_one; [by apply enc_shrd_ri|].
  intros undef h vs co Hwf Hs. spec_of. writes.
  assert (shift_count (size_of w) (u8 ofs) = ofs) as ->.
  { revert Ho. unfold u8. destruct w; cbn [opbits]; intros Ho; rewrite (Z.mod_small ofs) by lia;
      by apply Z.mod_small. }
  by rewrite mod_idem.
Qed.

(** *** Byte swaps and bit counts *)

Lemma defines_over m s d v x h h' : defines m d v (write_reg s h d x) h' → defines m d v h h'.
Proof.
  intros (Hv & Hr & Hm). split_and!; [done| |by rewrite Hm].
  intros y Hy. rewrite Hr by done. by apply write_reg_ne.
Qed.

Ltac two_insns := intros undef h vs co Hwf Hs; eexists; split; [reflexivity|];
  cbn in Hs; rewrite ?arm_bits in Hs.

Lemma arm_bswap16 d a f :
  Op.opc op = Opcode.Bswap16 → lowerable Opcode.Bswap16 ty [d] [a] [f] = true →
  lowers (plain [d] [a] [f]) n [d] (results Opcode.Bswap16 [d] [f]).
Proof.
  intros H Hl. cbn in Hl. pose proof (opbits_pos w).
  arm H. unfold emit_bswap16. destruct (Z.land f 4 =? 0) eqn:E4; cbn [negb orb] in *.
  - rewrite Hl. eapply lowers_list.
    { apply assembles_two; [apply (enc_bswap false)|by apply (enc_shift_ri ShiftOp.Shr false)]. }
    two_insns. rewrite E4 in Hs. injection Hs as <- <-.
    apply result_one; [|done]. apply defines_flags. eapply defines_over, (defines_at _ false); [by destruct w|].
    rewrite read_R, write_reg_eq. cbn [opbits shift Size.bits size_of].
    change (shift_count Size.S32 16) with 16. change (Size.bytes Size.S32) with 4%nat. fold (swap_bytes 4 (Host.reg h d)).
    rewrite !(swap_bytes_mod 4), (swap_bytes_high 2 2). f_equal. apply (swap_bytes_small 2). lia.
  - destruct w eqn:Ew.
    + eapply lowers_list.
      { apply assembles_two; [apply (enc_bswap true)|by apply (enc_shift_ri ShiftOp.Sar true)]. }
      two_insns. rewrite E4 in Hs. injection Hs as <- <-. 
      apply result_one; [|done]. apply defines_flags. eapply defines_over, (defines_at _ true); [done|].
      rewrite read_R, write_reg_eq. cbn [opbits shift Size.bits size_of].
      change (shift_count Size.S64 48) with 48. change (Size.bytes Size.S64) with 8%nat. fold (swap_bytes 8 (Host.reg h d)).
      rewrite !(swap_bytes_mod 8), !Z.mod_mod, (signed_high 16 48 64), (swap_bytes_high 2 6)
        by (done || apply (swap_bytes_range 8)). by rewrite Ew.
    + eapply lowers_list.
      { apply assembles_two; [apply (enc_bswap false)|by apply (enc_shift_ri ShiftOp.Sar false)]. }
      two_insns. rewrite E4 in Hs. injection Hs as <- <-. 
      apply result_one; [|done]. apply defines_flags. eapply defines_over, (defines_at _ false); [done|].
      rewrite read_R, write_reg_eq. cbn [opbits shift Size.bits size_of].
      change (shift_count Size.S32 16) with 16. change (Size.bytes Size.S32) with 4%nat. fold (swap_bytes 4 (Host.reg h d)).
      rewrite !(swap_bytes_mod 4), !Z.mod_mod, (signed_high 16 16 32), (swap_bytes_high 2 2)
        by (done || apply (swap_bytes_range 4)). by rewrite Ew.
Qed.

Lemma arm_bswap32 d a f :
  Op.opc op = Opcode.Bswap32 → lowers (plain [d] [a] [f]) n [d] (results Opcode.Bswap32 [d] [f]).
Proof.
  intros H. pose proof (opbits_pos w). arm H. destruct (Z.land f 4 =? 0) eqn:E4; cbn [negb].
  - eapply lowers_ext with (g := λ b, emit_bswap b false d); [intros b; by destruct (emit_bswap b false d)|].
    eapply lowers_one; [apply (enc_bswap false)|]. intros undef h vs co Hwf Hs. cbn in Hs. rewrite E4 in Hs.
    spec_of. writes. apply (defines_at _ false); [by destruct w|]. cbn [opbits size_of Size.bytes].
    fold (swap_bytes 4 (Host.reg h d)). by rewrite (swap_bytes_mod 4).
  - eapply lowers_list.
    { apply assembles_two; [apply (enc_bswap false)|apply enc_movslq]. }
    two_insns. rewrite E4 in Hs. injection Hs as <- <-.
    apply result_one; [|done]. eapply defines_over, (defines_at _ true); [by destruct w|].
    rewrite (read_R false), write_reg_eq. cbn [opbits size_of Size.bytes]. fold (swap_bytes 4 (Host.reg h d)).
    rewrite !(swap_bytes_mod 4), Z.mod_mod by done. apply mod_mod_pow2. by destruct w.
Qed.

Lemma arm_bswap64 d a f :
  Op.opc op = Opcode.Bswap64 → ty = Type_.I64 →
  lowers (plain [d] [a] [f]) n [d] (results Opcode.Bswap64 [d] [f]).
Proof.
  intros H E. arm H. eapply lowers_one; [apply (enc_bswap true)|]. intros undef h vs co Hwf Hs.
  spec_of. writes. rewrite E. apply (defines_at _ true); [done|]. change (opbits (is_i64 Type_.I64)) with 64.
  rewrite Z.mod_mod by done. apply (swap_bytes_mod 8).
Qed.

Lemma arm_count o d a r :
  o ∈ [Opcode.Clz; Opcode.Ctz] → Op.opc op = o →
  lowers (plain [d] [a; r] []) n [d] (results o [a; r] []).
Proof.
  intros Ho H. rewrite !elem_of_cons, elem_of_nil in Ho.
  destruct_or?; subst o; try done; rename H into H'; arm H';
    (eapply lowers_one; [by apply enc_scan; rewrite !elem_of_cons; auto 10|]);
    intros undef h vs co Hwf Hs; unfold op_spec in Hs; cbn in Hs; rewrite !arm_bits in Hs;
    (destruct (_ || _) eqn:E; [|done]); injection Hs as <- <-; writes; cbn [scan_value].
  - rewrite Z.mod_small by apply leading_range. destruct (_ =? 0) eqn:E0; [|done].
    cbn in E. boolp. rewrite E0, E. by destruct w.
  - rewrite Z.mod_small by apply trailing_range. destruct (_ =? 0) eqn:E0; [|done].
    cbn in E. boolp. rewrite E0, E. by destruct w.
Qed.

Lemma arm_ctpop d a :
  Op.opc op = Opcode.CtPop → lowers (plain [d] [a] []) n [d] (results Opcode.CtPop [a] []).
Proof.
  intros H. arm H. eapply lowers_one; [by apply enc_scan; rewrite !elem_of_cons; auto 10|]. intros undef h vs co Hwf Hs.
  spec_of. writes. cbn [scan_value]. apply Z.mod_small, popcount_range.
Qed.

(** *** Conditions *)

Lemma arm_setcond d a c k :
  Op.opc op = Opcode.SetCond → testable k = true →
  lowers (plain [d] [a; c] [k]) n [d] (results Opcode.SetCond [a; c] [k]).
Proof.
  intros H Hk. destruct (testable_cond k Hk) as (x & Ex & Eu & Ha & Hv).
  eapply lowers_ext.
  { intros buf. unfold out_plain, out_cond, emit_setcond. rewrite H, !reg_at_fmap. lookups.
    unfold rexw_of. rewrite Eu.
    etransitivity; [apply (setcond_flat (λ b _, Some b))|apply bind_ret]. }
  eapply lowers_list; [apply assembles_setcond|].
  intros undef h vs co Hwf Hs. unfold op_spec in Hs. cbn in Hs. rewrite Ex, arm_bits in Hs. injection Hs as <- <-.
  destruct (exec_setcond undef w x d a c h Ha Hv) as (h' & He & Hd). exists h'. split; [done|].
  apply result_one; [|done]. destruct Hd as (Hv' & ? & ?). split_and!; [rewrite Hv'|done..].
  case_match; destruct w; done.
Qed.

Lemma arm_negsetcond d a c k :
  Op.opc op = Opcode.NegSetCond → testable k = true →
  lowers (plain [d] [a; c] [k]) n [d] (results Opcode.NegSetCond [a; c] [k]).
Proof.
  intros H Hk. destruct (testable_cond k Hk) as (x & Ex & Eu & Ha & Hv).
  eapply lowers_ext.
  { intros buf. unfold out_plain, out_cond, emit_setcond. rewrite H, !reg_at_fmap. lookups.
    unfold rexw_of. rewrite Eu. apply (setcond_flat (λ b r, emit_neg b w r)). }
  eapply lowers_list.
  { eapply assembles_bind; [apply assembles_setcond|apply assembles_one, enc_neg]. }
  intros undef h vs co Hwf Hs. unfold op_spec in Hs. cbn in Hs. rewrite Ex, arm_bits in Hs. injection Hs as <- <-.
  destruct (exec_setcond undef w x d a c h Ha Hv) as (h' & He & Hv' & Hr & Hm).
  rewrite exec_all_app, He. cbn [mbind option_bind exec_all execute]. eexists. split; [reflexivity|].
  apply result_one; [|done]. apply defines_flags. split_and!.
  - cbn [write]. rewrite write_reg_eq, bits_size_of, read_R, Hv'. case_match; by destruct w.
  - intros y Hy. cbn [write]. rewrite write_reg_ne by done. by apply Hr.
  - done.
Qed.

Lemma arm_movcond d a c v1 v2 k :
  Op.opc op = Opcode.MovCond → testable k = true →
  lowers (plain [d] [a; c; v1; v2] [k]) n [d] (results Opcode.MovCond [a; c; d; v2] [k]).
Proof.
  intros H Hk. destruct (testable_cond k Hk) as (x & Ex & Eu & Ha & Hv).
  eapply lowers_ext.
  { intros buf. unfold out_plain, out_cond. rewrite H, !reg_at_fmap. lookups.
    unfold rexw_of. rewrite Eu. cbn [mbind option_bind]. reflexivity. }
  eapply lowers_list; [apply assembles_two; [apply enc_compare|apply enc_cmovcc]|].
  intros undef h vs co Hwf Hs. unfold op_spec in Hs. cbn in Hs. rewrite Ex, arm_bits in Hs. injection Hs as <- <-.
  destruct (exec_compare undef w x a c h Ha Hv) as (f & He & Hf).
  cbn [exec_all]. rewrite He. eexists. split; [reflexivity|].
  apply result_one; [|done]. eapply defines_from_flags, defines_write.
  cbn [Host.set_flags Host.flags]. rewrite cond_holds_inv, Hf.
  destruct (Cond.holds x n (Host.reg h a) (Host.reg h c)); cbn [negb]; rewrite read_R, mod_idem by apply opbits_pos; done.
Qed.
End arms.

(** ** The theorem *)

Lemma satisfies_length o oregs iregs :
  satisfies o oregs iregs →
  length oregs = Z.to_nat (nb_oargs (def o)) ∧ length iregs = Z.to_nat (nb_iargs (def o)).
Proof.
  assert (length (OpConstraint.args (X86.op_constraint o)) = 10%nat ∧
    (Z.to_nat (nb_oargs (def o)) + Z.to_nat (nb_iargs (def o)) ≤ 10)%nat) as [Hl Hn]
    by (destruct o; split; vm_compute; lia).
  intros [Ho%Forall2_length Hi%Forall2_length]. unfold read_regs in Hi.
  rewrite length_imap, length_take, length_drop in Hi. rewrite length_take in Ho. lia.
Qed.

(** The outputs and inputs that must be in one register, and an index register. *)
Lemma contains_fixed r x : arg_ok (fixed (Reg.discr r)) x → x = r.
Proof. destruct r, x; (reflexivity || discriminate 1). Qed.

Lemma allocatable_not_rsp x : arg_ok (Constraint.r X86.R) x → x ≠ Reg.Rsp.
Proof. intros H ->. discriminate H. Qed.

Lemma satisfies_nth o oregs iregs i r :
  satisfies o oregs iregs → read_regs o oregs iregs !! i = Some r →
  ∃ c, (take (Z.to_nat (nb_iargs (def o))) (drop (Z.to_nat (nb_oargs (def o)))
         (OpConstraint.args (X86.op_constraint o)))) !! i = Some c ∧ arg_ok c r.
Proof. intros [_ Hi] Hr. destruct (Forall2_lookup_r _ _ _ _ _ Hi Hr) as (c & ? & ?). eauto. Qed.

Lemma satisfies_out o oregs iregs i r :
  satisfies o oregs iregs → oregs !! i = Some r →
  ∃ c, take (Z.to_nat (nb_oargs (def o))) (OpConstraint.args (X86.op_constraint o)) !! i = Some c ∧ arg_ok c r.
Proof. intros [Ho _] Hr. destruct (Forall2_lookup_r _ _ _ _ _ Ho Hr) as (c & ? & ?). eauto. Qed.


(** The lists of registers and constants that go with an opcode. *)
Ltac shapes Ho Hi :=
  repeat match type of Ho with
  | length ?l = S _ => destruct l as [|?r l]; [discriminate Ho|apply (f_equal pred) in Ho; cbn [length Nat.pred] in Ho]
  | length ?l = O => destruct l; [clear Ho|discriminate Ho]
  end;
  repeat match type of Hi with
  | length ?l = S _ => destruct l as [|?r l]; [discriminate Hi|apply (f_equal pred) in Hi; cbn [length Nat.pred] in Hi]
  | length ?l = O => destruct l; [clear Hi|discriminate Hi]
  end.

(** Output [i], or input [i] as it is read, satisfies its constraint. *)
Ltac out_arg Hs i H :=
  let c := fresh in let E := fresh in
  destruct (satisfies_out _ _ _ i _ Hs eq_refl) as (c & E & H); vm_compute in E; injection E as <-.
Ltac in_arg Hs i H :=
  let c := fresh in let E := fresh in
  match type of Hs with satisfies ?o ?x ?y =>
    let v := eval vm_compute in (read_regs o x y !! i) in
    match v with Some ?r =>
      destruct (satisfies_nth o x y i r Hs eq_refl) as (c & E & H); vm_compute in E; injection E as <-
    end
  end.

Ltac in_list := rewrite !elem_of_cons; auto 10.

Lemma lowerable_field o ty oregs iregs cs :
  o ∈ [Opcode.Extract; Opcode.SExtract; Opcode.Deposit] → lowerable o ty oregs iregs cs = true →
  ∃ len, cs = [0; len].
Proof.
  rewrite !elem_of_cons, elem_of_nil. intros Ho H.
  destruct cs as [|ofs [|len [|? ?]]];
    [exfalso; destruct_or?; subst o; (discriminate H || done)| | |].
  - exfalso. destruct_or?; subst o; try done; by destruct ofs.
  - exists len. destruct_or?; subst o; try done; destruct ofs; (done || discriminate H).
  - exfalso. destruct_or?; subst o; try done; cbn in H; repeat (case_match; try done).
Qed.

Ltac arm_of_clz Hs Hl Hty cs :=
  apply (arm_count _ _ _ Hty); [in_list|done].
Ltac arm_of_shl Hs Hl Hty cs :=
  let Hc := fresh in in_arg Hs 1%nat Hc; apply (contains_fixed Reg.Rcx) in Hc as ->;
  apply (arm_shift _ _ _ Hty); [in_list|done].
Ltac arm_of_addco Hs Hl Hty cs :=
  apply (arm_carry _ _ _ Hty); [in_list|done].
Ltac arm_of_addc1o Hs Hl Hty cs :=
  apply (arm_carry1 _ _ _ Hty); [in_list|done].
Ltac arm_of_wide tac Hs :=
  let H0 := fresh in let H1 := fresh in out_arg Hs 0%nat H0; out_arg Hs 1%nat H1;
  apply (contains_fixed Reg.Rax) in H0 as ->; apply (contains_fixed Reg.Rdx) in H1 as ->;
  by tac.
Ltac arm_of_divs2 Hs Hl Hty cs :=
  let H0 := fresh in let H1 := fresh in out_arg Hs 0%nat H0; out_arg Hs 1%nat H1;
  apply (contains_fixed Reg.Rax) in H0 as ->; apply (contains_fixed Reg.Rdx) in H1 as ->;
  eapply (arm_div _ _ _ Hty); [in_list|done].
Ltac arm_of_setcond tac Hl cs := destruct cs as [|k [|? ?]]; try discriminate Hl; by tac.
Ltac arm_of_field tac Hl :=
  let Hm := fresh in pose proof (λ Ho, lowerable_field _ _ _ _ _ Ho Hl) as Hm;
  destruct Hm as [len ->]; [in_list|]; by tac.

Lemma is_i64_true ty : is_i64 ty = true → ty = Type_.I64.
Proof. unfold is_i64. intros H. by boolp. Qed.

Lemma is_i64_false ty : ty = Type_.I32 ∨ ty = Type_.I64 → negb (is_i64 ty) = true → ty = Type_.I32.
Proof. by intros [-> | ->]. Qed.

Lemma arms_lower self ctx op oregs iregs cs :
  Op.op_type op = Type_.I32 ∨ Op.op_type op = Type_.I64 →
  satisfies (Op.opc op) oregs iregs →
  lowerable (Op.opc op) (Op.op_type op) oregs iregs cs = true →
  lowers (λ b, out_plain self b ctx op (Reg.discr <$> oregs) (Reg.discr <$> iregs) cs)
    (opbits (is_i64 (Op.op_type op))) oregs
    (λ h, op_spec (Op.opc op) (Op.op_type op) (Host.reg h <$> read_regs (Op.opc op) oregs iregs) cs
            (Flags.cf (Host.flags h))).
Proof.
  intros Hty Hs Hl. pose proof (satisfies_length _ _ _ Hs) as [Ho Hi].
  destruct (Op.opc op) eqn:H; try discriminate Hl;
    match type of Ho with _ = ?x => let k := eval vm_compute in x in change (length oregs = k) in Ho end;
    match type of Hi with _ = ?x => let k := eval vm_compute in x in change (length iregs = k) in Hi end;
    shapes Ho Hi.
  all: match goal with |- context [read_regs ?o ?x ?y] =>
         let v := eval vm_compute in (read_regs o x y) in change (read_regs o x y) with v end.
  all: try (destruct cs as [|? ?]; [|discriminate Hl]).
  all: lazymatch goal with
  | |- context [op_spec ?o] =>
      lazymatch o with
      | Opcode.Add =>
          let Hc := fresh in in_arg Hs 1%nat Hc; apply arm_add; [done..|]; by apply allocatable_not_rsp
      | Opcode.Sub => by apply arm_sub
      | Opcode.Mul => by apply arm_mul
      | Opcode.Neg => by apply arm_neg
      | Opcode.Not => by apply arm_not
      | Opcode.And => by apply arm_and
      | Opcode.Or => by apply arm_or
      | Opcode.Xor => by apply arm_xor
      | Opcode.AndC => by apply arm_andc
      | Opcode.CtPop => by apply arm_ctpop
      | Opcode.Clz => arm_of_clz Hs Hl Hty cs
      | Opcode.Ctz => arm_of_clz Hs Hl Hty cs
      | Opcode.Shl => arm_of_shl Hs Hl Hty cs
      | Opcode.Shr => arm_of_shl Hs Hl Hty cs
      | Opcode.Sar => arm_of_shl Hs Hl Hty cs
      | Opcode.RotL => arm_of_shl Hs Hl Hty cs
      | Opcode.RotR => arm_of_shl Hs Hl Hty cs
      | Opcode.AddCO => arm_of_addco Hs Hl Hty cs
      | Opcode.AddCI => arm_of_addco Hs Hl Hty cs
      | Opcode.AddCIO => arm_of_addco Hs Hl Hty cs
      | Opcode.SubBO => arm_of_addco Hs Hl Hty cs
      | Opcode.SubBI => arm_of_addco Hs Hl Hty cs
      | Opcode.SubBIO => arm_of_addco Hs Hl Hty cs
      | Opcode.AddC1O => arm_of_addc1o Hs Hl Hty cs
      | Opcode.SubB1O => arm_of_addc1o Hs Hl Hty cs
      | Opcode.MulS2 => arm_of_wide ltac:(apply arm_muls2) Hs
      | Opcode.MulU2 => arm_of_wide ltac:(apply arm_mulu2) Hs
      | Opcode.DivS2 => arm_of_divs2 Hs Hl Hty cs
      | Opcode.DivU2 => arm_of_divs2 Hs Hl Hty cs
      | Opcode.SetCond => arm_of_setcond ltac:(apply arm_setcond) Hl cs
      | Opcode.NegSetCond => arm_of_setcond ltac:(apply arm_negsetcond) Hl cs
      | Opcode.MovCond => arm_of_setcond ltac:(apply arm_movcond) Hl cs
      | Opcode.Extract => arm_of_field ltac:(apply arm_extract) Hl
      | Opcode.SExtract => arm_of_field ltac:(apply arm_sextract) Hl
      | Opcode.Deposit => arm_of_field ltac:(apply arm_deposit) Hl
      | Opcode.Extract2 =>
          destruct cs as [|k [|? ?]]; try discriminate Hl; apply arm_extract2; [done..|];
          cbn in Hl; rewrite size_bits_opbits in Hl by done; boolp; lia
      | Opcode.Bswap16 => destruct cs as [|k [|? ?]]; try discriminate Hl; by apply arm_bswap16
      | Opcode.Bswap32 => destruct cs as [|k [|? ?]]; try discriminate Hl; by apply arm_bswap32
      | Opcode.Bswap64 =>
          destruct cs as [|k [|? ?]]; try discriminate Hl; apply arm_bswap64; [done..|by apply is_i64_true]
      | Opcode.ExtI32I64 => apply arm_exts; [done..|by apply is_i64_true]
      | Opcode.ExtUI32I64 =>
          cbn in Hl; apply andb_true_iff in Hl as [Hd%bool_decide_eq_true Hl];
          apply arm_extu; try done; [by apply is_i64_true|congruence]
      | Opcode.ExtrlI64I32 => apply arm_extrl; [done..|by apply is_i64_false]
      | Opcode.ExtrhI64I32 => apply arm_extrh; [done..|by apply is_i64_false]
      end
  end.
Qed.
(** C3. The code [tcg_out_op] emits for an arithmetic, logic, shift, division, carry, bit-field,
    byte-swap, bit-count or conditional op, in registers that satisfy its constraints, leaves
    the results the op is documented to have in its output registers (and its carry in the
    carry flag), and changes no other register and no memory.  Excepted are, by [lowerable],
    the forms the lowering does not take or gets wrong, and by [fallback_ok] a bit count of
    zero whose fallback is not the width. *)
Theorem lowering_computes self ctx op oregs iregs cs :
  Op.op_type op = Type_.I32 ∨ Op.op_type op = Type_.I64 →
  satisfies (Op.opc op) oregs iregs →
  lowerable (Op.opc op) (Op.op_type op) oregs iregs cs = true →
  lowers (λ b, snd <$> x86_out_op self b ctx op (Reg.discr <$> oregs) (Reg.discr <$> iregs) cs)
    (Type_.size_bits (Op.op_type op)) oregs
    (λ h, op_spec (Op.opc op) (Op.op_type op) (Host.reg h <$> read_regs (Op.opc op) oregs iregs) cs
            (Flags.cf (Host.flags h))).
Proof.
  intros Hty Hs Hl. rewrite size_bits_opbits by done.
  apply (lowers_ext _ (λ b, out_plain self b ctx op (Reg.discr <$> oregs) (Reg.discr <$> iregs) cs)).
  { intros b. assert (Op.opc op ≠ Opcode.GotoTb) as Hg by (intros E; by rewrite E in Hl).
    unfold x86_out_op. destruct (Op.opc op) eqn:E; try done; by destruct (out_plain _ _ _ _ _ _ _). }
  by apply arms_lower.
Qed.

(** [sub] in RBX and R12, from a state where they hold 5 and 7. *)
Definition example_op : Op.t := Op.new 0 Opcode.Sub Type_.I64.
Definition example_host : Host.t :=
  Host.mk (λ r, match r with Reg.Rbx => 5 | Reg.R12 => 7 | _ => 0 end) (Flags.mk false false false false false) (λ _, 0).

Lemma lowering_computes_witness :
  ∃ il h', assembles (λ b, snd <$> x86_out_op X86_64CodeGen.new b context_new example_op [3] [3; 12] []) il ∧
    exec_all (λ _ _, Flags.mk false false false false false) il example_host = Some h' ∧
    Host.reg h' Reg.Rbx mod 2 ^ 64 = 2 ^ 64 - 2.
Proof.
  destruct (lowering_computes X86_64CodeGen.new context_new example_op [Reg.Rbx] [Reg.Rbx; Reg.R12] []
    (or_intror eq_refl) ltac:(by apply (bool_decide_unpack _)) eq_refl) as (il & Ha & Hx).
  destruct (Hx (λ _ _, Flags.mk false false false false false) example_host [2 ^ 64 - 2] None
    ltac:(by intros []) eq_refl) as (h' & He & Hv & _).
  exists il, h'. split_and!; [exact Ha|exact He|].
  by inversion_clear Hv.
Defined.
