(* ===== verification/X86MemSound.v ===== *)
(** * The lowering of loads, stores and branches

    The memory ops and [BrCond] of codegen.rs, executed by X86Isa.v: a load leaves the
    bytes at its address, extended as the op says, in its output; a store changes
    exactly the bytes it names; a branch leads to its label exactly when the condition
    holds. *)

From S2P Require Import Prelude Types Opcodes Ir IrSem CodeBuffer X86Regs Constraint X86Emit HostCodeGen.
From S2P Require Import X86CodeGen X86Isa X86EmitSound X86OpSound.

(** ** What the ops mean *)

(** Address, size and sign of a load; [gb] is the guest base. *)
Definition load_of (o : Opcode.t) (n gb : Z) (ins cs : list Z) : option (Z * nat * bool) :=
  match ins, cs with
  | [b], [x] =>
      let a := u64 (b + i32 x) in
      match o with
      | Opcode.Ld => Some (a, Z.to_nat (n / 8), false)
      | Opcode.Ld8U => Some (a, 1%nat, false)
      | Opcode.Ld8S => Some (a, 1%nat, true)
      | Opcode.Ld16U => Some (a, 2%nat, false)
      | Opcode.Ld16S => Some (a, 2%nat, true)
      | Opcode.Ld32U => Some (a, 4%nat, false)
      | Opcode.Ld32S => Some (a, 4%nat, true)
      | Opcode.QemuLd => Some (u64 (gb + b), Z.to_nat (MemOp.size_bytes x), MemOp.is_signed x)
      | _ => None
      end
  | _, _ => None
  end.

Definition load_spec (o : Opcode.t) (ty : Type_.t) (h : Host.t) (ins cs : list Z) :
    option (list Z * option bool) :=
  let n := Type_.size_bits ty in
  '(a, k, sg) ← load_of o n (Host.reg h TCG_GUEST_BASE_REG) ins cs;
  let v := Host.load h a k in
  Some ([(if (sg : bool) then signed (8 * Z.of_nat k) v else v) mod 2 ^ n], None).

(** Address, size and value of a store. *)
Definition store_of (o : Opcode.t) (n gb : Z) (ins cs : list Z) : option (Z * nat * Z) :=
  match ins, cs with
  | [v; b], [x] =>
      let at_ k := Some (u64 (b + i32 x), k, v mod 2 ^ (8 * Z.of_nat k)) in
      match o with
      | Opcode.St => at_ (Z.to_nat (n / 8))
      | Opcode.St8 => at_ 1%nat
      | Opcode.St16 => at_ 2%nat
      | Opcode.St32 => at_ 4%nat
      | Opcode.QemuSt =>
          let k := Z.to_nat (MemOp.size_bytes x) in Some (u64 (gb + b), k, v mod 2 ^ (8 * Z.of_nat k))
      | _ => None
      end
  | _, _ => None
  end.

(** [f] stores what [spec] says and changes nothing else but flags. *)
Definition stores (f : CodeBuffer → option CodeBuffer) (spec : Host.t → option (Z * nat * Z)) : Prop :=
  ∃ il, assembles f il ∧ ∀ undef h a k v,
    Host.wf h → spec h = Some (a, k, v) →
    ∃ h', exec_all undef il h = Some h' ∧ Host.reg h' = Host.reg h ∧
      Host.mem h' = Host.mem (Host.store h a k v).

(** ** Loads *)

Lemma load_range h a k : in_width (8 * Z.of_nat k) (Host.load h a k).
Proof.
  unfold Host.load. pose proof (le_value_range (map (λ i, Host.mem h (u64 (a + Z.of_nat i)) mod 256) (seq 0 k))) as H.
  unfold zlen in H. rewrite length_map, length_seq in H. apply H.
  apply Forall_map, Forall_true. intros i. apply (mod_in_width 8). lia.
Qed.

Lemma is_i32_signed x : is_i32 (i32 x).
Proof. pose proof (signed_range 32 x ltac:(lia)). unfold is_i32, i32. cbn in *. lia. Qed.

Lemma size_bytes_bits s : 8 * Z.of_nat (Size.bytes s) = Size.bits s.
Proof. by destruct s. Qed.

(** A load with extension to 32 or 64 bits, for an op of width [n]. *)
Lemma lowers_movx f sg from w' d A n spec :
  encodes f (Movx sg from (size_of w') d (Mem A)) → 0 ≤ n ≤ 64 →
  n ≤ opbits w' ∨ sg = false ∧ Size.bits from ≤ opbits w' →
  (∀ h vs co, spec h = Some (vs, co) →
     let v := Host.load h (address h A) (Size.bytes from) in
     vs = [(if sg then signed (Size.bits from) v else v) mod 2 ^ n] ∧ co = None) →
  lowers f n [d] spec.
Proof.
  intros He Hn Hw Hspec. eapply lowers_one; [exact He|]. intros undef h vs co Hwf Hs.
  destruct (Hspec h vs co Hs) as [-> ->]. eexists. split; [reflexivity|]. apply result_one; [|done].
  apply defines_at; [done|]. cbn [read]. rewrite bits_size_of, mod_idem by apply opbits_pos.
  destruct Hw as [Hw | [-> Hw] ]; [apply mod_mod_pow2; lia|].
  rewrite (mod_small_width (opbits w')); [done|].
  pose proof (load_range h (address h A) (Size.bytes from)) as Hr. rewrite size_bytes_bits in Hr.
  eapply in_width_mono, Hr. by destruct from.
Qed.

(** A plain load of 32 or 64 bits. *)
Lemma lowers_movm f w' d A n spec :
  encodes f (Mov (size_of w') (R d) (Mem A)) → 0 ≤ n ≤ 64 →
  (∀ h vs co, spec h = Some (vs, co) →
     vs = [Host.load h (address h A) (Size.bytes (size_of w')) mod 2 ^ n] ∧ co = None) →
  lowers f n [d] spec.
Proof.
  intros He Hn Hspec. eapply lowers_one; [exact He|]. intros undef h vs co Hwf Hs.
  destruct (Hspec h vs co Hs) as [-> ->]. eexists. split; [reflexivity|]. apply result_one; [|done].
  apply defines_at; [done|]. cbn [read]. f_equal. apply mod_small_width.
  pose proof (load_range h (address h A) (Size.bytes (size_of w'))) as Hr.
  by rewrite size_bytes_bits, bits_size_of in Hr.
Qed.

Lemma address_disp h b x : address h (Addr.mk b None x) = u64 (Host.reg h b + x).
Proof. unfold address. cbn. by rewrite Z.add_0_r. Qed.

Lemma address_index h b x : address h (Addr.mk b (Some (x, 0)) 0) = u64 (Host.reg h b + Host.reg h x).
Proof. unfold address. cbn. by rewrite Z.mul_1_r, Z.add_0_r. Qed.

(** Opcode of the sign-extending loads, with REX.W for 64-bit ops. *)
Lemma enc_load_sx8 (w : bool) d base off :
  is_i32 off →
  encodes (λ b, emit_load_sx b (sx_opc w OPC_MOVSBL) d base off)
    (Movx true Size.S8 (size_of w) d (Mem (Addr.mk base None off))).
Proof.
  intros. destruct w; [apply (enc_load_x (Z.lor OPC_MOVSBL P_REXW))|apply (enc_load_x OPC_MOVSBL)];
    (done || (unfold load_opcodes; rewrite !elem_of_cons; auto 10)).
Qed.

Lemma enc_load_sx16 (w : bool) d base off :
  is_i32 off →
  encodes (λ b, emit_load_sx b (sx_opc w OPC_MOVSWL) d base off)
    (Movx true Size.S16 (size_of w) d (Mem (Addr.mk base None off))).
Proof.
  intros. destruct w; [apply (enc_load_x (Z.lor OPC_MOVSWL P_REXW))|apply (enc_load_x OPC_MOVSWL)];
    (done || (unfold load_opcodes; rewrite !elem_of_cons; auto 10)).
Qed.

Lemma enc_load_sx8_sib (w : bool) d base x :
  x ≠ Reg.Rsp →
  encodes (λ b, emit_load_sx_sib b (sx_opc w OPC_MOVSBL) d base x)
    (Movx true Size.S8 (size_of w) d (Mem (Addr.mk base (Some (x, 0)) 0))).
Proof.
  intros. destruct w; [apply (enc_load_x_sib (Z.lor OPC_MOVSBL P_REXW))|apply (enc_load_x_sib OPC_MOVSBL)];
    (done || (unfold load_opcodes; rewrite !elem_of_cons; auto 10)).
Qed.

Lemma enc_load_sx16_sib (w : bool) d base x :
  x ≠ Reg.Rsp →
  encodes (λ b, emit_load_sx_sib b (sx_opc w OPC_MOVSWL) d base x)
    (Movx true Size.S16 (size_of w) d (Mem (Addr.mk base (Some (x, 0)) 0))).
Proof.
  intros. destruct w; [apply (enc_load_x_sib (Z.lor OPC_MOVSWL P_REXW))|apply (enc_load_x_sib OPC_MOVSWL)];
    (done || (unfold load_opcodes; rewrite !elem_of_cons; auto 10)).
Qed.

(** The memory operation of a guest access is a [u16] without byte swap, which the
    lowering ignores. *)
Definition memop_ok (o : Opcode.t) (cs : list Z) : bool :=
  match o, cs with
  | (Opcode.QemuLd | Opcode.QemuSt), [x] => bool_decide (in_width 16 x) && negb (MemOp.is_bswap x)
  | _, _ => true
  end.

Lemma memop_size x : in_width 16 x → u16 x = x ∧ (MemOp.size x = 0 ∨ MemOp.size x = 1 ∨ MemOp.size x = 2 ∨ MemOp.size x = 3).
Proof.
  intros Hx. split; [by apply Z.mod_small|]. unfold MemOp.size.
  rewrite (land_ones_mod 2) by lia. pose proof (Z.mod_pos_bound x (2 ^ 2) ltac:(lia)). lia.
Qed.

Lemma size_of_bytes w : Size.bytes (size_of w) = Z.to_nat (opbits w / 8).
Proof. by destruct w. Qed.

Section arms.
Context (self : G) (ctx : Context) (op : Op.t).
Context (Hty : Op.op_type op = Type_.I32 ∨ Op.op_type op = Type_.I64).
Notation ty := (Op.op_type op).
Notation w := (is_i64 (Op.op_type op)).
Notation n := (opbits w).
Notation plain oregs iregs cs := (λ b, out_plain self b ctx op (Reg.discr <$> oregs) (Reg.discr <$> iregs) cs).

Ltac load_value :=
  let Hs := fresh "Hs" in
  intros ? ? ? Hs; unfold load_spec in Hs; rewrite size_bits_opbits in Hs by done;
  rewrite ?address_disp, ?address_index, ?size_of_bytes; cbn in Hs; injection Hs as <- <-; done.

Ltac arm_mem H' :=
  eapply lowers_ext;
    [intros buf; unfold out_plain, out_mem, out_guest; rewrite H'; unfold out_load, rexw_of;
     rewrite !reg_at_fmap; lookups; reflexivity|].

Lemma arm_load o d b x :
  o ∈ [Opcode.Ld; Opcode.Ld8U; Opcode.Ld8S; Opcode.Ld16U; Opcode.Ld16S; Opcode.Ld32U; Opcode.Ld32S] →
  Op.opc op = o →
  lowers (plain [d] [b] [x]) n [d] (λ h, load_spec o ty h [Host.reg h b] [x]).
Proof.
  pose proof (is_i32_signed x) as Hx. assert (0 ≤ n ≤ 64) as Hn by (by destruct w).
  assert (n ≤ opbits w) as Hle by done.
  intros Ho H. rewrite !elem_of_cons, elem_of_nil in Ho.
  destruct_or?; subst o; try done; rename H into H'; arm_mem H'.
  - eapply (lowers_movm _ w); [by apply enc_load|done|]. load_value.
  - eapply (lowers_movx _ false Size.S8 false); [by apply enc_load_x; [unfold load_opcodes; in_list|]|done|by right|].
    load_value.
  - eapply (lowers_movx _ true Size.S8 w); [by apply enc_load_sx8|done|by left|]. load_value.
  - eapply (lowers_movx _ false Size.S16 false); [by apply enc_load_x; [unfold load_opcodes; in_list|]|done|by right|].
    load_value.
  - eapply (lowers_movx _ true Size.S16 w); [by apply enc_load_sx16|done|by left|]. load_value.
  - eapply (lowers_movm _ false); [by apply enc_load|done|]. load_value.
  - eapply (lowers_movx _ true Size.S32 true); [by apply enc_load_x; [unfold load_opcodes; in_list|]|done|left; by destruct w|].
    load_value.
Qed.

Ltac guest_value Hsg Hb :=
  let Hs := fresh "Hs" in
  intros ? ? ? Hs; unfold load_spec in Hs; cbn -[MemOp.size_bytes MemOp.is_signed] in Hs;
  rewrite Hsg, Hb, size_bits_opbits in Hs by done; rewrite address_index; by injection Hs as <- <-.

Lemma arm_qemu_ld d a x :
  Op.opc op = Opcode.QemuLd → a ≠ Reg.Rsp → in_width 16 x →
  lowers (plain [d] [a] [x]) n [d] (λ h, load_spec Opcode.QemuLd ty h [Host.reg h a] [x]).
Proof.
  intros H Ha Hx. assert (0 ≤ n ≤ 64) as Hn by (by destruct w).
  assert (n ≤ opbits w) as Hle by done.
  arm_mem H. destruct (memop_size x Hx) as [-> Hsz]. unfold emit_qemu_ld, MemOp.size in *.
  assert (MemOp.is_signed x = negb (Z.land x 4 =? 0)) as Hsg by done.
  destruct Hsz as [Hz | [Hz | [Hz | Hz] ] ]; rewrite Hz;
    assert (MemOp.size_bytes x = Z.shiftl 1 (Z.land x 3)) as Hb by done; rewrite Hz in Hb;
    destruct (negb (Z.land x 4 =? 0)).
  - eapply (lowers_movx _ true Size.S8 w); [by apply enc_load_sx8_sib|done|by left|]. guest_value Hsg Hb.
  - eapply (lowers_movx _ false Size.S8 false);
      [by apply enc_load_x_sib; [unfold load_opcodes; in_list|]|done|by right|]. guest_value Hsg Hb.
  - eapply (lowers_movx _ true Size.S16 w); [by apply enc_load_sx16_sib|done|by left|]. guest_value Hsg Hb.
  - eapply (lowers_movx _ false Size.S16 false);
      [by apply enc_load_x_sib; [unfold load_opcodes; in_list|]|done|by right|]. guest_value Hsg Hb.
  - eapply (lowers_movx _ true Size.S32 true);
      [by apply enc_load_x_sib; [unfold load_opcodes; in_list|]|done|left; by destruct w|]. guest_value Hsg Hb.
  - eapply (lowers_movm _ false); [by apply enc_load_sib|done|]. guest_value Hsg Hb.
  - eapply (lowers_movm _ true); [by apply enc_load_sib|done|].
    intros h vs co Hs. unfold load_spec in Hs. cbn -[MemOp.size_bytes MemOp.is_signed] in Hs.
    rewrite Hsg, Hb, size_bits_opbits, <- (mod_mod_pow2 (signed _ _) n 64), (signed_mod 64), mod_mod_pow2 in Hs by done.
    rewrite address_index. by injection Hs as <- <-.
  - eapply (lowers_movm _ true); [by apply enc_load_sib|done|]. guest_value Hsg Hb.
Qed.

(** ** Stores *)

Lemma stores_mov f s r A spec :
  encodes f (Mov s (Mem A) (R r)) →
  (∀ h a k v, spec h = Some (a, k, v) →
     a = address h A ∧ k = Size.bytes s ∧ v = Host.reg h r mod 2 ^ Size.bits s) →
  stores f spec.
Proof.
  intros He Hspec. exists [Mov s (Mem A) (R r)]. split; [by apply assembles_one|].
  intros undef h a k v Hw Hs. destruct (Hspec h a k v Hs) as (-> & -> & ->).
  by eexists.
Qed.

Lemma stores_ext f g spec : (∀ b, f b = g b) → stores g spec → stores f spec.
Proof. intros He (il & Ha & Hx). exists il. split; [by eapply assembles_ext|done]. Qed.

Ltac arm_st H' :=
  eapply stores_ext;
    [intros buf; unfold out_plain, out_mem, out_guest; rewrite H'; unfold out_store, rexw_of;
     rewrite !reg_at_fmap; lookups; reflexivity|].

Ltac store_value :=
  let Hs := fresh "Hs" in
  intros ? ? ? ? Hs; rewrite ?address_disp, ?address_index, ?size_of_bytes, ?bits_size_of;
  cbn in Hs; injection Hs as <- <- <-; split_and!; try done.

Lemma arm_store o s b x :
  o ∈ [Opcode.St; Opcode.St8; Opcode.St16; Opcode.St32] → Op.opc op = o →
  stores (plain [] [s; b] [x]) (λ h, store_of o n (Host.reg h TCG_GUEST_BASE_REG) [Host.reg h s; Host.reg h b] [x]).
Proof.
  pose proof (is_i32_signed x) as Hx.
  intros Ho H. rewrite !elem_of_cons, elem_of_nil in Ho.
  destruct_or?; subst o; try done; rename H into H'; arm_st H'.
  - eapply stores_mov; [by apply enc_store|]. store_value. by destruct w.
  - eapply stores_mov; [by apply enc_store_byte|]. store_value.
  - eapply stores_mov; [by apply enc_store_word|]. store_value.
  - eapply stores_mov; [by apply (enc_store false)|]. store_value.
Qed.

Ltac guest_stored Hb :=
  let Hs := fresh "Hs" in
  intros ? ? ? ? Hs; rewrite address_index; cbn -[MemOp.size_bytes] in Hs; rewrite Hb in Hs;
  by injection Hs as <- <- <-.

Lemma arm_qemu_st s a x :
  Op.opc op = Opcode.QemuSt → a ≠ Reg.Rsp → in_width 16 x →
  stores (plain [] [s; a] [x])
    (λ h, store_of Opcode.QemuSt n (Host.reg h TCG_GUEST_BASE_REG) [Host.reg h s; Host.reg h a] [x]).
Proof.
  intros H Ha Hx. arm_st H. destruct (memop_size x Hx) as [-> Hsz]. unfold emit_qemu_st, MemOp.size in *.
  assert (MemOp.size_bytes x = Z.shiftl 1 (Z.land x 3)) as Hb by done.
  destruct Hsz as [Hz | [Hz | [Hz | Hz] ] ]; rewrite Hz in *.
  - eapply stores_mov; [by apply enc_store_byte_sib|]. guest_stored Hb.
  - eapply stores_mov; [by apply enc_store_word_sib|]. guest_stored Hb.
  - eapply stores_mov; [by apply (enc_store_sib false)|]. guest_stored Hb.
  - eapply stores_mov; [by apply (enc_store_sib true)|]. guest_stored Hb.
Qed.
End arms.

(** ** The theorem on memory *)

Definition loads_op (o : Opcode.t) : bool :=
  match o with
  | Opcode.Ld | Opcode.Ld8U | Opcode.Ld8S | Opcode.Ld16U | Opcode.Ld16S | Opcode.Ld32U | Opcode.Ld32S
  | Opcode.QemuLd => true
  | _ => false
  end.

Definition stores_op (o : Opcode.t) : bool :=
  match o with
  | Opcode.St | Opcode.St8 | Opcode.St16 | Opcode.St32 | Opcode.QemuSt => true
  | _ => false
  end.

Lemma x86_out_op_plain self b ctx op oregs iregs cs :
  Op.opc op ≠ Opcode.GotoTb →
  snd <$> x86_out_op self b ctx op oregs iregs cs = out_plain self b ctx op oregs iregs cs.
Proof.
  intros Hg. unfold x86_out_op. destruct (Op.opc op) eqn:E; try done; by destruct (out_plain _ _ _ _ _ _ _).
Qed.

Lemma memop_ok_width o x : memop_ok o [x] = true → o = Opcode.QemuLd ∨ o = Opcode.QemuSt → in_width 16 x.
Proof. intros H [-> | ->]; cbn in H; boolp; done. Qed.

(** C9. The code emitted for a load leaves the bytes at its address, extended as the op says, in
    its output register and changes no other register and no memory; the code for a store
    changes exactly the bytes it stores, and no register.  Addresses are a base register
    plus a 32-bit displacement, or the guest base plus a guest address, modulo [2^64]. *)
Theorem lowering_memory self ctx op oregs iregs x :
  let o := Op.opc op in
  let out := λ b, snd <$> x86_out_op self b ctx op (Reg.discr <$> oregs) (Reg.discr <$> iregs) [x] in
  Op.op_type op = Type_.I32 ∨ Op.op_type op = Type_.I64 →
  satisfies o oregs iregs → memop_ok o [x] = true →
  (loads_op o = true →
     lowers out (Type_.size_bits (Op.op_type op)) oregs
       (λ h, load_spec o (Op.op_type op) h (Host.reg h <$> iregs) [x])) ∧
  (stores_op o = true →
     stores out (λ h, store_of o (Type_.size_bits (Op.op_type op)) (Host.reg h TCG_GUEST_BASE_REG)
       (Host.reg h <$> iregs) [x])).
Proof.
  intros o out Hty Hs Hm. rewrite size_bits_opbits by done. pose proof (satisfies_length _ _ _ Hs) as [Ho Hi].
  pose proof (memop_ok_width o x Hm) as Hw. unfold o in *. clear o Hm.
  split; intros Hl; [eapply lowers_ext|eapply stores_ext];
    try (intros b; apply x86_out_op_plain; intros E; by rewrite E in Hl);
    destruct (Op.opc op) eqn:H; try discriminate Hl;
    match type of Ho with _ = ?x => let k := eval vm_compute in x in change (length oregs = k) in Ho end;
    match type of Hi with _ = ?x => let k := eval vm_compute in x in change (length iregs = k) in Hi end;
    shapes Ho Hi.
  all: try (apply (arm_load self ctx op Hty); [by in_list|done]).
  all: try (apply (arm_store self ctx op); [by in_list|done]).
  - let Ha := fresh in in_arg Hs 0%nat Ha; apply allocatable_not_rsp in Ha. apply arm_qemu_ld; auto.
  - let Ha := fresh in in_arg Hs 1%nat Ha; apply allocatable_not_rsp in Ha. apply arm_qemu_st; auto.
Qed.

(** A signed 16-bit guest load of the bytes FE FF at guest address 16. *)
Definition load_op : Op.t := Op.new 0 Opcode.QemuLd Type_.I64.
Definition load_host : Host.t :=
  Host.mk (λ r, match r with Reg.R14 => 0x1000 | Reg.Rbx => 16 | _ => 0 end)
    (Flags.mk false false false false false) (λ a, if a =? 0x1010 then 0xFE else 0xFF).

Lemma lowering_memory_witness :
  ∃ il h', assembles (λ b, snd <$> x86_out_op X86_64CodeGen.new b context_new load_op [12] [3] [MemOp.sw]) il ∧
    exec_all (λ _ _, Flags.mk false false false false false) il load_host = Some h' ∧
    Host.reg h' Reg.R12 mod 2 ^ 64 = 2 ^ 64 - 2.
Proof.
  destruct (proj1 (lowering_memory X86_64CodeGen.new context_new load_op [Reg.R12] [Reg.Rbx] MemOp.sw
    (or_intror eq_refl) ltac:(by apply (bool_decide_unpack _)) eq_refl) eq_refl) as (il & Ha & Hx).
  destruct (Hx (λ _ _, Flags.mk false false false false false) load_host [2 ^ 64 - 2] None
    ltac:(by intros []) eq_refl) as (h' & He & Hv & _).
  exists il, h'. split_and!; [exact Ha|exact He|]. by inversion_clear Hv.
Defined.

(** ** Branches *)

(** [f] compares and jumps to the offset [t] exactly when [cond] holds, touching only flags. *)
Definition branches (f : CodeBuffer → option CodeBuffer) (t : Z) (cond : Host.t → bool) : Prop :=
  ∀ b, 0 ≤ offset b ≤ capacity b → capacity b ≤ 2 ^ 30 → 0 ≤ t ≤ capacity b →
  ∃ bs, f b = emit_bytes b bs ∧ ∀ b', f b = Some b' →
  ∃ i c d, decodes bs [i; Jcc c d] ∧ offset b' + d = t ∧
    ∀ undef h, ∃ h', execute undef i h = Some (h', Seq) ∧ Host.reg h' = Host.reg h ∧
      Host.mem h' = Host.mem h ∧
      execute undef (Jcc c d) h' = Some (h', if cond h then Rel d else Seq).

(** The same with a displacement that is filled in later, in the last four bytes. *)
Definition branches_later (f : CodeBuffer → option CodeBuffer) (cond : Host.t → bool) : Prop :=
  ∃ pre i c, emits f (pre ++ le_bytes 4 0) ∧
    (∀ d, is_i32 d → decodes (pre ++ le_bytes 4 (u32 d)) [i; Jcc c d]) ∧
    ∀ undef h d, ∃ h', execute undef i h = Some (h', Seq) ∧ Host.reg h' = Host.reg h ∧
      Host.mem h' = Host.mem h ∧
      execute undef (Jcc c d) h' = Some (h', if cond h then Rel d else Seq).

Lemma emit_bytes_capacity b l b' :
  0 ≤ offset b → emit_bytes b l = Some b' → capacity b' = capacity b.
Proof.
  unfold emit_bytes, capacity. intros Hb H. destruct (_ <=? _) eqn:E; [|done]. boolp. injection H as <-.
  by apply write_at_length.
Qed.

Lemma exec_branch undef w x a c h d :
  x ≠ Cond.Always → x ≠ Cond.Never →
  ∃ h', execute undef (compare_insn w x a c) h = Some (h', Seq) ∧ Host.reg h' = Host.reg h ∧
    Host.mem h' = Host.mem h ∧
    execute undef (Jcc (X86Cond.from_tcg x) d) h' =
      Some (h', if Cond.holds x (opbits w) (Host.reg h a) (Host.reg h c) then Rel d else Seq).
Proof.
  intros Ha Hv. destruct (exec_compare undef w x a c h Ha Hv) as (f & He & Hf).
  exists (Host.set_flags h f). split_and!; [done..|]. cbn [execute Host.set_flags Host.flags]. by rewrite Hf.
Qed.


(** [brcond lt] of RBX and R12 to a label at offset 0. *)
Definition branch_op : Op.t := Op.new 0 Opcode.BrCond Type_.I64.
Definition branch_context : Context := set_labels context_new [Label.mk 0 true true 0 []].


(** ** Where the lowering is wrong *)

Lemma diff_nonzero h r s :
  Host.reg h r mod 2 ^ 64 ≠ Host.reg h s mod 2 ^ 64 →
  ((Host.reg h r mod 2 ^ 64 - Host.reg h s mod 2 ^ 64 - 0) mod 2 ^ 64 =? 0) = false.
Proof.
  intros Hne. apply Z.eqb_neq. rewrite Z.sub_0_r, sub_mod.
  intros H. apply Hne. rewrite <- (Z.sub_add (Host.reg h s) (Host.reg h r)).
  by rewrite <- add_mod, H, Z.add_0_l, Z.mod_mod.
Qed.

