(* ===== verification/X86Frame.v ===== *)
(** * The prologue and the epilogue (x86_64/codegen.rs)

    The code that enters and leaves translated blocks: what the registers hold when a
    block starts, and that the caller gets back its registers and stack. *)

From S2P Require Import Prelude Types Opcodes Ir CodeBuffer X86Regs X86Emit HostCodeGen X86CodeGen.
From S2P Require Import X86Isa X86EmitSound X86OpSound X86MemSound.

(** ** Memory *)

(** The offset of address [y] from [a], going up. *)
Lemma u64_offset a i : 0 ≤ i < 2 ^ 64 → u64 (u64 (a + i) - a) = i.
Proof.
  intros. unfold u64. rewrite Zminus_mod_idemp_l. replace (a + i - a) with i by lia. by apply Z.mod_small.
Qed.

Lemma store_mem_out h a n v y : Z.of_nat n ≤ u64 (y - a) → Host.mem (Host.store h a n v) y = Host.mem h y.
Proof. intros. cbn. by rewrite (proj2 (Z.ltb_ge _ _)). Qed.

Lemma load_ext h h' a n :
  (∀ i, 0 ≤ i < Z.of_nat n → Host.mem h' (u64 (a + i)) = Host.mem h (u64 (a + i))) →
  Host.load h' a n = Host.load h a n.
Proof.
  intros H. unfold Host.load. f_equal. apply map_ext_in. intros i Hi%in_seq. by rewrite H by lia.
Qed.

Lemma le_bytes_map n v :
  le_bytes n v = map (λ i, v / 2 ^ (8 * Z.of_nat i) mod 256) (seq 0 n).
Proof.
  revert v. induction n as [|n IH]; intros v; [done|]. cbn [le_bytes seq map].
  rewrite Z.div_1_r. f_equal. rewrite IH, <- seq_shift, map_map. apply map_ext. intros i.
  rewrite Z.shiftr_div_pow2, Z.div_div by lia. rewrite <- Z.pow_add_r by lia. do 3 f_equal. lia.
Qed.

Lemma load_store_same h a n v :
  Z.of_nat n ≤ 2 ^ 64 → Host.load (Host.store h a n v) a n = v mod 2 ^ (8 * Z.of_nat n).
Proof.
  intros Hn. rewrite <- le_value_bytes. unfold Host.load. f_equal. rewrite le_bytes_map.
  apply map_ext_in. intros i Hi%in_seq. cbn. rewrite u64_offset by lia.
  by rewrite (proj2 (Z.ltb_lt _ _)), Z.mod_mod by lia.
Qed.

(** ** Pushes and pops *)

Section run.
Variable undef : insn → Host.t → Flags.t.

Lemma u64_sub y a : 0 ≤ y < 2 ^ 64 → 0 ≤ a < 2 ^ 64 → u64 (y - a) = if a <=? y then y - a else y - a + 2 ^ 64.
Proof.
  intros. unfold u64. destruct (Z.leb_spec a y); [by apply Z.mod_small; lia|].
  symmetry. apply (Z.mod_unique _ _ (-1)); lia.
Qed.

Lemma push_effect h r :
  8 ≤ Host.reg h Reg.Rsp < 2 ^ 64 →
  let h' := push h (Host.reg h r) in
  let sp := Host.reg h Reg.Rsp - 8 in
  Host.reg h' Reg.Rsp = sp ∧ (∀ x, x ≠ Reg.Rsp → Host.reg h' x = Host.reg h x) ∧
  Host.load h' sp 8 = Host.reg h r mod 2 ^ 64 ∧
  (∀ y, 0 ≤ y < 2 ^ 64 → y < sp ∨ sp + 8 ≤ y → Host.mem h' y = Host.mem h y).
Proof.
  intros Hsp h' sp. unfold h', push. rewrite u64_small by lia. fold sp. split_and!.
  - apply reg_set_eq.
  - intros. by apply reg_set_ne.
  - by apply (load_store_same _ _ 8).
  - intros y Hy Ho. rewrite store_mem_out; [done|]. rewrite u64_sub by (unfold sp; lia).
    destruct (_ <=? _) eqn:E; boolp; unfold sp in *; lia.
Qed.

Lemma exec_pushes l h :
  Reg.Rsp ∉ l → 8 * zlen l ≤ Host.reg h Reg.Rsp < 2 ^ 64 →
  ∃ h', exec_all undef (Push <$> l) h = Some h' ∧
    Host.reg h' Reg.Rsp = Host.reg h Reg.Rsp - 8 * zlen l ∧
    (∀ x, x ≠ Reg.Rsp → Host.reg h' x = Host.reg h x) ∧
    (∀ i r, l !! i = Some r →
       Host.load h' (Host.reg h Reg.Rsp - 8 * (Z.of_nat i + 1)) 8 = Host.reg h r mod 2 ^ 64) ∧
    (∀ y, 0 ≤ y < 2 ^ 64 → y < Host.reg h Reg.Rsp - 8 * zlen l ∨ Host.reg h Reg.Rsp ≤ y →
       Host.mem h' y = Host.mem h y).
Proof.
  revert h. induction l as [|r l IH]; intros h Hl Hsp.
  { exists h. split_and!; try done. change (zlen (@nil Reg.t)) with 0. lia. }
  apply not_elem_of_cons in Hl as [Hr Hl].
  assert (zlen (r :: l) = 1 + zlen l) as Hz by (unfold zlen; cbn; lia). rewrite Hz in *.
  pose proof (zlen_nonneg l).
  destruct (push_effect h r ltac:(lia)) as (Esp & Ereg & Eld & Emem).
  set (h1 := push h (Host.reg h r)) in *.
  destruct (IH h1 Hl ltac:(lia)) as (h' & He & Psp & Preg & Pld & Pmem).
  exists h'. rewrite Esp in *. split_and!.
  - cbn [fmap list_fmap exec_all execute]. fold h1. done.
  - lia.
  - intros x Hx. by rewrite Preg, Ereg.
  - intros [|i] x Hx; cbn in Hx.
    + injection Hx as <-. rewrite <- Eld.
      replace (Host.reg h Reg.Rsp - 8 * (Z.of_nat 0 + 1)) with (Host.reg h Reg.Rsp - 8) by lia.
      apply load_ext. intros j Hj. rewrite u64_small by lia. apply Pmem; lia.
    + rewrite <- (Ereg x) by (intros ->; by apply list_elem_of_lookup_2 in Hx).
      replace (Host.reg h Reg.Rsp - 8 * (Z.of_nat (S i) + 1))
        with (Host.reg h Reg.Rsp - 8 - 8 * (Z.of_nat i + 1)) by lia. by apply Pld.
  - intros y Hy Ho. rewrite Pmem, Emem by lia. done.
Qed.

Lemma exec_pops l h :
  Reg.Rsp ∉ l → NoDup l → 0 ≤ Host.reg h Reg.Rsp → Host.reg h Reg.Rsp + 8 * zlen l < 2 ^ 64 →
  ∃ h', exec_all undef (Pop <$> l) h = Some h' ∧
    Host.reg h' Reg.Rsp = Host.reg h Reg.Rsp + 8 * zlen l ∧
    (∀ i r, l !! i = Some r → Host.reg h' r = Host.load h (Host.reg h Reg.Rsp + 8 * Z.of_nat i) 8) ∧
    (∀ x, x ≠ Reg.Rsp → x ∉ l → Host.reg h' x = Host.reg h x) ∧ Host.mem h' = Host.mem h.
Proof.
  revert h. induction l as [|r l IH]; intros h Hl Hd H0 Hsp.
  { exists h. split_and!; try done. change (zlen (@nil Reg.t)) with 0. lia. }
  apply not_elem_of_cons in Hl as [Hr Hl]. apply NoDup_cons in Hd as [Hrl Hd].
  assert (zlen (r :: l) = 1 + zlen l) as Hz by (unfold zlen; cbn; lia). rewrite Hz in *.
  pose proof (zlen_nonneg l).
  set (h1 := Host.set_reg (Host.set_reg h Reg.Rsp (u64 (Host.reg h Reg.Rsp + 8))) r
    (Host.load h (Host.reg h Reg.Rsp) 8)).
  assert (Host.reg h1 Reg.Rsp = Host.reg h Reg.Rsp + 8) as Esp.
  { unfold h1. rewrite reg_set_ne, reg_set_eq by done. apply u64_small. lia. }
  destruct (IH h1 Hl Hd ltac:(lia) ltac:(lia)) as (h' & He & Psp & Pld & Preg & Pmem).
  exists h'. split_and!.
  - cbn [fmap list_fmap exec_all execute pop]. fold h1. done.
  - lia.
  - intros [|i] x Hx; cbn in Hx.
    + injection Hx as <-. rewrite Preg by done. unfold h1. rewrite reg_set_eq. f_equal. lia.
    + rewrite (Pld i x Hx), Esp. 
      replace (Host.reg h Reg.Rsp + 8 * Z.of_nat (S i)) with (Host.reg h Reg.Rsp + 8 + 8 * Z.of_nat i) by lia.
      done.
  - intros x Hx Hn. apply not_elem_of_cons in Hn as [? ?]. rewrite Preg by done. unfold h1.
    by rewrite !reg_set_ne.
  - by rewrite Pmem.
Qed.
End run.

(** ** Entering and leaving *)

Definition prologue_insns : list insn :=
  (Push <$> CALLEE_SAVED) ++
  [Mov Size.S64 (R Reg.Rbp) (R Reg.Rdi);
   Mov Size.S64 (R TCG_GUEST_BASE_REG) (Mem (Addr.mk Reg.Rbp None GUEST_BASE_DISP));
   ArithI ArithOp.Sub Size.S64 (R Reg.Rsp) STACK_ADDEND].

(** From [tb_ret_offset] on. *)
Definition epilogue_insns : list insn :=
  ArithI ArithOp.Add Size.S64 (R Reg.Rsp) STACK_ADDEND :: (Pop <$> rev CALLEE_SAVED).

Lemma assembles_each f i l :
  (∀ r, encodes (λ b, f b r) (i r)) → assembles (λ b, emit_each f b l) (i <$> l).
Proof.
  intros Hf. induction l as [|r l IH]; [apply assembles_nil|].
  cbn [emit_each fmap list_fmap]. by apply assembles_cons.
Qed.

Lemma prologue_assembles self :
  assembles (λ b, snd <$> x86_emit_prologue self b) (prologue_insns ++ [JmpR (R Reg.Rsi)]).
Proof.
  eapply (assembles_ext _ (λ b,
    b ← emit_each emit_push b CALLEE_SAVED; b ← emit_mov_rr b true Reg.Rbp Reg.Rdi;
    b ← emit_load b true Reg.R14 Reg.Rbp GUEST_BASE_DISP;
    b ← emit_arith_ri b ArithOp.Sub true Reg.Rsp STACK_ADDEND; emit_jmp_reg b Reg.Rsi)).
  { intros b. unfold x86_emit_prologue. lookups.
    do 4 (match goal with |- context [mbind _ ?x] => destruct x; [|done]; cbn [mbind option_bind] end).
    by destruct (emit_jmp_reg _ _). }
  unfold prologue_insns. rewrite <- (assoc app). apply assembles_bind.
  { apply assembles_each. apply enc_push. }
  apply (assembles_cons _ _ _ _ (enc_mov_rr true Reg.Rbp Reg.Rdi)).
  apply (assembles_cons _ _ _ _ (enc_load true Reg.R14 Reg.Rbp GUEST_BASE_DISP ltac:(by unfold is_i32))).
  apply (assembles_cons _ _ _ _ (enc_arith_ri ArithOp.Sub true Reg.Rsp STACK_ADDEND ltac:(by unfold is_i32))).
  apply assembles_one, enc_jmp_reg.
Qed.

Lemma epilogue_assembles self :
  assembles (λ b, snd <$> x86_emit_epilogue self b)
    (Arith ArithOp.Xor Size.S32 (R Reg.Rax) (R Reg.Rax) :: epilogue_insns ++ [Ret]).
Proof.
  eapply (assembles_ext _ (λ b,
    b ← emit_mov_ri b false Reg.Rax 0; b ← emit_arith_ri b ArithOp.Add true Reg.Rsp STACK_ADDEND;
    b ← emit_each emit_pop b (rev CALLEE_SAVED); emit_ret b)).
  { intros b. unfold x86_emit_epilogue.
    do 3 (match goal with |- context [mbind _ ?x] => destruct x; [|done]; cbn [mbind option_bind] end).
    by destruct (emit_ret _). }
  apply (assembles_cons _ _ _ _ (enc_mov_ri false Reg.Rax 0 ltac:(done))).
  unfold epilogue_insns. cbn [app].
  apply (assembles_cons _ _ _ _ (enc_arith_ri ArithOp.Add true Reg.Rsp STACK_ADDEND ltac:(by unfold is_i32))).
  apply assembles_bind; [apply assembles_each; apply enc_pop|apply assembles_one, enc_ret].
Qed.

Section effects.
Variable undef : insn → Host.t → Flags.t.

Lemma prologue_effect h :
  Host.wf h → 2048 ≤ Host.reg h Reg.Rsp → Host.reg h Reg.Rsp + 8 < 2 ^ 64 →
  let s := Host.reg h Reg.Rsp in
  ∃ h1, exec_all undef prologue_insns h = Some h1 ∧
    Host.reg h1 Reg.Rbp = Host.reg h Reg.Rdi ∧ Host.reg h1 Reg.Rsi = Host.reg h Reg.Rsi ∧
    Host.reg h1 Reg.R14 = Host.load h1 (u64 (Host.reg h Reg.Rdi + GUEST_BASE_DISP)) 8 ∧
    Host.reg h1 Reg.Rsp = s - (FRAME_SIZE - 8) ∧
    (∀ i r, CALLEE_SAVED !! i = Some r → Host.load h1 (s - 8 * (Z.of_nat i + 1)) 8 = Host.reg h r) ∧
    (∀ y, s ≤ y < 2 ^ 64 → Host.mem h1 y = Host.mem h y).
Proof.
  intros Hwf Hlo Hhi s. unfold prologue_insns. 
  destruct (exec_pushes undef CALLEE_SAVED h) as (h0 & E0 & Esp & Ereg & Eld & Emem).
  { by apply (bool_decide_unpack _). }
  { change (zlen CALLEE_SAVED) with 6. lia. }
  change (zlen CALLEE_SAVED) with 6 in *. fold s in Esp, Eld, Emem.
  rewrite exec_all_app, E0. cbn [mbind option_bind].
  eexists. split; [reflexivity|]. unfold put_arith. cbn [arith fst snd read write Size.bits].
  split_and!.
  - cbn [Host.set_flags Host.reg]. rewrite !(write_reg_ne _ _ _ Reg.Rbp), (write_reg_eq true), Ereg by done.
    rewrite mod_idem by done. apply Z.mod_small, Hwf.
  - cbn [Host.set_flags Host.reg]. by rewrite !write_reg_ne, Ereg by done.
  - cbn [Host.set_flags Host.reg]. rewrite (write_reg_ne _ _ _ TCG_GUEST_BASE_REG), (write_reg_eq true) by done.
    rewrite address_disp, (write_reg_eq true), Ereg by done. change (opbits true) with 64.
    rewrite !(Z.mod_small (Host.reg h Reg.Rdi)) by apply Hwf.
    rewrite Z.mod_small by apply (load_range _ _ 8). done.
  - cbn [Host.set_flags Host.reg]. rewrite (write_reg_eq true), !write_reg_ne, Esp by done.
    change (STACK_ADDEND mod 2 ^ 64) with 1160. change (FRAME_SIZE - 8) with 1208.
    change (opbits true) with 64. rewrite (Z.mod_small (s - 8 * 6)), mod_idem by (unfold s; lia).
    rewrite Z.mod_small by (unfold s; lia). lia.
  - intros i r Hi. specialize (Eld i r Hi). rewrite (Z.mod_small (Host.reg h r)) in Eld by apply Hwf.
    rewrite <- Eld. done.
  - intros y Hy. cbn [Host.set_flags Host.mem]. apply Emem; unfold s in *; lia.
Qed.

Lemma epilogue_effect h2 t :
  Host.reg h2 Reg.Rsp = t - (FRAME_SIZE - 8) → 2048 ≤ t → t + 8 < 2 ^ 64 →
  ∃ h3 h4, exec_all undef epilogue_insns h2 = Some h3 ∧
    execute undef Ret h3 = Some (h4, Abs (Host.load h2 t 8)) ∧
    Host.reg h4 Reg.Rsp = t + 8 ∧ Host.reg h4 Reg.Rax = Host.reg h2 Reg.Rax ∧
    (∀ i r, CALLEE_SAVED !! i = Some r → Host.reg h4 r = Host.load h2 (t - 8 * (Z.of_nat i + 1)) 8) ∧
    Host.mem h4 = Host.mem h2.
Proof.
  change (FRAME_SIZE - 8) with 1208. intros Hsp Hlo Hhi.
  set (ha := put_arith Size.S64 h2 (R Reg.Rsp) (arith ArithOp.Add 64 (Host.reg h2 Reg.Rsp mod 2 ^ 64)
    (STACK_ADDEND mod 2 ^ 64) (Flags.cf (Host.flags h2)))).
  assert (Host.reg ha Reg.Rsp = t - 48) as Ea.
  { unfold ha, put_arith. cbn [arith fst snd write Host.set_flags Host.reg]. rewrite (write_reg_eq true), Hsp.
    change (STACK_ADDEND mod 2 ^ 64) with 1160. change (opbits true) with 64.
    rewrite (Z.mod_small (t - 1208)), mod_idem by lia.
    rewrite Z.mod_small by lia. lia. }
  assert (∀ x, x ≠ Reg.Rsp → Host.reg ha x = Host.reg h2 x) as Er.
  { intros x Hx. unfold ha, put_arith. cbn [arith fst snd write Host.set_flags Host.reg]. by apply write_reg_ne. }
  assert (Host.mem ha = Host.mem h2) as Em by done.
  destruct (exec_pops undef (rev CALLEE_SAVED) ha) as (h3 & E3 & Psp & Pld & Preg & Pmem).
  { by apply (bool_decide_unpack _). } { by apply (bool_decide_unpack _). }
  { lia. } { change (zlen (rev CALLEE_SAVED)) with 6. lia. }
  change (zlen (rev CALLEE_SAVED)) with 6 in *.
  exists h3, (Host.set_reg h3 Reg.Rsp (t + 8)). split_and!.
  - unfold epilogue_insns. cbn [exec_all execute]. exact E3.
  - cbn [execute pop]. rewrite Psp, Ea. replace (t - 48 + 8 * 6) with t by lia.
    rewrite u64_small by lia. do 2 f_equal. f_equal. apply load_ext. intros. by rewrite Pmem, Em.
  - apply reg_set_eq.
  - rewrite reg_set_ne by done. rewrite Preg; [by apply Er|done|by apply (bool_decide_unpack _)].
  - intros i r Hi. rewrite reg_set_ne by (intros ->; by repeat (destruct i as [|i]; try discriminate Hi)).
    assert (i < 6)%nat as Hi6 by (apply lookup_lt_Some in Hi; exact Hi).
    rewrite (Pld (5 - i)%nat r).
    + rewrite Ea. replace (t - 48 + 8 * Z.of_nat (5 - i)) with (t - 8 * (Z.of_nat i + 1)) by lia.
      apply load_ext. intros. by rewrite Em.
    + repeat (destruct i as [|i]; [exact Hi|]). discriminate Hi.
  - by rewrite <- Em.
Qed.
End effects.

(** C32. The prologue saves the callee-saved registers, puts the CPU pointer in RBP and the guest
    base in R14, makes room on the stack and jumps to the block; the epilogue, reached with
    the stack pointer back and the saved words intact, returns to the caller with every
    callee-saved register and the stack pointer as they were, and the block's RAX. *)
Theorem frame_roundtrip self undef h :
  Host.wf h → 2048 ≤ Host.reg h Reg.Rsp → Host.reg h Reg.Rsp + 8 < 2 ^ 64 →
  assembles (λ b, snd <$> x86_emit_prologue self b) (prologue_insns ++ [JmpR (R Reg.Rsi)]) ∧
  assembles (λ b, snd <$> x86_emit_epilogue self b)
    (Arith ArithOp.Xor Size.S32 (R Reg.Rax) (R Reg.Rax) :: epilogue_insns ++ [Ret]) ∧
  let s := Host.reg h Reg.Rsp in
  ∃ h1, exec_all undef prologue_insns h = Some h1 ∧
    execute undef (JmpR (R Reg.Rsi)) h1 = Some (h1, Abs (Host.reg h Reg.Rsi)) ∧
    Host.reg h1 TCG_AREG0 = Host.reg h Reg.Rdi ∧
    Host.reg h1 TCG_GUEST_BASE_REG = Host.load h1 (u64 (Host.reg h Reg.Rdi + GUEST_BASE_DISP)) 8 ∧
    Host.reg h1 Reg.Rsp = s - (FRAME_SIZE - 8) ∧
    (∀ y, s ≤ y < 2 ^ 64 → Host.mem h1 y = Host.mem h y) ∧
    ∀ h2, Host.reg h2 Reg.Rsp = Host.reg h1 Reg.Rsp →
      (∀ y, s - 48 ≤ y < s + 8 → Host.mem h2 y = Host.mem h1 y) →
      ∃ h3 h4, exec_all undef epilogue_insns h2 = Some h3 ∧
        execute undef Ret h3 = Some (h4, Abs (Host.load h s 8)) ∧
        Host.reg h4 Reg.Rsp = s + 8 ∧ Host.reg h4 Reg.Rax = Host.reg h2 Reg.Rax ∧
        (∀ r, r ∈ CALLEE_SAVED → Host.reg h4 r = Host.reg h r) ∧ Host.mem h4 = Host.mem h2.
Proof.
  intros Hwf Hlo Hhi. split; [apply prologue_assembles|]. split; [apply epilogue_assembles|]. intros s.
  destruct (prologue_effect undef h Hwf Hlo Hhi) as (h1 & E1 & Ebp & Esi & Egb & Esp & Esv & Em).
  exists h1. split_and!; [done|cbn [execute read Size.bits]; by rewrite Esi, Z.mod_small by apply Hwf|done..|].
  intros h2 Hsp Hm. rewrite Esp in Hsp.
  destruct (epilogue_effect undef h2 s Hsp Hlo Hhi) as (h3 & h4 & E3 & E4 & E5 & E6 & E7 & E8).
  exists h3, h4. split_and!; [done| |done|done| |done].
  - rewrite E4. do 2 f_equal. f_equal. apply load_ext. intros i Hi. unfold s in *. rewrite u64_small by lia.
    rewrite Hm, Em by lia. done.
  - intros r [i Hi]%list_elem_of_lookup. rewrite (E7 i r Hi), <- (Esv i r Hi). apply load_ext.
    assert (i < 6)%nat by (apply lookup_lt_Some in Hi; exact Hi).
    intros j Hj. unfold s in *. rewrite u64_small by lia. apply Hm. lia.
Qed.

(** Entered with RSP = 65536. *)
Definition frame_host : Host.t :=
  Host.mk (λ r, match r with Reg.Rsp => 0x10000 | Reg.Rdi => 0x20000 | Reg.Rbx => 7 | _ => 0 end)
    (Flags.mk false false false false false) (λ _, 1).

Lemma frame_roundtrip_witness :
  ∃ h1, exec_all (λ _ h, Host.flags h) prologue_insns frame_host = Some h1 ∧ Host.reg h1 Reg.Rbp = 0x20000 ∧
    ∃ h3 h4, exec_all (λ _ h, Host.flags h) epilogue_insns h1 = Some h3 ∧
      execute (λ _ h, Host.flags h) Ret h3 = Some (h4, Abs 0x0101010101010101) ∧ Host.reg h4 Reg.Rbx = 7.
Proof.
  destruct (frame_roundtrip X86_64CodeGen.new (λ _ h, Host.flags h) frame_host) as (_ & _ & h1 & E1 & _ & Ebp & _ & _ & _ & Hx).
  - intros []; split; vm_compute; congruence.
  - vm_compute. congruence.
  - vm_compute. congruence.
  - exists h1. split; [exact E1|]. split; [exact Ebp|].
    destruct (Hx h1 eq_refl (λ y _, eq_refl)) as (h3 & h4 & E3 & E4 & _ & _ & Hr & _).
    exists h3, h4. split; [exact E3|]. split; [exact E4|]. exact (Hr Reg.Rbx ltac:(by apply (bool_decide_unpack _))).
Defined.

