(* ===== verification/Frontend.v ===== *)
(** * The generic translation framework (frontend/src/lib.rs)

    The [TranslatorOps] trait is a class; the translation loop is written against
    it.  [None] is a panic (or, for the loop, exhausted fuel: excluded by
    [translate_loop_total], whose fuel is what [translator_loop] passes).
    [TranslatorLaws] is what an architecture promises to the loop; the RISC-V
    instance is in RiscvTb.v. *)

From S2P Require Import Prelude Types Opcodes Ir.

Module DisasJumpType.
Inductive t := Next | TooMany | NoReturn.

#[global] Instance t_eq_dec : EqDecision t.
Proof. solve_decision. Defined.
End DisasJumpType.

Module DisasContextBase.
Record t := mk {
  pc_first : Z;
  pc_next : Z;
  is_jmp : DisasJumpType.t;
  num_insns : Z;
  max_insns : Z
}.

Definition set_is_jmp (b : t) (j : DisasJumpType.t) : t :=
  mk (pc_first b) (pc_next b) j (num_insns b) (max_insns b).

Definition set_pc_next (b : t) (p : Z) : t :=
  mk (pc_first b) p (is_jmp b) (num_insns b) (max_insns b).

Definition set_num_insns (b : t) (n : Z) : t :=
  mk (pc_first b) (pc_next b) (is_jmp b) n (max_insns b).

Definition set_max_insns (b : t) (n : Z) : t :=
  mk (pc_first b) (pc_next b) (is_jmp b) (num_insns b) n.
End DisasContextBase.

(** [fn(ctx: &mut DisasContext, ir: &mut Context)] *)
Definition Callback (DC : Type) : Type := DC → Context → option (DC * Context).

Class TranslatorOps (DC : Type) := {
  init_disas_context : Callback DC;
  tb_start : Callback DC;
  insn_start : Callback DC;
  translate_insn : Callback DC;
  tb_stop : Callback DC;
  base : DC → DisasContextBase.t;
  with_base : DC → DisasContextBase.t → DC
}.

Section translator_loop.
Context {DC : Type} `{TranslatorOps DC}.

(** [T::base_mut(ctx).is_jmp = j] *)
Definition set_jump (ctx : DC) (j : DisasJumpType.t) : DC :=
  with_base ctx (DisasContextBase.set_is_jmp (base ctx) j).

(** The [loop] of [translator_loop]. *)
Fixpoint translate_loop (fuel : nat) (ctx : DC) (ir : Context) : option (DC * Context) :=
  match fuel with
  | O => None
  | S fuel =>
      '(ctx, ir) ← insn_start ctx ir;
      '(ctx, ir) ← translate_insn ctx ir;
      let b := base ctx in
      if negb (bool_decide (DisasContextBase.is_jmp b = DisasJumpType.Next))
      then Some (ctx, ir)
      else if DisasContextBase.max_insns b <=? DisasContextBase.num_insns b
      then Some (set_jump ctx DisasJumpType.TooMany, ir)
      else translate_loop fuel ctx ir
  end.

(** One round per instruction still allowed, and at least one. *)
Definition loop_fuel (ctx : DC) : nat :=
  S (Z.to_nat (DisasContextBase.max_insns (base ctx) - DisasContextBase.num_insns (base ctx) - 1)).

Definition translator_loop (ctx : DC) (ir : Context) : option (DC * Context) :=
  '(ctx, ir) ← init_disas_context ctx ir;
  '(ctx, ir) ← tb_start ctx ir;
  '(ctx, ir) ← translate_loop (loop_fuel ctx) ctx ir;
  tb_stop ctx ir.

(** ** What an architecture promises *)

Definition num_insns (ctx : DC) : Z := DisasContextBase.num_insns (base ctx).
Definition max_insns (ctx : DC) : Z := DisasContextBase.max_insns (base ctx).
Definition is_jmp (ctx : DC) : DisasJumpType.t := DisasContextBase.is_jmp (base ctx).

(** [Inv n ctx ir]: [ctx] and [ir] are consistent and have room for [n] more
    instructions. *)
Class TranslatorLaws (Inv : nat → DC → Context → Prop) := {
  law_insn n ctx ir :
    Inv (S n) ctx ir →
    ∃ ctx1 ir1 ctx2 ir2,
      insn_start ctx ir = Some (ctx1, ir1) ∧ translate_insn ctx1 ir1 = Some (ctx2, ir2) ∧
      Inv n ctx2 ir2 ∧ num_insns ctx2 = num_insns ctx + 1 ∧ max_insns ctx2 = max_insns ctx;
  law_set_jump n ctx ir j : Inv n ctx ir → Inv n (set_jump ctx j) ir;
  law_base ctx j :
    is_jmp (set_jump ctx j) = j ∧ num_insns (set_jump ctx j) = num_insns ctx ∧
    max_insns (set_jump ctx j) = max_insns ctx
}.

Context (Inv : nat → DC → Context → Prop) {laws : TranslatorLaws Inv}.

(** From any state the loop ends without panicking, after at least one and at most
    the allowed number of instructions, and its result is never marked [Next]
    (nor [TooMany] with instructions left, when the callbacks do not set it). *)
Lemma translate_loop_total n ctx ir :
  Inv (S n) ctx ir → max_insns ctx - num_insns ctx - 1 ≤ Z.of_nat n →
  ∃ ctx' ir' m, translate_loop (S n) ctx ir = Some (ctx', ir') ∧
    Inv m ctx' ir' ∧ is_jmp ctx' ≠ DisasJumpType.Next ∧
    num_insns ctx < num_insns ctx' ≤ Z.max (num_insns ctx + 1) (max_insns ctx) ∧
    max_insns ctx' = max_insns ctx.
Proof.
  revert ctx ir. induction n as [|n IH]; intros ctx ir Hi Hn;
    destruct (law_insn _ _ _ Hi) as (ctx1 & ir1 & ctx2 & ir2 & H1 & H2 & Hi2 & Hnum & Hmax);
    cbn [translate_loop]; rewrite H1; cbn [mbind option_bind]; rewrite H2;
    cbn [mbind option_bind]; fold (is_jmp ctx2) (max_insns ctx2) (num_insns ctx2);
    case_bool_decide as Hj; cbn [negb].
  2, 4: eexists _, _, _; split; [done|]; split_and!; (done || lia).
  - assert ((max_insns ctx2 <=? num_insns ctx2) = true) as -> by lia.
    destruct (law_base ctx2 DisasJumpType.TooMany) as (Hb1 & Hb2 & Hb3).
    eexists _, _, _. split; [done|]. split; [by apply law_set_jump|].
    rewrite Hb1, Hb2, Hb3. split_and!; (done || lia).
  - destruct (max_insns ctx2 <=? num_insns ctx2) eqn:Hle.
    + destruct (law_base ctx2 DisasJumpType.TooMany) as (Hb1 & Hb2 & Hb3).
      eexists _, _, _. split; [done|]. split; [by apply law_set_jump|].
      rewrite Hb1, Hb2, Hb3. split_and!; (done || lia).
    + apply Z.leb_gt in Hle.
      destruct (IH ctx2 ir2 Hi2 ltac:(lia)) as (ctx' & ir' & m & Hl & ? & ? & ? & ?).
      exists ctx', ir', m. split; [exact Hl|]. split_and!; (done || lia).
Qed.
End translator_loop.
