(* ===== verification/RiscvCpu.v ===== *)
(** * RISC-V guest state and configuration (frontend/src/riscv/{cpu,ext}.rs)

    [RiscvCpu] with its field offsets, and the extension bits.  The offsets are
    compared with the [#[repr(C)]] layout of the struct: fields in declaration
    order, each at the next multiple of its alignment. *)

From S2P Require Import Prelude.

Definition NUM_GPRS : Z := 32.
Definition NUM_FPRS : Z := 32.

(** ** Field offsets *)

Definition gpr_offset (i : Z) : Z := i * 8.
Definition fpr_offset (i : Z) : Z := (NUM_GPRS + i) * 8.
Definition PC_OFFSET : Z := (NUM_GPRS + NUM_FPRS) * 8.
Definition GUEST_BASE_OFFSET : Z := PC_OFFSET + 8.
Definition LOAD_RES_OFFSET : Z := GUEST_BASE_OFFSET + 8.
Definition LOAD_VAL_OFFSET : Z := LOAD_RES_OFFSET + 8.
Definition FFLAGS_OFFSET : Z := LOAD_VAL_OFFSET + 8.
Definition FRM_OFFSET : Z := FFLAGS_OFFSET + 8.
Definition USTATUS_OFFSET : Z := FRM_OFFSET + 8.
Definition UIE_OFFSET : Z := USTATUS_OFFSET + 8.
Definition UTVEC_OFFSET : Z := UIE_OFFSET + 8.
Definition USCRATCH_OFFSET : Z := UTVEC_OFFSET + 8.
Definition UEPC_OFFSET : Z := USCRATCH_OFFSET + 8.
Definition UCAUSE_OFFSET : Z := UEPC_OFFSET + 8.
Definition UTVAL_OFFSET : Z := UCAUSE_OFFSET + 8.
Definition UIP_OFFSET : Z := UTVAL_OFFSET + 8.

Definition USTATUS_FS_MASK : Z := 0x00006000.
Definition USTATUS_FS_DIRTY : Z := 0x00006000.

(** ** The CPU struct *)

Module RiscvCpu.
Record t := mk {
  gpr : list Z;
  fpr : list Z;
  pc : Z;
  guest_base : Z;
  load_res : Z;
  load_val : Z;
  fflags : Z;
  frm : Z;
  ustatus : Z;
  uie : Z;
  utvec : Z;
  uscratch : Z;
  uepc : Z;
  ucause : Z;
  utval : Z;
  uip : Z
}.

Definition new : t :=
  mk (replicate 32 0) (replicate 32 0) 0 0 (2 ^ 64 - 1) 0 0 0 USTATUS_FS_DIRTY 0 0 0 0 0 0 0.

(** The memory image of the struct: its [u64] fields in declaration order. *)
Definition words (s : t) : list Z :=
  gpr s ++ fpr s ++
  [pc s; guest_base s; load_res s; load_val s; fflags s; frm s; ustatus s; uie s; utvec s;
   uscratch s; uepc s; ucause s; utval s; uip s].

Definition wf (s : t) : Prop := zlen (gpr s) = NUM_GPRS ∧ zlen (fpr s) = NUM_FPRS.

(** The word at a byte offset. *)
Definition word_at (s : t) (offset : Z) : option Z := (words s).[offset / 8].
End RiscvCpu.

(** ** Extensions *)

Module MisaExt.
Definition t : Type := Z.

Definition EMPTY : t := 0.
(** [1 << (letter - 'A')] *)
Definition I : t := Z.shiftl 1 8.
Definition M : t := Z.shiftl 1 12.
Definition A : t := Z.shiftl 1 0.
Definition F : t := Z.shiftl 1 5.
Definition D : t := Z.shiftl 1 3.
Definition C : t := Z.shiftl 1 2.
Definition G : t := Z.lor (Z.lor (Z.lor (Z.lor I M) A) F) D.

Definition bits (s : t) : Z := s.
Definition from_bits_truncate (b : Z) : t := Z.land b (Z.shiftl 1 26 - 1).
Definition contains (s other : t) : bool := Z.land s other =? other.
Definition union (s other : t) : t := Z.lor s other.
End MisaExt.

Module RiscvCfg.
Record t := mk {
  misa : MisaExt.t;
  ext_zicsr : bool;
  ext_zifencei : bool;
  ext_zba : bool;
  ext_zbb : bool;
  ext_zbc : bool;
  ext_zbs : bool
}.

Definition RV64IMAFDC : t :=
  mk (MisaExt.from_bits_truncate
        (Z.lor (Z.lor (Z.lor (Z.lor (Z.lor MisaExt.I MisaExt.M) MisaExt.A) MisaExt.F)
                  MisaExt.D) MisaExt.C))
     true true false false false false.
End RiscvCfg.

(** The byte offsets the translator uses for the fields of [RiscvCpu] are those of
    the [#[repr(C)]] struct: the 8-byte word at each offset is the field it is named
    after, for every register. *)
Theorem cpu_offsets s :
  RiscvCpu.wf s →
  (∀ i, 0 ≤ i < NUM_GPRS → RiscvCpu.word_at s (gpr_offset i) = (RiscvCpu.gpr s).[i]) ∧
  (∀ i, 0 ≤ i < NUM_FPRS → RiscvCpu.word_at s (fpr_offset i) = (RiscvCpu.fpr s).[i]) ∧
  RiscvCpu.word_at s PC_OFFSET = Some (RiscvCpu.pc s) ∧
  RiscvCpu.word_at s GUEST_BASE_OFFSET = Some (RiscvCpu.guest_base s) ∧
  RiscvCpu.word_at s LOAD_RES_OFFSET = Some (RiscvCpu.load_res s) ∧
  RiscvCpu.word_at s LOAD_VAL_OFFSET = Some (RiscvCpu.load_val s) ∧
  RiscvCpu.word_at s FFLAGS_OFFSET = Some (RiscvCpu.fflags s) ∧
  RiscvCpu.word_at s FRM_OFFSET = Some (RiscvCpu.frm s) ∧
  RiscvCpu.word_at s USTATUS_OFFSET = Some (RiscvCpu.ustatus s) ∧
  RiscvCpu.word_at s UIE_OFFSET = Some (RiscvCpu.uie s) ∧
  RiscvCpu.word_at s UTVEC_OFFSET = Some (RiscvCpu.utvec s) ∧
  RiscvCpu.word_at s USCRATCH_OFFSET = Some (RiscvCpu.uscratch s) ∧
  RiscvCpu.word_at s UEPC_OFFSET = Some (RiscvCpu.uepc s) ∧
  RiscvCpu.word_at s UCAUSE_OFFSET = Some (RiscvCpu.ucause s) ∧
  RiscvCpu.word_at s UTVAL_OFFSET = Some (RiscvCpu.utval s) ∧
  RiscvCpu.word_at s UIP_OFFSET = Some (RiscvCpu.uip s).
Proof.
  intros [Hg Hf]. unfold NUM_GPRS, NUM_FPRS in *. destruct s as [gpr fpr]; simpl in *.
  unfold RiscvCpu.word_at, RiscvCpu.words; simpl.
  assert (∀ i, 64 ≤ i → (gpr ++ fpr ++
    [pc; guest_base; load_res; load_val; fflags; frm; ustatus; uie; utvec; uscratch; uepc;
     ucause; utval; uip]).[i] =
    [pc; guest_base; load_res; load_val; fflags; frm; ustatus; uie; utvec; uscratch; uepc;
     ucause; utval; uip].[i - 64]) as Htail.
  { intros i Hi. rewrite !zlookup_nat by lia. unfold zlen in *.
    rewrite lookup_app_r, lookup_app_r by lia. f_equal. lia. }
  split_and!; try by rewrite Htail by (vm_compute; discriminate).
  - intros i Hi. unfold gpr_offset. rewrite Z.div_mul by lia. apply zlookup_app_l. lia.
  - intros i Hi. unfold fpr_offset, NUM_GPRS. rewrite Z.div_mul by lia.
    rewrite !zlookup_nat by lia. unfold zlen in *.
    rewrite lookup_app_r, lookup_app_l by lia. f_equal. lia.
Qed.

Lemma cpu_offsets_witness :
  RiscvCpu.word_at RiscvCpu.new LOAD_RES_OFFSET = Some (2 ^ 64 - 1) ∧
  RiscvCpu.word_at RiscvCpu.new USTATUS_OFFSET = Some USTATUS_FS_DIRTY.
Proof.
  assert (RiscvCpu.wf RiscvCpu.new) as Hwf by (by split).
  destruct (cpu_offsets RiscvCpu.new Hwf) as (_ & _ & _ & _ & H1 & _ & _ & _ & H2 & _).
  split; [exact H1|exact H2].
Defined.
