(* ===== verification/RiscvGen.v ===== *)
(** * Helpers of the RISC-V translator (frontend/src/riscv/{mod,trans}.rs)

    [RiscvDisasContext] (module [Dc]), the argument structs of the decode traits
    (insn32.decode), and the [gen_*] helpers of trans.rs that the instructions are
    built from.  A translation function runs in the monad [M]: it reads and
    updates the disassembly context [self] and the IR context; [None] is a panic
    (an index into [gpr] out of range).  Addresses are [u64] and wrap. *)

From S2P Require Import Prelude Types Opcodes Ir Builder Tb Frontend RiscvCpu.

(** ** Argument structs of the decoded instructions *)

Module ArgsEmpty.
Record t := mk {  }.
End ArgsEmpty.

Module ArgsB.
Record t := mk { imm : Z; rs2 : Z; rs1 : Z }.
End ArgsB.

Module ArgsI.
Record t := mk { imm : Z; rs1 : Z; rd : Z }.
End ArgsI.

Module ArgsJ.
Record t := mk { imm : Z; rd : Z }.
End ArgsJ.

Module ArgsR.
Record t := mk { rd : Z; rs1 : Z; rs2 : Z }.
End ArgsR.

Module ArgsR2.
Record t := mk { rd : Z; rs1 : Z }.
End ArgsR2.

Module ArgsR2Rm.
Record t := mk { rd : Z; rs1 : Z; rm : Z }.
End ArgsR2Rm.

Module ArgsRRm.
Record t := mk { rd : Z; rs1 : Z; rs2 : Z; rm : Z }.
End ArgsRRm.

Module ArgsR4Rm.
Record t := mk { rd : Z; rs1 : Z; rs2 : Z; rs3 : Z; rm : Z }.
End ArgsR4Rm.

Module ArgsS.
Record t := mk { imm : Z; rs1 : Z; rs2 : Z }.
End ArgsS.

Module ArgsU.
Record t := mk { imm : Z; rd : Z }.
End ArgsU.

Module ArgsShift.
Record t := mk { shamt : Z; rs1 : Z; rd : Z }.
End ArgsShift.

Module ArgsAtomic.
Record t := mk { aq : Z; rl : Z; rs2 : Z; rs1 : Z; rd : Z }.
End ArgsAtomic.

Module ArgsCsr.
Record t := mk { csr : Z; rs1 : Z; rd : Z }.
End ArgsCsr.

Module ArgsAutoFence.
Record t := mk { pred : Z; succ : Z }.
End ArgsAutoFence.

(** ** The disassembly context *)

Module Dc.
Record t := mk {
  base : DisasContextBase.t;
  cfg : RiscvCfg.t;
  env : Z;
  gpr : list Z;
  pc : Z;
  load_res : Z;
  load_val : Z;
  opcode : Z;
  cur_insn_len : Z;
  guest_base : Z
}.

Definition new (pc guest_base : Z) (cfg : RiscvCfg.t) : t :=
  mk (DisasContextBase.mk pc pc DisasJumpType.Next 0 512) cfg 0 (replicate 32 0) 0 0 0 0 4
    guest_base.

Definition pc_next (d : t) : Z := DisasContextBase.pc_next (base d).

Definition set_base (d : t) (b : DisasContextBase.t) : t :=
  mk b (cfg d) (env d) (gpr d) (pc d) (load_res d) (load_val d) (opcode d) (cur_insn_len d)
    (guest_base d).

(** The temps of the guest registers. *)
Definition set_temps (d : t) (e : Z) (g : list Z) (p lr lv : Z) : t :=
  mk (base d) (cfg d) e g p lr lv (opcode d) (cur_insn_len d) (guest_base d).

(** [ctx.opcode = o; ctx.cur_insn_len = n] *)
Definition set_insn (d : t) (o n : Z) : t :=
  mk (base d) (cfg d) (env d) (gpr d) (pc d) (load_res d) (load_val d) o n (guest_base d).
End Dc.

(** ** The translation monad *)

Definition St : Type := Dc.t * Context.
Definition M (A : Type) : Type := St → option (A * St).

#[global] Instance M_ret : MRet M := λ A a st, Some (a, st).
#[global] Instance M_bind : MBind M := λ A B f m st, '(a, st) ← m st; f a st.

Definition get_self : M Dc.t := λ st, Some (st.1, st).

(** A call of a method of [Context] that returns a temp or label, or nothing. *)
Definition ir (f : Context → Z * Context) : M Z := λ '(d, c), let '(r, c) := f c in Some (r, (d, c)).
Definition ir_ (f : Context → Context) : M unit := λ '(d, c), Some (tt, (d, f c)).

(** [self.gpr[idx as usize]] *)
Definition gpr_at (idx : Z) : M Z := λ st, t ← (Dc.gpr st.1).[idx]; Some (t, st).

(** [self.base.is_jmp = j] *)
Definition set_is_jmp (j : DisasJumpType.t) : M unit := λ '(d, c),
  Some (tt, (Dc.set_base d (DisasContextBase.set_is_jmp (Dc.base d) j), c)).

Definition require_ext (e : MisaExt.t) (m : M bool) : M bool :=
  self ← get_self;
  if negb (MisaExt.contains (RiscvCfg.misa (Dc.cfg self)) e) then mret false else m.

Definition require_cfg (field : RiscvCfg.t → bool) (m : M bool) : M bool :=
  self ← get_self;
  if negb (field (Dc.cfg self)) then mret false else m.

Definition BinOp : Type := Context → Type_.t → Z → Z → Z → Z * Context.

Definition TCG_MO_ALL : Z := 0x0F.
Definition TCG_BAR_LDAQ : Z := 0x10.
Definition TCG_BAR_STRL : Z := 0x20.

Definition CSR_USTATUS : Z := 0x000.
Definition CSR_FFLAGS : Z := 0x001.
Definition CSR_FRM : Z := 0x002.
Definition CSR_FCSR : Z := 0x003.
Definition CSR_UIE : Z := 0x004.
Definition CSR_UTVEC : Z := 0x005.
Definition CSR_USCRATCH : Z := 0x040.
Definition CSR_UEPC : Z := 0x041.
Definition CSR_UCAUSE : Z := 0x042.
Definition CSR_UTVAL : Z := 0x043.
Definition CSR_UIP : Z := 0x044.
Definition CSR_CYCLE : Z := 0xC00.
Definition CSR_TIME : Z := 0xC01.
Definition CSR_INSTRET : Z := 0xC02.

(** Of fpu.rs. *)
Definition FFLAGS_MASK : Z := 0x1f.
Definition FRM_MASK : Z := 0x7.

(** ** The helpers *)

Definition gpr_or_zero (idx : Z) : M Z :=
  if idx =? 0 then
    ir (λ k, new_const k Type_.I64 0)
  else
    gpr_at idx.

Definition gen_set_gpr (rd : Z) (val : Z) : M unit :=
  (if negb (rd =? 0) then
      _ ← (reg ← gpr_at rd; ir (λ k, gen_mov k Type_.I64 reg val));
      mret tt
    else mret tt).

Definition gen_set_gpr_sx32 (rd : Z) (val : Z) : M unit :=
  (if negb (rd =? 0) then
      _ ← (reg ← gpr_at rd; ir (λ k, gen_ext_i32_i64 k reg val));
      mret tt
    else mret tt).

Definition fpr_load (idx : Z) : M Z :=
  self ← get_self;
  t ← ir (λ k, new_temp k Type_.I64);
  _ ← ir (λ k, gen_ld k Type_.I64 t (Dc.env self) (fpr_offset idx));
  mret t.

Definition fpr_store (idx : Z) (val : Z) : M unit :=
  self ← get_self;
  ir_ (λ k, gen_st k Type_.I64 val (Dc.env self) (fpr_offset idx)).

Definition gen_fp_check  : M unit :=
  self ← get_self;
  status ← ir (λ k, new_temp k Type_.I64);
  _ ← ir (λ k, gen_ld k Type_.I64 status (Dc.env self) USTATUS_OFFSET);
  mask ← ir (λ k, new_const k Type_.I64 USTATUS_FS_MASK);
  fs ← ir (λ k, new_temp k Type_.I64);
  _ ← ir (λ k, gen_and k Type_.I64 fs status mask);
  zero ← ir (λ k, new_const k Type_.I64 0);
  ok ← ir (λ k, new_label k);
  _ ← ir_ (λ k, gen_brcond k Type_.I64 fs zero Cond.Ne ok);
  pc ← ir (λ k, new_const k Type_.I64 (Dc.pc_next self));
  _ ← ir (λ k, gen_mov k Type_.I64 (Dc.pc self) pc);
  _ ← ir_ (λ k, gen_exit_tb k EXCP_UNDEF);
  ir_ (λ k, gen_set_label k ok).

Definition gen_set_fs_dirty  : M unit :=
  self ← get_self;
  status ← ir (λ k, new_temp k Type_.I64);
  _ ← ir (λ k, gen_ld k Type_.I64 status (Dc.env self) USTATUS_OFFSET);
  clear ← ir (λ k, new_const k Type_.I64 (2 ^ 64 - 1 - USTATUS_FS_MASK));
  cleared ← ir (λ k, new_temp k Type_.I64);
  _ ← ir (λ k, gen_and k Type_.I64 cleared status clear);
  dirty ← ir (λ k, new_const k Type_.I64 USTATUS_FS_DIRTY);
  new_status ← ir (λ k, new_temp k Type_.I64);
  _ ← ir (λ k, gen_or k Type_.I64 new_status cleared dirty);
  ir_ (λ k, gen_st k Type_.I64 new_status (Dc.env self) USTATUS_OFFSET).

Definition gen_helper_call (helper : Z) (args : list Z) : M Z :=
  dst ← ir (λ k, new_temp k Type_.I64);
  _ ← ir (λ k, gen_call k dst helper args);
  mret dst.

Definition gen_fp_load (a : ArgsI.t) (memop : Z) (is_single : bool) : M bool :=
  _ ← gen_fp_check;
  _ ← gen_set_fs_dirty;
  base ← gpr_or_zero (ArgsI.rs1 a);
  addr ← (if negb (ArgsI.imm a =? 0) then
      imm ← ir (λ k, new_const k Type_.I64 (u64 (ArgsI.imm a)));
      t ← ir (λ k, new_temp k Type_.I64);
      ir (λ k, gen_add k Type_.I64 t base imm)
    else
      mret base);
  val ← ir (λ k, new_temp k Type_.I64);
  _ ← ir (λ k, gen_qemu_ld k Type_.I64 val addr memop);
  _ ← (if is_single then
      mask ← ir (λ k, new_const k Type_.I64 0xffffffff00000000);
      boxed ← ir (λ k, new_temp k Type_.I64);
      _ ← ir (λ k, gen_or k Type_.I64 boxed val mask);
      fpr_store (ArgsI.rd a) boxed
    else
      fpr_store (ArgsI.rd a) val);
  mret true.

Definition gen_fp_store (a : ArgsS.t) (memop : Z) (is_single : bool) : M bool :=
  _ ← gen_fp_check;
  base ← gpr_or_zero (ArgsS.rs1 a);
  addr ← (if negb (ArgsS.imm a =? 0) then
      imm ← ir (λ k, new_const k Type_.I64 (u64 (ArgsS.imm a)));
      t ← ir (λ k, new_temp k Type_.I64);
      ir (λ k, gen_add k Type_.I64 t base imm)
    else
      mret base);
  val ← fpr_load (ArgsS.rs2 a);
  store_val ← (if is_single then
      lo32 ← ir (λ k, new_temp k Type_.I32);
      _ ← ir (λ k, gen_extrl_i64_i32 k lo32 val);
      lo64 ← ir (λ k, new_temp k Type_.I64);
      _ ← ir (λ k, gen_ext_i32_i64 k lo64 lo32);
      mret lo64
    else
      mret val);
  _ ← ir_ (λ k, gen_qemu_st k Type_.I64 store_val addr memop);
  mret true.

Definition gen_csr_read (csr : Z) : M (option Z) :=
  self ← get_self;
  if (csr =? CSR_FFLAGS) then
    v ← ir (λ k, new_temp k Type_.I64);
    _ ← ir (λ k, gen_ld k Type_.I64 v (Dc.env self) FFLAGS_OFFSET);
    mask ← ir (λ k, new_const k Type_.I64 FFLAGS_MASK);
    out ← ir (λ k, new_temp k Type_.I64);
    _ ← ir (λ k, gen_and k Type_.I64 out v mask);
    mret (Some out)
  else if (csr =? CSR_FRM) then
    v ← ir (λ k, new_temp k Type_.I64);
    _ ← ir (λ k, gen_ld k Type_.I64 v (Dc.env self) FRM_OFFSET);
    mask ← ir (λ k, new_const k Type_.I64 FRM_MASK);
    out ← ir (λ k, new_temp k Type_.I64);
    _ ← ir (λ k, gen_and k Type_.I64 out v mask);
    mret (Some out)
  else if (csr =? CSR_FCSR) then
    fflags ← ir (λ k, new_temp k Type_.I64);
    _ ← ir (λ k, gen_ld k Type_.I64 fflags (Dc.env self) FFLAGS_OFFSET);
    fmask ← ir (λ k, new_const k Type_.I64 FFLAGS_MASK);
    _ ← ir (λ k, gen_and k Type_.I64 fflags fflags fmask);
    frm ← ir (λ k, new_temp k Type_.I64);
    _ ← ir (λ k, gen_ld k Type_.I64 frm (Dc.env self) FRM_OFFSET);
    rmask ← ir (λ k, new_const k Type_.I64 FRM_MASK);
    _ ← ir (λ k, gen_and k Type_.I64 frm frm rmask);
    shift ← ir (λ k, new_const k Type_.I64 5);
    frm_shift ← ir (λ k, new_temp k Type_.I64);
    _ ← ir (λ k, gen_shl k Type_.I64 frm_shift frm shift);
    out ← ir (λ k, new_temp k Type_.I64);
    _ ← ir (λ k, gen_or k Type_.I64 out fflags frm_shift);
    mret (Some out)
  else if (csr =? CSR_USTATUS) then
    v ← ir (λ k, new_temp k Type_.I64);
    _ ← ir (λ k, gen_ld k Type_.I64 v (Dc.env self) USTATUS_OFFSET);
    mret (Some v)
  else if (csr =? CSR_UIE) then
    v ← ir (λ k, new_temp k Type_.I64);
    _ ← ir (λ k, gen_ld k Type_.I64 v (Dc.env self) UIE_OFFSET);
    mret (Some v)
  else if (csr =? CSR_UTVEC) then
    v ← ir (λ k, new_temp k Type_.I64);
    _ ← ir (λ k, gen_ld k Type_.I64 v (Dc.env self) UTVEC_OFFSET);
    mret (Some v)
  else if (csr =? CSR_USCRATCH) then
    v ← ir (λ k, new_temp k Type_.I64);
    _ ← ir (λ k, gen_ld k Type_.I64 v (Dc.env self) USCRATCH_OFFSET);
    mret (Some v)
  else if (csr =? CSR_UEPC) then
    v ← ir (λ k, new_temp k Type_.I64);
    _ ← ir (λ k, gen_ld k Type_.I64 v (Dc.env self) UEPC_OFFSET);
    mret (Some v)
  else if (csr =? CSR_UCAUSE) then
    v ← ir (λ k, new_temp k Type_.I64);
    _ ← ir (λ k, gen_ld k Type_.I64 v (Dc.env self) UCAUSE_OFFSET);
    mret (Some v)
  else if (csr =? CSR_UTVAL) then
    v ← ir (λ k, new_temp k Type_.I64);
    _ ← ir (λ k, gen_ld k Type_.I64 v (Dc.env self) UTVAL_OFFSET);
    mret (Some v)
  else if (csr =? CSR_UIP) then
    v ← ir (λ k, new_temp k Type_.I64);
    _ ← ir (λ k, gen_ld k Type_.I64 v (Dc.env self) UIP_OFFSET);
    mret (Some v)
  else if (csr =? CSR_CYCLE) || (csr =? CSR_TIME) || (csr =? CSR_INSTRET) then
    v ← ir (λ k, new_const k Type_.I64 0);
    mret (Some v)
  else
    mret None.

Definition gen_csr_write (csr : Z) (val : Z) : M bool :=
  self ← get_self;
  if (csr =? CSR_FFLAGS) then
    mask ← ir (λ k, new_const k Type_.I64 FFLAGS_MASK);
    v ← ir (λ k, new_temp k Type_.I64);
    _ ← ir (λ k, gen_and k Type_.I64 v val mask);
    _ ← ir_ (λ k, gen_st k Type_.I64 v (Dc.env self) FFLAGS_OFFSET);
    _ ← gen_set_fs_dirty;
    mret true
  else if (csr =? CSR_FRM) then
    mask ← ir (λ k, new_const k Type_.I64 FRM_MASK);
    v ← ir (λ k, new_temp k Type_.I64);
    _ ← ir (λ k, gen_and k Type_.I64 v val mask);
    _ ← ir_ (λ k, gen_st k Type_.I64 v (Dc.env self) FRM_OFFSET);
    _ ← gen_set_fs_dirty;
    mret true
  else if (csr =? CSR_FCSR) then
    fmask ← ir (λ k, new_const k Type_.I64 FFLAGS_MASK);
    fflags ← ir (λ k, new_temp k Type_.I64);
    _ ← ir (λ k, gen_and k Type_.I64 fflags val fmask);
    _ ← ir_ (λ k, gen_st k Type_.I64 fflags (Dc.env self) FFLAGS_OFFSET);
    shift ← ir (λ k, new_const k Type_.I64 5);
    frm ← ir (λ k, new_temp k Type_.I64);
    _ ← ir (λ k, gen_shr k Type_.I64 frm val shift);
    rmask ← ir (λ k, new_const k Type_.I64 FRM_MASK);
    _ ← ir (λ k, gen_and k Type_.I64 frm frm rmask);
    _ ← ir_ (λ k, gen_st k Type_.I64 frm (Dc.env self) FRM_OFFSET);
    _ ← gen_set_fs_dirty;
    mret true
  else if (csr =? CSR_USTATUS) then
    _ ← ir_ (λ k, gen_st k Type_.I64 val (Dc.env self) USTATUS_OFFSET);
    mret true
  else if (csr =? CSR_UIE) then
    _ ← ir_ (λ k, gen_st k Type_.I64 val (Dc.env self) UIE_OFFSET);
    mret true
  else if (csr =? CSR_UTVEC) then
    _ ← ir_ (λ k, gen_st k Type_.I64 val (Dc.env self) UTVEC_OFFSET);
    mret true
  else if (csr =? CSR_USCRATCH) then
    _ ← ir_ (λ k, gen_st k Type_.I64 val (Dc.env self) USCRATCH_OFFSET);
    mret true
  else if (csr =? CSR_UEPC) then
    _ ← ir_ (λ k, gen_st k Type_.I64 val (Dc.env self) UEPC_OFFSET);
    mret true
  else if (csr =? CSR_UCAUSE) then
    _ ← ir_ (λ k, gen_st k Type_.I64 val (Dc.env self) UCAUSE_OFFSET);
    mret true
  else if (csr =? CSR_UTVAL) then
    _ ← ir_ (λ k, gen_st k Type_.I64 val (Dc.env self) UTVAL_OFFSET);
    mret true
  else if (csr =? CSR_UIP) then
    _ ← ir_ (λ k, gen_st k Type_.I64 val (Dc.env self) UIP_OFFSET);
    mret true
  else if (csr =? CSR_CYCLE) || (csr =? CSR_TIME) || (csr =? CSR_INSTRET) then
    mret false
  else
    mret false.

Definition gen_load (a : ArgsI.t) (memop : Z) : M bool :=
  base ← gpr_or_zero (ArgsI.rs1 a);
  addr ← (if negb (ArgsI.imm a =? 0) then
      imm ← ir (λ k, new_const k Type_.I64 (u64 (ArgsI.imm a)));
      t ← ir (λ k, new_temp k Type_.I64);
      ir (λ k, gen_add k Type_.I64 t base imm)
    else
      mret base);
  dst ← ir (λ k, new_temp k Type_.I64);
  _ ← ir (λ k, gen_qemu_ld k Type_.I64 dst addr memop);
  _ ← gen_set_gpr (ArgsI.rd a) dst;
  mret true.

Definition gen_store (a : ArgsS.t) (memop : Z) : M bool :=
  base ← gpr_or_zero (ArgsS.rs1 a);
  addr ← (if negb (ArgsS.imm a =? 0) then
      imm ← ir (λ k, new_const k Type_.I64 (u64 (ArgsS.imm a)));
      t ← ir (λ k, new_temp k Type_.I64);
      ir (λ k, gen_add k Type_.I64 t base imm)
    else
      mret base);
  val ← gpr_or_zero (ArgsS.rs2 a);
  _ ← ir_ (λ k, gen_qemu_st k Type_.I64 val addr memop);
  mret true.

Definition gen_arith (a : ArgsR.t) (op : BinOp) : M bool :=
  s1 ← gpr_or_zero (ArgsR.rs1 a);
  s2 ← gpr_or_zero (ArgsR.rs2 a);
  d ← ir (λ k, new_temp k Type_.I64);
  _ ← ir (λ k, op k Type_.I64 d s1 s2);
  _ ← gen_set_gpr (ArgsR.rd a) d;
  mret true.

Definition gen_setcond_rr (a : ArgsR.t) (cond : Cond.t) : M bool :=
  s1 ← gpr_or_zero (ArgsR.rs1 a);
  s2 ← gpr_or_zero (ArgsR.rs2 a);
  d ← ir (λ k, new_temp k Type_.I64);
  _ ← ir (λ k, gen_setcond k Type_.I64 d s1 s2 cond);
  _ ← gen_set_gpr (ArgsR.rd a) d;
  mret true.

Definition gen_arith_imm (a : ArgsI.t) (op : BinOp) : M bool :=
  src ← gpr_or_zero (ArgsI.rs1 a);
  imm ← ir (λ k, new_const k Type_.I64 (u64 (ArgsI.imm a)));
  d ← ir (λ k, new_temp k Type_.I64);
  _ ← ir (λ k, op k Type_.I64 d src imm);
  _ ← gen_set_gpr (ArgsI.rd a) d;
  mret true.

Definition gen_setcond_imm (a : ArgsI.t) (cond : Cond.t) : M bool :=
  src ← gpr_or_zero (ArgsI.rs1 a);
  imm ← ir (λ k, new_const k Type_.I64 (u64 (ArgsI.imm a)));
  d ← ir (λ k, new_temp k Type_.I64);
  _ ← ir (λ k, gen_setcond k Type_.I64 d src imm cond);
  _ ← gen_set_gpr (ArgsI.rd a) d;
  mret true.

Definition gen_shift_imm (a : ArgsShift.t) (op : BinOp) : M bool :=
  src ← gpr_or_zero (ArgsShift.rs1 a);
  sh ← ir (λ k, new_const k Type_.I64 (u64 (ArgsShift.shamt a)));
  d ← ir (λ k, new_temp k Type_.I64);
  _ ← ir (λ k, op k Type_.I64 d src sh);
  _ ← gen_set_gpr (ArgsShift.rd a) d;
  mret true.

Definition gen_arith_w (a : ArgsR.t) (op : BinOp) : M bool :=
  s1 ← gpr_or_zero (ArgsR.rs1 a);
  s2 ← gpr_or_zero (ArgsR.rs2 a);
  d ← ir (λ k, new_temp k Type_.I64);
  _ ← ir (λ k, op k Type_.I64 d s1 s2);
  _ ← gen_set_gpr_sx32 (ArgsR.rd a) d;
  mret true.

Definition gen_arith_imm_w (a : ArgsI.t) (op : BinOp) : M bool :=
  src ← gpr_or_zero (ArgsI.rs1 a);
  imm ← ir (λ k, new_const k Type_.I64 (u64 (ArgsI.imm a)));
  d ← ir (λ k, new_temp k Type_.I64);
  _ ← ir (λ k, op k Type_.I64 d src imm);
  _ ← gen_set_gpr_sx32 (ArgsI.rd a) d;
  mret true.

Definition gen_shiftw (a : ArgsR.t) (op : BinOp) : M bool :=
  s1 ← gpr_or_zero (ArgsR.rs1 a);
  s2 ← gpr_or_zero (ArgsR.rs2 a);
  a32 ← ir (λ k, new_temp k Type_.I32);
  _ ← ir (λ k, gen_extrl_i64_i32 k a32 s1);
  b32 ← ir (λ k, new_temp k Type_.I32);
  _ ← ir (λ k, gen_extrl_i64_i32 k b32 s2);
  d32 ← ir (λ k, new_temp k Type_.I32);
  _ ← ir (λ k, op k Type_.I32 d32 a32 b32);
  _ ← gen_set_gpr_sx32 (ArgsR.rd a) d32;
  mret true.

Definition gen_shift_imm_w (a : ArgsShift.t) (op : BinOp) : M bool :=
  src ← gpr_or_zero (ArgsShift.rs1 a);
  s32 ← ir (λ k, new_temp k Type_.I32);
  _ ← ir (λ k, gen_extrl_i64_i32 k s32 src);
  sh ← ir (λ k, new_const k Type_.I32 (u64 (ArgsShift.shamt a)));
  d32 ← ir (λ k, new_temp k Type_.I32);
  _ ← ir (λ k, op k Type_.I32 d32 s32 sh);
  _ ← gen_set_gpr_sx32 (ArgsShift.rd a) d32;
  mret true.

Definition gen_div_rem (a : ArgsR.t) (want_rem : bool) : M bool :=
  s1 ← gpr_or_zero (ArgsR.rs1 a);
  s2 ← gpr_or_zero (ArgsR.rs2 a);
  zero ← ir (λ k, new_const k Type_.I64 0);
  one ← ir (λ k, new_const k Type_.I64 1);
  neg1 ← ir (λ k, new_const k Type_.I64 (2 ^ 64 - 1));
  safe ← ir (λ k, new_temp k Type_.I64);
  _ ← ir (λ k, gen_movcond k Type_.I64 safe s2 zero one s2 Cond.Eq);
  _ ← ir (λ k, gen_movcond k Type_.I64 safe safe neg1 one safe Cond.Eq);
  ah ← ir (λ k, new_temp k Type_.I64);
  c63 ← ir (λ k, new_const k Type_.I64 63);
  _ ← ir (λ k, gen_sar k Type_.I64 ah s1 c63);
  quot ← ir (λ k, new_temp k Type_.I64);
  rem ← ir (λ k, new_temp k Type_.I64);
  _ ← ir_ (λ k, gen_divs2 k Type_.I64 quot rem s1 ah safe);
  _ ← (if want_rem then
      r ← ir (λ k, new_temp k Type_.I64);
      _ ← ir (λ k, gen_movcond k Type_.I64 r s2 zero s1 rem Cond.Eq);
      _ ← ir (λ k, gen_movcond k Type_.I64 r s2 neg1 zero r Cond.Eq);
      gen_set_gpr (ArgsR.rd a) r
    else
      neg_s1 ← ir (λ k, new_temp k Type_.I64);
      _ ← ir (λ k, gen_neg k Type_.I64 neg_s1 s1);
      r ← ir (λ k, new_temp k Type_.I64);
      _ ← ir (λ k, gen_movcond k Type_.I64 r s2 zero neg1 quot Cond.Eq);
      _ ← ir (λ k, gen_movcond k Type_.I64 r s2 neg1 neg_s1 r Cond.Eq);
      gen_set_gpr (ArgsR.rd a) r);
  mret true.

Definition gen_divu_remu (a : ArgsR.t) (want_rem : bool) : M bool :=
  s1 ← gpr_or_zero (ArgsR.rs1 a);
  s2 ← gpr_or_zero (ArgsR.rs2 a);
  zero ← ir (λ k, new_const k Type_.I64 0);
  one ← ir (λ k, new_const k Type_.I64 1);
  safe ← ir (λ k, new_temp k Type_.I64);
  _ ← ir (λ k, gen_movcond k Type_.I64 safe s2 zero one s2 Cond.Eq);
  quot ← ir (λ k, new_temp k Type_.I64);
  rem ← ir (λ k, new_temp k Type_.I64);
  _ ← ir_ (λ k, gen_divu2 k Type_.I64 quot rem s1 zero safe);
  _ ← (if want_rem then
      r ← ir (λ k, new_temp k Type_.I64);
      _ ← ir (λ k, gen_movcond k Type_.I64 r s2 zero s1 rem Cond.Eq);
      gen_set_gpr (ArgsR.rd a) r
    else
      neg1 ← ir (λ k, new_const k Type_.I64 (2 ^ 64 - 1));
      r ← ir (λ k, new_temp k Type_.I64);
      _ ← ir (λ k, gen_movcond k Type_.I64 r s2 zero neg1 quot Cond.Eq);
      gen_set_gpr (ArgsR.rd a) r);
  mret true.

Definition gen_div_rem_w (a : ArgsR.t) (want_rem : bool) : M bool :=
  s1 ← gpr_or_zero (ArgsR.rs1 a);
  s2 ← gpr_or_zero (ArgsR.rs2 a);
  a32 ← ir (λ k, new_temp k Type_.I32);
  _ ← ir (λ k, gen_extrl_i64_i32 k a32 s1);
  b32 ← ir (λ k, new_temp k Type_.I32);
  _ ← ir (λ k, gen_extrl_i64_i32 k b32 s2);
  zero ← ir (λ k, new_const k Type_.I32 0);
  one ← ir (λ k, new_const k Type_.I32 1);
  neg1 ← ir (λ k, new_const k Type_.I32 (2 ^ 32 - 1));
  safe ← ir (λ k, new_temp k Type_.I32);
  _ ← ir (λ k, gen_movcond k Type_.I32 safe b32 zero one b32 Cond.Eq);
  _ ← ir (λ k, gen_movcond k Type_.I32 safe safe neg1 one safe Cond.Eq);
  ah ← ir (λ k, new_temp k Type_.I32);
  c31 ← ir (λ k, new_const k Type_.I32 31);
  _ ← ir (λ k, gen_sar k Type_.I32 ah a32 c31);
  quot ← ir (λ k, new_temp k Type_.I32);
  rem ← ir (λ k, new_temp k Type_.I32);
  _ ← ir_ (λ k, gen_divs2 k Type_.I32 quot rem a32 ah safe);
  _ ← (if want_rem then
      r ← ir (λ k, new_temp k Type_.I32);
      _ ← ir (λ k, gen_movcond k Type_.I32 r b32 zero a32 rem Cond.Eq);
      _ ← ir (λ k, gen_movcond k Type_.I32 r b32 neg1 zero r Cond.Eq);
      gen_set_gpr_sx32 (ArgsR.rd a) r
    else
      neg_a ← ir (λ k, new_temp k Type_.I32);
      _ ← ir (λ k, gen_neg k Type_.I32 neg_a a32);
      r ← ir (λ k, new_temp k Type_.I32);
      _ ← ir (λ k, gen_movcond k Type_.I32 r b32 zero neg1 quot Cond.Eq);
      _ ← ir (λ k, gen_movcond k Type_.I32 r b32 neg1 neg_a r Cond.Eq);
      gen_set_gpr_sx32 (ArgsR.rd a) r);
  mret true.

Definition gen_divu_remu_w (a : ArgsR.t) (want_rem : bool) : M bool :=
  s1 ← gpr_or_zero (ArgsR.rs1 a);
  s2 ← gpr_or_zero (ArgsR.rs2 a);
  a32 ← ir (λ k, new_temp k Type_.I32);
  _ ← ir (λ k, gen_extrl_i64_i32 k a32 s1);
  b32 ← ir (λ k, new_temp k Type_.I32);
  _ ← ir (λ k, gen_extrl_i64_i32 k b32 s2);
  zero ← ir (λ k, new_const k Type_.I32 0);
  one ← ir (λ k, new_const k Type_.I32 1);
  safe ← ir (λ k, new_temp k Type_.I32);
  _ ← ir (λ k, gen_movcond k Type_.I32 safe b32 zero one b32 Cond.Eq);
  quot ← ir (λ k, new_temp k Type_.I32);
  rem ← ir (λ k, new_temp k Type_.I32);
  _ ← ir_ (λ k, gen_divu2 k Type_.I32 quot rem a32 zero safe);
  _ ← (if want_rem then
      r ← ir (λ k, new_temp k Type_.I32);
      _ ← ir (λ k, gen_movcond k Type_.I32 r b32 zero a32 rem Cond.Eq);
      gen_set_gpr_sx32 (ArgsR.rd a) r
    else
      max ← ir (λ k, new_const k Type_.I32 (2 ^ 32 - 1));
      r ← ir (λ k, new_temp k Type_.I32);
      _ ← ir (λ k, gen_movcond k Type_.I32 r b32 zero max quot Cond.Eq);
      gen_set_gpr_sx32 (ArgsR.rd a) r);
  mret true.

Definition gen_lr (a : ArgsAtomic.t) (memop : Z) : M bool :=
  self ← get_self;
  addr ← gpr_or_zero (ArgsAtomic.rs1 a);
  _ ← (if negb (ArgsAtomic.rl a =? 0) then
      ir_ (λ k, gen_mb k (Z.lor TCG_MO_ALL TCG_BAR_STRL))
    else mret tt);
  val ← ir (λ k, new_temp k Type_.I64);
  _ ← ir (λ k, gen_qemu_ld k Type_.I64 val addr memop);
  _ ← (if negb (ArgsAtomic.aq a =? 0) then
      ir_ (λ k, gen_mb k (Z.lor TCG_MO_ALL TCG_BAR_LDAQ))
    else mret tt);
  _ ← ir (λ k, gen_mov k Type_.I64 (Dc.load_res self) addr);
  _ ← ir (λ k, gen_mov k Type_.I64 (Dc.load_val self) val);
  _ ← gen_set_gpr (ArgsAtomic.rd a) val;
  mret true.

Definition gen_sc (a : ArgsAtomic.t) (memop : Z) : M bool :=
  self ← get_self;
  addr ← gpr_or_zero (ArgsAtomic.rs1 a);
  src2 ← gpr_or_zero (ArgsAtomic.rs2 a);
  _ ← ir_ (λ k, gen_qemu_st k Type_.I64 src2 addr memop);
  zero ← ir (λ k, new_const k Type_.I64 0);
  _ ← gen_set_gpr (ArgsAtomic.rd a) zero;
  neg1 ← ir (λ k, new_const k Type_.I64 (2 ^ 64 - 1));
  _ ← ir (λ k, gen_mov k Type_.I64 (Dc.load_res self) neg1);
  mret true.

Definition gen_amo (a : ArgsAtomic.t) (op : BinOp) (memop : Z) : M bool :=
  addr ← gpr_or_zero (ArgsAtomic.rs1 a);
  _ ← (if negb (ArgsAtomic.rl a =? 0) then
      ir_ (λ k, gen_mb k (Z.lor TCG_MO_ALL TCG_BAR_STRL))
    else mret tt);
  old ← ir (λ k, new_temp k Type_.I64);
  _ ← ir (λ k, gen_qemu_ld k Type_.I64 old addr memop);
  src2 ← gpr_or_zero (ArgsAtomic.rs2 a);
  new ← ir (λ k, new_temp k Type_.I64);
  _ ← ir (λ k, op k Type_.I64 new old src2);
  _ ← ir_ (λ k, gen_qemu_st k Type_.I64 new addr memop);
  _ ← (if negb (ArgsAtomic.aq a =? 0) then
      ir_ (λ k, gen_mb k (Z.lor TCG_MO_ALL TCG_BAR_LDAQ))
    else mret tt);
  _ ← gen_set_gpr (ArgsAtomic.rd a) old;
  mret true.

Definition gen_amo_swap (a : ArgsAtomic.t) (memop : Z) : M bool :=
  addr ← gpr_or_zero (ArgsAtomic.rs1 a);
  _ ← (if negb (ArgsAtomic.rl a =? 0) then
      ir_ (λ k, gen_mb k (Z.lor TCG_MO_ALL TCG_BAR_STRL))
    else mret tt);
  old ← ir (λ k, new_temp k Type_.I64);
  _ ← ir (λ k, gen_qemu_ld k Type_.I64 old addr memop);
  src2 ← gpr_or_zero (ArgsAtomic.rs2 a);
  _ ← ir_ (λ k, gen_qemu_st k Type_.I64 src2 addr memop);
  _ ← (if negb (ArgsAtomic.aq a =? 0) then
      ir_ (λ k, gen_mb k (Z.lor TCG_MO_ALL TCG_BAR_LDAQ))
    else mret tt);
  _ ← gen_set_gpr (ArgsAtomic.rd a) old;
  mret true.

Definition gen_amo_minmax (a : ArgsAtomic.t) (cond : Cond.t) (memop : Z) : M bool :=
  addr ← gpr_or_zero (ArgsAtomic.rs1 a);
  _ ← (if negb (ArgsAtomic.rl a =? 0) then
      ir_ (λ k, gen_mb k (Z.lor TCG_MO_ALL TCG_BAR_STRL))
    else mret tt);
  old ← ir (λ k, new_temp k Type_.I64);
  _ ← ir (λ k, gen_qemu_ld k Type_.I64 old addr memop);
  src2 ← gpr_or_zero (ArgsAtomic.rs2 a);
  new ← ir (λ k, new_temp k Type_.I64);
  _ ← ir (λ k, gen_movcond k Type_.I64 new old src2 old src2 cond);
  _ ← ir_ (λ k, gen_qemu_st k Type_.I64 new addr memop);
  _ ← (if negb (ArgsAtomic.aq a =? 0) then
      ir_ (λ k, gen_mb k (Z.lor TCG_MO_ALL TCG_BAR_LDAQ))
    else mret tt);
  _ ← gen_set_gpr (ArgsAtomic.rd a) old;
  mret true.

Definition gen_branch (a : ArgsB.t) (cond : Cond.t) : M unit :=
  self ← get_self;
  src1 ← gpr_or_zero (ArgsB.rs1 a);
  src2 ← gpr_or_zero (ArgsB.rs2 a);
  taken ← ir (λ k, new_label k);
  _ ← ir_ (λ k, gen_brcond k Type_.I64 src1 src2 cond taken);
  let next_pc := (u64 (Dc.pc_next self + Dc.cur_insn_len self)) in
  c ← ir (λ k, new_const k Type_.I64 next_pc);
  _ ← ir (λ k, gen_mov k Type_.I64 (Dc.pc self) c);
  _ ← ir_ (λ k, gen_goto_tb k 0);
  _ ← ir_ (λ k, gen_exit_tb k TB_EXIT_IDX0);
  _ ← ir_ (λ k, gen_set_label k taken);
  let target := (u64 (Dc.pc_next self + ArgsB.imm a)) in
  c ← ir (λ k, new_const k Type_.I64 target);
  _ ← ir (λ k, gen_mov k Type_.I64 (Dc.pc self) c);
  _ ← ir_ (λ k, gen_goto_tb k 1);
  _ ← ir_ (λ k, gen_exit_tb k TB_EXIT_IDX1);
  set_is_jmp DisasJumpType.NoReturn.
