(* ===== verification/RiscvTrans.v ===== *)
(** * Translation of the RISC-V instructions (frontend/src/riscv/trans.rs)

    One definition per method of the [Decode] and [Decode16] implementations,
    named as in the source.  A method returns [false] when the instruction is not
    accepted (missing extension, unknown or read-only CSR).

    The floating-point instructions call the functions of fpu.rs through their
    host addresses, which the linker chooses: the class [HelperAddr]. *)

From S2P Require Import Prelude Types Opcodes Ir Builder Tb Frontend RiscvCpu RiscvGen.

Module Helper.
Inductive t :=
| helper_fmadd_s
| helper_fmsub_s
| helper_fnmsub_s
| helper_fnmadd_s
| helper_fadd_s
| helper_fsub_s
| helper_fmul_s
| helper_fdiv_s
| helper_fsqrt_s
| helper_fsgnj_s
| helper_fsgnjn_s
| helper_fsgnjx_s
| helper_fmin_s
| helper_fmax_s
| helper_feq_s
| helper_flt_s
| helper_fle_s
| helper_fclass_s
| helper_fcvt_w_s
| helper_fcvt_wu_s
| helper_fcvt_s_w
| helper_fcvt_s_wu
| helper_fcvt_l_s
| helper_fcvt_lu_s
| helper_fcvt_s_l
| helper_fcvt_s_lu
| helper_fmadd_d
| helper_fmsub_d
| helper_fnmsub_d
| helper_fnmadd_d
| helper_fadd_d
| helper_fsub_d
| helper_fmul_d
| helper_fdiv_d
| helper_fsqrt_d
| helper_fsgnj_d
| helper_fsgnjn_d
| helper_fsgnjx_d
| helper_fmin_d
| helper_fmax_d
| helper_feq_d
| helper_flt_d
| helper_fle_d
| helper_fclass_d
| helper_fcvt_s_d
| helper_fcvt_d_s
| helper_fcvt_w_d
| helper_fcvt_wu_d
| helper_fcvt_d_w
| helper_fcvt_d_wu
| helper_fcvt_l_d
| helper_fcvt_lu_d
| helper_fcvt_d_l
| helper_fcvt_d_lu.

#[global] Instance t_eq_dec : EqDecision t.
Proof. solve_decision. Defined.
End Helper.

Class HelperAddr := addr_of : Helper.t → Z.

(** A call of a method of [Decode]: what the generated decoder makes of a 32-bit
    instruction. *)

Module Insn.
Inductive t :=
| lui (a : ArgsU.t)
| auipc (a : ArgsU.t)
| jal (a : ArgsJ.t)
| jalr (a : ArgsI.t)
| beq (a : ArgsB.t)
| bne (a : ArgsB.t)
| blt (a : ArgsB.t)
| bge (a : ArgsB.t)
| bltu (a : ArgsB.t)
| bgeu (a : ArgsB.t)
| lb (a : ArgsI.t)
| lh (a : ArgsI.t)
| lw (a : ArgsI.t)
| lbu (a : ArgsI.t)
| lhu (a : ArgsI.t)
| sb (a : ArgsS.t)
| sh (a : ArgsS.t)
| sw (a : ArgsS.t)
| addi (a : ArgsI.t)
| slti (a : ArgsI.t)
| sltiu (a : ArgsI.t)
| xori (a : ArgsI.t)
| ori (a : ArgsI.t)
| andi (a : ArgsI.t)
| slli (a : ArgsShift.t)
| srli (a : ArgsShift.t)
| srai (a : ArgsShift.t)
| add (a : ArgsR.t)
| sub (a : ArgsR.t)
| sll (a : ArgsR.t)
| slt (a : ArgsR.t)
| sltu (a : ArgsR.t)
| xor (a : ArgsR.t)
| srl (a : ArgsR.t)
| sra (a : ArgsR.t)
| or (a : ArgsR.t)
| and (a : ArgsR.t)
| fence (a : ArgsAutoFence.t)
| ecall (a : ArgsEmpty.t)
| ebreak (a : ArgsEmpty.t)
| lwu (a : ArgsI.t)
| ld (a : ArgsI.t)
| sd (a : ArgsS.t)
| addiw (a : ArgsI.t)
| slliw (a : ArgsShift.t)
| srliw (a : ArgsShift.t)
| sraiw (a : ArgsShift.t)
| addw (a : ArgsR.t)
| subw (a : ArgsR.t)
| sllw (a : ArgsR.t)
| srlw (a : ArgsR.t)
| sraw (a : ArgsR.t)
| mul (a : ArgsR.t)
| mulh (a : ArgsR.t)
| mulhsu (a : ArgsR.t)
| mulhu (a : ArgsR.t)
| div (a : ArgsR.t)
| divu (a : ArgsR.t)
| rem (a : ArgsR.t)
| remu (a : ArgsR.t)
| mulw (a : ArgsR.t)
| divw (a : ArgsR.t)
| divuw (a : ArgsR.t)
| remw (a : ArgsR.t)
| remuw (a : ArgsR.t)
| lr_w (a : ArgsAtomic.t)
| sc_w (a : ArgsAtomic.t)
| amoswap_w (a : ArgsAtomic.t)
| amoadd_w (a : ArgsAtomic.t)
| amoxor_w (a : ArgsAtomic.t)
| amoand_w (a : ArgsAtomic.t)
| amoor_w (a : ArgsAtomic.t)
| amomin_w (a : ArgsAtomic.t)
| amomax_w (a : ArgsAtomic.t)
| amominu_w (a : ArgsAtomic.t)
| amomaxu_w (a : ArgsAtomic.t)
| lr_d (a : ArgsAtomic.t)
| sc_d (a : ArgsAtomic.t)
| amoswap_d (a : ArgsAtomic.t)
| amoadd_d (a : ArgsAtomic.t)
| amoxor_d (a : ArgsAtomic.t)
| amoand_d (a : ArgsAtomic.t)
| amoor_d (a : ArgsAtomic.t)
| amomin_d (a : ArgsAtomic.t)
| amomax_d (a : ArgsAtomic.t)
| amominu_d (a : ArgsAtomic.t)
| amomaxu_d (a : ArgsAtomic.t)
| csrrw (a : ArgsCsr.t)
| csrrs (a : ArgsCsr.t)
| csrrc (a : ArgsCsr.t)
| csrrwi (a : ArgsCsr.t)
| csrrsi (a : ArgsCsr.t)
| csrrci (a : ArgsCsr.t)
| flw (a : ArgsI.t)
| fsw (a : ArgsS.t)
| fld (a : ArgsI.t)
| fsd (a : ArgsS.t)
| fmadd_s (a : ArgsR4Rm.t)
| fmsub_s (a : ArgsR4Rm.t)
| fnmsub_s (a : ArgsR4Rm.t)
| fnmadd_s (a : ArgsR4Rm.t)
| fadd_s (a : ArgsRRm.t)
| fsub_s (a : ArgsRRm.t)
| fmul_s (a : ArgsRRm.t)
| fdiv_s (a : ArgsRRm.t)
| fsqrt_s (a : ArgsR2Rm.t)
| fsgnj_s (a : ArgsR.t)
| fsgnjn_s (a : ArgsR.t)
| fsgnjx_s (a : ArgsR.t)
| fmin_s (a : ArgsR.t)
| fmax_s (a : ArgsR.t)
| feq_s (a : ArgsR.t)
| flt_s (a : ArgsR.t)
| fle_s (a : ArgsR.t)
| fclass_s (a : ArgsR2.t)
| fcvt_w_s (a : ArgsR2Rm.t)
| fcvt_wu_s (a : ArgsR2Rm.t)
| fcvt_s_w (a : ArgsR2Rm.t)
| fcvt_s_wu (a : ArgsR2Rm.t)
| fmv_x_w (a : ArgsR2.t)
| fmv_w_x (a : ArgsR2.t)
| fcvt_l_s (a : ArgsR2Rm.t)
| fcvt_lu_s (a : ArgsR2Rm.t)
| fcvt_s_l (a : ArgsR2Rm.t)
| fcvt_s_lu (a : ArgsR2Rm.t)
| fmadd_d (a : ArgsR4Rm.t)
| fmsub_d (a : ArgsR4Rm.t)
| fnmsub_d (a : ArgsR4Rm.t)
| fnmadd_d (a : ArgsR4Rm.t)
| fadd_d (a : ArgsRRm.t)
| fsub_d (a : ArgsRRm.t)
| fmul_d (a : ArgsRRm.t)
| fdiv_d (a : ArgsRRm.t)
| fsqrt_d (a : ArgsR2Rm.t)
| fsgnj_d (a : ArgsR.t)
| fsgnjn_d (a : ArgsR.t)
| fsgnjx_d (a : ArgsR.t)
| fmin_d (a : ArgsR.t)
| fmax_d (a : ArgsR.t)
| feq_d (a : ArgsR.t)
| flt_d (a : ArgsR.t)
| fle_d (a : ArgsR.t)
| fclass_d (a : ArgsR2.t)
| fcvt_s_d (a : ArgsR2Rm.t)
| fcvt_d_s (a : ArgsR2Rm.t)
| fcvt_w_d (a : ArgsR2Rm.t)
| fcvt_wu_d (a : ArgsR2Rm.t)
| fcvt_d_w (a : ArgsR2Rm.t)
| fcvt_d_wu (a : ArgsR2Rm.t)
| fcvt_l_d (a : ArgsR2Rm.t)
| fcvt_lu_d (a : ArgsR2Rm.t)
| fcvt_d_l (a : ArgsR2Rm.t)
| fcvt_d_lu (a : ArgsR2Rm.t)
| fmv_x_d (a : ArgsR2.t)
| fmv_d_x (a : ArgsR2.t).
End Insn.

Module Decode.
Section decode.
Context `{HelperAddr}.

Definition trans_lui (a : ArgsU.t) : M bool :=
  c ← ir (λ k, new_const k Type_.I64 (u64 (ArgsU.imm a)));
  _ ← gen_set_gpr (ArgsU.rd a) c;
  mret true.

Definition trans_auipc (a : ArgsU.t) : M bool :=
  self ← get_self;
  let v := (u64 (Dc.pc_next self + ArgsU.imm a)) in
  c ← ir (λ k, new_const k Type_.I64 v);
  _ ← gen_set_gpr (ArgsU.rd a) c;
  mret true.

Definition trans_jal (a : ArgsJ.t) : M bool :=
  self ← get_self;
  let link := (u64 (Dc.pc_next self + Dc.cur_insn_len self)) in
  c ← ir (λ k, new_const k Type_.I64 link);
  _ ← gen_set_gpr (ArgsJ.rd a) c;
  let target := (u64 (Dc.pc_next self + ArgsJ.imm a)) in
  c ← ir (λ k, new_const k Type_.I64 target);
  _ ← ir (λ k, gen_mov k Type_.I64 (Dc.pc self) c);
  _ ← ir_ (λ k, gen_goto_tb k 0);
  _ ← ir_ (λ k, gen_exit_tb k TB_EXIT_IDX0);
  _ ← set_is_jmp DisasJumpType.NoReturn;
  mret true.

Definition trans_jalr (a : ArgsI.t) : M bool :=
  self ← get_self;
  let link := (u64 (Dc.pc_next self + Dc.cur_insn_len self)) in
  src ← gpr_or_zero (ArgsI.rs1 a);
  imm ← ir (λ k, new_const k Type_.I64 (u64 (ArgsI.imm a)));
  tmp ← ir (λ k, new_temp k Type_.I64);
  _ ← ir (λ k, gen_add k Type_.I64 tmp src imm);
  mask ← ir (λ k, new_const k Type_.I64 (2 ^ 64 - 1 - 1));
  _ ← ir (λ k, gen_and k Type_.I64 tmp tmp mask);
  c ← ir (λ k, new_const k Type_.I64 link);
  _ ← gen_set_gpr (ArgsI.rd a) c;
  _ ← ir (λ k, gen_mov k Type_.I64 (Dc.pc self) tmp);
  _ ← ir_ (λ k, gen_exit_tb k TB_EXIT_NOCHAIN);
  _ ← set_is_jmp DisasJumpType.NoReturn;
  mret true.

Definition trans_beq (a : ArgsB.t) : M bool :=
  _ ← gen_branch a Cond.Eq;
  mret true.

Definition trans_bne (a : ArgsB.t) : M bool :=
  _ ← gen_branch a Cond.Ne;
  mret true.

Definition trans_blt (a : ArgsB.t) : M bool :=
  _ ← gen_branch a Cond.Lt;
  mret true.

Definition trans_bge (a : ArgsB.t) : M bool :=
  _ ← gen_branch a Cond.Ge;
  mret true.

Definition trans_bltu (a : ArgsB.t) : M bool :=
  _ ← gen_branch a Cond.Ltu;
  mret true.

Definition trans_bgeu (a : ArgsB.t) : M bool :=
  _ ← gen_branch a Cond.Geu;
  mret true.

Definition trans_lb (a : ArgsI.t) : M bool :=
  gen_load a MemOp.sb.

Definition trans_lh (a : ArgsI.t) : M bool :=
  gen_load a MemOp.sw.

Definition trans_lw (a : ArgsI.t) : M bool :=
  gen_load a MemOp.sl.

Definition trans_lbu (a : ArgsI.t) : M bool :=
  gen_load a MemOp.ub.

Definition trans_lhu (a : ArgsI.t) : M bool :=
  gen_load a MemOp.uw.

Definition trans_sb (a : ArgsS.t) : M bool :=
  gen_store a MemOp.ub.

Definition trans_sh (a : ArgsS.t) : M bool :=
  gen_store a MemOp.uw.

Definition trans_sw (a : ArgsS.t) : M bool :=
  gen_store a MemOp.ul.

Definition trans_addi (a : ArgsI.t) : M bool :=
  gen_arith_imm a gen_add.

Definition trans_slti (a : ArgsI.t) : M bool :=
  gen_setcond_imm a Cond.Lt.

Definition trans_sltiu (a : ArgsI.t) : M bool :=
  gen_setcond_imm a Cond.Ltu.

Definition trans_xori (a : ArgsI.t) : M bool :=
  gen_arith_imm a gen_xor.

Definition trans_ori (a : ArgsI.t) : M bool :=
  gen_arith_imm a gen_or.

Definition trans_andi (a : ArgsI.t) : M bool :=
  gen_arith_imm a gen_and.

Definition trans_slli (a : ArgsShift.t) : M bool :=
  gen_shift_imm a gen_shl.

Definition trans_srli (a : ArgsShift.t) : M bool :=
  gen_shift_imm a gen_shr.

Definition trans_srai (a : ArgsShift.t) : M bool :=
  gen_shift_imm a gen_sar.

Definition trans_add (a : ArgsR.t) : M bool :=
  gen_arith a gen_add.

Definition trans_sub (a : ArgsR.t) : M bool :=
  gen_arith a gen_sub.

Definition trans_sll (a : ArgsR.t) : M bool :=
  gen_arith a gen_shl.

Definition trans_slt (a : ArgsR.t) : M bool :=
  gen_setcond_rr a Cond.Lt.

Definition trans_sltu (a : ArgsR.t) : M bool :=
  gen_setcond_rr a Cond.Ltu.

Definition trans_xor (a : ArgsR.t) : M bool :=
  gen_arith a gen_xor.

Definition trans_srl (a : ArgsR.t) : M bool :=
  gen_arith a gen_shr.

Definition trans_sra (a : ArgsR.t) : M bool :=
  gen_arith a gen_sar.

Definition trans_or (a : ArgsR.t) : M bool :=
  gen_arith a gen_or.

Definition trans_and (a : ArgsR.t) : M bool :=
  gen_arith a gen_and.

Definition trans_fence (_ : ArgsAutoFence.t) : M bool :=
  mret true.

Definition trans_ecall (_ : ArgsEmpty.t) : M bool :=
  self ← get_self;
  pc ← ir (λ k, new_const k Type_.I64 (Dc.pc_next self));
  _ ← ir (λ k, gen_mov k Type_.I64 (Dc.pc self) pc);
  _ ← ir_ (λ k, gen_exit_tb k EXCP_ECALL);
  _ ← set_is_jmp DisasJumpType.NoReturn;
  mret true.

Definition trans_ebreak (_ : ArgsEmpty.t) : M bool :=
  self ← get_self;
  pc ← ir (λ k, new_const k Type_.I64 (Dc.pc_next self));
  _ ← ir (λ k, gen_mov k Type_.I64 (Dc.pc self) pc);
  _ ← ir_ (λ k, gen_exit_tb k EXCP_EBREAK);
  _ ← set_is_jmp DisasJumpType.NoReturn;
  mret true.

Definition trans_lwu (a : ArgsI.t) : M bool :=
  gen_load a MemOp.ul.

Definition trans_ld (a : ArgsI.t) : M bool :=
  gen_load a MemOp.uq.

Definition trans_sd (a : ArgsS.t) : M bool :=
  gen_store a MemOp.uq.

Definition trans_addiw (a : ArgsI.t) : M bool :=
  gen_arith_imm_w a gen_add.

Definition trans_slliw (a : ArgsShift.t) : M bool :=
  gen_shift_imm_w a gen_shl.

Definition trans_srliw (a : ArgsShift.t) : M bool :=
  gen_shift_imm_w a gen_shr.

Definition trans_sraiw (a : ArgsShift.t) : M bool :=
  gen_shift_imm_w a gen_sar.

Definition trans_addw (a : ArgsR.t) : M bool :=
  gen_arith_w a gen_add.

Definition trans_subw (a : ArgsR.t) : M bool :=
  gen_arith_w a gen_sub.

Definition trans_sllw (a : ArgsR.t) : M bool :=
  gen_shiftw a gen_shl.

Definition trans_srlw (a : ArgsR.t) : M bool :=
  gen_shiftw a gen_shr.

Definition trans_sraw (a : ArgsR.t) : M bool :=
  gen_shiftw a gen_sar.

Definition trans_mul (a : ArgsR.t) : M bool :=
  require_ext MisaExt.M (
  gen_arith a gen_mul).

Definition trans_mulh (a : ArgsR.t) : M bool :=
  require_ext MisaExt.M (
  s1 ← gpr_or_zero (ArgsR.rs1 a);
  s2 ← gpr_or_zero (ArgsR.rs2 a);
  lo ← ir (λ k, new_temp k Type_.I64);
  hi ← ir (λ k, new_temp k Type_.I64);
  _ ← ir_ (λ k, gen_muls2 k Type_.I64 lo hi s1 s2);
  _ ← gen_set_gpr (ArgsR.rd a) hi;
  mret true).

Definition trans_mulhsu (a : ArgsR.t) : M bool :=
  require_ext MisaExt.M (
  s1 ← gpr_or_zero (ArgsR.rs1 a);
  s2 ← gpr_or_zero (ArgsR.rs2 a);
  lo ← ir (λ k, new_temp k Type_.I64);
  hi ← ir (λ k, new_temp k Type_.I64);
  _ ← ir_ (λ k, gen_mulu2 k Type_.I64 lo hi s1 s2);
  c63 ← ir (λ k, new_const k Type_.I64 63);
  sign ← ir (λ k, new_temp k Type_.I64);
  _ ← ir (λ k, gen_sar k Type_.I64 sign s1 c63);
  adj ← ir (λ k, new_temp k Type_.I64);
  _ ← ir (λ k, gen_and k Type_.I64 adj sign s2);
  _ ← ir (λ k, gen_sub k Type_.I64 hi hi adj);
  _ ← gen_set_gpr (ArgsR.rd a) hi;
  mret true).

Definition trans_mulhu (a : ArgsR.t) : M bool :=
  require_ext MisaExt.M (
  s1 ← gpr_or_zero (ArgsR.rs1 a);
  s2 ← gpr_or_zero (ArgsR.rs2 a);
  lo ← ir (λ k, new_temp k Type_.I64);
  hi ← ir (λ k, new_temp k Type_.I64);
  _ ← ir_ (λ k, gen_mulu2 k Type_.I64 lo hi s1 s2);
  _ ← gen_set_gpr (ArgsR.rd a) hi;
  mret true).

Definition trans_div (a : ArgsR.t) : M bool :=
  require_ext MisaExt.M (
  gen_div_rem a false).

Definition trans_divu (a : ArgsR.t) : M bool :=
  require_ext MisaExt.M (
  gen_divu_remu a false).

Definition trans_rem (a : ArgsR.t) : M bool :=
  require_ext MisaExt.M (
  gen_div_rem a true).

Definition trans_remu (a : ArgsR.t) : M bool :=
  require_ext MisaExt.M (
  gen_divu_remu a true).

Definition trans_mulw (a : ArgsR.t) : M bool :=
  require_ext MisaExt.M (
  gen_arith_w a gen_mul).

Definition trans_divw (a : ArgsR.t) : M bool :=
  require_ext MisaExt.M (
  gen_div_rem_w a false).

Definition trans_divuw (a : ArgsR.t) : M bool :=
  require_ext MisaExt.M (
  gen_divu_remu_w a false).

Definition trans_remw (a : ArgsR.t) : M bool :=
  require_ext MisaExt.M (
  gen_div_rem_w a true).

Definition trans_remuw (a : ArgsR.t) : M bool :=
  require_ext MisaExt.M (
  gen_divu_remu_w a true).

Definition trans_lr_w (a : ArgsAtomic.t) : M bool :=
  require_ext MisaExt.A (
  gen_lr a MemOp.sl).

Definition trans_sc_w (a : ArgsAtomic.t) : M bool :=
  require_ext MisaExt.A (
  gen_sc a MemOp.ul).

Definition trans_amoswap_w (a : ArgsAtomic.t) : M bool :=
  require_ext MisaExt.A (
  gen_amo_swap a MemOp.sl).

Definition trans_amoadd_w (a : ArgsAtomic.t) : M bool :=
  require_ext MisaExt.A (
  gen_amo a gen_add MemOp.sl).

Definition trans_amoxor_w (a : ArgsAtomic.t) : M bool :=
  require_ext MisaExt.A (
  gen_amo a gen_xor MemOp.sl).

Definition trans_amoand_w (a : ArgsAtomic.t) : M bool :=
  require_ext MisaExt.A (
  gen_amo a gen_and MemOp.sl).

Definition trans_amoor_w (a : ArgsAtomic.t) : M bool :=
  require_ext MisaExt.A (
  gen_amo a gen_or MemOp.sl).

Definition trans_amomin_w (a : ArgsAtomic.t) : M bool :=
  require_ext MisaExt.A (
  gen_amo_minmax a Cond.Lt MemOp.sl).

Definition trans_amomax_w (a : ArgsAtomic.t) : M bool :=
  require_ext MisaExt.A (
  gen_amo_minmax a Cond.Gt MemOp.sl).

Definition trans_amominu_w (a : ArgsAtomic.t) : M bool :=
  require_ext MisaExt.A (
  gen_amo_minmax a Cond.Ltu MemOp.sl).

Definition trans_amomaxu_w (a : ArgsAtomic.t) : M bool :=
  require_ext MisaExt.A (
  gen_amo_minmax a Cond.Gtu MemOp.sl).

Definition trans_lr_d (a : ArgsAtomic.t) : M bool :=
  require_ext MisaExt.A (
  gen_lr a MemOp.uq).

Definition trans_sc_d (a : ArgsAtomic.t) : M bool :=
  require_ext MisaExt.A (
  gen_sc a MemOp.uq).

Definition trans_amoswap_d (a : ArgsAtomic.t) : M bool :=
  require_ext MisaExt.A (
  gen_amo_swap a MemOp.uq).

Definition trans_amoadd_d (a : ArgsAtomic.t) : M bool :=
  require_ext MisaExt.A (
  gen_amo a gen_add MemOp.uq).

Definition trans_amoxor_d (a : ArgsAtomic.t) : M bool :=
  require_ext MisaExt.A (
  gen_amo a gen_xor MemOp.uq).

Definition trans_amoand_d (a : ArgsAtomic.t) : M bool :=
  require_ext MisaExt.A (
  gen_amo a gen_and MemOp.uq).

Definition trans_amoor_d (a : ArgsAtomic.t) : M bool :=
  require_ext MisaExt.A (
  gen_amo a gen_or MemOp.uq).

Definition trans_amomin_d (a : ArgsAtomic.t) : M bool :=
  require_ext MisaExt.A (
  gen_amo_minmax a Cond.Lt MemOp.uq).

Definition trans_amomax_d (a : ArgsAtomic.t) : M bool :=
  require_ext MisaExt.A (
  gen_amo_minmax a Cond.Gt MemOp.uq).

Definition trans_amominu_d (a : ArgsAtomic.t) : M bool :=
  require_ext MisaExt.A (
  gen_amo_minmax a Cond.Ltu MemOp.uq).

Definition trans_amomaxu_d (a : ArgsAtomic.t) : M bool :=
  require_ext MisaExt.A (
  gen_amo_minmax a Cond.Gtu MemOp.uq).

Definition trans_csrrw (a : ArgsCsr.t) : M bool :=
  require_cfg RiscvCfg.ext_zicsr (
  old ← gen_csr_read (ArgsCsr.csr a);
  match old with None => mret false | Some old =>
  rs1 ← gpr_or_zero (ArgsCsr.rs1 a);
  ok ← gen_csr_write (ArgsCsr.csr a) rs1;
  if negb ok then mret false else
  _ ← gen_set_gpr (ArgsCsr.rd a) old;
  mret true end).

Definition trans_csrrs (a : ArgsCsr.t) : M bool :=
  require_cfg RiscvCfg.ext_zicsr (
  old ← gen_csr_read (ArgsCsr.csr a);
  match old with None => mret false | Some old =>
  go ← (if negb (ArgsCsr.rs1 a =? 0) then
      rs1 ← gpr_or_zero (ArgsCsr.rs1 a);
      new ← ir (λ k, new_temp k Type_.I64);
      _ ← ir (λ k, gen_or k Type_.I64 new old rs1);
      gen_csr_write (ArgsCsr.csr a) new
    else mret true);
  if negb go then mret false else
  _ ← gen_set_gpr (ArgsCsr.rd a) old;
  mret true end).

Definition trans_csrrc (a : ArgsCsr.t) : M bool :=
  require_cfg RiscvCfg.ext_zicsr (
  old ← gen_csr_read (ArgsCsr.csr a);
  match old with None => mret false | Some old =>
  go ← (if negb (ArgsCsr.rs1 a =? 0) then
      rs1 ← gpr_or_zero (ArgsCsr.rs1 a);
      inv ← ir (λ k, new_temp k Type_.I64);
      _ ← ir (λ k, gen_not k Type_.I64 inv rs1);
      new ← ir (λ k, new_temp k Type_.I64);
      _ ← ir (λ k, gen_and k Type_.I64 new old inv);
      gen_csr_write (ArgsCsr.csr a) new
    else mret true);
  if negb go then mret false else
  _ ← gen_set_gpr (ArgsCsr.rd a) old;
  mret true end).

Definition trans_csrrwi (a : ArgsCsr.t) : M bool :=
  require_cfg RiscvCfg.ext_zicsr (
  old ← gen_csr_read (ArgsCsr.csr a);
  match old with None => mret false | Some old =>
  zimm ← ir (λ k, new_const k Type_.I64 (u64 (ArgsCsr.rs1 a)));
  ok ← gen_csr_write (ArgsCsr.csr a) zimm;
  if negb ok then mret false else
  _ ← gen_set_gpr (ArgsCsr.rd a) old;
  mret true end).

Definition trans_csrrsi (a : ArgsCsr.t) : M bool :=
  require_cfg RiscvCfg.ext_zicsr (
  old ← gen_csr_read (ArgsCsr.csr a);
  match old with None => mret false | Some old =>
  go ← (if negb (ArgsCsr.rs1 a =? 0) then
      zimm ← ir (λ k, new_const k Type_.I64 (u64 (ArgsCsr.rs1 a)));
      new ← ir (λ k, new_temp k Type_.I64);
      _ ← ir (λ k, gen_or k Type_.I64 new old zimm);
      gen_csr_write (ArgsCsr.csr a) new
    else mret true);
  if negb go then mret false else
  _ ← gen_set_gpr (ArgsCsr.rd a) old;
  mret true end).

Definition trans_csrrci (a : ArgsCsr.t) : M bool :=
  require_cfg RiscvCfg.ext_zicsr (
  old ← gen_csr_read (ArgsCsr.csr a);
  match old with None => mret false | Some old =>
  go ← (if negb (ArgsCsr.rs1 a =? 0) then
      zimm ← ir (λ k, new_const k Type_.I64 (u64 (ArgsCsr.rs1 a)));
      inv ← ir (λ k, new_temp k Type_.I64);
      _ ← ir (λ k, gen_not k Type_.I64 inv zimm);
      new ← ir (λ k, new_temp k Type_.I64);
      _ ← ir (λ k, gen_and k Type_.I64 new old inv);
      gen_csr_write (ArgsCsr.csr a) new
    else mret true);
  if negb go then mret false else
  _ ← gen_set_gpr (ArgsCsr.rd a) old;
  mret true end).

Definition trans_flw (a : ArgsI.t) : M bool :=
  require_ext MisaExt.F (
  gen_fp_load a MemOp.ul true).

Definition trans_fsw (a : ArgsS.t) : M bool :=
  require_ext MisaExt.F (
  gen_fp_store a MemOp.ul true).

Definition trans_fld (a : ArgsI.t) : M bool :=
  require_ext MisaExt.D (
  gen_fp_load a MemOp.uq false).

Definition trans_fsd (a : ArgsS.t) : M bool :=
  require_ext MisaExt.D (
  gen_fp_store a MemOp.uq false).

Definition trans_fmadd_s (a : ArgsR4Rm.t) : M bool :=
  self ← get_self;
  require_ext MisaExt.F (
  _ ← gen_fp_check;
  _ ← gen_set_fs_dirty;
  rs1 ← fpr_load (ArgsR4Rm.rs1 a);
  rs2 ← fpr_load (ArgsR4Rm.rs2 a);
  rs3 ← fpr_load (ArgsR4Rm.rs3 a);
  rm ← ir (λ k, new_const k Type_.I64 (u64 (ArgsR4Rm.rm a)));
  res ← gen_helper_call (addr_of Helper.helper_fmadd_s) [Dc.env self; rs1; rs2; rs3; rm];
  _ ← fpr_store (ArgsR4Rm.rd a) res;
  mret true).

Definition trans_fmsub_s (a : ArgsR4Rm.t) : M bool :=
  self ← get_self;
  require_ext MisaExt.F (
  _ ← gen_fp_check;
  _ ← gen_set_fs_dirty;
  rs1 ← fpr_load (ArgsR4Rm.rs1 a);
  rs2 ← fpr_load (ArgsR4Rm.rs2 a);
  rs3 ← fpr_load (ArgsR4Rm.rs3 a);
  rm ← ir (λ k, new_const k Type_.I64 (u64 (ArgsR4Rm.rm a)));
  res ← gen_helper_call (addr_of Helper.helper_fmsub_s) [Dc.env self; rs1; rs2; rs3; rm];
  _ ← fpr_store (ArgsR4Rm.rd a) res;
  mret true).

Definition trans_fnmsub_s (a : ArgsR4Rm.t) : M bool :=
  self ← get_self;
  require_ext MisaExt.F (
  _ ← gen_fp_check;
  _ ← gen_set_fs_dirty;
  rs1 ← fpr_load (ArgsR4Rm.rs1 a);
  rs2 ← fpr_load (ArgsR4Rm.rs2 a);
  rs3 ← fpr_load (ArgsR4Rm.rs3 a);
  rm ← ir (λ k, new_const k Type_.I64 (u64 (ArgsR4Rm.rm a)));
  res ← gen_helper_call (addr_of Helper.helper_fnmsub_s) [Dc.env self; rs1; rs2; rs3; rm];
  _ ← fpr_store (ArgsR4Rm.rd a) res;
  mret true).

Definition trans_fnmadd_s (a : ArgsR4Rm.t) : M bool :=
  self ← get_self;
  require_ext MisaExt.F (
  _ ← gen_fp_check;
  _ ← gen_set_fs_dirty;
  rs1 ← fpr_load (ArgsR4Rm.rs1 a);
  rs2 ← fpr_load (ArgsR4Rm.rs2 a);
  rs3 ← fpr_load (ArgsR4Rm.rs3 a);
  rm ← ir (λ k, new_const k Type_.I64 (u64 (ArgsR4Rm.rm a)));
  res ← gen_helper_call (addr_of Helper.helper_fnmadd_s) [Dc.env self; rs1; rs2; rs3; rm];
  _ ← fpr_store (ArgsR4Rm.rd a) res;
  mret true).

Definition trans_fadd_s (a : ArgsRRm.t) : M bool :=
  self ← get_self;
  require_ext MisaExt.F (
  _ ← gen_fp_check;
  _ ← gen_set_fs_dirty;
  rs1 ← fpr_load (ArgsRRm.rs1 a);
  rs2 ← fpr_load (ArgsRRm.rs2 a);
  rm ← ir (λ k, new_const k Type_.I64 (u64 (ArgsRRm.rm a)));
  res ← gen_helper_call (addr_of Helper.helper_fadd_s) [Dc.env self; rs1; rs2; rm];
  _ ← fpr_store (ArgsRRm.rd a) res;
  mret true).

Definition trans_fsub_s (a : ArgsRRm.t) : M bool :=
  self ← get_self;
  require_ext MisaExt.F (
  _ ← gen_fp_check;
  _ ← gen_set_fs_dirty;
  rs1 ← fpr_load (ArgsRRm.rs1 a);
  rs2 ← fpr_load (ArgsRRm.rs2 a);
  rm ← ir (λ k, new_const k Type_.I64 (u64 (ArgsRRm.rm a)));
  res ← gen_helper_call (addr_of Helper.helper_fsub_s) [Dc.env self; rs1; rs2; rm];
  _ ← fpr_store (ArgsRRm.rd a) res;
  mret true).

Definition trans_fmul_s (a : ArgsRRm.t) : M bool :=
  self ← get_self;
  require_ext MisaExt.F (
  _ ← gen_fp_check;
  _ ← gen_set_fs_dirty;
  rs1 ← fpr_load (ArgsRRm.rs1 a);
  rs2 ← fpr_load (ArgsRRm.rs2 a);
  rm ← ir (λ k, new_const k Type_.I64 (u64 (ArgsRRm.rm a)));
  res ← gen_helper_call (addr_of Helper.helper_fmul_s) [Dc.env self; rs1; rs2; rm];
  _ ← fpr_store (ArgsRRm.rd a) res;
  mret true).

Definition trans_fdiv_s (a : ArgsRRm.t) : M bool :=
  self ← get_self;
  require_ext MisaExt.F (
  _ ← gen_fp_check;
  _ ← gen_set_fs_dirty;
  rs1 ← fpr_load (ArgsRRm.rs1 a);
  rs2 ← fpr_load (ArgsRRm.rs2 a);
  rm ← ir (λ k, new_const k Type_.I64 (u64 (ArgsRRm.rm a)));
  res ← gen_helper_call (addr_of Helper.helper_fdiv_s) [Dc.env self; rs1; rs2; rm];
  _ ← fpr_store (ArgsRRm.rd a) res;
  mret true).

Definition trans_fsqrt_s (a : ArgsR2Rm.t) : M bool :=
  self ← get_self;
  require_ext MisaExt.F (
  _ ← gen_fp_check;
  _ ← gen_set_fs_dirty;
  rs1 ← fpr_load (ArgsR2Rm.rs1 a);
  rm ← ir (λ k, new_const k Type_.I64 (u64 (ArgsR2Rm.rm a)));
  res ← gen_helper_call (addr_of Helper.helper_fsqrt_s) [Dc.env self; rs1; rm];
  _ ← fpr_store (ArgsR2Rm.rd a) res;
  mret true).

Definition trans_fsgnj_s (a : ArgsR.t) : M bool :=
  self ← get_self;
  require_ext MisaExt.F (
  _ ← gen_fp_check;
  _ ← gen_set_fs_dirty;
  rs1 ← fpr_load (ArgsR.rs1 a);
  rs2 ← fpr_load (ArgsR.rs2 a);
  res ← gen_helper_call (addr_of Helper.helper_fsgnj_s) [Dc.env self; rs1; rs2];
  _ ← fpr_store (ArgsR.rd a) res;
  mret true).

Definition trans_fsgnjn_s (a : ArgsR.t) : M bool :=
  self ← get_self;
  require_ext MisaExt.F (
  _ ← gen_fp_check;
  _ ← gen_set_fs_dirty;
  rs1 ← fpr_load (ArgsR.rs1 a);
  rs2 ← fpr_load (ArgsR.rs2 a);
  res ← gen_helper_call (addr_of Helper.helper_fsgnjn_s) [Dc.env self; rs1; rs2];
  _ ← fpr_store (ArgsR.rd a) res;
  mret true).

Definition trans_fsgnjx_s (a : ArgsR.t) : M bool :=
  self ← get_self;
  require_ext MisaExt.F (
  _ ← gen_fp_check;
  _ ← gen_set_fs_dirty;
  rs1 ← fpr_load (ArgsR.rs1 a);
  rs2 ← fpr_load (ArgsR.rs2 a);
  res ← gen_helper_call (addr_of Helper.helper_fsgnjx_s) [Dc.env self; rs1; rs2];
  _ ← fpr_store (ArgsR.rd a) res;
  mret true).

Definition trans_fmin_s (a : ArgsR.t) : M bool :=
  self ← get_self;
  require_ext MisaExt.F (
  _ ← gen_fp_check;
  _ ← gen_set_fs_dirty;
  rs1 ← fpr_load (ArgsR.rs1 a);
  rs2 ← fpr_load (ArgsR.rs2 a);
  res ← gen_helper_call (addr_of Helper.helper_fmin_s) [Dc.env self; rs1; rs2];
  _ ← fpr_store (ArgsR.rd a) res;
  mret true).

Definition trans_fmax_s (a : ArgsR.t) : M bool :=
  self ← get_self;
  require_ext MisaExt.F (
  _ ← gen_fp_check;
  _ ← gen_set_fs_dirty;
  rs1 ← fpr_load (ArgsR.rs1 a);
  rs2 ← fpr_load (ArgsR.rs2 a);
  res ← gen_helper_call (addr_of Helper.helper_fmax_s) [Dc.env self; rs1; rs2];
  _ ← fpr_store (ArgsR.rd a) res;
  mret true).

Definition trans_feq_s (a : ArgsR.t) : M bool :=
  self ← get_self;
  require_ext MisaExt.F (
  _ ← gen_fp_check;
  rs1 ← fpr_load (ArgsR.rs1 a);
  rs2 ← fpr_load (ArgsR.rs2 a);
  res ← gen_helper_call (addr_of Helper.helper_feq_s) [Dc.env self; rs1; rs2];
  _ ← gen_set_gpr (ArgsR.rd a) res;
  mret true).

Definition trans_flt_s (a : ArgsR.t) : M bool :=
  self ← get_self;
  require_ext MisaExt.F (
  _ ← gen_fp_check;
  rs1 ← fpr_load (ArgsR.rs1 a);
  rs2 ← fpr_load (ArgsR.rs2 a);
  res ← gen_helper_call (addr_of Helper.helper_flt_s) [Dc.env self; rs1; rs2];
  _ ← gen_set_gpr (ArgsR.rd a) res;
  mret true).

Definition trans_fle_s (a : ArgsR.t) : M bool :=
  self ← get_self;
  require_ext MisaExt.F (
  _ ← gen_fp_check;
  rs1 ← fpr_load (ArgsR.rs1 a);
  rs2 ← fpr_load (ArgsR.rs2 a);
  res ← gen_helper_call (addr_of Helper.helper_fle_s) [Dc.env self; rs1; rs2];
  _ ← gen_set_gpr (ArgsR.rd a) res;
  mret true).

Definition trans_fclass_s (a : ArgsR2.t) : M bool :=
  self ← get_self;
  require_ext MisaExt.F (
  _ ← gen_fp_check;
  rs1 ← fpr_load (ArgsR2.rs1 a);
  res ← gen_helper_call (addr_of Helper.helper_fclass_s) [Dc.env self; rs1];
  _ ← gen_set_gpr (ArgsR2.rd a) res;
  mret true).

Definition trans_fcvt_w_s (a : ArgsR2Rm.t) : M bool :=
  self ← get_self;
  require_ext MisaExt.F (
  _ ← gen_fp_check;
  rs1 ← fpr_load (ArgsR2Rm.rs1 a);
  rm ← ir (λ k, new_const k Type_.I64 (u64 (ArgsR2Rm.rm a)));
  res ← gen_helper_call (addr_of Helper.helper_fcvt_w_s) [Dc.env self; rs1; rm];
  _ ← gen_set_gpr (ArgsR2Rm.rd a) res;
  mret true).

Definition trans_fcvt_wu_s (a : ArgsR2Rm.t) : M bool :=
  self ← get_self;
  require_ext MisaExt.F (
  _ ← gen_fp_check;
  rs1 ← fpr_load (ArgsR2Rm.rs1 a);
  rm ← ir (λ k, new_const k Type_.I64 (u64 (ArgsR2Rm.rm a)));
  res ← gen_helper_call (addr_of Helper.helper_fcvt_wu_s) [Dc.env self; rs1; rm];
  _ ← gen_set_gpr (ArgsR2Rm.rd a) res;
  mret true).

Definition trans_fcvt_s_w (a : ArgsR2Rm.t) : M bool :=
  self ← get_self;
  require_ext MisaExt.F (
  _ ← gen_fp_check;
  _ ← gen_set_fs_dirty;
  rs1 ← gpr_or_zero (ArgsR2Rm.rs1 a);
  rm ← ir (λ k, new_const k Type_.I64 (u64 (ArgsR2Rm.rm a)));
  res ← gen_helper_call (addr_of Helper.helper_fcvt_s_w) [Dc.env self; rs1; rm];
  _ ← fpr_store (ArgsR2Rm.rd a) res;
  mret true).

Definition trans_fcvt_s_wu (a : ArgsR2Rm.t) : M bool :=
  self ← get_self;
  require_ext MisaExt.F (
  _ ← gen_fp_check;
  _ ← gen_set_fs_dirty;
  rs1 ← gpr_or_zero (ArgsR2Rm.rs1 a);
  rm ← ir (λ k, new_const k Type_.I64 (u64 (ArgsR2Rm.rm a)));
  res ← gen_helper_call (addr_of Helper.helper_fcvt_s_wu) [Dc.env self; rs1; rm];
  _ ← fpr_store (ArgsR2Rm.rd a) res;
  mret true).

Definition trans_fmv_x_w (a : ArgsR2.t) : M bool :=
  require_ext MisaExt.F (
  _ ← gen_fp_check;
  val ← fpr_load (ArgsR2.rs1 a);
  lo32 ← ir (λ k, new_temp k Type_.I32);
  _ ← ir (λ k, gen_extrl_i64_i32 k lo32 val);
  _ ← gen_set_gpr_sx32 (ArgsR2.rd a) lo32;
  mret true).

Definition trans_fmv_w_x (a : ArgsR2.t) : M bool :=
  require_ext MisaExt.F (
  _ ← gen_fp_check;
  _ ← gen_set_fs_dirty;
  src ← gpr_or_zero (ArgsR2.rs1 a);
  lo32 ← ir (λ k, new_temp k Type_.I32);
  _ ← ir (λ k, gen_extrl_i64_i32 k lo32 src);
  lo64 ← ir (λ k, new_temp k Type_.I64);
  _ ← ir (λ k, gen_ext_u32_i64 k lo64 lo32);
  mask ← ir (λ k, new_const k Type_.I64 0xffffffff00000000);
  boxed ← ir (λ k, new_temp k Type_.I64);
  _ ← ir (λ k, gen_or k Type_.I64 boxed lo64 mask);
  _ ← fpr_store (ArgsR2.rd a) boxed;
  mret true).

Definition trans_fcvt_l_s (a : ArgsR2Rm.t) : M bool :=
  self ← get_self;
  require_ext MisaExt.F (
  _ ← gen_fp_check;
  rs1 ← fpr_load (ArgsR2Rm.rs1 a);
  rm ← ir (λ k, new_const k Type_.I64 (u64 (ArgsR2Rm.rm a)));
  res ← gen_helper_call (addr_of Helper.helper_fcvt_l_s) [Dc.env self; rs1; rm];
  _ ← gen_set_gpr (ArgsR2Rm.rd a) res;
  mret true).

Definition trans_fcvt_lu_s (a : ArgsR2Rm.t) : M bool :=
  self ← get_self;
  require_ext MisaExt.F (
  _ ← gen_fp_check;
  rs1 ← fpr_load (ArgsR2Rm.rs1 a);
  rm ← ir (λ k, new_const k Type_.I64 (u64 (ArgsR2Rm.rm a)));
  res ← gen_helper_call (addr_of Helper.helper_fcvt_lu_s) [Dc.env self; rs1; rm];
  _ ← gen_set_gpr (ArgsR2Rm.rd a) res;
  mret true).

Definition trans_fcvt_s_l (a : ArgsR2Rm.t) : M bool :=
  self ← get_self;
  require_ext MisaExt.F (
  _ ← gen_fp_check;
  _ ← gen_set_fs_dirty;
  rs1 ← gpr_or_zero (ArgsR2Rm.rs1 a);
  rm ← ir (λ k, new_const k Type_.I64 (u64 (ArgsR2Rm.rm a)));
  res ← gen_helper_call (addr_of Helper.helper_fcvt_s_l) [Dc.env self; rs1; rm];
  _ ← fpr_store (ArgsR2Rm.rd a) res;
  mret true).

Definition trans_fcvt_s_lu (a : ArgsR2Rm.t) : M bool :=
  self ← get_self;
  require_ext MisaExt.F (
  _ ← gen_fp_check;
  _ ← gen_set_fs_dirty;
  rs1 ← gpr_or_zero (ArgsR2Rm.rs1 a);
  rm ← ir (λ k, new_const k Type_.I64 (u64 (ArgsR2Rm.rm a)));
  res ← gen_helper_call (addr_of Helper.helper_fcvt_s_lu) [Dc.env self; rs1; rm];
  _ ← fpr_store (ArgsR2Rm.rd a) res;
  mret true).

Definition trans_fmadd_d (a : ArgsR4Rm.t) : M bool :=
  self ← get_self;
  require_ext MisaExt.D (
  _ ← gen_fp_check;
  _ ← gen_set_fs_dirty;
  rs1 ← fpr_load (ArgsR4Rm.rs1 a);
  rs2 ← fpr_load (ArgsR4Rm.rs2 a);
  rs3 ← fpr_load (ArgsR4Rm.rs3 a);
  rm ← ir (λ k, new_const k Type_.I64 (u64 (ArgsR4Rm.rm a)));
  res ← gen_helper_call (addr_of Helper.helper_fmadd_d) [Dc.env self; rs1; rs2; rs3; rm];
  _ ← fpr_store (ArgsR4Rm.rd a) res;
  mret true).

Definition trans_fmsub_d (a : ArgsR4Rm.t) : M bool :=
  self ← get_self;
  require_ext MisaExt.D (
  _ ← gen_fp_check;
  _ ← gen_set_fs_dirty;
  rs1 ← fpr_load (ArgsR4Rm.rs1 a);
  rs2 ← fpr_load (ArgsR4Rm.rs2 a);
  rs3 ← fpr_load (ArgsR4Rm.rs3 a);
  rm ← ir (λ k, new_const k Type_.I64 (u64 (ArgsR4Rm.rm a)));
  res ← gen_helper_call (addr_of Helper.helper_fmsub_d) [Dc.env self; rs1; rs2; rs3; rm];
  _ ← fpr_store (ArgsR4Rm.rd a) res;
  mret true).

Definition trans_fnmsub_d (a : ArgsR4Rm.t) : M bool :=
  self ← get_self;
  require_ext MisaExt.D (
  _ ← gen_fp_check;
  _ ← gen_set_fs_dirty;
  rs1 ← fpr_load (ArgsR4Rm.rs1 a);
  rs2 ← fpr_load (ArgsR4Rm.rs2 a);
  rs3 ← fpr_load (ArgsR4Rm.rs3 a);
  rm ← ir (λ k, new_const k Type_.I64 (u64 (ArgsR4Rm.rm a)));
  res ← gen_helper_call (addr_of Helper.helper_fnmsub_d) [Dc.env self; rs1; rs2; rs3; rm];
  _ ← fpr_store (ArgsR4Rm.rd a) res;
  mret true).

Definition trans_fnmadd_d (a : ArgsR4Rm.t) : M bool :=
  self ← get_self;
  require_ext MisaExt.D (
  _ ← gen_fp_check;
  _ ← gen_set_fs_dirty;
  rs1 ← fpr_load (ArgsR4Rm.rs1 a);
  rs2 ← fpr_load (ArgsR4Rm.rs2 a);
  rs3 ← fpr_load (ArgsR4Rm.rs3 a);
  rm ← ir (λ k, new_const k Type_.I64 (u64 (ArgsR4Rm.rm a)));
  res ← gen_helper_call (addr_of Helper.helper_fnmadd_d) [Dc.env self; rs1; rs2; rs3; rm];
  _ ← fpr_store (ArgsR4Rm.rd a) res;
  mret true).

Definition trans_fadd_d (a : ArgsRRm.t) : M bool :=
  self ← get_self;
  require_ext MisaExt.D (
  _ ← gen_fp_check;
  _ ← gen_set_fs_dirty;
  rs1 ← fpr_load (ArgsRRm.rs1 a);
  rs2 ← fpr_load (ArgsRRm.rs2 a);
  rm ← ir (λ k, new_const k Type_.I64 (u64 (ArgsRRm.rm a)));
  res ← gen_helper_call (addr_of Helper.helper_fadd_d) [Dc.env self; rs1; rs2; rm];
  _ ← fpr_store (ArgsRRm.rd a) res;
  mret true).

Definition trans_fsub_d (a : ArgsRRm.t) : M bool :=
  self ← get_self;
  require_ext MisaExt.D (
  _ ← gen_fp_check;
  _ ← gen_set_fs_dirty;
  rs1 ← fpr_load (ArgsRRm.rs1 a);
  rs2 ← fpr_load (ArgsRRm.rs2 a);
  rm ← ir (λ k, new_const k Type_.I64 (u64 (ArgsRRm.rm a)));
  res ← gen_helper_call (addr_of Helper.helper_fsub_d) [Dc.env self; rs1; rs2; rm];
  _ ← fpr_store (ArgsRRm.rd a) res;
  mret true).

Definition trans_fmul_d (a : ArgsRRm.t) : M bool :=
  self ← get_self;
  require_ext MisaExt.D (
  _ ← gen_fp_check;
  _ ← gen_set_fs_dirty;
  rs1 ← fpr_load (ArgsRRm.rs1 a);
  rs2 ← fpr_load (ArgsRRm.rs2 a);
  rm ← ir (λ k, new_const k Type_.I64 (u64 (ArgsRRm.rm a)));
  res ← gen_helper_call (addr_of Helper.helper_fmul_d) [Dc.env self; rs1; rs2; rm];
  _ ← fpr_store (ArgsRRm.rd a) res;
  mret true).

Definition trans_fdiv_d (a : ArgsRRm.t) : M bool :=
  self ← get_self;
  require_ext MisaExt.D (
  _ ← gen_fp_check;
  _ ← gen_set_fs_dirty;
  rs1 ← fpr_load (ArgsRRm.rs1 a);
  rs2 ← fpr_load (ArgsRRm.rs2 a);
  rm ← ir (λ k, new_const k Type_.I64 (u64 (ArgsRRm.rm a)));
  res ← gen_helper_call (addr_of Helper.helper_fdiv_d) [Dc.env self; rs1; rs2; rm];
  _ ← fpr_store (ArgsRRm.rd a) res;
  mret true).

Definition trans_fsqrt_d (a : ArgsR2Rm.t) : M bool :=
  self ← get_self;
  require_ext MisaExt.D (
  _ ← gen_fp_check;
  _ ← gen_set_fs_dirty;
  rs1 ← fpr_load (ArgsR2Rm.rs1 a);
  rm ← ir (λ k, new_const k Type_.I64 (u64 (ArgsR2Rm.rm a)));
  res ← gen_helper_call (addr_of Helper.helper_fsqrt_d) [Dc.env self; rs1; rm];
  _ ← fpr_store (ArgsR2Rm.rd a) res;
  mret true).

Definition trans_fsgnj_d (a : ArgsR.t) : M bool :=
  self ← get_self;
  require_ext MisaExt.D (
  _ ← gen_fp_check;
  _ ← gen_set_fs_dirty;
  rs1 ← fpr_load (ArgsR.rs1 a);
  rs2 ← fpr_load (ArgsR.rs2 a);
  res ← gen_helper_call (addr_of Helper.helper_fsgnj_d) [Dc.env self; rs1; rs2];
  _ ← fpr_store (ArgsR.rd a) res;
  mret true).

Definition trans_fsgnjn_d (a : ArgsR.t) : M bool :=
  self ← get_self;
  require_ext MisaExt.D (
  _ ← gen_fp_check;
  _ ← gen_set_fs_dirty;
  rs1 ← fpr_load (ArgsR.rs1 a);
  rs2 ← fpr_load (ArgsR.rs2 a);
  res ← gen_helper_call (addr_of Helper.helper_fsgnjn_d) [Dc.env self; rs1; rs2];
  _ ← fpr_store (ArgsR.rd a) res;
  mret true).

Definition trans_fsgnjx_d (a : ArgsR.t) : M bool :=
  self ← get_self;
  require_ext MisaExt.D (
  _ ← gen_fp_check;
  _ ← gen_set_fs_dirty;
  rs1 ← fpr_load (ArgsR.rs1 a);
  rs2 ← fpr_load (ArgsR.rs2 a);
  res ← gen_helper_call (addr_of Helper.helper_fsgnjx_d) [Dc.env self; rs1; rs2];
  _ ← fpr_store (ArgsR.rd a) res;
  mret true).

Definition trans_fmin_d (a : ArgsR.t) : M bool :=
  self ← get_self;
  require_ext MisaExt.D (
  _ ← gen_fp_check;
  _ ← gen_set_fs_dirty;
  rs1 ← fpr_load (ArgsR.rs1 a);
  rs2 ← fpr_load (ArgsR.rs2 a);
  res ← gen_helper_call (addr_of Helper.helper_fmin_d) [Dc.env self; rs1; rs2];
  _ ← fpr_store (ArgsR.rd a) res;
  mret true).

Definition trans_fmax_d (a : ArgsR.t) : M bool :=
  self ← get_self;
  require_ext MisaExt.D (
  _ ← gen_fp_check;
  _ ← gen_set_fs_dirty;
  rs1 ← fpr_load (ArgsR.rs1 a);
  rs2 ← fpr_load (ArgsR.rs2 a);
  res ← gen_helper_call (addr_of Helper.helper_fmax_d) [Dc.env self; rs1; rs2];
  _ ← fpr_store (ArgsR.rd a) res;
  mret true).

Definition trans_feq_d (a : ArgsR.t) : M bool :=
  self ← get_self;
  require_ext MisaExt.D (
  _ ← gen_fp_check;
  rs1 ← fpr_load (ArgsR.rs1 a);
  rs2 ← fpr_load (ArgsR.rs2 a);
  res ← gen_helper_call (addr_of Helper.helper_feq_d) [Dc.env self; rs1; rs2];
  _ ← gen_set_gpr (ArgsR.rd a) res;
  mret true).

Definition trans_flt_d (a : ArgsR.t) : M bool :=
  self ← get_self;
  require_ext MisaExt.D (
  _ ← gen_fp_check;
  rs1 ← fpr_load (ArgsR.rs1 a);
  rs2 ← fpr_load (ArgsR.rs2 a);
  res ← gen_helper_call (addr_of Helper.helper_flt_d) [Dc.env self; rs1; rs2];
  _ ← gen_set_gpr (ArgsR.rd a) res;
  mret true).

Definition trans_fle_d (a : ArgsR.t) : M bool :=
  self ← get_self;
  require_ext MisaExt.D (
  _ ← gen_fp_check;
  rs1 ← fpr_load (ArgsR.rs1 a);
  rs2 ← fpr_load (ArgsR.rs2 a);
  res ← gen_helper_call (addr_of Helper.helper_fle_d) [Dc.env self; rs1; rs2];
  _ ← gen_set_gpr (ArgsR.rd a) res;
  mret true).

Definition trans_fclass_d (a : ArgsR2.t) : M bool :=
  self ← get_self;
  require_ext MisaExt.D (
  _ ← gen_fp_check;
  rs1 ← fpr_load (ArgsR2.rs1 a);
  res ← gen_helper_call (addr_of Helper.helper_fclass_d) [Dc.env self; rs1];
  _ ← gen_set_gpr (ArgsR2.rd a) res;
  mret true).

Definition trans_fcvt_s_d (a : ArgsR2Rm.t) : M bool :=
  self ← get_self;
  require_ext MisaExt.D (
  _ ← gen_fp_check;
  _ ← gen_set_fs_dirty;
  rs1 ← fpr_load (ArgsR2Rm.rs1 a);
  rm ← ir (λ k, new_const k Type_.I64 (u64 (ArgsR2Rm.rm a)));
  res ← gen_helper_call (addr_of Helper.helper_fcvt_s_d) [Dc.env self; rs1; rm];
  _ ← fpr_store (ArgsR2Rm.rd a) res;
  mret true).

Definition trans_fcvt_d_s (a : ArgsR2Rm.t) : M bool :=
  self ← get_self;
  require_ext MisaExt.D (
  _ ← gen_fp_check;
  _ ← gen_set_fs_dirty;
  rs1 ← fpr_load (ArgsR2Rm.rs1 a);
  rm ← ir (λ k, new_const k Type_.I64 (u64 (ArgsR2Rm.rm a)));
  res ← gen_helper_call (addr_of Helper.helper_fcvt_d_s) [Dc.env self; rs1; rm];
  _ ← fpr_store (ArgsR2Rm.rd a) res;
  mret true).

Definition trans_fcvt_w_d (a : ArgsR2Rm.t) : M bool :=
  self ← get_self;
  require_ext MisaExt.D (
  _ ← gen_fp_check;
  rs1 ← fpr_load (ArgsR2Rm.rs1 a);
  rm ← ir (λ k, new_const k Type_.I64 (u64 (ArgsR2Rm.rm a)));
  res ← gen_helper_call (addr_of Helper.helper_fcvt_w_d) [Dc.env self; rs1; rm];
  _ ← gen_set_gpr (ArgsR2Rm.rd a) res;
  mret true).

Definition trans_fcvt_wu_d (a : ArgsR2Rm.t) : M bool :=
  self ← get_self;
  require_ext MisaExt.D (
  _ ← gen_fp_check;
  rs1 ← fpr_load (ArgsR2Rm.rs1 a);
  rm ← ir (λ k, new_const k Type_.I64 (u64 (ArgsR2Rm.rm a)));
  res ← gen_helper_call (addr_of Helper.helper_fcvt_wu_d) [Dc.env self; rs1; rm];
  _ ← gen_set_gpr (ArgsR2Rm.rd a) res;
  mret true).

Definition trans_fcvt_d_w (a : ArgsR2Rm.t) : M bool :=
  self ← get_self;
  require_ext MisaExt.D (
  _ ← gen_fp_check;
  _ ← gen_set_fs_dirty;
  rs1 ← gpr_or_zero (ArgsR2Rm.rs1 a);
  rm ← ir (λ k, new_const k Type_.I64 (u64 (ArgsR2Rm.rm a)));
  res ← gen_helper_call (addr_of Helper.helper_fcvt_d_w) [Dc.env self; rs1; rm];
  _ ← fpr_store (ArgsR2Rm.rd a) res;
  mret true).

Definition trans_fcvt_d_wu (a : ArgsR2Rm.t) : M bool :=
  self ← get_self;
  require_ext MisaExt.D (
  _ ← gen_fp_check;
  _ ← gen_set_fs_dirty;
  rs1 ← gpr_or_zero (ArgsR2Rm.rs1 a);
  rm ← ir (λ k, new_const k Type_.I64 (u64 (ArgsR2Rm.rm a)));
  res ← gen_helper_call (addr_of Helper.helper_fcvt_d_wu) [Dc.env self; rs1; rm];
  _ ← fpr_store (ArgsR2Rm.rd a) res;
  mret true).

Definition trans_fcvt_l_d (a : ArgsR2Rm.t) : M bool :=
  self ← get_self;
  require_ext MisaExt.D (
  _ ← gen_fp_check;
  rs1 ← fpr_load (ArgsR2Rm.rs1 a);
  rm ← ir (λ k, new_const k Type_.I64 (u64 (ArgsR2Rm.rm a)));
  res ← gen_helper_call (addr_of Helper.helper_fcvt_l_d) [Dc.env self; rs1; rm];
  _ ← gen_set_gpr (ArgsR2Rm.rd a) res;
  mret true).

Definition trans_fcvt_lu_d (a : ArgsR2Rm.t) : M bool :=
  self ← get_self;
  require_ext MisaExt.D (
  _ ← gen_fp_check;
  rs1 ← fpr_load (ArgsR2Rm.rs1 a);
  rm ← ir (λ k, new_const k Type_.I64 (u64 (ArgsR2Rm.rm a)));
  res ← gen_helper_call (addr_of Helper.helper_fcvt_lu_d) [Dc.env self; rs1; rm];
  _ ← gen_set_gpr (ArgsR2Rm.rd a) res;
  mret true).

Definition trans_fcvt_d_l (a : ArgsR2Rm.t) : M bool :=
  self ← get_self;
  require_ext MisaExt.D (
  _ ← gen_fp_check;
  _ ← gen_set_fs_dirty;
  rs1 ← gpr_or_zero (ArgsR2Rm.rs1 a);
  rm ← ir (λ k, new_const k Type_.I64 (u64 (ArgsR2Rm.rm a)));
  res ← gen_helper_call (addr_of Helper.helper_fcvt_d_l) [Dc.env self; rs1; rm];
  _ ← fpr_store (ArgsR2Rm.rd a) res;
  mret true).

Definition trans_fcvt_d_lu (a : ArgsR2Rm.t) : M bool :=
  self ← get_self;
  require_ext MisaExt.D (
  _ ← gen_fp_check;
  _ ← gen_set_fs_dirty;
  rs1 ← gpr_or_zero (ArgsR2Rm.rs1 a);
  rm ← ir (λ k, new_const k Type_.I64 (u64 (ArgsR2Rm.rm a)));
  res ← gen_helper_call (addr_of Helper.helper_fcvt_d_lu) [Dc.env self; rs1; rm];
  _ ← fpr_store (ArgsR2Rm.rd a) res;
  mret true).

Definition trans_fmv_x_d (a : ArgsR2.t) : M bool :=
  require_ext MisaExt.D (
  _ ← gen_fp_check;
  val ← fpr_load (ArgsR2.rs1 a);
  _ ← gen_set_gpr (ArgsR2.rd a) val;
  mret true).

Definition trans_fmv_d_x (a : ArgsR2.t) : M bool :=
  require_ext MisaExt.D (
  _ ← gen_fp_check;
  _ ← gen_set_fs_dirty;
  src ← gpr_or_zero (ArgsR2.rs1 a);
  _ ← fpr_store (ArgsR2.rd a) src;
  mret true).
(** The call itself. *)
Definition trans (i : Insn.t) : M bool :=
  match i with
  | Insn.lui a => trans_lui a
  | Insn.auipc a => trans_auipc a
  | Insn.jal a => trans_jal a
  | Insn.jalr a => trans_jalr a
  | Insn.beq a => trans_beq a
  | Insn.bne a => trans_bne a
  | Insn.blt a => trans_blt a
  | Insn.bge a => trans_bge a
  | Insn.bltu a => trans_bltu a
  | Insn.bgeu a => trans_bgeu a
  | Insn.lb a => trans_lb a
  | Insn.lh a => trans_lh a
  | Insn.lw a => trans_lw a
  | Insn.lbu a => trans_lbu a
  | Insn.lhu a => trans_lhu a
  | Insn.sb a => trans_sb a
  | Insn.sh a => trans_sh a
  | Insn.sw a => trans_sw a
  | Insn.addi a => trans_addi a
  | Insn.slti a => trans_slti a
  | Insn.sltiu a => trans_sltiu a
  | Insn.xori a => trans_xori a
  | Insn.ori a => trans_ori a
  | Insn.andi a => trans_andi a
  | Insn.slli a => trans_slli a
  | Insn.srli a => trans_srli a
  | Insn.srai a => trans_srai a
  | Insn.add a => trans_add a
  | Insn.sub a => trans_sub a
  | Insn.sll a => trans_sll a
  | Insn.slt a => trans_slt a
  | Insn.sltu a => trans_sltu a
  | Insn.xor a => trans_xor a
  | Insn.srl a => trans_srl a
  | Insn.sra a => trans_sra a
  | Insn.or a => trans_or a
  | Insn.and a => trans_and a
  | Insn.fence a => trans_fence a
  | Insn.ecall a => trans_ecall a
  | Insn.ebreak a => trans_ebreak a
  | Insn.lwu a => trans_lwu a
  | Insn.ld a => trans_ld a
  | Insn.sd a => trans_sd a
  | Insn.addiw a => trans_addiw a
  | Insn.slliw a => trans_slliw a
  | Insn.srliw a => trans_srliw a
  | Insn.sraiw a => trans_sraiw a
  | Insn.addw a => trans_addw a
  | Insn.subw a => trans_subw a
  | Insn.sllw a => trans_sllw a
  | Insn.srlw a => trans_srlw a
  | Insn.sraw a => trans_sraw a
  | Insn.mul a => trans_mul a
  | Insn.mulh a => trans_mulh a
  | Insn.mulhsu a => trans_mulhsu a
  | Insn.mulhu a => trans_mulhu a
  | Insn.div a => trans_div a
  | Insn.divu a => trans_divu a
  | Insn.rem a => trans_rem a
  | Insn.remu a => trans_remu a
  | Insn.mulw a => trans_mulw a
  | Insn.divw a => trans_divw a
  | Insn.divuw a => trans_divuw a
  | Insn.remw a => trans_remw a
  | Insn.remuw a => trans_remuw a
  | Insn.lr_w a => trans_lr_w a
  | Insn.sc_w a => trans_sc_w a
  | Insn.amoswap_w a => trans_amoswap_w a
  | Insn.amoadd_w a => trans_amoadd_w a
  | Insn.amoxor_w a => trans_amoxor_w a
  | Insn.amoand_w a => trans_amoand_w a
  | Insn.amoor_w a => trans_amoor_w a
  | Insn.amomin_w a => trans_amomin_w a
  | Insn.amomax_w a => trans_amomax_w a
  | Insn.amominu_w a => trans_amominu_w a
  | Insn.amomaxu_w a => trans_amomaxu_w a
  | Insn.lr_d a => trans_lr_d a
  | Insn.sc_d a => trans_sc_d a
  | Insn.amoswap_d a => trans_amoswap_d a
  | Insn.amoadd_d a => trans_amoadd_d a
  | Insn.amoxor_d a => trans_amoxor_d a
  | Insn.amoand_d a => trans_amoand_d a
  | Insn.amoor_d a => trans_amoor_d a
  | Insn.amomin_d a => trans_amomin_d a
  | Insn.amomax_d a => trans_amomax_d a
  | Insn.amominu_d a => trans_amominu_d a
  | Insn.amomaxu_d a => trans_amomaxu_d a
  | Insn.csrrw a => trans_csrrw a
  | Insn.csrrs a => trans_csrrs a
  | Insn.csrrc a => trans_csrrc a
  | Insn.csrrwi a => trans_csrrwi a
  | Insn.csrrsi a => trans_csrrsi a
  | Insn.csrrci a => trans_csrrci a
  | Insn.flw a => trans_flw a
  | Insn.fsw a => trans_fsw a
  | Insn.fld a => trans_fld a
  | Insn.fsd a => trans_fsd a
  | Insn.fmadd_s a => trans_fmadd_s a
  | Insn.fmsub_s a => trans_fmsub_s a
  | Insn.fnmsub_s a => trans_fnmsub_s a
  | Insn.fnmadd_s a => trans_fnmadd_s a
  | Insn.fadd_s a => trans_fadd_s a
  | Insn.fsub_s a => trans_fsub_s a
  | Insn.fmul_s a => trans_fmul_s a
  | Insn.fdiv_s a => trans_fdiv_s a
  | Insn.fsqrt_s a => trans_fsqrt_s a
  | Insn.fsgnj_s a => trans_fsgnj_s a
  | Insn.fsgnjn_s a => trans_fsgnjn_s a
  | Insn.fsgnjx_s a => trans_fsgnjx_s a
  | Insn.fmin_s a => trans_fmin_s a
  | Insn.fmax_s a => trans_fmax_s a
  | Insn.feq_s a => trans_feq_s a
  | Insn.flt_s a => trans_flt_s a
  | Insn.fle_s a => trans_fle_s a
  | Insn.fclass_s a => trans_fclass_s a
  | Insn.fcvt_w_s a => trans_fcvt_w_s a
  | Insn.fcvt_wu_s a => trans_fcvt_wu_s a
  | Insn.fcvt_s_w a => trans_fcvt_s_w a
  | Insn.fcvt_s_wu a => trans_fcvt_s_wu a
  | Insn.fmv_x_w a => trans_fmv_x_w a
  | Insn.fmv_w_x a => trans_fmv_w_x a
  | Insn.fcvt_l_s a => trans_fcvt_l_s a
  | Insn.fcvt_lu_s a => trans_fcvt_lu_s a
  | Insn.fcvt_s_l a => trans_fcvt_s_l a
  | Insn.fcvt_s_lu a => trans_fcvt_s_lu a
  | Insn.fmadd_d a => trans_fmadd_d a
  | Insn.fmsub_d a => trans_fmsub_d a
  | Insn.fnmsub_d a => trans_fnmsub_d a
  | Insn.fnmadd_d a => trans_fnmadd_d a
  | Insn.fadd_d a => trans_fadd_d a
  | Insn.fsub_d a => trans_fsub_d a
  | Insn.fmul_d a => trans_fmul_d a
  | Insn.fdiv_d a => trans_fdiv_d a
  | Insn.fsqrt_d a => trans_fsqrt_d a
  | Insn.fsgnj_d a => trans_fsgnj_d a
  | Insn.fsgnjn_d a => trans_fsgnjn_d a
  | Insn.fsgnjx_d a => trans_fsgnjx_d a
  | Insn.fmin_d a => trans_fmin_d a
  | Insn.fmax_d a => trans_fmax_d a
  | Insn.feq_d a => trans_feq_d a
  | Insn.flt_d a => trans_flt_d a
  | Insn.fle_d a => trans_fle_d a
  | Insn.fclass_d a => trans_fclass_d a
  | Insn.fcvt_s_d a => trans_fcvt_s_d a
  | Insn.fcvt_d_s a => trans_fcvt_d_s a
  | Insn.fcvt_w_d a => trans_fcvt_w_d a
  | Insn.fcvt_wu_d a => trans_fcvt_wu_d a
  | Insn.fcvt_d_w a => trans_fcvt_d_w a
  | Insn.fcvt_d_wu a => trans_fcvt_d_wu a
  | Insn.fcvt_l_d a => trans_fcvt_l_d a
  | Insn.fcvt_lu_d a => trans_fcvt_lu_d a
  | Insn.fcvt_d_l a => trans_fcvt_d_l a
  | Insn.fcvt_d_lu a => trans_fcvt_d_lu a
  | Insn.fmv_x_d a => trans_fmv_x_d a
  | Insn.fmv_d_x a => trans_fmv_d_x a
  end.
End decode.
End Decode.

(** ** The compressed instructions *)

(** A call of a method of [Decode16]. *)

Module Insn16.
Inductive t :=
| illegal (a : ArgsEmpty.t)
| c64_illegal (a : ArgsEmpty.t)
| addi (a : ArgsI.t)
| lw (a : ArgsI.t)
| ld (a : ArgsI.t)
| c_fld (a : ArgsI.t)
| c_flw (a : ArgsI.t)
| sw (a : ArgsS.t)
| sd (a : ArgsS.t)
| c_fsd (a : ArgsS.t)
| c_fsw (a : ArgsS.t)
| lui (a : ArgsU.t)
| srli (a : ArgsShift.t)
| srai (a : ArgsShift.t)
| andi (a : ArgsI.t)
| sub (a : ArgsR.t)
| xor (a : ArgsR.t)
| or (a : ArgsR.t)
| and (a : ArgsR.t)
| jal (a : ArgsJ.t)
| beq (a : ArgsB.t)
| bne (a : ArgsB.t)
| addiw (a : ArgsI.t)
| subw (a : ArgsR.t)
| addw (a : ArgsR.t)
| slli (a : ArgsShift.t)
| jalr (a : ArgsI.t)
| ebreak (a : ArgsEmpty.t)
| add (a : ArgsR.t).
End Insn16.

Module Decode16.
Section decode16.
Context `{HelperAddr}.

Definition trans_illegal (_ : ArgsEmpty.t) : M bool :=
  mret false.

Definition trans_c64_illegal (_ : ArgsEmpty.t) : M bool :=
  mret false.

Definition trans_addi (a : ArgsI.t) : M bool :=
  Decode.trans_addi a.

Definition trans_lw (a : ArgsI.t) : M bool :=
  Decode.trans_lw a.

Definition trans_ld (a : ArgsI.t) : M bool :=
  Decode.trans_ld a.

Definition trans_c_fld (a : ArgsI.t) : M bool :=
  Decode.trans_fld a.

Definition trans_c_flw (a : ArgsI.t) : M bool :=
  Decode.trans_flw a.

Definition trans_sw (a : ArgsS.t) : M bool :=
  Decode.trans_sw a.

Definition trans_sd (a : ArgsS.t) : M bool :=
  Decode.trans_sd a.

Definition trans_c_fsd (a : ArgsS.t) : M bool :=
  Decode.trans_fsd a.

Definition trans_c_fsw (a : ArgsS.t) : M bool :=
  Decode.trans_fsw a.

Definition trans_lui (a : ArgsU.t) : M bool :=
  Decode.trans_lui a.

Definition trans_srli (a : ArgsShift.t) : M bool :=
  Decode.trans_srli a.

Definition trans_srai (a : ArgsShift.t) : M bool :=
  Decode.trans_srai a.

Definition trans_andi (a : ArgsI.t) : M bool :=
  Decode.trans_andi a.

Definition trans_sub (a : ArgsR.t) : M bool :=
  Decode.trans_sub a.

Definition trans_xor (a : ArgsR.t) : M bool :=
  Decode.trans_xor a.

Definition trans_or (a : ArgsR.t) : M bool :=
  Decode.trans_or a.

Definition trans_and (a : ArgsR.t) : M bool :=
  Decode.trans_and a.

Definition trans_jal (a : ArgsJ.t) : M bool :=
  Decode.trans_jal a.

Definition trans_beq (a : ArgsB.t) : M bool :=
  Decode.trans_beq a.

Definition trans_bne (a : ArgsB.t) : M bool :=
  Decode.trans_bne a.

Definition trans_addiw (a : ArgsI.t) : M bool :=
  Decode.trans_addiw a.

Definition trans_subw (a : ArgsR.t) : M bool :=
  Decode.trans_subw a.

Definition trans_addw (a : ArgsR.t) : M bool :=
  Decode.trans_addw a.

Definition trans_slli (a : ArgsShift.t) : M bool :=
  Decode.trans_slli a.

Definition trans_jalr (a : ArgsI.t) : M bool :=
  Decode.trans_jalr a.

Definition trans_ebreak (a : ArgsEmpty.t) : M bool :=
  Decode.trans_ebreak a.

Definition trans_add (a : ArgsR.t) : M bool :=
  Decode.trans_add a.
Definition trans (i : Insn16.t) : M bool :=
  match i with
  | Insn16.illegal a => trans_illegal a
  | Insn16.c64_illegal a => trans_c64_illegal a
  | Insn16.addi a => trans_addi a
  | Insn16.lw a => trans_lw a
  | Insn16.ld a => trans_ld a
  | Insn16.c_fld a => trans_c_fld a
  | Insn16.c_flw a => trans_c_flw a
  | Insn16.sw a => trans_sw a
  | Insn16.sd a => trans_sd a
  | Insn16.c_fsd a => trans_c_fsd a
  | Insn16.c_fsw a => trans_c_fsw a
  | Insn16.lui a => trans_lui a
  | Insn16.srli a => trans_srli a
  | Insn16.srai a => trans_srai a
  | Insn16.andi a => trans_andi a
  | Insn16.sub a => trans_sub a
  | Insn16.xor a => trans_xor a
  | Insn16.or a => trans_or a
  | Insn16.and a => trans_and a
  | Insn16.jal a => trans_jal a
  | Insn16.beq a => trans_beq a
  | Insn16.bne a => trans_bne a
  | Insn16.addiw a => trans_addiw a
  | Insn16.subw a => trans_subw a
  | Insn16.addw a => trans_addw a
  | Insn16.slli a => trans_slli a
  | Insn16.jalr a => trans_jalr a
  | Insn16.ebreak a => trans_ebreak a
  | Insn16.add a => trans_add a
  end.
End decode16.
End Decode16.
