(* ===== verification/RiscvSem.v ===== *)
(** * What the translated code means, and a reference RISC-V semantics

    [IrSem] leaves memory accesses, calls, divisions, double multiplications and
    conditional moves to a parameter; [fe_ext] instantiates it for the ops the
    RISC-V frontend emits.  The world is guest memory, by guest address, and the
    words of the CPU struct that are not IR globals, by host address; the host
    functions of fpu.rs are a parameter.

    [rv_step] is the reference: one instruction of RV64IMAFD with Zicsr, written
    after the ISA manual with arithmetic on [Z].  Floating-point operations are
    the host functions, which the reference only calls. *)

From S2P Require Import Prelude Types Opcodes Ir IrSem Tb RiscvCpu RiscvGen RiscvTrans.

(** ** The world *)

Module World.
Record t := mk { mem : Z → Z; cpu : Z → Z }.

(** A byte is the low 8 bits of its cell. *)
Definition load_bytes (w : t) (a : Z) (n : nat) : list Z :=
  map (λ i, mem w (u64 (a + Z.of_nat i)) mod 256) (seq 0 n).

(** [n] bytes at [a], zero- or sign-extended to 64 bits. *)
Definition load (w : t) (a n : Z) (sg : bool) : Z :=
  let v := le_value (load_bytes w a (Z.to_nat n)) in
  u64 (if sg then signed (8 * n) v else v).

(** The low [n] bytes of [v] at [a]. *)
Definition store (w : t) (a n v : Z) : t :=
  let v := v mod 2 ^ (8 * n) in
  mk (λ y, let i := u64 (y - a) in
           if i <? n then v / 2 ^ (8 * i) mod 256 else mem w y) (cpu w).

Definition read_cpu (w : t) (a : Z) : Z := u64 (cpu w a).
Definition write_cpu (w : t) (a v : Z) : t :=
  mk (mem w) (λ y, if y =? a then v else cpu w y).
End World.

(** The exit value of a host trap: no op exits with a negative value. *)
Definition TRAP : Z := -1.

Section semantics.
(** A host function, by its address, on its six arguments. *)
Variable host : Z → list Z → World.t → Z * World.t.

Definition div_result (r : option (Z * Z)) (w : World.t) : list Z * World.t * option Z :=
  match r with Some (q, m) => ([q; m], w, None) | None => ([], w, Some TRAP) end.

(** The ops [IrSem.exec] leaves open.  [GotoTb] falls through, as in a block that is
    not chained; barriers order nothing in one thread. *)
Definition fe_ext (o : Opcode.t) (ty : Type_.t) (ins cs : list Z) (w : World.t)
    : list Z * World.t * option Z :=
  let n := Type_.size_bits ty in
  match o, ins, cs with
  | Opcode.SetCond, [a; b], [k] =>
      ([match cond_decode k with Some c => if Cond.holds c n a b then 1 else 0 | None => 0 end],
       w, None)
  | Opcode.MovCond, [a; b; v1; v2], [k] =>
      ([match cond_decode k with Some c => if Cond.holds c n a b then v1 else v2 | None => v2 end],
       w, None)
  | Opcode.MulS2, [a; b], _ =>
      let p := signed n a * signed n b in ([p mod 2 ^ n; p / 2 ^ n mod 2 ^ n], w, None)
  | Opcode.MulU2, [a; b], _ =>
      let p := a mod 2 ^ n * (b mod 2 ^ n) in ([p mod 2 ^ n; p / 2 ^ n], w, None)
  | Opcode.DivS2, [lo; hi; b], _ => div_result (wide_divs n lo hi b) w
  | Opcode.DivU2, [lo; hi; b], _ => div_result (wide_divu n lo hi b) w
  | Opcode.QemuLd, [a], [m] => ([World.load w a (MemOp.size_bytes m) (MemOp.is_signed m)], w, None)
  | Opcode.QemuSt, [v; a], [m] => ([], World.store w a (MemOp.size_bytes m) v, None)
  | Opcode.Ld, [b], [off] => ([World.read_cpu w (u64 (b + i32 off))], w, None)
  | Opcode.St, [v; b], [off] => ([], World.write_cpu w (u64 (b + i32 off)) v, None)
  | Opcode.Call, _, [lo; hi] => let '(v, w) := host (lo + hi * 2 ^ 32) ins w in ([v], w, None)
  | _, _, _ => ([], w, None)
  end.
End semantics.

(** ** Guest state *)

Module Guest.
Record t := mk { xreg : Z → Z; load_res : Z; load_val : Z; world : World.t }.
End Guest.

Definition x (g : Guest.t) (i : Z) : Z := if i =? 0 then 0 else Guest.xreg g i.

Definition set_x (i v : Z) (g : Guest.t) : Guest.t :=
  if i =? 0 then g
  else Guest.mk (λ j, if j =? i then v else Guest.xreg g j) (Guest.load_res g) (Guest.load_val g)
         (Guest.world g).

Definition set_world (w : World.t) (g : Guest.t) : Guest.t :=
  Guest.mk (Guest.xreg g) (Guest.load_res g) (Guest.load_val g) w.

Definition set_reservation (a v : Z) (g : Guest.t) : Guest.t :=
  Guest.mk (Guest.xreg g) a v (Guest.world g).

(** How an instruction ends: it is illegal, falls through to the next one, or leaves
    the block with a guest pc and an exit value. *)
Inductive result := Illegal | Fall (g : Guest.t) | Exit (pc code : Z) (g : Guest.t).

Section reference.
Context `{HelperAddr}.
Variable host : Z → list Z → World.t → Z * World.t.
Variable cfg : RiscvCfg.t.
(** Address of the CPU struct. *)
Variable envp : Z.

(** ** Integer instructions *)

Definition sext32 (v : Z) : Z := u64 (i32 v).

Definition rv_op (op : Z → Z → Z) (a : ArgsR.t) (g : Guest.t) : Guest.t :=
  set_x (ArgsR.rd a) (op (x g (ArgsR.rs1 a)) (x g (ArgsR.rs2 a))) g.

Definition rv_imm (op : Z → Z → Z) (a : ArgsI.t) (g : Guest.t) : Guest.t :=
  set_x (ArgsI.rd a) (op (x g (ArgsI.rs1 a)) (u64 (ArgsI.imm a))) g.

(** Shift amounts of [w] or more are reserved. *)
Definition rv_shift (w : Z) (op : Z → Z → Z) (a : ArgsShift.t) (g : Guest.t) : result :=
  if w <=? ArgsShift.shamt a then Illegal
  else Fall (set_x (ArgsShift.rd a) (op (x g (ArgsShift.rs1 a)) (ArgsShift.shamt a)) g).

Definition rv_div (w u v : Z) : Z :=
  if v mod 2 ^ w =? 0 then 2 ^ w - 1 else Z.quot (signed w u) (signed w v) mod 2 ^ w.

Definition rv_rem (w u v : Z) : Z :=
  if v mod 2 ^ w =? 0 then u mod 2 ^ w else Z.rem (signed w u) (signed w v) mod 2 ^ w.

Definition rv_divu (w u v : Z) : Z :=
  if v mod 2 ^ w =? 0 then 2 ^ w - 1 else u mod 2 ^ w / (v mod 2 ^ w).

Definition rv_remu (w u v : Z) : Z :=
  if v mod 2 ^ w =? 0 then u mod 2 ^ w else u mod 2 ^ w mod (v mod 2 ^ w).

(** Both ways leave the block. *)
Definition rv_branch (taken : Z → Z → bool) (pc len : Z) (a : ArgsB.t) (g : Guest.t) : result :=
  if taken (x g (ArgsB.rs1 a)) (x g (ArgsB.rs2 a))
  then Exit (u64 (pc + ArgsB.imm a)) TB_EXIT_IDX1 g
  else Exit (u64 (pc + len)) TB_EXIT_IDX0 g.

(** ** Memory *)

Definition rv_load (n : Z) (sg : bool) (a : ArgsI.t) (g : Guest.t) : Guest.t :=
  set_x (ArgsI.rd a)
    (World.load (Guest.world g) (u64 (x g (ArgsI.rs1 a) + ArgsI.imm a)) n sg) g.

Definition rv_store (n : Z) (a : ArgsS.t) (g : Guest.t) : Guest.t :=
  set_world (World.store (Guest.world g) (u64 (x g (ArgsS.rs1 a) + ArgsS.imm a)) n
               (x g (ArgsS.rs2 a))) g.

Definition rv_lr (n : Z) (sg : bool) (a : ArgsAtomic.t) (g : Guest.t) : Guest.t :=
  let addr := x g (ArgsAtomic.rs1 a) in
  let v := World.load (Guest.world g) addr n sg in
  set_x (ArgsAtomic.rd a) v (set_reservation addr v g).

(** SC stores and returns 0 when the reservation is held, else returns 1; either way
    the reservation is gone. *)
Definition rv_sc (n : Z) (a : ArgsAtomic.t) (g : Guest.t) : Guest.t :=
  let addr := x g (ArgsAtomic.rs1 a) in
  let clear := set_reservation (2 ^ 64 - 1) (Guest.load_val g) in
  if Guest.load_res g =? addr
  then set_x (ArgsAtomic.rd a) 0
         (clear (set_world (World.store (Guest.world g) addr n (x g (ArgsAtomic.rs2 a))) g))
  else set_x (ArgsAtomic.rd a) 1 (clear g).

Definition rv_amo (n : Z) (sg : bool) (op : Z → Z → Z) (a : ArgsAtomic.t) (g : Guest.t) : Guest.t :=
  let addr := x g (ArgsAtomic.rs1 a) in
  let old := World.load (Guest.world g) addr n sg in
  set_x (ArgsAtomic.rd a) old
    (set_world (World.store (Guest.world g) addr n (op old (x g (ArgsAtomic.rs2 a)))) g).

(** ** CSRs and floating point *)

(** A field of the CPU struct. *)
Definition fld (off : Z) (g : Guest.t) : Z := World.read_cpu (Guest.world g) (u64 (envp + off)).
Definition set_fld (off v : Z) (g : Guest.t) : Guest.t :=
  set_world (World.write_cpu (Guest.world g) (u64 (envp + off)) v) g.

Definition f (g : Guest.t) (i : Z) : Z := fld (fpr_offset i) g.
Definition set_f (i v : Z) (g : Guest.t) : Guest.t := set_fld (fpr_offset i) v g.

Definition fs_off (g : Guest.t) : bool := Z.land (fld USTATUS_OFFSET g) USTATUS_FS_MASK =? 0.

Definition set_dirty (g : Guest.t) : Guest.t :=
  set_fld USTATUS_OFFSET
    (Z.lor (Z.land (fld USTATUS_OFFSET g) (2 ^ 64 - 1 - USTATUS_FS_MASK)) USTATUS_FS_DIRTY) g.

(** The plain CSRs: a word of the CPU struct each. *)
Definition csr_field (csr : Z) : option Z :=
  if csr =? CSR_USTATUS then Some USTATUS_OFFSET
  else if csr =? CSR_UIE then Some UIE_OFFSET
  else if csr =? CSR_UTVEC then Some UTVEC_OFFSET
  else if csr =? CSR_USCRATCH then Some USCRATCH_OFFSET
  else if csr =? CSR_UEPC then Some UEPC_OFFSET
  else if csr =? CSR_UCAUSE then Some UCAUSE_OFFSET
  else if csr =? CSR_UTVAL then Some UTVAL_OFFSET
  else if csr =? CSR_UIP then Some UIP_OFFSET
  else None.

Definition read_only (csr : Z) : bool :=
  (csr =? CSR_CYCLE) || (csr =? CSR_TIME) || (csr =? CSR_INSTRET).

Definition csr_read (csr : Z) (g : Guest.t) : option Z :=
  if csr =? CSR_FFLAGS then Some (Z.land (fld FFLAGS_OFFSET g) 31)
  else if csr =? CSR_FRM then Some (Z.land (fld FRM_OFFSET g) 7)
  else if csr =? CSR_FCSR
  then Some (Z.lor (Z.land (fld FFLAGS_OFFSET g) 31) (Z.land (fld FRM_OFFSET g) 7 * 32))
  else if read_only csr then Some 0
  else (λ off, fld off g) <$> csr_field csr.

Definition csr_write (csr v : Z) (g : Guest.t) : option Guest.t :=
  if csr =? CSR_FFLAGS then Some (set_dirty (set_fld FFLAGS_OFFSET (Z.land v 31) g))
  else if csr =? CSR_FRM then Some (set_dirty (set_fld FRM_OFFSET (Z.land v 7) g))
  else if csr =? CSR_FCSR
  then Some (set_dirty (set_fld FRM_OFFSET (Z.land (v / 32) 7)
                          (set_fld FFLAGS_OFFSET (Z.land v 31) g)))
  else (λ off, set_fld off v g) <$> csr_field csr.

(** Read, then write [new old] unless the instruction only reads. *)
Definition rv_csr (write : bool) (new : Z → Z) (a : ArgsCsr.t) (g : Guest.t) : result :=
  if negb (RiscvCfg.ext_zicsr cfg) then Illegal
  else
    match csr_read (ArgsCsr.csr a) g with
    | None => Illegal
    | Some old =>
        if write
        then match csr_write (ArgsCsr.csr a) (new old) g with
             | None => Illegal
             | Some g => Fall (set_x (ArgsCsr.rd a) old g)
             end
        else Fall (set_x (ArgsCsr.rd a) old g)
    end.

Definition needs (e : MisaExt.t) (r : result) : result :=
  if MisaExt.contains (RiscvCfg.misa cfg) e then r else Illegal.

(** Floating-point instructions trap while the unit is off. *)
Definition fp (pc : Z) (g : Guest.t) (k : Guest.t → result) : result :=
  if fs_off g then Exit pc EXCP_UNDEF g else k g.

Definition nan_box (v : Z) : Z := Z.lor (u32 v) 0xffffffff00000000.

Definition rv_fload (n : Z) (single : bool) (a : ArgsI.t) (g : Guest.t) : Guest.t :=
  let v := World.load (Guest.world g) (u64 (x g (ArgsI.rs1 a) + ArgsI.imm a)) n false in
  set_f (ArgsI.rd a) (if single then nan_box v else v) g.

Definition rv_fstore (n : Z) (a : ArgsS.t) (g : Guest.t) : Guest.t :=
  set_world (World.store (Guest.world g) (u64 (x g (ArgsS.rs1 a) + ArgsS.imm a)) n
               (f g (ArgsS.rs2 a))) g.

(** Call a host function on the environment pointer, the operands and zeros. *)
Definition rv_helper (h : Helper.t) (operands : Guest.t → list Z) (set_d : Z → Guest.t → Guest.t)
    (g : Guest.t) : Guest.t :=
  let '(v, w) := host (u64 (addr_of h)) (take 6 ((envp :: operands g) ++ replicate 6 0)) (Guest.world g) in
  set_d (u64 v) (set_world w g).

(** ** One instruction at [pc], [len] bytes long *)

Definition rv_step (pc len : Z) (i : Insn.t) (g : Guest.t) : result :=
  match i with
  | Insn.lui a => Fall (set_x (ArgsU.rd a) (u64 (ArgsU.imm a)) g)
  | Insn.auipc a => Fall (set_x (ArgsU.rd a) (u64 (pc + ArgsU.imm a)) g)
  | Insn.jal a => Exit (u64 (pc + ArgsJ.imm a)) TB_EXIT_IDX0 (set_x (ArgsJ.rd a) (u64 (pc + len)) g)
  | Insn.jalr a => Exit (Z.land (u64 (x g (ArgsI.rs1 a) + ArgsI.imm a)) (2 ^ 64 - 2)) TB_EXIT_NOCHAIN
      (set_x (ArgsI.rd a) (u64 (pc + len)) g)
  | Insn.beq a => rv_branch (λ u v, u =? v) pc len a g
  | Insn.bne a => rv_branch (λ u v, negb (u =? v)) pc len a g
  | Insn.blt a => rv_branch (λ u v, i64 u <? i64 v) pc len a g
  | Insn.bge a => rv_branch (λ u v, i64 v <=? i64 u) pc len a g
  | Insn.bltu a => rv_branch (λ u v, u <? v) pc len a g
  | Insn.bgeu a => rv_branch (λ u v, v <=? u) pc len a g
  | Insn.lb a => Fall (rv_load 1 true a g)
  | Insn.lh a => Fall (rv_load 2 true a g)
  | Insn.lw a => Fall (rv_load 4 true a g)
  | Insn.lbu a => Fall (rv_load 1 false a g)
  | Insn.lhu a => Fall (rv_load 2 false a g)
  | Insn.lwu a => Fall (rv_load 4 false a g)
  | Insn.ld a => Fall (rv_load 8 false a g)
  | Insn.sb a => Fall (rv_store 1 a g)
  | Insn.sh a => Fall (rv_store 2 a g)
  | Insn.sw a => Fall (rv_store 4 a g)
  | Insn.sd a => Fall (rv_store 8 a g)
  | Insn.addi a => Fall (rv_imm (λ u v, u64 (u + v)) a g)
  | Insn.slti a => Fall (rv_imm (λ u v, if i64 u <? i64 v then 1 else 0) a g)
  | Insn.sltiu a => Fall (rv_imm (λ u v, if u <? v then 1 else 0) a g)
  | Insn.xori a => Fall (rv_imm (λ u v, Z.lxor u v) a g)
  | Insn.ori a => Fall (rv_imm (λ u v, Z.lor u v) a g)
  | Insn.andi a => Fall (rv_imm (λ u v, Z.land u v) a g)
  | Insn.addiw a => Fall (rv_imm (λ u v, sext32 (u + v)) a g)
  | Insn.slli a => rv_shift 64 (λ u k, u64 (u * 2 ^ k)) a g
  | Insn.srli a => rv_shift 64 (λ u k, u / 2 ^ k) a g
  | Insn.srai a => rv_shift 64 (λ u k, u64 (i64 u / 2 ^ k)) a g
  | Insn.slliw a => rv_shift 32 (λ u k, sext32 (u * 2 ^ k)) a g
  | Insn.srliw a => rv_shift 32 (λ u k, sext32 (u32 u / 2 ^ k)) a g
  | Insn.sraiw a => rv_shift 32 (λ u k, sext32 (i32 u / 2 ^ k)) a g
  | Insn.add a => Fall (rv_op (λ u v, u64 (u + v)) a g)
  | Insn.sub a => Fall (rv_op (λ u v, u64 (u - v)) a g)
  | Insn.sll a => Fall (rv_op (λ u v, u64 (u * 2 ^ (v mod 64))) a g)
  | Insn.slt a => Fall (rv_op (λ u v, if i64 u <? i64 v then 1 else 0) a g)
  | Insn.sltu a => Fall (rv_op (λ u v, if u <? v then 1 else 0) a g)
  | Insn.xor a => Fall (rv_op (λ u v, Z.lxor u v) a g)
  | Insn.srl a => Fall (rv_op (λ u v, u / 2 ^ (v mod 64)) a g)
  | Insn.sra a => Fall (rv_op (λ u v, u64 (i64 u / 2 ^ (v mod 64))) a g)
  | Insn.or a => Fall (rv_op (λ u v, Z.lor u v) a g)
  | Insn.and a => Fall (rv_op (λ u v, Z.land u v) a g)
  | Insn.addw a => Fall (rv_op (λ u v, sext32 (u + v)) a g)
  | Insn.subw a => Fall (rv_op (λ u v, sext32 (u - v)) a g)
  | Insn.sllw a => Fall (rv_op (λ u v, sext32 (u * 2 ^ (v mod 32))) a g)
  | Insn.srlw a => Fall (rv_op (λ u v, sext32 (u32 u / 2 ^ (v mod 32))) a g)
  | Insn.sraw a => Fall (rv_op (λ u v, sext32 (i32 u / 2 ^ (v mod 32))) a g)
  | Insn.mul a => needs MisaExt.M (Fall (rv_op (λ u v, u64 (u * v)) a g))
  | Insn.mulh a => needs MisaExt.M (Fall (rv_op (λ u v, u64 (i64 u * i64 v / 2 ^ 64)) a g))
  | Insn.mulhsu a => needs MisaExt.M (Fall (rv_op (λ u v, u64 (i64 u * v / 2 ^ 64)) a g))
  | Insn.mulhu a => needs MisaExt.M (Fall (rv_op (λ u v, u * v / 2 ^ 64) a g))
  | Insn.mulw a => needs MisaExt.M (Fall (rv_op (λ u v, sext32 (u * v)) a g))
  | Insn.div a => needs MisaExt.M (Fall (rv_op (λ u v, rv_div 64 u v) a g))
  | Insn.rem a => needs MisaExt.M (Fall (rv_op (λ u v, rv_rem 64 u v) a g))
  | Insn.divu a => needs MisaExt.M (Fall (rv_op (λ u v, rv_divu 64 u v) a g))
  | Insn.remu a => needs MisaExt.M (Fall (rv_op (λ u v, rv_remu 64 u v) a g))
  | Insn.divw a => needs MisaExt.M (Fall (rv_op (λ u v, sext32 (rv_div 32 u v)) a g))
  | Insn.remw a => needs MisaExt.M (Fall (rv_op (λ u v, sext32 (rv_rem 32 u v)) a g))
  | Insn.divuw a => needs MisaExt.M (Fall (rv_op (λ u v, sext32 (rv_divu 32 u v)) a g))
  | Insn.remuw a => needs MisaExt.M (Fall (rv_op (λ u v, sext32 (rv_remu 32 u v)) a g))
  | Insn.fence a => Fall g
  | Insn.ecall a => Exit pc EXCP_ECALL g
  | Insn.ebreak a => Exit pc EXCP_EBREAK g
  | Insn.lr_w a => needs MisaExt.A (Fall (rv_lr 4 true a g))
  | Insn.sc_w a => needs MisaExt.A (Fall (rv_sc 4 a g))
  | Insn.amoswap_w a => needs MisaExt.A (Fall (rv_amo 4 true (λ u v, v) a g))
  | Insn.amoadd_w a => needs MisaExt.A (Fall (rv_amo 4 true (λ u v, u + v) a g))
  | Insn.amoxor_w a => needs MisaExt.A (Fall (rv_amo 4 true (λ u v, Z.lxor u v) a g))
  | Insn.amoand_w a => needs MisaExt.A (Fall (rv_amo 4 true (λ u v, Z.land u v) a g))
  | Insn.amoor_w a => needs MisaExt.A (Fall (rv_amo 4 true (λ u v, Z.lor u v) a g))
  | Insn.amomin_w a => needs MisaExt.A (Fall (rv_amo 4 true (λ u v, if i32 u <=? i32 v then u else v) a g))
  | Insn.amomax_w a => needs MisaExt.A (Fall (rv_amo 4 true (λ u v, if i32 v <=? i32 u then u else v) a g))
  | Insn.amominu_w a => needs MisaExt.A (Fall (rv_amo 4 true (λ u v, if u32 u <=? u32 v then u else v) a g))
  | Insn.amomaxu_w a => needs MisaExt.A (Fall (rv_amo 4 true (λ u v, if u32 v <=? u32 u then u else v) a g))
  | Insn.lr_d a => needs MisaExt.A (Fall (rv_lr 8 false a g))
  | Insn.sc_d a => needs MisaExt.A (Fall (rv_sc 8 a g))
  | Insn.amoswap_d a => needs MisaExt.A (Fall (rv_amo 8 false (λ u v, v) a g))
  | Insn.amoadd_d a => needs MisaExt.A (Fall (rv_amo 8 false (λ u v, u + v) a g))
  | Insn.amoxor_d a => needs MisaExt.A (Fall (rv_amo 8 false (λ u v, Z.lxor u v) a g))
  | Insn.amoand_d a => needs MisaExt.A (Fall (rv_amo 8 false (λ u v, Z.land u v) a g))
  | Insn.amoor_d a => needs MisaExt.A (Fall (rv_amo 8 false (λ u v, Z.lor u v) a g))
  | Insn.amomin_d a => needs MisaExt.A (Fall (rv_amo 8 false (λ u v, if i64 u <=? i64 v then u else v) a g))
  | Insn.amomax_d a => needs MisaExt.A (Fall (rv_amo 8 false (λ u v, if i64 v <=? i64 u then u else v) a g))
  | Insn.amominu_d a => needs MisaExt.A (Fall (rv_amo 8 false (λ u v, if u64 u <=? u64 v then u else v) a g))
  | Insn.amomaxu_d a => needs MisaExt.A (Fall (rv_amo 8 false (λ u v, if u64 v <=? u64 u then u else v) a g))
  | Insn.csrrw a => rv_csr (true) (λ old, x g (ArgsCsr.rs1 a)) a g
  | Insn.csrrs a => rv_csr (negb (ArgsCsr.rs1 a =? 0)) (λ old, Z.lor old (x g (ArgsCsr.rs1 a))) a g
  | Insn.csrrc a => rv_csr (negb (ArgsCsr.rs1 a =? 0)) (λ old, Z.land old (2 ^ 64 - 1 - x g (ArgsCsr.rs1 a))) a g
  | Insn.csrrwi a => rv_csr (true) (λ old, u64 (ArgsCsr.rs1 a)) a g
  | Insn.csrrsi a => rv_csr (negb (ArgsCsr.rs1 a =? 0)) (λ old, Z.lor old (u64 (ArgsCsr.rs1 a))) a g
  | Insn.csrrci a => rv_csr (negb (ArgsCsr.rs1 a =? 0)) (λ old, Z.land old (2 ^ 64 - 1 - u64 (ArgsCsr.rs1 a))) a g
  | Insn.flw a => needs MisaExt.F (fp pc g (λ g, Fall (rv_fload 4 true a (set_dirty g))))
  | Insn.fld a => needs MisaExt.D (fp pc g (λ g, Fall (rv_fload 8 false a (set_dirty g))))
  | Insn.fsw a => needs MisaExt.F (fp pc g (λ g, Fall (rv_fstore 4 a g)))
  | Insn.fsd a => needs MisaExt.D (fp pc g (λ g, Fall (rv_fstore 8 a g)))
  | Insn.fmadd_s a => needs MisaExt.F (fp pc g (λ g,
      Fall (rv_helper Helper.helper_fmadd_s (λ g, [f g (ArgsR4Rm.rs1 a); f g (ArgsR4Rm.rs2 a); f g (ArgsR4Rm.rs3 a); u64 (ArgsR4Rm.rm a)]) (set_f (ArgsR4Rm.rd a)) (set_dirty g))))
  | Insn.fmsub_s a => needs MisaExt.F (fp pc g (λ g,
      Fall (rv_helper Helper.helper_fmsub_s (λ g, [f g (ArgsR4Rm.rs1 a); f g (ArgsR4Rm.rs2 a); f g (ArgsR4Rm.rs3 a); u64 (ArgsR4Rm.rm a)]) (set_f (ArgsR4Rm.rd a)) (set_dirty g))))
  | Insn.fnmsub_s a => needs MisaExt.F (fp pc g (λ g,
      Fall (rv_helper Helper.helper_fnmsub_s (λ g, [f g (ArgsR4Rm.rs1 a); f g (ArgsR4Rm.rs2 a); f g (ArgsR4Rm.rs3 a); u64 (ArgsR4Rm.rm a)]) (set_f (ArgsR4Rm.rd a)) (set_dirty g))))
  | Insn.fnmadd_s a => needs MisaExt.F (fp pc g (λ g,
      Fall (rv_helper Helper.helper_fnmadd_s (λ g, [f g (ArgsR4Rm.rs1 a); f g (ArgsR4Rm.rs2 a); f g (ArgsR4Rm.rs3 a); u64 (ArgsR4Rm.rm a)]) (set_f (ArgsR4Rm.rd a)) (set_dirty g))))
  | Insn.fadd_s a => needs MisaExt.F (fp pc g (λ g,
      Fall (rv_helper Helper.helper_fadd_s (λ g, [f g (ArgsRRm.rs1 a); f g (ArgsRRm.rs2 a); u64 (ArgsRRm.rm a)]) (set_f (ArgsRRm.rd a)) (set_dirty g))))
  | Insn.fsub_s a => needs MisaExt.F (fp pc g (λ g,
      Fall (rv_helper Helper.helper_fsub_s (λ g, [f g (ArgsRRm.rs1 a); f g (ArgsRRm.rs2 a); u64 (ArgsRRm.rm a)]) (set_f (ArgsRRm.rd a)) (set_dirty g))))
  | Insn.fmul_s a => needs MisaExt.F (fp pc g (λ g,
      Fall (rv_helper Helper.helper_fmul_s (λ g, [f g (ArgsRRm.rs1 a); f g (ArgsRRm.rs2 a); u64 (ArgsRRm.rm a)]) (set_f (ArgsRRm.rd a)) (set_dirty g))))
  | Insn.fdiv_s a => needs MisaExt.F (fp pc g (λ g,
      Fall (rv_helper Helper.helper_fdiv_s (λ g, [f g (ArgsRRm.rs1 a); f g (ArgsRRm.rs2 a); u64 (ArgsRRm.rm a)]) (set_f (ArgsRRm.rd a)) (set_dirty g))))
  | Insn.fsqrt_s a => needs MisaExt.F (fp pc g (λ g,
      Fall (rv_helper Helper.helper_fsqrt_s (λ g, [f g (ArgsR2Rm.rs1 a); u64 (ArgsR2Rm.rm a)]) (set_f (ArgsR2Rm.rd a)) (set_dirty g))))
  | Insn.fsgnj_s a => needs MisaExt.F (fp pc g (λ g,
      Fall (rv_helper Helper.helper_fsgnj_s (λ g, [f g (ArgsR.rs1 a); f g (ArgsR.rs2 a)]) (set_f (ArgsR.rd a)) (set_dirty g))))
  | Insn.fsgnjn_s a => needs MisaExt.F (fp pc g (λ g,
      Fall (rv_helper Helper.helper_fsgnjn_s (λ g, [f g (ArgsR.rs1 a); f g (ArgsR.rs2 a)]) (set_f (ArgsR.rd a)) (set_dirty g))))
  | Insn.fsgnjx_s a => needs MisaExt.F (fp pc g (λ g,
      Fall (rv_helper Helper.helper_fsgnjx_s (λ g, [f g (ArgsR.rs1 a); f g (ArgsR.rs2 a)]) (set_f (ArgsR.rd a)) (set_dirty g))))
  | Insn.fmin_s a => needs MisaExt.F (fp pc g (λ g,
      Fall (rv_helper Helper.helper_fmin_s (λ g, [f g (ArgsR.rs1 a); f g (ArgsR.rs2 a)]) (set_f (ArgsR.rd a)) (set_dirty g))))
  | Insn.fmax_s a => needs MisaExt.F (fp pc g (λ g,
      Fall (rv_helper Helper.helper_fmax_s (λ g, [f g (ArgsR.rs1 a); f g (ArgsR.rs2 a)]) (set_f (ArgsR.rd a)) (set_dirty g))))
  | Insn.feq_s a => needs MisaExt.F (fp pc g (λ g,
      Fall (rv_helper Helper.helper_feq_s (λ g, [f g (ArgsR.rs1 a); f g (ArgsR.rs2 a)]) (set_x (ArgsR.rd a)) g)))
  | Insn.flt_s a => needs MisaExt.F (fp pc g (λ g,
      Fall (rv_helper Helper.helper_flt_s (λ g, [f g (ArgsR.rs1 a); f g (ArgsR.rs2 a)]) (set_x (ArgsR.rd a)) g)))
  | Insn.fle_s a => needs MisaExt.F (fp pc g (λ g,
      Fall (rv_helper Helper.helper_fle_s (λ g, [f g (ArgsR.rs1 a); f g (ArgsR.rs2 a)]) (set_x (ArgsR.rd a)) g)))
  | Insn.fclass_s a => needs MisaExt.F (fp pc g (λ g,
      Fall (rv_helper Helper.helper_fclass_s (λ g, [f g (ArgsR2.rs1 a)]) (set_x (ArgsR2.rd a)) g)))
  | Insn.fcvt_w_s a => needs MisaExt.F (fp pc g (λ g,
      Fall (rv_helper Helper.helper_fcvt_w_s (λ g, [f g (ArgsR2Rm.rs1 a); u64 (ArgsR2Rm.rm a)]) (set_x (ArgsR2Rm.rd a)) g)))
  | Insn.fcvt_wu_s a => needs MisaExt.F (fp pc g (λ g,
      Fall (rv_helper Helper.helper_fcvt_wu_s (λ g, [f g (ArgsR2Rm.rs1 a); u64 (ArgsR2Rm.rm a)]) (set_x (ArgsR2Rm.rd a)) g)))
  | Insn.fcvt_l_s a => needs MisaExt.F (fp pc g (λ g,
      Fall (rv_helper Helper.helper_fcvt_l_s (λ g, [f g (ArgsR2Rm.rs1 a); u64 (ArgsR2Rm.rm a)]) (set_x (ArgsR2Rm.rd a)) g)))
  | Insn.fcvt_lu_s a => needs MisaExt.F (fp pc g (λ g,
      Fall (rv_helper Helper.helper_fcvt_lu_s (λ g, [f g (ArgsR2Rm.rs1 a); u64 (ArgsR2Rm.rm a)]) (set_x (ArgsR2Rm.rd a)) g)))
  | Insn.fcvt_s_w a => needs MisaExt.F (fp pc g (λ g,
      Fall (rv_helper Helper.helper_fcvt_s_w (λ g, [x g (ArgsR2Rm.rs1 a); u64 (ArgsR2Rm.rm a)]) (set_f (ArgsR2Rm.rd a)) (set_dirty g))))
  | Insn.fcvt_s_wu a => needs MisaExt.F (fp pc g (λ g,
      Fall (rv_helper Helper.helper_fcvt_s_wu (λ g, [x g (ArgsR2Rm.rs1 a); u64 (ArgsR2Rm.rm a)]) (set_f (ArgsR2Rm.rd a)) (set_dirty g))))
  | Insn.fcvt_s_l a => needs MisaExt.F (fp pc g (λ g,
      Fall (rv_helper Helper.helper_fcvt_s_l (λ g, [x g (ArgsR2Rm.rs1 a); u64 (ArgsR2Rm.rm a)]) (set_f (ArgsR2Rm.rd a)) (set_dirty g))))
  | Insn.fcvt_s_lu a => needs MisaExt.F (fp pc g (λ g,
      Fall (rv_helper Helper.helper_fcvt_s_lu (λ g, [x g (ArgsR2Rm.rs1 a); u64 (ArgsR2Rm.rm a)]) (set_f (ArgsR2Rm.rd a)) (set_dirty g))))
  | Insn.fmadd_d a => needs MisaExt.D (fp pc g (λ g,
      Fall (rv_helper Helper.helper_fmadd_d (λ g, [f g (ArgsR4Rm.rs1 a); f g (ArgsR4Rm.rs2 a); f g (ArgsR4Rm.rs3 a); u64 (ArgsR4Rm.rm a)]) (set_f (ArgsR4Rm.rd a)) (set_dirty g))))
  | Insn.fmsub_d a => needs MisaExt.D (fp pc g (λ g,
      Fall (rv_helper Helper.helper_fmsub_d (λ g, [f g (ArgsR4Rm.rs1 a); f g (ArgsR4Rm.rs2 a); f g (ArgsR4Rm.rs3 a); u64 (ArgsR4Rm.rm a)]) (set_f (ArgsR4Rm.rd a)) (set_dirty g))))
  | Insn.fnmsub_d a => needs MisaExt.D (fp pc g (λ g,
      Fall (rv_helper Helper.helper_fnmsub_d (λ g, [f g (ArgsR4Rm.rs1 a); f g (ArgsR4Rm.rs2 a); f g (ArgsR4Rm.rs3 a); u64 (ArgsR4Rm.rm a)]) (set_f (ArgsR4Rm.rd a)) (set_dirty g))))
  | Insn.fnmadd_d a => needs MisaExt.D (fp pc g (λ g,
      Fall (rv_helper Helper.helper_fnmadd_d (λ g, [f g (ArgsR4Rm.rs1 a); f g (ArgsR4Rm.rs2 a); f g (ArgsR4Rm.rs3 a); u64 (ArgsR4Rm.rm a)]) (set_f (ArgsR4Rm.rd a)) (set_dirty g))))
  | Insn.fadd_d a => needs MisaExt.D (fp pc g (λ g,
      Fall (rv_helper Helper.helper_fadd_d (λ g, [f g (ArgsRRm.rs1 a); f g (ArgsRRm.rs2 a); u64 (ArgsRRm.rm a)]) (set_f (ArgsRRm.rd a)) (set_dirty g))))
  | Insn.fsub_d a => needs MisaExt.D (fp pc g (λ g,
      Fall (rv_helper Helper.helper_fsub_d (λ g, [f g (ArgsRRm.rs1 a); f g (ArgsRRm.rs2 a); u64 (ArgsRRm.rm a)]) (set_f (ArgsRRm.rd a)) (set_dirty g))))
  | Insn.fmul_d a => needs MisaExt.D (fp pc g (λ g,
      Fall (rv_helper Helper.helper_fmul_d (λ g, [f g (ArgsRRm.rs1 a); f g (ArgsRRm.rs2 a); u64 (ArgsRRm.rm a)]) (set_f (ArgsRRm.rd a)) (set_dirty g))))
  | Insn.fdiv_d a => needs MisaExt.D (fp pc g (λ g,
      Fall (rv_helper Helper.helper_fdiv_d (λ g, [f g (ArgsRRm.rs1 a); f g (ArgsRRm.rs2 a); u64 (ArgsRRm.rm a)]) (set_f (ArgsRRm.rd a)) (set_dirty g))))
  | Insn.fsqrt_d a => needs MisaExt.D (fp pc g (λ g,
      Fall (rv_helper Helper.helper_fsqrt_d (λ g, [f g (ArgsR2Rm.rs1 a); u64 (ArgsR2Rm.rm a)]) (set_f (ArgsR2Rm.rd a)) (set_dirty g))))
  | Insn.fsgnj_d a => needs MisaExt.D (fp pc g (λ g,
      Fall (rv_helper Helper.helper_fsgnj_d (λ g, [f g (ArgsR.rs1 a); f g (ArgsR.rs2 a)]) (set_f (ArgsR.rd a)) (set_dirty g))))
  | Insn.fsgnjn_d a => needs MisaExt.D (fp pc g (λ g,
      Fall (rv_helper Helper.helper_fsgnjn_d (λ g, [f g (ArgsR.rs1 a); f g (ArgsR.rs2 a)]) (set_f (ArgsR.rd a)) (set_dirty g))))
  | Insn.fsgnjx_d a => needs MisaExt.D (fp pc g (λ g,
      Fall (rv_helper Helper.helper_fsgnjx_d (λ g, [f g (ArgsR.rs1 a); f g (ArgsR.rs2 a)]) (set_f (ArgsR.rd a)) (set_dirty g))))
  | Insn.fmin_d a => needs MisaExt.D (fp pc g (λ g,
      Fall (rv_helper Helper.helper_fmin_d (λ g, [f g (ArgsR.rs1 a); f g (ArgsR.rs2 a)]) (set_f (ArgsR.rd a)) (set_dirty g))))
  | Insn.fmax_d a => needs MisaExt.D (fp pc g (λ g,
      Fall (rv_helper Helper.helper_fmax_d (λ g, [f g (ArgsR.rs1 a); f g (ArgsR.rs2 a)]) (set_f (ArgsR.rd a)) (set_dirty g))))
  | Insn.feq_d a => needs MisaExt.D (fp pc g (λ g,
      Fall (rv_helper Helper.helper_feq_d (λ g, [f g (ArgsR.rs1 a); f g (ArgsR.rs2 a)]) (set_x (ArgsR.rd a)) g)))
  | Insn.flt_d a => needs MisaExt.D (fp pc g (λ g,
      Fall (rv_helper Helper.helper_flt_d (λ g, [f g (ArgsR.rs1 a); f g (ArgsR.rs2 a)]) (set_x (ArgsR.rd a)) g)))
  | Insn.fle_d a => needs MisaExt.D (fp pc g (λ g,
      Fall (rv_helper Helper.helper_fle_d (λ g, [f g (ArgsR.rs1 a); f g (ArgsR.rs2 a)]) (set_x (ArgsR.rd a)) g)))
  | Insn.fclass_d a => needs MisaExt.D (fp pc g (λ g,
      Fall (rv_helper Helper.helper_fclass_d (λ g, [f g (ArgsR2.rs1 a)]) (set_x (ArgsR2.rd a)) g)))
  | Insn.fcvt_w_d a => needs MisaExt.D (fp pc g (λ g,
      Fall (rv_helper Helper.helper_fcvt_w_d (λ g, [f g (ArgsR2Rm.rs1 a); u64 (ArgsR2Rm.rm a)]) (set_x (ArgsR2Rm.rd a)) g)))
  | Insn.fcvt_wu_d a => needs MisaExt.D (fp pc g (λ g,
      Fall (rv_helper Helper.helper_fcvt_wu_d (λ g, [f g (ArgsR2Rm.rs1 a); u64 (ArgsR2Rm.rm a)]) (set_x (ArgsR2Rm.rd a)) g)))
  | Insn.fcvt_l_d a => needs MisaExt.D (fp pc g (λ g,
      Fall (rv_helper Helper.helper_fcvt_l_d (λ g, [f g (ArgsR2Rm.rs1 a); u64 (ArgsR2Rm.rm a)]) (set_x (ArgsR2Rm.rd a)) g)))
  | Insn.fcvt_lu_d a => needs MisaExt.D (fp pc g (λ g,
      Fall (rv_helper Helper.helper_fcvt_lu_d (λ g, [f g (ArgsR2Rm.rs1 a); u64 (ArgsR2Rm.rm a)]) (set_x (ArgsR2Rm.rd a)) g)))
  | Insn.fcvt_d_w a => needs MisaExt.D (fp pc g (λ g,
      Fall (rv_helper Helper.helper_fcvt_d_w (λ g, [x g (ArgsR2Rm.rs1 a); u64 (ArgsR2Rm.rm a)]) (set_f (ArgsR2Rm.rd a)) (set_dirty g))))
  | Insn.fcvt_d_wu a => needs MisaExt.D (fp pc g (λ g,
      Fall (rv_helper Helper.helper_fcvt_d_wu (λ g, [x g (ArgsR2Rm.rs1 a); u64 (ArgsR2Rm.rm a)]) (set_f (ArgsR2Rm.rd a)) (set_dirty g))))
  | Insn.fcvt_d_l a => needs MisaExt.D (fp pc g (λ g,
      Fall (rv_helper Helper.helper_fcvt_d_l (λ g, [x g (ArgsR2Rm.rs1 a); u64 (ArgsR2Rm.rm a)]) (set_f (ArgsR2Rm.rd a)) (set_dirty g))))
  | Insn.fcvt_d_lu a => needs MisaExt.D (fp pc g (λ g,
      Fall (rv_helper Helper.helper_fcvt_d_lu (λ g, [x g (ArgsR2Rm.rs1 a); u64 (ArgsR2Rm.rm a)]) (set_f (ArgsR2Rm.rd a)) (set_dirty g))))
  | Insn.fcvt_s_d a => needs MisaExt.D (fp pc g (λ g,
      Fall (rv_helper Helper.helper_fcvt_s_d (λ g, [f g (ArgsR2Rm.rs1 a); u64 (ArgsR2Rm.rm a)]) (set_f (ArgsR2Rm.rd a)) (set_dirty g))))
  | Insn.fcvt_d_s a => needs MisaExt.D (fp pc g (λ g,
      Fall (rv_helper Helper.helper_fcvt_d_s (λ g, [f g (ArgsR2Rm.rs1 a); u64 (ArgsR2Rm.rm a)]) (set_f (ArgsR2Rm.rd a)) (set_dirty g))))
  | Insn.fmv_x_w a => needs MisaExt.F (fp pc g (λ g, Fall (set_x (ArgsR2.rd a) (sext32 (f g (ArgsR2.rs1 a))) g)))
  | Insn.fmv_w_x a => needs MisaExt.F (fp pc g (λ g,
      Fall (let g := set_dirty g in set_f (ArgsR2.rd a) (nan_box (x g (ArgsR2.rs1 a))) g)))
  | Insn.fmv_x_d a => needs MisaExt.D (fp pc g (λ g, Fall (set_x (ArgsR2.rd a) (f g (ArgsR2.rs1 a)) g)))
  | Insn.fmv_d_x a => needs MisaExt.D (fp pc g (λ g,
      Fall (let g := set_dirty g in set_f (ArgsR2.rd a) (x g (ArgsR2.rs1 a)) g)))
  end.
End reference.
