(* ===== verification/RiscvWp.v ===== *)
(** * A program logic for the translator

    [wp m d c σ Q]: from [self = d] and IR context [c], the translation function [m]
    returns, keeps the context invariant [ok], only appends temps and ops, and
    running the ops it appends from the machine state [σ] ends in a state that
    satisfies [Q].  A machine state is the values of the temps, the world, and
    how control left the ops so far: running on, skipping to a label, or left.

    One rule per builder call; [wp_auto] applies them and carries the known
    values of temps along. *)

From S2P Require Import Prelude Types Opcodes Ir Builder IrSem Tb Frontend RiscvCpu RiscvGen.
From S2P Require Import RiscvTrans RiscvSem.

(** ** Running a list of ops with forward jumps *)

Definition state : Type := env * World.t.

Section exec_seq.
Context {W : Type} (ext : Opcode.t → Type_.t → list Z → list Z → W → list Z * W * option Z).

(** Execute the ops in order; after a jump skip to the [SetLabel] of its label. *)
Definition exec_one (ts : list Temp.t) (o : Op.t) (σ : env * W * ctl) : env * W * ctl :=
  match σ.2 with
  | Next => exec_op ext ts o σ.1
  | Jump l => if is_set_label l o then (σ.1, Next) else σ
  | Leave _ => σ
  end.

Definition exec_seq (ts : list Temp.t) (os : list Op.t) (σ : env * W * ctl) : env * W * ctl :=
  fold_left (λ σ o, exec_one ts o σ) os σ.

Lemma exec_seq_app ts os os' σ : exec_seq ts (os ++ os') σ = exec_seq ts os' (exec_seq ts os σ).
Proof. apply fold_left_app. Qed.

Lemma exec_seq_left ts os s v : exec_seq ts os (s, Leave v) = (s, Leave v).
Proof. induction os; done. Qed.

Lemma exec_seq_prefix ts ts' os σ :
  ts `prefix_of` ts' → Forall (op_in_range (zlen ts)) os → exec_seq ts' os σ = exec_seq ts os σ.
Proof.
  intros Hp Ho. revert σ. induction Ho as [|o os Ho _ IH]; intros σ; [done|]. simpl.
  rewrite IH. f_equal. unfold exec_one. by rewrite (exec_op_prefix ext ts ts').
Qed.
End exec_seq.

(** ** Labels *)

Definition set_labels_of (os : list Op.t) : list Z :=
  omap (λ o, if decide (Op.opc o = Opcode.SetLabel) then Op.cargs o !! 0%nat else None) os.

Lemma set_labels_of_app os os' : set_labels_of (os ++ os') = set_labels_of os ++ set_labels_of os'.
Proof. apply omap_app. Qed.

Lemma is_set_label_iff l o :
  is_set_label l o = true ↔ Op.opc o = Opcode.SetLabel ∧ Op.cargs o = [l].
Proof. unfold is_set_label. rewrite andb_true_iff, !bool_decide_eq_true. done. Qed.

Lemma label_pos_split os1 o os2 l :
  NoDup (set_labels_of (os1 ++ o :: os2)) → is_set_label l o = true →
  label_pos (os1 ++ o :: os2) l = Some (length os1).
Proof.
  intros Hnd Ho. unfold label_pos.
  assert (l ∈ set_labels_of (o :: os2)) as Hin.
  { apply is_set_label_iff in Ho as [Ho Hc]. unfold set_labels_of. simpl.
    rewrite decide_True by done. rewrite Hc. simpl. set_solver. }
  destruct (list_find _ _) as [[i o']|] eqn:E.
  - apply list_find_Some in E as (Hi & Hl & Hmin). simpl. f_equal.
    destruct (decide (i = length os1)) as [|Hne]; [done|]. exfalso.
    destruct (decide (length os1 < i)%nat) as [Hlt|].
    { apply (Hmin (length os1) o); [|done|done]. by apply list_lookup_middle. }
    rewrite lookup_app_l in Hi by lia.
    rewrite set_labels_of_app in Hnd. apply NoDup_app in Hnd as (_ & Hd & _).
    apply (Hd l); [|done]. apply list_elem_of_omap. exists o'.
    split; [by eapply list_elem_of_lookup_2|].
    apply is_set_label_iff in Hl as [Hl Hc]. rewrite decide_True by done. by rewrite Hc.
  - exfalso. apply list_find_None in E. rewrite Forall_app, Forall_cons in E. by destruct E as (_ & ? & _).
Qed.

(** Running the ops of a block from a position as a list is running the block. *)
Lemma run_exec_seq {W} (ext : Opcode.t → Type_.t → list Z → list Z → W → list Z * W * option Z)
    c os1 os2 s s' v fuel :
  ops c = os1 ++ os2 → NoDup (set_labels_of (ops c)) → (length os2 < fuel)%nat →
  exec_seq ext (temps c) os2 (s, Next) = (s', Leave v) →
  run ext fuel c (length os1) s = Exited v s'.
Proof.
  assert (∀ n os1 os2 s fuel l, length os2 = n → ops c = os1 ++ os2 →
    NoDup (set_labels_of (ops c)) → (length os2 < fuel)%nat →
    (exec_seq ext (temps c) os2 (s, Next) = (s', Leave v) →
      run ext fuel c (length os1) s = Exited v s') ∧
    (exec_seq ext (temps c) os2 (s, Jump l) = (s', Leave v) →
      ∃ pc, label_pos (ops c) l = Some pc ∧ run ext (fuel - 1) c (pc + 1) s = Exited v s'))
    as Hgen; [|intros Ho Hnd Hf; by apply (Hgen _ _ _ _ _ 0 eq_refl Ho Hnd Hf)].
  induction n as [|n IH]; intros pre [|o post] s0 fl l Hlen Ho Hnd Hf; try discriminate Hlen.
  { by split. }
  injection Hlen as Hlen. simpl in Hf. destruct fl as [|fl]; [lia|].
  assert (ops c = (pre ++ [o]) ++ post) as Ho' by (by rewrite <- app_assoc).
  assert (length (pre ++ [o]) = (length pre + 1)%nat) as Hpre by (rewrite length_app; done).
  split.
  - cbn [exec_seq fold_left exec_one snd fst run]. intros Hx.
    rewrite Ho, list_lookup_middle by done. cbn [fst].
    destruct (exec_op ext (temps c) o s0) as [s1 []] eqn:Ex.
    + rewrite <- Hpre. destruct (IH (pre ++ [o]) post s1 fl 0 Hlen Ho' Hnd ltac:(lia)) as [Hn _].
      by apply Hn.
    + destruct (IH (pre ++ [o]) post s1 (S fl) label Hlen Ho' Hnd ltac:(lia)) as [_ Hj].
      destruct (Hj Hx) as (pc & Hl & Hr). rewrite Ho in Hl. rewrite Hl.
      replace (S fl - 1)%nat with fl in Hr by lia. done.
    + fold (exec_seq ext (temps c) post (s1, Leave value)) in Hx.
      rewrite exec_seq_left in Hx. by simplify_eq.
  - cbn [exec_seq fold_left exec_one snd]. intros Hx.
    destruct (is_set_label l o) eqn:Hs.
    + exists (length pre). split; [rewrite Ho in Hnd |- *; by apply label_pos_split|].
      rewrite <- Hpre. replace (S fl - 1)%nat with fl by lia.
      destruct (IH (pre ++ [o]) post s0 fl 0 Hlen Ho' Hnd ltac:(lia)) as [Hn _]. by apply Hn.
    + destruct (IH (pre ++ [o]) post s0 (S fl) l Hlen Ho' Hnd ltac:(lia)) as [_ Hj]. by apply Hj.
Qed.

(** ** The invariant of the IR context *)

Definition NB_GLOBALS : Z := 36.

(** The temps of the guest state: the env pointer, 32 registers, pc and the
    reservation. *)
Definition globals_ok (ts : list Temp.t) : Prop :=
  ∀ i, 0 ≤ i < NB_GLOBALS →
    ∃ t, ts.[i] = Some t ∧ Temp.ty t = Type_.I64 ∧ Temp.is_const t = false.

Record ok (c : Context) : Prop := {
  ok_wf : wf_context c;
  ok_labels_once : NoDup (set_labels_of (ops c));
  ok_labels : Forall (λ l, 0 ≤ l < zlen (labels c)) (set_labels_of (ops c));
  ok_range : Forall (op_in_range (zlen (temps c))) (ops c);
  ok_globals : globals_ok (temps c)
}.

(** Room for [n] more builder calls before a [u32] counter wraps. *)
Definition room (c : Context) (n : nat) : Prop :=
  zlen (temps c) + Z.of_nat n < 2 ^ 32 ∧ zlen (ops c) + Z.of_nat n < 2 ^ 32 ∧
  zlen (labels c) + Z.of_nat n < 2 ^ 32.

Record good (c : Context) (ts : list Temp.t) (n : nat) : Prop := {
  good_ok : ok c;
  good_temps : temps c = ts;
  good_room : room c n
}.

Lemma good_mono c ts n m : (m ≤ n)%nat → good c ts n → good c ts m.
Proof. intros ? [? ? (? & ? & ?)]. split; [done..|]. unfold room. lia. Qed.

(** ** What is known about temps *)

(** A temp that is not a constant, and a constant. *)
Definition local_of (ts : list Temp.t) (t : Z) (ty : Type_.t) : Prop :=
  ∃ x, ts.[t] = Some x ∧ Temp.ty x = ty ∧ Temp.is_const x = false.

Definition const_of (ts : list Temp.t) (t v : Z) : Prop :=
  ∃ x, ts.[t] = Some x ∧ Temp.is_const x = true ∧ Temp.val x = v.

(** The value of a temp. *)
Definition holds (ts : list Temp.t) (e : env) (t v : Z) : Prop :=
  0 ≤ t < zlen ts ∧ rd ts e t = v.

Lemma local_of_prefix ts ts' t ty : ts `prefix_of` ts' → local_of ts t ty → local_of ts' t ty.
Proof. intros [k ->] (x & ? & ?). exists x. split; [|done]. by apply zlookup_app_Some. Qed.

Lemma const_of_prefix ts ts' t v : ts `prefix_of` ts' → const_of ts t v → const_of ts' t v.
Proof. intros [k ->] (x & ? & ?). exists x. split; [|done]. by apply zlookup_app_Some. Qed.

Lemma holds_prefix ts ts' e t v : ts `prefix_of` ts' → holds ts e t v → holds ts' e t v.
Proof.
  intros Hp [? ?]. split; [|by rewrite (rd_prefix ts)].
  destruct Hp as [k ->]. rewrite zlen_app. pose proof (zlen_nonneg k). lia.
Qed.

Lemma holds_const ts e t v : const_of ts t v → holds ts e t v.
Proof.
  intros (x & Hx & Hc & Hv). split; [by eapply zlookup_lt_Some|]. unfold rd. by rewrite Hx, Hc.
Qed.

Lemma holds_wr_ne ts e d v t u : t ≠ d → holds ts e t u → holds ts (wr ts e d v) t u.
Proof. intros ? [? ?]. split; [done|]. by rewrite rd_wr_ne. Qed.

Lemma holds_wr_eq ts e d v ty :
  local_of ts d ty → holds ts (wr ts e d v) d (v mod 2 ^ Type_.size_bits ty).
Proof.
  intros (x & Hx & <- & Hc). split; [by eapply zlookup_lt_Some|].
  unfold rd, wr. by rewrite Hx, Hc, Z.eqb_refl.
Qed.

(** The operand lists of the rules. *)
Definition all_hold (ts : list Temp.t) (e : env) : list Z → list Z → Prop := Forall2 (holds ts e).

Lemma all_hold_rd ts e ins vs : all_hold ts e ins vs → rd ts e <$> ins = vs.
Proof. induction 1 as [|t v ins vs [_ Ht]]; [done|]. simpl. by f_equal. Qed.

Lemma all_hold_range ts e ins vs :
  all_hold ts e ins vs → Forall (λ t, 0 ≤ t < zlen ts) ins.
Proof. induction 1 as [|t v ins vs [? _]]; by constructor. Qed.

(** ** Preservation by the calls of [Context] *)

Lemma globals_ok_prefix ts ts' : ts `prefix_of` ts' → globals_ok ts → globals_ok ts'.
Proof.
  intros [k ->] Hg i Hi. destruct (Hg i Hi) as (t & ? & ?). exists t.
  split; [by apply zlookup_app_Some|done].
Qed.

Lemma globals_ok_len ts : globals_ok ts → NB_GLOBALS ≤ zlen ts.
Proof.
  intros Hg. destruct (Hg 35) as (t & Ht & _); [unfold NB_GLOBALS; lia|].
  apply zlookup_lt_Some in Ht. unfold NB_GLOBALS. lia.
Qed.

(** Calls that add at most one temp. *)
Lemma ok_push_temps c c' ts' n :
  good c (temps c) (S n) → wf_context c' → temps c' = ts' → temps c `prefix_of` ts' →
  zlen ts' ≤ zlen (temps c) + 1 → ops c' = ops c → labels c' = labels c → good c' ts' n.
Proof.
  intros [[Hwf Hl1 Hl2 Hr Hg] _ (? & ? & ?)] Hwf' Ht Hp Hlen Ho Hl. split; [|done|].
  - split; [done|by rewrite Ho|by rewrite Ho, Hl| |rewrite Ht; by eapply globals_ok_prefix].
    rewrite Ho, Ht. eapply Forall_impl; [exact Hr|]. intros o. unfold op_in_range.
    intros Hf. eapply Forall_impl; [exact Hf|]. cbv beta.
    destruct Hp as [k ->]. rewrite zlen_app. pose proof (zlen_nonneg k). lia.
  - unfold room. rewrite Ho, Hl, Ht. lia.
Qed.

Lemma good_len c ts n : good c ts n → NB_GLOBALS ≤ zlen ts.
Proof. intros [[] <- _]. by apply globals_ok_len. Qed.

Lemma good_new_temp c ts n ty :
  good c ts (S n) → ∃ c', new_temp c ty = (zlen ts, c') ∧ ops c' = ops c ∧ labels c' = labels c ∧
    good c' (temps c') n ∧ ts `prefix_of` temps c' ∧ zlen (temps c') = zlen ts + 1 ∧
    local_of (temps c') (zlen ts) ty.
Proof.
  intros Hg. pose proof Hg as [Hok Ht Hroom]. destruct Hroom as (Hr & _ & _).
  subst ts. pose proof (zlen_nonneg (temps c)). unfold new_temp. rewrite u32_small by lia.
  assert (zlen (temps c ++ [Temp.new_ebb (zlen (temps c)) ty]) = zlen (temps c) + 1) as Hlen
    by (by rewrite zlen_app, zlen_one).
  eexists. split; [done|]. simpl. split; [done|]. split; [done|]. split_and!.
  - eapply (ok_push_temps c); [done| |done| | |done..].
    + apply wf_push_local; [apply Hok|lia|done..].
    + by eexists.
    + lia.
  - by eexists.
  - done.
  - eexists. split; [apply zlookup_snoc|done].
Qed.

Lemma good_new_const c ts n ty v :
  good c ts (S n) → ∃ t c', new_const c ty v = (t, c') ∧ ops c' = ops c ∧ labels c' = labels c ∧
    good c' (temps c') n ∧ ts `prefix_of` temps c' ∧ zlen ts ≤ zlen (temps c') ≤ zlen ts + 1 ∧
    const_of (temps c') t v.
Proof.
  intros Hg. pose proof Hg as [Hok Ht Hroom]. destruct Hroom as (Hr & _ & _).
  pose proof (zlen_nonneg (temps c)).
  pose proof (wf_new_const c ty v (ok_wf _ Hok) ltac:(lia)) as Hwf'.
  subst ts. unfold new_const in *. destruct (const_table c !! _) as [i|] eqn:E.
  - eexists _, _. split; [done|]. split; [done|]. split; [done|].
    split; [by eapply good_mono, Hg; lia|]. split; [done|]. split; [lia|].
    destruct (wf_const_sound _ (ok_wf _ Hok) _ _ _ E) as (x & Hx & Hk & _ & Hv).
    exists x. split; [done|]. split; [|done]. unfold Temp.is_const. by rewrite Hk.
  - eexists _, _. split; [done|]. simpl in *. rewrite u32_small in * by lia.
    split; [done|]. split; [done|]. split; [|split_and!].
    + eapply (ok_push_temps c); [done|done|done|by eexists| |done..]. rewrite zlen_app, zlen_one. lia.
    + by eexists.
    + rewrite zlen_app, zlen_one. lia.
    + rewrite zlen_app, zlen_one. lia.
    + eexists. split; [apply zlookup_snoc|done].
Qed.

Lemma good_new_label c ts n :
  good c ts (S n) → ∃ c', new_label c = (zlen (labels c), c') ∧ ops c' = ops c ∧
    temps c' = temps c ∧ good c' ts n ∧ zlen (labels c') = zlen (labels c) + 1 ∧
    zlen (labels c) ∉ set_labels_of (ops c).
Proof.
  intros [[Hwf Hl1 Hl2 Hr Hg] Ht (Hr1 & Hr2 & Hr3)]. pose proof (zlen_nonneg (labels c)).
  unfold new_label. rewrite u32_small by lia.
  assert (zlen (labels c ++ [Label.new (zlen (labels c))]) = zlen (labels c) + 1) as Hlen
    by (by rewrite zlen_app, zlen_one).
  eexists. split; [done|]. simpl. split_and!; [done..| |done|].
  - split; [|done|unfold room; simpl; lia]. split; simpl; [|done| |done|done].
    + destruct Hwf as [(? & ? & ?) ? ? ? ? Hlab ? ?]. split; simpl; try done.
      * unfold fits. simpl. lia.
      * intros i l [?|[-> ->]]%zlookup_snoc_Some; [eauto|done].
    + eapply Forall_impl; [exact Hl2|]. cbv beta. lia.
  - intros Hin. rewrite Forall_forall in Hl2. apply Hl2 in Hin. lia.
Qed.

Lemma take_take_drop_app {A} (a k : list A) (p q : nat) :
  (p + q ≤ length a)%nat → take p (a ++ k) ++ take q (drop p (a ++ k)) = take (p + q) a.
Proof.
  intros. rewrite take_app_le by lia. rewrite drop_app_le by lia.
  rewrite take_app_le by (rewrite length_drop; lia). apply take_take_drop.
Qed.

(** Appending an op whose operands exist. *)
Lemma good_emit c ts n o ty a :
  good c ts (S n) → zlen a = nb_args (def o) →
  Forall (λ t, 0 ≤ t < zlen ts) (take (Z.to_nat (nb_oargs (def o) + nb_iargs (def o))) a) →
  (o = Opcode.SetLabel → ∃ l, a = [l] ∧ 0 ≤ l < zlen (labels c) ∧ l ∉ set_labels_of (ops c)) →
  let c' := (emit_op c (Op.with_args (next_op_idx c) o ty a)).2 in
  good c' ts n.
Proof.
  intros [[Hwf Hl1 Hl2 Hr Hg] Ht (Hr1 & Hr2 & Hr3)] Ha Hargs Hlab. cbv zeta.
  set (op := Op.with_args _ _ _ _).
  assert (set_labels_of [op] = [] ∨ ∃ l, set_labels_of [op] = [l] ∧ 0 ≤ l < zlen (labels c) ∧
    l ∉ set_labels_of (ops c)) as Hop.
  { destruct (decide (o = Opcode.SetLabel)) as [->|Hne].
    - right. destruct Hlab as (l & -> & ? & ?); [done|]. exists l. done.
    - left. unfold set_labels_of. simpl. by rewrite decide_False. }
  split; [|done|unfold room; simpl; rewrite zlen_app, zlen_one; lia].
  split; simpl.
  - apply wf_emit_op; [done|lia].
  - rewrite set_labels_of_app. destruct Hop as [->|(l & -> & ? & ?)]; [by rewrite app_nil_r|].
    apply NoDup_app. split_and!; [done| |apply NoDup_singleton]. set_solver.
  - rewrite set_labels_of_app, Forall_app. split; [done|].
    destruct Hop as [->|(l & -> & ? & ?)]; [constructor|by apply Forall_singleton].
  - rewrite Forall_app. split; [done|]. apply Forall_singleton. rewrite Ht. unfold op_in_range.
    eapply (Forall_impl (λ t, 0 ≤ t < zlen ts)); [|done].
    pose proof (nb_counts o) as (Hn1 & Hn2 & Hn3 & Hn4). unfold zlen in Ha.
    assert (length a ≤ 10)%nat as Hlen by lia.
    assert (Op.oargs op ++ Op.iargs op =
      take (Z.to_nat (nb_oargs (def o) + nb_iargs (def o))) a) as ->; [|done].
    assert (∃ k, Op.args op = a ++ k) as [k Hk].
    { unfold op, Op.with_args. cbn [Op.args]. rewrite Nat.min_l by lia. rewrite firstn_all. eauto. }
    unfold Op.oargs, Op.iargs, Op.slice. rewrite Hk. cbn [op Op.with_args Op.opc].
    unfold nb_args in *. rewrite drop_0, Z2Nat.inj_add, take_take_drop_app by lia.
    done.
  - by rewrite Ht in Hg |- *.
Qed.

(** ** The judgement *)

(** [self] knows where the guest state lives. *)
Definition self_ok (d : Dc.t) : Prop :=
  Dc.env d = 0 ∧ Dc.gpr d = seqZ 1 32 ∧ Dc.pc d = 33 ∧ Dc.load_res d = 34 ∧ Dc.load_val d = 35.

Section wp.
Variable host : Z → list Z → World.t → Z * World.t.
Variable envp : Z.
Let ext := fe_ext host.

(** The guest state a machine state stands for.  The guest pc is not part of it:
    within a block it is known statically. *)
Record repr (g : Guest.t) (s : state) : Prop := {
  repr_env : s.1 0 = envp;
  repr_xreg i : 1 ≤ i < 32 → s.1 (1 + i) = Guest.xreg g i;
  repr_width i : 1 ≤ i < 32 → in_width 64 (Guest.xreg g i);
  repr_res : s.1 34 = Guest.load_res g;
  repr_val : s.1 35 = Guest.load_val g;
  repr_world : s.2 = Guest.world g
}.

Definition wp {A} (m : M A) (d : Dc.t) (c : Context) (σ : state * ctl)
    (Q : A → Dc.t → Context → state * ctl → Prop) : Prop :=
  ∃ a d' c' os,
    m (d, c) = Some (a, (d', c')) ∧ ops c' = ops c ++ os ∧ temps c `prefix_of` temps c' ∧ ok c' ∧
    Q a d' c' (exec_seq ext (temps c') os σ).

Lemma ok_range_tail c os pre :
  ok c → ops c = pre ++ os → Forall (op_in_range (zlen (temps c))) os.
Proof. intros Hok Ho. pose proof (ok_range _ Hok) as Hr. rewrite Ho, Forall_app in Hr. apply Hr. Qed.

Lemma wp_bind {A B} (m : M A) (k : A → M B) d c σ Q :
  wp m d c σ (λ a d' c' σ', wp (k a) d' c' σ' Q) → wp (m ≫= k) d c σ Q.
Proof.
  intros (a & d1 & c1 & os1 & Hm & Ho1 & Hp1 & Hok1 & b & d2 & c2 & os2 & Hk & Ho2 & Hp2 & Hok2 & HQ).
  exists b, d2, c2, (os1 ++ os2). split_and!.
  - unfold mbind, M_bind. rewrite Hm. simpl. exact Hk.
  - by rewrite Ho2, Ho1, app_assoc.
  - by transitivity (temps c1).
  - done.
  - rewrite exec_seq_app. rewrite (exec_seq_prefix ext (temps c1) (temps c2) os1); [done..|].
    by apply (ok_range_tail _ _ (ops c)).
Qed.

Lemma wp_mono {A} (m : M A) d c σ (Q Q' : A → Dc.t → Context → state * ctl → Prop) :
  (∀ a d c σ, Q a d c σ → Q' a d c σ) → wp m d c σ Q → wp m d c σ Q'.
Proof. intros HQ (a & d1 & c1 & os & ? & ? & ? & ? & ?). exists a, d1, c1, os. eauto 10. Qed.

Lemma wp_nop {A} (m : M A) a d d' c σ (Q : A → Dc.t → Context → state * ctl → Prop) :
  ok c → m (d, c) = Some (a, (d', c)) → Q a d' c σ → wp m d c σ Q.
Proof. intros. exists a, d', c, []. by rewrite app_nil_r. Qed.

Lemma wp_ret {A} (a : A) d c ts n σ (Q : A → Dc.t → Context → state * ctl → Prop) :
  good c ts n → Q a d c σ → wp (mret a) d c σ Q.
Proof. intros [? _ _] ?. by eapply wp_nop. Qed.

Lemma wp_get_self d c ts n σ (Q : Dc.t → Dc.t → Context → state * ctl → Prop) :
  good c ts n → Q d d c σ → wp get_self d c σ Q.
Proof. intros [? _ _] ?. by eapply wp_nop. Qed.

(** A label that is not set yet. *)
Definition fresh_label (c : Context) (l : Z) : Prop :=
  0 ≤ l < zlen (labels c) ∧ l ∉ set_labels_of (ops c).

Lemma wp_new_temp ty d c ts n σ (Q : Z → Dc.t → Context → state * ctl → Prop) :
  good c ts (S n) →
  (∀ c' ts', good c' ts' n → ts `prefix_of` ts' → zlen ts' = zlen ts + 1 →
     local_of ts' (zlen ts) ty → (∀ l, fresh_label c l → fresh_label c' l) → Q (zlen ts) d c' σ) →
  wp (ir (λ k, new_temp k ty)) d c σ Q.
Proof.
  intros Hg HQ. destruct (good_new_temp _ _ _ ty Hg) as (c' & Hn & Ho & Hlab & Hg' & Hp & Hl & Hloc).
  exists (zlen ts), d, c', []. unfold ir. rewrite Hn, Ho, app_nil_r.
  split; [done|]. split; [done|]. split; [by rewrite (good_temps _ _ _ Hg)|].
  split; [apply Hg'|]. simpl. eapply HQ; [done..|]. unfold fresh_label. by rewrite Ho, Hlab.
Qed.

Lemma wp_new_const ty v d c ts n σ (Q : Z → Dc.t → Context → state * ctl → Prop) :
  good c ts (S n) →
  (∀ t c' ts', good c' ts' n → ts `prefix_of` ts' → zlen ts ≤ zlen ts' → const_of ts' t v →
     (∀ l, fresh_label c l → fresh_label c' l) → Q t d c' σ) →
  wp (ir (λ k, new_const k ty v)) d c σ Q.
Proof.
  intros Hg HQ.
  destruct (good_new_const _ _ _ ty v Hg) as (t & c' & Hn & Ho & Hlab & Hg' & Hp & Hl & Hc).
  exists t, d, c', []. unfold ir. rewrite Hn, Ho, app_nil_r.
  split; [done|]. split; [done|]. split; [by rewrite (good_temps _ _ _ Hg)|].
  split; [apply Hg'|]. simpl. eapply HQ; [done..|lia|done|]. unfold fresh_label. by rewrite Ho, Hlab.
Qed.

Lemma wp_new_label d c ts n σ (Q : Z → Dc.t → Context → state * ctl → Prop) :
  good c ts (S n) →
  (∀ l c', good c' ts n → fresh_label c' l → Q l d c' σ) →
  wp (ir new_label) d c σ Q.
Proof.
  intros Hg HQ. destruct (good_new_label _ _ _ Hg) as (c' & Hn & Ho & Ht & Hg' & Hl & Hfresh).
  pose proof (zlen_nonneg (labels c)).
  exists (zlen (labels c)), d, c', []. unfold ir. rewrite Hn, Ho, app_nil_r.
  split; [done|]. split; [done|]. split; [by rewrite Ht|]. split; [apply Hg'|].
  simpl. apply HQ; [done|]. split; [lia|]. by rewrite Ho.
Qed.

Lemma exec_op_with_args ts i o ty outs ins cs s :
  zlen outs = nb_oargs (def o) → zlen ins = nb_iargs (def o) → zlen cs = nb_cargs (def o) →
  exec_op ext ts (Op.with_args i o ty (outs ++ ins ++ cs)) s =
  exec ext ts o ty outs (rd ts s.1 <$> ins) cs s.
Proof.
  intros H1 H2 H3. pose proof (nb_counts o) as (_ & _ & _ & Hn). unfold zlen in *.
  assert (∃ k, Op.args (Op.with_args i o ty (outs ++ ins ++ cs)) = outs ++ ins ++ cs ++ k)
    as [k Hk].
  { unfold Op.with_args. cbn [Op.args]. unfold nb_args in Hn.
    rewrite Nat.min_l by (rewrite !length_app; lia). rewrite firstn_all, <- !app_assoc. eauto. }
  unfold exec_op, Op.oargs, Op.iargs, Op.cargs, Op.slice. rewrite Hk.
  cbn [Op.with_args Op.opc Op.op_type]. rewrite <- H1, <- H2, <- H3.
  rewrite Z2Nat.inj_add, !Nat2Z.id by lia. change (Z.to_nat 0) with 0%nat. rewrite drop_0.
  rewrite take_app_length, drop_app_length, take_app_length.
  rewrite <- drop_drop, !drop_app_length, take_app_length. done.
Qed.

(** An op, executed. *)
Lemma wp_emit {B} (m : M B) r o ty outs ins vs cs d c ts n e w s1 k1
    (Q : B → Dc.t → Context → state * ctl → Prop) :
  m (d, c) = Some (r, (d, (emit_op c (Op.with_args (next_op_idx c) o ty (outs ++ ins ++ cs))).2)) →
  good c ts (S n) →
  zlen outs = nb_oargs (def o) → zlen ins = nb_iargs (def o) → zlen cs = nb_cargs (def o) →
  o ≠ Opcode.SetLabel → Forall (λ t, ∃ ty, local_of ts t ty) outs → all_hold ts e ins vs →
  exec ext ts o ty outs vs cs (e, w) = (s1, k1) →
  (∀ c', good c' ts n → (∀ l, fresh_label c l → fresh_label c' l) → Q r d c' (s1, k1)) →
  wp m d c ((e, w), Next) Q.
Proof.
  intros Hm Hg Ho Hi Hc Hne Houts Hins Hx HQ.
  pose proof (good_emit c ts n o ty (outs ++ ins ++ cs) Hg) as Hg'. cbv zeta in Hg'.
  set (c' := (emit_op c _).2) in *.
  assert (good c' ts n) as Hgood.
  { apply Hg'; [unfold nb_args; rewrite !zlen_app; lia| |done].
    unfold zlen in *. rewrite app_assoc, take_app_length'
      by (rewrite length_app; lia). apply Forall_app. split.
    - eapply Forall_impl; [exact Houts|]. intros t (? & x & Hx1 & _). by eapply zlookup_lt_Some.
    - by eapply all_hold_range. }
  exists r, d, c', [Op.with_args (next_op_idx c) o ty (outs ++ ins ++ cs)].
  split; [exact Hm|]. split; [done|]. split; [done|]. split; [apply Hgood|].
  cbn [exec_seq fold_left exec_one snd fst]. change (temps c') with (temps c).
  rewrite (good_temps _ _ _ Hg), exec_op_with_args by done. cbn [fst].
  rewrite (all_hold_rd _ _ _ _ Hins), Hx. apply HQ; [done|].
  intros l [? Hl]. split; [done|]. unfold c'. simpl. rewrite set_labels_of_app.
  unfold set_labels_of at 2. simpl. rewrite decide_False by done. simpl.
  rewrite app_nil_r. done.
Qed.

(** An op, skipped over or behind the end. *)
Lemma wp_skip {B} (m : M B) r o ty outs ins cs d c ts n s k
    (Q : B → Dc.t → Context → state * ctl → Prop) :
  m (d, c) = Some (r, (d, (emit_op c (Op.with_args (next_op_idx c) o ty (outs ++ ins ++ cs))).2)) →
  good c ts (S n) →
  zlen outs = nb_oargs (def o) → zlen ins = nb_iargs (def o) → zlen cs = nb_cargs (def o) →
  o ≠ Opcode.SetLabel → Forall (λ t, 0 ≤ t < zlen ts) (outs ++ ins) → k ≠ Next →
  (∀ c', good c' ts n → (∀ l, fresh_label c l → fresh_label c' l) → Q r d c' (s, k)) →
  wp m d c (s, k) Q.
Proof.
  intros Hm Hg Ho Hi Hc Hne Hargs Hk HQ.
  pose proof (good_emit c ts n o ty (outs ++ ins ++ cs) Hg) as Hg'. cbv zeta in Hg'.
  set (c' := (emit_op c _).2) in *.
  assert (good c' ts n) as Hgood.
  { apply Hg'; [unfold nb_args; rewrite !zlen_app; lia| |done].
    unfold zlen in *. rewrite app_assoc, take_app_length' by (rewrite length_app; lia). done. }
  exists r, d, c', [Op.with_args (next_op_idx c) o ty (outs ++ ins ++ cs)].
  split; [exact Hm|]. split; [done|]. split; [done|]. split; [apply Hgood|].
  assert (exec_one ext (temps c') (Op.with_args (next_op_idx c) o ty (outs ++ ins ++ cs)) (s, k)
    = (s, k)) as Hx.
  { unfold exec_one. destruct k as [|l|v]; [done| |done]. cbn [snd].
    destruct (is_set_label _ _) eqn:E; [|done]. apply is_set_label_iff in E as [E _].
    exfalso. by apply Hne. }
  unfold exec_seq. cbn [fold_left]. rewrite Hx. apply HQ; [done|].
  intros l [? Hl]. split; [done|]. unfold c'. simpl. rewrite set_labels_of_app.
  unfold set_labels_of at 2. simpl. rewrite decide_False by done. simpl.
  rewrite app_nil_r. done.
Qed.

(** Setting a label catches the jumps to it. *)
Lemma wp_set_label l d c ts n s k (Q : () → Dc.t → Context → state * ctl → Prop) :
  good c ts (S n) → fresh_label c l →
  (∀ c', good c' ts n →
     Q tt d c' (s, match k with Jump l' => if l' =? l then Next else k | _ => k end)) →
  wp (ir_ (λ k, gen_set_label k l)) d c (s, k) Q.
Proof.
  intros Hg [Hl Hfresh] HQ.
  assert (good (gen_set_label c l) ts n) as Hgood.
  { unfold gen_set_label, carg. apply (good_emit c ts n Opcode.SetLabel Type_.I64 [l]);
      [done|done|constructor|intros _; by exists l]. }
  exists tt, d, (gen_set_label c l), [Op.with_args (next_op_idx c) Opcode.SetLabel Type_.I64 [l]].
  split; [done|]. split; [done|]. split; [done|]. split; [apply Hgood|].
  assert (exec_one ext (temps (gen_set_label c l))
      (Op.with_args (next_op_idx c) Opcode.SetLabel Type_.I64 [l]) (s, k) =
    (s, match k with Jump l' => if l' =? l then Next else k | _ => k end)) as Hx.
  { unfold exec_one. destruct k as [|l'|v]; cbn [snd fst]; [done| |done].
    destruct (is_set_label _ _) eqn:E, (Z.eqb_spec l' l) as [->|Hne]; try done; exfalso.
    - apply is_set_label_iff in E as [_ E].
      assert ([l] = [l']) by exact E. congruence.
    - apply not_true_iff_false in E. apply E, is_set_label_iff. done. }
  unfold exec_seq. cbn [fold_left]. rewrite Hx. by apply HQ.
Qed.
End wp.
