(* ===== verification/RiscvRules.v ===== *)
(** * Rules and automation for translated instructions

    What the [wp] of RiscvWp.v gives for the operand accesses of RiscvGen.v and for
    the ops that leave the block; the tactics that run a translation function
    symbolically ([wp_auto] and the [*_step]s); the arithmetic of the division
    sequences; and what an instruction starts from and ends in ([starts], [falls],
    [leaves]). *)

From S2P Require Import Prelude Types Opcodes Ir Builder IrSem Tb Frontend RiscvCpu RiscvGen.
From S2P Require Import RiscvTrans RiscvSem RiscvWp.

Lemma cond_decode_discr c : cond_decode (carg (Cond.discr c)) = Some c.
Proof. by destruct c. Qed.

(** ** Updating the machine state *)

(** A known value: a fact about a local or a constant. *)
Ltac find_holds := first [eassumption | eapply holds_const; eassumption].
Ltac solve_all_hold :=
  repeat (apply list.Forall2_cons_2; [find_holds|]); apply list.Forall2_nil_2.

Lemma repr_wr envp g ts e w d v : NB_GLOBALS ≤ d → repr envp g (e, w) → repr envp g (wr ts e d v, w).
Proof.
  unfold NB_GLOBALS. intros Hd [H1 H2 H3 H4 H5 H6]. simpl in *.
  assert (∀ t, t < 36 → wr ts e d v t = e t) as Hne.
  { intros t Ht. unfold wr. destruct (ts.[d]); [|done].
    by assert ((t =? d) = false) as -> by (apply Z.eqb_neq; lia). }
  split; simpl; try (intros; rewrite Hne by lia); auto.
Qed.

Lemma wr_local ts e d v ty t :
  local_of ts d ty → wr ts e d v t = if t =? d then v mod 2 ^ Type_.size_bits ty else e t.
Proof. intros (x & Hx & <- & _). unfold wr. by rewrite Hx. Qed.

Lemma global_local ts i : globals_ok ts → 0 ≤ i < NB_GLOBALS → local_of ts i Type_.I64.
Proof. intros Hg Hi. destruct (Hg i Hi) as (t & ? & ? & ?). by exists t. Qed.

Lemma repr_set_x envp g ts e w i v :
  globals_ok ts → 1 ≤ i < 32 → repr envp g (e, w) →
  repr envp (set_x i (u64 v) g) (wr ts e (1 + i) v, w).
Proof.
  intros Hg Hi [H1 H2 H3 H4 H5 H6]. simpl in *.
  pose proof (global_local ts (1 + i) Hg ltac:(unfold NB_GLOBALS; lia)) as Hl.
  assert ((i =? 0) = false) as Hi0 by (apply Z.eqb_neq; lia).
  unfold set_x. rewrite Hi0.
  split; simpl; rewrite ?(wr_local _ _ _ _ _ _ Hl); try done.
  - assert ((0 =? 1 + i) = false) as -> by (apply Z.eqb_neq; lia). done.
  - intros j Hj. rewrite (wr_local _ _ _ _ _ _ Hl).
    destruct (Z.eqb_spec (1 + j) (1 + i)), (Z.eqb_spec j i); try lia; [done|auto].
  - intros j Hj. destruct (j =? i); [|auto]. apply mod_in_width. lia.
  - assert ((34 =? 1 + i) = false) as -> by (apply Z.eqb_neq; lia). done.
  - assert ((35 =? 1 + i) = false) as -> by (apply Z.eqb_neq; lia). done.
Qed.

Lemma repr_set_world envp g e w w' : repr envp g (e, w) → repr envp (set_world w' g) (e, w').
Proof. by intros []. Qed.

Lemma x_in_width envp g s i : repr envp g s → 0 ≤ i < 32 → in_width 64 (x g i).
Proof.
  intros Hr Hi. unfold x. destruct (Z.eqb_spec i 0); [done|]. apply (repr_width _ _ _ Hr). lia.
Qed.

Section rules.
Variable host : Z → list Z → World.t → Z * World.t.
Variable envp : Z.
Let ext := fe_ext host.

(** ** Operand access *)

(** A value a later op may read: its temp is older than the temps to come. *)
Lemma wp_gpr_or_zero i g d c ts n e w (Q : Z → Dc.t → Context → state * ctl → Prop) :
  good c ts (S n) → self_ok d → 0 ≤ i < 32 → repr envp g (e, w) →
  (∀ t c' ts', good c' ts' n → ts `prefix_of` ts' → zlen ts ≤ zlen ts' →
     holds ts' e t (x g i) → 0 ≤ t < zlen ts' → Q t d c' ((e, w), Next)) →
  wp host (gpr_or_zero i) d c ((e, w), Next) Q.
Proof.
  intros Hg Hself Hi Hr HQ. unfold gpr_or_zero, x in *. destruct (Z.eqb_spec i 0) as [->|Hne].
  - eapply wp_new_const; [done|]. intros t c' ts' Hg' Hp Hl Hc _.
    pose proof (holds_const ts' e t 0 Hc) as Hh. eapply HQ; [done..|apply Hh].
  - pose proof Hg as [Hok Ht _]. destruct Hself as (_ & Hgpr & _).
    eapply wp_nop; [apply Hok| |].
    { unfold gpr_at. cbn [fst]. rewrite Hgpr.
      assert ((seqZ 1 32).[i] = Some (1 + i)) as ->; [|reflexivity].
      rewrite zlookup_nat by lia. rewrite lookup_seqZ. lia. }
    assert (holds ts e (1 + i) (Guest.xreg g i)) as Hh.
    { pose proof (good_len _ _ _ Hg) as Hl. unfold NB_GLOBALS in Hl. split; [lia|].
      destruct (global_local ts (1 + i)) as (y & Hy & _ & Hc); [by rewrite <- Ht; apply Hok|
        unfold NB_GLOBALS; lia|].
      unfold rd. rewrite Hy, Hc. apply (repr_xreg _ _ _ Hr). lia. }
    eapply (HQ _ c ts); [by eapply good_mono, Hg; lia|done|done|apply Hh|apply Hh].
Qed.

(** A write of a global keeps what is known of the other temps. *)
Definition keeps (ts : list Temp.t) (e e' : env) : Prop :=
  ∀ u v, NB_GLOBALS ≤ u → holds ts e u v → holds ts e' u v.

(** Writing a register: moving a value into its global. *)
Lemma wp_mov_gpr o ty i g t v v' d c ts n e w (Q : Z → Dc.t → Context → state * ctl → Prop)
    (b : Context → Z * Context) :
  (∀ k, b k = emit_unary k o ty (1 + i) t) → (nb_oargs (def o), nb_iargs (def o), nb_cargs (def o)) = (1, 1, 0) →
  o ≠ Opcode.SetLabel → spec_unary o (Type_.size_bits ty) v = Some v' →
  good c ts (S n) → 1 ≤ i < 32 → repr envp g (e, w) → holds ts e t v →
  (∀ c' e', good c' ts n → keeps ts e e' → repr envp (set_x i (u64 v') g) (e', w) →
     Q (1 + i) d c' ((e', w), Next)) →
  wp host (ir b) d c ((e, w), Next) Q.
Proof.
  intros Hb Hn Hne Hs Hg Hi Hr Hh HQ. injection Hn as Hn1 Hn2 Hn3.
  assert (globals_ok ts) as Hgl by (destruct Hg as [[] <- _]; done).
  eapply (wp_emit host _ (1 + i) o ty [1 + i] [t] [v] []);
    [unfold ir; by rewrite Hb|done|by rewrite Hn1|by rewrite Hn2|by rewrite Hn3|done| |solve_all_hold|
     by apply exec_unary|].
  - constructor; [|constructor]. eexists. apply global_local; [done|unfold NB_GLOBALS; lia].
  - intros c' Hg' _. apply HQ; [done| |by apply repr_set_x].
    intros u v1 Hu. apply holds_wr_ne. unfold NB_GLOBALS in Hu. lia.
Qed.

Lemma wp_set_gpr_of i g t v d c ts n e w (Q : () → Dc.t → Context → state * ctl → Prop) :
  good c ts (S n) → self_ok d → 0 ≤ i < 32 → repr envp g (e, w) → holds ts e t v →
  (∀ c' e', good c' ts n → keeps ts e e' → repr envp (set_x i (u64 v) g) (e', w) →
     Q tt d c' ((e', w), Next)) →
  wp host (gen_set_gpr i t) d c ((e, w), Next) Q.
Proof.
  intros Hg Hself Hi Hr Hh HQ. unfold gen_set_gpr. destruct (Z.eqb_spec i 0) as [->|Hne]; cbn [negb].
  { eapply wp_ret; [done|]. apply HQ; [by eapply good_mono, Hg; lia|by intros ?|done]. }
  assert (∀ st, Dc.gpr st = Dc.gpr d → (Dc.gpr st).[i] = Some (1 + i)) as Hreg.
  { intros st ->. destruct Hself as (_ & -> & _). rewrite zlookup_nat by lia. rewrite lookup_seqZ. lia. }
  apply wp_bind, wp_bind. eapply wp_nop; [apply Hg|unfold gpr_at; cbn [fst]; by rewrite Hreg|].
  eapply (wp_mov_gpr Opcode.Mov Type_.I64 i g t v);
    [done|done|done|reflexivity|done|lia|done|done|].
  intros c' e' Hg' Hk Hr'. eapply wp_ret; [done|]. apply HQ; [done|done|].
  cbn [Type_.size_bits] in Hr'. unfold u64 in Hr' |- *. by rewrite Zmod_mod in Hr'.
Qed.

Lemma wp_set_gpr_sx32_of i g t v d c ts n e w (Q : () → Dc.t → Context → state * ctl → Prop) :
  good c ts (S n) → self_ok d → 0 ≤ i < 32 → repr envp g (e, w) → holds ts e t v →
  (∀ c' e', good c' ts n → keeps ts e e' → repr envp (set_x i (sext32 v) g) (e', w) →
     Q tt d c' ((e', w), Next)) →
  wp host (gen_set_gpr_sx32 i t) d c ((e, w), Next) Q.
Proof.
  intros Hg Hself Hi Hr Hh HQ. unfold gen_set_gpr_sx32.
  destruct (Z.eqb_spec i 0) as [->|Hne]; cbn [negb].
  { eapply wp_ret; [done|]. apply HQ; [by eapply good_mono, Hg; lia|by intros ?|done]. }
  assert (∀ st, Dc.gpr st = Dc.gpr d → (Dc.gpr st).[i] = Some (1 + i)) as Hreg.
  { intros st ->. destruct Hself as (_ & -> & _). rewrite zlookup_nat by lia. rewrite lookup_seqZ. lia. }
  apply wp_bind, wp_bind. eapply wp_nop; [apply Hg|unfold gpr_at; cbn [fst]; by rewrite Hreg|].
  eapply (wp_mov_gpr Opcode.ExtI32I64 Type_.I64 i g t v);
    [done|done|done|reflexivity|done|lia|done|done|].
  intros c' e' Hg' Hk Hr'. eapply wp_ret; [done|]. apply HQ; [done|done|].
  cbn [Type_.size_bits] in Hr'. unfold sext32, i32. unfold u64 in Hr' |- *. by rewrite Zmod_mod in Hr'.
Qed.
Lemma repr_set_global g ts e w i v :
  globals_ok ts → i = 34 ∨ i = 35 → in_width 64 v → repr envp g (e, w) →
  repr envp (if i =? 34 then set_reservation v (Guest.load_val g) g
             else set_reservation (Guest.load_res g) v g) (wr ts e i v, w).
Proof.
  intros Hg Hi Hv [H1 H2 H3 H4 H5 H6]. simpl in *.
  pose proof (global_local ts i Hg ltac:(unfold NB_GLOBALS; lia)) as Hl.
  assert (wr ts e i v i = v) as Hi' by
    (rewrite (wr_local _ _ _ _ _ _ Hl), Z.eqb_refl; by apply mod_small_width).
  assert (∀ t, t ≠ i → wr ts e i v t = e t) as Hne by
    (intros t Ht; rewrite (wr_local _ _ _ _ _ _ Hl), (proj2 (Z.eqb_neq _ _)) by done; done).
  split; simpl; destruct Hi as [-> | ->]; simpl; try done;
    try (intros; rewrite Hne by lia; by auto); by rewrite Hne.
Qed.

(** Moving a value into a reservation global. *)
Lemma wp_mov_reservation i g t v d c ts n e w (Q : Z → Dc.t → Context → state * ctl → Prop) :
  good c ts (S n) → i = 34 ∨ i = 35 → in_width 64 v → repr envp g (e, w) → holds ts e t v →
  (∀ c' e', good c' ts n → (∀ u v, u ≠ i → holds ts e u v → holds ts e' u v) →
     repr envp (if i =? 34 then set_reservation v (Guest.load_val g) g
                else set_reservation (Guest.load_res g) v g) (e', w) →
     Q i d c' ((e', w), Next)) →
  wp host (ir (λ k, gen_mov k Type_.I64 i t)) d c ((e, w), Next) Q.
Proof.
  intros Hg Hi Hv Hr Hh HQ. assert (globals_ok ts) as Hgl by (destruct Hg as [[] <- _]; done).
  pose proof (global_local ts i Hgl ltac:(unfold NB_GLOBALS; lia)) as Hl.
  eapply (wp_emit host _ i Opcode.Mov Type_.I64 [i] [t] [v] []);
    [done|done|done|done|done|done| |solve_all_hold|by apply exec_unary|].
  - constructor; [|constructor]. by eexists.
  - intros c' Hg' _. cbn [fst snd Type_.size_bits]. rewrite (mod_small_width 64 v) by done.
    apply HQ; [done| |by apply repr_set_global].
    intros u v' Hu. by apply holds_wr_ne.
Qed.
(** Moving a value into the guest pc. *)
Lemma wp_mov_pc g t v d c ts n e w (Q : Z → Dc.t → Context → state * ctl → Prop) :
  good c ts (S n) → repr envp g (e, w) → holds ts e t v →
  (∀ c' e', good c' ts n → (∀ l, fresh_label c l → fresh_label c' l) → keeps ts e e' →
     repr envp g (e', w) → e' 33 = u64 v → Q 33 d c' ((e', w), Next)) →
  wp host (ir (λ k, gen_mov k Type_.I64 33 t)) d c ((e, w), Next) Q.
Proof.
  intros Hg Hr Hh HQ. assert (globals_ok ts) as Hgl by (destruct Hg as [[] <- _]; done).
  pose proof (global_local ts 33 Hgl ltac:(unfold NB_GLOBALS; lia)) as Hl.
  eapply (wp_emit host _ 33 Opcode.Mov Type_.I64 [33] [t] [v] []);
    [done|done|done|done|done|done| |solve_all_hold|by apply exec_unary|].
  - constructor; [|constructor]. by eexists.
  - intros c' Hg' Hf. cbn [fst snd Type_.size_bits]. apply HQ; [done|done| | |].
    + intros u v1 Hu. apply holds_wr_ne. unfold NB_GLOBALS in Hu. lia.
    + assert (∀ t, t ≠ 33 → wr ts e 33 (v mod 2 ^ 64) t = e t) as Hne by
        (intros u Hu; rewrite (wr_local _ _ _ _ _ _ Hl), (proj2 (Z.eqb_neq _ _)) by done; done).
      destruct Hr. split; simpl in *; try (intros; rewrite Hne by lia); auto.
    + rewrite (wr_local _ _ _ _ _ _ Hl), Z.eqb_refl. apply Zmod_mod.
Qed.

Lemma wp_exit_tb v d c ts n s (Q : () → Dc.t → Context → state * ctl → Prop) :
  good c ts (S n) →
  (∀ c', good c' ts n → (∀ l, fresh_label c l → fresh_label c' l) →
     Q tt d c' (s, Leave (u32 v))) →
  wp host (ir_ (λ k, gen_exit_tb k v)) d c (s, Next) Q.
Proof.
  intros Hg HQ. destruct s as [e w].
  by eapply (wp_emit host _ tt Opcode.ExitTb Type_.I64 [] [] [] [carg (u32 v)]);
    [done|done|done|done|done|done|constructor|solve_all_hold|reflexivity|].
Qed.

Lemma wp_brcond ty a b va vb cd l d c ts n e w (Q : () → Dc.t → Context → state * ctl → Prop) :
  good c ts (S n) → holds ts e a va → holds ts e b vb →
  (∀ c', good c' ts n → (∀ l, fresh_label c l → fresh_label c' l) →
     Q tt d c' ((e, w), if Cond.holds cd (Type_.size_bits ty) va vb then Jump l else Next)) →
  wp host (ir_ (λ k, gen_brcond k ty a b cd l)) d c ((e, w), Next) Q.
Proof.
  intros Hg Ha Hb HQ.
  eapply (wp_emit host _ tt Opcode.BrCond ty [] [a; b] [va; vb] [carg (Cond.discr cd); carg l]);
    [done|done|done|done|done|done|constructor|solve_all_hold| |exact HQ].
  cbn [exec]. by rewrite cond_decode_discr.
Qed.

(** An instruction of an extension. *)
Lemma wp_require_ext x m d c ts n σ (Q : bool → Dc.t → Context → state * ctl → Prop) :
  good c ts n →
  (if MisaExt.contains (RiscvCfg.misa (Dc.cfg d)) x then wp host m d c σ Q else Q false d c σ) →
  wp host (require_ext x m) d c σ Q.
Proof.
  intros Hg Hm. unfold require_ext. apply wp_bind. eapply wp_get_self; [done|].
  destruct (MisaExt.contains _ _); [done|]. by eapply wp_ret.
Qed.

Lemma wp_require_cfg fl m d c ts n σ (Q : bool → Dc.t → Context → state * ctl → Prop) :
  good c ts n → (if fl (Dc.cfg d) : bool then wp host m d c σ Q else Q false d c σ) →
  wp host (require_cfg fl m) d c σ Q.
Proof.
  intros Hg Hm. unfold require_cfg. apply wp_bind. eapply wp_get_self; [done|].
  destruct (fl _); [done|]. by eapply wp_ret.
Qed.

Lemma wp_set_is_jmp j d c ts n σ (Q : () → Dc.t → Context → state * ctl → Prop) :
  good c ts n → Q tt (Dc.set_base d (DisasContextBase.set_is_jmp (Dc.base d) j)) c σ →
  wp host (set_is_jmp j) d c σ Q.
Proof. intros [? _ _] ?. by eapply wp_nop. Qed.
End rules.

(** ** Automation *)

(** Carry what is known over to a longer table of temps. *)
Ltac to_prefix Hp :=
  lazymatch type of Hp with
  | ?ts `prefix_of` _ =>
      repeat match goal with
      | H : holds ts _ _ _ |- _ => apply (holds_prefix _ _ _ _ _ Hp) in H
      | H : local_of ts _ _ |- _ => apply (local_of_prefix _ _ _ _ Hp) in H
      | H : const_of ts _ _ |- _ => apply (const_of_prefix _ _ _ _ Hp) in H
      end; clear Hp
  end.

(** Labels that are still to be set. *)
Ltac keep_fresh Hf :=
  repeat match goal with
  | H : fresh_label ?c _ |- _ =>
      lazymatch type of Hf with context [fresh_label c _ → _] => apply Hf in H end
  end; clear Hf.

(** Name the values after a write and carry over what is known of the others. *)
Ltac upd_env :=
  repeat match goal with
  | |- context [wr ?ts ?e ?t ?v] =>
      is_var e;
      repeat match goal with
      | H : holds ts e ?u _ |- _ =>
          first [apply (holds_wr_ne ts e t v) in H; [|unfold NB_GLOBALS in *; lia] | clear H]
      end;
      lazymatch goal with
      | Hl : local_of ts t _ |- _ => pose proof (holds_wr_eq ts e t v _ Hl)
      end;
      lazymatch goal with
      | H : repr _ _ (e, _) |- _ =>
          apply (repr_wr _ _ ts e _ t v) in H; [|unfold NB_GLOBALS in *; lia]
      | _ => idtac
      end;
      let e' := fresh "e" in
      set (e' := wr ts e t v) in *; clearbody e'; try clear e
  end;
  try lazymatch goal with
  | H : repr _ _ (?e, ?w) |- context [(?e, ?w', Next)] =>
      tryif constr_eq w w' then idtac else apply (repr_set_world _ _ _ _ w') in H
  end;
  cbn [Type_.size_bits] in *.

Ltac solve_locals := repeat (apply Forall_cons; split; [eexists; eassumption|]); apply Forall_nil_2.

Ltac spec_hyp :=
  match goal with H : ∀ a b, spec_binary ?o _ a b = Some _ |- spec_binary ?o _ _ _ = _ => apply H end.

Ltac exec_int := etransitivity; [first [apply exec_binary | apply exec_unary]; first [reflexivity|spec_hyp]
                               |cbn [fst snd]; reflexivity].

Ltac exec_fx :=
  cbn [exec exec_ext fe_ext spec_unary spec_binary fst snd];
  rewrite ?cond_decode_discr;
  cbn [exec_ext fe_ext wr_all combine fold_left fst snd Type_.size_bits]; reflexivity.

(** Arity of an op, known or assumed. *)
Ltac side_cond := first [reflexivity | discriminate | assumption | symmetry; assumption].

Ltac emit_step o ty outs ins cs tac :=
  match goal with
  | Hg : good ?c ?ts _ |- _ =>
      eapply (wp_emit _ _ _ o ty outs ins _ cs);
      [reflexivity|exact Hg|side_cond|side_cond|side_cond|side_cond
      |solve_locals|solve_all_hold|tac|];
      let c' := fresh "c" in
      let Hg' := fresh "Hg" in
      let Hf := fresh "Hf" in
      intros c' Hg' Hf;
      keep_fresh Hf; clear Hg; try clear c; upd_env
  end.

Ltac new_temp_step :=
  match goal with
  | Hg : good ?c ?ts _ |- _ =>
      eapply wp_new_temp; [exact Hg|];
      let c' := fresh "c" in
      let ts' := fresh "ts" in
      let Hg' := fresh "Hg" in
      let Hp := fresh "Hp" in
      let Hl := fresh "Hl" in
      let Ht := fresh "Ht" in
      let Hf := fresh "Hf" in
      intros c' ts' Hg' Hp Hl Ht Hf; to_prefix Hp; keep_fresh Hf; clear Hg; try clear c
  end.

Ltac new_const_step :=
  match goal with
  | Hg : good ?c ?ts _ |- _ =>
      eapply wp_new_const; [exact Hg|];
      let t := fresh "t" in
      let c' := fresh "c" in
      let ts' := fresh "ts" in
      let Hg' := fresh "Hg" in
      let Hp := fresh "Hp" in
      let Hl := fresh "Hl" in
      let Ht := fresh "Ht" in
      let Hf := fresh "Hf" in
      intros t c' ts' Hg' Hp Hl Ht Hf; to_prefix Hp; keep_fresh Hf; clear Hg; try clear c
  end.

Ltac gpr_step :=
  match goal with
  | Hg : good ?c ?ts _, Hr : repr _ ?g _ |- wp _ (gpr_or_zero ?i) _ _ _ _ =>
      eapply (wp_gpr_or_zero _ _ i g); [exact Hg|eassumption|eassumption|exact Hr|];
      let t := fresh "t" in
      let c' := fresh "c" in
      let ts' := fresh "ts" in
      let Hg' := fresh "Hg" in
      let Hp := fresh "Hp" in
      let Hl := fresh "Hl" in
      let Hh := fresh "Hh" in
      let Hb := fresh "Hb" in
      intros t c' ts' Hg' Hp Hl Hh Hb; to_prefix Hp; clear Hg; try clear c
  end.

(** Carry what is known over a write of a global. *)
Ltac keep_temps ts e' Hk :=
  repeat match goal with
  | H : holds ts _ _ _ |- _ => apply Hk in H; [|unfold NB_GLOBALS in *; lia]
  end;
  repeat match goal with H : holds _ ?e _ _ |- _ => tryif constr_eq e e' then fail else clear H end;
  clear Hk.

Ltac set_gpr_step :=
  match goal with
  | Hg : good ?c ?ts _, Hr : repr _ ?g _ |- wp _ ?m _ _ _ _ =>
      lazymatch m with
      | gen_set_gpr ?i ?t =>
          eapply (wp_set_gpr_of _ _ i g t); [exact Hg|eassumption|eassumption|exact Hr|find_holds|]
      | gen_set_gpr_sx32 ?i ?t =>
          eapply (wp_set_gpr_sx32_of _ _ i g t); [exact Hg|eassumption|eassumption|exact Hr|find_holds|]
      end;
      let c' := fresh "c" in
      let e' := fresh "e" in
      let Hg' := fresh "Hg" in
      let Hk := fresh "Hk" in
      let Hr' := fresh "Hr" in
      intros c' e' Hg' Hk Hr'; keep_temps ts e' Hk; clear Hg Hr; try clear c
  end.

Ltac reservation_step tac :=
  match goal with
  | Hg : good ?c ?ts _, Hr : repr _ ?g _, Hself : self_ok ?d
    |- wp _ (ir (λ k, gen_mov k _ (?f ?d) ?t)) _ _ _ _ =>
      let i := lazymatch f with Dc.load_res => constr:(34) | Dc.load_val => constr:(35) end in
      replace (f d) with i by (symmetry; apply Hself);
      eapply (wp_mov_reservation _ _ i g t); [exact Hg|lia| |exact Hr|find_holds|]; [tac|];
      let c' := fresh "c" in
      let e' := fresh "e" in
      let Hg' := fresh "Hg" in
      let Hk := fresh "Hk" in
      let Hr' := fresh "Hr" in
      intros c' e' Hg' Hk Hr'; cbn [Z.eqb Pos.eqb] in Hr'; keep_temps ts e' Hk;
      clear Hg Hr; try clear c; cbv beta
  end.

(** A temp that exists. *)
Lemma holds_range ts e t v : holds ts e t v → 0 ≤ t < zlen ts.
Proof. by intros [? _]. Qed.

Lemma const_range ts t v : const_of ts t v → 0 ≤ t < zlen ts.
Proof. intros (y & Hy & _). by eapply zlookup_lt_Some. Qed.

Lemma local_range ts t ty : local_of ts t ty → 0 ≤ t < zlen ts.
Proof. intros (y & Hy & _). by eapply zlookup_lt_Some. Qed.

Ltac solve_range :=
  repeat (apply Forall_cons; split;
          [first [eapply const_range; eassumption | eapply local_range; eassumption
                 | eapply holds_range; eassumption | unfold NB_GLOBALS in *; lia]|]);
  apply Forall_nil_2.

(** An op emitted while control is elsewhere. *)
Ltac skip_op o ty outs ins cs :=
  match goal with
  | Hg : good ?c ?ts _ |- _ =>
      eapply (wp_skip _ _ _ o ty outs ins cs);
      [reflexivity|exact Hg|side_cond|side_cond|side_cond|side_cond|solve_range|discriminate|];
      let c' := fresh "c" in
      let Hg' := fresh "Hg" in
      let Hf := fresh "Hf" in
      intros c' Hg' Hf; keep_fresh Hf; clear Hg; try clear c
  end.

Ltac skip_step :=
  lazymatch goal with
  | |- wp _ ?m _ _ _ _ =>
      lazymatch m with
      | mbind _ _ => apply wp_bind
      | mret _ => eapply wp_ret; [eassumption|]
      | ir (λ k, new_temp k _) => new_temp_step
      | ir (λ k, new_const k _ _) => new_const_step
      | ir (λ k, gen_mov k ?ty ?t ?a) => skip_op Opcode.Mov ty [t] [a] (@nil Z)
      | ir_ (λ k, gen_goto_tb k ?b) =>
          skip_op Opcode.GotoTb Type_.I64 (@nil Z) (@nil Z) [carg b]
      | ir_ (λ k, gen_exit_tb k ?v) =>
          skip_op Opcode.ExitTb Type_.I64 (@nil Z) (@nil Z) [carg (u32 v)]
      | set_is_jmp _ => eapply wp_set_is_jmp; [eassumption|]
      end
  end.

Ltac skip_auto := repeat (skip_step; cbv beta).

Ltac set_label_step :=
  match goal with
  | Hg : good ?c ?ts _ |- wp _ (ir_ (λ k, gen_set_label k ?l)) _ ?c _ _ =>
      eapply wp_set_label; [exact Hg|eassumption|];
      let c' := fresh "c" in
      let Hg' := fresh "Hg" in
      intros c' Hg'; repeat match goal with H : fresh_label _ _ |- _ => clear H end;
      clear Hg; try clear c; rewrite ?Z.eqb_refl; cbv beta
  end.

Ltac new_label_step :=
  match goal with
  | Hg : good ?c ?ts _ |- wp _ (ir (λ k, new_label k)) _ _ _ _ =>
      eapply wp_new_label; [exact Hg|];
      let l := fresh "l" in
      let c' := fresh "c" in
      let Hg' := fresh "Hg" in
      let Hf := fresh "Hfresh" in
      intros l c' Hg' Hf; clear Hg; try clear c; cbv beta
  end.

Ltac brcond_step :=
  match goal with
  | Hg : good ?c ?ts _ |- wp _ (ir_ (λ k, gen_brcond k _ _ _ _ _)) _ _ _ _ =>
      eapply wp_brcond; [exact Hg|find_holds|find_holds|];
      let c' := fresh "c" in
      let Hg' := fresh "Hg" in
      let Hf := fresh "Hf" in
      intros c' Hg' Hf; keep_fresh Hf; clear Hg; try clear c; cbv beta; cbn [Type_.size_bits]
  end.

(** [self.pc] is the temp 33. *)
Ltac mov_pc_step :=
  match goal with
  | Hg : good ?c ?ts _, Hr : repr _ ?g _, Hself : self_ok ?d |- wp _ (ir (λ k, gen_mov k _ _ ?t)) _ _ _ _ =>
      eapply (wp_mov_pc _ _ g t); [exact Hg|exact Hr|find_holds|];
      let c' := fresh "c" in
      let e' := fresh "e" in
      let Hg' := fresh "Hg" in
      let Hf := fresh "Hf" in
      let Hr' := fresh "Hr" in
      let Hpc := fresh "Hpc" in
      let Hk := fresh "Hk" in
      intros c' e' Hg' Hf Hk Hr' Hpc; keep_fresh Hf; keep_temps ts e' Hk; clear Hg Hr; try clear c;
      cbv beta
  end.

Ltac exit_step :=
  match goal with
  | Hg : good ?c ?ts _ |- wp _ (ir_ (λ k, gen_exit_tb k _)) _ _ _ _ =>
      eapply wp_exit_tb; [exact Hg|];
      let c' := fresh "c" in
      let Hg' := fresh "Hg" in
      let Hf := fresh "Hf" in
      intros c' Hg' Hf; keep_fresh Hf; clear Hg; try clear c; cbv beta
  end.

Ltac bin o ty d a b := emit_step o ty [d] [a; b] (@nil Z) exec_int.
Ltac una o ty d a := emit_step o ty [d] [a] (@nil Z) exec_int.

Ltac wp_step :=
  lazymatch goal with
  | |- wp _ ?m ?d _ _ _ =>
      lazymatch m with
      | mbind _ _ => apply wp_bind
      | mret _ => eapply wp_ret; [eassumption|]
      | get_self => eapply wp_get_self; [eassumption|]
      | gpr_or_zero _ => gpr_step
      | gen_set_gpr _ _ => set_gpr_step
      | gen_set_gpr_sx32 _ _ => set_gpr_step
      | ir (λ k, new_temp k _) => new_temp_step
      | ir (λ k, new_const k _ _) => new_const_step
      | ir (λ k, emit_binary k ?o ?ty ?t ?a ?b) => bin o ty t a b
      | ir (λ k, gen_add k ?ty ?t ?a ?b) => bin Opcode.Add ty t a b
      | ir (λ k, gen_sub k ?ty ?t ?a ?b) => bin Opcode.Sub ty t a b
      | ir (λ k, gen_and k ?ty ?t ?a ?b) => bin Opcode.And ty t a b
      | ir (λ k, gen_or k ?ty ?t ?a ?b) => bin Opcode.Or ty t a b
      | ir (λ k, gen_shl k ?ty ?t ?a ?b) => bin Opcode.Shl ty t a b
      | ir (λ k, gen_shr k ?ty ?t ?a ?b) => bin Opcode.Shr ty t a b
      | ir (λ k, gen_sar k ?ty ?t ?a ?b) => bin Opcode.Sar ty t a b
      | ir (λ k, gen_neg k ?ty ?t ?a) => una Opcode.Neg ty t a
      | ir (λ k, gen_not k ?ty ?t ?a) => una Opcode.Not ty t a
      | ir (λ k, gen_extrl_i64_i32 k ?t ?a) => una Opcode.ExtrlI64I32 Type_.I32 t a
      | ir (λ k, gen_ext_i32_i64 k ?t ?a) => una Opcode.ExtI32I64 Type_.I64 t a
      | ir (λ k, gen_ext_u32_i64 k ?t ?a) => una Opcode.ExtUI32I64 Type_.I64 t a
      | ir (λ k, gen_setcond k ?ty ?t ?a ?b ?cd) =>
          emit_step Opcode.SetCond ty [t] [a; b] [carg (Cond.discr cd)] exec_fx
      | ir (λ k, gen_movcond k ?ty ?t ?a ?b ?v1 ?v2 ?cd) =>
          emit_step Opcode.MovCond ty [t] [a; b; v1; v2] [carg (Cond.discr cd)] exec_fx
      | ir (λ k, gen_qemu_ld k ?ty ?t ?a ?mo) =>
          emit_step Opcode.QemuLd ty [t] [a] [carg mo] exec_fx
      | ir (λ k, gen_ld k ?ty ?t ?a ?off) =>
          emit_step Opcode.Ld ty [t] [a] [carg (u32 off)] exec_fx
      | ir_ (λ k, gen_muls2 k ?ty ?lo ?hi ?a ?b) =>
          emit_step Opcode.MulS2 ty [lo; hi] [a; b] (@nil Z) exec_fx
      | ir_ (λ k, gen_mulu2 k ?ty ?lo ?hi ?a ?b) =>
          emit_step Opcode.MulU2 ty [lo; hi] [a; b] (@nil Z) exec_fx
      | ir_ (λ k, gen_qemu_st k ?ty ?v ?a ?mo) =>
          emit_step Opcode.QemuSt ty (@nil Z) [v; a] [carg mo] exec_fx
      | ir_ (λ k, gen_st k ?ty ?v ?a ?off) =>
          emit_step Opcode.St ty (@nil Z) [v; a] [carg (u32 off)] exec_fx
      | ir_ (λ k, gen_mb k ?b) => emit_step Opcode.Mb Type_.I64 (@nil Z) (@nil Z) [carg b] exec_fx
      | ir_ (λ k, gen_goto_tb k ?b) =>
          emit_step Opcode.GotoTb Type_.I64 (@nil Z) (@nil Z) [carg b] exec_fx
      end
  end.

Ltac wp_auto := repeat (wp_step; cbv beta).

(** The last ops of an instruction that leaves: pc, chaining slot, exit. *)
Ltac leave_auto :=
  wp_auto; mov_pc_step; wp_auto; exit_step; skip_auto.

Lemma u64_mod v : u64 (v mod 2 ^ 64) = u64 v.
Proof. unfold u64. by rewrite Zmod_mod. Qed.

Lemma load_width w a n sg : in_width 64 (World.load w a n sg).
Proof. apply mod_in_width. lia. Qed.

Lemma load_u64 w a n sg : World.load w a n sg mod 2 ^ 64 = World.load w a n sg.
Proof. apply mod_small_width, load_width. Qed.

Lemma u64_load w a n sg : u64 (World.load w a n sg) = World.load w a n sg.
Proof. apply load_u64. Qed.

(** The two ways an address is formed. *)
Lemma addr_zero u i : in_width 64 u → i = 0 → u = u64 (u + i).
Proof. intros Hu ->. rewrite Z.add_0_r. symmetry. by apply mod_small_width. Qed.

Lemma addr_imm u i : (u + u64 i) mod 2 ^ 64 mod 2 ^ 64 = u64 (u + i).
Proof. unfold u64. by rewrite Zmod_mod, Zplus_mod_idemp_r. Qed.

Lemma u64_minus_l u v : u64 (u mod 2 ^ 64 - v) = u64 (u - v).
Proof. apply Zminus_mod_idemp_l. Qed.

Lemma sext32_mod k v : 32 ≤ k → sext32 (v mod 2 ^ k) = sext32 v.
Proof.
  intros. unfold sext32, i32. rewrite <- (signed_of_mod 32 (v mod 2 ^ k)) by lia.
  by rewrite mod_mod_pow2, signed_of_mod by lia.
Qed.

(** ** Division *)

Section division.
Context (w : Z) (Hw : 1 < w).

Lemma pow2_half : 2 ^ w = 2 * 2 ^ (w - 1) ∧ 1 < 2 ^ (w - 1).
Proof.
  split; [rewrite <- Z.pow_succ_r by lia; f_equal; lia|].
  change 1 with (2 ^ 0). apply Z.pow_lt_mono_r; lia.
Qed.

(** The divisor the translation divides by: never 0 or -1. *)
Definition safe_s (v : Z) : Z :=
  let s := (if Cond.holds Cond.Eq w v 0 then 1 else v) mod 2 ^ w in
  (if Cond.holds Cond.Eq w s (2 ^ w - 1) then 1 else s) mod 2 ^ w.

Lemma signed_cases v :
  0 ≤ v mod 2 ^ w < 2 ^ (w - 1) ∧ signed w v = v mod 2 ^ w ∨
  2 ^ (w - 1) ≤ v mod 2 ^ w < 2 ^ w ∧ signed w v = v mod 2 ^ w - 2 ^ w.
Proof.
  pose proof pow2_half. pose proof (Z.mod_pos_bound v (2 ^ w) ltac:(lia)).
  unfold signed. destruct (Z.ltb_spec (v mod 2 ^ w) (2 ^ (w - 1))); lia.
Qed.

Lemma signed_one : signed w 1 = 1.
Proof. pose proof pow2_half. apply signed_small; lia. Qed.

Lemma eq_zero v : Cond.holds Cond.Eq w v 0 = (signed w v =? 0).
Proof.
  pose proof pow2_half. simpl. rewrite Zmod_0_l. destruct (signed_cases v) as [[? ->]|[? ->]]; [done|].
  rewrite !(proj2 (Z.eqb_neq _ _)); lia.
Qed.

Lemma eq_neg1 v : Cond.holds Cond.Eq w v (2 ^ w - 1) = (signed w v =? -1).
Proof.
  pose proof pow2_half. simpl. rewrite (Z.mod_small (2 ^ w - 1)) by lia.
  destruct (signed_cases v) as [[? ->]|[? ->]]; apply eq_true_iff_eq; rewrite !Z.eqb_eq; lia.
Qed.

Lemma safe_s_spec v :
  signed w (safe_s v) =
  if (signed w v =? 0) || (signed w v =? -1) then 1 else signed w v.
Proof.
  unfold safe_s. rewrite eq_zero, eq_neg1, signed_of_mod by lia.
  destruct (Z.eqb_spec (signed w v) 0) as [Hz|]; cbn [orb].
  - rewrite signed_of_mod, signed_one by lia. cbn [Z.eqb].
    by rewrite signed_of_mod, signed_one by lia.
  - rewrite signed_of_mod by lia. destruct (Z.eqb_spec (signed w v) (-1)).
    + apply signed_one.
    + by rewrite signed_of_mod by lia.
Qed.

Lemma quot_fits n d :
  - 2 ^ (w - 1) ≤ n < 2 ^ (w - 1) → d ≠ 0 → d ≠ -1 →
  - 2 ^ (w - 1) ≤ Z.quot n d < 2 ^ (w - 1).
Proof.
  intros Hn H0 H1. pose proof pow2_half. destruct (decide (d = 1)) as [->|].
  - by rewrite Z.quot_1_r.
  - assert (2 * Z.abs (Z.quot n d) ≤ Z.abs n) as Hq; [|lia].
    rewrite <- Z.quot_abs by done. etransitivity; [|apply (Z.mul_quot_le (Z.abs n) (Z.abs d)); lia].
    apply Z.mul_le_mono_nonneg_r; [apply Z.quot_pos|]; lia.
Qed.

Lemma wide_divs_safe u v :
  let d := signed w (safe_s v) in
  wide_divs w u ((signed w u / 2 ^ (w - 1)) mod 2 ^ w mod 2 ^ w) (safe_s v) =
  Some (Z.quot (signed w u) d mod 2 ^ w, Z.rem (signed w u) d mod 2 ^ w).
Proof.
  intros d. pose proof pow2_half.
  assert (signed w ((signed w u / 2 ^ (w - 1)) mod 2 ^ w mod 2 ^ w) * 2 ^ w + u mod 2 ^ w
    = signed w u) as Hn.
  { rewrite !signed_of_mod by lia. destruct (signed_cases u) as [[? ->]|[? ->]].
    - rewrite Z.div_small by lia. rewrite signed_small; lia.
    - assert ((u mod 2 ^ w - 2 ^ w) / 2 ^ (w - 1) = -1) as ->.
      { symmetry. apply (Z.div_unique_pos _ _ _ (u mod 2 ^ w - 2 ^ (w - 1))); lia. }
      rewrite signed_small; lia. }
  assert (d ≠ 0 ∧ d ≠ -1) as [Hd0 Hd1].
  { unfold d. rewrite safe_s_spec. destruct (Z.eqb_spec (signed w v) 0), (Z.eqb_spec (signed w v) (-1));
      simpl; lia. }
  pose proof (quot_fits (signed w u) d ltac:(apply signed_range; lia) Hd0 Hd1).
  unfold wide_divs. rewrite Hn. fold d. rewrite (proj2 (Z.eqb_neq _ _) Hd0).
  assert ((- 2 ^ (w - 1) <=? signed w u ÷ d) && (signed w u ÷ d <? 2 ^ (w - 1)) = true) as ->; [|done].
  apply andb_true_iff. split; [apply Z.leb_le|apply Z.ltb_lt]; lia.
Qed.

Lemma mod_eq_zero v : (v mod 2 ^ w =? 0) = (signed w v =? 0).
Proof. rewrite <- eq_zero. simpl. by rewrite Zmod_0_l. Qed.

Lemma rem_select u v :
  (if Cond.holds Cond.Eq w v (2 ^ w - 1) then 0
   else (if Cond.holds Cond.Eq w v 0 then u
         else Z.rem (signed w u) (signed w (safe_s v)) mod 2 ^ w mod 2 ^ w) mod 2 ^ w) mod 2 ^ w =
  rv_rem w u v.
Proof.
  pose proof pow2_half. unfold rv_rem. rewrite eq_zero, eq_neg1, safe_s_spec, mod_eq_zero.
  destruct (Z.eqb_spec (signed w v) 0) as [->|]; cbn [Z.eqb orb]; [by rewrite !Zmod_mod|].
  destruct (Z.eqb_spec (signed w v) (-1)) as [->|]; [|by rewrite !Zmod_mod].
  change (-1) with (- (1)). by rewrite Z.rem_opp_r, Z.rem_1_r by lia.
Qed.

Lemma quot_select u v :
  (if Cond.holds Cond.Eq w v (2 ^ w - 1) then (- u) mod 2 ^ w mod 2 ^ w
   else (if Cond.holds Cond.Eq w v 0 then 2 ^ w - 1
         else Z.quot (signed w u) (signed w (safe_s v)) mod 2 ^ w mod 2 ^ w) mod 2 ^ w) mod 2 ^ w =
  rv_div w u v.
Proof.
  pose proof pow2_half. unfold rv_div. rewrite eq_zero, eq_neg1, safe_s_spec, mod_eq_zero.
  destruct (Z.eqb_spec (signed w v) 0) as [->|]; cbn [Z.eqb orb].
  { rewrite Zmod_mod. apply Z.mod_small. lia. }
  destruct (Z.eqb_spec (signed w v) (-1)) as [->|]; [|by rewrite !Zmod_mod].
  rewrite !Zmod_mod. change (-1) with (- (1)). rewrite Z.quot_opp_r, Z.quot_1_r by lia.
  rewrite <- (Z.sub_0_l u), <- (Z.sub_0_l (signed w u)).
  rewrite <- (Zminus_mod_idemp_r 0 (signed w u)), signed_mod by lia. by rewrite Zminus_mod_idemp_r.
Qed.

Definition safe_u (v : Z) : Z := (if Cond.holds Cond.Eq w v 0 then 1 else v) mod 2 ^ w.

Lemma safe_u_spec v : safe_u v = if v mod 2 ^ w =? 0 then 1 else v mod 2 ^ w.
Proof.
  pose proof pow2_half. unfold safe_u. simpl. rewrite Zmod_0_l.
  destruct (v mod 2 ^ w =? 0); [apply Z.mod_small; lia|done].
Qed.

Lemma wide_divu_safe u v :
  wide_divu w u 0 (safe_u v) =
  Some (u mod 2 ^ w / safe_u v, u mod 2 ^ w mod safe_u v).
Proof.
  pose proof pow2_half. pose proof (Z.mod_pos_bound u (2 ^ w) ltac:(lia)).
  pose proof (Z.mod_pos_bound v (2 ^ w) ltac:(lia)).
  assert (0 < safe_u v < 2 ^ w) as Hd.
  { rewrite safe_u_spec. destruct (Z.eqb_spec (v mod 2 ^ w) 0); lia. }
  unfold wide_divu. rewrite Zmod_0_l, (Z.mod_small (safe_u v)) by lia. rewrite Z.mul_0_l, Z.add_0_l.
  rewrite (proj2 (Z.eqb_neq _ _)) by lia.
  rewrite (proj2 (Z.ltb_lt _ _)); [done|].
  apply Z.div_lt_upper_bound; [lia|]. nia.
Qed.

Lemma remu_select u v :
  (if Cond.holds Cond.Eq w v 0 then u else u mod 2 ^ w mod safe_u v mod 2 ^ w) mod 2 ^ w =
  rv_remu w u v.
Proof.
  pose proof pow2_half. unfold rv_remu. rewrite safe_u_spec. simpl. rewrite Zmod_0_l.
  destruct (Z.eqb_spec (v mod 2 ^ w) 0); [done|]. rewrite Zmod_mod. apply Z.mod_small.
  pose proof (Z.mod_pos_bound v (2 ^ w) ltac:(lia)).
  pose proof (Z.mod_pos_bound (u mod 2 ^ w) (v mod 2 ^ w) ltac:(lia)). lia.
Qed.

Lemma quotu_select u v :
  (if Cond.holds Cond.Eq w v 0 then 2 ^ w - 1 else (u mod 2 ^ w / safe_u v) mod 2 ^ w) mod 2 ^ w =
  rv_divu w u v.
Proof.
  pose proof pow2_half. unfold rv_divu. rewrite safe_u_spec. simpl. rewrite Zmod_0_l.
  destruct (Z.eqb_spec (v mod 2 ^ w) 0); [apply Z.mod_small; lia|].
  rewrite Zmod_mod. apply Z.mod_small.
  pose proof (Z.mod_pos_bound v (2 ^ w) ltac:(lia)).
  pose proof (Z.mod_pos_bound u (2 ^ w) ltac:(lia)).
  split; [apply Z.div_pos; lia|]. apply Z.div_lt_upper_bound; [lia|]. nia.
Qed.

(** The operands matter only modulo [2 ^ w]. *)
Lemma rv_division_mod u v :
  rv_div w (u mod 2 ^ w) (v mod 2 ^ w) = rv_div w u v ∧
  rv_rem w (u mod 2 ^ w) (v mod 2 ^ w) = rv_rem w u v ∧
  rv_divu w (u mod 2 ^ w) (v mod 2 ^ w) = rv_divu w u v ∧
  rv_remu w (u mod 2 ^ w) (v mod 2 ^ w) = rv_remu w u v.
Proof.
  unfold rv_div, rv_rem, rv_divu, rv_remu. by rewrite !signed_of_mod, !Zmod_mod by lia.
Qed.
End division.

(** Less room than there was. *)
Ltac solve_good :=
  eapply good_mono; [|eassumption]; repeat first [exact (le_n _) | apply le_S].

(** The end of a translation function: what is left is that the guest state reached is
    the one claimed. *)
Ltac finish :=
  split; [reflexivity|]; split; [reflexivity|];
  split; [eexists; solve_good|]; split; [reflexivity|];
  match goal with
  | H : repr _ ?g' _ |- repr _ ?g _ =>
      cbn [fst]; first [exact H | replace g with g'; [exact H|]]
  end.

Lemma u64_u64 v : u64 (u64 v) = u64 v.
Proof. apply u64_mod. Qed.

Ltac finish_leave :=
  rewrite ?u64_u64 in *;
  split; [reflexivity|]; split; [reflexivity|];
  split; [eexists; solve_good|]; split; [reflexivity|];
  split; [eassumption|]; cbn [fst]; try assumption.

(** ** Before and after an instruction *)

(** What a translated instruction that falls through leaves: [self] unchanged and the
    guest state [g]. *)
Definition falls (envp : Z) (d : Dc.t) (m : nat) (g : Guest.t) (b : bool) (d' : Dc.t) (c' : Context)
    (σ : state * ctl) : Prop :=
  b = true ∧ d' = d ∧ (∃ ts', good c' ts' m) ∧ σ.2 = Next ∧ repr envp g σ.1.

Definition reg (i : Z) : Prop := 0 ≤ i < 32.
Definition args_r (a : ArgsR.t) : Prop := reg (ArgsR.rd a) ∧ reg (ArgsR.rs1 a) ∧ reg (ArgsR.rs2 a).
Definition args_i (a : ArgsI.t) : Prop := reg (ArgsI.rd a) ∧ reg (ArgsI.rs1 a).
Definition args_s (a : ArgsS.t) : Prop := reg (ArgsS.rs1 a) ∧ reg (ArgsS.rs2 a).
Definition args_b (a : ArgsB.t) : Prop := reg (ArgsB.rs1 a) ∧ reg (ArgsB.rs2 a).
Definition args_shift (a : ArgsShift.t) : Prop := reg (ArgsShift.rd a) ∧ reg (ArgsShift.rs1 a).
Definition args_atomic (a : ArgsAtomic.t) : Prop :=
  reg (ArgsAtomic.rd a) ∧ reg (ArgsAtomic.rs1 a) ∧ reg (ArgsAtomic.rs2 a).

Lemma x_u64 envp g s i : repr envp g s → reg i → u64 (x g i) = x g i.
Proof. intros Hr Hi. apply mod_small_width. by eapply x_in_width. Qed.

(** [op] builds the binary op [o], which computes [f] at width [w]. *)
Definition computes (op : BinOp) (o : Opcode.t) (w : Z) (f : Z → Z → Z) : Prop :=
  op = (λ c ty d a b, emit_binary c o ty d a b) ∧
  nb_oargs (def o) = 1 ∧ nb_iargs (def o) = 2 ∧ nb_cargs (def o) = 0 ∧ o ≠ Opcode.SetLabel ∧
  ∀ a b, spec_binary o w a b = Some (f a b).

(** The state before each instruction. *)
Definition starts (envp : Z) (d : Dc.t) (c : Context) (m : nat) (g : Guest.t) (s : state) : Prop :=
  (∃ ts, good c ts (64 + m)) ∧ self_ok d ∧ repr envp g s.

Ltac start :=
  match goal with
  | H : starts _ _ _ _ _ _ |- _ =>
      let Hg := fresh "Hg" in
      let Hlen := fresh "Hlen" in
      let ts := fresh "ts" in
      let Hr := fresh "Hr" in
      let Hw := fresh "Hw" in
      destruct H as ([ts Hg] & ? & Hr); pose proof (repr_world _ _ _ Hr) as Hw; cbn [snd] in Hw;
      subst; pose proof (good_len _ _ _ Hg) as Hlen
  end.

(** [self.base.is_jmp = NoReturn] *)
Definition stopped (d : Dc.t) : Dc.t :=
  Dc.set_base d (DisasContextBase.set_is_jmp (Dc.base d) DisasJumpType.NoReturn).

(** What an instruction that leaves the block leaves. *)
Definition leaves (envp : Z) (d : Dc.t) (m : nat) (pc code : Z) (g : Guest.t) {A} (r : A) (b : A) (d' : Dc.t)
    (c' : Context) (σ : state * ctl) : Prop :=
  b = r ∧ d' = stopped d ∧ (∃ ts', good c' ts' m) ∧ σ.2 = Leave code ∧ repr envp g σ.1 ∧
  σ.1.1 33 = pc.

(** What an instruction leaves, by how the reference ends. *)
Definition ends (envp : Z) (d : Dc.t) (m : nat) (g : Guest.t) (r : result) (b : bool) (d' : Dc.t)
    (c' : Context) (σ : state * ctl) : Prop :=
  (∃ ts', good c' ts' m) ∧
  match r with
  | Illegal => b = false ∧ d' = d ∧ σ.2 = Next ∧ repr envp g σ.1
  | Fall g' => b = true ∧ d' = d ∧ σ.2 = Next ∧ repr envp g' σ.1
  | Exit pc code g' =>
      b = true ∧ (d' = d ∨ d' = stopped d) ∧ σ.2 = Leave code ∧ repr envp g' σ.1 ∧
      σ.1.1 33 = u64 pc
  end.

Lemma falls_ends envp d m g g' b d' c' σ :
  falls envp d m g' b d' c' σ → ends envp d m g (Fall g') b d' c' σ.
Proof. by intros (? & ? & ? & ? & ?). Qed.

Lemma leaves_ends envp d m g g' pc code b d' c' σ :
  leaves envp d m (u64 pc) code g' true b d' c' σ → ends envp d m g (Exit pc code g') b d' c' σ.
Proof. intros (? & ? & ? & ? & ? & ?). split; [done|]. auto. Qed.
