(* ===== verification/RiscvInt.v ===== *)
(** * The integer instructions are translated correctly

    For the integer, memory, atomic and control-flow helpers of RiscvGen.v: the ops
    emitted compute what the reference semantics says, from every machine state
    that represents a guest state. *)

From S2P Require Import Prelude Types Opcodes Ir Builder IrSem Tb Frontend RiscvCpu RiscvGen.
From S2P Require Import RiscvTrans RiscvSem RiscvWp RiscvRules.

Section helpers.
Variable host : Z → list Z → World.t → Z * World.t.
Variable envp : Z.

Lemma sound_gen_arith op o f a d c m e w g :
  computes op o 64 f → starts envp d c m g (e, w) → args_r a →
  wp host (gen_arith a op) d c ((e, w), Next) (falls envp d m (rv_op (λ u v, u64 (f u v)) a g)).
Proof.
  intros (-> & Hn1 & Hn2 & Hn3 & Hne & Hs) Hst (Hrd & Hr1 & Hr2). start.
  unfold gen_arith. wp_auto. finish. unfold rv_op. by rewrite u64_mod.
Qed.

Lemma sound_gen_setcond_rr cd a d c m e w g :
  starts envp d c m g (e, w) → args_r a →
  wp host (gen_setcond_rr a cd) d c ((e, w), Next)
    (falls envp d m (rv_op (λ u v, if Cond.holds cd 64 u v then 1 else 0) a g)).
Proof.
  intros Hst (Hrd & Hr1 & Hr2). start. unfold gen_setcond_rr. wp_auto. finish.
  unfold rv_op. by destruct (Cond.holds _ _ _ _).
Qed.

Lemma sound_gen_arith_imm op o f a d c m e w g :
  computes op o 64 f → starts envp d c m g (e, w) → args_i a →
  wp host (gen_arith_imm a op) d c ((e, w), Next) (falls envp d m (rv_imm (λ u v, u64 (f u v)) a g)).
Proof.
  intros (-> & Hn1 & Hn2 & Hn3 & Hne & Hs) Hst (Hrd & Hr1). start.
  unfold gen_arith_imm. wp_auto. finish. unfold rv_imm. by rewrite u64_mod.
Qed.

Lemma sound_gen_setcond_imm cd a d c m e w g :
  starts envp d c m g (e, w) → args_i a →
  wp host (gen_setcond_imm a cd) d c ((e, w), Next)
    (falls envp d m (rv_imm (λ u v, if Cond.holds cd 64 u v then 1 else 0) a g)).
Proof.
  intros Hst (Hrd & Hr1). start. unfold gen_setcond_imm. wp_auto. finish.
  unfold rv_imm. by destruct (Cond.holds _ _ _ _).
Qed.

Lemma sound_gen_shift_imm op o f a d c m e w g :
  computes op o 64 f → starts envp d c m g (e, w) → args_shift a →
  wp host (gen_shift_imm a op) d c ((e, w), Next)
    (falls envp d m (set_x (ArgsShift.rd a)
                  (u64 (f (x g (ArgsShift.rs1 a)) (u64 (ArgsShift.shamt a)))) g)).
Proof.
  intros (-> & Hn1 & Hn2 & Hn3 & Hne & Hs) Hst (Hrd & Hr1). start.
  unfold gen_shift_imm. wp_auto. finish. by rewrite u64_mod.
Qed.

Lemma sound_gen_arith_w op o f a d c m e w g :
  computes op o 64 f → starts envp d c m g (e, w) → args_r a →
  wp host (gen_arith_w a op) d c ((e, w), Next) (falls envp d m (rv_op (λ u v, sext32 (f u v)) a g)).
Proof.
  intros (-> & Hn1 & Hn2 & Hn3 & Hne & Hs) Hst (Hrd & Hr1 & Hr2). start.
  unfold gen_arith_w. wp_auto. finish. unfold rv_op. by rewrite (sext32_mod 64) by lia.
Qed.

Lemma sound_gen_arith_imm_w op o f a d c m e w g :
  computes op o 64 f → starts envp d c m g (e, w) → args_i a →
  wp host (gen_arith_imm_w a op) d c ((e, w), Next) (falls envp d m (rv_imm (λ u v, sext32 (f u v)) a g)).
Proof.
  intros (-> & Hn1 & Hn2 & Hn3 & Hne & Hs) Hst (Hrd & Hr1). start.
  unfold gen_arith_imm_w. wp_auto. finish. unfold rv_imm. by rewrite (sext32_mod 64) by lia.
Qed.

Lemma sound_gen_shiftw op o f a d c m e w g :
  computes op o 32 f → starts envp d c m g (e, w) → args_r a →
  wp host (gen_shiftw a op) d c ((e, w), Next)
    (falls envp d m (rv_op (λ u v, sext32 (f (u32 u) (u32 v))) a g)).
Proof.
  intros (-> & Hn1 & Hn2 & Hn3 & Hne & Hs) Hst (Hrd & Hr1 & Hr2). start.
  unfold gen_shiftw. wp_auto. finish.
  unfold rv_op, u32. by rewrite (sext32_mod 32), !Zmod_mod by lia.
Qed.

Lemma sound_gen_shift_imm_w op o f a d c m e w g :
  computes op o 32 f → starts envp d c m g (e, w) → args_shift a →
  wp host (gen_shift_imm_w a op) d c ((e, w), Next)
    (falls envp d m (set_x (ArgsShift.rd a)
                  (sext32 (f (u32 (x g (ArgsShift.rs1 a))) (u64 (ArgsShift.shamt a)))) g)).
Proof.
  intros (-> & Hn1 & Hn2 & Hn3 & Hne & Hs) Hst (Hrd & Hr1). start.
  unfold gen_shift_imm_w. wp_auto. finish. unfold u32. by rewrite (sext32_mod 32), !Zmod_mod by lia.
Qed.
Lemma exec_divs2 ts ty d1 d2 lo hi b e w q r :
  wide_divs (Type_.size_bits ty) lo hi b = Some (q, r) →
  exec (fe_ext host) ts Opcode.DivS2 ty [d1; d2] [lo; hi; b] [] (e, w) =
  (wr ts (wr ts e d1 q) d2 r, w, Next).
Proof. intros Hd. unfold exec, exec_ext, fe_ext. cbn [fst snd]. by rewrite Hd. Qed.

Lemma exec_divu2 ts ty d1 d2 lo hi b e w q r :
  wide_divu (Type_.size_bits ty) lo hi b = Some (q, r) →
  exec (fe_ext host) ts Opcode.DivU2 ty [d1; d2] [lo; hi; b] [] (e, w) =
  (wr ts (wr ts e d1 q) d2 r, w, Next).
Proof. intros Hd. unfold exec, exec_ext, fe_ext. cbn [fst snd]. by rewrite Hd. Qed.

Ltac div_step o tac :=
  lazymatch goal with
  | |- wp _ (ir_ (λ k, _ k ?ty ?q ?r ?lo ?hi ?b)) _ _ _ _ =>
      emit_step o ty [q; r] [lo; hi; b] (@nil Z) tac; cbv beta
  end.

Lemma sound_gen_div_rem want_rem a d c m e w g :
  starts envp d c m g (e, w) → args_r a →
  wp host (gen_div_rem a want_rem) d c ((e, w), Next)
    (falls envp d m (rv_op (if want_rem : bool then rv_rem 64 else rv_div 64) a g)).
Proof.
  intros Hst (Hrd & Hr1 & Hr2). start. unfold gen_div_rem. wp_auto.
  div_step Opcode.DivS2 ltac:(apply exec_divs2,
    (wide_divs_safe 64 eq_refl (x g (ArgsR.rs1 a)) (x g (ArgsR.rs2 a)))).
  destruct want_rem; wp_auto; finish; unfold rv_op; f_equal; rewrite u64_mod.
  - exact (rem_select 64 eq_refl _ _).
  - exact (quot_select 64 eq_refl _ _).
Qed.

Lemma sound_gen_divu_remu want_rem a d c m e w g :
  starts envp d c m g (e, w) → args_r a →
  wp host (gen_divu_remu a want_rem) d c ((e, w), Next)
    (falls envp d m (rv_op (if want_rem : bool then rv_remu 64 else rv_divu 64) a g)).
Proof.
  intros Hst (Hrd & Hr1 & Hr2). start. unfold gen_divu_remu. wp_auto.
  div_step Opcode.DivU2 ltac:(apply exec_divu2,
    (wide_divu_safe 64 eq_refl (x g (ArgsR.rs1 a)) (x g (ArgsR.rs2 a)))).
  destruct want_rem; wp_auto; finish; unfold rv_op; f_equal; rewrite u64_mod.
  - exact (remu_select 64 eq_refl _ _).
  - exact (quotu_select 64 eq_refl _ _).
Qed.

(** An operand of the 32-bit forms, as the translation narrows it. *)
Definition low (v : Z) : Z := v mod 2 ^ 32 mod 2 ^ 32.

Lemma rv_division_low u v :
  rv_div 32 (low u) (low v) = rv_div 32 u v ∧ rv_rem 32 (low u) (low v) = rv_rem 32 u v ∧
  rv_divu 32 (low u) (low v) = rv_divu 32 u v ∧ rv_remu 32 (low u) (low v) = rv_remu 32 u v.
Proof.
  unfold low. destruct (rv_division_mod 32 eq_refl (u mod 2 ^ 32) (v mod 2 ^ 32)) as (-> & -> & -> & ->).
  apply (rv_division_mod 32 eq_refl).
Qed.

Lemma sound_gen_div_rem_w want_rem a d c m e w g :
  starts envp d c m g (e, w) → args_r a →
  wp host (gen_div_rem_w a want_rem) d c ((e, w), Next)
    (falls envp d m (rv_op (λ u v, sext32 ((if want_rem : bool then rv_rem 32 else rv_div 32) u v)) a g)).
Proof.
  intros Hst (Hrd & Hr1 & Hr2). start. unfold gen_div_rem_w. wp_auto.
  div_step Opcode.DivS2 ltac:(apply exec_divs2,
    (wide_divs_safe 32 eq_refl (low (x g (ArgsR.rs1 a))) (low (x g (ArgsR.rs2 a))))).
  destruct (rv_division_low (x g (ArgsR.rs1 a)) (x g (ArgsR.rs2 a))) as (Hq & Hm & _).
  destruct want_rem; wp_auto; finish; unfold rv_op; do 2 f_equal.
  - etransitivity; [exact (rem_select 32 eq_refl (low _) (low _))|exact Hm].
  - etransitivity; [exact (quot_select 32 eq_refl (low _) (low _))|exact Hq].
Qed.

Lemma sound_gen_divu_remu_w want_rem a d c m e w g :
  starts envp d c m g (e, w) → args_r a →
  wp host (gen_divu_remu_w a want_rem) d c ((e, w), Next)
    (falls envp d m (rv_op (λ u v, sext32 ((if want_rem : bool then rv_remu 32 else rv_divu 32) u v)) a g)).
Proof.
  intros Hst (Hrd & Hr1 & Hr2). start. unfold gen_divu_remu_w. wp_auto.
  div_step Opcode.DivU2 ltac:(apply exec_divu2,
    (wide_divu_safe 32 eq_refl (low (x g (ArgsR.rs1 a))) (low (x g (ArgsR.rs2 a))))).
  destruct (rv_division_low (x g (ArgsR.rs1 a)) (x g (ArgsR.rs2 a))) as (_ & _ & Hq & Hm).
  destruct want_rem; wp_auto; finish; unfold rv_op; do 2 f_equal.
  - etransitivity; [exact (remu_select 32 eq_refl (low _) (low _))|exact Hm].
  - etransitivity; [exact (quotu_select 32 eq_refl (low _) (low _))|exact Hq].
Qed.

(** ** Memory *)

Lemma sound_gen_load mo a d c m e w g :
  starts envp d c m g (e, w) → args_i a →
  wp host (gen_load a mo) d c ((e, w), Next)
    (falls envp d m (rv_load (MemOp.size_bytes mo) (MemOp.is_signed mo) a g)).
Proof.
  intros Hst (Hrd & Hr1). start. pose proof (x_u64 _ _ _ _ Hr Hr1) as Hx. unfold gen_load.
  destruct (Z.eqb_spec (ArgsI.imm a) 0) as [Hi|Hi]; cbn [negb]; wp_auto; finish;
    unfold rv_load; f_equal; rewrite u64_mod, u64_load.
  - by rewrite Hi, Z.add_0_r, Hx.
  - unfold u64. by rewrite Zmod_mod, Zplus_mod_idemp_r.
Qed.

Lemma sound_gen_store mo a d c m e w g :
  starts envp d c m g (e, w) → args_s a →
  wp host (gen_store a mo) d c ((e, w), Next) (falls envp d m (rv_store (MemOp.size_bytes mo) a g)).
Proof.
  intros Hst (Hr1 & Hr2). start. pose proof (x_u64 _ _ _ _ Hr Hr1) as Hx. unfold gen_store.
  destruct (Z.eqb_spec (ArgsS.imm a) 0) as [Hi|Hi]; cbn [negb]; wp_auto; finish;
    unfold rv_store; f_equal.
  - by rewrite Hi, Z.add_0_r, Hx.
  - unfold u64. by rewrite Zmod_mod, Zplus_mod_idemp_r.
Qed.

Lemma sound_gen_lr mo a d c m e w g :
  starts envp d c m g (e, w) → args_atomic a →
  wp host (gen_lr a mo) d c ((e, w), Next)
    (falls envp d m (rv_lr (MemOp.size_bytes mo) (MemOp.is_signed mo) a g)).
Proof.
  intros Hst (Hrd & Hr1 & Hr2). start. pose proof (x_in_width _ _ _ _ Hr Hr1) as Hx. unfold gen_lr.
  destruct (Z.eqb_spec (ArgsAtomic.rl a) 0), (Z.eqb_spec (ArgsAtomic.aq a) 0); cbn [negb]; wp_auto.
  all: reservation_step ltac:(exact Hx); wp_auto;
    reservation_step ltac:(apply mod_in_width; lia); wp_auto; finish;
    rewrite u64_mod, u64_load, load_u64; reflexivity.
Qed.

(** What the translation of SC does, held reservation or not: store, succeed, clear. *)
Definition sc_unchecked (n : Z) (a : ArgsAtomic.t) (g : Guest.t) : Guest.t :=
  set_x (ArgsAtomic.rd a) 0
    (set_reservation (2 ^ 64 - 1) (Guest.load_val g)
       (set_world (World.store (Guest.world g) (x g (ArgsAtomic.rs1 a)) n (x g (ArgsAtomic.rs2 a))) g)).

Lemma sound_gen_sc_unchecked mo a d c m e w g :
  starts envp d c m g (e, w) → args_atomic a →
  wp host (gen_sc a mo) d c ((e, w), Next) (falls envp d m (sc_unchecked (MemOp.size_bytes mo) a g)).
Proof.
  intros Hst (Hrd & Hr1 & Hr2). start. unfold gen_sc. wp_auto.
  reservation_step ltac:(done). wp_auto. finish.
  unfold sc_unchecked, set_x. by destruct (ArgsAtomic.rd a =? 0).
Qed.

(** While the reservation is held that is SC. *)
Lemma sound_gen_sc mo a d c m e w g :
  starts envp d c m g (e, w) → args_atomic a → Guest.load_res g = x g (ArgsAtomic.rs1 a) →
  wp host (gen_sc a mo) d c ((e, w), Next) (falls envp d m (rv_sc (MemOp.size_bytes mo) a g)).
Proof.
  intros Hst Ha Hres. replace (rv_sc _ a g) with (sc_unchecked (MemOp.size_bytes mo) a g);
    [by apply sound_gen_sc_unchecked|].
  unfold rv_sc. rewrite Hres, Z.eqb_refl. done.
Qed.

Lemma store_mod w a n v k : 0 ≤ n → 8 * n ≤ k → World.store w a n (v mod 2 ^ k) = World.store w a n v.
Proof. intros. unfold World.store. by rewrite mod_mod_pow2 by lia. Qed.

Lemma sound_gen_amo op o f mo a d c m e w g :
  computes op o 64 f → starts envp d c m g (e, w) → args_atomic a →
  wp host (gen_amo a op mo) d c ((e, w), Next)
    (falls envp d m (rv_amo (MemOp.size_bytes mo) (MemOp.is_signed mo) (λ u v, u64 (f u v)) a g)).
Proof.
  intros (-> & Hn1 & Hn2 & Hn3 & Hne & Hs) Hst (Hrd & Hr1 & Hr2). start. unfold gen_amo.
  destruct (Z.eqb_spec (ArgsAtomic.rl a) 0), (Z.eqb_spec (ArgsAtomic.aq a) 0); cbn [negb]; wp_auto;
    finish; unfold rv_amo; by rewrite u64_mod, u64_load, !load_u64.
Qed.

Lemma sound_gen_amo_swap mo a d c m e w g :
  starts envp d c m g (e, w) → args_atomic a →
  wp host (gen_amo_swap a mo) d c ((e, w), Next)
    (falls envp d m (rv_amo (MemOp.size_bytes mo) (MemOp.is_signed mo) (λ u v, v) a g)).
Proof.
  intros Hst (Hrd & Hr1 & Hr2). start. unfold gen_amo_swap.
  destruct (Z.eqb_spec (ArgsAtomic.rl a) 0), (Z.eqb_spec (ArgsAtomic.aq a) 0); cbn [negb]; wp_auto;
    finish; unfold rv_amo; by rewrite u64_mod, u64_load.
Qed.

Lemma sound_gen_amo_minmax cd mo a d c m e w g :
  starts envp d c m g (e, w) → args_atomic a →
  wp host (gen_amo_minmax a cd mo) d c ((e, w), Next)
    (falls envp d m (rv_amo (MemOp.size_bytes mo) (MemOp.is_signed mo)
                   (λ u v, u64 (if Cond.holds cd 64 u v then u else v)) a g)).
Proof.
  intros Hst (Hrd & Hr1 & Hr2). start. unfold gen_amo_minmax.
  destruct (Z.eqb_spec (ArgsAtomic.rl a) 0), (Z.eqb_spec (ArgsAtomic.aq a) 0); cbn [negb]; wp_auto;
    finish; unfold rv_amo; by rewrite u64_mod, u64_load, !load_u64.
Qed.

(** ** Control flow *)

Lemma sound_gen_branch cd a d c m e w g :
  starts envp d c m g (e, w) → args_b a →
  wp host (gen_branch a cd) d c ((e, w), Next)
    (if Cond.holds cd 64 (x g (ArgsB.rs1 a)) (x g (ArgsB.rs2 a))
     then leaves envp d m (u64 (Dc.pc_next d + ArgsB.imm a)) TB_EXIT_IDX1 g tt
     else leaves envp d m (u64 (Dc.pc_next d + Dc.cur_insn_len d)) TB_EXIT_IDX0 g tt).
Proof.
  intros Hst (Hr1 & Hr2). start. unfold gen_branch. wp_auto. new_label_step. wp_auto. brcond_step.
  assert (Dc.pc d = 33) as -> by apply H.
  destruct (Cond.holds _ _ _ _).
  - skip_auto. set_label_step. leave_auto. finish_leave.
  - leave_auto. set_label_step. skip_auto. finish_leave.
Qed.

Lemma sound_trans_jal a d c m e w g :
  starts envp d c m g (e, w) → reg (ArgsJ.rd a) →
  wp host (Decode.trans_jal a) d c ((e, w), Next)
    (leaves envp d m (u64 (Dc.pc_next d + ArgsJ.imm a)) TB_EXIT_IDX0
       (set_x (ArgsJ.rd a) (u64 (Dc.pc_next d + Dc.cur_insn_len d)) g) true).
Proof.
  intros Hst Hrd. start. unfold Decode.trans_jal. wp_auto.
  assert (Dc.pc d = 33) as -> by apply H. leave_auto. finish_leave.
Qed.

Lemma sound_trans_jalr a d c m e w g :
  starts envp d c m g (e, w) → args_i a →
  wp host (Decode.trans_jalr a) d c ((e, w), Next)
    (leaves envp d m (Z.land (u64 (x g (ArgsI.rs1 a) + ArgsI.imm a)) (2 ^ 64 - 2)) TB_EXIT_NOCHAIN
       (set_x (ArgsI.rd a) (u64 (Dc.pc_next d + Dc.cur_insn_len d)) g) true).
Proof.
  intros Hst (Hrd & Hr1). start. unfold Decode.trans_jalr. wp_auto.
  assert (Dc.pc d = 33) as -> by apply H. leave_auto. finish_leave.
  rewrite Hpc. unfold u64. by rewrite !Zmod_mod, Zplus_mod_idemp_r, land_mod_l.
Qed.

(** ** High products *)

Lemma mulhsu_high u v :
  in_width 64 u → in_width 64 v →
  u64 (u * v / 2 ^ 64 - Z.land ((i64 u / 2 ^ 63) mod 2 ^ 64) v) = u64 (i64 u * v / 2 ^ 64).
Proof.
  intros Hu Hv. pose proof (signed_cases 64 eq_refl u) as Hs. fold i64 in Hs.
  rewrite (mod_small_width 64 u Hu) in Hs. unfold in_width in *. cbn [Z.sub] in Hs.
  change (64 - 1) with 63 in Hs. destruct Hs as [[? Hs]|[? Hs]]; unfold i64; rewrite Hs.
  - rewrite (Z.div_small u) by lia. by rewrite Zmod_0_l, Z.land_0_l, Z.sub_0_r.
  - assert ((u - 2 ^ 64) / 2 ^ 63 = -1) as ->.
    { symmetry. apply (Z.div_unique_pos _ _ _ (u - 2 ^ 63)); lia. }
    change ((-1) mod 2 ^ 64) with (2 ^ 64 - 1). rewrite Z.land_comm, land_ones_mod by lia.
    rewrite (Z.mod_small v) by lia.
    replace ((u - 2 ^ 64) * v) with (u * v + (- v) * 2 ^ 64) by lia.
    by rewrite Z.div_add by lia.
Qed.

(** The multiplications to the high half, where extension M is on. *)
Definition has_ext (d : Dc.t) (x : MisaExt.t) : Prop :=
  MisaExt.contains (RiscvCfg.misa (Dc.cfg d)) x = true.

Ltac with_ext He :=
  eapply wp_require_ext; [eassumption|]; unfold has_ext in He; rewrite He.

Lemma sound_mulh a d c m e w g :
  starts envp d c m g (e, w) → args_r a → has_ext d MisaExt.M →
  wp host (Decode.trans_mulh a) d c ((e, w), Next)
    (falls envp d m (rv_op (λ u v, u64 (i64 u * i64 v / 2 ^ 64)) a g)).
Proof.
  intros Hst (Hrd & Hr1 & Hr2) He. start. with_ext He. wp_auto. finish.
  unfold rv_op. rewrite ?u64_mod. done.
Qed.

Lemma sound_mulhu a d c m e w g :
  starts envp d c m g (e, w) → args_r a → has_ext d MisaExt.M →
  wp host (Decode.trans_mulhu a) d c ((e, w), Next)
    (falls envp d m (rv_op (λ u v, u64 (u * v / 2 ^ 64)) a g)).
Proof.
  intros Hst (Hrd & Hr1 & Hr2) He. start.
  pose proof (x_in_width _ _ _ _ Hr Hr1). pose proof (x_in_width _ _ _ _ Hr Hr2).
  with_ext He. wp_auto. finish. unfold rv_op. by rewrite u64_mod, !mod_small_width.
Qed.

Lemma sound_mulhsu a d c m e w g :
  starts envp d c m g (e, w) → args_r a → has_ext d MisaExt.M →
  wp host (Decode.trans_mulhsu a) d c ((e, w), Next)
    (falls envp d m (rv_op (λ u v, u64 (i64 u * v / 2 ^ 64)) a g)).
Proof.
  intros Hst (Hrd & Hr1 & Hr2) He. start.
  pose proof (x_in_width _ _ _ _ Hr Hr1) as Hw1. pose proof (x_in_width _ _ _ _ Hr Hr2) as Hw2.
  with_ext He. wp_auto. finish. unfold rv_op.
  rewrite <- (mulhsu_high _ _ Hw1 Hw2). f_equal. change (63 mod 64) with 63.
  by rewrite !u64_mod, !Zmod_mod, land_mod_l, !(mod_small_width 64 (x _ _)), u64_minus_l by done.
Qed.

(** ** The rest *)

Lemma sound_trans_lui a d c m e w g :
  starts envp d c m g (e, w) → reg (ArgsU.rd a) →
  wp host (Decode.trans_lui a) d c ((e, w), Next)
    (falls envp d m (set_x (ArgsU.rd a) (u64 (ArgsU.imm a)) g)).
Proof. intros Hst Hrd. start. unfold Decode.trans_lui. wp_auto. finish. by rewrite u64_u64. Qed.

Lemma sound_trans_auipc a d c m e w g :
  starts envp d c m g (e, w) → reg (ArgsU.rd a) →
  wp host (Decode.trans_auipc a) d c ((e, w), Next)
    (falls envp d m (set_x (ArgsU.rd a) (u64 (Dc.pc_next d + ArgsU.imm a)) g)).
Proof. intros Hst Hrd. start. unfold Decode.trans_auipc. wp_auto. finish. by rewrite u64_u64. Qed.

Lemma sound_trans_ecall a d c m e w g :
  starts envp d c m g (e, w) →
  wp host (Decode.trans_ecall a) d c ((e, w), Next)
    (leaves envp d m (u64 (Dc.pc_next d)) EXCP_ECALL g true).
Proof.
  intros Hst. start. unfold Decode.trans_ecall. wp_auto.
  assert (Dc.pc d = 33) as -> by apply H. leave_auto. finish_leave.
Qed.

Lemma sound_trans_ebreak a d c m e w g :
  starts envp d c m g (e, w) →
  wp host (Decode.trans_ebreak a) d c ((e, w), Next)
    (leaves envp d m (u64 (Dc.pc_next d)) EXCP_EBREAK g true).
Proof.
  intros Hst. start. unfold Decode.trans_ebreak. wp_auto.
  assert (Dc.pc d = 33) as -> by apply H. leave_auto. finish_leave.
Qed.
End helpers.
