(* ===== verification/RiscvFp.v ===== *)
(** * CSR and floating-point instructions are translated correctly

    These instructions work on words of the CPU struct, addressed off the env
    pointer, and the floating-point ones call the functions of fpu.rs.  Each first
    checks that the unit is on ([gen_fp_check]): a conditional exit in the middle of
    the instruction, after which the ops that follow are not run. *)

From S2P Require Import Prelude Types Opcodes Ir Builder IrSem Tb Frontend RiscvCpu RiscvGen.
From S2P Require Import RiscvTrans RiscvSem RiscvWp RiscvRules.

Section rules.
Variable host : Z → list Z → World.t → Z * World.t.
Variable envp : Z.
Let ext := fe_ext host.

(** ** Words of the CPU struct *)

Lemma env_holds c ts n g e w : good c ts n → repr envp g (e, w) → holds ts e 0 envp.
Proof.
  intros Hg Hr. pose proof (good_len _ _ _ Hg). unfold NB_GLOBALS in *. split; [lia|].
  destruct Hg as [[] <- _].
  destruct (global_local (temps c) 0 ok_globals) as (y & Hy & _ & Hc); [unfold NB_GLOBALS; lia|].
  unfold rd. rewrite Hy, Hc. apply (repr_env _ _ _ Hr).
Qed.

Definition offset_ok (off : Z) : Prop := 0 ≤ off < 2 ^ 31.

Lemma carg_offset off : offset_ok off → i32 (carg (u32 off)) = off.
Proof.
  unfold offset_ok. intros. unfold i32, u32, carg. rewrite signed_of_mod by lia. apply signed_small; lia.
Qed.

Lemma wp_ld_env off t g d c ts n e w (Q : Z → Dc.t → Context → state * ctl → Prop) :
  good c ts (S n) → self_ok d → repr envp g (e, w) → local_of ts t Type_.I64 → NB_GLOBALS ≤ t →
  offset_ok off →
  (∀ c' e', good c' ts n → (∀ l, fresh_label c l → fresh_label c' l) →
     (∀ u v, u ≠ t → holds ts e u v → holds ts e' u v) → holds ts e' t (fld envp off g) →
     repr envp g (e', w) → Q t d c' ((e', w), Next)) →
  wp host (ir (λ k, gen_ld k Type_.I64 t (Dc.env d) off)) d c ((e, w), Next) Q.
Proof.
  intros Hg Hself Hr Hl Ht Hoff HQ. assert (Dc.env d = 0) as -> by apply Hself.
  pose proof (env_holds _ _ _ _ _ _ Hg Hr) as H0.
  assert (w = Guest.world g) as -> by apply (repr_world _ _ _ Hr).
  eapply (wp_emit host _ t Opcode.Ld Type_.I64 [t] [0] [envp] [carg (u32 off)]);
    [done|done|done|done|done|done| |solve_all_hold|exec_fx|].
  - constructor; [|constructor]. by eexists.
  - rewrite carg_offset by done. intros c' Hg' Hf. apply HQ; [done|done| | |by apply repr_wr].
    + intros u v Hu. by apply holds_wr_ne.
    + pose proof (holds_wr_eq ts e t (fld envp off g) _ Hl) as Hh. cbn [Type_.size_bits] in Hh.
      rewrite mod_small_width in Hh by (apply mod_in_width; lia). exact Hh.
Qed.

Lemma wp_st_env off t v g d c ts n e w (Q : () → Dc.t → Context → state * ctl → Prop) :
  good c ts (S n) → self_ok d → repr envp g (e, w) → holds ts e t v → offset_ok off →
  (∀ c', good c' ts n → (∀ l, fresh_label c l → fresh_label c' l) →
     repr envp (set_fld envp off v g) (e, Guest.world (set_fld envp off v g)) →
     Q tt d c' ((e, Guest.world (set_fld envp off v g)), Next)) →
  wp host (ir_ (λ k, gen_st k Type_.I64 t (Dc.env d) off)) d c ((e, w), Next) Q.
Proof.
  intros Hg Hself Hr Hh Hoff HQ. assert (Dc.env d = 0) as -> by apply Hself.
  pose proof (env_holds _ _ _ _ _ _ Hg Hr) as H0.
  assert (w = Guest.world g) as -> by apply (repr_world _ _ _ Hr).
  eapply (wp_emit host _ tt Opcode.St Type_.I64 [] [t; 0] [v; envp] [carg (u32 off)]);
    [done|done|done|done|done|done|constructor|solve_all_hold|exec_fx|].
  rewrite carg_offset by done. intros c' Hg' Hf. apply HQ; [done|done|].
  by apply (repr_set_world _ _ _ (Guest.world g)).
Qed.

(** ** Host calls *)

Lemma call_address a : carg (u32 a) + carg (u32 (Z.shiftr a 32)) * 2 ^ 32 = u64 a.
Proof.
  unfold carg, u32, u64. rewrite Z.shiftr_div_pow2 by lia.
  change (2 ^ 64) with (2 ^ 32 * 2 ^ 32). rewrite Z.rem_mul_r by lia. lia.
Qed.

Lemma all_hold_padded ts e zero args vs :
  holds ts e zero 0 → all_hold ts e args vs → (length args ≤ 6)%nat →
  all_hold ts e (map (λ i, default zero (args !! i)) (seq 0 6)) (take 6 (vs ++ replicate 6 0)).
Proof.
  intros Hz Ha Hl.
  destruct args as [|a0 [|a1 [|a2 [|a3 [|a4 [|a5 [|]]]]]]]; simpl in Hl; try lia;
    repeat match goal with
    | H : all_hold _ _ [] _ |- _ => inversion H; subst; clear H
    | H : all_hold _ _ (_ :: _) _ |- _ => inversion H; subst; clear H
    | H : List.Forall2 _ _ _ |- _ => inversion H; subst; clear H
    end; simpl; repeat (apply list.Forall2_cons_2; [assumption|]); apply list.Forall2_nil_2.
Qed.
(** The six arguments a call passes for the values [vs]. *)
Definition padded (vs : list Z) : list Z := take 6 (vs ++ replicate 6 0).

Lemma padded_length vs : length (padded vs) = 6%nat.
Proof. unfold padded. rewrite length_take, length_app, length_replicate. lia. Qed.

Lemma exec_call ts dst a vs e w v w' :
  host (u64 a) (padded vs) w = (v, w') →
  exec ext ts Opcode.Call Type_.I64 [dst] (padded vs)
    [carg (u32 a); carg (u32 (Z.shiftr a 32))] (e, w) = (wr ts e dst v, w', Next).
Proof.
  pose proof (padded_length vs) as Hl.
  destruct (padded vs) as [|a0 [|a1 [|a2 [|a3 [|a4 [|a5 [|]]]]]]]; try discriminate Hl.
  intros Hh. cbn [exec exec_ext]. unfold exec_ext, ext. cbn [fe_ext fst snd].
  by rewrite call_address, Hh.
Qed.

Lemma wp_gen_call dst helper args vs v w' d c ts n e w
    (Q : Z → Dc.t → Context → state * ctl → Prop) :
  good c ts (S (S n)) → local_of ts dst Type_.I64 → all_hold ts e args vs → (length args ≤ 6)%nat →
  host (u64 helper) (padded vs) w = (v, w') →
  (∀ c' ts', good c' ts' n → ts `prefix_of` ts' → zlen ts ≤ zlen ts' →
     Q dst d c' ((wr ts' e dst v, w'), Next)) →
  wp host (ir (λ k, gen_call k dst helper args)) d c ((e, w), Next) Q.
Proof.
  intros Hg Hl Ha Hlen Hh HQ.
  destruct (good_new_const _ _ _ Type_.I64 0 Hg) as (z & c1 & Hn & Ho & _ & Hg1 & Hp & Hz & Hc).
  set (ts1 := temps c1) in *.
  assert (holds ts1 e z 0) as Hh0 by (by apply holds_const).
  assert (all_hold ts1 e args vs) as Ha1.
  { eapply list.Forall2_impl; [exact Ha|]. intros. by eapply holds_prefix. }
  pose proof (all_hold_padded _ _ _ _ _ Hh0 Ha1 Hlen) as Hins.
  set (ins := map _ _) in Hins.
  set (m := λ st : St, Some (dst, (st.1, (emit_op st.2 (Op.with_args (next_op_idx st.2) Opcode.Call
    Type_.I64 ([dst] ++ ins ++ [carg (u32 helper); carg (u32 (Z.shiftr helper 32))]))).2))).
  assert (wp host m d c1 ((e, w), Next) Q) as (a & d' & c' & os & Hm & Hos & Hp' & Hok & Hx).
  { eapply (wp_emit host m dst Opcode.Call Type_.I64 [dst] ins (padded vs)
      [carg (u32 helper); carg (u32 (Z.shiftr helper 32))]);
      [done|done|done|done|done|done| |exact Hins| |].
    - constructor; [|constructor]. eexists. by eapply local_of_prefix.
    - by apply exec_call.
    - intros c2 Hg2 _. apply HQ; [done|done|lia]. }
  exists a, d', c', os. unfold ir, gen_call. rewrite Hn. split; [exact Hm|].
  rewrite <- Ho. split; [done|]. split; [|done]. transitivity ts1; [by rewrite (good_temps _ _ _ Hg)|done].
Qed.
End rules.

(** ** Steps of the automation *)

Ltac solve_offset :=
  unfold offset_ok, reg, fpr_offset, UIP_OFFSET, UTVAL_OFFSET, UCAUSE_OFFSET, UEPC_OFFSET,
    USCRATCH_OFFSET, UTVEC_OFFSET, UIE_OFFSET, USTATUS_OFFSET, FRM_OFFSET, FFLAGS_OFFSET,
    LOAD_VAL_OFFSET, LOAD_RES_OFFSET, GUEST_BASE_OFFSET, PC_OFFSET, NUM_GPRS, NUM_FPRS in *; lia.

Ltac ld_env_step :=
  match goal with
  | Hg : good ?c ?ts _, Hr : repr _ ?g _, Hself : self_ok ?d
    |- wp _ (ir (λ k, gen_ld k _ ?t (Dc.env ?d) ?off)) _ _ _ _ =>
      eapply (wp_ld_env _ _ off t g);
      [exact Hg|exact Hself|exact Hr|eassumption|unfold NB_GLOBALS in *; lia|solve_offset|];
      let c' := fresh "c" in
      let e' := fresh "e" in
      let Hg' := fresh "Hg" in
      let Hf := fresh "Hf" in
      let Hk := fresh "Hk" in
      let Hh := fresh "Hh" in
      let Hr' := fresh "Hr" in
      intros c' e' Hg' Hf Hk Hh Hr'; keep_fresh Hf; keep_temps ts e' Hk;
      clear Hg Hr; try clear c; cbv beta
  end.

Ltac st_env_step :=
  match goal with
  | Hg : good ?c ?ts _, Hr : repr _ ?g _, Hself : self_ok ?d
    |- wp _ (ir_ (λ k, gen_st k _ ?t (Dc.env ?d) ?off)) _ _ _ _ =>
      eapply (wp_st_env _ _ off t _ g);
      [exact Hg|exact Hself|exact Hr|find_holds|solve_offset|];
      let c' := fresh "c" in
      let Hg' := fresh "Hg" in
      let Hf := fresh "Hf" in
      let Hr' := fresh "Hr" in
      intros c' Hg' Hf Hr'; keep_fresh Hf; clear Hg Hr; try clear c; cbv beta
  end.

Ltac unfold_step :=
  lazymatch goal with
  | |- wp _ (fpr_load _) _ _ _ _ => unfold fpr_load
  | |- wp _ (fpr_store _ _) _ _ _ _ => unfold fpr_store
  end.

Ltac fp_auto := repeat (first [unfold_step | ld_env_step | st_env_step | wp_step]; cbv beta).

Section sound.
Variable host : Z → list Z → World.t → Z * World.t.
Variable envp : Z.

(** What is known of temps stays known. *)
Definition carries (ts : list Temp.t) (e : env) (ts' : list Temp.t) (e' : env) : Prop :=
  ∀ u v, holds ts e u v → holds ts' e' u v.

(** ** The parts of a floating-point instruction *)

Lemma fs_test g :
  Cond.holds Cond.Ne 64 (Z.land (fld envp USTATUS_OFFSET g) USTATUS_FS_MASK mod 2 ^ 64 mod 2 ^ 64) 0 =
  negb (fs_off envp g).
Proof.
  unfold fs_off. simpl. rewrite !Zmod_mod, mod_small_width; [done|].
  apply land_in_width; [lia|]. apply mod_in_width. lia.
Qed.

Lemma wp_fp_check g d c ts n e w (Q : () → Dc.t → Context → state * ctl → Prop) :
  good c ts (12 + n) → self_ok d → repr envp g (e, w) →
  (∀ c' ts' e', good c' ts' n → repr envp g (e', w) →
     (fs_off envp g = true → e' 33 = u64 (Dc.pc_next d)) →
     Q tt d c' ((e', w), if fs_off envp g then Leave EXCP_UNDEF else Next)) →
  wp host gen_fp_check d c ((e, w), Next) Q.
Proof.
  intros Hg Hself Hr HQ. pose proof (good_len _ _ _ Hg) as Hlen. unfold gen_fp_check. fp_auto.
  new_label_step. fp_auto. brcond_step. rewrite fs_test.
  assert (Dc.pc d = 33) as -> by apply Hself.
  destruct (fs_off envp g) eqn:Hfs; cbn [negb].
  - leave_auto. set_label_step. eapply HQ; [solve_good|eassumption|done].
  - skip_auto. set_label_step. eapply HQ; [solve_good|eassumption|discriminate].
Qed.
(** What follows the check sees only states in which the unit is on; behind the exit
    it is translated all the same. *)
Lemma wp_left {A} (m : M A) d c σ s v (Q : A → Dc.t → Context → state * ctl → Prop) :
  wp host m d c σ (λ a d' c' _, Q a d' c' (s, Leave v)) → wp host m d c (s, Leave v) Q.
Proof.
  intros (a & d' & c' & os & ? & ? & ? & ? & HQ). exists a, d', c', os. unfold state in *.
  by rewrite exec_seq_left.
Qed.

Lemma fld_width off g : in_width 64 (fld envp off g).
Proof. apply mod_in_width. lia. Qed.

Lemma dirty_word v :
  in_width 64 v →
  Z.lor (Z.land v (2 ^ 64 - 1 - USTATUS_FS_MASK) mod 2 ^ 64 mod 2 ^ 64) USTATUS_FS_DIRTY
    mod 2 ^ 64 mod 2 ^ 64 =
  Z.lor (Z.land v (2 ^ 64 - 1 - USTATUS_FS_MASK)) USTATUS_FS_DIRTY.
Proof.
  intros Hv. pose proof (land_in_width 64 v (2 ^ 64 - 1 - USTATUS_FS_MASK) ltac:(lia) Hv) as Hl.
  rewrite !Zmod_mod, (mod_small_width 64 (Z.land _ _)) by done.
  apply mod_small_width, lor_in_width; done.
Qed.

Lemma wp_dirty g d c ts n e w (Q : () → Dc.t → Context → state * ctl → Prop) :
  good c ts (9 + n) → self_ok d → repr envp g (e, w) →
  (∀ c' ts' e', good c' ts' n → repr envp (set_dirty envp g) (e', Guest.world (set_dirty envp g)) →
     Q tt d c' ((e', Guest.world (set_dirty envp g)), Next)) →
  wp host gen_set_fs_dirty d c ((e, w), Next) Q.
Proof.
  intros Hg Hself Hr HQ. pose proof (good_len _ _ _ Hg) as Hlen. unfold gen_set_fs_dirty. fp_auto.
  rewrite dirty_word in * by apply fld_width. eapply HQ; [solve_good|done].
Qed.

(** ** Operands *)

(** What a floating-point instruction passes to its helper. *)
Inductive operand := F (i : Z) | X (i : Z) | Rm (v : Z).

Definition operand_ok (o : operand) : Prop := match o with F i | X i => reg i | Rm _ => True end.

Definition operand_value (g : Guest.t) (o : operand) : Z :=
  match o with F i => f envp g i | X i => x g i | Rm v => v end.

Definition load_operand (o : operand) : M Z :=
  match o with
  | F i => fpr_load i
  | X i => gpr_or_zero i
  | Rm v => ir (λ k, new_const k Type_.I64 v)
  end.

Fixpoint with_operands (os : list operand) (k : list Z → M bool) : M bool :=
  match os with
  | [] => k []
  | o :: os => t ← load_operand o; with_operands os (λ ts, k (t :: ts))
  end.

Lemma wp_load_operand o g d c ts n e w (Q : Z → Dc.t → Context → state * ctl → Prop) :
  good c ts (2 + n) → self_ok d → repr envp g (e, w) → operand_ok o →
  (∀ t c' ts' e', good c' ts' n → carries ts e ts' e' → repr envp g (e', w) →
     holds ts' e' t (operand_value g o) → Q t d c' ((e', w), Next)) →
  wp host (load_operand o) d c ((e, w), Next) Q.
Proof.
  intros Hg Hself Hr Ho HQ. pose proof (good_len _ _ _ Hg) as Hlen. destruct o as [i|i|v]; simpl in Ho.
  - apply wp_bind. eapply wp_get_self; [done|]. apply wp_bind. eapply wp_new_temp; [done|].
    intros c1 ts1 Hg1 Hp Hl Ht _. apply wp_bind.
    eapply (wp_ld_env _ _ _ _ g); [done|done|done|done|lia|solve_offset|].
    intros c2 e2 Hg2 _ Hk Hh Hr2. eapply wp_ret; [done|]. eapply HQ; [done| |done|done].
    intros u v Hu. apply Hk; [destruct Hu; lia|]. by eapply holds_prefix.
  - eapply (wp_gpr_or_zero _ _ _ g); [done|done|done|done|].
    intros t c1 ts1 Hg1 Hp Hl Hh _. eapply HQ; [solve_good| |done|done].
    intros u v. by apply holds_prefix.
  - eapply wp_new_const; [done|]. intros t c1 ts1 Hg1 Hp Hl Hc _.
    eapply HQ; [solve_good| |done|by apply holds_const]. intros u v'. by apply holds_prefix.
Qed.

Lemma wp_with_operands os k g d c ts n e w (Q : bool → Dc.t → Context → state * ctl → Prop) :
  good c ts (2 * length os + n) → self_ok d → repr envp g (e, w) → Forall operand_ok os →
  (∀ l c' ts' e', good c' ts' n → carries ts e ts' e' → repr envp g (e', w) →
     all_hold ts' e' l (operand_value g <$> os) → wp host (k l) d c' ((e', w), Next) Q) →
  wp host (with_operands os k) d c ((e, w), Next) Q.
Proof.
  intros Hg Hself Hr Hos. revert k c ts e Hg Hr. induction Hos as [|o os Ho Hos IH]; intros k c ts e Hg Hr HQ.
  { eapply HQ; [done|by intros ?|done|constructor]. }
  cbn [with_operands]. apply wp_bind.
  eapply (wp_load_operand o g d c ts (2 * length os + n));
    [eapply good_mono, Hg; simpl; lia|done|done|done|].
  intros t c1 ts1 e1 Hg1 Hc1 Hr1 Hh1. eapply IH; [done|done|].
  intros l c2 ts2 e2 Hg2 Hc2 Hr2 Hl. eapply HQ; [done| |done|].
  - intros u v Hu. by apply Hc2, Hc1.
  - constructor; [by apply Hc2|done].
Qed.
(** ** Instructions *)

Definition dirtied (dirty : bool) (g : Guest.t) : Guest.t := if dirty then set_dirty envp g else g.

Definition fp_body (dirty : bool) (k : M bool) : M bool :=
  _ ← gen_fp_check;
  if dirty then _ ← gen_set_fs_dirty; k else k.

Lemma sound_fp_body dirty k rest d c m e w g :
  starts envp d c m g (e, w) →
  (∀ c ts e, good c ts (40 + m) → repr envp (dirtied dirty g) (e, Guest.world (dirtied dirty g)) →
     wp host k d c ((e, Guest.world (dirtied dirty g)), Next) (falls envp d m (rest (dirtied dirty g)))) →
  wp host (fp_body dirty k) d c ((e, w), Next)
    (ends envp d m g (fp envp (Dc.pc_next d) g (λ g, Fall (rest (dirtied dirty g))))).
Proof.
  intros ([ts Hg] & Hself & Hr) Hk. unfold fp_body. apply wp_bind.
  eapply (wp_fp_check g _ _ _ (9 + (43 + m))); [exact Hg|done|done|].
  intros c1 ts1 e1 Hg1 Hr1 Hpc.
  assert (∀ Q : bool → Dc.t → Context → state * ctl → Prop,
    (∀ b d' c' σ, falls envp d m (rest (dirtied dirty g)) b d' c' σ → Q b d' c' σ) →
    wp host (if dirty then _ ← gen_set_fs_dirty; k else k) d c1 ((e1, w), Next) Q) as Hrest.
  { intros Q HQ. eapply wp_mono; [exact HQ|]. destruct dirty.
    - apply wp_bind. eapply wp_dirty; [exact Hg1|done|exact Hr1|]. intros c2 ts2 e2 Hg2 Hr2.
      eapply Hk; [eapply good_mono, Hg2; lia|exact Hr2].
    - replace w with (Guest.world g) in * by (symmetry; apply (repr_world _ _ _ Hr1)).
      eapply Hk; [eapply good_mono, Hg1; lia|exact Hr1]. }
  unfold fp. destruct (fs_off envp g).
  - eapply wp_left, Hrest. intros b d' c' σ (? & ? & ? & _). split; [done|]. split_and!; auto.
  - apply Hrest. intros b d' c' σ. apply falls_ends.
Qed.

Inductive dest := ToF (i : Z) | ToX (i : Z).

Definition dest_ok (o : dest) : Prop := match o with ToF i | ToX i => reg i end.

Definition store_dest (o : dest) (t : Z) : M unit :=
  match o with ToF i => fpr_store i t | ToX i => gen_set_gpr i t end.

Definition set_dest (o : dest) (v : Z) (g : Guest.t) : Guest.t :=
  match o with ToF i => set_f envp i v g | ToX i => set_x i v g end.

Context `{HelperAddr}.

Definition helper_body (env : Z) (h : Helper.t) (os : list operand) (o : dest) : M bool :=
  with_operands os (λ ts,
    res ← gen_helper_call (addr_of h) (env :: ts);
    _ ← store_dest o res;
    mret true).

Lemma world_set_x i v g : Guest.world (set_x i v g) = Guest.world g.
Proof. unfold set_x. by destruct (i =? 0). Qed.

Lemma wp_store_dest o t v g d c ts n e w (Q : () → Dc.t → Context → state * ctl → Prop) :
  good c ts (S n) → self_ok d → repr envp g (e, w) → dest_ok o → in_width 64 v → holds ts e t v →
  (∀ c' s, good c' ts n → repr envp (set_dest o v g) s → Q tt d c' (s, Next)) →
  wp host (store_dest o t) d c ((e, w), Next) Q.
Proof.
  intros Hg Hself Hr Ho Hv Hh HQ. destruct o as [i|i]; cbn [store_dest set_dest dest_ok] in *.
  - apply wp_bind. eapply wp_get_self; [done|].
    eapply (wp_st_env _ _ _ _ v g); [done|done|done|done|solve_offset|].
    intros c' Hg' _ Hr'. by apply HQ.
  - eapply (wp_set_gpr_of _ _ i g t v); [done|done|done|done|done|].
    intros c' e' Hg' _ Hr'. apply HQ; [done|]. unfold u64 in Hr'. by rewrite mod_small_width in Hr'.
Qed.

Lemma sound_helper_body h os o d c ts m e g :
  good c ts (40 + m) → self_ok d → repr envp g (e, Guest.world g) →
  Forall operand_ok os → (length os ≤ 5)%nat → dest_ok o →
  wp host (helper_body (Dc.env d) h os o) d c ((e, Guest.world g), Next)
    (falls envp d m (rv_helper host envp h (λ g, operand_value g <$> os) (set_dest o) g)).
Proof.
  intros Hg Hself Hr Hos Hlen Ho. pose proof (good_len _ _ _ Hg) as Hlen0. unfold helper_body.
  eapply (wp_with_operands _ _ g _ _ _ (4 + m)); [eapply good_mono, Hg; lia|done|done|done|].
  intros l c1 ts1 e1 Hg1 _ Hr1 Hl. cbv beta. unfold gen_helper_call. apply wp_bind, wp_bind.
  assert (Dc.env d = 0) as -> by apply Hself.
  pose proof (env_holds _ _ _ _ _ _ _ Hg1 Hr1) as H0.
  pose proof (good_len _ _ _ Hg1) as Hlen1. unfold NB_GLOBALS in *.
  eapply wp_new_temp; [exact Hg1|]. intros c2 ts2 Hg2 Hp Hl2 Ht _. apply wp_bind.
  unfold rv_helper. destruct (host _ _ _) as [v w'] eqn:Hh.
  eapply (wp_gen_call _ _ _ _ (envp :: (operand_value g <$> os))); [exact Hg2|exact Ht| | |exact Hh|].
  - eapply list.Forall2_impl; [|intros ? ? Hx; eapply holds_prefix; [exact Hp|exact Hx]].
    by constructor.
  - simpl. apply list.Forall2_length in Hl. rewrite length_fmap in Hl. lia.
  - intros c3 ts3 Hg3 Hp3 Hl3. eapply wp_ret; [done|]. apply wp_bind.
    apply (local_of_prefix _ _ _ _ Hp3) in Ht.
    pose proof (holds_wr_eq ts3 e1 (zlen ts1) v _ Ht) as Hv.
    eapply (wp_store_dest o _ (u64 v) (set_world w' g)); [exact Hg3|done| |done| |exact Hv|].
    + eapply (repr_set_world _ _ _ (Guest.world g)), repr_wr; [unfold NB_GLOBALS; lia|exact Hr1].
    + apply mod_in_width. lia.
    + intros c4 s Hg4 Hr4. eapply wp_ret; [done|]. split_and!; [done|done| |done|exact Hr4].
      eexists. eapply good_mono, Hg4. lia.
Qed.
(** ** Loads, stores and moves *)

Lemma load_single w a : in_width 32 (World.load w a 4 false).
Proof.
  unfold World.load. set (bs := World.load_bytes _ _ _).
  assert (in_width 32 (le_value bs)) as Hv.
  { apply (le_value_range bs). apply list.Forall_forall. intros b Hb.
    apply list_elem_of_fmap in Hb as (i & -> & _). apply (mod_in_width 8). lia. }
  unfold u64. rewrite mod_small_width; [done|]. by apply (in_width_mono 32).
Qed.

Lemma nan_word v :
  in_width 32 v → Z.lor (v mod 2 ^ 64) 0xffffffff00000000 mod 2 ^ 64 mod 2 ^ 64 = nan_box v.
Proof.
  intros Hv. unfold nan_box, u32. rewrite (mod_small_width 32 v) by done.
  pose proof (in_width_mono 32 64 v ltac:(lia) Hv) as Hv'. rewrite (mod_small_width 64 v), Zmod_mod by done.
  apply mod_small_width, lor_in_width; [lia|done|]. unfold in_width. lia.
Qed.

Ltac fp_start :=
  let c := fresh "c" in
  let ts := fresh "ts" in
  let e := fresh "e" in
  let Hg := fresh "Hg" in
  let Hr := fresh "Hr" in
  intros c ts e Hg Hr; cbn [dirtied] in *;
  pose proof (good_len _ _ _ Hg).

(** Past the check, from a state in which the unit is on. *)
Ltac fp_begin dirty rest :=
  match goal with
  | Hst : starts _ ?d ?c _ _ (?e, ?w) |- _ =>
      pose proof (proj1 (proj2 Hst));
      refine (sound_fp_body dirty _ rest _ _ _ _ _ _ Hst _);
      clear c e w Hst; fp_start
  end.

Ltac fp_insn He dirty rest :=
  match goal with
  | Hst : starts _ _ _ _ _ _ |- _ =>
      let ts := fresh "ts" in
      let Hg := fresh "Hg" in
      destruct (proj1 Hst) as [ts Hg];
      eapply wp_require_ext; [exact Hg|]; rewrite He; clear ts Hg;
      fp_begin dirty rest; fp_auto; finish
  end.

Lemma sound_fp_load n single a mo d c m e w g :
  MemOp.size_bytes mo = n → MemOp.is_signed mo = false → (single = true → n = 4) →
  starts envp d c m g (e, w) → reg (ArgsI.rd a) → reg (ArgsI.rs1 a) →
  wp host (gen_fp_load a mo single) d c ((e, w), Next)
    (ends envp d m g (fp envp (Dc.pc_next d) g (λ g, Fall (rv_fload envp n single a (set_dirty envp g))))).
Proof.
  intros Hn Hs Hsg Hst Hrd Hr1. fp_begin true (rv_fload envp n single a). generalize dependent (set_dirty envp g). clear g. intros g Hr.
  pose proof (x_in_width _ _ _ _ Hr Hr1) as Hx.
  destruct (Z.eqb_spec (ArgsI.imm a) 0) as [Hi|Hi]; cbn [negb]; fp_auto; destruct single; fp_auto;
    finish; unfold rv_fload, carg; rewrite ?addr_imm, <- ?(addr_zero _ _ Hx Hi), Hn, Hs.
  1, 3: rewrite Hsg by done; rewrite nan_word by apply load_single; done.
  all: by rewrite load_u64.
Qed.

Lemma store_low w a v :
  World.store w a 4 (signed 32 (v mod 2 ^ 32 mod 2 ^ 32) mod 2 ^ 64 mod 2 ^ 64) = World.store w a 4 v.
Proof.
  unfold World.store. change (8 * 4) with 32.
  by rewrite Zmod_mod, mod_mod_pow2, signed_mod, !Zmod_mod by lia.
Qed.

Lemma sound_fp_store n single a mo d c m e w g :
  MemOp.size_bytes mo = n → (single = true → n = 4) →
  starts envp d c m g (e, w) → args_s a →
  wp host (gen_fp_store a mo single) d c ((e, w), Next)
    (ends envp d m g (fp envp (Dc.pc_next d) g (λ g, Fall (rv_fstore envp n a g)))).
Proof.
  intros Hn Hsg Hst [Hr1 Hr2]. fp_begin false (rv_fstore envp n a). pose proof (x_in_width _ _ _ _ Hr Hr1) as Hx.
  destruct (Z.eqb_spec (ArgsS.imm a) 0) as [Hi|Hi]; cbn [negb]; fp_auto; destruct single; fp_auto;
    finish; unfold rv_fstore, carg; rewrite ?addr_imm, <- ?(addr_zero _ _ Hx Hi), Hn.
  all: rewrite ?Hsg by done; by rewrite ?store_low.
Qed.

Lemma sound_fmv_x_w a d c m e w g :
  starts envp d c m g (e, w) → reg (ArgsR2.rd a) → reg (ArgsR2.rs1 a) →
  MisaExt.contains (RiscvCfg.misa (Dc.cfg d)) MisaExt.F = true →
  wp host (Decode.trans_fmv_x_w a) d c ((e, w), Next)
    (ends envp d m g (fp envp (Dc.pc_next d) g
       (λ g, Fall (set_x (ArgsR2.rd a) (sext32 (f envp g (ArgsR2.rs1 a))) g)))).
Proof.
  intros Hst Hrd Hr1 He. fp_insn He false (λ g, set_x (ArgsR2.rd a) (sext32 (f envp g (ArgsR2.rs1 a))) g). by rewrite !sext32_mod.
Qed.

Lemma sound_fmv_w_x a d c m e w g :
  starts envp d c m g (e, w) → reg (ArgsR2.rd a) → reg (ArgsR2.rs1 a) →
  MisaExt.contains (RiscvCfg.misa (Dc.cfg d)) MisaExt.F = true →
  wp host (Decode.trans_fmv_w_x a) d c ((e, w), Next)
    (ends envp d m g (fp envp (Dc.pc_next d) g
       (λ g, Fall (let g := set_dirty envp g in
                   set_f envp (ArgsR2.rd a) (nan_box (x g (ArgsR2.rs1 a))) g)))).
Proof.
  intros Hst Hrd Hr1 He. fp_insn He true (λ g, set_f envp (ArgsR2.rd a) (nan_box (x g (ArgsR2.rs1 a))) g).
  rewrite nan_word by (apply mod_in_width; lia). unfold nan_box, u32. by rewrite !Zmod_mod.
Qed.

Lemma sound_fmv_x_d a d c m e w g :
  starts envp d c m g (e, w) → reg (ArgsR2.rd a) → reg (ArgsR2.rs1 a) →
  MisaExt.contains (RiscvCfg.misa (Dc.cfg d)) MisaExt.D = true →
  wp host (Decode.trans_fmv_x_d a) d c ((e, w), Next)
    (ends envp d m g (fp envp (Dc.pc_next d) g
       (λ g, Fall (set_x (ArgsR2.rd a) (f envp g (ArgsR2.rs1 a)) g)))).
Proof.
  intros Hst Hrd Hr1 He. fp_insn He false (λ g, set_x (ArgsR2.rd a) (f envp g (ArgsR2.rs1 a)) g).
  f_equal. unfold u64. by rewrite mod_small_width by apply fld_width.
Qed.

Lemma sound_fmv_d_x a d c m e w g :
  starts envp d c m g (e, w) → reg (ArgsR2.rd a) → reg (ArgsR2.rs1 a) →
  MisaExt.contains (RiscvCfg.misa (Dc.cfg d)) MisaExt.D = true →
  wp host (Decode.trans_fmv_d_x a) d c ((e, w), Next)
    (ends envp d m g (fp envp (Dc.pc_next d) g
       (λ g, Fall (let g := set_dirty envp g in set_f envp (ArgsR2.rd a) (x g (ArgsR2.rs1 a)) g)))).
Proof.
  intros Hst Hrd Hr1 He. fp_insn He true (λ g, set_f envp (ArgsR2.rd a) (x g (ArgsR2.rs1 a)) g).
Qed.
(** ** CSRs *)

Lemma const_local ts t v : globals_ok ts → const_of ts t v → NB_GLOBALS ≤ t.
Proof.
  intros Hg (y & Hy & Hc & _). destruct (decide (t < NB_GLOBALS)); [|lia].
  pose proof (zlookup_lt_Some _ _ _ Hy).
  destruct (Hg t ltac:(lia)) as (y' & Hy' & _ & Hc'). congruence.
Qed.

Lemma masked v m : in_width 64 v → Z.land v m mod 2 ^ 64 mod 2 ^ 64 = Z.land v m.
Proof. intros Hv. rewrite Zmod_mod. apply mod_small_width, land_in_width; [lia|done]. Qed.

Lemma masked_width v m : in_width 64 v → in_width 64 (Z.land v m).
Proof. apply land_in_width. lia. Qed.

(** fcsr: frm above fflags. *)
Lemma fcsr_width u v : in_width 64 (Z.lor (Z.land u 31) (Z.land v 7 * 32)).
Proof.
  apply (in_width_mono 8); [lia|]. change 31 with (2 ^ 5 - 1). change 7 with (2 ^ 3 - 1).
  rewrite !land_ones_mod by lia.
  pose proof (Z.mod_pos_bound u (2 ^ 5)). pose proof (Z.mod_pos_bound v (2 ^ 3)).
  apply lor_in_width; unfold in_width; lia.
Qed.

Lemma fcsr_word u v :
  in_width 64 u → in_width 64 v →
  Z.lor (Z.land u 31 mod 2 ^ 64 mod 2 ^ 64)
    (Z.land v 7 mod 2 ^ 64 mod 2 ^ 64 * 2 ^ (5 mod 64) mod 2 ^ 64 mod 2 ^ 64) mod 2 ^ 64 mod 2 ^ 64 =
  Z.lor (Z.land u 31) (Z.land v 7 * 32).
Proof.
  intros Hu Hv. rewrite !masked by done. change (2 ^ (5 mod 64)) with 32.
  assert (in_width 64 (Z.land v 7 * 32)) as Hw.
  { change 7 with (2 ^ 3 - 1). rewrite land_ones_mod by lia.
    pose proof (Z.mod_pos_bound v (2 ^ 3)). unfold in_width. lia. }
  rewrite !Zmod_mod, (mod_small_width 64 (_ * 32)) by done. apply mod_small_width, fcsr_width.
Qed.

Ltac csr_value :=
  first [eassumption
        |rewrite masked in * by apply fld_width; eassumption
        |rewrite fcsr_word in * by apply fld_width; eassumption
        |apply holds_const; eassumption].

Ltac csr_width :=
  first [apply fld_width | apply masked_width, fld_width | apply fcsr_width | done].

Lemma wp_csr_read csr g d c ts n e w (Q : option Z → Dc.t → Context → state * ctl → Prop) :
  good c ts (16 + n) → self_ok d → repr envp g (e, w) →
  (csr_read envp csr g = None → Q None d c ((e, w), Next)) →
  (∀ v t c' ts' e', csr_read envp csr g = Some v → good c' ts' n → repr envp g (e', w) →
     in_width 64 v → NB_GLOBALS ≤ t → holds ts' e' t v → Q (Some t) d c' ((e', w), Next)) →
  wp host (gen_csr_read csr) d c ((e, w), Next) Q.
Proof.
  intros Hg Hself Hr HN HS. pose proof (good_len _ _ _ Hg) as Hlen.
  assert (globals_ok ts) as Hgl by (destruct Hg as [[] <- _]; done).
  unfold gen_csr_read. apply wp_bind. wp_step.
  repeat lazymatch goal with
  | |- wp _ (if csr =? ?k then _ else _) _ _ _ _ =>
      destruct (Z.eqb_spec csr k) as [-> |];
      [fp_auto; eapply HS;
       [reflexivity|solve_good|eassumption|csr_width|unfold NB_GLOBALS in *; lia|csr_value]|]
  end.
  destruct ((csr =? CSR_CYCLE) || (csr =? CSR_TIME) || (csr =? CSR_INSTRET)) eqn:Hro.
  - apply wp_bind. eapply wp_new_const; [exact Hg|]. intros t c1 ts1 Hg1 Hp Hl Hc _.
    eapply wp_ret; [exact Hg1|].
    eapply (HS 0); [|solve_good|exact Hr|done| |by apply holds_const].
    + unfold csr_read, read_only. rewrite Hro. by rewrite !(proj2 (Z.eqb_neq _ _)).
    + eapply const_local, Hc. by destruct Hg1 as [[] <- _].
  - eapply wp_ret; [exact Hg|]. apply HN.
    unfold csr_read, read_only, csr_field. rewrite Hro. by rewrite !(proj2 (Z.eqb_neq _ _)).
Qed.

Lemma frm_word v :
  in_width 64 v →
  Z.land (v mod 2 ^ 64 / 2 ^ (5 mod 64) mod 2 ^ 64) FRM_MASK mod 2 ^ 64 mod 2 ^ 64 =
  Z.land (v / 32) 7.
Proof.
  intros Hv. change (2 ^ (5 mod 64)) with 32.
  assert (in_width 64 (v / 32)) as Hw.
  { unfold in_width in *. split; [apply Z.div_pos; lia|]. apply Z.div_lt_upper_bound; lia. }
  rewrite (mod_small_width 64 v), (mod_small_width 64 (v / 32)) by done. by apply masked.
Qed.

(** A write; [u] is a temp the caller still needs. *)
Lemma wp_csr_write csr t v u vu g d c ts n e w (Q : bool → Dc.t → Context → state * ctl → Prop) :
  good c ts (20 + n) → self_ok d → repr envp g (e, w) → in_width 64 v → holds ts e t v →
  NB_GLOBALS ≤ u → holds ts e u vu →
  (csr_write envp csr v g = None → Q false d c ((e, w), Next)) →
  (∀ g' c' ts' e', csr_write envp csr v g = Some g' → good c' ts' n →
     repr envp g' (e', Guest.world g') → holds ts' e' u vu →
     Q true d c' ((e', Guest.world g'), Next)) →
  wp host (gen_csr_write csr t) d c ((e, w), Next) Q.
Proof.
  intros Hg Hself Hr Hv Ht Hu Hu' HN HS. pose proof (good_len _ _ _ Hg) as Hlen.
  pose proof (proj1 Hu') as Hul. pose proof (proj1 Ht) as Htl.
  unfold gen_csr_write, gen_set_fs_dirty. apply wp_bind. wp_step.
  do 11 lazymatch goal with
  | |- wp _ (if csr =? ?k then _ else _) _ _ _ _ =>
      destruct (Z.eqb_spec csr k) as [-> |];
      [fp_auto; try rewrite dirty_word in * by apply fld_width;
       try rewrite (frm_word v) in * by done; try rewrite (masked v) in * by done;
       eapply HS; [reflexivity|solve_good|eassumption|eassumption]|]
  end.
  assert (csr_write envp csr v g = None) as Hw.
  { unfold csr_write, csr_field. by rewrite !(proj2 (Z.eqb_neq _ _)). }
  destruct ((csr =? CSR_CYCLE) || (csr =? CSR_TIME) || (csr =? CSR_INSTRET));
    (eapply wp_ret; [exact Hg|by apply HN]).
Qed.
(** The end of a CSR instruction: the old value goes to [rd]. *)
Lemma sound_csr_end rd old vo d c ts m e w g g' :
  self_ok d → reg rd → good c ts (S m) → repr envp g' (e, w) → holds ts e old vo → in_width 64 vo →
  wp host (_ ← gen_set_gpr rd old; mret true) d c ((e, w), Next) (ends envp d m g (Fall (set_x rd vo g'))).
Proof.
  intros Hself Hrd Hg Hr Hh Hv. apply wp_bind.
  eapply (wp_set_gpr_of _ _ rd g'); [done..|]. intros c' e' Hg' _ Hr'. eapply wp_ret; [done|].
  unfold u64 in Hr'. rewrite mod_small_width in Hr' by done. apply falls_ends.
  split_and!; [done|done|by eexists|done|exact Hr'].
Qed.

(** Its write. *)
Lemma sound_csr_write csr rd t v old vo d c ts m e w g :
  self_ok d → reg rd → good c ts (21 + m) → repr envp g (e, w) → in_width 64 v → holds ts e t v →
  NB_GLOBALS ≤ old → holds ts e old vo → in_width 64 vo →
  wp host (gen_csr_write csr t) d c ((e, w), Next) (λ ok d' c' σ,
    wp host (if negb ok then mret false else _ ← gen_set_gpr rd old; mret true) d' c' σ
      (ends envp d m g
         (match csr_write envp csr v g with None => Illegal | Some g' => Fall (set_x rd vo g') end))).
Proof.
  intros Hself Hrd Hg Hr Hv Ht Hold Ho Hvo.
  eapply (wp_csr_write csr t v old vo g _ _ _ (S m)); [exact Hg|done..| |].
  - intros ->. cbn [negb]. eapply wp_ret; [exact Hg|]. split; [|done].
    eexists. eapply good_mono, Hg. lia.
  - intros g' c' ts' e' -> Hg' Hr' Ho'. cbn [negb]. by eapply sound_csr_end.
Qed.

(** Its read. *)
Lemma sound_csr_read csr (K : Z → M bool) (r : result) d c ts m e w g :
  self_ok d → good c ts (16 + (40 + m)) → repr envp g (e, w) →
  (csr_read envp csr g = None → r = Illegal) →
  (∀ vo old c ts e, csr_read envp csr g = Some vo → good c ts (40 + m) → repr envp g (e, w) →
     in_width 64 vo → NB_GLOBALS ≤ old → holds ts e old vo →
     wp host (K old) d c ((e, w), Next) (ends envp d m g r)) →
  wp host (gen_csr_read csr) d c ((e, w), Next) (λ o d' c' σ,
    wp host (match o with None => mret false | Some old => K old end) d' c' σ (ends envp d m g r)).
Proof.
  intros Hself Hg Hr HN HS. eapply (wp_csr_read _ g _ _ _ (40 + m)); [exact Hg|done..| |].
  - intros Hn. rewrite (HN Hn). eapply wp_ret; [exact Hg|]. split; [|done].
    eexists. eapply good_mono, Hg. lia.
  - intros v t c' ts' e' Hv Hg' Hr' Hw Ht Hh. by eapply HS.
Qed.

Definition args_csr (a : ArgsCsr.t) : Prop := reg (ArgsCsr.rd a) ∧ reg (ArgsCsr.rs1 a).

Ltac csr_begin :=
  match goal with
  | H : starts _ _ _ _ ?g _, Ha : args_csr _ |- _ =>
      let ts := fresh "ts" in
      let Hg := fresh "Hg" in
      let Hcr := fresh "Hcr" in
      destruct H as ([ts Hg] & Hself & Hr); destruct Ha as [Hrd Hr1];
      unfold rv_csr; eapply wp_require_cfg; [exact Hg|];
      destruct (RiscvCfg.ext_zicsr _); cbn [negb];
      [|split; [eexists; eapply good_mono, Hg; lia|done]];
      apply wp_bind; eapply sound_csr_read;
      [done|eapply good_mono, Hg; lia|exact Hr|intros ->; done|];
      clear Hg Hr; try clear ts;
      let vo := fresh "vo" in
      let old := fresh "old" in
      let c := fresh "c" in
      let ts := fresh "ts" in
      let e := fresh "e" in
      let Hg := fresh "Hg" in
      let Hr := fresh "Hr" in
      let Hvo := fresh "Hvo" in
      let Hold := fresh "Hold" in
      let Hh := fresh "Hh" in
      intros vo old c ts e -> Hg Hr Hvo Hold Hh;
      pose proof (good_len _ _ _ Hg); pose proof (proj1 Hh)
  end.

(** The values the set and clear forms write. *)
Lemma csr_or_word u v :
  in_width 64 u → in_width 64 v → Z.lor u v mod 2 ^ 64 mod 2 ^ 64 = Z.lor u v.
Proof. intros. rewrite Zmod_mod. apply mod_small_width, lor_in_width; done. Qed.

Lemma csr_clear_word u v :
  in_width 64 u → in_width 64 v →
  Z.land u ((- v - 1) mod 2 ^ 64 mod 2 ^ 64) mod 2 ^ 64 mod 2 ^ 64 = Z.land u (2 ^ 64 - 1 - v).
Proof.
  intros Hu Hv. unfold in_width in Hv.
  assert ((- v - 1) mod 2 ^ 64 = 2 ^ 64 - 1 - v) as ->.
  { symmetry. apply (Z.mod_unique_pos _ _ (-1)); lia. }
  rewrite (Z.mod_small (2 ^ 64 - 1 - v)) by lia. by apply masked.
Qed.

Ltac csr_write_step :=
  eapply sound_csr_write;
  [done|done|solve_good|eassumption| |find_holds|done|eassumption|done].

Ltac csr_end_step :=
  eapply wp_ret; [eassumption|]; cbn [negb];
  eapply sound_csr_end; [done|done|solve_good|done|eassumption|done].

Lemma sound_csrrw a d c m e w g :
  starts envp d c m g (e, w) → args_csr a →
  wp host (Decode.trans_csrrw a) d c ((e, w), Next)
    (ends envp d m g (rv_csr (Dc.cfg d) envp true (λ _, x g (ArgsCsr.rs1 a)) a g)).
Proof.
  intros Hst Ha. csr_begin. fp_auto. csr_write_step. by eapply x_in_width.
Qed.

Lemma sound_csrrwi a d c m e w g :
  starts envp d c m g (e, w) → args_csr a →
  wp host (Decode.trans_csrrwi a) d c ((e, w), Next)
    (ends envp d m g (rv_csr (Dc.cfg d) envp true (λ _, u64 (ArgsCsr.rs1 a)) a g)).
Proof.
  intros Hst Ha. csr_begin. fp_auto. csr_write_step. apply mod_in_width. lia.
Qed.

Lemma sound_csrrs a d c m e w g :
  starts envp d c m g (e, w) → args_csr a →
  wp host (Decode.trans_csrrs a) d c ((e, w), Next)
    (ends envp d m g (rv_csr (Dc.cfg d) envp (negb (ArgsCsr.rs1 a =? 0))
       (λ old, Z.lor old (x g (ArgsCsr.rs1 a))) a g)).
Proof.
  intros Hst Ha. csr_begin. apply wp_bind. destruct (Z.eqb_spec (ArgsCsr.rs1 a) 0) as [|Hz]; cbn [negb].
  { csr_end_step. }
  pose proof (x_in_width _ _ _ _ Hr Hr1). fp_auto. rewrite csr_or_word in * by done.
  csr_write_step. by apply lor_in_width.
Qed.
Lemma sound_csrrsi a d c m e w g :
  starts envp d c m g (e, w) → args_csr a →
  wp host (Decode.trans_csrrsi a) d c ((e, w), Next)
    (ends envp d m g (rv_csr (Dc.cfg d) envp (negb (ArgsCsr.rs1 a =? 0))
       (λ old, Z.lor old (u64 (ArgsCsr.rs1 a))) a g)).
Proof.
  intros Hst Ha. csr_begin. apply wp_bind. destruct (Z.eqb_spec (ArgsCsr.rs1 a) 0) as [|Hz]; cbn [negb].
  { csr_end_step. }
  assert (in_width 64 (u64 (ArgsCsr.rs1 a))) by (apply mod_in_width; lia).
  fp_auto. rewrite csr_or_word in * by done. csr_write_step. by apply lor_in_width.
Qed.

Lemma sound_csrrc a d c m e w g :
  starts envp d c m g (e, w) → args_csr a →
  wp host (Decode.trans_csrrc a) d c ((e, w), Next)
    (ends envp d m g (rv_csr (Dc.cfg d) envp (negb (ArgsCsr.rs1 a =? 0))
       (λ old, Z.land old (2 ^ 64 - 1 - x g (ArgsCsr.rs1 a))) a g)).
Proof.
  intros Hst Ha. csr_begin. apply wp_bind. destruct (Z.eqb_spec (ArgsCsr.rs1 a) 0) as [|Hz]; cbn [negb].
  { csr_end_step. }
  pose proof (x_in_width _ _ _ _ Hr Hr1). fp_auto. rewrite csr_clear_word in * by done.
  csr_write_step. by apply masked_width.
Qed.

Lemma sound_csrrci a d c m e w g :
  starts envp d c m g (e, w) → args_csr a →
  wp host (Decode.trans_csrrci a) d c ((e, w), Next)
    (ends envp d m g (rv_csr (Dc.cfg d) envp (negb (ArgsCsr.rs1 a =? 0))
       (λ old, Z.land old (2 ^ 64 - 1 - u64 (ArgsCsr.rs1 a))) a g)).
Proof.
  intros Hst Ha. csr_begin. apply wp_bind. destruct (Z.eqb_spec (ArgsCsr.rs1 a) 0) as [|Hz]; cbn [negb].
  { csr_end_step. }
  assert (in_width 64 (u64 (ArgsCsr.rs1 a))) by (apply mod_in_width; lia).
  fp_auto. rewrite csr_clear_word in * by done. csr_write_step. by apply masked_width.
Qed.
End sound.
