(* ===== verification/RiscvSound.v ===== *)
(** * Every instruction is translated correctly

    [translates i]: from a state that stands for a guest state, the ops emitted for
    [i] end the way the reference semantics ends ([ends]); proved for every
    constructor of [Insn], one family at a time, and collected in [trans_sound].

    Two things are assumed.  [args_ok] holds of every instruction the decoder makes:
    registers are below 32 and shift amounts are not negative.  [agrees] is where the
    translation and the reference part: a shift amount is below the width (the
    translation takes the others modulo the width, the reference rejects them), an SC
    is executed with the reservation held, and the word forms of AMOMIN and AMOMAX
    with a sign-extended operand (the translation does not look at the reservation,
    and compares all 64 bits). *)

From S2P Require Import Prelude Types Opcodes Ir Builder IrSem Tb Frontend RiscvCpu RiscvGen.
From S2P Require Import RiscvTrans RiscvSem RiscvWp RiscvRules RiscvInt RiscvFp.

Definition args_ok (i : Insn.t) : Prop :=
  match i with
  | Insn.lui a | Insn.auipc a => reg (ArgsU.rd a)
  | Insn.jal a => reg (ArgsJ.rd a)
  | Insn.jalr a | Insn.lb a | Insn.lh a | Insn.lw a | Insn.lbu a | Insn.lhu a | Insn.addi a |
    Insn.slti a | Insn.sltiu a | Insn.xori a | Insn.ori a | Insn.andi a | Insn.lwu a |
    Insn.ld a | Insn.addiw a | Insn.flw a | Insn.fld a => args_i a
  | Insn.beq a | Insn.bne a | Insn.blt a | Insn.bge a | Insn.bltu a | Insn.bgeu a => args_b a
  | Insn.sb a | Insn.sh a | Insn.sw a | Insn.sd a | Insn.fsw a | Insn.fsd a => args_s a
  | Insn.slli a | Insn.srli a | Insn.srai a | Insn.slliw a | Insn.srliw a | Insn.sraiw a =>
      args_shift a ∧ 0 ≤ ArgsShift.shamt a
  | Insn.add a | Insn.sub a | Insn.sll a | Insn.slt a | Insn.sltu a | Insn.xor a | Insn.srl a |
    Insn.sra a | Insn.or a | Insn.and a | Insn.addw a | Insn.subw a | Insn.sllw a |
    Insn.srlw a | Insn.sraw a | Insn.mul a | Insn.mulh a | Insn.mulhsu a | Insn.mulhu a |
    Insn.div a | Insn.divu a | Insn.rem a | Insn.remu a | Insn.mulw a | Insn.divw a |
    Insn.divuw a | Insn.remw a | Insn.remuw a | Insn.fsgnj_s a | Insn.fsgnjn_s a |
    Insn.fsgnjx_s a | Insn.fmin_s a | Insn.fmax_s a | Insn.feq_s a | Insn.flt_s a |
    Insn.fle_s a | Insn.fsgnj_d a | Insn.fsgnjn_d a | Insn.fsgnjx_d a | Insn.fmin_d a |
    Insn.fmax_d a | Insn.feq_d a | Insn.flt_d a | Insn.fle_d a => args_r a
  | Insn.lr_w a | Insn.sc_w a | Insn.amoswap_w a | Insn.amoadd_w a | Insn.amoxor_w a |
    Insn.amoand_w a | Insn.amoor_w a | Insn.amomin_w a | Insn.amomax_w a | Insn.amominu_w a |
    Insn.amomaxu_w a | Insn.lr_d a | Insn.sc_d a | Insn.amoswap_d a | Insn.amoadd_d a |
    Insn.amoxor_d a | Insn.amoand_d a | Insn.amoor_d a | Insn.amomin_d a | Insn.amomax_d a |
    Insn.amominu_d a | Insn.amomaxu_d a => args_atomic a
  | Insn.csrrw a | Insn.csrrs a | Insn.csrrc a | Insn.csrrwi a | Insn.csrrsi a |
    Insn.csrrci a => args_csr a
  | Insn.fmadd_s a | Insn.fmsub_s a | Insn.fnmsub_s a | Insn.fnmadd_s a | Insn.fmadd_d a |
    Insn.fmsub_d a | Insn.fnmsub_d a | Insn.fnmadd_d a =>
      reg (ArgsR4Rm.rd a) ∧ reg (ArgsR4Rm.rs1 a) ∧ reg (ArgsR4Rm.rs2 a) ∧ reg (ArgsR4Rm.rs3 a)
  | Insn.fadd_s a | Insn.fsub_s a | Insn.fmul_s a | Insn.fdiv_s a | Insn.fadd_d a |
    Insn.fsub_d a | Insn.fmul_d a | Insn.fdiv_d a =>
      reg (ArgsRRm.rd a) ∧ reg (ArgsRRm.rs1 a) ∧ reg (ArgsRRm.rs2 a)
  | Insn.fsqrt_s a | Insn.fcvt_w_s a | Insn.fcvt_wu_s a | Insn.fcvt_s_w a | Insn.fcvt_s_wu a |
    Insn.fcvt_l_s a | Insn.fcvt_lu_s a | Insn.fcvt_s_l a | Insn.fcvt_s_lu a | Insn.fsqrt_d a |
    Insn.fcvt_s_d a | Insn.fcvt_d_s a | Insn.fcvt_w_d a | Insn.fcvt_wu_d a | Insn.fcvt_d_w a |
    Insn.fcvt_d_wu a | Insn.fcvt_l_d a | Insn.fcvt_lu_d a | Insn.fcvt_d_l a |
    Insn.fcvt_d_lu a => reg (ArgsR2Rm.rd a) ∧ reg (ArgsR2Rm.rs1 a)
  | Insn.fclass_s a | Insn.fmv_x_w a | Insn.fmv_w_x a | Insn.fclass_d a | Insn.fmv_x_d a |
    Insn.fmv_d_x a => reg (ArgsR2.rd a) ∧ reg (ArgsR2.rs1 a)
  | Insn.fence _ | Insn.ecall _ | Insn.ebreak _ => True
  end.

Definition agrees (i : Insn.t) (g : Guest.t) : Prop :=
  match i with
  | Insn.slli a | Insn.srli a | Insn.srai a => ArgsShift.shamt a < 64
  | Insn.slliw a | Insn.srliw a | Insn.sraiw a => ArgsShift.shamt a < 32
  | Insn.sc_w a | Insn.sc_d a => Guest.load_res g = x g (ArgsAtomic.rs1 a)
  | Insn.amomin_w a | Insn.amomax_w a | Insn.amominu_w a | Insn.amomaxu_w a =>
      x g (ArgsAtomic.rs2 a) = sext32 (x g (ArgsAtomic.rs2 a))
  | _ => True
  end.

(** ** Operations on registers *)

Lemma rv_op_ext F h a g envp s :
  repr envp g s → args_r a → (∀ u v, in_width 64 u → in_width 64 v → F u v = h u v) →
  rv_op F a g = rv_op h a g.
Proof.
  intros Hr (_ & Hr1 & Hr2) He. unfold rv_op. by rewrite He by (by eapply x_in_width).
Qed.

Lemma rv_imm_ext F h a g envp s :
  repr envp g s → args_i a → (∀ u v, in_width 64 u → in_width 64 v → F u v = h u v) →
  rv_imm F a g = rv_imm h a g.
Proof.
  intros Hr (_ & Hr1) He. unfold rv_imm. rewrite He; [done|by eapply x_in_width|apply mod_in_width; lia].
Qed.

(** ** The IR ops in the reference's words *)

Lemma and_word u v : in_width 64 u → in_width 64 v → u64 (Z.land u v mod 2 ^ 64) = Z.land u v.
Proof. intros. rewrite u64_mod. by apply mod_small_width, land_in_width. Qed.

Lemma or_word u v : in_width 64 u → in_width 64 v → u64 (Z.lor u v mod 2 ^ 64) = Z.lor u v.
Proof. intros. rewrite u64_mod. by apply mod_small_width, lor_in_width. Qed.

Lemma xor_word u v : in_width 64 u → in_width 64 v → u64 (Z.lxor u v mod 2 ^ 64) = Z.lxor u v.
Proof. intros. rewrite u64_mod. by apply mod_small_width, lxor_in_width. Qed.

Lemma div_pow2_width w u k : in_width w u → 0 ≤ k → in_width w (u / 2 ^ k).
Proof.
  unfold in_width. intros [? ?] Hk. assert (0 < 2 ^ k) by lia.
  split; [apply Z.div_pos; lia|]. apply Z.div_lt_upper_bound; [lia|]. nia.
Qed.

Lemma shr_word u k : in_width 64 u → 0 ≤ k → u64 (u mod 2 ^ 64 / 2 ^ k) = u / 2 ^ k.
Proof.
  intros Hu Hk. rewrite (mod_small_width 64 u) by done. by apply mod_small_width, div_pow2_width.
Qed.

Lemma ltu_word u v :
  in_width 64 u → in_width 64 v → (if Cond.holds Cond.Ltu 64 u v then 1 else 0) = if u <? v then 1 else 0.
Proof. intros. simpl. by rewrite !mod_small_width. Qed.

(** At 32 bits only the low halves of the operands matter. *)
Lemma low_mod v : u32 v mod 32 = v mod 32.
Proof. unfold u32. symmetry. apply Znumtheory.Zmod_div_mod; [lia|lia|]. by exists (2 ^ 27). Qed.

Lemma sext32_u32 v : sext32 (u32 v) = sext32 v.
Proof. by apply (sext32_mod 32). Qed.

Lemma sll_low u k : sext32 (u32 u * 2 ^ k mod 2 ^ 32) = sext32 (u * 2 ^ k).
Proof.
  rewrite (sext32_mod 32) by lia. rewrite <- sext32_u32, <- (sext32_u32 (u * _)). f_equal.
  apply Zmult_mod_idemp_l.
Qed.

Lemma srl_low u k : sext32 (u32 u mod 2 ^ 32 / 2 ^ k) = sext32 (u32 u / 2 ^ k).
Proof. unfold u32. by rewrite Zmod_mod. Qed.

Lemma sra_low u k : sext32 ((signed 32 (u32 u) / 2 ^ k) mod 2 ^ 32) = sext32 (i32 u / 2 ^ k).
Proof. rewrite (sext32_mod 32) by lia. unfold i32, u32. by rewrite signed_of_mod by lia. Qed.

Lemma shamt_word n k : 0 ≤ k < n → n ≤ 2 ^ 64 → u64 k mod n = k.
Proof. intros. rewrite u64_small by lia. apply Z.mod_small. lia. Qed.

Create HintDb riscv.

Section sound.
Context `{HelperAddr}.
Variable host : Z → list Z → World.t → Z * World.t.
Variable envp : Z.

(** The claim about one instruction. *)
Definition translates (i : Insn.t) : Prop :=
  ∀ d c m e w g,
    starts envp d c m g (e, w) → args_ok i → agrees i g →
    wp host (Decode.trans i) d c ((e, w), Next)
      (ends envp d m g (rv_step host (Dc.cfg d) envp (Dc.pc_next d) (Dc.cur_insn_len d) i g)).

Lemma ends_falls F d m g g' (M : M bool) c σ :
  F = g' → wp host M d c σ (falls envp d m F) → wp host M d c σ (ends envp d m g (Fall g')).
Proof. intros ->. apply wp_mono. intros ????. apply falls_ends. Qed.

Lemma ends_leaves pc pc' code g' d m g (M : M bool) c σ :
  pc' = u64 pc → wp host M d c σ (leaves envp d m pc' code g' true) →
  wp host M d c σ (ends envp d m g (Exit pc code g')).
Proof. intros ->. apply wp_mono. intros ????. apply leaves_ends. Qed.

(** An instruction of an extension is illegal without it. *)
Lemma ends_needs X M r d c m g e w :
  starts envp d c m g (e, w) →
  (has_ext d X → wp host (require_ext X M) d c ((e, w), Next) (ends envp d m g r)) →
  wp host (require_ext X M) d c ((e, w), Next) (ends envp d m g (needs (Dc.cfg d) X r)).
Proof.
  intros ([ts Hg] & _ & Hr) Hm. unfold needs, has_ext in *.
  destruct (MisaExt.contains _ _) eqn:He; [by apply Hm|].
  eapply wp_require_ext; [exact Hg|]. rewrite He. split; [|done].
  eexists. eapply good_mono, Hg. lia.
Qed.

Lemma ends_ext X M r d c m g e w :
  starts envp d c m g (e, w) →
  wp host M d c ((e, w), Next) (ends envp d m g r) →
  wp host (require_ext X M) d c ((e, w), Next) (ends envp d m g (needs (Dc.cfg d) X r)).
Proof.
  intros Hst Hm. eapply ends_needs; [done|]. intros He. destruct Hst as ([ts Hg] & _).
  eapply wp_require_ext; [exact Hg|]. unfold has_ext in He. by rewrite He.
Qed.

Ltac sound_start :=
  intros d c m e w g Hst Hok Hag;
  pose proof (proj2 (proj2 Hst)) as Hrepr;
  cbn [Decode.trans rv_step args_ok agrees] in Hok, Hag |- *.

(** ** Register-register and register-immediate *)

Lemma do_arith op o f h a d c m e w g :
  computes op o 64 f → (∀ u v, in_width 64 u → in_width 64 v → u64 (f u v) = h u v) →
  starts envp d c m g (e, w) → args_r a →
  wp host (gen_arith a op) d c ((e, w), Next) (ends envp d m g (Fall (rv_op h a g))).
Proof.
  intros Ho Hf Hst Ha. eapply ends_falls; [|by eapply sound_gen_arith].
  eapply rv_op_ext; [apply Hst|done|done].
Qed.
Lemma do_setcond_rr cd h a d c m e w g :
  (∀ u v, in_width 64 u → in_width 64 v → (if Cond.holds cd 64 u v then 1 else 0) = h u v) →
  starts envp d c m g (e, w) → args_r a →
  wp host (gen_setcond_rr a cd) d c ((e, w), Next) (ends envp d m g (Fall (rv_op h a g))).
Proof.
  intros Hf Hst Ha. eapply ends_falls; [|by eapply sound_gen_setcond_rr].
  eapply rv_op_ext; [apply Hst|done|done].
Qed.

Lemma do_arith_imm op o f h a d c m e w g :
  computes op o 64 f → (∀ u v, in_width 64 u → in_width 64 v → u64 (f u v) = h u v) →
  starts envp d c m g (e, w) → args_i a →
  wp host (gen_arith_imm a op) d c ((e, w), Next) (ends envp d m g (Fall (rv_imm h a g))).
Proof.
  intros Ho Hf Hst Ha. eapply ends_falls; [|by eapply sound_gen_arith_imm].
  eapply rv_imm_ext; [apply Hst|done|done].
Qed.

Lemma do_setcond_imm cd h a d c m e w g :
  (∀ u v, in_width 64 u → in_width 64 v → (if Cond.holds cd 64 u v then 1 else 0) = h u v) →
  starts envp d c m g (e, w) → args_i a →
  wp host (gen_setcond_imm a cd) d c ((e, w), Next) (ends envp d m g (Fall (rv_imm h a g))).
Proof.
  intros Hf Hst Ha. eapply ends_falls; [|by eapply sound_gen_setcond_imm].
  eapply rv_imm_ext; [apply Hst|done|done].
Qed.

Lemma do_arith_w op o f h a d c m e w g :
  computes op o 64 f → (∀ u v, in_width 64 u → in_width 64 v → sext32 (f u v) = h u v) →
  starts envp d c m g (e, w) → args_r a →
  wp host (gen_arith_w a op) d c ((e, w), Next) (ends envp d m g (Fall (rv_op h a g))).
Proof.
  intros Ho Hf Hst Ha. eapply ends_falls; [|by eapply sound_gen_arith_w].
  eapply rv_op_ext; [apply Hst|done|done].
Qed.

Lemma do_arith_imm_w op o f h a d c m e w g :
  computes op o 64 f → (∀ u v, in_width 64 u → in_width 64 v → sext32 (f u v) = h u v) →
  starts envp d c m g (e, w) → args_i a →
  wp host (gen_arith_imm_w a op) d c ((e, w), Next) (ends envp d m g (Fall (rv_imm h a g))).
Proof.
  intros Ho Hf Hst Ha. eapply ends_falls; [|by eapply sound_gen_arith_imm_w].
  eapply rv_imm_ext; [apply Hst|done|done].
Qed.

Lemma do_shiftw op o f h a d c m e w g :
  computes op o 32 f →
  (∀ u v, in_width 64 u → in_width 64 v → sext32 (f (u32 u) (u32 v)) = h u v) →
  starts envp d c m g (e, w) → args_r a →
  wp host (gen_shiftw a op) d c ((e, w), Next) (ends envp d m g (Fall (rv_op h a g))).
Proof.
  intros Ho Hf Hst Ha. eapply ends_falls; [|by eapply sound_gen_shiftw].
  eapply rv_op_ext; [apply Hst|done|done].
Qed.

(** Shifts by an immediate. *)
Lemma do_shift_imm op o f h a d c m e w g :
  computes op o 64 f →
  (∀ u k, in_width 64 u → 0 ≤ k < 64 → u64 (f u (u64 k)) = h u k) →
  starts envp d c m g (e, w) → args_shift a → 0 ≤ ArgsShift.shamt a → ArgsShift.shamt a < 64 →
  wp host (gen_shift_imm a op) d c ((e, w), Next) (ends envp d m g (rv_shift 64 h a g)).
Proof.
  intros Ho Hf Hst [Hrd Hr1] Hs Hs'. unfold rv_shift. rewrite (proj2 (Z.leb_gt _ _)) by lia.
  eapply ends_falls; [|by eapply sound_gen_shift_imm].
  rewrite Hf; [done| |lia]. eapply x_in_width; [apply Hst|done].
Qed.

Lemma do_shift_imm_w op o f h a d c m e w g :
  computes op o 32 f →
  (∀ u k, in_width 64 u → 0 ≤ k < 32 → sext32 (f (u32 u) (u64 k)) = h u k) →
  starts envp d c m g (e, w) → args_shift a → 0 ≤ ArgsShift.shamt a → ArgsShift.shamt a < 32 →
  wp host (gen_shift_imm_w a op) d c ((e, w), Next) (ends envp d m g (rv_shift 32 h a g)).
Proof.
  intros Ho Hf Hst [Hrd Hr1] Hs Hs'. unfold rv_shift. rewrite (proj2 (Z.leb_gt _ _)) by lia.
  eapply ends_falls; [|by eapply sound_gen_shift_imm_w].
  rewrite Hf; [done| |lia]. eapply x_in_width; [apply Hst|done].
Qed.

(** What the IR ops compute at 64 and 32 bits, in the reference's words. *)
Ltac computes_tac := split_and!; [reflexivity..|discriminate|intros; reflexivity].

Ltac alu L := eapply L; [computes_tac| |done..]; intros; cbv beta zeta; cbn [spec_binary].
Ltac alu_cmp L := eapply L; [|done..]; intros.

Lemma translates_add a : translates (Insn.add a).
Proof. sound_start. alu do_arith. apply u64_mod. Qed.

Lemma translates_sub a : translates (Insn.sub a).
Proof. sound_start. alu do_arith. apply u64_mod. Qed.

Lemma translates_and a : translates (Insn.and a).
Proof. sound_start. alu do_arith. by apply and_word. Qed.

Lemma translates_or a : translates (Insn.or a).
Proof. sound_start. alu do_arith. by apply or_word. Qed.

Lemma translates_xor a : translates (Insn.xor a).
Proof. sound_start. alu do_arith. by apply xor_word. Qed.

Lemma translates_sll a : translates (Insn.sll a).
Proof. sound_start. alu do_arith. apply u64_mod. Qed.

Lemma translates_srl a : translates (Insn.srl a).
Proof. sound_start. alu do_arith. apply shr_word; [done|]. apply Z.mod_pos_bound. lia. Qed.

Lemma translates_sra a : translates (Insn.sra a).
Proof. sound_start. alu do_arith. apply u64_mod. Qed.

Lemma translates_slt a : translates (Insn.slt a).
Proof. sound_start. by alu_cmp do_setcond_rr. Qed.

Lemma translates_sltu a : translates (Insn.sltu a).
Proof. sound_start. alu_cmp do_setcond_rr. by apply ltu_word. Qed.

Lemma translates_addi a : translates (Insn.addi a).
Proof. sound_start. alu do_arith_imm. apply u64_mod. Qed.

Lemma translates_andi a : translates (Insn.andi a).
Proof. sound_start. alu do_arith_imm. by apply and_word. Qed.

Lemma translates_ori a : translates (Insn.ori a).
Proof. sound_start. alu do_arith_imm. by apply or_word. Qed.

Lemma translates_xori a : translates (Insn.xori a).
Proof. sound_start. alu do_arith_imm. by apply xor_word. Qed.

Lemma translates_slti a : translates (Insn.slti a).
Proof. sound_start. by alu_cmp do_setcond_imm. Qed.

Lemma translates_sltiu a : translates (Insn.sltiu a).
Proof. sound_start. alu_cmp do_setcond_imm. by apply ltu_word. Qed.

Lemma translates_addw a : translates (Insn.addw a).
Proof. sound_start. alu do_arith_w. by apply (sext32_mod 64). Qed.

Lemma translates_subw a : translates (Insn.subw a).
Proof. sound_start. alu do_arith_w. by apply (sext32_mod 64). Qed.

Lemma translates_addiw a : translates (Insn.addiw a).
Proof. sound_start. alu do_arith_imm_w. by apply (sext32_mod 64). Qed.

Lemma translates_sllw a : translates (Insn.sllw a).
Proof. sound_start. alu do_shiftw. rewrite low_mod. apply sll_low. Qed.

Lemma translates_srlw a : translates (Insn.srlw a).
Proof. sound_start. alu do_shiftw. rewrite low_mod. apply srl_low. Qed.

Lemma translates_sraw a : translates (Insn.sraw a).
Proof. sound_start. alu do_shiftw. rewrite low_mod. apply sra_low. Qed.

Ltac shift L :=
  match goal with H : args_shift _ ∧ _ |- _ => destruct H as [? ?] end;
  alu L; rewrite shamt_word by lia.

Lemma translates_slli a : translates (Insn.slli a).
Proof. sound_start. shift do_shift_imm. apply u64_mod. Qed.

Lemma translates_srli a : translates (Insn.srli a).
Proof. sound_start. shift do_shift_imm. apply shr_word; [done|lia]. Qed.

Lemma translates_srai a : translates (Insn.srai a).
Proof. sound_start. shift do_shift_imm. apply u64_mod. Qed.

Lemma translates_slliw a : translates (Insn.slliw a).
Proof. sound_start. shift do_shift_imm_w. apply sll_low. Qed.

Lemma translates_srliw a : translates (Insn.srliw a).
Proof. sound_start. shift do_shift_imm_w. apply srl_low. Qed.

Lemma translates_sraiw a : translates (Insn.sraiw a).
Proof. sound_start. shift do_shift_imm_w. apply sra_low. Qed.

(** ** Multiplication and division *)

Ltac ext := eapply ends_ext; [eassumption|].
Ltac falls_by L := eapply ends_falls; [|eapply L; eassumption].

Lemma translates_mul a : translates (Insn.mul a).
Proof. sound_start. ext. alu do_arith. apply u64_mod. Qed.

Lemma translates_mulw a : translates (Insn.mulw a).
Proof. sound_start. ext. alu do_arith_w. by apply (sext32_mod 64). Qed.

Lemma translates_mulh a : translates (Insn.mulh a).
Proof.
  sound_start. eapply ends_needs; [done|]. intros He. by falls_by sound_mulh.
Qed.

Lemma translates_mulhsu a : translates (Insn.mulhsu a).
Proof.
  sound_start. eapply ends_needs; [done|]. intros He. by falls_by sound_mulhsu.
Qed.

Lemma translates_mulhu a : translates (Insn.mulhu a).
Proof.
  sound_start. eapply ends_needs; [done|]. intros He. falls_by sound_mulhu.
  eapply rv_op_ext; [done..|]. unfold in_width. intros u v Hu Hv. apply u64_small.
  split; [apply Z.div_pos; nia|]. apply Z.div_lt_upper_bound; nia.
Qed.

Lemma translates_div a : translates (Insn.div a).
Proof. sound_start. ext. by falls_by (sound_gen_div_rem host envp false). Qed.

Lemma translates_divw a : translates (Insn.divw a).
Proof. sound_start. ext. by falls_by (sound_gen_div_rem_w host envp false). Qed.

Lemma translates_rem a : translates (Insn.rem a).
Proof. sound_start. ext. by falls_by (sound_gen_div_rem host envp true). Qed.

Lemma translates_remw a : translates (Insn.remw a).
Proof. sound_start. ext. by falls_by (sound_gen_div_rem_w host envp true). Qed.

Lemma translates_divu a : translates (Insn.divu a).
Proof. sound_start. ext. by falls_by (sound_gen_divu_remu host envp false). Qed.

Lemma translates_divuw a : translates (Insn.divuw a).
Proof. sound_start. ext. by falls_by (sound_gen_divu_remu_w host envp false). Qed.

Lemma translates_remu a : translates (Insn.remu a).
Proof. sound_start. ext. by falls_by (sound_gen_divu_remu host envp true). Qed.

Lemma translates_remuw a : translates (Insn.remuw a).
Proof. sound_start. ext. by falls_by (sound_gen_divu_remu_w host envp true). Qed.

(** ** Jumps and branches *)

Lemma do_branch cd taken a d c m e w g :
  (∀ u v, in_width 64 u → in_width 64 v → Cond.holds cd 64 u v = taken u v) →
  starts envp d c m g (e, w) → args_b a →
  wp host (_ ← gen_branch a cd; mret true) d c ((e, w), Next)
    (ends envp d m g (rv_branch taken (Dc.pc_next d) (Dc.cur_insn_len d) a g)).
Proof.
  intros Ht Hst Ha. apply wp_bind. eapply wp_mono; [|by eapply sound_gen_branch].
  intros [] d' c' σ. unfold rv_branch. destruct Ha as [Hr1 Hr2].
  rewrite Ht by (eapply x_in_width; [apply Hst|done]).
  destruct (taken _ _); intros (_ & Hd & [ts' Hg] & Hl & Hr & Hpc);
    (eapply wp_ret; [exact Hg|]; split; [by eexists|]; rewrite u64_u64; auto).
Qed.

Ltac branch := eapply do_branch; [|done..]; intros; simpl; rewrite ?mod_small_width by done; done.

Lemma translates_beq a : translates (Insn.beq a).
Proof. sound_start. branch. Qed.

Lemma translates_bne a : translates (Insn.bne a).
Proof. sound_start. branch. Qed.

Lemma translates_blt a : translates (Insn.blt a).
Proof. sound_start. branch. Qed.

Lemma translates_bge a : translates (Insn.bge a).
Proof. sound_start. branch. Qed.

Lemma translates_bltu a : translates (Insn.bltu a).
Proof. sound_start. branch. Qed.

Lemma translates_bgeu a : translates (Insn.bgeu a).
Proof. sound_start. branch. Qed.

Lemma translates_jal a : translates (Insn.jal a).
Proof. sound_start. eapply ends_leaves; [|by eapply sound_trans_jal]. by rewrite u64_u64. Qed.

Lemma translates_jalr a : translates (Insn.jalr a).
Proof.
  sound_start. eapply ends_leaves; [|by eapply sound_trans_jalr]. unfold u64. by rewrite land_mod_l.
Qed.

Lemma translates_ecall a : translates (Insn.ecall a).
Proof. sound_start. eapply ends_leaves; [|by eapply sound_trans_ecall]. done. Qed.

Lemma translates_ebreak a : translates (Insn.ebreak a).
Proof. sound_start. eapply ends_leaves; [|by eapply sound_trans_ebreak]. done. Qed.

Lemma translates_lui a : translates (Insn.lui a).
Proof. sound_start. by falls_by sound_trans_lui. Qed.

Lemma translates_auipc a : translates (Insn.auipc a).
Proof. sound_start. by falls_by sound_trans_auipc. Qed.

Lemma translates_fence a : translates (Insn.fence a).
Proof.
  sound_start. destruct Hst as ([ts Hg] & _ & Hr). eapply wp_ret; [exact Hg|]. split; [|done].
  eexists. eapply good_mono, Hg. lia.
Qed.

(** ** Memory *)

Lemma translates_lb a : translates (Insn.lb a).
Proof. sound_start. by falls_by sound_gen_load. Qed.

Lemma translates_lh a : translates (Insn.lh a).
Proof. sound_start. by falls_by sound_gen_load. Qed.

Lemma translates_lw a : translates (Insn.lw a).
Proof. sound_start. by falls_by sound_gen_load. Qed.

Lemma translates_lbu a : translates (Insn.lbu a).
Proof. sound_start. by falls_by sound_gen_load. Qed.

Lemma translates_lhu a : translates (Insn.lhu a).
Proof. sound_start. by falls_by sound_gen_load. Qed.

Lemma translates_lwu a : translates (Insn.lwu a).
Proof. sound_start. by falls_by sound_gen_load. Qed.

Lemma translates_ld a : translates (Insn.ld a).
Proof. sound_start. by falls_by sound_gen_load. Qed.

Lemma translates_sb a : translates (Insn.sb a).
Proof. sound_start. by falls_by sound_gen_store. Qed.

Lemma translates_sh a : translates (Insn.sh a).
Proof. sound_start. by falls_by sound_gen_store. Qed.

Lemma translates_sw a : translates (Insn.sw a).
Proof. sound_start. by falls_by sound_gen_store. Qed.

Lemma translates_sd a : translates (Insn.sd a).
Proof. sound_start. by falls_by sound_gen_store. Qed.

Lemma translates_lr_w a : translates (Insn.lr_w a).
Proof. sound_start. ext. by falls_by sound_gen_lr. Qed.

Lemma translates_lr_d a : translates (Insn.lr_d a).
Proof. sound_start. ext. by falls_by sound_gen_lr. Qed.

Lemma translates_sc_w a : translates (Insn.sc_w a).
Proof. sound_start. ext. by falls_by sound_gen_sc. Qed.

Lemma translates_sc_d a : translates (Insn.sc_d a).
Proof. sound_start. ext. by falls_by sound_gen_sc. Qed.

Lemma translates_amoswap_w a : translates (Insn.amoswap_w a).
Proof. sound_start. ext. by falls_by sound_gen_amo_swap. Qed.

Lemma translates_amoswap_d a : translates (Insn.amoswap_d a).
Proof. sound_start. ext. by falls_by sound_gen_amo_swap. Qed.

(** An AMO stores the low [n] bytes of its result. *)
Lemma rv_amo_ext n sg F h a g :
  (∀ u v, u = World.load (Guest.world g) (x g (ArgsAtomic.rs1 a)) n sg → v = x g (ArgsAtomic.rs2 a) →
     F u v mod 2 ^ (8 * n) = h u v mod 2 ^ (8 * n)) →
  rv_amo n sg F a g = rv_amo n sg h a g.
Proof. intros He. unfold rv_amo, World.store. by rewrite He. Qed.

Ltac amo :=
  ext; eapply ends_falls; [|eapply sound_gen_amo; [computes_tac|done..]];
  eapply rv_amo_ext; intros u v _ _; cbv beta; unfold u64; rewrite !mod_mod_pow2 by done.

Lemma translates_amoadd_w a : translates (Insn.amoadd_w a).
Proof. sound_start. by amo. Qed.

Lemma translates_amoadd_d a : translates (Insn.amoadd_d a).
Proof. sound_start. by amo. Qed.

Lemma translates_amoand_w a : translates (Insn.amoand_w a).
Proof. sound_start. by amo. Qed.

Lemma translates_amoand_d a : translates (Insn.amoand_d a).
Proof. sound_start. by amo. Qed.

Lemma translates_amoor_w a : translates (Insn.amoor_w a).
Proof. sound_start. by amo. Qed.

Lemma translates_amoor_d a : translates (Insn.amoor_d a).
Proof. sound_start. by amo. Qed.

Lemma translates_amoxor_w a : translates (Insn.amoxor_w a).
Proof. sound_start. by amo. Qed.

Lemma translates_amoxor_d a : translates (Insn.amoxor_d a).
Proof. sound_start. by amo. Qed.

(** On sign-extended words the 64-bit comparisons are the 32-bit ones. *)
Lemma sext32_cases u :
  u = sext32 u →
  i64 u = i32 u ∧ u mod 2 ^ 64 = u ∧
  (u = u32 u ∧ i32 u = u32 u ∧ u32 u < 2 ^ 31 ∨
   u = u32 u + (2 ^ 64 - 2 ^ 32) ∧ i32 u = u32 u - 2 ^ 32 ∧ 2 ^ 31 ≤ u32 u) ∧ 0 ≤ u32 u < 2 ^ 32.
Proof.
  intros Hu. pose proof (signed_cases 32 eq_refl u) as Hc. fold (i32 u) in Hc. fold (u32 u) in Hc.
  change (32 - 1) with 31 in Hc. unfold sext32 in Hu.
  assert (u mod 2 ^ 64 = u) as Hm by (rewrite Hu; apply Zmod_mod).
  assert (i64 u = i32 u) as Hi.
  { rewrite Hu at 1. unfold i64, u64. rewrite signed_of_mod by lia. apply signed_small; lia. }
  split_and!; [done|done| |unfold u32; apply Z.mod_pos_bound; lia..].
  destruct Hc as [[Hb Hc]|[Hb Hc]]; rewrite Hc in Hu; [left|right].
  - unfold u64 in Hu. rewrite Z.mod_small in Hu by lia. lia.
  - assert (u64 (u32 u - 2 ^ 32) = u32 u + (2 ^ 64 - 2 ^ 32)) as He.
    { unfold u64. symmetry. apply (Z.mod_unique_pos _ _ (-1)); lia. }
    rewrite He in Hu. lia.
Qed.

Lemma load_sext w a : World.load w a 4 true = sext32 (World.load w a 4 true).
Proof.
  unfold World.load, sext32, i32, u64. change (8 * 4) with 32.
  set (v := le_value _). rewrite <- (signed_of_mod 32 (signed 32 v mod 2 ^ 64)) by lia.
  by rewrite mod_mod_pow2, signed_mod, signed_of_mod by lia.
Qed.

Ltac minmax n sg :=
  ext; eapply ends_falls; [|by eapply sound_gen_amo_minmax];
  apply (rv_amo_ext n sg); intros u v Hu Hv; cbv beta; unfold u64; rewrite mod_mod_pow2 by done;
  f_equal.

Ltac minmax_w :=
  minmax 4 true;
  match goal with
  | Hu : ?u = World.load ?w ?a _ _, Hv : ?v = x _ _, Hag : x _ _ = sext32 _ |- _ =>
      rewrite <- Hv in Hag; pose proof (load_sext w a) as Hs; rewrite <- Hu in Hs;
      destruct (sext32_cases u Hs) as (? & ? & ? & ?);
      destruct (sext32_cases v Hag) as (? & ? & ? & ?);
      clear Hs Hag Hu Hv
  end;
  cbn [Cond.holds]; unfold i64 in *; repeat case_match; lia.

Lemma translates_amomin_w a : translates (Insn.amomin_w a).
Proof. sound_start. minmax_w. Qed.

Lemma translates_amomax_w a : translates (Insn.amomax_w a).
Proof. sound_start. minmax_w. Qed.

Lemma translates_amominu_w a : translates (Insn.amominu_w a).
Proof. sound_start. minmax_w. Qed.

Lemma translates_amomaxu_w a : translates (Insn.amomaxu_w a).
Proof. sound_start. minmax_w. Qed.

Ltac minmax_d :=
  minmax 8 false;
  match goal with
  | Hu : ?u = World.load ?w ?a _ _, Hv : ?v = x _ _, Hok : args_atomic _, Hr : repr _ _ _ |- _ =>
      pose proof (load_width w a 8 false) as Hwu; rewrite <- Hu in Hwu;
      pose proof (x_in_width _ _ _ _ Hr (proj2 (proj2 Hok))) as Hwv; rewrite <- Hv in Hwv;
      pose proof (signed_cases 64 eq_refl u) as Hcu; pose proof (signed_cases 64 eq_refl v) as Hcv;
      rewrite (mod_small_width 64 u Hwu) in Hcu; rewrite (mod_small_width 64 v Hwv) in Hcv;
      cbn [Cond.holds]; rewrite ?(mod_small_width 64 u Hwu), ?(mod_small_width 64 v Hwv);
      clear Hu Hv
  end;
  unfold i64; repeat case_match; lia.

Lemma translates_amomin_d a : translates (Insn.amomin_d a).
Proof. sound_start. minmax_d. Qed.

Lemma translates_amomax_d a : translates (Insn.amomax_d a).
Proof. sound_start. minmax_d. Qed.

Lemma translates_amominu_d a : translates (Insn.amominu_d a).
Proof. sound_start. minmax_d. Qed.

Lemma translates_amomaxu_d a : translates (Insn.amomaxu_d a).
Proof. sound_start. minmax_d. Qed.

(** ** CSRs *)

Lemma translates_csrrw a : translates (Insn.csrrw a).
Proof. sound_start. by apply sound_csrrw. Qed.

Lemma translates_csrrs a : translates (Insn.csrrs a).
Proof. sound_start. by apply sound_csrrs. Qed.

Lemma translates_csrrc a : translates (Insn.csrrc a).
Proof. sound_start. by apply sound_csrrc. Qed.

Lemma translates_csrrwi a : translates (Insn.csrrwi a).
Proof. sound_start. by apply sound_csrrwi. Qed.

Lemma translates_csrrsi a : translates (Insn.csrrsi a).
Proof. sound_start. by apply sound_csrrsi. Qed.

Lemma translates_csrrci a : translates (Insn.csrrci a).
Proof. sound_start. by apply sound_csrrci. Qed.

(** ** Floating point *)

(** An instruction that calls a helper, from its operands and destination. *)
Lemma do_helper dirty h os o X d c m e w g :
  starts envp d c m g (e, w) → Forall operand_ok os → (length os ≤ 5)%nat → dest_ok o →
  wp host (self ← get_self; require_ext X (fp_body dirty (helper_body (Dc.env self) h os o)))
    d c ((e, w), Next)
    (ends envp d m g (needs (Dc.cfg d) X (fp envp (Dc.pc_next d) g (λ g,
       Fall (rv_helper host envp h (λ g, operand_value envp g <$> os) (set_dest envp o)
               (dirtied envp dirty g)))))).
Proof.
  intros Hst Hos Hl Ho. pose proof Hst as ([ts Hg] & Hself & _). apply wp_bind.
  eapply wp_get_self; [exact Hg|]. ext.
  refine (sound_fp_body host envp dirty _ (rv_helper host envp h _ _) _ _ _ _ _ _ Hst _).
  intros c' ts' e' Hg' Hr'. by eapply sound_helper_body.
Qed.

Ltac helper dirty h os o :=
  unfold args_r in *; destruct_and?;
  refine (do_helper dirty h os o _ _ _ _ _ _ _ ltac:(eassumption) _ _ _);
  [repeat (apply Forall_cons; split; [cbn [operand_ok]; (tauto || eassumption)|]); apply Forall_nil_2
  |simpl; lia|cbn [dest_ok]; tauto].

Lemma translates_fmadd_s a : translates (Insn.fmadd_s a).
Proof.
  sound_start. helper true Helper.helper_fmadd_s
    [F (ArgsR4Rm.rs1 a); F (ArgsR4Rm.rs2 a); F (ArgsR4Rm.rs3 a); Rm (u64 (ArgsR4Rm.rm a))] (ToF (ArgsR4Rm.rd a)).
Qed.

Lemma translates_fmsub_s a : translates (Insn.fmsub_s a).
Proof.
  sound_start. helper true Helper.helper_fmsub_s
    [F (ArgsR4Rm.rs1 a); F (ArgsR4Rm.rs2 a); F (ArgsR4Rm.rs3 a); Rm (u64 (ArgsR4Rm.rm a))] (ToF (ArgsR4Rm.rd a)).
Qed.

Lemma translates_fnmsub_s a : translates (Insn.fnmsub_s a).
Proof.
  sound_start. helper true Helper.helper_fnmsub_s
    [F (ArgsR4Rm.rs1 a); F (ArgsR4Rm.rs2 a); F (ArgsR4Rm.rs3 a); Rm (u64 (ArgsR4Rm.rm a))] (ToF (ArgsR4Rm.rd a)).
Qed.

Lemma translates_fnmadd_s a : translates (Insn.fnmadd_s a).
Proof.
  sound_start. helper true Helper.helper_fnmadd_s
    [F (ArgsR4Rm.rs1 a); F (ArgsR4Rm.rs2 a); F (ArgsR4Rm.rs3 a); Rm (u64 (ArgsR4Rm.rm a))] (ToF (ArgsR4Rm.rd a)).
Qed.

Lemma translates_fadd_s a : translates (Insn.fadd_s a).
Proof.
  sound_start. helper true Helper.helper_fadd_s
    [F (ArgsRRm.rs1 a); F (ArgsRRm.rs2 a); Rm (u64 (ArgsRRm.rm a))] (ToF (ArgsRRm.rd a)).
Qed.

Lemma translates_fsub_s a : translates (Insn.fsub_s a).
Proof.
  sound_start. helper true Helper.helper_fsub_s
    [F (ArgsRRm.rs1 a); F (ArgsRRm.rs2 a); Rm (u64 (ArgsRRm.rm a))] (ToF (ArgsRRm.rd a)).
Qed.

Lemma translates_fmul_s a : translates (Insn.fmul_s a).
Proof.
  sound_start. helper true Helper.helper_fmul_s
    [F (ArgsRRm.rs1 a); F (ArgsRRm.rs2 a); Rm (u64 (ArgsRRm.rm a))] (ToF (ArgsRRm.rd a)).
Qed.

Lemma translates_fdiv_s a : translates (Insn.fdiv_s a).
Proof.
  sound_start. helper true Helper.helper_fdiv_s
    [F (ArgsRRm.rs1 a); F (ArgsRRm.rs2 a); Rm (u64 (ArgsRRm.rm a))] (ToF (ArgsRRm.rd a)).
Qed.

Lemma translates_fsqrt_s a : translates (Insn.fsqrt_s a).
Proof.
  sound_start. helper true Helper.helper_fsqrt_s
    [F (ArgsR2Rm.rs1 a); Rm (u64 (ArgsR2Rm.rm a))] (ToF (ArgsR2Rm.rd a)).
Qed.

Lemma translates_fsgnj_s a : translates (Insn.fsgnj_s a).
Proof.
  sound_start. helper true Helper.helper_fsgnj_s
    [F (ArgsR.rs1 a); F (ArgsR.rs2 a)] (ToF (ArgsR.rd a)).
Qed.

Lemma translates_fsgnjn_s a : translates (Insn.fsgnjn_s a).
Proof.
  sound_start. helper true Helper.helper_fsgnjn_s
    [F (ArgsR.rs1 a); F (ArgsR.rs2 a)] (ToF (ArgsR.rd a)).
Qed.

Lemma translates_fsgnjx_s a : translates (Insn.fsgnjx_s a).
Proof.
  sound_start. helper true Helper.helper_fsgnjx_s
    [F (ArgsR.rs1 a); F (ArgsR.rs2 a)] (ToF (ArgsR.rd a)).
Qed.

Lemma translates_fmin_s a : translates (Insn.fmin_s a).
Proof.
  sound_start. helper true Helper.helper_fmin_s
    [F (ArgsR.rs1 a); F (ArgsR.rs2 a)] (ToF (ArgsR.rd a)).
Qed.

Lemma translates_fmax_s a : translates (Insn.fmax_s a).
Proof.
  sound_start. helper true Helper.helper_fmax_s
    [F (ArgsR.rs1 a); F (ArgsR.rs2 a)] (ToF (ArgsR.rd a)).
Qed.

Lemma translates_feq_s a : translates (Insn.feq_s a).
Proof.
  sound_start. helper false Helper.helper_feq_s
    [F (ArgsR.rs1 a); F (ArgsR.rs2 a)] (ToX (ArgsR.rd a)).
Qed.

Lemma translates_flt_s a : translates (Insn.flt_s a).
Proof.
  sound_start. helper false Helper.helper_flt_s
    [F (ArgsR.rs1 a); F (ArgsR.rs2 a)] (ToX (ArgsR.rd a)).
Qed.

Lemma translates_fle_s a : translates (Insn.fle_s a).
Proof.
  sound_start. helper false Helper.helper_fle_s
    [F (ArgsR.rs1 a); F (ArgsR.rs2 a)] (ToX (ArgsR.rd a)).
Qed.

Lemma translates_fclass_s a : translates (Insn.fclass_s a).
Proof.
  sound_start. helper false Helper.helper_fclass_s
    [F (ArgsR2.rs1 a)] (ToX (ArgsR2.rd a)).
Qed.

Lemma translates_fcvt_w_s a : translates (Insn.fcvt_w_s a).
Proof.
  sound_start. helper false Helper.helper_fcvt_w_s
    [F (ArgsR2Rm.rs1 a); Rm (u64 (ArgsR2Rm.rm a))] (ToX (ArgsR2Rm.rd a)).
Qed.

Lemma translates_fcvt_wu_s a : translates (Insn.fcvt_wu_s a).
Proof.
  sound_start. helper false Helper.helper_fcvt_wu_s
    [F (ArgsR2Rm.rs1 a); Rm (u64 (ArgsR2Rm.rm a))] (ToX (ArgsR2Rm.rd a)).
Qed.

Lemma translates_fcvt_l_s a : translates (Insn.fcvt_l_s a).
Proof.
  sound_start. helper false Helper.helper_fcvt_l_s
    [F (ArgsR2Rm.rs1 a); Rm (u64 (ArgsR2Rm.rm a))] (ToX (ArgsR2Rm.rd a)).
Qed.

Lemma translates_fcvt_lu_s a : translates (Insn.fcvt_lu_s a).
Proof.
  sound_start. helper false Helper.helper_fcvt_lu_s
    [F (ArgsR2Rm.rs1 a); Rm (u64 (ArgsR2Rm.rm a))] (ToX (ArgsR2Rm.rd a)).
Qed.

Lemma translates_fcvt_s_w a : translates (Insn.fcvt_s_w a).
Proof.
  sound_start. helper true Helper.helper_fcvt_s_w
    [X (ArgsR2Rm.rs1 a); Rm (u64 (ArgsR2Rm.rm a))] (ToF (ArgsR2Rm.rd a)).
Qed.

Lemma translates_fcvt_s_wu a : translates (Insn.fcvt_s_wu a).
Proof.
  sound_start. helper true Helper.helper_fcvt_s_wu
    [X (ArgsR2Rm.rs1 a); Rm (u64 (ArgsR2Rm.rm a))] (ToF (ArgsR2Rm.rd a)).
Qed.

Lemma translates_fcvt_s_l a : translates (Insn.fcvt_s_l a).
Proof.
  sound_start. helper true Helper.helper_fcvt_s_l
    [X (ArgsR2Rm.rs1 a); Rm (u64 (ArgsR2Rm.rm a))] (ToF (ArgsR2Rm.rd a)).
Qed.

Lemma translates_fcvt_s_lu a : translates (Insn.fcvt_s_lu a).
Proof.
  sound_start. helper true Helper.helper_fcvt_s_lu
    [X (ArgsR2Rm.rs1 a); Rm (u64 (ArgsR2Rm.rm a))] (ToF (ArgsR2Rm.rd a)).
Qed.

Lemma translates_fmadd_d a : translates (Insn.fmadd_d a).
Proof.
  sound_start. helper true Helper.helper_fmadd_d
    [F (ArgsR4Rm.rs1 a); F (ArgsR4Rm.rs2 a); F (ArgsR4Rm.rs3 a); Rm (u64 (ArgsR4Rm.rm a))] (ToF (ArgsR4Rm.rd a)).
Qed.

Lemma translates_fmsub_d a : translates (Insn.fmsub_d a).
Proof.
  sound_start. helper true Helper.helper_fmsub_d
    [F (ArgsR4Rm.rs1 a); F (ArgsR4Rm.rs2 a); F (ArgsR4Rm.rs3 a); Rm (u64 (ArgsR4Rm.rm a))] (ToF (ArgsR4Rm.rd a)).
Qed.

Lemma translates_fnmsub_d a : translates (Insn.fnmsub_d a).
Proof.
  sound_start. helper true Helper.helper_fnmsub_d
    [F (ArgsR4Rm.rs1 a); F (ArgsR4Rm.rs2 a); F (ArgsR4Rm.rs3 a); Rm (u64 (ArgsR4Rm.rm a))] (ToF (ArgsR4Rm.rd a)).
Qed.

Lemma translates_fnmadd_d a : translates (Insn.fnmadd_d a).
Proof.
  sound_start. helper true Helper.helper_fnmadd_d
    [F (ArgsR4Rm.rs1 a); F (ArgsR4Rm.rs2 a); F (ArgsR4Rm.rs3 a); Rm (u64 (ArgsR4Rm.rm a))] (ToF (ArgsR4Rm.rd a)).
Qed.

Lemma translates_fadd_d a : translates (Insn.fadd_d a).
Proof.
  sound_start. helper true Helper.helper_fadd_d
    [F (ArgsRRm.rs1 a); F (ArgsRRm.rs2 a); Rm (u64 (ArgsRRm.rm a))] (ToF (ArgsRRm.rd a)).
Qed.

Lemma translates_fsub_d a : translates (Insn.fsub_d a).
Proof.
  sound_start. helper true Helper.helper_fsub_d
    [F (ArgsRRm.rs1 a); F (ArgsRRm.rs2 a); Rm (u64 (ArgsRRm.rm a))] (ToF (ArgsRRm.rd a)).
Qed.

Lemma translates_fmul_d a : translates (Insn.fmul_d a).
Proof.
  sound_start. helper true Helper.helper_fmul_d
    [F (ArgsRRm.rs1 a); F (ArgsRRm.rs2 a); Rm (u64 (ArgsRRm.rm a))] (ToF (ArgsRRm.rd a)).
Qed.

Lemma translates_fdiv_d a : translates (Insn.fdiv_d a).
Proof.
  sound_start. helper true Helper.helper_fdiv_d
    [F (ArgsRRm.rs1 a); F (ArgsRRm.rs2 a); Rm (u64 (ArgsRRm.rm a))] (ToF (ArgsRRm.rd a)).
Qed.

Lemma translates_fsqrt_d a : translates (Insn.fsqrt_d a).
Proof.
  sound_start. helper true Helper.helper_fsqrt_d
    [F (ArgsR2Rm.rs1 a); Rm (u64 (ArgsR2Rm.rm a))] (ToF (ArgsR2Rm.rd a)).
Qed.

Lemma translates_fsgnj_d a : translates (Insn.fsgnj_d a).
Proof.
  sound_start. helper true Helper.helper_fsgnj_d
    [F (ArgsR.rs1 a); F (ArgsR.rs2 a)] (ToF (ArgsR.rd a)).
Qed.

Lemma translates_fsgnjn_d a : translates (Insn.fsgnjn_d a).
Proof.
  sound_start. helper true Helper.helper_fsgnjn_d
    [F (ArgsR.rs1 a); F (ArgsR.rs2 a)] (ToF (ArgsR.rd a)).
Qed.

Lemma translates_fsgnjx_d a : translates (Insn.fsgnjx_d a).
Proof.
  sound_start. helper true Helper.helper_fsgnjx_d
    [F (ArgsR.rs1 a); F (ArgsR.rs2 a)] (ToF (ArgsR.rd a)).
Qed.

Lemma translates_fmin_d a : translates (Insn.fmin_d a).
Proof.
  sound_start. helper true Helper.helper_fmin_d
    [F (ArgsR.rs1 a); F (ArgsR.rs2 a)] (ToF (ArgsR.rd a)).
Qed.

Lemma translates_fmax_d a : translates (Insn.fmax_d a).
Proof.
  sound_start. helper true Helper.helper_fmax_d
    [F (ArgsR.rs1 a); F (ArgsR.rs2 a)] (ToF (ArgsR.rd a)).
Qed.

Lemma translates_feq_d a : translates (Insn.feq_d a).
Proof.
  sound_start. helper false Helper.helper_feq_d
    [F (ArgsR.rs1 a); F (ArgsR.rs2 a)] (ToX (ArgsR.rd a)).
Qed.

Lemma translates_flt_d a : translates (Insn.flt_d a).
Proof.
  sound_start. helper false Helper.helper_flt_d
    [F (ArgsR.rs1 a); F (ArgsR.rs2 a)] (ToX (ArgsR.rd a)).
Qed.

Lemma translates_fle_d a : translates (Insn.fle_d a).
Proof.
  sound_start. helper false Helper.helper_fle_d
    [F (ArgsR.rs1 a); F (ArgsR.rs2 a)] (ToX (ArgsR.rd a)).
Qed.

Lemma translates_fclass_d a : translates (Insn.fclass_d a).
Proof.
  sound_start. helper false Helper.helper_fclass_d
    [F (ArgsR2.rs1 a)] (ToX (ArgsR2.rd a)).
Qed.

Lemma translates_fcvt_w_d a : translates (Insn.fcvt_w_d a).
Proof.
  sound_start. helper false Helper.helper_fcvt_w_d
    [F (ArgsR2Rm.rs1 a); Rm (u64 (ArgsR2Rm.rm a))] (ToX (ArgsR2Rm.rd a)).
Qed.

Lemma translates_fcvt_wu_d a : translates (Insn.fcvt_wu_d a).
Proof.
  sound_start. helper false Helper.helper_fcvt_wu_d
    [F (ArgsR2Rm.rs1 a); Rm (u64 (ArgsR2Rm.rm a))] (ToX (ArgsR2Rm.rd a)).
Qed.

Lemma translates_fcvt_l_d a : translates (Insn.fcvt_l_d a).
Proof.
  sound_start. helper false Helper.helper_fcvt_l_d
    [F (ArgsR2Rm.rs1 a); Rm (u64 (ArgsR2Rm.rm a))] (ToX (ArgsR2Rm.rd a)).
Qed.

Lemma translates_fcvt_lu_d a : translates (Insn.fcvt_lu_d a).
Proof.
  sound_start. helper false Helper.helper_fcvt_lu_d
    [F (ArgsR2Rm.rs1 a); Rm (u64 (ArgsR2Rm.rm a))] (ToX (ArgsR2Rm.rd a)).
Qed.

Lemma translates_fcvt_d_w a : translates (Insn.fcvt_d_w a).
Proof.
  sound_start. helper true Helper.helper_fcvt_d_w
    [X (ArgsR2Rm.rs1 a); Rm (u64 (ArgsR2Rm.rm a))] (ToF (ArgsR2Rm.rd a)).
Qed.

Lemma translates_fcvt_d_wu a : translates (Insn.fcvt_d_wu a).
Proof.
  sound_start. helper true Helper.helper_fcvt_d_wu
    [X (ArgsR2Rm.rs1 a); Rm (u64 (ArgsR2Rm.rm a))] (ToF (ArgsR2Rm.rd a)).
Qed.

Lemma translates_fcvt_d_l a : translates (Insn.fcvt_d_l a).
Proof.
  sound_start. helper true Helper.helper_fcvt_d_l
    [X (ArgsR2Rm.rs1 a); Rm (u64 (ArgsR2Rm.rm a))] (ToF (ArgsR2Rm.rd a)).
Qed.

Lemma translates_fcvt_d_lu a : translates (Insn.fcvt_d_lu a).
Proof.
  sound_start. helper true Helper.helper_fcvt_d_lu
    [X (ArgsR2Rm.rs1 a); Rm (u64 (ArgsR2Rm.rm a))] (ToF (ArgsR2Rm.rd a)).
Qed.

Lemma translates_fcvt_s_d a : translates (Insn.fcvt_s_d a).
Proof.
  sound_start. helper true Helper.helper_fcvt_s_d
    [F (ArgsR2Rm.rs1 a); Rm (u64 (ArgsR2Rm.rm a))] (ToF (ArgsR2Rm.rd a)).
Qed.

Lemma translates_fcvt_d_s a : translates (Insn.fcvt_d_s a).
Proof.
  sound_start. helper true Helper.helper_fcvt_d_s
    [F (ArgsR2Rm.rs1 a); Rm (u64 (ArgsR2Rm.rm a))] (ToF (ArgsR2Rm.rd a)).
Qed.

(** Loads, stores and moves. *)
Lemma translates_flw a : translates (Insn.flw a).
Proof. sound_start. ext. by apply (sound_fp_load host envp 4 true); try apply Hok. Qed.

Lemma translates_fld a : translates (Insn.fld a).
Proof. sound_start. ext. by apply (sound_fp_load host envp 8 false); try apply Hok. Qed.

Lemma translates_fsw a : translates (Insn.fsw a).
Proof. sound_start. ext. by apply (sound_fp_store host envp 4 true). Qed.

Lemma translates_fsd a : translates (Insn.fsd a).
Proof. sound_start. ext. by apply (sound_fp_store host envp 8 false). Qed.

Lemma translates_fmv_x_w a : translates (Insn.fmv_x_w a).
Proof.
  sound_start. destruct Hok. eapply ends_needs; [done|]. intros He. by apply sound_fmv_x_w.
Qed.

Lemma translates_fmv_w_x a : translates (Insn.fmv_w_x a).
Proof.
  sound_start. destruct Hok. eapply ends_needs; [done|]. intros He. by apply sound_fmv_w_x.
Qed.

Lemma translates_fmv_x_d a : translates (Insn.fmv_x_d a).
Proof.
  sound_start. destruct Hok. eapply ends_needs; [done|]. intros He. by apply sound_fmv_x_d.
Qed.

Lemma translates_fmv_d_x a : translates (Insn.fmv_d_x a).
Proof.
  sound_start. destruct Hok. eapply ends_needs; [done|]. intros He. by apply sound_fmv_d_x.
Qed.

(** ** All instructions *)

#[local] Hint Resolve translates_add translates_sub translates_and translates_or translates_xor
  translates_sll translates_srl translates_sra translates_slt translates_sltu translates_addi
  translates_andi translates_ori translates_xori translates_slti translates_sltiu
  translates_addw translates_subw translates_addiw translates_sllw translates_srlw
  translates_sraw translates_slli translates_srli translates_srai translates_slliw
  translates_srliw translates_sraiw translates_mul translates_mulw translates_mulh
  translates_mulhsu translates_mulhu translates_div translates_divw translates_rem
  translates_remw translates_divu translates_divuw translates_remu translates_remuw
  translates_beq translates_bne translates_blt translates_bge translates_bltu translates_bgeu
  translates_jal translates_jalr translates_ecall translates_ebreak translates_lui
  translates_auipc translates_fence translates_lb translates_lh translates_lw translates_lbu
  translates_lhu translates_lwu translates_ld translates_sb translates_sh translates_sw
  translates_sd translates_lr_w translates_lr_d translates_sc_w translates_sc_d
  translates_amoswap_w translates_amoswap_d translates_amoadd_w translates_amoadd_d
  translates_amoand_w translates_amoand_d translates_amoor_w translates_amoor_d
  translates_amoxor_w translates_amoxor_d translates_amomin_w translates_amomax_w
  translates_amominu_w translates_amomaxu_w translates_amomin_d translates_amomax_d
  translates_amominu_d translates_amomaxu_d translates_csrrw translates_csrrs translates_csrrc
  translates_csrrwi translates_csrrsi translates_csrrci translates_fmadd_s translates_fmsub_s
  translates_fnmsub_s translates_fnmadd_s translates_fadd_s translates_fsub_s translates_fmul_s
  translates_fdiv_s translates_fsqrt_s translates_fsgnj_s translates_fsgnjn_s
  translates_fsgnjx_s translates_fmin_s translates_fmax_s translates_feq_s translates_flt_s
  translates_fle_s translates_fclass_s translates_fcvt_w_s translates_fcvt_wu_s
  translates_fcvt_l_s translates_fcvt_lu_s translates_fcvt_s_w translates_fcvt_s_wu
  translates_fcvt_s_l translates_fcvt_s_lu translates_fmadd_d translates_fmsub_d
  translates_fnmsub_d translates_fnmadd_d translates_fadd_d translates_fsub_d translates_fmul_d
  translates_fdiv_d translates_fsqrt_d translates_fsgnj_d translates_fsgnjn_d
  translates_fsgnjx_d translates_fmin_d translates_fmax_d translates_feq_d translates_flt_d
  translates_fle_d translates_fclass_d translates_fcvt_w_d translates_fcvt_wu_d
  translates_fcvt_l_d translates_fcvt_lu_d translates_fcvt_d_w translates_fcvt_d_wu
  translates_fcvt_d_l translates_fcvt_d_lu translates_fcvt_s_d translates_fcvt_d_s
  translates_flw translates_fld translates_fsw translates_fsd translates_fmv_x_w
  translates_fmv_w_x translates_fmv_x_d translates_fmv_d_x : riscv.

Lemma trans_sound i : translates i.
Proof. destruct i; auto with riscv. Qed.

(** ** What does not depend on the state *)

(** The zero state satisfies [agrees] wherever some state does. *)
Definition zero_guest : Guest.t := Guest.mk (λ _, 0) 0 0 (World.mk (λ _, 0) (λ _, 0)).
Definition zero_state : state := (λ t, if t =? 0 then envp else 0, Guest.world zero_guest).

Lemma zero_repr : repr envp zero_guest zero_state.
Proof.
  split; try done; intros i Hi; simpl.
  by rewrite (proj2 (Z.eqb_neq _ _)) by lia.
Qed.

Lemma x_zero i : x zero_guest i = 0.
Proof. unfold x. by destruct (i =? 0). Qed.

Lemma wp_static {A} (m : M A) d c σ σ' (Q : A → Dc.t → Context → Prop) :
  wp host m d c σ (λ a d' c' _, Q a d' c') → wp host m d c σ' (λ a d' c' _, Q a d' c').
Proof. intros (a & d' & c' & os & ?). by exists a, d', c', os. Qed.

(** Every instruction is translated, whatever the state, and either leaves [self]
    alone or ends the block. *)
Lemma trans_static i d c m σ ts :
  good c ts (64 + m) → self_ok d → args_ok i →
  wp host (Decode.trans i) d c σ (λ b d' c' _, (∃ ts', good c' ts' m) ∧ (d' = d ∨ d' = stopped d)).
Proof.
  intros Hg Hself Hi. apply (wp_static _ _ _ (zero_state, Next)).
  assert (starts envp d c m zero_guest zero_state) as Hst.
  { split; [by eexists|]. split; [done|apply zero_repr]. }
  assert (agrees i zero_guest →
    wp host (Decode.trans i) d c (zero_state, Next)
      (λ b d' c' _, (∃ ts', good c' ts' m) ∧ (d' = d ∨ d' = stopped d))) as Hall.
  { intros Ha. eapply wp_mono; [|exact (trans_sound i d c m _ _ zero_guest Hst Hi Ha)].
    intros b d' c' σ' [Hg' He]. split; [done|]. destruct (rv_step _ _ _ _ _ _ _); tauto. }
  destruct i; try (apply Hall; cbn [agrees]; rewrite ?x_zero; done);
    destruct Hi as [Ha _];
    (eapply wp_mono; [|first [eapply sound_gen_shift_imm | eapply sound_gen_shift_imm_w];
                       [computes_tac|exact Hst|exact Ha]]);
    intros b d' c' σ' (_ & Hd & Hg' & _); auto.
Qed.
End sound.
