(* ===== verification/RiscvTb.v ===== *)
(** * Translation of a block of RISC-V code (frontend/src/riscv/mod.rs, linux-user/src/main.rs)

    [RiscvTranslator] as an instance of the framework of Frontend.v, and the
    [gen_code] of [LinuxCpu], which drives it: through [translator_loop] the first
    time, and, once the globals are registered, through a loop of its own.

    Guest code is read from host memory, a parameter; the generated decoders
    (build.rs, from insn32.decode and insn16.decode) are the class [Decoder].

    The result: the IR of a block, run from a state that stands for a guest state,
    ends as the reference machine does after up to [max_insns] instructions. *)

From S2P Require Import Prelude Types Opcodes Ir Builder IrSem Tb Frontend RiscvCpu RiscvGen.
From S2P Require Import RiscvTrans RiscvSem RiscvWp RiscvRules RiscvInt RiscvFp RiscvSound.

(** Bytes of host memory, for fetching. *)
Class CodeMemory := code_byte : Z → Z.

(** [insn_decode::decode] and [decode16]: the method they call, if a pattern matches. *)
Class Decoder := {
  decode : Z → option Insn.t;
  decode16 : Z → option Insn16.t
}.

(** The 32-bit instruction a compressed one expands to. *)
Definition expand (i : Insn16.t) : option Insn.t :=
  match i with
  | Insn16.illegal _ | Insn16.c64_illegal _ => None
  | Insn16.addi a => Some (Insn.addi a)
  | Insn16.lw a => Some (Insn.lw a)
  | Insn16.ld a => Some (Insn.ld a)
  | Insn16.c_fld a => Some (Insn.fld a)
  | Insn16.c_flw a => Some (Insn.flw a)
  | Insn16.sw a => Some (Insn.sw a)
  | Insn16.sd a => Some (Insn.sd a)
  | Insn16.c_fsd a => Some (Insn.fsd a)
  | Insn16.c_fsw a => Some (Insn.fsw a)
  | Insn16.lui a => Some (Insn.lui a)
  | Insn16.srli a => Some (Insn.srli a)
  | Insn16.srai a => Some (Insn.srai a)
  | Insn16.andi a => Some (Insn.andi a)
  | Insn16.sub a => Some (Insn.sub a)
  | Insn16.xor a => Some (Insn.xor a)
  | Insn16.or a => Some (Insn.or a)
  | Insn16.and a => Some (Insn.and a)
  | Insn16.jal a => Some (Insn.jal a)
  | Insn16.beq a => Some (Insn.beq a)
  | Insn16.bne a => Some (Insn.bne a)
  | Insn16.addiw a => Some (Insn.addiw a)
  | Insn16.subw a => Some (Insn.subw a)
  | Insn16.addw a => Some (Insn.addw a)
  | Insn16.slli a => Some (Insn.slli a)
  | Insn16.jalr a => Some (Insn.jalr a)
  | Insn16.ebreak a => Some (Insn.ebreak a)
  | Insn16.add a => Some (Insn.add a)
  end.

Section translator.
Context `{CodeMemory, Decoder, HelperAddr}.

(** ** Fetching *)

(** The [n] bytes at [guest_base + pc], in little-endian order. *)
Definition fetch (base pc : Z) (n : nat) : Z :=
  le_value (map (λ i, code_byte (u64 (base + pc + Z.of_nat i)) mod 256) (seq 0 n)).

Definition fetch_insn16 (self : Dc.t) : Z := fetch (Dc.guest_base self) (Dc.pc_next self) 2.
Definition fetch_insn32 (self : Dc.t) : Z := fetch (Dc.guest_base self) (Dc.pc_next self) 4.

(** ** The callbacks *)

Definition modify (f : Dc.t → Dc.t) : M unit := λ '(d, c), Some (tt, (f d, c)).

(** A call of a method of [Context] that may panic. *)
Definition ir_opt (f : Context → option (Z * Context)) : M Z := λ '(d, c),
  '(r, c) ← f c; Some (r, (d, c)).

Definition callback (m : M unit) : Callback Dc.t := λ d c, snd <$> m (d, c).

Definition init_disas_context : M unit :=
  env ← ir_opt (λ k, new_fixed k Type_.I64 5 "env");
  gpr ← mapM (λ i, ir_opt (λ k, new_global k Type_.I64 env (gpr_offset i) "gpr")) (seqZ 0 NUM_GPRS);
  pc ← ir_opt (λ k, new_global k Type_.I64 env PC_OFFSET "pc");
  load_res ← ir_opt (λ k, new_global k Type_.I64 env LOAD_RES_OFFSET "load_res");
  load_val ← ir_opt (λ k, new_global k Type_.I64 env LOAD_VAL_OFFSET "load_val");
  modify (λ d, Dc.set_temps d env gpr pc load_res load_val).

Definition tb_start : M unit := mret tt.

Definition update_base (f : DisasContextBase.t → DisasContextBase.t) (d : Dc.t) : Dc.t :=
  Dc.set_base d (f (Dc.base d)).

Definition insn_start : M unit :=
  self ← get_self;
  _ ← ir_ (λ k, gen_insn_start k (Dc.pc_next self));
  modify (update_base (λ b, DisasContextBase.set_num_insns b (DisasContextBase.num_insns b + 1))).

(** The instruction at [pc_next] is decoded and translated; [false] if it is not one. *)
Definition decode_insn : M bool :=
  self ← get_self;
  let half := fetch_insn16 self in
  if negb (Z.land half 3 =? 3) then
    if negb (MisaExt.contains (RiscvCfg.misa (Dc.cfg self)) MisaExt.C) then mret false
    else
      _ ← modify (λ d, Dc.set_insn d half 2);
      match decode16 half with Some i => Decode16.trans i | None => mret false end
  else
    let insn := fetch_insn32 self in
    _ ← modify (λ d, Dc.set_insn d insn 4);
    match decode insn with Some i => Decode.trans i | None => mret false end.

Definition translate_insn : M unit :=
  decoded ← decode_insn;
  _ ← (if negb decoded then
         self ← get_self;
         pc_const ← ir (λ k, new_const k Type_.I64 (Dc.pc_next self));
         _ ← ir (λ k, gen_mov k Type_.I64 (Dc.pc self) pc_const);
         _ ← ir_ (λ k, gen_exit_tb k EXCP_UNDEF);
         set_is_jmp DisasJumpType.NoReturn
       else mret tt);
  modify (λ d, update_base (λ b, DisasContextBase.set_pc_next b
                                   (u64 (DisasContextBase.pc_next b + Dc.cur_insn_len d))) d).

Definition tb_stop : M unit :=
  self ← get_self;
  match DisasContextBase.is_jmp (Dc.base self) with
  | DisasJumpType.NoReturn => mret tt
  | DisasJumpType.Next | DisasJumpType.TooMany =>
      pc_const ← ir (λ k, new_const k Type_.I64 (Dc.pc_next self));
      _ ← ir (λ k, gen_mov k Type_.I64 (Dc.pc self) pc_const);
      _ ← ir_ (λ k, gen_goto_tb k 0);
      ir_ (λ k, gen_exit_tb k TB_EXIT_IDX0)
  end.

#[global] Instance RiscvTranslator : TranslatorOps Dc.t := {|
  Frontend.init_disas_context := callback init_disas_context;
  Frontend.tb_start := callback tb_start;
  Frontend.insn_start := callback insn_start;
  Frontend.translate_insn := callback translate_insn;
  Frontend.tb_stop := callback tb_stop;
  Frontend.base := Dc.base;
  Frontend.with_base := Dc.set_base
|}.
End translator.

(** ** [LinuxCpu] (main.rs) *)

Module LinuxCpu.
Record t := mk { cpu : RiscvCpu.t; cfg : RiscvCfg.t }.

Definition get_pc (c : t) : Z := RiscvCpu.pc (cpu c).
Definition get_flags (c : t) : Z := 0.

Section gen_code.
Context `{CodeMemory, Decoder, HelperAddr}.

(** The temps of the globals an earlier block registered. *)
Definition known_temps (d : Dc.t) : Dc.t :=
  Dc.set_temps d 0 (map (λ i, 1 + i) (seqZ 0 NUM_GPRS)) (1 + NUM_GPRS) (1 + NUM_GPRS + 1)
    (1 + NUM_GPRS + 2).

(** The context and the guest size. *)
Definition gen_code (c : t) (ir : Context) (pc max_insns : Z) : option (Context * Z) :=
  let d := Dc.new pc (RiscvCpu.guest_base (cpu c)) (cfg c) in
  let d := Dc.set_base d (DisasContextBase.set_max_insns (Dc.base d) max_insns) in
  '(d, ir) ←
    (if nb_globals ir =? 0 then translator_loop d ir
     else
       let d := known_temps d in
       '(d, ir) ← Frontend.tb_start d ir;
       '(d, ir) ← translate_loop (loop_fuel d) d ir;
       Frontend.tb_stop d ir);
  Some (ir, u32 (DisasContextBase.num_insns (Dc.base d) * 4)).
End gen_code.
End LinuxCpu.

(** ** The reference machine on a block *)

Section machine.
Context `{CodeMemory, Decoder, HelperAddr}.
Variable host : Z → list Z → World.t → Z * World.t.
Variable cfg : RiscvCfg.t.
Variables envp base : Z.

(** The instruction at [pc], if there is one, and its length. *)
Definition insn_at (pc : Z) : option Insn.t * Z :=
  let half := fetch base pc 2 in
  if Z.land half 3 =? 3 then (decode (fetch base pc 4), 4)
  else (if MisaExt.contains (RiscvCfg.misa cfg) MisaExt.C then decode16 half ≫= expand else None, 2).

Definition step_at (pc : Z) (g : Guest.t) : result :=
  match (insn_at pc).1 with
  | Some i => rv_step host cfg envp pc (insn_at pc).2 i g
  | None => Illegal
  end.

(** Where the machine stands after some instructions of a block. *)
Inductive outcome := Left (code pc : Z) (g : Guest.t) | Through (pc : Z) (g : Guest.t).

(** Up to [n] instructions from [pc]; an illegal one traps. *)
Fixpoint guest_run (n : nat) (pc : Z) (g : Guest.t) : outcome :=
  match n with
  | O => Through pc g
  | S n =>
      match step_at pc g with
      | Illegal => Left EXCP_UNDEF (u64 pc) g
      | Fall g => guest_run n (u64 (pc + (insn_at pc).2)) g
      | Exit pc code g => Left code (u64 pc) g
      end
  end.

Lemma guest_run_S n pc g :
  guest_run (S n) pc g =
  match step_at pc g with
  | Illegal => Left EXCP_UNDEF (u64 pc) g
  | Fall g => guest_run n (u64 (pc + (insn_at pc).2)) g
  | Exit pc code g => Left code (u64 pc) g
  end.
Proof. done. Qed.

(** What a block of up to [n] instructions does: exit value, pc and state. *)
Definition guest_block (n : nat) (pc : Z) (g : Guest.t) : Z * Z * Guest.t :=
  match guest_run n pc g with
  | Left code pc g => (code, pc, g)
  | Through pc g => (TB_EXIT_IDX0, u64 pc, g)
  end.

(** Translation and reference agree on every instruction of that run. *)
Fixpoint agrees_run (n : nat) (pc : Z) (g : Guest.t) : Prop :=
  match n with
  | O => True
  | S n =>
      (∀ i, (insn_at pc).1 = Some i → agrees i g) ∧
      match step_at pc g with
      | Fall g => agrees_run n (u64 (pc + (insn_at pc).2)) g
      | _ => True
      end
  end.

(** The decoders make well-formed instructions. *)
Definition decoder_ok : Prop :=
  (∀ w i, decode w = Some i → args_ok i) ∧ (∀ w i j, decode16 w = Some i → expand i = Some j → args_ok j).

(** ** One instruction *)

Lemma trans16_expand i d c :
  Decode16.trans i (d, c) =
  match expand i with Some j => Decode.trans j (d, c) | None => Some (false, (d, c)) end.
Proof. by destruct i. Qed.

Hypothesis Hdec : decoder_ok.

Lemma insn_at_ok pc i : (insn_at pc).1 = Some i → args_ok i.
Proof.
  unfold insn_at. destruct (Z.land _ 3 =? 3); simpl; [apply Hdec|].
  destruct (MisaExt.contains _ _); [|done]. intros (j & Hj & Hi)%bind_Some. by eapply Hdec.
Qed.
Lemma wp_eq {A} (m m' : M A) d c σ Q : m (d, c) = m' (d, c) → wp host m' d c σ Q → wp host m d c σ Q.
Proof. intros He (a & d' & c' & os & Hm & ?). exists a, d', c', os. by rewrite He. Qed.

Lemma wp_modify f d c ts n σ (Q : () → Dc.t → Context → state * ctl → Prop) :
  good c ts n → Q tt (f d) c σ → wp host (modify f) d c σ Q.
Proof. intros [? _ _] ?. by eapply wp_nop. Qed.

Lemma set_insn_id d : Dc.set_insn d (Dc.opcode d) (Dc.cur_insn_len d) = d.
Proof. by destruct d. Qed.

(** Decoding dispatches on the instruction at [pc_next]. *)
Lemma wp_decode_insn d c ts n σ (Q : bool → Dc.t → Context → state * ctl → Prop) :
  good c ts n → Dc.cfg d = cfg → Dc.guest_base d = base →
  (∀ o len, (insn_at (Dc.pc_next d)).1 = None → Q false (Dc.set_insn d o len) c σ) →
  (∀ i o, (insn_at (Dc.pc_next d)).1 = Some i →
     wp host (Decode.trans i) (Dc.set_insn d o (insn_at (Dc.pc_next d)).2) c σ Q) →
  wp host decode_insn d c σ Q.
Proof.
  intros Hg Hcfg Hbase HN HS. unfold decode_insn, fetch_insn16, fetch_insn32, insn_at in *.
  apply wp_bind. eapply wp_get_self; [done|]. rewrite Hbase, Hcfg.
  destruct (Z.land _ 3 =? 3); cbn [negb fst snd] in *.
  - apply wp_bind. eapply wp_modify; [done|].
    destruct (decode _) as [i|]; [by apply HS|]. eapply wp_ret; [done|]. by apply HN.
  - destruct (MisaExt.contains _ _); cbn [negb].
    + apply wp_bind. eapply wp_modify; [done|]. destruct (decode16 _) as [i|]; cbn [mbind option_bind] in *.
      * eapply (wp_eq _ (match expand i with Some j => Decode.trans j | None => mret false end)).
        { rewrite trans16_expand. by destruct (expand i). }
        destruct (expand i) as [j|]; [by apply HS|]. eapply wp_ret; [done|]. by apply HN.
      * eapply wp_ret; [done|]. by apply HN.
    + eapply wp_ret; [done|]. rewrite <- (set_insn_id d). by apply HN.
Qed.

(** *** From a state that stands for a guest state *)

Definition advanced (d d' : Dc.t) : Prop :=
  self_ok d' ∧ Dc.cfg d' = Dc.cfg d ∧ Dc.guest_base d' = Dc.guest_base d ∧
  num_insns d' = num_insns d + 1 ∧ max_insns d' = max_insns d.

Definition one_insn : M unit := _ ← insn_start; translate_insn.

Lemma wp_insn_start d c ts n s k (Q : () → Dc.t → Context → state * ctl → Prop) :
  good c ts (S n) →
  (∀ c', good c' ts n →
     Q tt (update_base (λ b, DisasContextBase.set_num_insns b (DisasContextBase.num_insns b + 1)) d)
       c' (s, k)) →
  wp host insn_start d c (s, k) Q.
Proof.
  intros Hg HQ. unfold insn_start. apply wp_bind. eapply wp_get_self; [done|]. apply wp_bind.
  assert (∀ c', good c' ts n → wp host (modify (update_base (λ b, DisasContextBase.set_num_insns b
    (DisasContextBase.num_insns b + 1)))) d c' (s, k) Q) as Hk.
  { intros c' Hg'. eapply wp_modify; [done|]. by apply HQ. }
  assert (k = Next ∨ k ≠ Next) as [-> | Hne] by (destruct k; [by left|by right..]).
  - destruct s as [e w].
    eapply (wp_emit host _ tt Opcode.InsnStart Type_.I64 [] [] []
      [carg (u32 (Dc.pc_next d)); carg (u32 (Z.shiftr (Dc.pc_next d) 32))]);
      [done|done|done|done|done|done|constructor|constructor|done|intros; by apply Hk].
  - eapply (wp_skip host _ tt Opcode.InsnStart Type_.I64 [] []
      [carg (u32 (Dc.pc_next d)); carg (u32 (Z.shiftr (Dc.pc_next d) 32))]);
      [done|done|done|done|done|done|constructor|done|intros; by apply Hk].
Qed.
(** What one translated instruction leaves, dynamically. *)
Definition stepped (d : Dc.t) (m : nat) (pc : Z) (g : Guest.t) (d' : Dc.t) (c' : Context)
    (σ : state * ctl) : Prop :=
  (∃ ts', good c' ts' m) ∧ advanced d d' ∧
  match step_at pc g with
  | Fall g' =>
      Dc.pc_next d' = u64 (pc + (insn_at pc).2) ∧ is_jmp d' = is_jmp d ∧ σ.2 = Next ∧ repr envp g' σ.1
  | Exit pc' code g' => σ.2 = Leave code ∧ repr envp g' σ.1 ∧ σ.1.1 33 = u64 pc'
  | Illegal => σ.2 = Leave EXCP_UNDEF ∧ repr envp g σ.1 ∧ σ.1.1 33 = u64 pc
  end.

(** The context after [insn_start] and the fetch. *)
Definition fetched (d : Dc.t) (o len : Z) : Dc.t :=
  Dc.set_insn (update_base (λ b, DisasContextBase.set_num_insns b (DisasContextBase.num_insns b + 1)) d)
    o len.

Lemma wp_decode_sound g d c m e w :
  starts envp d c m g (e, w) → Dc.cfg d = cfg → Dc.guest_base d = base →
  (∀ i, (insn_at (Dc.pc_next d)).1 = Some i → agrees i g) →
  wp host decode_insn d c ((e, w), Next) (λ b d' c' σ, ∃ o len,
    ends envp (Dc.set_insn d o len) m g (step_at (Dc.pc_next d) g) b d' c' σ ∧
    (step_at (Dc.pc_next d) g = Illegal ∨ len = (insn_at (Dc.pc_next d)).2)).
Proof.
  intros Hst Hcfg Hbase Hag. pose proof Hst as ([ts Hg] & Hself & Hr). unfold step_at.
  eapply wp_decode_insn; [exact Hg|done|done| |].
  - intros o len ->. exists o, len. split; [|by left]. split; [|done].
    eexists. eapply good_mono, Hg. lia.
  - intros i o Hi. rewrite Hi. eapply wp_mono.
    2: { eapply (trans_sound host envp i (Dc.set_insn d o _)); [|by eapply insn_at_ok|by apply Hag].
         split; [by eexists|]. split; [done|exact Hr]. }
    intros b d' c' σ He. exists o, (insn_at (Dc.pc_next d)).2. rewrite <- Hcfg. auto.
Qed.

Lemma wp_one_insn g d c m e w :
  starts envp d c (8 + m) g (e, w) → Dc.cfg d = cfg → Dc.guest_base d = base →
  (∀ i, (insn_at (Dc.pc_next d)).1 = Some i → agrees i g) →
  wp host one_insn d c ((e, w), Next) (λ _ d' c' σ, stepped d m (Dc.pc_next d) g d' c' σ).
Proof.
  intros ([ts Hg] & Hself & Hr) Hcfg Hbase Hag. unfold one_insn. apply wp_bind.
  eapply wp_insn_start; [exact Hg|]. clear c Hg. intros c Hg. unfold translate_insn. apply wp_bind.
  eapply wp_mono; [|eapply (wp_decode_sound g (update_base _ d) c (7 + m));
    [split; [by eexists|split; [done|exact Hr]]|done|done|exact Hag]].
  intros b d' c' [s k] (o & len & [[ts' Hg'] He] & Hlen). change (Dc.pc_next (update_base _ d)) with (Dc.pc_next d) in *.
  unfold stepped.
  destruct (step_at (Dc.pc_next d) g) as [|g'|pc code g'] eqn:Hs; cbn [fst snd] in He.
  - destruct He as (-> & -> & -> & Hr'). destruct s as [e' w']. cbn [negb].
    pose proof (good_len _ _ _ Hg') as Hl. set (d2 := Dc.set_insn _ _ _).
    assert (self_ok d2) as Hself2 by exact Hself. clear Hg Hr.
    wp_auto. assert (Dc.pc d2 = 33) as -> by apply Hself2. leave_auto.
    eapply wp_modify; [done|]. split; [eexists; solve_good|]. done.
  - destruct He as (-> & -> & -> & Hr'). cbn [negb]. apply wp_bind. eapply wp_ret; [done|].
    eapply wp_modify; [done|]. split; [eexists; eapply good_mono, Hg'; lia|]. split; [done|].
    destruct Hlen as [?|Hlen]; [done|]. split_and!; [|done..].
    by rewrite <- Hlen.
  - destruct He as (-> & Hd & -> & Hr' & Hpc). cbn [negb]. apply wp_bind. eapply wp_ret; [done|].
    eapply wp_modify; [done|]. split; [eexists; eapply good_mono, Hg'; lia|].
    destruct Hd as [-> | ->]; done.
Qed.
(** From any state: what is emitted does not depend on it. *)
Lemma wp_one_insn_static d c m ts σ :
  good c ts (72 + m) → self_ok d → Dc.cfg d = cfg → Dc.guest_base d = base →
  wp host one_insn d c σ (λ _ d' c' _, (∃ ts', good c' ts' m) ∧ advanced d d').
Proof.
  intros Hg Hself Hcfg Hbase. apply (wp_static _ _ _ _ (zero_state envp, Leave 0)).
  unfold one_insn. apply wp_bind. eapply wp_insn_start; [exact Hg|]. clear c Hg. intros c Hg.
  unfold translate_insn. apply wp_bind.
  eapply (wp_mono _ _ _ _ _ (λ b d' c' _, (∃ ts', good c' ts' (7 + m)) ∧
    ∃ o len, d' = fetched d o len ∨ d' = stopped (fetched d o len))).
  - intros b d' c' σ' [[ts' Hg'] (o & len & Hd)].
    assert (advanced d d') as Hadv by (destruct Hd as [-> | ->]; done).
    pose proof (good_len _ _ _ Hg') as Hl. clear Hg. apply (wp_static _ _ _ _ (zero_state envp, Leave 0)).
    apply wp_bind. destruct b; cbn [negb].
    + eapply wp_ret; [done|]. eapply wp_modify; [done|]. split; [eexists; eapply good_mono, Hg'; lia|].
      exact Hadv.
    + apply wp_bind. eapply wp_get_self; [done|].
      assert (Dc.pc d' = 33) as -> by apply Hadv. skip_auto.
      eapply wp_modify; [done|]. split; [eexists; solve_good|]. exact Hadv.
  - eapply wp_decode_insn; [exact Hg|done|done| |].
    + intros o len _. split; [eexists; eapply good_mono, Hg; lia|]. exists o, len. by left.
    + intros i o Hi. eapply wp_mono; [|eapply (trans_static host envp i _ _ (7 + m));
        [exact Hg|exact Hself|by eapply insn_at_ok]].
      intros b d' c' _ [Hg' Hd]. split; [done|]. by exists o, (insn_at (Dc.pc_next d)).2.
Qed.

(** ** The loop *)

Definition jump_next (d : Dc.t) : bool :=
  bool_decide (DisasContextBase.is_jmp (Dc.base d) = DisasJumpType.Next).

Lemma jump_next_true d : is_jmp d = DisasJumpType.Next → jump_next d = true.
Proof. intros Hd. apply bool_decide_true. exact Hd. Qed.

(** [translate_loop], in the translation monad. *)
Fixpoint loop_m (fuel : nat) : M unit :=
  match fuel with
  | O => λ _, None
  | S fuel =>
      _ ← one_insn;
      self ← get_self;
      if negb (jump_next self) then mret tt
      else if max_insns self <=? num_insns self
      then modify (λ d, set_jump d DisasJumpType.TooMany)
      else loop_m fuel
  end.

Lemma loop_m_S n :
  loop_m (S n) =
  (_ ← one_insn;
   self ← get_self;
   if negb (jump_next self) then mret tt
   else if max_insns self <=? num_insns self
   then modify (λ d, set_jump d DisasJumpType.TooMany)
   else loop_m n).
Proof. done. Qed.

Lemma loop_m_spec fuel d c : translate_loop fuel d c = snd <$> loop_m fuel (d, c).
Proof.
  revert d c. induction fuel as [|fuel IH]; intros d c; [done|].
  cbn [translate_loop loop_m]. unfold one_insn. cbn [Frontend.insn_start Frontend.translate_insn RiscvTranslator].
  unfold callback. unfold mbind at 3 4 5, M_bind.
  destruct (insn_start (d, c)) as [[[] [d1 c1]]|]; [|done]. cbn.
  destruct (translate_insn (d1, c1)) as [[[] [d2 c2]]|]; [|done]. cbn.
  fold (jump_next d2). destruct (jump_next d2); [|done]. cbn [negb].
  change (max_insns d2 <=? num_insns d2) with
    (DisasContextBase.max_insns (Dc.base d2) <=? DisasContextBase.num_insns (Dc.base d2)).
  destruct (DisasContextBase.max_insns _ <=? _); [done|apply IH].
Qed.

(** The instructions still allowed: at least one. *)
Definition budget (d : Dc.t) : Z := Z.max 1 (max_insns d - num_insns d).

Lemma wp_loop_static j d c m ts σ :
  good c ts (72 * S j + m) → self_ok d → Dc.cfg d = cfg → Dc.guest_base d = base →
  budget d ≤ Z.of_nat (S j) →
  wp host (loop_m (S j)) d c σ (λ _ d' c' _, (∃ ts', good c' ts' m) ∧ self_ok d').
Proof.
  revert d c ts σ. induction j as [|j IH]; intros d c ts σ Hg Hself Hcfg Hbase Hb;
    cbn [loop_m]; apply wp_bind;
    (match type of Hg with
     | good _ _ (72 * S ?k + _) =>
         eapply wp_mono; [|eapply (wp_one_insn_static _ _ (72 * k + m));
                           [eapply good_mono, Hg; lia|done|done|done]]
     end);
    intros _ d' c' σ' [[ts' Hg'] (Hself' & Hcfg' & Hbase' & Hnum & Hmax)]; unfold budget in *;
    apply wp_bind; (eapply wp_get_self; [done|]);
    (destruct (jump_next d'); cbn [negb];
     [|eapply wp_ret; [done|]; split; [eexists; eapply good_mono, Hg'; lia|done]]);
    (destruct (Z.leb_spec (max_insns d') (num_insns d'));
     [eapply wp_modify; [done|]; split; [eexists; eapply good_mono, Hg'; lia|done]|]).
  - lia.
  - eapply IH; [exact Hg'|done|congruence|congruence|]. unfold budget. lia.
Qed.
(** Behind an exit the rest of the loop changes nothing. *)
Lemma wp_rest_left j d c m ts s v :
  good c ts (72 * j + m) → self_ok d → Dc.cfg d = cfg → Dc.guest_base d = base →
  max_insns d - num_insns d ≤ Z.of_nat j →
  wp host (if negb (jump_next d) then mret tt
           else if max_insns d <=? num_insns d then modify (λ d, set_jump d DisasJumpType.TooMany)
           else loop_m j) d c (s, Leave v)
    (λ _ d' c' σ, (∃ ts', good c' ts' m) ∧ self_ok d' ∧ σ = (s, Leave v)).
Proof.
  intros Hg Hself Hcfg Hbase Hj. assert (∃ ts', good c ts' m) by (eexists; eapply good_mono, Hg; lia).
  eapply (wp_left _ _ _ _ (s, Leave v)).
  eapply (wp_mono _ _ _ _ _ (λ _ d' c' _, (∃ ts', good c' ts' m) ∧ self_ok d')); [naive_solver|].
  destruct (jump_next d); cbn [negb]; [|by eapply wp_ret].
  destruct (Z.leb_spec (max_insns d) (num_insns d)); [by eapply wp_modify|].
  destruct j as [|j]; [lia|]. eapply wp_loop_static; [done..|]. unfold budget. lia.
Qed.

(** From a state that stands for a guest state: the loop follows the reference. *)
Definition arrived (o : outcome) (d' : Dc.t) (σ : state * ctl) : Prop :=
  match o with
  | Left code pc g => σ.2 = Leave code ∧ repr envp g σ.1 ∧ σ.1.1 33 = pc
  | Through pc g =>
      σ.2 = Next ∧ repr envp g σ.1 ∧ Dc.pc_next d' = pc ∧ is_jmp d' = DisasJumpType.TooMany
  end.

Lemma wp_loop j g d c m e w ts :
  good c ts (72 * S j + m) → self_ok d → repr envp g (e, w) → Dc.cfg d = cfg →
  Dc.guest_base d = base → is_jmp d = DisasJumpType.Next → budget d = Z.of_nat (S j) →
  agrees_run (S j) (Dc.pc_next d) g →
  wp host (loop_m (S j)) d c ((e, w), Next) (λ _ d' c' σ,
    (∃ ts', good c' ts' m) ∧ self_ok d' ∧ arrived (guest_run (S j) (Dc.pc_next d) g) d' σ).
Proof.
  revert g d c ts e w. induction j as [|j IH]; intros g d c ts e w Hg Hself Hr Hcfg Hbase Hj Hb Ha;
    (match type of Hg with
     | good _ _ (72 * S ?k + _) =>
         rewrite loop_m_S; apply wp_bind;
         eapply wp_mono; [|eapply (wp_one_insn g _ _ (72 * k + m))];
         [|split; [eexists; eapply good_mono, Hg; lia|done]|done|done|apply Ha]
     end);
    intros _ d' c' [s k] ([ts' Hg'] & (Hself' & Hcfg' & Hbase' & Hnum & Hmax) & Hs); unfold budget in *;
    apply wp_bind; (eapply wp_get_self; [done|]);
    cbn [agrees_run fst snd] in *; rewrite guest_run_S;
    destruct (step_at (Dc.pc_next d) g) as [|g'|pc' code g'] eqn:Hst.
  1, 3, 4, 6: destruct Hs as (-> & Hr' & Hpc);
    (eapply wp_mono; [|eapply wp_rest_left; [exact Hg'|done|congruence|congruence|lia]]);
    intros _ d2 c2 σ2 (? & ? & ->); done.
  - destruct Hs as (Hpc & Hj' & -> & Hr'). rewrite jump_next_true by congruence.
    cbn [negb]. rewrite (proj2 (Z.leb_le _ _)) by lia.
    eapply wp_modify; [done|]. split; [by eexists|]. done.
  - destruct Hs as (Hpc & Hj' & -> & Hr'). rewrite jump_next_true by congruence.
    cbn [negb]. rewrite (proj2 (Z.leb_gt _ _)) by lia. destruct s as [e' w'].
    rewrite <- Hpc. rewrite <- Hpc in Ha. eapply IH;
      [exact Hg'|done|done|congruence|congruence|congruence|unfold budget; lia|apply Ha].
Qed.
(** ** The whole block *)

Definition block_m (n : nat) : M unit := _ ← loop_m n; tb_stop.

(** [n] instructions at most, from the state the globals hold: the ops emitted leave the
    block the way the reference machine does. *)
Lemma wp_block j g d c m e w ts :
  good c ts (72 * S j + (5 + m)) → self_ok d → repr envp g (e, w) → Dc.cfg d = cfg →
  Dc.guest_base d = base → is_jmp d = DisasJumpType.Next → budget d = Z.of_nat (S j) →
  agrees_run (S j) (Dc.pc_next d) g →
  wp host (block_m (S j)) d c ((e, w), Next) (λ _ d' c' σ,
    (∃ ts', good c' ts' m) ∧
    let '(code, pc, g') := guest_block (S j) (Dc.pc_next d) g in
    σ.2 = Leave code ∧ repr envp g' σ.1 ∧ σ.1.1 33 = pc).
Proof.
  intros. unfold block_m, guest_block. apply wp_bind. eapply wp_mono; [|by eapply (wp_loop j g)].
  intros _ d' c' [s k] ([ts' Hg'] & Hself' & Harr). unfold tb_stop. apply wp_bind.
  eapply wp_get_self; [done|]. pose proof (good_len _ _ _ Hg') as Hl.
  destruct (guest_run _ _ _) as [code pc g'|pc g']; cbn [arrived fst snd] in Harr.
  - destruct Harr as (-> & Hr' & Hpc).
    assert (∃ ts', good c' ts' m) as Hm by (eexists; eapply good_mono, Hg'; lia).
    assert (Dc.pc d' = 33) as Hpc33 by apply Hself'.
    destruct (DisasContextBase.is_jmp (Dc.base d')); [| |by eapply wp_ret];
      rewrite Hpc33; skip_auto; (split; [eexists; solve_good|done]).
  - destruct Harr as (-> & Hr' & <- & Hj'). destruct s as [e' w'].
    assert (Dc.pc d' = 33) as Hpc33 by apply Hself'.
    change (DisasContextBase.is_jmp (Dc.base d')) with (is_jmp d'). rewrite Hj', Hpc33.
    wp_auto. mov_pc_step. wp_auto. exit_step. split; [eexists; solve_good|done].
Qed.
End machine.

(** ** Registering the globals *)

(** A context that holds the first [k] temps of the guest state and nothing else. *)
Record registered (k : Z) (c : Context) : Prop := {
  rg_wf : wf_context c;
  rg_nb : nb_globals c = k;
  rg_len : zlen (temps c) = k;
  rg_temps i : 0 ≤ i < k → ∃ t, (temps c).[i] = Some t ∧ Temp.ty t = Type_.I64 ∧ Temp.is_const t = false;
  rg_ops : ops c = [];
  rg_labels : labels c = []
}.

Lemma registered_push k c t :
  registered k c → k + 1 < 2 ^ 32 → Temp.idx t = k → Temp.is_global_or_fixed t = true →
  Temp.ty t = Type_.I64 → registered (k + 1) (push_global c t).
Proof.
  intros [Hwf Hnb Hlen Ht Ho Hl] Hk Hidx Hgl Hty. subst k.
  assert (Temp.kind t ≠ TempKind.Const) as Hkind.
  { intros Hc. unfold Temp.is_global_or_fixed in Hgl. by rewrite Hc in Hgl. }
  split; simpl; [by apply wf_push_global; try lia; congruence|congruence|by rewrite zlen_app, zlen_one, Hlen| |done|done].
  intros i Hi. destruct (decide (i = zlen (temps c))) as [->|].
  - exists t. split; [apply zlookup_snoc|]. split; [done|]. unfold Temp.is_const. by rewrite bool_decide_eq_false.
  - destruct (Ht i ltac:(lia)) as (t' & ? & ?). exists t'. split; [by apply zlookup_app_Some|done].
Qed.

Lemma registered_global k c b off nm :
  registered k c → k + 1 < 2 ^ 32 →
  ∃ c', new_global c Type_.I64 b off nm = Some (k, c') ∧ registered (k + 1) c'.
Proof.
  intros Hr Hk. pose proof (rg_len _ _ Hr) as Hlen. pose proof (zlen_nonneg (temps c)).
  unfold new_global. rewrite Hlen, (rg_nb _ _ Hr), u32_small, Z.eqb_refl by lia.
  eexists. split; [done|]. by apply registered_push.
Qed.

Lemma registered_fixed k c r nm :
  registered k c → k + 1 < 2 ^ 32 →
  ∃ c', new_fixed c Type_.I64 r nm = Some (k, c') ∧ registered (k + 1) c'.
Proof.
  intros Hr Hk. pose proof (rg_len _ _ Hr) as Hlen. pose proof (zlen_nonneg (temps c)).
  unfold new_fixed. rewrite Hlen, (rg_nb _ _ Hr), u32_small, Z.eqb_refl by lia.
  eexists. split; [done|]. by apply registered_push.
Qed.

Lemma ir_opt_eq f d c r c' : f c = Some (r, c') → ir_opt f (d, c) = Some (r, (d, c')).
Proof. intros He. unfold ir_opt. by rewrite He. Qed.

Lemma M_bind_Some {A B} (m : M A) (k : A → M B) st a st' :
  m st = Some (a, st') → (m ≫= k) st = k a st'.
Proof. intros He. unfold mbind, M_bind. by rewrite He. Qed.

Lemma mapM_M_cons {A B} (f : A → M B) x l st :
  mapM f (x :: l) st = '(y, st) ← f x st; '(k, st) ← mapM f l st; Some (y :: k, st).
Proof. done. Qed.

Lemma registered_globals (l : list Z) b nm k d c :
  registered k c → k + zlen l < 2 ^ 32 →
  ∃ c', mapM (M := M) (λ i, ir_opt (λ k, new_global k Type_.I64 b (gpr_offset i) nm)) l (d, c) =
          Some (seqZ k (zlen l), (d, c')) ∧ registered (k + zlen l) c'.
Proof.
  revert k c. induction l as [|i l IH]; intros k c Hr Hk.
  { exists c. split; [done|]. by rewrite Z.add_0_r. }
  assert (zlen (i :: l) = zlen l + 1) as Hl by (unfold zlen; simpl; lia).
  pose proof (zlen_nonneg l). rewrite Hl in *.
  destruct (registered_global k c b (gpr_offset i) nm Hr ltac:(lia)) as (c1 & Hn & Hr1).
  destruct (IH (k + 1) c1 Hr1 ltac:(lia)) as (c2 & Hm & Hr2).
  exists c2. split.
  - rewrite mapM_M_cons. rewrite (ir_opt_eq (λ k, new_global k _ _ _ _) _ _ _ _ Hn). cbn [mbind option_bind]. rewrite Hm.
    cbn [mbind option_bind]. rewrite (seqZ_cons k) by lia.
    by replace (Z.pred (zlen l + 1)) with (zlen l) by lia.
  - by replace (k + (zlen l + 1)) with (k + 1 + zlen l) by lia.
Qed.

(** [init_disas_context] registers the temps that later blocks assume. *)
Lemma init_registers d c :
  registered 0 c →
  ∃ c', init_disas_context (d, c) = Some (tt, (LinuxCpu.known_temps d, c')) ∧ registered NB_GLOBALS c'.
Proof.
  intros Hr. unfold init_disas_context.
  destruct (registered_fixed 0 c 5 "env" Hr ltac:(lia)) as (c1 & H1 & Hr1).
  rewrite (M_bind_Some _ _ _ _ _ (ir_opt_eq _ d c _ _ H1)).
  destruct (registered_globals (seqZ 0 NUM_GPRS) 0 "gpr" 1 d c1 Hr1 ltac:(by vm_compute))
    as (c2 & H2 & Hr2).
  rewrite (M_bind_Some _ _ _ _ _ H2). change (1 + zlen (seqZ 0 NUM_GPRS)) with 33 in Hr2.
  destruct (registered_global 33 c2 0 PC_OFFSET "pc" Hr2 ltac:(lia)) as (c3 & H3 & Hr3).
  rewrite (M_bind_Some _ _ _ _ _ (ir_opt_eq (λ k, new_global k _ _ _ _) d c2 _ _ H3)).
  destruct (registered_global 34 c3 0 LOAD_RES_OFFSET "load_res" Hr3 ltac:(lia)) as (c4 & H4 & Hr4).
  rewrite (M_bind_Some _ _ _ _ _ (ir_opt_eq (λ k, new_global k _ _ _ _) d c3 _ _ H4)).
  destruct (registered_global 35 c4 0 LOAD_VAL_OFFSET "load_val" Hr4 ltac:(lia)) as (c5 & H5 & Hr5).
  rewrite (M_bind_Some _ _ _ _ _ (ir_opt_eq (λ k, new_global k _ _ _ _) d c4 _ _ H5)).
  exists c5. split; [done|exact Hr5].
Qed.

Lemma known_temps_ok d : self_ok (LinuxCpu.known_temps d).
Proof. by split_and!. Qed.

(** What a registered context is ready for. *)
Lemma registered_good c n :
  registered NB_GLOBALS c → 36 + Z.of_nat n < 2 ^ 32 → good c (temps c) n.
Proof.
  intros Hr Hn. pose proof Hr as [Hwf Hnb Hlen Ht Ho Hl]. unfold NB_GLOBALS in *.
  split; [|done|unfold room; rewrite Hlen, Ho, Hl; change (zlen []) with 0; lia].
  split; [done|by rewrite Ho; constructor|by rewrite Ho; constructor|by rewrite Ho; constructor|].
  exact Ht.
Qed.

(** The context is ready again once it has been reset. *)
Lemma reset_registered c : ok c → nb_globals c = NB_GLOBALS → registered NB_GLOBALS (reset c).
Proof.
  intros [Hwf _ _ _ Hg] Hnb.
  assert (zlen (temps (reset c)) = NB_GLOBALS) as Hlen.
  { pose proof (wf_globals_range _ Hwf) as Hr. rewrite Hnb in Hr. simpl. unfold zlen in *.
    rewrite length_fmap, length_take, Hnb. unfold NB_GLOBALS in *. lia. }
  split; [by apply wf_reset|done|done| |done|done].
  intros i Hi. destruct (Hg i Hi) as (t & Ht & Hty & Hc). exists (reset_temp t). split_and!.
  - simpl. rewrite zlookup_fmap. rewrite (proj2 (globals_lookup c i t Hwf)); [done|]. split; [done|lia].
  - rewrite <- Hty. unfold reset_temp. by case_match.
  - rewrite <- Hc. unfold reset_temp. by destruct t as [? ? ? [] ? ? ? ? ? ? ? ?].
Qed.

(** ** [gen_code] *)

Section gen_code.
Context `{CodeMemory, Decoder, HelperAddr}.
Hypothesis Hdec : decoder_ok.
Variables (cfg : RiscvCfg.t) (base : Z).

(** What the translator promises to the loop: room for [n] more instructions. *)
Definition riscv_inv (n : nat) (d : Dc.t) (c : Context) : Prop :=
  (∃ ts, good c ts (72 * n + 5)) ∧ self_ok d ∧ Dc.cfg d = cfg ∧ Dc.guest_base d = base.

Lemma one_insn_total n d c :
  riscv_inv (S n) d c →
  ∃ d1 c1 d2 c2,
    Frontend.insn_start d c = Some (d1, c1) ∧ Frontend.translate_insn d1 c1 = Some (d2, c2) ∧
    riscv_inv n d2 c2 ∧ advanced d d2.
Proof.
  intros ([ts Hg] & Hself & Hcfg & Hbase).
  destruct (wp_one_insn_static (λ _ _ w, (0, w)) cfg 0 base Hdec d c (72 * n + 5) ts
    (zero_state 0, Next)) as ([] & d2 & c2 & os & Hm & _ & _ & _ & Hg2 & Hadv);
    [eapply good_mono, Hg; lia|done..|].
  unfold one_insn, mbind, M_bind in Hm. destruct (insn_start (d, c)) as [[[] [d1 c1]]|] eqn:Hs; [|done].
  cbn [mbind option_bind] in Hm. exists d1, c1, d2, c2. cbn [Frontend.insn_start Frontend.translate_insn RiscvTranslator].
  unfold callback. rewrite Hs, Hm. split_and!; [done|done| |done].
  pose proof Hadv as (? & ? & ? & _). split_and!; [done|done|congruence|congruence].
Qed.

#[global] Instance riscv_laws : TranslatorLaws riscv_inv.
Proof.
  split.
  - intros n d c Hi. destruct (one_insn_total _ _ _ Hi) as (d1 & c1 & d2 & c2 & ? & ? & ? & Hadv).
    exists d1, c1, d2, c2. split_and!; [done..|apply Hadv|apply Hadv].
  - intros n d c j Hi. exact Hi.
  - intros d j. done.
Qed.
Lemma loop_stop_block n d c :
  ('(d, c) ← translate_loop n d c; Frontend.tb_stop d c) = snd <$> block_m n (d, c).
Proof.
  rewrite loop_m_spec. unfold block_m, mbind at 2, M_bind.
  by destruct (loop_m n (d, c)) as [[[] [d1 c1]]|].
Qed.

(** The disassembly context of a block. *)
Definition start_context (pc gb : Z) (cf : RiscvCfg.t) (max_insns : Z) : Dc.t :=
  let d := Dc.new pc gb cf in
  LinuxCpu.known_temps (Dc.set_base d (DisasContextBase.set_max_insns (Dc.base d) max_insns)).

(** Either way [gen_code] translates with the same temps. *)
Lemma gen_code_block lc c pc max_insns :
  registered 0 c ∨ registered NB_GLOBALS c →
  ∃ c1, registered NB_GLOBALS c1 ∧
    let d := start_context pc (RiscvCpu.guest_base (LinuxCpu.cpu lc)) (LinuxCpu.cfg lc) max_insns in
    LinuxCpu.gen_code lc c pc max_insns =
    '(d, ir) ← snd <$> block_m (loop_fuel d) (d, c1);
    Some (ir, u32 (DisasContextBase.num_insns (Dc.base d) * 4)).
Proof.
  intros [Hr|Hr]; unfold LinuxCpu.gen_code; rewrite (rg_nb _ _ Hr).
  - set (d0 := Dc.set_base _ _). destruct (init_registers d0 c Hr) as (c1 & Hi & Hr1).
    exists c1. split; [done|]. cbv zeta. change (0 =? 0) with true. cbv iota.
    unfold translator_loop. cbn [Frontend.init_disas_context RiscvTranslator].
    unfold callback at 1. rewrite Hi. cbn [fmap option_fmap option_map snd mbind option_bind].
    rewrite <- loop_stop_block. done.
  - exists c. split; [done|]. cbv zeta. rewrite <- loop_stop_block. done.
Qed.

Lemma start_context_budget pc gb cf max_insns :
  0 ≤ max_insns →
  let d := start_context pc gb cf max_insns in
  budget d = Z.max 1 max_insns ∧ loop_fuel d = Z.to_nat (Z.max 1 max_insns) ∧
  num_insns d = 0 ∧ Frontend.max_insns d = max_insns.
Proof.
  intros Hm. cbv zeta. unfold budget. change (num_insns _) with 0.
  change (Frontend.max_insns _) with max_insns. split_and!; [lia| |done|done].
  unfold loop_fuel. change (DisasContextBase.max_insns _) with max_insns.
  change (DisasContextBase.num_insns _) with 0. lia.
Qed.
Lemma tb_stop_total d c ts m :
  good c ts (5 + m) → self_ok d → ∃ c', Frontend.tb_stop d c = Some (d, c') ∧ ok c'.
Proof.
  intros Hg Hself.
  assert (wp (λ _ _ w, (0, w)) tb_stop d c (zero_state 0, Leave 0) (λ _ d' c' _, d' = d ∧ ok c'))
    as ([] & d' & c' & os & Hm & _ & _ & _ & -> & Hok).
  { unfold tb_stop. apply wp_bind. eapply wp_get_self; [done|]. pose proof (good_len _ _ _ Hg).
    assert (Dc.pc d = 33) as -> by apply Hself.
    destruct (DisasContextBase.is_jmp _); [skip_auto; split; [done|]..|];
      [match goal with Hg : good ?c _ _ |- ok ?c => exact (good_ok _ _ _ Hg) end..|].
    eapply wp_ret; [done|]. split; [done|]. exact (good_ok _ _ _ Hg). }
  exists c'. split; [|done]. cbn [Frontend.tb_stop RiscvTranslator]. unfold callback. by rewrite Hm.
Qed.
End gen_code.
