(* ===== verification/RiscvLabels.v ===== *)
(** * The front end's labels

    A label gets its uses during code emission, the first time a branch to it is emitted before its
    place is known; translation of guest code only makes labels. *)

From S2P Require Import Prelude Types Opcodes Ir Builder Tb Optimize Liveness PassLabels Frontend RiscvCpu.
From S2P Require Import RiscvGen RiscvTrans RiscvTb.

(** ** The methods of [Context] *)

Lemma fresh_const c ty v : fresh_labels c → fresh_labels (new_const c ty v).2.
Proof. unfold fresh_labels. by rewrite new_const_labels. Qed.

Lemma fresh_label c : fresh_labels c → fresh_labels (new_label c).2.
Proof. intros Hc. apply Forall_app. split; [done|]. by constructor. Qed.

Lemma fresh_call c dst h args : fresh_labels c → fresh_labels (gen_call c dst h args).2.
Proof.
  intros Hc. unfold gen_call. repeat lazymatch goal with
  | |- context [new_const ?k ?ty ?v] => let Hk := fresh in assert (fresh_labels (new_const k ty v).2) as Hk by (by apply fresh_const);
      revert Hk; destruct (new_const k ty v); cbn [snd]; intros Hk
  end; done.
Qed.

(** ** Translation *)

Definition fresh {A} (m : M A) : Prop := ∀ st a st', m st = Some (a, st') → fresh_labels st.2 → fresh_labels st'.2.

Lemma fresh_ret {A} (a : A) : fresh (mret a).
Proof. by intros st x st' [= _ <-]. Qed.

Lemma fresh_bind {A B} (m : M A) (f : A → M B) : fresh m → (∀ a, fresh (f a)) → fresh (m ≫= f).
Proof.
  intros Hm Hf st b st' Hb Hc. apply bind_Some in Hb as ([a st1] & Hs & Hb). eapply Hf; [exact Hb|]. by eapply Hm.
Qed.

Lemma fresh_ir f : (∀ c, fresh_labels c → fresh_labels (f c).2) → fresh (ir f).
Proof.
  intros Hf [d c] a st' Hm Hc. unfold ir in Hm. specialize (Hf c Hc). destruct (f c) as [r c'].
  by injection Hm as _ <-.
Qed.

Lemma fresh_ir_ f : (∀ c, fresh_labels c → fresh_labels (f c)) → fresh (ir_ f).
Proof. intros Hf [d c] a st' Hm Hc. injection Hm as _ <-. by apply Hf. Qed.

Lemma fresh_get_self : fresh get_self.
Proof. by intros st a st' [= _ <-]. Qed.

Lemma fresh_gpr_at i : fresh (gpr_at i).
Proof. intros st a st' Hm Hc. apply bind_Some in Hm as (t & _ & Hm). by injection Hm as _ <-. Qed.

Lemma fresh_set_is_jmp j : fresh (set_is_jmp j).
Proof. intros [d c] a st' Hm Hc. by injection Hm as _ <-. Qed.

Lemma fresh_modify f : fresh (RiscvTb.modify f).
Proof. intros [d c] a st' Hm Hc. by injection Hm as _ <-. Qed.

Lemma fresh_set_insn o n : fresh (RiscvTb.modify (λ d, Dc.set_insn d o n)).
Proof. apply fresh_modify. Qed.

Create HintDb fresh.
#[export] Hint Resolve fresh_ret fresh_get_self fresh_gpr_at fresh_set_is_jmp fresh_modify : fresh.

(** A method of [Context] that makes a constant or a label, or else leaves the labels alone. *)
Ltac builder := intros; first [apply fresh_const; assumption|apply fresh_call; assumption|apply fresh_label; assumption|assumption].

Ltac labels :=
  cbv zeta;
  first [solve [auto 1 with fresh nocore]|lazymatch goal with
  | |- fresh (@mbind _ _ _ _ _ _) => apply fresh_bind; [labels|intros; labels]
  | |- fresh (ir _) => apply fresh_ir; builder
  | |- fresh (ir_ _) => apply fresh_ir_; builder
  | |- fresh ((λ _, _) _) => cbv beta; labels
  | |- fresh (if ?c then _ else _) => destruct c; labels
  | |- fresh (match ?x with _ => _ end) => destruct x; labels
  | |- fresh ?m => let f := head_of m in unfold f; labels
  end].

Lemma fresh_gpr_or_zero i : fresh (gpr_or_zero i).
Proof. labels. Qed.
#[export] Hint Resolve fresh_gpr_or_zero : fresh.

Lemma fresh_set_gpr i v : fresh (gen_set_gpr i v).
Proof. labels. Qed.

Lemma fresh_set_gpr_sx32 i v : fresh (gen_set_gpr_sx32 i v).
Proof. labels. Qed.

Lemma fresh_fpr_load i : fresh (fpr_load i).
Proof. labels. Qed.

Lemma fresh_fpr_store i v : fresh (fpr_store i v).
Proof. labels. Qed.

Lemma fresh_fp_check : fresh gen_fp_check.
Proof. labels. Qed.

Lemma fresh_fs_dirty : fresh gen_set_fs_dirty.
Proof. labels. Qed.

Lemma fresh_helper_call h args : fresh (gen_helper_call h args).
Proof. labels. Qed.
#[export] Hint Resolve fresh_set_gpr fresh_set_gpr_sx32 fresh_fpr_load fresh_fpr_store fresh_fp_check fresh_fs_dirty
  fresh_helper_call : fresh.

Lemma fresh_csr_read i : fresh (gen_csr_read i).
Proof. labels. Qed.

Lemma fresh_csr_write i v : fresh (gen_csr_write i v).
Proof. labels. Qed.
#[export] Hint Resolve fresh_csr_read fresh_csr_write : fresh.

Section translator.
Context `{CodeMemory, Decoder, HelperAddr}.

Lemma fresh_trans i : fresh (Decode.trans i).
Proof. unfold Decode.trans. destruct i; labels. Qed.
#[local] Hint Resolve fresh_trans : fresh.

Lemma fresh_trans16 i : fresh (Decode16.trans i).
Proof. unfold Decode16.trans. destruct i; labels. Qed.
#[local] Hint Resolve fresh_trans16 : fresh.

Lemma fresh_translate_insn : fresh translate_insn.
Proof. labels. Qed.

Lemma fresh_insn_start : fresh insn_start.
Proof. labels. Qed.

Lemma fresh_tb_stop : fresh tb_stop.
Proof. labels. Qed.

Lemma new_fixed_labels c ty r name i c' : new_fixed c ty r name = Some (i, c') → labels c' = labels c.
Proof. unfold new_fixed. case_match; [|done]. by intros [= _ <-]. Qed.

Lemma new_global_labels c ty b o name i c' : new_global c ty b o name = Some (i, c') → labels c' = labels c.
Proof. unfold new_global. case_match; [|done]. by intros [= _ <-]. Qed.

Lemma fresh_ir_opt f : (∀ c i c', f c = Some (i, c') → labels c' = labels c) → fresh (ir_opt f).
Proof.
  intros Hf [d c] a st' Hm Hc. apply bind_Some in Hm as ([i c'] & Hi & Hm). injection Hm as _ <-.
  unfold fresh_labels. cbn [snd]. by rewrite (Hf _ _ _ Hi).
Qed.

Lemma fresh_globals (f : Z → M Z) l : (∀ i, fresh (f i)) → fresh (mapM f l).
Proof.
  intros Hf. induction l as [|i l IH]; [apply fresh_ret|].
  apply fresh_bind; [done|]. intros x. apply fresh_bind; [done|]. intros. apply fresh_ret.
Qed.

Lemma fresh_init : fresh init_disas_context.
Proof.
  unfold init_disas_context. apply fresh_bind; [apply fresh_ir_opt; intros ???; apply new_fixed_labels|intros e].
  apply fresh_bind; [apply fresh_globals; intros j; apply fresh_ir_opt; intros ???; apply new_global_labels|intros g].
  do 3 (apply fresh_bind; [apply fresh_ir_opt; intros ???; apply new_global_labels|intros ?]). apply fresh_modify.
Qed.

(** ** The callbacks and the loop *)

Definition fresh_callback (f : Callback Dc.t) : Prop :=
  ∀ d c d' c', f d c = Some (d', c') → fresh_labels c → fresh_labels c'.

Lemma callback_fresh m : fresh m → fresh_callback (callback m).
Proof.
  intros Hm d c d' c' Hf Hc. apply fmap_Some in Hf as ([a st] & Hs & Heq). cbn [snd] in Heq. subst st.
  exact (Hm _ _ _ Hs Hc).
Qed.

Lemma loop_fresh fuel : fresh_callback (translate_loop fuel).
Proof.
  induction fuel as [|fuel IH]; intros d c d' c' Hl Hc; [done|]. cbn [translate_loop] in Hl.
  apply bind_Some in Hl as ([d1 c1] & Hl1 & Hl). apply bind_Some in Hl as ([d2 c2] & Hl2 & Hl).
  pose proof (callback_fresh _ fresh_insn_start _ _ _ _ Hl1 Hc) as Hc1.
  pose proof (callback_fresh _ fresh_translate_insn _ _ _ _ Hl2 Hc1) as Hc2. cbv zeta in Hl.
  destruct (negb _); [by injection Hl as _ <-|]. destruct (_ <=? _); [by injection Hl as _ <-|].
  by eapply IH.
Qed.

Lemma gen_code_fresh c ir pc max_insns ir' size :
  LinuxCpu.gen_code c ir pc max_insns = Some (ir', size) → fresh_labels ir → fresh_labels ir'.
Proof.
  unfold LinuxCpu.gen_code. intros Hg Hf. apply bind_Some in Hg as ([d2 ir2] & Hg & Hr). injection Hr as <- _.
  pose proof (callback_fresh _ fresh_tb_stop) as Hstop.
  destruct (nb_globals ir =? 0).
  - apply bind_Some in Hg as ([d3 ir3] & Hi & Hg). apply bind_Some in Hg as ([d4 ir4] & Hs & Hg).
    apply bind_Some in Hg as ([d5 ir5] & Hl & Hg).
    eapply Hstop; [exact Hg|]. eapply loop_fresh; [exact Hl|].
    injection Hs as <- <-. exact (callback_fresh _ fresh_init _ _ _ _ Hi Hf).
  - cbv zeta in Hg. apply bind_Some in Hg as ([d4 ir4] & Hs & Hg). apply bind_Some in Hg as ([d5 ir5] & Hl & Hg).
    eapply Hstop; [exact Hg|]. eapply loop_fresh; [exact Hl|]. by injection Hs as <- <-.
Qed.
End translator.
