(* ===== verification/RiscvBlock.v ===== *)
(** * The RISC-V frontend is correct

    The theorems about the frontend: one instruction, one block, a block after the
    optimizer, termination; and what the translation of SC does where it departs from
    the reference.  The witnesses translate and run a block of two instructions. *)

From S2P Require Import Prelude Types Opcodes Ir Builder IrSem Tb Frontend RiscvCpu RiscvGen.
From S2P Require Import RiscvTrans RiscvSem RiscvWp RiscvRules RiscvInt RiscvFp RiscvSound RiscvTb Optimize OptimizeSound.

(** ** From a block to a run *)

Section block.
Context `{CodeMemory, Decoder, HelperAddr}.
Hypothesis Hdec : decoder_ok.
Variables (lc : LinuxCpu.t) (pc max_insns : Z).
Hypothesis Hmax : 0 ≤ max_insns ≤ 2 ^ 20.
Let cfg := LinuxCpu.cfg lc.
Let base := RiscvCpu.guest_base (LinuxCpu.cpu lc).
Let n := Z.to_nat (Z.max 1 max_insns).

Lemma block_total c :
  registered 0 c ∨ registered NB_GLOBALS c →
  ∃ ir size k, LinuxCpu.gen_code lc c pc max_insns = Some (ir, size) ∧ ok ir ∧
    size = 4 * k ∧ 1 ≤ k ≤ Z.max 1 max_insns.
Proof.
  intros Hr. destruct (gen_code_block lc c pc max_insns Hr) as (c1 & Hr1 & Hgen). cbv zeta in Hgen.
  set (d := start_context _ _ _ _) in *.
  destruct (start_context_budget pc _ _ max_insns ltac:(lia) : budget d = _ ∧ _)
    as (Hb & Hf & Hn & Hm).
  change (loop_fuel d = n) in Hf. change (num_insns d = 0) in Hn.
  change (Frontend.max_insns d = max_insns) in Hm.
  assert (riscv_inv cfg base n d c1) as Hinv.
  { split_and!; [|apply known_temps_ok|done|done]. eexists. apply registered_good; [done|]. unfold n. lia. }
  assert (∃ j, n = S j) as [j Hj] by (exists (n - 1)%nat; unfold n; lia).
  rewrite Hj in Hinv.
  assert (Frontend.max_insns d - num_insns d - 1 ≤ Z.of_nat j) as Hb'.
  { rewrite Hn, Hm. unfold n in Hj. lia. }
  destruct (translate_loop_total (riscv_inv cfg base) (laws := riscv_laws Hdec cfg base) j d c1 Hinv Hb')
    as (d' & ir' & m & Hl & ([ts Hg] & Hself & _) & _ & Hk & _).
  destruct (tb_stop_total d' ir' ts (72 * m)) as (ir & Hs & Hok);
    [eapply good_mono, Hg; lia|done|].
  rewrite <- loop_stop_block, Hf in Hgen. rewrite Hj, Hl in Hgen.
  cbn [mbind option_bind] in Hgen. rewrite Hs in Hgen. cbn [mbind option_bind] in Hgen.
  exists ir, (4 * num_insns d'), (num_insns d'). split; [|split; [done|lia]].
  rewrite Hgen. do 2 f_equal. change (DisasContextBase.num_insns (Dc.base d')) with (num_insns d').
  rewrite u32_small; lia.
Qed.

Lemma block_runs host envp c g e w :
  registered 0 c ∨ registered NB_GLOBALS c → repr envp g (e, w) → agrees_run host cfg envp base n pc g →
  let '(code, pc', g') := guest_block host cfg envp base n pc g in
  ∃ ir size e' w',
    LinuxCpu.gen_code lc c pc max_insns = Some (ir, size) ∧ ok ir ∧ repr envp g' (e', w') ∧
    e' 33 = pc' ∧
    ∀ fuel, (length (ops ir) < fuel)%nat →
      run (fe_ext host) fuel ir 0 (e, w) = Exited code (e', w').
Proof.
  intros Hr Hrepr Ha. destruct (gen_code_block lc c pc max_insns Hr) as (c1 & Hr1 & Hgen). cbv zeta in Hgen.
  set (d := start_context _ _ _ _) in *.
  destruct (start_context_budget pc _ _ max_insns ltac:(lia) : budget d = _ ∧ _)
    as (Hb & Hf & Hn & Hm).
  change (loop_fuel d = n) in Hf. change (num_insns d = 0) in Hn.
  change (Frontend.max_insns d = max_insns) in Hm.
  assert (∃ j, n = S j) as [j Hj] by (exists (n - 1)%nat; unfold n; lia).
  rewrite Hf in Hgen. rewrite Hj in Hgen, Ha |- *.
  change (budget d = Z.max 1 max_insns) in Hb.
  assert (good c1 (temps c1) (72 * S j + (5 + 0))) as Hg.
  { apply registered_good; [done|]. unfold n in Hj. lia. }
  destruct (wp_block host cfg envp base Hdec j g d c1 0 e w (temps c1) Hg)
    as ([] & d' & ir & os & Hm' & Ho & _ & Hok & [_ Hpost]);
    [apply known_temps_ok|done|done|done|done|rewrite Hb; unfold n in Hj; lia|exact Ha|].
  rewrite (rg_ops _ _ Hr1) in Ho. change (Dc.pc_next d) with pc in Hpost.
  destruct (guest_block _ _ _ _ _ _ _) as [[code pc'] g'].
  destruct Hpost as (Hl & Hr' & Hpc). destruct (exec_seq _ _ _ _) as [[e' w'] k] eqn:Hx.
  cbn [fst snd] in Hl, Hr', Hpc. subst k.
  eexists ir, _, e', w'. split; [by rewrite Hgen, Hm'|]. split; [done|]. split; [done|].
  split; [done|].
  intros fuel Hf'. apply (run_exec_seq _ _ [] os); [by rewrite Ho|by apply Hok| |done].
  by rewrite Ho in Hf'.
Qed.
End block.

(** ** A block to run: [add x5, x6, x7; ecall] at 0x1000 *)

Module Demo.
Definition code : CodeMemory := λ a,
  default 0 ([0xb3; 0x02; 0x73; 0x00; 0x73; 0; 0; 0] !! Z.to_nat (a - 0x1000)).

Definition decoder : Decoder := {|
  decode w :=
    if w =? 0x007302b3 then Some (Insn.add (ArgsR.mk 5 6 7))
    else if w =? 0x00000073 then Some (Insn.ecall ArgsEmpty.mk) else None;
  decode16 w := None
|}.

Definition helpers : HelperAddr := λ _, 0.
Definition host (_ : Z) (_ : list Z) (w : World.t) : Z * World.t := (0, w).

Definition cpu : LinuxCpu.t := LinuxCpu.mk RiscvCpu.new RiscvCfg.RV64IMAFDC.
Definition envp : Z := 0x8000.

Definition guest : Guest.t :=
  Guest.mk (λ i, if i =? 6 then 2 ^ 64 - 1 else if i =? 7 then 6 else 0) 0 0
    (World.mk (λ _, 0) (λ _, 0)).

Definition env (t : Z) : Z :=
  if t =? 0 then envp else if t <=? 32 then Guest.xreg guest (t - 1) else 0.

Lemma guest_repr : repr envp guest (env, Guest.world guest).
Proof.
  split; try done; intros i Hi; unfold env; simpl.
  - rewrite (proj2 (Z.eqb_neq _ _)), (proj2 (Z.leb_le _ _)) by lia.
    by replace (1 + i - 1) with i by lia.
  - repeat case_match; done.
Qed.

Lemma new_registered : registered 0 context_new.
Proof. split; try done; [apply context_new_wf|intros; lia]. Qed.

Lemma decoder_is_ok : @decoder_ok decoder.
Proof.
  split; [|done]. intros w i. simpl. destruct (w =? 0x7302b3); [intros [= <-]; by split_and!|].
  destruct (w =? 0x73); [by intros [= <-]|done].
Qed.

(** The contexts an instruction starts in. *)
Definition self : Dc.t := start_context 0x1000 0 RiscvCfg.RV64IMAFDC 3.
Definition ready : Context :=
  match init_disas_context (self, context_new) with Some (_, (_, c)) => c | None => context_new end.

Lemma ready_registered : registered NB_GLOBALS ready.
Proof.
  destruct (init_registers self context_new new_registered) as (c & Hi & Hr).
  unfold ready. by rewrite Hi.
Qed.

Lemma demo_starts : starts envp self ready 0 guest (env, Guest.world guest).
Proof.
  split; [|split; [apply known_temps_ok|exact guest_repr]].
  eexists. by apply registered_good; [apply ready_registered|].
Qed.

(** The reference on this code. *)
#[local] Existing Instances code decoder helpers.

Lemma first_step : step_at host RiscvCfg.RV64IMAFDC envp 0 0x1000 guest = Fall (set_x 5 5 guest).
Proof. reflexivity. Qed.

Lemma guest_agrees : agrees_run host RiscvCfg.RV64IMAFDC envp 0 3 0x1000 guest.
Proof.
  cbn [agrees_run]. rewrite first_step. split; [by intros i [= <-]|]. split; [by intros i [= <-]|].
  done.
Qed.

(** The block, its certificate and its environment. *)
Definition ir : Context :=
  match LinuxCpu.gen_code cpu context_new 0x1000 3 with Some (c, _) => c | None => context_new end.

Lemma gen_code_ir : LinuxCpu.gen_code cpu context_new 0x1000 3 = Some (ir, 8).
Proof.
  assert (snd <$> LinuxCpu.gen_code cpu context_new 0x1000 3 = Some 8) as Hs by (by vm_compute).
  unfold ir. destruct (LinuxCpu.gen_code cpu context_new 0x1000 3) as [[c size]|]; [|done].
  by injection Hs as ->.
Qed.

Lemma ir_disciplined : disciplined ir (replicate 8 ∅) = true.
Proof. by vm_compute. Qed.

Lemma ir_env_ok : env_ok (temps ir) env.
Proof.
  intros t Ht. assert (t ∈ seqZ 0 (zlen (temps ir))) as Hin by (apply elem_of_seqZ; exact Ht).
  clear Ht. revert t Hin. apply Forall_forall. apply (bool_decide_unpack _). by vm_compute.
Qed.
End Demo.

(** ** Theorems *)

(** C2. The translation of a basic block is correct.  From a context that is new or has
    been reset, [gen_code] returns IR that, run from any machine state standing for a
    guest state, leaves with the exit value, the guest pc and the guest state that the
    reference machine reaches after executing the same instructions one by one: until
    one of them leaves the block or traps, or [max_insns] are done.  It holds for all
    155 instructions, for any code, decoder and host functions, on runs where translation
    and reference agree ([agrees_run]): every SC that is executed finds the address it stores
    to reserved, every AMOMIN[U].W and AMOMAX[U].W finds rs2 sign-extended from 32 bits, and
    no shift amount reaches the width. *)
Theorem riscv_block_refines `{CodeMemory, Decoder, HelperAddr} host envp lc c pc max_insns g e w :
  decoder_ok → registered 0 c ∨ registered NB_GLOBALS c → 0 ≤ max_insns ≤ 2 ^ 20 →
  let n := Z.to_nat (Z.max 1 max_insns) in
  let base := RiscvCpu.guest_base (LinuxCpu.cpu lc) in
  repr envp g (e, w) → agrees_run host (LinuxCpu.cfg lc) envp base n pc g →
  let '(code, pc', g') := guest_block host (LinuxCpu.cfg lc) envp base n pc g in
  ∃ ir size e' w',
    LinuxCpu.gen_code lc c pc max_insns = Some (ir, size) ∧ repr envp g' (e', w') ∧ e' 33 = pc' ∧
    ∀ fuel, (length (ops ir) < fuel)%nat →
      run (fe_ext host) fuel ir 0 (e, w) = Exited code (e', w').
Proof.
  intros Hdec Hc Hm n base Hr Ha. pose proof (block_runs Hdec lc pc max_insns Hm host envp c g e w Hc Hr Ha) as Hb.
  cbv zeta in Hb. fold base n in Hb. destruct (guest_block _ _ _ _ _ _ _) as [[code pc'] g'].
  destruct Hb as (ir & size & e' & w' & ? & _ & ?). by exists ir, size, e', w'.
Qed.

Lemma riscv_block_refines_witness :
  @guest_block Demo.code Demo.decoder Demo.helpers Demo.host RiscvCfg.RV64IMAFDC Demo.envp 0 3 0x1000 Demo.guest =
    (EXCP_ECALL, 0x1004, set_x 5 5 Demo.guest) ∧
  ∃ ir size e' w',
    @LinuxCpu.gen_code Demo.code Demo.decoder Demo.helpers Demo.cpu context_new 0x1000 3 = Some (ir, size) ∧
    repr Demo.envp (set_x 5 5 Demo.guest) (e', w') ∧ e' 33 = 0x1004 ∧
    ∀ fuel, (length (ops ir) < fuel)%nat →
      run (fe_ext Demo.host) fuel ir 0 (Demo.env, Guest.world Demo.guest) = Exited EXCP_ECALL (e', w').
Proof.
  split; [reflexivity|].
  exact (@riscv_block_refines Demo.code Demo.decoder Demo.helpers Demo.host Demo.envp Demo.cpu
    context_new 0x1000 3 Demo.guest Demo.env _ Demo.decoder_is_ok (or_introl Demo.new_registered)
    ltac:(lia) Demo.guest_repr Demo.guest_agrees).
Defined.

(** C30. Translation followed by optimization is correct, for the blocks the optimizer is
    correct on: if the translated block has a certificate ([disciplined], which is
    decidable), the optimizer returns, and its result still leaves with the reference
    machine's exit value, pc and guest state, on the runs of [riscv_block_refines]
    ([agrees_run]): SC with its reservation, AMOMIN[U].W and AMOMAX[U].W on a sign-extended
    rs2, shift amounts below the width. *)
Theorem riscv_optimized_block_refines `{CodeMemory, Decoder, HelperAddr} host envp lc c pc max_insns g e w
    ir size Ts :
  decoder_ok → registered 0 c ∨ registered NB_GLOBALS c → 0 ≤ max_insns ≤ 2 ^ 20 →
  let n := Z.to_nat (Z.max 1 max_insns) in
  let base := RiscvCpu.guest_base (LinuxCpu.cpu lc) in
  repr envp g (e, w) → agrees_run host (LinuxCpu.cfg lc) envp base n pc g →
  LinuxCpu.gen_code lc c pc max_insns = Some (ir, size) →
  disciplined ir Ts = true → env_ok (temps ir) e →
  let '(code, pc', g') := guest_block host (LinuxCpu.cfg lc) envp base n pc g in
  ∃ ir' e' w', optimize ir = Some ir' ∧ repr envp g' (e', w') ∧ e' 33 = pc' ∧
    ∀ fuel, (length (ops ir) < fuel)%nat →
      run (fe_ext host) fuel ir' 0 (e, w) = Exited code (e', w').
Proof.
  intros Hdec Hc Hm n base Hr Ha Hgen Hdis He.
  pose proof (block_runs Hdec lc pc max_insns Hm host envp c g e w Hc Hr Ha) as Hb.
  cbv zeta in Hb. fold base n in Hb. destruct (guest_block _ _ _ _ _ _ _) as [[code pc'] g'].
  destruct Hb as (ir0 & size0 & e' & w' & Hgen0 & Hok & Hr' & Hpc & Hrun).
  rewrite Hgen in Hgen0. injection Hgen0 as <- <-.
  destruct (optimize_lockstep ir Ts (ok_wf _ Hok) Hdis) as (ir' & Ho & Hsame).
  exists ir', e', w'. split_and!; [done..|]. intros fuel Hf. rewrite Hsame by done. by apply Hrun.
Qed.

Lemma riscv_optimized_block_refines_witness :
  ∃ ir' e' w', optimize Demo.ir = Some ir' ∧
    repr Demo.envp (set_x 5 5 Demo.guest) (e', w') ∧ e' 33 = 0x1004 ∧
    ∀ fuel, (length (ops Demo.ir) < fuel)%nat →
      run (fe_ext Demo.host) fuel ir' 0 (Demo.env, Guest.world Demo.guest) = Exited EXCP_ECALL (e', w').
Proof.
  exact (@riscv_optimized_block_refines Demo.code Demo.decoder Demo.helpers Demo.host Demo.envp
    Demo.cpu context_new 0x1000 3 Demo.guest Demo.env (Guest.world Demo.guest) Demo.ir 8
    (replicate 8 ∅) Demo.decoder_is_ok (or_introl Demo.new_registered) ltac:(lia) Demo.guest_repr
    Demo.guest_agrees Demo.gen_code_ir Demo.ir_disciplined Demo.ir_env_ok).
Defined.

(** C21. Translation terminates: from a context that is new or has been reset, for any
    code at all, [gen_code] returns without panicking; the IR is well formed, its
    labels are set at most once, and the reported guest size is four times a number of
    instructions between one and the limit. *)
Theorem riscv_gen_code_total `{CodeMemory, Decoder, HelperAddr} lc c pc max_insns :
  decoder_ok → registered 0 c ∨ registered NB_GLOBALS c → 0 ≤ max_insns ≤ 2 ^ 20 →
  ∃ ir size k,
    LinuxCpu.gen_code lc c pc max_insns = Some (ir, size) ∧ ok ir ∧
    size = 4 * k ∧ 1 ≤ k ≤ Z.max 1 max_insns.
Proof. intros Hdec Hc Hm. by apply block_total. Qed.

Lemma riscv_gen_code_total_witness :
  ∃ ir size k,
    @LinuxCpu.gen_code Demo.code Demo.decoder Demo.helpers Demo.cpu Demo.ready 0x1000 3 = Some (ir, size) ∧
    ok ir ∧ size = 4 * k ∧ 1 ≤ k ≤ 3.
Proof.
  exact (@riscv_gen_code_total Demo.code Demo.decoder Demo.helpers Demo.cpu Demo.ready 0x1000 3
    Demo.decoder_is_ok (or_intror Demo.ready_registered) ltac:(lia)).
Defined.

(** C16. Each instruction is translated correctly: from a state that stands for a guest
    state, its translation function returns, only appends ops, and running those ends
    the way the reference semantics of the instruction says: it falls through to the
    next with the guest state updated, leaves the block with the right exit value, pc
    and state, or is rejected with the guest state unchanged.  It is so where translation
    and reference agree ([agrees]): for SC if the address it stores to is reserved, for
    AMOMIN[U].W and AMOMAX[U].W if rs2 is sign-extended from 32 bits, for shifts if the
    amount is below the width; for the other instructions always. *)
Theorem riscv_insn_refines `{HelperAddr} host envp i d c m e w g :
  starts envp d c m g (e, w) → args_ok i → agrees i g →
  ∃ b d' c' os,
    Decode.trans i (d, c) = Some (b, (d', c')) ∧ ops c' = ops c ++ os ∧ ok c' ∧
    ends envp d m g (rv_step host (Dc.cfg d) envp (Dc.pc_next d) (Dc.cur_insn_len d) i g) b d' c'
      (exec_seq (fe_ext host) (temps c') os ((e, w), Next)).
Proof.
  intros Hst Hok Hag.
  destruct (trans_sound host envp i d c m e w g Hst Hok Hag) as (b & d' & c' & os & ? & ? & _ & ? & ?).
  by exists b, d', c', os.
Qed.

Lemma riscv_insn_refines_witness :
  ∃ b d' c' os,
    @Decode.trans Demo.helpers (Insn.mulh (ArgsR.mk 5 6 7)) (Demo.self, Demo.ready) = Some (b, (d', c')) ∧
    ops c' = ops Demo.ready ++ os ∧ ok c' ∧
    ends Demo.envp Demo.self 0 Demo.guest (Fall (set_x 5 (2 ^ 64 - 1) Demo.guest)) b d' c'
      (exec_seq (fe_ext Demo.host) (temps c') os ((Demo.env, Guest.world Demo.guest), Next)).
Proof.
  exact (@riscv_insn_refines Demo.helpers Demo.host Demo.envp (Insn.mulh (ArgsR.mk 5 6 7)) Demo.self
    Demo.ready 0 Demo.env _ Demo.guest Demo.demo_starts ltac:(by split_and!) I).
Defined.

(** C35. Store-conditional never fails: whatever the reservation, the translated SC
    stores its operand, reports success (0) in [rd] and clears the reservation. *)
Theorem sc_ignores_reservation host envp mo a d c m e w g :
  starts envp d c m g (e, w) → args_atomic a →
  ∃ d' c' os,
    gen_sc a mo (d, c) = Some (true, (d', c')) ∧ ops c' = ops c ++ os ∧
    repr envp (sc_unchecked (MemOp.size_bytes mo) a g)
      (exec_seq (fe_ext host) (temps c') os ((e, w), Next)).1.
Proof.
  intros Hst Ha.
  destruct (sound_gen_sc_unchecked host envp mo a d c m e w g Hst Ha)
    as (b & d' & c' & os & ? & ? & _ & _ & -> & _ & _ & _ & ?).
  by exists d', c', os.
Qed.

(** Here no reservation is held at the address of x6, and the store is done all the same. *)
Lemma sc_ignores_reservation_witness :
  Guest.load_res Demo.guest ≠ x Demo.guest 6 ∧
  ∃ d' c' os,
    gen_sc (ArgsAtomic.mk 0 0 7 6 5) MemOp.ul (Demo.self, Demo.ready) = Some (true, (d', c')) ∧
    ops c' = ops Demo.ready ++ os ∧
    repr Demo.envp (sc_unchecked 4 (ArgsAtomic.mk 0 0 7 6 5) Demo.guest)
      (exec_seq (fe_ext Demo.host) (temps c') os ((Demo.env, Guest.world Demo.guest), Next)).1.
Proof.
  split; [discriminate|].
  exact (sc_ignores_reservation Demo.host Demo.envp MemOp.ul (ArgsAtomic.mk 0 0 7 6 5)
    Demo.self Demo.ready 0 Demo.env _ Demo.guest Demo.demo_starts ltac:(by split_and!)).
Defined.
