(* ===== verification/Fpu.v ===== *)
(** * The floating-point helpers (frontend/src/riscv/fpu.rs)

    The functions that translated floating-point instructions call: each works on the guest's CPU struct
    and on the host's floating-point environment.  A value of type [f32] or [f64] is its bits.

    What the host computes is a parameter ([HostFloat]): the functions of fenv.h and libm, and Rust's
    arithmetic and rounding conversions, which the helpers run under the guest's rounding mode and whose
    exceptions they collect.  Comparisons, sign changes, the tests of std and conversions that do not
    round are defined here. *)

From S2P Require Import Prelude RiscvCpu RiscvGen RiscvTrans.

(** ** The host *)

(** [E] is the floating-point environment: rounding mode and raised exceptions. *)
Class HostFloat (E : Type) := {
  fegetround : E → Z;
  fesetround : Z → E → E;
  fetestexcept : Z → E → Z;
  feclearexcept : Z → E → E;
  feraiseexcept : Z → E → E;
  f32_add : Z → Z → E → Z * E;
  f32_sub : Z → Z → E → Z * E;
  f32_mul : Z → Z → E → Z * E;
  f32_div : Z → Z → E → Z * E;
  sqrtf : Z → E → Z * E;
  fmaf : Z → Z → Z → E → Z * E;
  f64_add : Z → Z → E → Z * E;
  f64_sub : Z → Z → E → Z * E;
  f64_mul : Z → Z → E → Z * E;
  f64_div : Z → Z → E → Z * E;
  sqrt : Z → E → Z * E;
  fma : Z → Z → Z → E → Z * E;
  rint : Z → E → Z * E;
  (** [n as f32] and [n as f64] of an integer, [x as f32] of an [f64] *)
  f32_of_int : Z → E → Z * E;
  f64_of_int : Z → E → Z * E;
  f32_of_f64 : Z → E → Z * E;
  (** [x as f64] of an [f32] that is not a number *)
  widen_nan : Z → E → Z * E
}.

Definition FE_INVALID : Z := 0x01.
Definition FE_DIVBYZERO : Z := 0x04.
Definition FE_OVERFLOW : Z := 0x08.
Definition FE_UNDERFLOW : Z := 0x10.
Definition FE_INEXACT : Z := 0x20.
Definition FE_ALL_EXCEPT : Z := 0x3f.

Definition FE_TONEAREST : Z := 0x0000.
Definition FE_DOWNWARD : Z := 0x0400.
Definition FE_UPWARD : Z := 0x0800.
Definition FE_TOWARDZERO : Z := 0x0c00.

Definition FFLAGS_NV : Z := Z.shiftl 1 4.
Definition FFLAGS_DZ : Z := Z.shiftl 1 3.
Definition FFLAGS_OF : Z := Z.shiftl 1 2.
Definition FFLAGS_UF : Z := Z.shiftl 1 1.
Definition FFLAGS_NX : Z := Z.shiftl 1 0.
Definition FRM_DYN : Z := 0x7.
Definition FCSR_RD_SHIFT : Z := 5.

(** ** Bits of floats *)

Definition canonical_nan_f32 : Z := 0x7fc00000.
Definition canonical_nan_f64 : Z := 0x7ff8000000000000.

(** [!x] of 64 and of 32 bits *)
Definition not64 (x : Z) : Z := 2 ^ 64 - 1 - x.
Definition not32 (x : Z) : Z := 2 ^ 32 - 1 - x.

Definition nanbox_f32 (bits : Z) : Z := Z.lor 0xffffffff00000000 bits.

Definition is_nan_f32 (bits : Z) : bool :=
  let exp := Z.land (Z.shiftr bits 23) 0xff in
  let frac := Z.land bits 0x7fffff in
  (exp =? 0xff) && negb (frac =? 0).

Definition is_nan_f64 (bits : Z) : bool :=
  let exp := Z.land (Z.shiftr bits 52) 0x7ff in
  let frac := Z.land bits 0x000fffffffffffff in
  (exp =? 0x7ff) && negb (frac =? 0).

Definition is_snan_f32 (bits : Z) : bool := is_nan_f32 bits && (Z.land bits (Z.shiftl 1 22) =? 0).
Definition is_snan_f64 (bits : Z) : bool := is_nan_f64 bits && (Z.land bits (Z.shiftl 1 51) =? 0).

(** [-x] *)
Definition f32_neg (x : Z) : Z := Z.lxor x 0x80000000.
Definition f64_neg (x : Z) : Z := Z.lxor x 0x8000000000000000.

(** The order of floats that are numbers: sign and magnitude; the zeros are equal. *)
Definition f32_key (x : Z) : Z :=
  let mag := Z.land x 0x7fffffff in if Z.testbit x 31 then - mag else mag.
Definition f64_key (x : Z) : Z :=
  let mag := Z.land x 0x7fffffffffffffff in if Z.testbit x 63 then - mag else mag.

(** [==], [<] and [<=] *)
Definition f32_eq (x y : Z) : bool := negb (is_nan_f32 x) && negb (is_nan_f32 y) && (f32_key x =? f32_key y).
Definition f32_lt (x y : Z) : bool := negb (is_nan_f32 x) && negb (is_nan_f32 y) && (f32_key x <? f32_key y).
Definition f32_le (x y : Z) : bool := negb (is_nan_f32 x) && negb (is_nan_f32 y) && (f32_key x <=? f32_key y).
Definition f64_eq (x y : Z) : bool := negb (is_nan_f64 x) && negb (is_nan_f64 y) && (f64_key x =? f64_key y).
Definition f64_lt (x y : Z) : bool := negb (is_nan_f64 x) && negb (is_nan_f64 y) && (f64_key x <? f64_key y).
Definition f64_le (x y : Z) : bool := negb (is_nan_f64 x) && negb (is_nan_f64 y) && (f64_key x <=? f64_key y).

(** [is_infinite], [is_finite] and [is_sign_negative] *)
Definition f64_is_infinite (x : Z) : bool :=
  (Z.land (Z.shiftr x 52) 0x7ff =? 0x7ff) && (Z.land x 0x000fffffffffffff =? 0).
Definition f64_is_finite (x : Z) : bool := negb (Z.land (Z.shiftr x 52) 0x7ff =? 0x7ff).
Definition f64_is_sign_negative (x : Z) : bool := Z.testbit x 63.

(** A finite [f64] is [significand * 2 ^ exponent], with its sign. *)
Definition f64_significand (x : Z) : Z :=
  let frac := Z.land x 0x000fffffffffffff in
  if Z.land (Z.shiftr x 52) 0x7ff =? 0 then frac else 2 ^ 52 + frac.
Definition f64_exponent (x : Z) : Z := Z.max 1 (Z.land (Z.shiftr x 52) 0x7ff) - 1075.

(** Its integer part. *)
Definition f64_trunc (x : Z) : Z :=
  let m := f64_significand x in
  let e := f64_exponent x in
  let n := if 0 <=? e then m * 2 ^ e else m / 2 ^ (- e) in
  if f64_is_sign_negative x then - n else n.

(** [x as T], for the integer type from [lo] to [hi]: it saturates. *)
Definition f64_to_int (lo hi x : Z) : Z :=
  if is_nan_f64 x then 0
  else if f64_is_infinite x then if f64_is_sign_negative x then lo else hi
  else Z.max lo (Z.min hi (f64_trunc x)).

(** [x as f64] of an [f32] that is a number: exact. *)
Definition widen (x : Z) : Z :=
  let sign := Z.shiftl (Z.shiftr x 31) 63 in
  let exp := Z.land (Z.shiftr x 23) 0xff in
  let frac := Z.land x 0x7fffff in
  let mag :=
    if exp =? 0xff then Z.shiftl 0x7ff 52
    else if negb (exp =? 0) then Z.lor (Z.shiftl (exp + 896) 52) (Z.shiftl frac 29)
    else if frac =? 0 then 0
    else let k := Z.log2 frac in
         Z.lor (Z.shiftl (k + 874) 52) (Z.shiftl (frac - 2 ^ k) (52 - k)) in
  Z.lor sign mag.

Section helpers.
Context {E : Type} `{HostFloat E}.

(** ** State: the CPU struct and the host's environment *)

Definition St : Type := RiscvCpu.t * E.
Definition F (A : Type) : Type := St → A * St.

#[local] Instance F_ret : MRet F := λ A a s, (a, s).
#[local] Instance F_bind : MBind F := λ A B f m s, let '(a, s) := m s in f a s.

(** A computation of the host. *)
Definition host {A} (f : E → A * E) : F A := λ '(c, e), let '(a, e) := f e in (a, (c, e)).
Definition host_ (f : E → E) : F unit := λ '(c, e), (tt, (c, f e)).
Definition get_cpu : F RiscvCpu.t := λ s, (s.1, s).
Definition set_cpu (f : RiscvCpu.t → RiscvCpu.t) : F unit := λ '(c, e), (tt, (f c, e)).

Definition with_fcsr (fl fr : Z) (c : RiscvCpu.t) : RiscvCpu.t :=
  RiscvCpu.mk (RiscvCpu.gpr c) (RiscvCpu.fpr c) (RiscvCpu.pc c) (RiscvCpu.guest_base c) (RiscvCpu.load_res c)
    (RiscvCpu.load_val c) fl fr (RiscvCpu.ustatus c) (RiscvCpu.uie c) (RiscvCpu.utvec c) (RiscvCpu.uscratch c)
    (RiscvCpu.uepc c) (RiscvCpu.ucause c) (RiscvCpu.utval c) (RiscvCpu.uip c).

(** ** Flags and rounding modes *)

Definition map_fenv_flags (flags : Z) : Z :=
  let out := 0 in
  let out := if negb (Z.land flags FE_INEXACT =? 0) then Z.lor out FFLAGS_NX else out in
  let out := if negb (Z.land flags FE_UNDERFLOW =? 0) then Z.lor out FFLAGS_UF else out in
  let out := if negb (Z.land flags FE_OVERFLOW =? 0) then Z.lor out FFLAGS_OF else out in
  let out := if negb (Z.land flags FE_DIVBYZERO =? 0) then Z.lor out FFLAGS_DZ else out in
  if negb (Z.land flags FE_INVALID =? 0) then Z.lor out FFLAGS_NV else out.

Definition update_fflags (flags : Z) : F unit :=
  set_cpu (λ c, with_fcsr (Z.land (Z.lor (RiscvCpu.fflags c) flags) FFLAGS_MASK) (RiscvCpu.frm c) c).

Definition set_invalid : F unit := update_fflags FFLAGS_NV.

Definition map_rm (rm : Z) : F Z :=
  let rm := Z.land rm FRM_MASK in
  c ← get_cpu;
  let rm := if rm =? FRM_DYN then Z.land (RiscvCpu.frm c) FRM_MASK else rm in
  if rm =? 0 then mret FE_TONEAREST
  else if rm =? 1 then mret FE_TOWARDZERO
  else if rm =? 2 then mret FE_DOWNWARD
  else if rm =? 3 then mret FE_UPWARD
  else if rm =? 4 then mret FE_TONEAREST
  else _ ← set_invalid; mret FE_TONEAREST.

(** [fesetround] evaluates [map_rm] first. *)
Definition with_fenv_flags {A} (rm : Z) (f : E → A * E) : F (A * Z) :=
  old_rm ← host (λ e, (fegetround e, e));
  old_exc ← host (λ e, (fetestexcept FE_ALL_EXCEPT e, e));
  _ ← host_ (feclearexcept FE_ALL_EXCEPT);
  mode ← map_rm rm;
  _ ← host_ (fesetround mode);
  res ← host f;
  raised ← host (λ e, (fetestexcept FE_ALL_EXCEPT e, e));
  _ ← host_ (fesetround old_rm);
  _ ← host_ (feclearexcept FE_ALL_EXCEPT);
  _ ← host_ (feraiseexcept old_exc);
  mret (res, raised).

Definition with_fenv {A} (rm : Z) (f : E → A * E) : F A :=
  '(res, flags) ← with_fenv_flags rm f;
  _ ← update_fflags (map_fenv_flags flags);
  mret res.

(** ** Operands *)

(** A single that is not boxed is the canonical NaN. *)
Definition read_f32_bits (raw : Z) : Z :=
  if negb (u32 (Z.shiftr raw 32) =? 0xffffffff) then canonical_nan_f32 else u32 raw.

(** [x as f64] *)
Definition f64_of_f32 (x : Z) : F Z := if is_nan_f32 x then host (widen_nan x) else mret (widen x).

Definition fmin_f32 (a b : Z) : F Z :=
  let a_nan := is_nan_f32 a in
  let b_nan := is_nan_f32 b in
  _ ← (if is_snan_f32 a || is_snan_f32 b then set_invalid else mret tt);
  if a_nan || b_nan then
    if a_nan && b_nan then mret canonical_nan_f32 else mret (if a_nan then b else a)
  else if f32_eq a b then if f32_eq a 0 then mret (Z.lor a b) else mret a
  else if f32_lt a b then mret a else mret b.

Definition fmax_f32 (a b : Z) : F Z :=
  let a_nan := is_nan_f32 a in
  let b_nan := is_nan_f32 b in
  _ ← (if is_snan_f32 a || is_snan_f32 b then set_invalid else mret tt);
  if a_nan || b_nan then
    if a_nan && b_nan then mret canonical_nan_f32 else mret (if a_nan then b else a)
  else if f32_eq a b then if f32_eq a 0 then mret (Z.land a b) else mret a
  else if f32_lt b a then mret a else mret b.

Definition fmin_f64 (a b : Z) : F Z :=
  let a_nan := is_nan_f64 a in
  let b_nan := is_nan_f64 b in
  _ ← (if is_snan_f64 a || is_snan_f64 b then set_invalid else mret tt);
  if a_nan || b_nan then
    if a_nan && b_nan then mret canonical_nan_f64 else mret (if a_nan then b else a)
  else if f64_eq a b then if f64_eq a 0 then mret (Z.lor a b) else mret a
  else if f64_lt a b then mret a else mret b.

Definition fmax_f64 (a b : Z) : F Z :=
  let a_nan := is_nan_f64 a in
  let b_nan := is_nan_f64 b in
  _ ← (if is_snan_f64 a || is_snan_f64 b then set_invalid else mret tt);
  if a_nan || b_nan then
    if a_nan && b_nan then mret canonical_nan_f64 else mret (if a_nan then b else a)
  else if f64_eq a b then if f64_eq a 0 then mret (Z.land a b) else mret a
  else if f64_lt b a then mret a else mret b.

Definition fclass_f32 (bits : Z) : Z :=
  let sign := negb (Z.shiftr bits 31 =? 0) in
  let exp := Z.land (Z.shiftr bits 23) 0xff in
  let frac := Z.land bits 0x7fffff in
  let is_inf := (exp =? 0xff) && (frac =? 0) in
  let is_nan := (exp =? 0xff) && negb (frac =? 0) in
  let is_zero := (exp =? 0) && (frac =? 0) in
  let is_sub := (exp =? 0) && negb (frac =? 0) in
  let is_norm := negb (exp =? 0) && negb (exp =? 0xff) in
  let is_snan := is_nan && (Z.land frac (Z.shiftl 1 22) =? 0) in
  let is_qnan := is_nan && negb is_snan in
  if is_inf && sign then Z.shiftl 1 0
  else if is_norm && sign then Z.shiftl 1 1
  else if is_sub && sign then Z.shiftl 1 2
  else if is_zero && sign then Z.shiftl 1 3
  else if is_zero && negb sign then Z.shiftl 1 4
  else if is_sub && negb sign then Z.shiftl 1 5
  else if is_norm && negb sign then Z.shiftl 1 6
  else if is_inf && negb sign then Z.shiftl 1 7
  else if is_snan then Z.shiftl 1 8
  else if is_qnan then Z.shiftl 1 9
  else 0.

Definition fclass_f64 (bits : Z) : Z :=
  let sign := negb (Z.shiftr bits 63 =? 0) in
  let exp := Z.land (Z.shiftr bits 52) 0x7ff in
  let frac := Z.land bits 0x000fffffffffffff in
  let is_inf := (exp =? 0x7ff) && (frac =? 0) in
  let is_nan := (exp =? 0x7ff) && negb (frac =? 0) in
  let is_zero := (exp =? 0) && (frac =? 0) in
  let is_sub := (exp =? 0) && negb (frac =? 0) in
  let is_norm := negb (exp =? 0) && negb (exp =? 0x7ff) in
  let is_snan := is_nan && (Z.land frac (Z.shiftl 1 51) =? 0) in
  let is_qnan := is_nan && negb is_snan in
  if is_inf && sign then Z.shiftl 1 0
  else if is_norm && sign then Z.shiftl 1 1
  else if is_sub && sign then Z.shiftl 1 2
  else if is_zero && sign then Z.shiftl 1 3
  else if is_zero && negb sign then Z.shiftl 1 4
  else if is_sub && negb sign then Z.shiftl 1 5
  else if is_norm && negb sign then Z.shiftl 1 6
  else if is_inf && negb sign then Z.shiftl 1 7
  else if is_snan then Z.shiftl 1 8
  else if is_qnan then Z.shiftl 1 9
  else 0.

(** ** Single precision *)

Definition helper_fadd_s (a b rm : Z) : F Z :=
  let af := read_f32_bits a in
  let bf := read_f32_bits b in
  res ← with_fenv rm (f32_add af bf);
  mret (nanbox_f32 res).

Definition helper_fsub_s (a b rm : Z) : F Z :=
  let af := read_f32_bits a in
  let bf := read_f32_bits b in
  res ← with_fenv rm (f32_sub af bf);
  mret (nanbox_f32 res).

Definition helper_fmul_s (a b rm : Z) : F Z :=
  let af := read_f32_bits a in
  let bf := read_f32_bits b in
  res ← with_fenv rm (f32_mul af bf);
  mret (nanbox_f32 res).

Definition helper_fdiv_s (a b rm : Z) : F Z :=
  let af := read_f32_bits a in
  let bf := read_f32_bits b in
  res ← with_fenv rm (f32_div af bf);
  mret (nanbox_f32 res).

Definition helper_fsqrt_s (a rm : Z) : F Z :=
  let af := read_f32_bits a in
  res ← with_fenv rm (sqrtf af);
  mret (nanbox_f32 res).

Definition helper_fmadd_s (a b c rm : Z) : F Z :=
  let af := read_f32_bits a in
  let bf := read_f32_bits b in
  let cf := read_f32_bits c in
  res ← with_fenv rm (fmaf af bf cf);
  mret (nanbox_f32 res).

Definition helper_fmsub_s (a b c rm : Z) : F Z :=
  let af := read_f32_bits a in
  let bf := read_f32_bits b in
  let cf := read_f32_bits c in
  res ← with_fenv rm (fmaf af bf (f32_neg cf));
  mret (nanbox_f32 res).

Definition helper_fnmsub_s (a b c rm : Z) : F Z :=
  let af := read_f32_bits a in
  let bf := read_f32_bits b in
  let cf := read_f32_bits c in
  res ← with_fenv rm (fmaf (f32_neg af) bf cf);
  mret (nanbox_f32 res).

Definition helper_fnmadd_s (a b c rm : Z) : F Z :=
  let af := read_f32_bits a in
  let bf := read_f32_bits b in
  let cf := read_f32_bits c in
  res ← with_fenv rm (fmaf (f32_neg af) bf (f32_neg cf));
  mret (nanbox_f32 res).

Definition helper_fsgnj_s (a b : Z) : F Z :=
  let ab := read_f32_bits a in
  let bb := read_f32_bits b in
  let sign := Z.land bb 0x80000000 in
  let res := Z.lor (Z.land ab 0x7fffffff) sign in
  mret (nanbox_f32 res).

Definition helper_fsgnjn_s (a b : Z) : F Z :=
  let ab := read_f32_bits a in
  let bb := read_f32_bits b in
  let sign := Z.land (not32 bb) 0x80000000 in
  let res := Z.lor (Z.land ab 0x7fffffff) sign in
  mret (nanbox_f32 res).

Definition helper_fsgnjx_s (a b : Z) : F Z :=
  let ab := read_f32_bits a in
  let bb := read_f32_bits b in
  let sign := Z.land (Z.lxor ab bb) 0x80000000 in
  let res := Z.lor (Z.land ab 0x7fffffff) sign in
  mret (nanbox_f32 res).

Definition helper_fmin_s (a b : Z) : F Z :=
  let ab := read_f32_bits a in
  let bb := read_f32_bits b in
  res ← fmin_f32 ab bb;
  mret (nanbox_f32 res).

Definition helper_fmax_s (a b : Z) : F Z :=
  let ab := read_f32_bits a in
  let bb := read_f32_bits b in
  res ← fmax_f32 ab bb;
  mret (nanbox_f32 res).

Definition helper_feq_s (a b : Z) : F Z :=
  let ab := read_f32_bits a in
  let bb := read_f32_bits b in
  _ ← (if is_snan_f32 ab || is_snan_f32 bb then set_invalid else mret tt);
  if is_nan_f32 ab || is_nan_f32 bb then mret 0 else mret (Z.b2z (f32_eq ab bb)).

Definition helper_flt_s (a b : Z) : F Z :=
  let ab := read_f32_bits a in
  let bb := read_f32_bits b in
  if is_nan_f32 ab || is_nan_f32 bb then _ ← set_invalid; mret 0 else mret (Z.b2z (f32_lt ab bb)).

Definition helper_fle_s (a b : Z) : F Z :=
  let ab := read_f32_bits a in
  let bb := read_f32_bits b in
  if is_nan_f32 ab || is_nan_f32 bb then _ ← set_invalid; mret 0 else mret (Z.b2z (f32_le ab bb)).

Definition helper_fclass_s (a : Z) : F Z :=
  let ab := read_f32_bits a in
  mret (fclass_f32 ab).

(** ** To integers *)

Definition I32_MIN_F64 : Z := 0xC1E0000000000000.
Definition I32_MAX_PLUS1_F64 : Z := 0x41E0000000000000.
Definition I64_MIN_F64 : Z := 0xC3E0000000000000.
Definition I64_MAX_PLUS1_F64 : Z := 0x43E0000000000000.
Definition U32_MAX_PLUS1_F64 : Z := 0x41F0000000000000.
Definition U64_MAX_PLUS1_F64 : Z := 0x43F0000000000000.

(** [(lo..hi).contains(&x)] *)
Definition f64_contains (lo hi x : Z) : bool := f64_le lo x && f64_lt x hi.

Definition fcvt_i32 (val rm : Z) : F Z :=
  if is_nan_f64 val then _ ← set_invalid; mret (2 ^ 31 - 1)
  else if f64_is_infinite val then
    _ ← set_invalid;
    mret (if f64_is_sign_negative val then u64 (- 2 ^ 31) else 2 ^ 31 - 1)
  else
    '(rounded, flags) ← with_fenv_flags rm (rint val);
    if negb (Z.land flags FE_INVALID =? 0) || negb (f64_is_finite rounded)
       || negb (f64_contains I32_MIN_F64 I32_MAX_PLUS1_F64 rounded) then
      _ ← set_invalid;
      mret (if f64_is_sign_negative val then u64 (- 2 ^ 31) else 2 ^ 31 - 1)
    else
      _ ← update_fflags (map_fenv_flags flags);
      mret (u64 (f64_to_int (- 2 ^ 31) (2 ^ 31 - 1) rounded)).

Definition fcvt_i64 (val rm : Z) : F Z :=
  if is_nan_f64 val then _ ← set_invalid; mret (2 ^ 63 - 1)
  else if f64_is_infinite val then
    _ ← set_invalid;
    mret (if f64_is_sign_negative val then u64 (- 2 ^ 63) else 2 ^ 63 - 1)
  else
    '(rounded, flags) ← with_fenv_flags rm (rint val);
    if negb (Z.land flags FE_INVALID =? 0) || negb (f64_is_finite rounded)
       || negb (f64_contains I64_MIN_F64 I64_MAX_PLUS1_F64 rounded) then
      _ ← set_invalid;
      mret (if f64_is_sign_negative val then u64 (- 2 ^ 63) else 2 ^ 63 - 1)
    else
      _ ← update_fflags (map_fenv_flags flags);
      mret (u64 (f64_to_int (- 2 ^ 63) (2 ^ 63 - 1) rounded)).

Definition fcvt_u32 (val rm : Z) : F Z :=
  if is_nan_f64 val then _ ← set_invalid; mret (2 ^ 32 - 1)
  else if f64_is_infinite val then
    _ ← set_invalid;
    mret (if f64_is_sign_negative val then 0 else 2 ^ 32 - 1)
  else if f64_lt val 0 then _ ← set_invalid; mret 0
  else
    '(rounded, flags) ← with_fenv_flags rm (rint val);
    if negb (Z.land flags FE_INVALID =? 0) || negb (f64_is_finite rounded)
       || negb (f64_contains 0 U32_MAX_PLUS1_F64 rounded) then
      _ ← set_invalid;
      mret (2 ^ 32 - 1)
    else
      _ ← update_fflags (map_fenv_flags flags);
      mret (f64_to_int 0 (2 ^ 32 - 1) rounded).

Definition fcvt_u64 (val rm : Z) : F Z :=
  if is_nan_f64 val then _ ← set_invalid; mret (2 ^ 64 - 1)
  else if f64_is_infinite val then
    _ ← set_invalid;
    mret (if f64_is_sign_negative val then 0 else 2 ^ 64 - 1)
  else if f64_lt val 0 then _ ← set_invalid; mret 0
  else
    '(rounded, flags) ← with_fenv_flags rm (rint val);
    if negb (Z.land flags FE_INVALID =? 0) || negb (f64_is_finite rounded)
       || negb (f64_contains 0 U64_MAX_PLUS1_F64 rounded) then
      _ ← set_invalid;
      mret (2 ^ 64 - 1)
    else
      _ ← update_fflags (map_fenv_flags flags);
      mret (f64_to_int 0 (2 ^ 64 - 1) rounded).

Definition helper_fcvt_w_s (a rm : Z) : F Z :=
  let af := read_f32_bits a in
  af ← f64_of_f32 af;
  fcvt_i32 af rm.

Definition helper_fcvt_wu_s (a rm : Z) : F Z :=
  let af := read_f32_bits a in
  af ← f64_of_f32 af;
  fcvt_u32 af rm.

Definition helper_fcvt_l_s (a rm : Z) : F Z :=
  let af := read_f32_bits a in
  af ← f64_of_f32 af;
  fcvt_i64 af rm.

Definition helper_fcvt_lu_s (a rm : Z) : F Z :=
  let af := read_f32_bits a in
  af ← f64_of_f32 af;
  fcvt_u64 af rm.

Definition helper_fcvt_s_w (a rm : Z) : F Z :=
  res ← with_fenv rm (f32_of_int (i32 a));
  mret (nanbox_f32 res).

Definition helper_fcvt_s_wu (a rm : Z) : F Z :=
  res ← with_fenv rm (f32_of_int (u32 a));
  mret (nanbox_f32 res).

Definition helper_fcvt_s_l (a rm : Z) : F Z :=
  res ← with_fenv rm (f32_of_int (signed 64 a));
  mret (nanbox_f32 res).

Definition helper_fcvt_s_lu (a rm : Z) : F Z :=
  res ← with_fenv rm (f32_of_int (u64 a));
  mret (nanbox_f32 res).

(** ** Double precision *)

Definition helper_fadd_d (a b rm : Z) : F Z := with_fenv rm (f64_add a b).

Definition helper_fsub_d (a b rm : Z) : F Z := with_fenv rm (f64_sub a b).

Definition helper_fmul_d (a b rm : Z) : F Z := with_fenv rm (f64_mul a b).

Definition helper_fdiv_d (a b rm : Z) : F Z := with_fenv rm (f64_div a b).

Definition helper_fsqrt_d (a rm : Z) : F Z := with_fenv rm (sqrt a).

Definition helper_fmadd_d (a b c rm : Z) : F Z := with_fenv rm (fma a b c).

Definition helper_fmsub_d (a b c rm : Z) : F Z := with_fenv rm (fma a b (f64_neg c)).

Definition helper_fnmsub_d (a b c rm : Z) : F Z := with_fenv rm (fma (f64_neg a) b c).

Definition helper_fnmadd_d (a b c rm : Z) : F Z := with_fenv rm (fma (f64_neg a) b (f64_neg c)).

Definition helper_fsgnj_d (a b : Z) : F Z :=
  let sign := Z.land b (Z.shiftl 1 63) in
  mret (Z.lor (Z.land a (not64 (Z.shiftl 1 63))) sign).

Definition helper_fsgnjn_d (a b : Z) : F Z :=
  let sign := Z.land (not64 b) (Z.shiftl 1 63) in
  mret (Z.lor (Z.land a (not64 (Z.shiftl 1 63))) sign).

Definition helper_fsgnjx_d (a b : Z) : F Z :=
  let sign := Z.land (Z.lxor a b) (Z.shiftl 1 63) in
  mret (Z.lor (Z.land a (not64 (Z.shiftl 1 63))) sign).

Definition helper_fmin_d (a b : Z) : F Z := fmin_f64 a b.
Definition helper_fmax_d (a b : Z) : F Z := fmax_f64 a b.

Definition helper_feq_d (a b : Z) : F Z :=
  _ ← (if is_snan_f64 a || is_snan_f64 b then set_invalid else mret tt);
  if is_nan_f64 a || is_nan_f64 b then mret 0 else mret (Z.b2z (f64_eq a b)).

Definition helper_flt_d (a b : Z) : F Z :=
  if is_nan_f64 a || is_nan_f64 b then _ ← set_invalid; mret 0 else mret (Z.b2z (f64_lt a b)).

Definition helper_fle_d (a b : Z) : F Z :=
  if is_nan_f64 a || is_nan_f64 b then _ ← set_invalid; mret 0 else mret (Z.b2z (f64_le a b)).

Definition helper_fclass_d (a : Z) : F Z := mret (fclass_f64 a).

Definition helper_fcvt_w_d (a rm : Z) : F Z := fcvt_i32 a rm.

Definition helper_fcvt_wu_d (a rm : Z) : F Z := fcvt_u32 a rm.

Definition helper_fcvt_l_d (a rm : Z) : F Z := fcvt_i64 a rm.

Definition helper_fcvt_lu_d (a rm : Z) : F Z := fcvt_u64 a rm.

Definition helper_fcvt_d_w (a rm : Z) : F Z := with_fenv rm (f64_of_int (i32 a)).

Definition helper_fcvt_d_wu (a rm : Z) : F Z := with_fenv rm (f64_of_int (u32 a)).

Definition helper_fcvt_d_l (a rm : Z) : F Z := with_fenv rm (f64_of_int (signed 64 a)).

Definition helper_fcvt_d_lu (a rm : Z) : F Z := with_fenv rm (f64_of_int (u64 a)).

Definition helper_fcvt_s_d (a rm : Z) : F Z :=
  res ← with_fenv rm (f32_of_f64 a);
  mret (nanbox_f32 res).

(** The conversion is done before the environment is set up. *)
Definition helper_fcvt_d_s (a rm : Z) : F Z :=
  let af := read_f32_bits a in
  af ← f64_of_f32 af;
  with_fenv rm (λ e, (af, e)).

(** ** The control and status register *)

Definition helper_fcsr_read : F Z :=
  c ← get_cpu;
  let fflags := Z.land (RiscvCpu.fflags c) FFLAGS_MASK in
  let frm := Z.land (RiscvCpu.frm c) FRM_MASK in
  mret (Z.lor fflags (Z.shiftl frm FCSR_RD_SHIFT)).

Definition helper_fcsr_write (val : Z) : F Z :=
  c ← get_cpu;
  let old := Z.lor (Z.land (RiscvCpu.fflags c) FFLAGS_MASK) (Z.shiftl (Z.land (RiscvCpu.frm c) FRM_MASK) FCSR_RD_SHIFT) in
  _ ← set_cpu (with_fcsr (Z.land val FFLAGS_MASK) (Z.land (Z.shiftr val FCSR_RD_SHIFT) FRM_MASK));
  mret old.

(** ** A call by address *)

(** The helper at its address, on the arguments after the environment pointer. *)
Definition call (h : Helper.t) (args : list Z) : F Z :=
  let a := default 0 (args.[0]) in
  let b := default 0 (args.[1]) in
  let c := default 0 (args.[2]) in
  let d := default 0 (args.[3]) in
  match h with
  | Helper.helper_fmadd_s => helper_fmadd_s a b c d
  | Helper.helper_fmsub_s => helper_fmsub_s a b c d
  | Helper.helper_fnmsub_s => helper_fnmsub_s a b c d
  | Helper.helper_fnmadd_s => helper_fnmadd_s a b c d
  | Helper.helper_fadd_s => helper_fadd_s a b c
  | Helper.helper_fsub_s => helper_fsub_s a b c
  | Helper.helper_fmul_s => helper_fmul_s a b c
  | Helper.helper_fdiv_s => helper_fdiv_s a b c
  | Helper.helper_fsqrt_s => helper_fsqrt_s a b
  | Helper.helper_fsgnj_s => helper_fsgnj_s a b
  | Helper.helper_fsgnjn_s => helper_fsgnjn_s a b
  | Helper.helper_fsgnjx_s => helper_fsgnjx_s a b
  | Helper.helper_fmin_s => helper_fmin_s a b
  | Helper.helper_fmax_s => helper_fmax_s a b
  | Helper.helper_feq_s => helper_feq_s a b
  | Helper.helper_flt_s => helper_flt_s a b
  | Helper.helper_fle_s => helper_fle_s a b
  | Helper.helper_fclass_s => helper_fclass_s a
  | Helper.helper_fcvt_w_s => helper_fcvt_w_s a b
  | Helper.helper_fcvt_wu_s => helper_fcvt_wu_s a b
  | Helper.helper_fcvt_s_w => helper_fcvt_s_w a b
  | Helper.helper_fcvt_s_wu => helper_fcvt_s_wu a b
  | Helper.helper_fcvt_l_s => helper_fcvt_l_s a b
  | Helper.helper_fcvt_lu_s => helper_fcvt_lu_s a b
  | Helper.helper_fcvt_s_l => helper_fcvt_s_l a b
  | Helper.helper_fcvt_s_lu => helper_fcvt_s_lu a b
  | Helper.helper_fmadd_d => helper_fmadd_d a b c d
  | Helper.helper_fmsub_d => helper_fmsub_d a b c d
  | Helper.helper_fnmsub_d => helper_fnmsub_d a b c d
  | Helper.helper_fnmadd_d => helper_fnmadd_d a b c d
  | Helper.helper_fadd_d => helper_fadd_d a b c
  | Helper.helper_fsub_d => helper_fsub_d a b c
  | Helper.helper_fmul_d => helper_fmul_d a b c
  | Helper.helper_fdiv_d => helper_fdiv_d a b c
  | Helper.helper_fsqrt_d => helper_fsqrt_d a b
  | Helper.helper_fsgnj_d => helper_fsgnj_d a b
  | Helper.helper_fsgnjn_d => helper_fsgnjn_d a b
  | Helper.helper_fsgnjx_d => helper_fsgnjx_d a b
  | Helper.helper_fmin_d => helper_fmin_d a b
  | Helper.helper_fmax_d => helper_fmax_d a b
  | Helper.helper_feq_d => helper_feq_d a b
  | Helper.helper_flt_d => helper_flt_d a b
  | Helper.helper_fle_d => helper_fle_d a b
  | Helper.helper_fclass_d => helper_fclass_d a
  | Helper.helper_fcvt_s_d => helper_fcvt_s_d a b
  | Helper.helper_fcvt_d_s => helper_fcvt_d_s a b
  | Helper.helper_fcvt_w_d => helper_fcvt_w_d a b
  | Helper.helper_fcvt_wu_d => helper_fcvt_wu_d a b
  | Helper.helper_fcvt_d_w => helper_fcvt_d_w a b
  | Helper.helper_fcvt_d_wu => helper_fcvt_d_wu a b
  | Helper.helper_fcvt_l_d => helper_fcvt_l_d a b
  | Helper.helper_fcvt_lu_d => helper_fcvt_lu_d a b
  | Helper.helper_fcvt_d_l => helper_fcvt_d_l a b
  | Helper.helper_fcvt_d_lu => helper_fcvt_d_lu a b
  end.
End helpers.
