(* ===== verification/FpuSound.v ===== *)
(** * What the floating-point helpers promise

    Towards the guest: a helper changes nothing of the CPU but the accrued exceptions, which only grow;
    comparisons, minimum and maximum follow the order of floats; conversions to integers round as the
    rounding mode says, RMM as RNE, and saturate.  Towards the host: its floating-point environment is left as found. *)

From S2P Require Import Prelude RiscvCpu RiscvGen RiscvTrans Fpu.

(** ** Rounding to integers *)

(** A finite [f64] in units of [2 ^ -1074]. *)
Definition f64_scaled (x : Z) : Z :=
  let v := f64_significand x * 2 ^ (f64_exponent x + 1074) in if f64_is_sign_negative x then - v else v.

Definition one_scaled : Z := 2 ^ 1074.

(** [v / u], rounded to an integer as the mode says. *)
Definition round_div (mode v u : Z) : Z :=
  if mode =? FE_DOWNWARD then v / u
  else if mode =? FE_UPWARD then - (- v / u)
  else if mode =? FE_TOWARDZERO then v ÷ u
  else let q := v / u in
       match 2 * (v mod u) ?= u with Lt => q | Gt => q + 1 | Eq => if Z.even q then q else q + 1 end.

Definition round_int (mode x : Z) : Z := round_div mode (f64_scaled x) one_scaled.

(** The rounding modes of the RISC-V manual, and the values they give: to nearest with ties to even,
    towards zero, down, up, and to nearest with ties to the larger magnitude. *)
Module RoundingMode.
Inductive t := RNE | RTZ | RDN | RUP | RMM.

Definition round (m : t) (v u : Z) : Z :=
  match m with
  | RNE => let q := (2 * v + u) / (2 * u) in
           if ((2 * v + u) mod (2 * u) =? 0) && Z.odd q then q - 1 else q
  | RTZ => Z.sgn v * (Z.abs v / u)
  | RDN => v / u
  | RUP => (v + u - 1) / u
  | RMM => Z.sgn v * ((2 * Z.abs v + u) / (2 * u))
  end.

(** The mode a conversion rounds in: the host has no RMM. *)
Definition served (m : t) : t := match m with RMM => RNE | m => m end.
End RoundingMode.

(** A finite number that is halfway between two integers. *)
Definition halfway (x : Z) : Prop := 2 * (f64_scaled x mod one_scaled) = one_scaled.

Definition host_mode (m : RoundingMode.t) : Z :=
  match RoundingMode.served m with
  | RoundingMode.RTZ => FE_TOWARDZERO
  | RoundingMode.RDN => FE_DOWNWARD
  | RoundingMode.RUP => FE_UPWARD
  | _ => FE_TONEAREST
  end.

Lemma round_div_nearest v u : 0 < u → round_div FE_TONEAREST v u = RoundingMode.round RoundingMode.RNE v u.
Proof.
  intros Hu. unfold round_div, RoundingMode.round. cbv zeta.
  change (FE_TONEAREST =? FE_DOWNWARD) with false. change (FE_TONEAREST =? FE_UPWARD) with false.
  change (FE_TONEAREST =? FE_TOWARDZERO) with false. cbv iota.
  pose proof (Z.div_mod v u ltac:(lia)) as Hv. pose proof (Z.mod_pos_bound v u Hu).
  set (q := v / u) in *. set (r := v mod u) in *.
  destruct (Z.compare_spec (2 * r) u) as [He|Hl|Hg].
  - assert (2 * v + u = (q + 1) * (2 * u)) as -> by lia. rewrite Z.div_mul, Z.mod_mul by lia. cbn [Z.eqb andb].
    rewrite Z.odd_add. change (Z.odd 1) with true. rewrite xorb_true_r, <- Z.negb_even, negb_involutive.
    destruct (Z.even q); lia.
  - assert ((2 * v + u) / (2 * u) = q) as -> by (symmetry; apply (Z.div_unique_pos _ _ _ (2 * r + u)); lia).
    assert ((2 * v + u) mod (2 * u) = 2 * r + u) as -> by (symmetry; apply (Z.mod_unique_pos _ _ q); lia).
    by rewrite (proj2 (Z.eqb_neq _ 0)) by lia.
  - assert ((2 * v + u) / (2 * u) = q + 1) as -> by (symmetry; apply (Z.div_unique_pos _ _ _ (2 * r - u)); lia).
    assert ((2 * v + u) mod (2 * u) = 2 * r - u) as -> by (symmetry; apply (Z.mod_unique_pos _ _ (q + 1)); lia).
    by rewrite (proj2 (Z.eqb_neq _ 0)) by lia.
Qed.

Lemma round_div_served m v u : 0 < u → round_div (host_mode m) v u = RoundingMode.round (RoundingMode.served m) v u.
Proof.
  intros Hu. destruct m; cbn [host_mode RoundingMode.served]; try (by apply round_div_nearest); [|done|].
  - change (round_div FE_TOWARDZERO v u) with (v ÷ u). cbn [RoundingMode.round]. symmetry.
    rewrite (Z.quot_div v u) by lia. rewrite (Z.sgn_pos u), (Z.abs_eq u) by lia. lia.
  - change (round_div FE_UPWARD v u) with (- (- v / u)). cbn [RoundingMode.round].
    pose proof (Z.div_mod (- v) u ltac:(lia)). pose proof (Z.mod_pos_bound (- v) u Hu).
    apply (Z.div_unique_pos _ _ _ (u - 1 - (- v) mod u)); lia.
Qed.

(** The two roundings to nearest differ on halfway values only. *)
Lemma round_nearest_agree v u :
  0 < u → 2 * (v mod u) ≠ u → RoundingMode.round RoundingMode.RMM v u = RoundingMode.round RoundingMode.RNE v u.
Proof.
  intros Hu Hh. rewrite <- round_div_nearest by done. unfold round_div.
  change (FE_TONEAREST =? FE_DOWNWARD) with false. change (FE_TONEAREST =? FE_UPWARD) with false.
  change (FE_TONEAREST =? FE_TOWARDZERO) with false. cbv iota zeta. cbn [RoundingMode.round].
  pose proof (Z.div_mod v u ltac:(lia)) as Hv. pose proof (Z.mod_pos_bound v u Hu).
  set (q := v / u) in *. set (r := v mod u) in *.
  assert (∀ k w, - u < w - k * (2 * u) < u → 0 ≤ w → (w + u) / (2 * u) = k) as Hdiv
    by (intros k w ? ?; symmetry; apply (Z.div_unique_pos _ _ _ (w + u - k * (2 * u))); lia).
  assert (v = 0 → q = 0 ∧ r = 0) as H0
    by (unfold q, r; intros ->; by rewrite Z.div_0_l, Z.mod_0_l by lia).
  destruct (Z.compare_spec (2 * r) u) as [He|Hl|Hg]; [done|..];
    destruct (Z.sgn_spec v) as [[? ->]|[[Hz ->]|[? ->]]]; try (destruct (H0 ltac:(done)); lia).
  - rewrite (Hdiv q) by lia. lia.
  - rewrite (Hdiv (- q)) by lia. lia.
  - rewrite (Hdiv (q + 1)) by lia. lia.
  - rewrite (Hdiv (- (q + 1))) by lia. lia.
Qed.

(** ** What the helpers rely on *)

Definition modes : list Z := [FE_TONEAREST; FE_DOWNWARD; FE_UPWARD; FE_TOWARDZERO].

(** fenv.h, and [rint] of libm: the result of a finite argument is the integer that the mode says, with the
    sign of the argument, and nothing but inexactness is raised. *)
Class HostFloatLaws (E : Type) `{HostFloat E} : Prop := {
  getround_mode (e : E) : fegetround e ∈ modes;
  getround_set r (e : E) : r ∈ modes → fegetround (fesetround r e) = r;
  getround_clear x (e : E) : fegetround (feclearexcept x e) = fegetround e;
  getround_raise x (e : E) : fegetround (feraiseexcept x e) = fegetround e;
  test_set r (e : E) : fetestexcept FE_ALL_EXCEPT (fesetround r e) = fetestexcept FE_ALL_EXCEPT e;
  test_clear (e : E) : fetestexcept FE_ALL_EXCEPT (feclearexcept FE_ALL_EXCEPT e) = 0;
  test_raise (e e' : E) :
    let x := fetestexcept FE_ALL_EXCEPT e' in
    fetestexcept FE_ALL_EXCEPT (feraiseexcept x e) = Z.lor (fetestexcept FE_ALL_EXCEPT e) x;
  widen_getround x (e : E) : fegetround (widen_nan x e).2 = fegetround e;
  rint_spec x (e : E) :
    in_width 64 x → f64_is_finite x = true →
    let '(r, e') := rint x e in
    in_width 64 r ∧ f64_is_finite r = true ∧ f64_scaled r = round_int (fegetround e) x * one_scaled ∧
    f64_is_sign_negative r = f64_is_sign_negative x ∧
    (fetestexcept FE_ALL_EXCEPT e = 0 → Z.land (fetestexcept FE_ALL_EXCEPT e') FE_INVALID = 0)
}.

(** ** What a helper may touch *)

(** Accrued exceptions stay. *)
Definition sticky (f f' : Z) : Prop :=
  f' = f ∨ 0 ≤ f' < 32 ∧ ∀ i, 0 ≤ i < 5 → Z.testbit f i = true → Z.testbit f' i = true.

Lemma sticky_trans f1 f2 f3 : sticky f1 f2 → sticky f2 f3 → sticky f1 f3.
Proof.
  intros [->|[Hr Hb]]; [done|]. intros [->|[Hr' Hb']]; right; [done|]. split; [done|]. intros i Hi Ht. auto.
Qed.

Lemma sticky_update f k : sticky f (Z.land (Z.lor f k) FFLAGS_MASK).
Proof.
  right. change FFLAGS_MASK with (Z.ones 5). rewrite Z.land_ones by lia. split; [apply Z.mod_pos_bound; done|].
  intros i Hi Hb. rewrite Z.mod_pow2_bits_low, Z.lor_spec, Hb by lia. done.
Qed.

Section helpers.
Context {E : Type} `{HostFloatLaws E}.
#[local] Existing Instances F_ret F_bind.

(** [exact]: the raised exceptions of the host are as before, too. *)
Definition confined {A} (exact : bool) (m : F A) : Prop :=
  ∀ c (e : E), let s := (m (c, e)).2 in
    (∃ fl, s.1 = with_fcsr fl (RiscvCpu.frm c) c ∧ sticky (RiscvCpu.fflags c) fl) ∧
    fegetround s.2 = fegetround e ∧
    (exact = true → fetestexcept FE_ALL_EXCEPT s.2 = fetestexcept FE_ALL_EXCEPT e).

Lemma with_fcsr_same c : c = with_fcsr (RiscvCpu.fflags c) (RiscvCpu.frm c) c.
Proof. by destruct c. Qed.

Lemma confined_ret {A} b (a : A) : confined b (mret a).
Proof. intros c e. split; [|done]. exists (RiscvCpu.fflags c). split; [apply with_fcsr_same|by left]. Qed.

Lemma confined_bind {A B} b (m : F A) (f : A → F B) : confined b m → (∀ a, confined b (f a)) → confined b (m ≫= f).
Proof.
  intros Hm Hf c e. unfold mbind, F_bind. pose proof (Hm c e) as (H1 & H2 & H3).
  destruct (m (c, e)) as [a [c1 e1]]. cbn [fst snd] in *. destruct H1 as (fl & -> & Hs).
  pose proof (Hf a (with_fcsr fl (RiscvCpu.frm c) c) e1) as (H4 & H5 & H6). cbv zeta.
  destruct (f a (with_fcsr fl (RiscvCpu.frm c) c, e1)) as [r [c2 e2]]. cbn [fst snd] in *.
  destruct H4 as (fl' & -> & Hs'). split; [|split; [congruence|intros Hb; rewrite H6, H3 by done; done]].
  exists fl'. split; [done|]. by eapply sticky_trans.
Qed.

Lemma confined_update b k : confined b (update_fflags k).
Proof. intros c e. split; [|done]. eexists. split; [reflexivity|]. apply sticky_update. Qed.

Lemma confined_map_rm b rm : confined b (map_rm rm).
Proof.
  unfold map_rm. cbv zeta. apply confined_bind; [|intros c0].
  { intros c e. split; [|done]. exists (RiscvCpu.fflags c). split; [apply with_fcsr_same|by left]. }
  generalize (if Z.land rm FRM_MASK =? FRM_DYN then Z.land (RiscvCpu.frm c0) FRM_MASK else Z.land rm FRM_MASK) as k.
  intros k. repeat (destruct (k =? _); [apply confined_ret|]). apply confined_bind; [apply confined_update|intros; apply confined_ret].
Qed.

Lemma map_rm_mode rm c (e : E) : (map_rm rm (c, e)).1 ∈ modes ∧ (map_rm rm (c, e)).2.2 = e.
Proof.
  unfold map_rm, mbind, F_bind, get_cpu. cbn [fst snd].
  generalize (if Z.land rm FRM_MASK =? FRM_DYN then Z.land (RiscvCpu.frm c) FRM_MASK else Z.land rm FRM_MASK) as k.
  intros k. repeat destruct (k =? _); cbn [fst snd mret F_ret set_invalid update_fflags set_cpu]; (split; [|done]); unfold modes; set_solver.
Qed.

(** The computation starts without exceptions in the mode of the instruction; then the environment is put
    back. *)
Lemma with_fenv_flags_run {A} rm (f : E → A * E) c e :
  let m := map_rm rm (c, feclearexcept FE_ALL_EXCEPT e) in
  let fe := f (fesetround m.1 (feclearexcept FE_ALL_EXCEPT e)) in
  with_fenv_flags rm f (c, e) =
  ((fe.1, fetestexcept FE_ALL_EXCEPT fe.2),
   (m.2.1, feraiseexcept (fetestexcept FE_ALL_EXCEPT e)
             (feclearexcept FE_ALL_EXCEPT (fesetround (fegetround e) fe.2)))).
Proof.
  cbv zeta. unfold with_fenv_flags, mbind, F_bind, host, host_, mret, F_ret. cbn [fst snd].
  pose proof (map_rm_mode rm c (feclearexcept FE_ALL_EXCEPT e)) as [_ Hm].
  destruct (map_rm rm _) as [mode [c1 e1]]. cbn [fst snd] in *. subst e1. by destruct (f _).
Qed.

Lemma confined_fenv_flags {A} b rm (f : E → A * E) : confined b (with_fenv_flags rm f).
Proof.
  intros c e. rewrite with_fenv_flags_run. cbv zeta. cbn [fst snd].
  destruct (confined_map_rm true rm c (feclearexcept FE_ALL_EXCEPT e)) as ((fl & -> & Hs) & _ & _).
  split; [by exists fl|]. rewrite getround_raise, getround_clear, getround_set by apply getround_mode. split; [done|].
  intros _. rewrite test_raise, test_clear. apply Z.lor_0_l.
Qed.

Lemma confined_fenv {A} b rm (f : E → A * E) : confined b (with_fenv rm f).
Proof.
  unfold with_fenv. apply confined_bind; [apply confined_fenv_flags|intros [res flags]].
  apply confined_bind; [apply confined_update|intros; apply confined_ret].
Qed.

Lemma confined_widen x : confined false (f64_of_f32 x).
Proof.
  unfold f64_of_f32. destruct (is_nan_f32 x); [|apply confined_ret]. intros c e. unfold host.
  pose proof (widen_getround x e) as Hr. destruct (widen_nan x e) as [r e']. cbn [fst snd] in *.
  split; [|done]. exists (RiscvCpu.fflags c). split; [apply with_fcsr_same|by left].
Qed.

(** The conversion of a single to a double goes before the environment is set up. *)
Definition widens (h : Helper.t) : bool :=
  match h with
  | Helper.helper_fcvt_w_s | Helper.helper_fcvt_wu_s | Helper.helper_fcvt_l_s | Helper.helper_fcvt_lu_s
  | Helper.helper_fcvt_d_s => true
  | _ => false
  end.

Create HintDb confined.
#[local] Hint Resolve confined_ret confined_update confined_fenv confined_fenv_flags confined_widen : confined.

Ltac confined :=
  cbv zeta;
  first [solve [auto 1 with confined nocore]|lazymatch goal with
  | |- confined _ (@mbind _ _ _ _ _ _) => apply confined_bind; [confined|intros; confined]
  | |- confined _ (if ?c then _ else _) => destruct c; confined
  | |- confined _ (match ?x with _ => _ end) => destruct x; confined
  | |- confined _ ?m => let f := head_of m in unfold f; confined
  end].

Lemma confined_call h args : confined (negb (widens h)) (call h args).
Proof. unfold call. destruct h; cbn [widens negb]; confined. Qed.
End helpers.

(** ** The order of floats *)

(** Sign and magnitude of [k + 1] bits; the zeros are equal in [key], and apart in [ord]. *)
Definition key (k x : Z) : Z := let mag := x mod 2 ^ k in if Z.testbit x k then - mag else mag.
Definition ord (k x : Z) : Z := let mag := x mod 2 ^ k in if Z.testbit x k then - 1 - mag else mag.

Lemma f32_key_spec x : f32_key x = key 31 x.
Proof. unfold f32_key, key. change 0x7fffffff with (Z.ones 31). by rewrite Z.land_ones by lia. Qed.

Lemma f64_key_spec x : f64_key x = key 63 x.
Proof. unfold f64_key, key. change 0x7fffffffffffffff with (Z.ones 63). by rewrite Z.land_ones by lia. Qed.

Section order.
Variable k : Z.
Hypothesis Hk : 0 ≤ k.

Lemma split_sign x : in_width (k + 1) x → x = Z.b2z (Z.testbit x k) * 2 ^ k + x mod 2 ^ k.
Proof.
  intros Hx. assert (0 < 2 ^ k) by by apply pow2_pos. unfold in_width in Hx.
  rewrite Z.pow_add_r, Z.pow_1_r in Hx by lia. rewrite Z.testbit_spec' by done.
  assert (0 ≤ x / 2 ^ k < 2) by (split; [apply Z.div_pos; lia|apply Z.div_lt_upper_bound; lia]).
  rewrite (Z.mod_small (x / 2 ^ k)) by lia. rewrite (Z.div_mod x (2 ^ k)) at 1 by lia. lia.
Qed.

Lemma ord_inj x y : in_width (k + 1) x → in_width (k + 1) y → ord k x = ord k y → x = y.
Proof.
  intros Hx%split_sign Hy%split_sign. unfold ord. assert (0 < 2 ^ k) by by apply pow2_pos.
  pose proof (Z.mod_pos_bound x (2 ^ k) ltac:(done)). pose proof (Z.mod_pos_bound y (2 ^ k) ltac:(done)).
  rewrite Hx, Hy. rewrite <- Hx, <- Hy. destruct (Z.testbit x k), (Z.testbit y k); intros; lia.
Qed.

(** Equal floats are the same, but for the zeros; otherwise the orders agree. *)
Lemma key_ord x y :
  in_width (k + 1) x → in_width (k + 1) y →
  if key k x =? key k y then x = y ∨ x mod 2 ^ k = 0 ∧ y mod 2 ^ k = 0
  else if key k x <? key k y then ord k x < ord k y else ord k y < ord k x.
Proof.
  intros Hx Hy. assert (0 < 2 ^ k) by by apply pow2_pos.
  pose proof (Z.mod_pos_bound x (2 ^ k) ltac:(done)). pose proof (Z.mod_pos_bound y (2 ^ k) ltac:(done)).
  pose proof (ord_inj x y Hx Hy) as Hi. unfold key, ord in *.
  destruct (Z.testbit x k), (Z.testbit y k);
    destruct (_ =? _) eqn:E1; try destruct (_ <? _) eqn:E2; boolp; try lia;
    first [left; apply Hi; lia|right; lia].
Qed.
End order.

(** ** Comparisons, minimum and maximum *)

Section comparisons.
Context {E : Type} `{HostFloat E}.
#[local] Existing Instances F_ret F_bind.

Definition invalid_if (b : bool) (s : St (E := E)) : St :=
  if b then ((with_fcsr (Z.land (Z.lor (RiscvCpu.fflags s.1) FFLAGS_NV) FFLAGS_MASK) (RiscvCpu.frm s.1) s.1), s.2)
  else s.

(** What the five helpers of a precision compute; [rd] reads a register and [box] makes one. *)
Definition ordered (k : Z) (nan snan : Z → bool) (canon : Z) (rd box : Z → Z) (hmin hmax heq hlt hle : Z → Z → F Z) : Prop :=
  ∀ ra rb s, in_width 64 ra → in_width 64 rb →
  let a := rd ra in
  let b := rd rb in
  let numbers := negb (nan a) && negb (nan b) in
  let quiet := invalid_if (snan a || snan b) s in
  let signalling := invalid_if (nan a || nan b) s in
  let pick (r : Z) := if nan a then if nan b then canon else b else if nan b then a else r in
  hmin ra rb s = (box (pick (if ord k a <=? ord k b then a else b)), quiet) ∧
  hmax ra rb s = (box (pick (if ord k b <=? ord k a then a else b)), quiet) ∧
  heq ra rb s = (Z.b2z (numbers && (key k a =? key k b)), quiet) ∧
  hlt ra rb s = (Z.b2z (numbers && (key k a <? key k b)), signalling) ∧
  hle ra rb s = (Z.b2z (numbers && (key k a <=? key k b)), signalling).

Lemma key_zero k x : 0 ≤ k → key k x = 0 ↔ x mod 2 ^ k = 0.
Proof. intros Hk. pose proof (Z.mod_pos_bound x (2 ^ k) ltac:(apply pow2_pos; lia)). unfold key. destruct (Z.testbit x k); lia. Qed.

(** Two zeros: the sign of the minimum is set when one is, that of the maximum when both are. *)
Lemma zeros_lor_land k a b :
  0 ≤ k → in_width (k + 1) a → in_width (k + 1) b → a mod 2 ^ k = 0 → b mod 2 ^ k = 0 →
  Z.lor a b = (if ord k a <=? ord k b then a else b) ∧ Z.land a b = (if ord k b <=? ord k a then a else b).
Proof.
  intros Hk Ha Hb Za Zb. pose proof (split_sign k Hk a Ha) as Ea. pose proof (split_sign k Hk b Hb) as Eb.
  rewrite Za in Ea. rewrite Zb in Eb. rewrite Z.add_0_r in *. unfold ord. rewrite Za, Zb.
  destruct (Z.testbit a k), (Z.testbit b k); cbn [Z.b2z Z.leb Z.compare Z.sub Z.opp Z.pos_sub Z.add] in *;
    rewrite ?Z.mul_1_l, ?Z.mul_0_l in *; subst;
    rewrite ?Z.lor_diag, ?Z.land_diag, ?Z.lor_0_r, ?Z.lor_0_l, ?Z.land_0_r, ?Z.land_0_l; done.
Qed.

(** What the branches of minimum and maximum on numbers return. *)
Lemma pick_min k a b :
  0 ≤ k → in_width (k + 1) a → in_width (k + 1) b →
  (if key k a =? key k b then if key k a =? 0 then Z.lor a b else a else if key k a <? key k b then a else b) =
  if ord k a <=? ord k b then a else b.
Proof.
  intros Hk Ha Hb. pose proof (key_ord k Hk a b Ha Hb) as Ho. destruct (key k a =? key k b) eqn:Ee.
  - destruct (key k a =? 0) eqn:Ez; boolp.
    + rewrite Ez in Ee. symmetry in Ee. rewrite key_zero in Ez, Ee by done.
      by apply zeros_lor_land.
    + destruct Ho as [->|[Hz _]]; [by destruct (_ <=? _)|]. by rewrite <- key_zero in Hz by done.
  - destruct (key k a <? key k b), (ord k a <=? ord k b) eqn:El; boolp; lia || done.
Qed.

Lemma pick_max k a b :
  0 ≤ k → in_width (k + 1) a → in_width (k + 1) b →
  (if key k a =? key k b then if key k a =? 0 then Z.land a b else a else if key k b <? key k a then a else b) =
  if ord k b <=? ord k a then a else b.
Proof.
  intros Hk Ha Hb. pose proof (key_ord k Hk a b Ha Hb) as Ho. destruct (key k a =? key k b) eqn:Ee.
  - destruct (key k a =? 0) eqn:Ez; boolp.
    + rewrite Ez in Ee. symmetry in Ee. rewrite key_zero in Ez, Ee by done.
      by apply zeros_lor_land.
    + destruct Ho as [->|[Hz _]]; [by destruct (_ <=? _)|]. by rewrite <- key_zero in Hz by done.
  - destruct (key k a <? key k b) eqn:E1, (key k b <? key k a) eqn:E2, (ord k b <=? ord k a) eqn:El; boolp; lia || done.
Qed.

Lemma read_f32_bits_width raw : in_width 32 (read_f32_bits raw).
Proof. unfold read_f32_bits. destruct (negb _); [done|]. unfold u32. apply mod_in_width. done. Qed.

(** A signalling NaN is a NaN. *)
Lemma snan_nan_f32 x : is_snan_f32 x = true → is_nan_f32 x = true.
Proof. unfold is_snan_f32. by intros [? _]%andb_true_iff. Qed.

Lemma snan_nan_f64 x : is_snan_f64 x = true → is_nan_f64 x = true.
Proof. unfold is_snan_f64. by intros [? _]%andb_true_iff. Qed.

Lemma invalid_run (b : bool) s : (if b then set_invalid else mret tt : F ()) s = ((), invalid_if b s).
Proof. destruct s as [c e]. by destruct b. Qed.

Lemma after_flags {A} (b : bool) (f : unit → F A) s : ((if b then set_invalid else mret tt) ≫= f) s = f tt (invalid_if b s).
Proof. unfold mbind, F_bind. by rewrite invalid_run. Qed.

Lemma only_flags {A} (a : A) s : (_ ← set_invalid; mret a : F A) s = (a, invalid_if true s).
Proof. unfold mbind, F_bind. by rewrite (invalid_run true). Qed.

(** The branches of a minimum or maximum are those of [pick]. *)
Ltac by_pick pick na nb :=
  intros Ha Hb; unfold fmin_f32, fmax_f32, fmin_f64, fmax_f64, f32_eq, f64_eq, f32_lt, f64_lt;
  rewrite after_flags, ?f32_key_spec, ?f64_key_spec, <- pick by done;
  change (is_nan_f32 0) with false; change (is_nan_f64 0) with false;
  change (key 31 0) with 0; change (key 63 0) with 0;
  destruct na, nb; cbn [orb andb negb]; try done; repeat case_match; done.

Lemma f32_min a b s :
  in_width 32 a → in_width 32 b →
  fmin_f32 a b s =
  (if is_nan_f32 a then if is_nan_f32 b then canonical_nan_f32 else b else if is_nan_f32 b then a
   else if ord 31 a <=? ord 31 b then a else b, invalid_if (is_snan_f32 a || is_snan_f32 b) s).
Proof. by_pick (pick_min 31 a b) (is_nan_f32 a) (is_nan_f32 b). Qed.

Lemma f32_max a b s :
  in_width 32 a → in_width 32 b →
  fmax_f32 a b s =
  (if is_nan_f32 a then if is_nan_f32 b then canonical_nan_f32 else b else if is_nan_f32 b then a
   else if ord 31 b <=? ord 31 a then a else b, invalid_if (is_snan_f32 a || is_snan_f32 b) s).
Proof. by_pick (pick_max 31 a b) (is_nan_f32 a) (is_nan_f32 b). Qed.

Lemma f64_min a b s :
  in_width 64 a → in_width 64 b →
  fmin_f64 a b s =
  (if is_nan_f64 a then if is_nan_f64 b then canonical_nan_f64 else b else if is_nan_f64 b then a
   else if ord 63 a <=? ord 63 b then a else b, invalid_if (is_snan_f64 a || is_snan_f64 b) s).
Proof. by_pick (pick_min 63 a b) (is_nan_f64 a) (is_nan_f64 b). Qed.

Lemma f64_max a b s :
  in_width 64 a → in_width 64 b →
  fmax_f64 a b s =
  (if is_nan_f64 a then if is_nan_f64 b then canonical_nan_f64 else b else if is_nan_f64 b then a
   else if ord 63 b <=? ord 63 a then a else b, invalid_if (is_snan_f64 a || is_snan_f64 b) s).
Proof. by_pick (pick_max 63 a b) (is_nan_f64 a) (is_nan_f64 b). Qed.

(** C20. Comparisons of both precisions decide the order of the represented numbers, the zeros being equal,
    and are false of a NaN; [fmin] and [fmax] pick by that order with -0 below +0, return the other operand
    when one is a NaN and the canonical NaN when both are.  Invalid operation is raised by a signalling NaN,
    and in [flt] and [fle] by any NaN; nothing else changes. *)
Theorem float_order :
  ordered 31 is_nan_f32 is_snan_f32 canonical_nan_f32 read_f32_bits nanbox_f32
    helper_fmin_s helper_fmax_s helper_feq_s helper_flt_s helper_fle_s ∧
  ordered 63 is_nan_f64 is_snan_f64 canonical_nan_f64 (λ x, x) (λ x, x)
    helper_fmin_d helper_fmax_d helper_feq_d helper_flt_d helper_fle_d.
Proof.
  split; intros ra rb s Ha Hb a b numbers quiet signalling pick.
  - assert (in_width 32 a ∧ in_width 32 b) as [Wa Wb] by (split; apply read_f32_bits_width).
    subst numbers quiet signalling pick. cbv beta zeta.
    unfold helper_fmin_s, helper_fmax_s, helper_feq_s, helper_flt_s, helper_fle_s, f32_eq, f32_lt, f32_le. cbv zeta.
    fold a b. rewrite after_flags. unfold mbind at 1 2, F_bind at 1 2. rewrite f32_min, f32_max, !f32_key_spec by done.
    destruct (is_nan_f32 a), (is_nan_f32 b); cbn [orb andb negb]; rewrite ?only_flags; done.
  - subst numbers quiet signalling pick a b. cbv beta zeta.
    unfold helper_fmin_d, helper_fmax_d, helper_feq_d, helper_flt_d, helper_fle_d, f64_eq, f64_lt, f64_le.
    rewrite after_flags, f64_min, f64_max, !f64_key_spec by done.
    destruct (is_nan_f64 ra), (is_nan_f64 rb); cbn [orb andb negb]; rewrite ?only_flags; done.
Qed.
End comparisons.

(** ** Conversions to integers *)

(** The magnitude of a finite [f64], of its 63 bits. *)
Definition scaled_mag (m : Z) : Z :=
  (if m / 2 ^ 52 =? 0 then m mod 2 ^ 52 else 2 ^ 52 + m mod 2 ^ 52) * 2 ^ (Z.max 1 (m / 2 ^ 52) - 1).

Lemma exponent_mag x : Z.land (Z.shiftr x 52) 0x7ff = x mod 2 ^ 63 / 2 ^ 52.
Proof.
  change 0x7ff with (Z.ones 11). rewrite Z.land_ones, Z.shiftr_div_pow2 by done.
  change (2 ^ 63) with (2 ^ 52 * 2 ^ 11). rewrite Z.rem_mul_r, Z.mul_comm, Z.div_add by done.
  by rewrite (Z.div_small (x mod 2 ^ 52)) by (apply Z.mod_pos_bound; done).
Qed.

Lemma fraction_mag x : Z.land x 0x000fffffffffffff = (x mod 2 ^ 63) mod 2 ^ 52.
Proof.
  change 0x000fffffffffffff with (Z.ones 52). rewrite Z.land_ones by done.
  change (2 ^ 63) with (2 ^ 52 * 2 ^ 11). rewrite Z.rem_mul_r, Z.mul_comm, Z.mod_add by done. by rewrite Z.mod_mod.
Qed.

Lemma scaled_of_mag x :
  f64_scaled x = let v := scaled_mag (x mod 2 ^ 63) in if f64_is_sign_negative x then - v else v.
Proof.
  unfold f64_scaled, f64_significand, f64_exponent, scaled_mag. rewrite exponent_mag, fraction_mag.
  by replace (_ - 1075 + 1074) with (Z.max 1 (x mod 2 ^ 63 / 2 ^ 52) - 1) by lia.
Qed.

Lemma scaled_mag_nonneg m : 0 ≤ m → 0 ≤ scaled_mag m.
Proof.
  intros Hm. pose proof (Z.mod_pos_bound m (2 ^ 52) ltac:(done)).
  apply Z.mul_nonneg_nonneg; [destruct (_ =? 0); lia|]. apply Z.pow_nonneg. lia.
Qed.

(** A magnitude lies below the least one of the next exponent. *)
Lemma scaled_mag_upper m : 0 ≤ m → scaled_mag m < 2 ^ (52 + m / 2 ^ 52).
Proof.
  intros Hm. pose proof (Z.mod_pos_bound m (2 ^ 52) ltac:(done)). unfold scaled_mag.
  assert (0 ≤ m / 2 ^ 52) by (apply Z.div_pos; lia). destruct (m / 2 ^ 52 =? 0) eqn:He; boolp.
  - rewrite He. change (2 ^ (Z.max 1 0 - 1)) with 1. change (52 + 0) with 52. lia.
  - rewrite Z.max_r by lia. replace (52 + m / 2 ^ 52) with (53 + (m / 2 ^ 52 - 1)) by lia.
    rewrite Z.pow_add_r by lia. apply Z.mul_lt_mono_pos_r; [apply Z.pow_pos_nonneg; lia|]. change (2 ^ 53) with (2 ^ 52 + 2 ^ 52). lia.
Qed.

Lemma scaled_mag_lower m : 0 ≤ m → m / 2 ^ 52 ≠ 0 → 2 ^ (51 + m / 2 ^ 52) ≤ scaled_mag m.
Proof.
  intros Hm He. pose proof (Z.mod_pos_bound m (2 ^ 52) ltac:(done)). unfold scaled_mag.
  assert (0 ≤ m / 2 ^ 52) by (apply Z.div_pos; lia). destruct (m / 2 ^ 52 =? 0) eqn:He'; boolp; [done|].
  rewrite Z.max_r by lia. replace (51 + m / 2 ^ 52) with (52 + (m / 2 ^ 52 - 1)) by lia.
  rewrite Z.pow_add_r by lia. apply Z.mul_le_mono_nonneg_r; [apply Z.pow_nonneg; lia|lia].
Qed.

Lemma scaled_mag_mono m m' : 0 ≤ m < m' → scaled_mag m < scaled_mag m'.
Proof.
  intros Hm. assert (m / 2 ^ 52 ≤ m' / 2 ^ 52) by (apply Z.div_le_mono; lia).
  assert (0 ≤ m / 2 ^ 52) by (apply Z.div_pos; lia).
  destruct (decide (m / 2 ^ 52 = m' / 2 ^ 52)) as [He|He].
  - unfold scaled_mag. rewrite <- He. apply Z.mul_lt_mono_pos_r; [apply Z.pow_pos_nonneg; lia|].
    pose proof (Z.div_mod m (2 ^ 52) ltac:(done)). pose proof (Z.div_mod m' (2 ^ 52) ltac:(done)).
    destruct (_ =? 0); lia.
  - eapply Z.lt_le_trans; [apply scaled_mag_upper; lia|]. eapply Z.le_trans; [|apply scaled_mag_lower; lia].
    apply Z.pow_le_mono_r; lia.
Qed.

(** The order of keys is that of the represented numbers. *)
Lemma scaled_key_le x y : key 63 x ≤ key 63 y ↔ f64_scaled x ≤ f64_scaled y.
Proof.
  rewrite !scaled_of_mag. unfold key, f64_is_sign_negative. cbv zeta.
  pose proof (Z.mod_pos_bound x (2 ^ 63) ltac:(done)). pose proof (Z.mod_pos_bound y (2 ^ 63) ltac:(done)).
  set (m := x mod 2 ^ 63) in *. set (n := y mod 2 ^ 63) in *.
  pose proof (scaled_mag_nonneg m ltac:(lia)). pose proof (scaled_mag_nonneg n ltac:(lia)).
  assert (scaled_mag 0 = 0) as Hz by reflexivity.
  assert (m < n → scaled_mag m < scaled_mag n) by (intros; apply scaled_mag_mono; lia).
  assert (n < m → scaled_mag n < scaled_mag m) by (intros; apply scaled_mag_mono; lia).
  assert (m = n → scaled_mag m = scaled_mag n) by congruence.
  assert (0 < m → 0 < scaled_mag m) by (intros; rewrite <- Hz; apply scaled_mag_mono; lia).
  assert (0 < n → 0 < scaled_mag n) by (intros; rewrite <- Hz; apply scaled_mag_mono; lia).
  assert (m = 0 → scaled_mag m = 0) by congruence. assert (n = 0 → scaled_mag n = 0) by congruence.
  clearbody m n. clear Hz. destruct (Z.testbit x 63), (Z.testbit y 63); lia.
Qed.

Lemma finite_number x : f64_is_finite x = true → is_nan_f64 x = false ∧ f64_is_infinite x = false.
Proof. unfold f64_is_finite, is_nan_f64, f64_is_infinite. by destruct (_ =? 0x7ff). Qed.

(** An integer [n] that is an [f64]: tests of a range, and the cast. *)
Section integer.
Variables x n : Z.
Hypothesis Hfin : f64_is_finite x = true.
Hypothesis Hn : f64_scaled x = n * one_scaled.

Lemma contains_spec lo hi l h :
  f64_is_finite lo = true → f64_is_finite hi = true →
  f64_scaled lo = l * one_scaled → f64_scaled hi = h * one_scaled →
  f64_contains lo hi x = (l <=? n) && (n <? h).
Proof.
  intros Fl Fh Hl Hh. unfold f64_contains, f64_le, f64_lt.
  rewrite (proj1 (finite_number x Hfin)), (proj1 (finite_number lo Fl)), (proj1 (finite_number hi Fh)), !f64_key_spec.
  cbn [negb andb]. assert (0 < one_scaled) by by apply pow2_pos.
  f_equal; apply eq_true_iff_eq; boolp.
  - rewrite !Z.leb_le, scaled_key_le, Hn, Hl. split; intros; nia.
  - rewrite !Z.ltb_lt, <- !Z.nle_gt, scaled_key_le, Hn, Hh. split; intros Hx ?; apply Hx; nia.
Qed.

Lemma trunc_spec : f64_trunc x = n.
Proof.
  revert Hn. unfold f64_scaled, f64_trunc. cbv zeta. unfold one_scaled.
  assert (0 ≤ f64_exponent x + 1074) as He by (unfold f64_exponent; lia).
  set (e := f64_exponent x) in *. set (m := f64_significand x).
  assert (∀ k, m * 2 ^ (e + 1074) = k * 2 ^ 1074 → (if 0 <=? e then m * 2 ^ e else m / 2 ^ (- e)) = k) as Hk.
  { intros k. destruct (0 <=? e) eqn:Ee; boolp.
    - rewrite Z.pow_add_r, Z.mul_assoc by lia. intros Hk. apply Z.mul_reg_r in Hk; [done|]. by apply Z.pow_nonzero.
    - replace 1074 with (- e + (e + 1074)) at 2 by lia. rewrite (Z.pow_add_r 2 (- e)), Z.mul_assoc by lia. intros Hk.
      apply Z.mul_reg_r in Hk; [|apply Z.pow_nonzero; lia]. rewrite Hk. apply Z.div_mul, Z.pow_nonzero; lia. }
  destruct (f64_is_sign_negative x); intros Hs; [|by apply Hk].
  rewrite (Hk (- n)) by lia. lia.
Qed.

Lemma to_int_spec lo hi : f64_to_int lo hi x = Z.max lo (Z.min hi n).
Proof. unfold f64_to_int. destruct (finite_number x Hfin) as [-> ->]. by rewrite trunc_spec. Qed.

Lemma sign_spec : if f64_is_sign_negative x then n ≤ 0 else 0 ≤ n.
Proof.
  revert Hn. rewrite scaled_of_mag. cbv zeta. assert (0 < one_scaled) by by apply pow2_pos.
  pose proof (scaled_mag_nonneg (x mod 2 ^ 63) (proj1 (Z.mod_pos_bound x (2 ^ 63) eq_refl))).
  destruct (f64_is_sign_negative x); intros; nia.
Qed.
End integer.

(** Negative numbers round to no more than zero. *)
Lemma round_nonpos mode x : f64_scaled x < 0 → round_int mode x ≤ 0.
Proof.
  intros Hx. unfold round_int, round_div. assert (0 < one_scaled) as Hu by by apply pow2_pos.
  revert Hx Hu. generalize (f64_scaled x) as v, one_scaled as u. intros v u Hv Hu.
  assert (v / u < 0) by (apply Z.div_lt_upper_bound; lia).
  assert (0 ≤ - v / u) by (apply Z.div_pos; lia).
  assert (v ÷ u ≤ 0) by (pose proof (Z.quot_opp_l (- v) u ltac:(lia)) as Hq; rewrite Z.opp_involutive in Hq;
    pose proof (Z.quot_pos (- v) u); lia).
  cbv zeta. repeat case_match; lia.
Qed.

Lemma round_nonneg mode x : 0 ≤ f64_scaled x → 0 ≤ round_int mode x.
Proof.
  intros Hx. unfold round_int, round_div. assert (0 < one_scaled) as Hu by by apply pow2_pos.
  revert Hx Hu. generalize (f64_scaled x) as v, one_scaled as u. intros v u Hv Hu.
  assert (0 ≤ v / u) by (apply Z.div_pos; lia).
  assert (- v / u ≤ 0) by (apply Z.div_le_upper_bound; lia).
  assert (0 ≤ v ÷ u) by (apply Z.quot_pos; lia).
  cbv zeta. repeat case_match; lia.
Qed.

Lemma f64_lt_zero x : is_nan_f64 x = false → f64_lt x 0 = (f64_scaled x <? 0).
Proof.
  intros Hx. unfold f64_lt. rewrite Hx, !f64_key_spec. change (is_nan_f64 0) with false. cbn [negb andb].
  apply eq_true_iff_eq. rewrite !Z.ltb_lt, <- !Z.nle_gt, scaled_key_le. change (f64_scaled 0) with 0. done.
Qed.

Section conversions.
Context {E : Type} `{HostFloatLaws E}.
#[local] Existing Instances F_ret F_bind.

(** The rounding mode of an instruction, or the dynamic one; none for the reserved values. *)
Definition guest_mode (rm frm : Z) : option RoundingMode.t :=
  let k := if rm mod 8 =? 7 then frm mod 8 else rm mod 8 in
  [RoundingMode.RNE; RoundingMode.RTZ; RoundingMode.RDN; RoundingMode.RUP; RoundingMode.RMM] !! Z.to_nat k.

Definition rounding (rm frm : Z) : option Z := host_mode <$> guest_mode rm frm.

Lemma map_rm_run rm c (e : E) mode :
  rounding rm (RiscvCpu.frm c) = Some mode → map_rm rm (c, e) = (mode, (c, e)).
Proof.
  unfold map_rm, rounding, guest_mode, mbind, F_bind, get_cpu. cbn [fst snd]. change FRM_MASK with (Z.ones 3). change FRM_DYN with 7.
  rewrite !Z.land_ones by done. change (2 ^ 3) with 8.
  assert (0 ≤ (if rm mod 8 =? 7 then RiscvCpu.frm c mod 8 else rm mod 8) < 8)
    as Hk by (destruct (_ =? 7); apply Z.mod_pos_bound; done).
  revert Hk. generalize (if rm mod 8 =? 7 then RiscvCpu.frm c mod 8 else rm mod 8) as k. intros k Hk Hl.
  assert (k = 0 ∨ k = 1 ∨ k = 2 ∨ k = 3 ∨ k = 4 ∨ k = 5 ∨ k = 6 ∨ k = 7) as Hc by lia.
  destruct_or! Hc; subst k; first [discriminate Hl|injection Hl as <-; reflexivity].
Qed.

Lemma rounding_mode rm frm mode : rounding rm frm = Some mode → mode ∈ modes.
Proof.
  unfold rounding. destruct (guest_mode rm frm) as [m|]; [|done]. intros [= <-].
  unfold modes. rewrite !elem_of_cons. destruct m; auto.
Qed.

(** Rounding a finite number in the guest's mode. *)
Lemma rint_run x rm mode c (e : E) :
  in_width 64 x → f64_is_finite x = true → rounding rm (RiscvCpu.frm c) = Some mode →
  ∃ r fl e', with_fenv_flags rm (rint x) (c, e) = ((r, fl), (c, e')) ∧ f64_is_finite r = true ∧
    f64_scaled r = round_int mode x * one_scaled ∧ f64_is_sign_negative r = f64_is_sign_negative x ∧
    Z.land fl FE_INVALID = 0.
Proof.
  intros Hx Hf Hm. rewrite with_fenv_flags_run. cbv zeta. rewrite (map_rm_run _ _ _ _ Hm). cbn [fst snd].
  pose proof (rint_spec x (fesetround mode (feclearexcept FE_ALL_EXCEPT e)) Hx Hf) as Hr.
  destruct (rint x _) as [r e']. destruct Hr as (_ & Fr & Hs & Hn & Hi).
  rewrite getround_set in Hs by (by eapply rounding_mode). rewrite test_set, test_clear in Hi.
  do 3 eexists. split; [reflexivity|]. auto.
Qed.

Definition NV (c : RiscvCpu.t) : bool := Z.testbit (RiscvCpu.fflags c) 4.

Lemma NV_update c k :
  NV (with_fcsr (Z.land (Z.lor (RiscvCpu.fflags c) k) FFLAGS_MASK) (RiscvCpu.frm c) c) = NV c || Z.testbit k 4.
Proof. unfold NV, with_fcsr. cbn [RiscvCpu.fflags]. by rewrite Z.land_spec, Z.lor_spec, andb_true_r. Qed.

Lemma map_fenv_valid fl : Z.land fl FE_INVALID = 0 → Z.testbit (map_fenv_flags fl) 4 = false.
Proof. intros Hf. unfold map_fenv_flags. rewrite Hf. by repeat case_match. Qed.

(** A conversion to the integers from [lo] to [hi]: the value is rounded as [round] says for the mode the
    instruction asks for, and clamped; invalid operation is raised when it does not fit, and, without a
    sign, for every negative value. *)
Definition converts_by {Mode} (mode_of : Z → Z → option Mode) (round : Mode → Z → Z) (lo hi : Z)
    (h : Z → Z → F (E := E) Z) : Prop :=
  ∀ x rm mode c e, in_width 64 x → mode_of rm (RiscvCpu.frm c) = Some mode →
  let n := round mode x in
  let '(r, (c', _)) := h x rm (c, e) in
  if f64_is_finite x then
    r = u64 (Z.max lo (Z.min hi n)) ∧
    NV c' = NV c || ((if lo =? 0 then f64_scaled x <? 0 else n <? lo) || (hi <? n))
  else r = u64 (if is_nan_f64 x then hi else if f64_is_sign_negative x then lo else hi) ∧ NV c' = true.

(** In the mode of the manual the conversion is served in. *)
Definition converts : Z → Z → (Z → Z → F (E := E) Z) → Prop :=
  converts_by guest_mode (λ m x, RoundingMode.round (RoundingMode.served m) (f64_scaled x) one_scaled).

Lemma converts_guest lo hi h : converts_by rounding round_int lo hi h → converts lo hi h.
Proof.
  intros Hc x rm m c e Hx Hm. cbv zeta. rewrite <- round_div_served by by apply pow2_pos.
  apply (Hc x rm (host_mode m) c e Hx). unfold rounding. by rewrite Hm.
Qed.

Lemma infinite_or_nan x : f64_is_finite x = false → is_nan_f64 x = false → f64_is_infinite x = true.
Proof. unfold f64_is_finite, is_nan_f64, f64_is_infinite. destruct (_ =? 0x7ff), (_ =? 0); done. Qed.
(** The bounds of the range tests. *)
Lemma bounds_scaled :
  f64_scaled I32_MIN_F64 = - 2 ^ 31 * one_scaled ∧ f64_scaled I32_MAX_PLUS1_F64 = 2 ^ 31 * one_scaled ∧
  f64_scaled I64_MIN_F64 = - 2 ^ 63 * one_scaled ∧ f64_scaled I64_MAX_PLUS1_F64 = 2 ^ 63 * one_scaled ∧
  f64_scaled U32_MAX_PLUS1_F64 = 2 ^ 32 * one_scaled ∧ f64_scaled U64_MAX_PLUS1_F64 = 2 ^ 64 * one_scaled.
Proof. by vm_compute. Qed.

Lemma NV_invalid c : NV (with_fcsr (Z.land (Z.lor (RiscvCpu.fflags c) FFLAGS_NV) FFLAGS_MASK) (RiscvCpu.frm c) c) = true.
Proof. rewrite NV_update. apply orb_true_r. Qed.

(** The four conversions, on each of their branches. *)
Ltac by_conversion :=
  intros x rm mode c e Hx Hm n; unfold fcvt_i32, fcvt_i64, fcvt_u32, fcvt_u64;
  destruct (f64_is_finite x) eqn:Hf;
  [ destruct (finite_number x Hf) as [Hnan ->]; rewrite ?f64_lt_zero, Hnan by done;
    try (destruct (f64_scaled x <? 0) eqn:Hneg;
         boolp;
         [ pose proof (round_nonpos mode x Hneg) as Hround; fold n in Hround;
           unfold mbind, F_bind, set_invalid, update_fflags, set_cpu, mret, F_ret; rewrite NV_invalid
         | pose proof (round_nonneg mode x Hneg) as Hround; fold n in Hround ]);
    try (destruct (rint_run x rm mode c e Hx Hf Hm) as (r & fl & e' & Hrun & Fr & Hs & Hsgn & Hfl);
         fold n in Hs;
         pose proof (sign_spec r n Hs) as Hsign; rewrite Hsgn in Hsign;
         unfold mbind at 1, F_bind at 1; rewrite Hrun, Hfl, Fr;
         destruct bounds_scaled as (B1 & B2 & B3 & B4 & B5 & B6))
  | destruct (is_nan_f64 x) eqn:Hnan;
    [|rewrite (infinite_or_nan x Hf Hnan)];
    unfold mbind, F_bind, set_invalid, update_fflags, set_cpu, mret, F_ret; rewrite NV_invalid;
    by destruct (f64_is_sign_negative x) ].

(** After the rounding to [n]: the test of the range decides between the cast and the bound. *)
Ltac by_range spec r n fl :=
  rewrite spec by done; change (negb (0 =? 0)) with false; cbn [negb orb];
  unfold mbind, F_bind, set_invalid, update_fflags, set_cpu, mret, F_ret;
  rewrite ?(to_int_spec r n) by done;
  match goal with |- context [negb ?b] => destruct b eqn:Hrange end; boolp; cbn [negb]; cbv beta iota;
  [rewrite NV_update, map_fenv_valid, orb_false_r by done|rewrite NV_invalid].

(** What is left is arithmetic on [n] and the bounds. *)
Ltac by_bounds lo hi n :=
  repeat match goal with Hs : if ?b then _ else _ |- _ => destruct b end;
  (split;
   [first [reflexivity
          |replace (Z.max lo (Z.min hi n)) with lo by lia; reflexivity
          |replace (Z.max lo (Z.min hi n)) with hi by lia; reflexivity
          |unfold u64; rewrite Z.mod_small by lia; reflexivity]
   |change (lo =? 0) with (ltac:(let b := eval vm_compute in (lo =? 0) in exact b));
    cbn iota; destruct (n <? lo) eqn:Elo, (hi <? n) eqn:Ehi; boolp; cbn [orb];
    rewrite ?orb_false_r, ?orb_true_r; first [reflexivity|lia]]).

Lemma i32_converts : converts_by rounding round_int (- 2 ^ 31) (2 ^ 31 - 1) fcvt_i32.
Proof.
  by_conversion.
  all: try by_range (contains_spec r n Fr Hs I32_MIN_F64 I32_MAX_PLUS1_F64 (- 2 ^ 31) (2 ^ 31)) r n fl.
  all: by_bounds (- 2 ^ 31) (2 ^ 31 - 1) n.
Qed.

Lemma i64_converts : converts_by rounding round_int (- 2 ^ 63) (2 ^ 63 - 1) fcvt_i64.
Proof.
  by_conversion.
  all: try by_range (contains_spec r n Fr Hs I64_MIN_F64 I64_MAX_PLUS1_F64 (- 2 ^ 63) (2 ^ 63)) r n fl.
  all: by_bounds (- 2 ^ 63) (2 ^ 63 - 1) n.
Qed.

Lemma u32_converts : converts_by rounding round_int 0 (2 ^ 32 - 1) fcvt_u32.
Proof.
  by_conversion.
  all: try by_range (contains_spec r n Fr Hs 0 U32_MAX_PLUS1_F64 0 (2 ^ 32)) r n fl.
  all: by_bounds 0 (2 ^ 32 - 1) n.
Qed.

Lemma u64_converts : converts_by rounding round_int 0 (2 ^ 64 - 1) fcvt_u64.
Proof.
  by_conversion.
  all: try by_range (contains_spec r n Fr Hs 0 U64_MAX_PLUS1_F64 0 (2 ^ 64)) r n fl.
  all: by_bounds 0 (2 ^ 64 - 1) n.
Qed.

End conversions.

(** ** Floats of integers *)

(** [n], of [k + 1] bits, as the significand of a normal number: [n * 2 ^ (51 + e)]. *)
Lemma scaled_mag_int n k e :
  2 ^ k ≤ n < 2 ^ (k + 1) → 0 ≤ k ≤ 52 → 1 ≤ k + e →
  scaled_mag ((k + e) * 2 ^ 52 + (n - 2 ^ k) * 2 ^ (52 - k)) = n * 2 ^ (51 + e).
Proof.
  intros Hn Hk He. assert (0 < 2 ^ k) by (apply pow2_pos; lia). assert (0 < 2 ^ (52 - k)) by (apply pow2_pos; lia).
  assert (2 ^ k * 2 ^ (52 - k) = 2 ^ 52) as Hp by (rewrite <- Z.pow_add_r by lia; f_equal; lia).
  rewrite Z.pow_add_r, Z.pow_1_r in Hn by lia.
  assert (0 ≤ (n - 2 ^ k) * 2 ^ (52 - k) < 2 ^ 52) as Hf by nia.
  unfold scaled_mag. rewrite Z.add_comm, Z.div_add, Z.mod_add, Z.div_small, Z.mod_small by done.
  rewrite Z.add_0_l, (proj2 (Z.eqb_neq (k + e) 0)), Z.max_r by lia. rewrite Z.mul_sub_distr_r, Hp.
  replace (2 ^ 52 + (n * 2 ^ (52 - k) - 2 ^ 52)) with (n * 2 ^ (52 - k)) by lia.
  rewrite <- Z.mul_assoc, <- Z.pow_add_r by lia. do 2 f_equal. lia.
Qed.

Lemma lor_shiftl k a y : 0 ≤ k → in_width k y → Z.lor (Z.shiftl a k) y = a * 2 ^ k + y.
Proof. intros Hk Hy. rewrite Z.shiftl_mul_pow2 by done. apply (lor_add_low k); [done..|]. apply Z.mod_mul. pose proof (pow2_pos k Hk). lia. Qed.

(** A float of a sign and a magnitude. *)
Lemma scaled_signed (b : bool) m :
  in_width 63 m →
  let x := Z.lor (Z.shiftl (Z.b2z b) 63) m in
  in_width 64 x ∧ f64_is_sign_negative x = b ∧ f64_scaled x = (if b then - scaled_mag m else scaled_mag m) ∧
  (m < 0x7ff * 2 ^ 52 → f64_is_finite x = true).
Proof.
  intros Hm. cbv zeta. rewrite lor_shiftl by done. unfold in_width in Hm.
  assert ((Z.b2z b * 2 ^ 63 + m) mod 2 ^ 63 = m) as Hmod.
  { rewrite Z.add_comm, Z.mod_add by done. by apply Z.mod_small. }
  assert (f64_is_sign_negative (Z.b2z b * 2 ^ 63 + m) = b) as Hs.
  { unfold f64_is_sign_negative. apply Z.b2z_inj. rewrite Z.testbit_spec', Z.add_comm, Z.div_add, (Z.div_small m) by done.
    by destruct b. }
  split_and!; [destruct b; cbn [Z.b2z]; unfold in_width; lia|done|by rewrite scaled_of_mag, Hmod, Hs|].
  intros Hf. unfold f64_is_finite. rewrite exponent_mag, Hmod. apply negb_true_iff, Z.eqb_neq.
  assert (m / 2 ^ 52 < 0x7ff) by (apply Z.div_lt_upper_bound; lia). lia.
Qed.

(** A finite [f32] in units of [2 ^ -149]. *)
Definition f32_scaled (x : Z) : Z :=
  let exp := Z.land (Z.shiftr x 23) 0xff in
  let frac := Z.land x 0x7fffff in
  let v := if exp =? 0 then frac else (2 ^ 23 + frac) * 2 ^ (exp - 1) in
  if Z.testbit x 31 then - v else v.

Definition f32_is_finite (x : Z) : bool := negb (Z.land (Z.shiftr x 23) 0xff =? 0xff).

Lemma sign_bit x : in_width 32 x → Z.shiftr x 31 = Z.b2z (Z.testbit x 31).
Proof.
  intros Hx. unfold in_width in Hx. rewrite Z.testbit_spec', Z.shiftr_div_pow2 by done. symmetry. apply Z.mod_small.
  split; [apply Z.div_pos; lia|apply Z.div_lt_upper_bound; lia].
Qed.

(** Widening is exact. *)
Lemma widen_exact x :
  in_width 32 x → f32_is_finite x = true →
  in_width 64 (widen x) ∧ f64_is_finite (widen x) = true ∧ f64_scaled (widen x) = f32_scaled x * 2 ^ 925.
Proof.
  intros Hx Hf. unfold widen, f32_scaled. unfold f32_is_finite in Hf. cbv zeta. rewrite (sign_bit x Hx).
  change 0xff with (Z.ones 8) in *. change 0x7fffff with (Z.ones 23). rewrite !Z.land_ones in * by done.
  pose proof (Z.mod_pos_bound (Z.shiftr x 23) (2 ^ 8) ltac:(done)).
  pose proof (Z.mod_pos_bound x (2 ^ 23) ltac:(done)).
  set (exp := Z.shiftr x 23 mod 2 ^ 8) in *. set (frac := x mod 2 ^ 23) in *.
  change (Z.ones 8) with 255 in *. destruct (exp =? 255) eqn:E1; [done|]. boolp.
  assert (∀ m v, in_width 63 m → m < 0x7ff * 2 ^ 52 → scaled_mag m = v * 2 ^ 925 →
    in_width 64 (Z.lor (Z.shiftl (Z.b2z (Z.testbit x 31)) 63) m) ∧
    f64_is_finite (Z.lor (Z.shiftl (Z.b2z (Z.testbit x 31)) 63) m) = true ∧
    f64_scaled (Z.lor (Z.shiftl (Z.b2z (Z.testbit x 31)) 63) m) = (if Z.testbit x 31 then - v else v) * 2 ^ 925) as Hm.
  { intros m v Wm Lm Hv. destruct (scaled_signed (Z.testbit x 31) m Wm) as (W & _ & -> & Fin). rewrite Hv.
    split_and!; [done|by apply Fin|]. destruct (Z.testbit x 31); lia. }
  destruct (exp =? 0) eqn:E0; cbn [negb]; boolp.
  - destruct (frac =? 0) eqn:Ez; boolp; [apply Hm; [done..|]; by rewrite Ez|].
    pose proof (Z.log2_spec frac ltac:(lia)) as Hl. pose proof (Z.log2_nonneg frac) as Hk.
    assert (Z.log2 frac < 23) as Hk' by (apply Z.log2_lt_pow2; lia).
    set (k := Z.log2 frac) in *. unfold Z.succ in Hl.
    assert (2 ^ k * 2 ^ (52 - k) = 2 ^ 52) as Hp by (rewrite <- Z.pow_add_r by lia; f_equal; lia).
    assert (0 < 2 ^ (52 - k)) by (apply pow2_pos; lia).
    rewrite Z.pow_add_r, Z.pow_1_r in Hl by lia. 
    assert (0 ≤ (frac - 2 ^ k) * 2 ^ (52 - k) < 2 ^ 52) as Hfr by nia.
    rewrite (Z.shiftl_mul_pow2 (frac - 2 ^ k)), (lor_shiftl 52) by (done || lia).
    apply Hm; [unfold in_width; lia|lia|]. apply (scaled_mag_int frac k 874); [|lia..].
    rewrite Z.pow_add_r, Z.pow_1_r by lia. lia.
  - rewrite (Z.shiftl_mul_pow2 frac), (lor_shiftl 52) by (done || unfold in_width; lia).
    apply Hm; [unfold in_width; lia|lia|].
    pose proof (scaled_mag_int (2 ^ 23 + frac) 23 (exp + 873) ltac:(lia) ltac:(lia) ltac:(lia)) as Hs.
    replace (23 + (exp + 873)) with (exp + 896) in Hs by lia. replace (2 ^ 23 + frac - 2 ^ 23) with frac in Hs by lia.
    change (52 - 23) with 29 in Hs. rewrite Hs. rewrite <- Z.mul_assoc, <- Z.pow_add_r by lia. do 2 f_equal. lia.
Qed.

(** ** A host *)

(** An environment of a rounding mode and raised exceptions, and the functions on it; [rint] is exact.  The
    arithmetic the laws do not speak of returns a NaN. *)
Module Soft.
Definition Env : Type := Z * Z.

Definition no_number2 (_ _ : Z) (e : Env) : Z * Env := (canonical_nan_f64, e).
Definition no_number1 (_ : Z) (e : Env) : Z * Env := (canonical_nan_f64, e).

(** The float of an integer below [2 ^ 53], with its sign. *)
Definition of_int (b : bool) (n : Z) : Z :=
  let k := Z.log2 n in
  Z.lor (Z.shiftl (Z.b2z b) 63) (if n =? 0 then 0 else (k + 1023) * 2 ^ 52 + (n - 2 ^ k) * 2 ^ (52 - k)).

Definition soft_getround (e : Env) : Z := if bool_decide (e.1 ∈ modes) then e.1 else FE_TONEAREST.

Definition soft_rint (x : Z) (e : Env) : Z * Env :=
  let n := round_int (soft_getround e) x in
  if 0 <=? f64_exponent x then (x, e)
  else (of_int (f64_is_sign_negative x) (Z.abs n),
        if f64_scaled x =? n * one_scaled then e else (e.1, Z.lor e.2 FE_INEXACT)).

#[global] Instance soft : HostFloat Env := {|
  fegetround := soft_getround;
  fesetround r e := (r, e.2);
  fetestexcept x e := Z.land x e.2;
  feclearexcept x e := (e.1, Z.ldiff e.2 x);
  feraiseexcept x e := (e.1, Z.lor e.2 x);
  f32_add := no_number2; f32_sub := no_number2; f32_mul := no_number2; f32_div := no_number2;
  sqrtf := no_number1; fmaf := λ _, no_number2;
  f64_add := no_number2; f64_sub := no_number2; f64_mul := no_number2; f64_div := no_number2;
  sqrt := no_number1; fma := λ _, no_number2;
  rint := soft_rint;
  f32_of_int := no_number1; f64_of_int := no_number1; f32_of_f64 := no_number1;
  widen_nan := no_number1
|}.

(** Rounding stays between integers, and keeps the sign. *)
Lemma round_div_bound mode v u k : 0 < u → - (k * u) ≤ v ≤ k * u → - k ≤ round_div mode v u ≤ k.
Proof.
  intros Hu Hv. unfold round_div.
  assert (- k ≤ v / u) by (apply Z.div_le_lower_bound; lia).
  assert (v / u < k ∨ v / u = k ∧ v mod u = 0) as Hd.
  { pose proof (Z.div_mod v u ltac:(lia)). pose proof (Z.mod_pos_bound v u Hu). nia. }
  assert (- k ≤ - v / u) by (apply Z.div_le_lower_bound; lia).
  assert (- v / u ≤ k) by (apply Z.div_le_upper_bound; lia).
  assert (- k ≤ v ÷ u ≤ k).
  { destruct (decide (0 ≤ v)).
    - rewrite Z.quot_div_nonneg by lia. assert (0 ≤ v / u) by (apply Z.div_pos; lia). lia.
    - pose proof (Z.quot_opp_l (- v) u ltac:(lia)) as Hq. rewrite Z.opp_involutive in Hq.
      rewrite Hq, Z.quot_div_nonneg by lia. assert (0 ≤ - v / u) by (apply Z.div_pos; lia). lia. }
  cbv zeta. repeat case_match; try lia.
  all: destruct Hd as [?|[? Hz]]; [lia|rewrite Hz in *; boolp; try lia].
  all: match goal with Hc : (_ ?= _) = _ |- _ => destruct (Z.compare_spec (2 * 0) u); [..|]; lia || done end.
Qed.

Lemma round_small mode x :
  in_width 64 x → f64_exponent x < 0 → let n := round_int mode x in
  0 ≤ Z.abs n < 2 ^ 53 ∧ (if f64_is_sign_negative x then - Z.abs n else Z.abs n) = n.
Proof.
  intros Hx He n.
  assert (- 2 ^ 52 ≤ n ≤ 2 ^ 52 ∧ if f64_is_sign_negative x then n ≤ 0 else 0 ≤ n) as [Hb Hs].
  { assert (0 < one_scaled) by by apply pow2_pos. split.
    - apply round_div_bound; [done|]. unfold f64_scaled.
      assert (0 ≤ f64_significand x < 2 ^ 53) as Hm.
      { unfold f64_significand. rewrite fraction_mag. pose proof (Z.mod_pos_bound (x mod 2 ^ 63) (2 ^ 52) ltac:(done)).
        destruct (_ =? 0); lia. }
      assert (0 ≤ f64_exponent x + 1074 ≤ 1073) as Hx' by (unfold f64_exponent in *; lia).
      assert (0 < 2 ^ (f64_exponent x + 1074) ≤ 2 ^ 1073) by (split; [apply pow2_pos; lia|apply Z.pow_le_mono_r; lia]).
      assert (2 ^ 52 * one_scaled = 2 ^ 53 * 2 ^ 1073) as -> by (unfold one_scaled; lia).
      generalize dependent (2 ^ (f64_exponent x + 1074)). generalize dependent (2 ^ 1073). intros. cbv zeta.
      destruct (f64_is_sign_negative x); nia.
    - pose proof (scaled_mag_nonneg (x mod 2 ^ 63) (proj1 (Z.mod_pos_bound x (2 ^ 63) eq_refl))) as Hm.
      pose proof (scaled_of_mag x) as Hs. cbv zeta in Hs. destruct (f64_is_sign_negative x).
      + destruct (decide (f64_scaled x < 0)); [by apply round_nonpos|].
        unfold n, round_int. pose proof (round_div_bound mode (f64_scaled x) one_scaled 0). lia.
      + apply round_nonneg. lia. }
  split; [lia|]. destruct (f64_is_sign_negative x); lia.
Qed.

(** A number whose exponent is not negative is an integer. *)
Lemma round_large mode x : 0 ≤ f64_exponent x → f64_scaled x = round_int mode x * one_scaled.
Proof.
  intros He. assert (∃ k, f64_scaled x = k * one_scaled) as [k Hk].
  { unfold f64_scaled, one_scaled. rewrite Z.pow_add_r, Z.mul_assoc by lia. cbv zeta.
    destruct (f64_is_sign_negative x); eexists; [rewrite <- Z.mul_opp_l|]; reflexivity. }
  unfold round_int, round_div. rewrite Hk. assert (one_scaled ≠ 0) as Hu by done.
  rewrite Z.div_mul, Z.mod_mul, <- Z.mul_opp_l, Z.div_mul, Z.quot_mul, Z.opp_involutive by done.
  by repeat case_match.
Qed.

Lemma of_int_spec b n :
  0 ≤ n < 2 ^ 53 →
  in_width 64 (of_int b n) ∧ f64_is_finite (of_int b n) = true ∧
  f64_scaled (of_int b n) = (if b then - n else n) * one_scaled ∧ f64_is_sign_negative (of_int b n) = b.
Proof.
  intros Hn. unfold of_int. set (m := if n =? 0 then 0 else _).
  assert (in_width 63 m ∧ m < 0x7ff * 2 ^ 52 ∧ scaled_mag m = n * one_scaled) as (Wm & Lm & Hs).
  { subst m. destruct (n =? 0) eqn:En; boolp; [by subst|].
    pose proof (Z.log2_spec n ltac:(lia)) as Hl. pose proof (Z.log2_nonneg n) as Hk.
    assert (Z.log2 n < 53) as Hk' by (apply Z.log2_lt_pow2; lia). set (k := Z.log2 n) in *. unfold Z.succ in Hl.
    assert (2 ^ k * 2 ^ (52 - k) = 2 ^ 52) as Hp by (rewrite <- Z.pow_add_r by lia; f_equal; lia).
    assert (0 < 2 ^ (52 - k)) by (apply pow2_pos; lia).
    pose proof (scaled_mag_int n k 1023 Hl ltac:(lia) ltac:(lia)) as Hs.
    rewrite Z.pow_add_r, Z.pow_1_r in Hl by lia.
    assert (0 ≤ (n - 2 ^ k) * 2 ^ (52 - k) < 2 ^ 52) as Hfr by nia.
    split_and!; [unfold in_width; lia|lia|done]. }
  destruct (scaled_signed b m Wm) as (W & Hb & -> & Fin). rewrite Hs.
  split_and!; [done|by apply Fin| |done]. destruct b; lia.
Qed.

Lemma soft_mode e : soft_getround e ∈ modes.
Proof. unfold soft_getround. case_bool_decide; [done|]. unfold modes. set_solver. Qed.

Lemma soft_rint_spec x (e : Env) :
  in_width 64 x → f64_is_finite x = true →
  let '(r, e') := rint x e in
  in_width 64 r ∧ f64_is_finite r = true ∧ f64_scaled r = round_int (fegetround e) x * one_scaled ∧
  f64_is_sign_negative r = f64_is_sign_negative x ∧
  (fetestexcept FE_ALL_EXCEPT e = 0 → Z.land (fetestexcept FE_ALL_EXCEPT e') FE_INVALID = 0).
Proof.
  intros Hx Hf. unfold rint, soft, soft_rint, fegetround, fetestexcept. destruct (0 <=? f64_exponent x) eqn:He; boolp.
  - split_and!; [done..|by apply round_large|done|]. intros ->. done.
  - destruct (round_small (soft_getround e) x Hx He) as [Hn Hs]. cbv zeta in Hs.
    destruct (of_int_spec (f64_is_sign_negative x) _ Hn) as (W & F & Hsc & Hsg). rewrite Hs in Hsc.
    split_and!; [done..|]. intros He0. destruct (_ =? _); cbn [snd]; [by rewrite He0|].
    by rewrite Z.land_lor_distr_r, He0.
Qed.

#[global] Instance soft_laws : HostFloatLaws Env.
Proof.
  split.
  - apply soft_mode.
  - intros r e Hr. unfold fegetround, fesetround, soft, soft_getround. cbn [fst]. by rewrite bool_decide_true.
  - done.
  - done.
  - done.
  - intros e. unfold fetestexcept, feclearexcept, soft. cbn [snd]. apply Z.bits_inj'. intros i Hi.
    rewrite Z.land_spec, Z.ldiff_spec, Z.bits_0. by destruct (Z.testbit FE_ALL_EXCEPT i), (Z.testbit e.2 i).
  - intros e e'. unfold fetestexcept, feraiseexcept, soft. cbn [snd]. apply Z.bits_inj'. intros i Hi.
    rewrite !Z.land_spec, !Z.lor_spec, !Z.land_spec. by destruct (Z.testbit FE_ALL_EXCEPT i), (Z.testbit e.2 i), (Z.testbit e'.2 i).
  - done.
  - apply soft_rint_spec.
Qed.
End Soft.

(** ** The claims *)

(** C19. Whatever helper translated code calls, with whatever arguments: of the guest's CPU only the accrued
    exceptions change, none of them is dropped and the field stays within its five bits; the host gets its
    rounding mode back, and its raised exceptions, but for conversions that first widen a single. *)
Theorem fpu_call_confined E `{HostFloatLaws E} h args c e :
  let '(c', e') := (Fpu.call h args (c, e)).2 in
  (∃ fl, c' = with_fcsr fl (RiscvCpu.frm c) c ∧ sticky (RiscvCpu.fflags c) fl) ∧
  fegetround e' = fegetround e ∧
  (widens h = false → fetestexcept FE_ALL_EXCEPT e' = fetestexcept FE_ALL_EXCEPT e).
Proof.
  pose proof (confined_call h args c e) as (Hc & Hr & He). destruct (Fpu.call h args (c, e)) as [r [c' e']].
  split; [done|]. split; [done|]. intros Hw. apply He. by rewrite Hw.
Qed.

Definition demo_cpu : RiscvCpu.t := with_fcsr 1 2 RiscvCpu.new.

Lemma fpu_call_confined_witness :
  Soft.soft_getround (Fpu.call Helper.helper_fcvt_w_d [0x4004000000000000; 7] (demo_cpu, (FE_UPWARD, FE_OVERFLOW))).2.2 =
    FE_UPWARD ∧
  Fpu.call Helper.helper_fcvt_w_d [0x4004000000000000; 7] (demo_cpu, (FE_UPWARD, FE_OVERFLOW)) =
    (2, (demo_cpu, (FE_UPWARD, FE_OVERFLOW))).
Proof.
  split; [|by vm_compute].
  pose proof (fpu_call_confined Soft.Env Helper.helper_fcvt_w_d [0x4004000000000000; 7] demo_cpu (FE_UPWARD, FE_OVERFLOW)) as Hc.
  destruct (Fpu.call _ _ _) as [r [c' e']]. exact (proj1 (proj2 Hc)).
Defined.

(** C10. Conversions of a finite double to 32- and 64-bit integers round in the mode the instruction or
    [frm] names - to nearest with ties to even, towards zero, down or up - and saturate, raising invalid
    operation when the result does not fit, and for negative values where the integer has no sign;
    infinities saturate by sign and a NaN gives the largest integer.  Mode 4, ties to the larger magnitude,
    is served as ties to even, which is a departure from the manual for values halfway between two integers
    and for no others.  The reserved modes are not covered.  A single that is a number is first widened,
    which is exact. *)
Theorem fcvt_rounds_and_saturates E `{HostFloatLaws E} :
  (converts (- 2 ^ 31) (2 ^ 31 - 1) helper_fcvt_w_d ∧ converts 0 (2 ^ 32 - 1) helper_fcvt_wu_d ∧
   converts (- 2 ^ 63) (2 ^ 63 - 1) helper_fcvt_l_d ∧ converts 0 (2 ^ 64 - 1) helper_fcvt_lu_d) ∧
  (∀ m x, m ≠ RoundingMode.RMM ∨ ¬ halfway x →
    RoundingMode.round (RoundingMode.served m) (f64_scaled x) one_scaled = RoundingMode.round m (f64_scaled x) one_scaled) ∧
  ∀ a rm s, let x := read_f32_bits a in is_nan_f32 x = false →
    helper_fcvt_w_s a rm s = helper_fcvt_w_d (widen x) rm s ∧
    helper_fcvt_wu_s a rm s = helper_fcvt_wu_d (widen x) rm s ∧
    helper_fcvt_l_s a rm s = helper_fcvt_l_d (widen x) rm s ∧
    helper_fcvt_lu_s a rm s = helper_fcvt_lu_d (widen x) rm s ∧
    (f32_is_finite x = true →
     in_width 64 (widen x) ∧ f64_is_finite (widen x) = true ∧ f64_scaled (widen x) = f32_scaled x * 2 ^ 925).
Proof.
  split; [|split].
  - split_and!; apply converts_guest; [apply i32_converts|apply u32_converts|apply i64_converts|apply u64_converts].
  - intros m x Hm. destruct m; try done. destruct Hm as [?|Hh]; [done|]. symmetry. apply round_nearest_agree; [by apply pow2_pos|done].
  - intros a rm s x Hx. unfold helper_fcvt_w_s, helper_fcvt_wu_s, helper_fcvt_l_s, helper_fcvt_lu_s, f64_of_f32.
    cbv zeta. fold x. rewrite Hx. split_and!; [done..|]. apply widen_exact, read_f32_bits_width.
Qed.

(** 2.5 upwards, to an unsigned number; 2.5 with ties to the larger magnitude is 2, not 3; 2 ^ 63 does not fit. *)
Lemma fcvt_rounds_and_saturates_witness :
  (let '(r, (c', _)) := helper_fcvt_wu_d 0x4004000000000000 3 (demo_cpu, (FE_TONEAREST, 0)) in r = 3 ∧ NV c' = false) ∧
  (let '(r, (c', _)) := helper_fcvt_wu_d 0x4004000000000000 4 (demo_cpu, (FE_TONEAREST, 0)) in r = 2 ∧ NV c' = false) ∧
  RoundingMode.round RoundingMode.RMM (f64_scaled 0x4004000000000000) one_scaled = 3 ∧
  (let '(r, (c', _)) := helper_fcvt_l_d 0x43e0000000000000 0 (demo_cpu, (FE_TONEAREST, 0)) in r = 2 ^ 63 - 1 ∧ NV c' = true).
Proof.
  destruct (fcvt_rounds_and_saturates Soft.Env) as [(_ & Hwu & Hl & _) _]. split; [|split; [|split; [vm_compute; reflexivity|]]].
  - pose proof (Hwu 0x4004000000000000 3 RoundingMode.RUP demo_cpu (FE_TONEAREST, 0) ltac:(unfold in_width; lia) eq_refl) as Hc.
    destruct (helper_fcvt_wu_d _ _ _) as [r [c' e']]. exact Hc.
  - pose proof (Hwu 0x4004000000000000 4 RoundingMode.RMM demo_cpu (FE_TONEAREST, 0) ltac:(unfold in_width; lia) eq_refl) as Hc.
    destruct (helper_fcvt_wu_d _ _ _) as [r [c' e']]. exact Hc.
  - pose proof (Hl 0x43e0000000000000 0 RoundingMode.RNE demo_cpu (FE_TONEAREST, 0) ltac:(unfold in_width; lia) eq_refl) as Hc.
    destruct (helper_fcvt_l_d _ _ _) as [r [c' e']]. exact Hc.
Defined.

(** The minimum of +0 and -0 is -0, and the maximum of a number and a NaN is the number. *)
Lemma float_order_witness :
  helper_fmin_d 0 (2 ^ 63) (demo_cpu, (0, 0)) = (2 ^ 63, (demo_cpu, (0, 0))) ∧
  helper_fmax_d 0x3ff0000000000000 canonical_nan_f64 (demo_cpu, (0, 0)) = (0x3ff0000000000000, (demo_cpu, (0, 0))).
Proof.
  destruct (float_order (E := Soft.Env)) as [_ Hd]. split.
  - exact (proj1 (Hd 0 (2 ^ 63) (demo_cpu, (0, 0)) ltac:(unfold in_width; lia) ltac:(unfold in_width; lia))).
  - exact (proj1 (proj2 (Hd 0x3ff0000000000000 canonical_nan_f64 (demo_cpu, (0, 0)) ltac:(unfold in_width; lia)
      ltac:(unfold in_width, canonical_nan_f64; lia)))).
Defined.
