(* ===== verification/Text.v ===== *)
(** * Rust's text operations

    What the decoder generator and the disassembler use of Rust's [str], [String],
    [format!] and [BTreeMap], on ASCII text: a character is a byte.  A [Result] whose error
    is a message is [Result]. *)

From Stdlib Require Export Ascii String.
From stdpp Require Import strings.
From S2P Require Import Prelude.

#[local] Open Scope string_scope.
#[local] Open Scope Z_scope.

(** ** [Result<A, String>] *)

Inductive Result (A : Type) : Type :=
  | Ok (a : A)
  | Err (e : string).
Arguments Ok {A} a.
Arguments Err {A} e.

#[export] Instance result_ret : MRet Result := @Ok.
#[export] Instance result_bind : MBind Result := λ A B f m,
  match m with Ok a => f a | Err e => Err e end.

Definition map_err {A} (f : string → string) (m : Result A) : Result A :=
  match m with Ok a => Ok a | Err e => Err (f e) end.

Definition is_ok {A} (m : Result A) : bool := if m then true else false.

(** ** Characters *)

Definition code (c : ascii) : Z := Z.of_N (N_of_ascii c).

Definition between (lo hi : Z) (c : ascii) : bool := (lo <=? code c) && (code c <=? hi).

(** Tab, line feed, vertical tab, form feed, carriage return and space. *)
Definition is_whitespace (c : ascii) : bool := between 9 13 c || (code c =? 32).
Definition is_ascii_digit (c : ascii) : bool := between 48 57 c.
Definition is_alphanumeric (c : ascii) : bool := is_ascii_digit c || between 65 90 c || between 97 122 c.

Definition to_ascii_uppercase (c : ascii) : ascii :=
  if between 97 122 c then ascii_of_N (Z.to_N (code c - 32)) else c.

Definition lf : ascii := ascii_of_N 10.
Definition cr : ascii := ascii_of_N 13.
Definition nl : string := String lf "".

(** ** [str] *)

Fixpoint chars (s : string) : list ascii :=
  match s with "" => [] | String c s => c :: chars s end.

Fixpoint of_chars (l : list ascii) : string :=
  match l with [] => "" | c :: l => String c (of_chars l) end.

Definition is_empty (s : string) : bool := match s with "" => true | _ => false end.

Fixpoint trim_start (s : string) : string :=
  match s with
  | String c r => if is_whitespace c then trim_start r else s
  | "" => ""
  end.

Fixpoint trim_end (s : string) : string :=
  match s with
  | "" => ""
  | String c r =>
      match trim_end r with
      | "" => if is_whitespace c then "" else String c ""
      | r => String c r
      end
  end.

Definition trim (s : string) : string := trim_end (trim_start s).

(** [s.split_once(c)], which is also [s.find(c)] with the text before and after it. *)
Fixpoint split_once (c : ascii) (s : string) : option (string * string) :=
  match s with
  | "" => None
  | String d r =>
      if Ascii.eqb c d then Some ("", r)
      else '(a, b) ← split_once c r; Some (String d a, b)
  end.

Fixpoint strip_prefix (p s : string) : option string :=
  match p, s with
  | "", _ => Some s
  | String a p, String b s => if Ascii.eqb a b then strip_prefix p s else None
  | _, _ => None
  end.

Definition starts_with (p s : string) : bool := if strip_prefix p s then true else false.

(** [s[1..]] *)
Definition skip_first (s : string) : string := match s with "" => "" | String _ r => r end.

(** Whether the first character satisfies [p]. *)
Definition head_is (p : ascii → bool) (s : string) : bool :=
  match s with "" => false | String c _ => p c end.

Fixpoint split_whitespace (s : string) : list string :=
  match s with
  | "" => []
  | String c r =>
      let ws := split_whitespace r in
      if is_whitespace c then ws
      else if is_empty r || head_is is_whitespace r then String c "" :: ws
      else match ws with w :: ws => String c w :: ws | [] => [String c ""] end
  end.

(** Lines end at a line feed, with the carriage return before it if there is one. *)
Fixpoint lines (s : string) : list string :=
  match s with
  | "" => []
  | String c r =>
      let ls := lines r in
      if Ascii.eqb c lf then "" :: ls
      else if Ascii.eqb c cr && head_is (Ascii.eqb lf) r then ls
      else match ls with [] => [String c ""] | l :: ls => String c l :: ls end
  end.

(** ** Numbers *)

(** [ParseIntError], displayed. *)
Definition empty_error := "cannot parse integer from empty string".
Definition digit_error := "invalid digit found in string".
Definition pos_overflow := "number too large to fit in target type".
Definition neg_overflow := "number too small to fit in target type".

(** Digits from the most significant; the first error stops. *)
Fixpoint parse_digits (lo hi sign : Z) (l : list ascii) (acc : Z) : Result Z :=
  match l with
  | [] => Ok acc
  | c :: l =>
      if is_ascii_digit c then
        let acc := acc * 10 + sign * (code c - 48) in
        if hi <? acc then Err pos_overflow
        else if acc <? lo then Err neg_overflow else parse_digits lo hi sign l acc
      else Err digit_error
  end.

Definition minus : ascii := "-".
Definition plus : ascii := "+".

(** [s.parse::<u32>()] *)
Definition parse_u32 (s : string) : Result Z :=
  match chars s with
  | [] => Err empty_error
  | c :: l =>
      if Ascii.eqb c plus || Ascii.eqb c minus then
        match l with
        | [] => Err digit_error
        | _ => if Ascii.eqb c plus then parse_digits 0 (2 ^ 32 - 1) 1 l 0 else Err digit_error
        end
      else parse_digits 0 (2 ^ 32 - 1) 1 (c :: l) 0
  end.

(** [s.parse::<i32>()] *)
Definition parse_i32 (s : string) : Result Z :=
  match chars s with
  | [] => Err empty_error
  | c :: l =>
      if Ascii.eqb c plus || Ascii.eqb c minus then
        match l with
        | [] => Err digit_error
        | _ => parse_digits (- 2 ^ 31) (2 ^ 31 - 1) (if Ascii.eqb c plus then 1 else -1) l 0
        end
      else parse_digits (- 2 ^ 31) (2 ^ 31 - 1) 1 (c :: l) 0
  end.

(** The digit of a value below 16, in lower case. *)
Definition digit (d : Z) : ascii :=
  ascii_of_N (Z.to_N (if d <? 10 then 48 + d else 87 + d)).

(** The digits of [n] in [base], put before [acc]; [fuel] bounds their number. *)
Fixpoint digits (fuel : nat) (base n : Z) (acc : string) : string :=
  match fuel with
  | O => acc
  | S fuel =>
      let acc := String (digit (n mod base)) acc in
      if n / base =? 0 then acc else digits fuel base (n / base) acc
  end.

(** [{}] of an integer of at most 64 bits. *)
Definition dec (n : Z) : string :=
  if n <? 0 then "-" +:+ digits 20 10 (- n) "" else digits 20 10 n "".

(** [{:x}] *)
Definition hex (n : Z) : string := digits 16 16 n "".

(** [{:#x}] *)
Definition alt_hex (n : Z) : string := "0x" +:+ hex n.

(** [{:#0wx}]: zeros between the prefix and the digits, [w] characters in all. *)
Fixpoint zeros (n : nat) : string := match n with O => "" | S n => String "0" (zeros n) end.

Definition padded_hex (w : nat) (n : Z) : string :=
  "0x" +:+ zeros (w - 2 - String.length (hex n)) +:+ hex n.

(** [writeln!] of a line that is already formatted. *)
Definition writeln (s : string) : string := s +:+ nl.

Definition concat : list string → string := foldr String.append "".

(** ** [BTreeMap<String, A>]: pairs in increasing order of their keys *)

Lemma compare_refl s : String.compare s s = Eq.
Proof. induction s as [|c s IH]; [done|]. cbn. unfold Ascii.compare. by rewrite N.compare_refl. Qed.

Module BTree.
Section btree.
Context {A : Type}.

Definition t : Type := list (string * A).

Fixpoint get (k : string) (m : list (string * A)) : option A :=
  match m with
  | [] => None
  | (k', x) :: m => if String.eqb k k' then Some x else get k m
  end.

Definition contains_key (k : string) (m : list (string * A)) : bool := if get k m then true else false.

Fixpoint insert (k : string) (x : A) (m : list (string * A)) : list (string * A) :=
  match m with
  | [] => [(k, x)]
  | (k', y) :: m' =>
      match String.compare k k' with
      | Eq => (k, x) :: m'
      | Lt => (k, x) :: m
      | Gt => (k', y) :: insert k x m'
      end
  end.

(** [m.entry(k).or_insert(x)] *)
Definition or_insert (k : string) (x : A) (m : list (string * A)) : list (string * A) :=
  if get k m then m else insert k x m.

(** [m.extend(l)], [l] in its own order. *)
Definition extend (m l : list (string * A)) : list (string * A) :=
  foldl (λ m '(k, x), insert k x m) m l.

Definition keys (m : list (string * A)) : list string := m.*1.
Definition values (m : list (string * A)) : list A := m.*2.

(** Each key after the one before it. *)
Fixpoint sorted (m : list (string * A)) : bool :=
  match m with
  | (k, _) :: ((k', _) :: _) as m' =>
      match String.compare k k' with Lt => sorted m' | _ => false end
  | _ => true
  end.

Lemma get_insert k x k' m :
  get k' (insert k x m) = if String.eqb k' k then Some x else get k' m.
Proof.
  induction m as [|[k0 y] m IH]; cbn [insert get]; [done|].
  destruct (String.compare k k0) eqn:E; cbn [get].
  - apply String.compare_eq_iff in E. subst. by destruct (String.eqb k' k0).
  - by destruct (String.eqb k' k).
  - rewrite IH. destruct (String.eqb k' k) eqn:E1, (String.eqb k' k0) eqn:E2; try done.
    apply String.eqb_eq in E1 as ->. apply String.eqb_eq in E2 as ->.
    by rewrite compare_refl in E.
Qed.

Lemma get_or_insert k x k' m :
  get k' (or_insert k x m) =
  if String.eqb k' k then Some (default x (get k m)) else get k' m.
Proof.
  unfold or_insert. destruct (get k m) eqn:E.
  - destruct (String.eqb k' k) eqn:E1; [|done]. apply String.eqb_eq in E1 as ->. done.
  - apply get_insert.
Qed.

Lemma get_extend k m l :
  get k (extend m l) =
  match list_find (λ kx, kx.1 = k) (reverse l) with Some (_, (_, x)) => Some x | None => get k m end.
Proof.
  unfold extend. induction l as [|[k' x] l IH] using rev_ind; [done|].
  rewrite foldl_app, reverse_app. cbn. rewrite get_insert.
  destruct (String.eqb k k') eqn:E.
  - apply String.eqb_eq in E as ->. by rewrite decide_True by done.
  - apply String.eqb_neq in E. rewrite decide_False by done. rewrite IH.
    by destruct (list_find _ _) as [[? [? ?]]|].
Qed.
End btree.
Arguments t : clear implicits.
End BTree.

(** ** Lemmas *)

Lemma parse_digits_range lo hi sign l acc n :
  lo ≤ acc ≤ hi → parse_digits lo hi sign l acc = Ok n → lo ≤ n ≤ hi.
Proof.
  revert acc. induction l as [|c l IH]; intros acc Hacc; cbn [parse_digits].
  - by intros [= ->].
  - destruct (is_ascii_digit c); [|done]. cbn zeta. case_match; [done|]. case_match; [done|].
    boolp. apply IH. lia.
Qed.

Lemma parse_u32_range s n : parse_u32 s = Ok n → 0 ≤ n < 2 ^ 32.
Proof.
  unfold parse_u32. destruct (chars s) as [|c l]; [done|]. intros H.
  enough (0 ≤ n ≤ 2 ^ 32 - 1) by lia.
  repeat case_match; try done; eapply parse_digits_range; try exact H; lia.
Qed.

Lemma append_assoc (a b c : string) : (a +:+ b) +:+ c = a +:+ (b +:+ c).
Proof. induction a as [|x a IH]; [done|]. exact (f_equal (String x) IH). Qed.

Lemma append_nil_r (a : string) : a +:+ "" = a.
Proof. induction a as [|x a IH]; [done|]. exact (f_equal (String x) IH). Qed.

Lemma chars_app a b : chars (a +:+ b) = (chars a ++ chars b)%list.
Proof. induction a as [|x a IH]; [done|]. exact (f_equal (cons x) IH). Qed.

Lemma concat_app a b : concat (a ++ b) = concat a +:+ concat b.
Proof. induction a as [|x a IH]; [done|]. cbn. by rewrite IH, append_assoc. Qed.
