(* ===== verification/Dump.v ===== *)
(** * Dumping the IR as text (core/src/dump.rs)

    The writer is a buffer, whose writes do not fail; the text is what it receives.  The annotation of
    [dump_ops_with] is a function of the pc. *)

From stdpp Require Import strings.
From S2P Require Import Prelude Types Opcodes Ir Text Serialize.

#[local] Open Scope string_scope.
#[local] Open Scope Z_scope.

Definition cond_name (c : Z) : string :=
  match c with
  | 0 => "never" | 1 => "always" | 8 => "eq" | 9 => "ne" | 10 => "lt" | 11 => "ge" | 12 => "le" | 13 => "gt"
  | 14 => "ltu" | 15 => "geu" | 16 => "leu" | 17 => "gtu" | 18 => "tsteq" | 19 => "tstne"
  | _ => "???"
  end.

(** [$0x{v:x}] *)
Definition dollar_hex (v : Z) : string := "$" +:+ alt_hex v.

(** A temp beyond the table is shown as its index. *)
Definition fmt_temp (ctx : Context) (idx : Z) : option string :=
  if nb_temps ctx <=? idx then Some (dollar_hex idx)
  else
    t ← temp ctx idx;
    Some match Temp.kind t with
         | TempKind.Const => dollar_hex (Temp.val t)
         | TempKind.Global => match Temp.name t with Some name => name | None => "g" +:+ dec idx end
         | TempKind.Fixed =>
             match Temp.name t with
             | Some name => name
             | None => "fixed(" +:+ dec (default 0 (Temp.reg t)) +:+ ")"
             end
         | TempKind.Ebb | TempKind.Tb => "tmp" +:+ dec (u32 (u32 idx - nb_globals ctx))
         end.

Definition op_name (op : Op.t) : string :=
  let name := def_name (def (Op.opc op)) in
  if is_int_polymorphic (Op.opc op) then
    name +:+ match Op.op_type op with Type_.I32 => "_i32" | Type_.I64 => "_i64" | _ => "" end
  else name.

(** The items, each after a space, and after a comma but for the first, unless something goes before. *)
Fixpoint items {A} (fmt : A → option string) (before : bool) (l : list A) : option string :=
  match l with
  | [] => Some ""
  | a :: l =>
      s ← fmt a;
      rest ← items fmt true l;
      Some ((if before then "," else "") +:+ " " +:+ s +:+ rest)
  end.

(** [(hi << 32) | lo] of two constant arguments *)
Definition wide (cargs : list Z) : option Z :=
  lo ← cargs.[0];
  hi ← cargs.[1];
  Some (Z.lor (u64 (Z.shiftl hi 32)) lo).

Definition dump_cargs (op : Op.t) : option string :=
  let cargs := Op.cargs op in
  match Op.opc op with
  | Opcode.BrCond =>
      cond ← cargs.[0];
      label ← cargs.[1];
      Some (", " +:+ cond_name cond +:+ ", L" +:+ dec label)
  | Opcode.SetCond | Opcode.NegSetCond | Opcode.MovCond | Opcode.CmpVec | Opcode.CmpselVec =>
      cond ← cargs.[0];
      Some (", " +:+ cond_name cond)
  | Opcode.Br =>
      label ← cargs.[0];
      Some (" L" +:+ dec label)
  | Opcode.Call =>
      addr ← wide cargs;
      Some (", " +:+ dollar_hex addr)
  | _ =>
      let has_prev := negb (bool_decide (Op.oargs op = [])) || negb (bool_decide (Op.iargs op = [])) in
      items (λ c, Some (dollar_hex c)) has_prev cargs
  end.

Definition dump_op (insn_anno : Z → string) (ctx : Context) (op : Op.t) : option string :=
  match Op.opc op with
  | Opcode.InsnStart =>
      pc ← wide (Op.cargs op);
      Some (writeln (" ---- " +:+ padded_hex 18 pc +:+ insn_anno pc) +:+
            writeln (" insn_start " +:+ dollar_hex pc))
  | Opcode.SetLabel =>
      label_id ← (Op.cargs op).[0];
      Some (writeln (" L" +:+ dec label_id +:+ ":"))
  | _ =>
      outs ← items (fmt_temp ctx) false (Op.oargs op);
      ins ← items (fmt_temp ctx) (negb (bool_decide (Op.oargs op = []))) (Op.iargs op);
      consts ← dump_cargs op;
      Some (writeln (" " +:+ op_name op +:+ outs +:+ ins +:+ consts))
  end.

Definition dump_ops_with (insn_anno : Z → string) (ctx : Context) : option string :=
  Text.concat <$> mapM (dump_op insn_anno ctx) (ops ctx).

Definition dump_ops : Context → option string := dump_ops_with (λ _, "").

(** ** Every context has a dump *)

Lemma fmt_temp_total ctx idx : 0 ≤ idx → is_Some (fmt_temp ctx idx).
Proof.
  intros Hi. unfold fmt_temp. destruct (nb_temps ctx <=? idx) eqn:Hn; [by eexists|]. boolp.
  assert (idx < zlen (temps ctx)) as Hl.
  { unfold nb_temps, u32 in Hn. pose proof (Z.mod_le (zlen (temps ctx)) (2 ^ 32) (zlen_nonneg _)). lia. }
  destruct (proj2 (zlookup_lt_is_Some (temps ctx) idx) ltac:(lia)) as [t Ht]. unfold temp. rewrite Ht. by eexists.
Qed.

(** The arguments of an op, in the three parts the table says. *)
Lemma cargs_length op : List.length (Op.args op) = 10%nat → List.length (Op.cargs op) = Z.to_nat (nb_cargs (def (Op.opc op))).
Proof.
  intros Hl. unfold Op.cargs, Op.slice. rewrite length_take, length_drop.
  pose proof (nb_counts (Op.opc op)). unfold nb_args in *. lia.
Qed.

Lemma Forall_slice (P : Z → Prop) l a n : Forall P l → Forall P (Op.slice l a n).
Proof. intros. by apply Forall_take, Forall_drop. Qed.

Lemma items_total {A} (fmt : A → option string) before l :
  Forall (λ a, is_Some (fmt a)) l → is_Some (items fmt before l).
Proof.
  intros Hl. revert before. induction Hl as [|a l [s Hs] _ IH]; intros before; [by eexists|]. cbn [items].
  rewrite Hs. destruct (IH true) as [r Hr]. cbn [mbind option_bind]. rewrite Hr. by eexists.
Qed.

(** No op makes the dump panic: the table gives the ops that are shown specially enough constants. *)
Lemma dump_op_total anno ctx op :
  List.length (Op.args op) = 10%nat → Forall (Z.le 0) (Op.args op) → is_Some (dump_op anno ctx op).
Proof.
  intros Hl Hp. pose proof (cargs_length op Hl) as Hc.
  destruct (items_total (fmt_temp ctx) false (Op.oargs op)) as [so Ho].
  { eapply Forall_impl; [by apply Forall_slice|]. apply fmt_temp_total. }
  destruct (items_total (fmt_temp ctx) (negb (bool_decide (Op.oargs op = []))) (Op.iargs op)) as [si Hi].
  { eapply Forall_impl; [by apply Forall_slice|]. apply fmt_temp_total. }
  assert (∀ i, 0 ≤ i < nb_cargs (def (Op.opc op)) → is_Some ((Op.cargs op).[i])) as Hs.
  { intros i Hi'. apply zlookup_lt_is_Some. unfold zlen. lia. }
  assert (is_Some (dump_cargs op)) as [sc Hsc].
  { unfold dump_cargs, wide. revert Hs. destruct (Op.opc op); intros Hs;
      first [apply items_total, Forall_true; intros ?; by eexists
            |destruct (Hs 0 ltac:(done)) as [? ->]; first [by eexists|destruct (Hs 1 ltac:(done)) as [? ->]; by eexists]]. }
  unfold dump_op, wide. rewrite Ho, Hi, Hsc. revert Hs. clear. destruct (Op.opc op); intros Hs; try by eexists.
  all: destruct (Hs 0 ltac:(done)) as [? ->]; first [by eexists|destruct (Hs 1 ltac:(done)) as [? ->]; by eexists].
Qed.

Theorem dump_ops_total anno ctx :
  Forall (λ op, List.length (Op.args op) = 10%nat ∧ Forall (Z.le 0) (Op.args op)) (ops ctx) →
  is_Some (dump_ops_with anno ctx).
Proof.
  intros Ho. unfold dump_ops_with. apply fmap_is_Some, mapM_is_Some_2. eapply Forall_impl; [exact Ho|].
  intros op [Hl Hp]. by apply dump_op_total.
Qed.

(** ** A context that is written and read back has the same dump *)

Lemma stored_args op i :
  List.length (Op.args op) = 10%nat → Op.nargs op = nb_args (def (Op.opc op)) →
  let op' := stored_op i op in
  Op.oargs op' = Op.oargs op ∧ Op.iargs op' = Op.iargs op ∧ Op.cargs op' = Op.cargs op.
Proof.
  intros Hl Hn. unfold Op.oargs, Op.iargs, Op.cargs, Op.slice, stored_op, MAX_OP_ARGS. cbn [Op.args Op.opc].
  pose proof (nb_counts (Op.opc op)). rewrite Hn. unfold nb_args in *.
  assert (∀ a n k, (a + n ≤ k)%nat → (k ≤ 10)%nat →
    take n (drop a (take k (Op.args op) ++ replicate (10 - k) 0)) = take n (drop a (Op.args op))) as Ht.
  { intros a n k Hk Hk'. rewrite drop_app_le by (rewrite length_take; lia).
    rewrite take_app_le by (rewrite length_drop, length_take; lia).
    rewrite <- (take_drop k (Op.args op)) at 2. rewrite drop_app_le by (rewrite length_take; lia).
    by rewrite take_app_le by (rewrite length_drop, length_take; lia). }
  set (k := Z.to_nat (nb_oargs _ + _ + _)).
  replace (Z.to_nat (10 - _)) with (10 - k)%nat by lia.
  split_and!; apply Ht; lia.
Qed.

Lemma items_ext {A} (f g : A → option string) before l : (∀ a, f a = g a) → items f before l = items g before l.
Proof.
  intros Hf. revert before. induction l as [|a l IH]; intros before; [done|]. cbn [items]. by rewrite Hf, IH.
Qed.

Lemma mapM_imap {A B C} (f : B → option C) (g : nat → A → B) (h : A → option C) l :
  (∀ i x, x ∈ l → f (g i x) = h x) → mapM f (imap g l) = mapM h l.
Proof.
  revert g. induction l as [|x l IH]; intros g Hf; [done|]. rewrite imap_cons. cbn [mapM].
  rewrite Hf, IH; [done| |by constructor]. intros i y Hy. apply (Hf (S i)). by constructor.
Qed.

(** The text of a temp is made of what is stored. *)
Lemma stored_fmt_temp ctx os ls idx :
  fmt_temp (from_raw_parts (imap (λ i, stored_temp (Z.of_nat i)) (temps ctx)) os ls (nb_globals ctx)) idx =
  fmt_temp ctx idx.
Proof.
  unfold fmt_temp, nb_temps, temp, zlen, from_raw_parts. cbn [temps nb_globals]. rewrite length_imap.
  destruct (_ <=? idx); [done|]. unfold zlookup. rewrite length_imap.
  destruct (_ && _); [|done]. rewrite list_lookup_imap. by destruct (temps ctx !! _).
Qed.

Theorem dump_read_back anno ctx ctx' :
  Forall (λ op, List.length (Op.args op) = 10%nat ∧ Op.nargs op = nb_args (def (Op.opc op))) (ops ctx) →
  stored_context ctx = Some ctx' → dump_ops_with anno ctx' = dump_ops_with anno ctx.
Proof.
  intros Ho Hc. apply bind_Some in Hc as (ls & _ & [= <-]). unfold dump_ops_with. f_equal.
  unfold from_raw_parts at 2. cbn [ops]. apply mapM_imap. intros i op Hop.
  rewrite Forall_forall in Ho. destruct (Ho op Hop) as [Hl Hn].
  destruct (stored_args op (Z.of_nat i) Hl Hn) as (E1 & E2 & E3).
  set (ctx' := from_raw_parts _ _ _ _).
  assert (∀ before l, items (fmt_temp ctx') before l = items (fmt_temp ctx) before l) as Hf
    by (intros; apply items_ext, stored_fmt_temp).
  unfold dump_op, dump_cargs, op_name. by rewrite E1, E2, E3, !Hf.
Qed.

(** An op with a constant, a label and an instruction start. *)
Example dump_example :
  dump_ops (from_raw_parts
    [Temp.new_fixed 0 Type_.I64 5 "env"; Temp.new_global 1 Type_.I64 0 8 "pc"; Temp.new_const 2 Type_.I64 0x10;
     Temp.new_ebb 3 Type_.I64]
    [Op.with_args 0 Opcode.InsnStart Type_.I64 [0x1000; 0]; Op.with_args 1 Opcode.Add Type_.I64 [3; 1; 2];
     Op.with_args 2 Opcode.BrCond Type_.I64 [3; 2; 8; 0]; Op.with_args 3 Opcode.SetLabel Type_.I64 [0];
     Op.with_args 4 Opcode.ExitTb Type_.I64 [0]] [Label.new 0] 2) =
  Some (Text.concat (map writeln [" ---- 0x0000000000001000"; " insn_start $0x1000"; " add_i64 tmp1, pc, $0x10";
    " brcond_i64 tmp1, $0x10, eq, L0"; " L0:"; " exit_tb $0x0"])).
Proof. vm_compute. reflexivity. Qed.
