(* ===== verification/DecodeTool.v ===== *)
(** * The decoder generator (decode/src/lib.rs)

    A [.decode] file names fields of an instruction word, sets of arguments, formats and
    patterns; the generator parses it ([parse_with_width]) and writes Rust text: a struct per
    argument set, a function per field, a trait with one method per pattern name and the
    function that tries the patterns in order ([generate_with_width]).

    The output is the text a [Vec<u8>] receives, whose writes do not fail. *)

From S2P Require Import Prelude Text.

#[local] Open Scope string_scope.
#[local] Open Scope Z_scope.

(** ** Data *)

Module FieldSegment.
Record t := { pos : Z; len : Z; signed : bool }.
End FieldSegment.

Module Field.
Record t := { name : string; segments : list FieldSegment.t; func : option string }.
End Field.

Module ArgSet.
Record t := { name : string; fields : list string; is_extern : bool }.
End ArgSet.

Module FieldMapping.
Inductive t :=
  | FieldRef (f : string)
  | Inline (pos len : Z) (signed : bool)
  | Const (c : Z).
End FieldMapping.

Module Format.
Record t := {
  name : string; fixedbits : Z; fixedmask : Z; args_name : string;
  field_map : BTree.t FieldMapping.t
}.
End Format.

Module Pattern.
Record t := {
  name : string; fixedbits : Z; fixedmask : Z; args_name : string;
  field_map : BTree.t FieldMapping.t
}.
End Pattern.

Module Parsed.
Record t := {
  fields : BTree.t Field.t; argsets : BTree.t ArgSet.t; patterns : list Pattern.t
}.
End Parsed.

Module BitPatternResult.
Record t := { fixedbits : Z; fixedmask : Z; inline_fields : BTree.t (Z * Z) }.
End BitPatternResult.

(** ** Bit patterns *)

Definition colon : ascii := ":".

Definition is_bit_char (c : ascii) : bool :=
  Ascii.eqb c "0" || Ascii.eqb c "1" || Ascii.eqb c "." || Ascii.eqb c "-".

Definition is_bit_token (s : string) : bool := negb (is_empty s) && forallb is_bit_char (chars s).

Definition is_inline_field (s : string) : bool :=
  match split_once colon s with
  | Some (name, rest) =>
      negb (is_empty name) && forallb (λ c, is_alphanumeric c || Ascii.eqb c "_") (chars name) &&
      negb (is_empty rest) && forallb is_ascii_digit (chars rest)
  | None => false
  end.

(** [1u32 << n]; the shift uses the low five bits of [n]. *)
Definition bit (n : Z) : Z := u32 (Z.shiftl 1 (n mod 32)).

(** The characters of a token, from bit [bit_pos] downwards. *)
Fixpoint parse_bits (width : Z) (cs : list ascii) (st : Z * Z * Z) : Result (Z * Z * Z) :=
  match cs with
  | [] => Ok st
  | c :: cs =>
      let '(fixedbits, fixedmask, bit_pos) := st in
      if bit_pos <? 0 then Err ("bit pattern exceeds " +:+ dec width +:+ " bits")
      else
        let st :=
          if Ascii.eqb c "1" then (Z.lor fixedbits (bit bit_pos), Z.lor fixedmask (bit bit_pos))
          else if Ascii.eqb c "0" then (fixedbits, Z.lor fixedmask (bit bit_pos))
          else (fixedbits, fixedmask) in
        parse_bits width cs (st, i32 (bit_pos - 1))
  end.

(** [fixedbits], [fixedmask], [bit_pos] and the inline fields after the tokens. *)
Fixpoint parse_tokens (width : Z) (tokens : list string) (st : Z * Z * Z) (inls : BTree.t (Z * Z))
  : Result (Z * Z * Z * BTree.t (Z * Z)) :=
  match tokens with
  | [] => Ok (st, inls)
  | tok :: tokens =>
      if is_bit_token tok then
        st ← parse_bits width (chars tok) st; parse_tokens width tokens st inls
      else if is_inline_field tok then
        match split_once colon tok with
        | Some (name, rest) =>
            len ← map_err (λ e, "bad inline field len: " +:+ e) (parse_u32 rest);
            let '(fixedbits, fixedmask, bit_pos) := st in
            let pos := u32 (i32 (i32 (bit_pos - i32 len) + 1)) in
            parse_tokens width tokens (fixedbits, fixedmask, i32 (bit_pos - i32 len))
              (BTree.insert name (pos, len) inls)
        | None => Ok (st, inls)
        end
      else Ok (st, inls)
  end.

Definition parse_bit_tokens (tokens : list string) (width : Z) : Result BitPatternResult.t :=
  '(fixedbits, fixedmask, _, inls) ← parse_tokens width tokens (0, 0, i32 (i32 width - 1)) [];
  Ok (BitPatternResult.Build_t fixedbits fixedmask inls).

Fixpoint count_bit_tokens (tokens : list string) : nat :=
  match tokens with
  | t :: ts => if is_bit_token t || is_inline_field t then S (count_bit_tokens ts) else O
  | [] => O
  end.

(** ** Fields and argument sets *)

Definition parse_field_segment (s : string) : Result FieldSegment.t :=
  '(pos_str, rest) ←
    match split_once colon s with Some p => Ok p | None => Err ("bad segment: " +:+ s) end;
  let signed := starts_with "s" rest in
  let len_str := if signed then skip_first rest else rest in
  pos ← map_err (λ _, "bad pos: " +:+ pos_str) (parse_u32 pos_str);
  len ← map_err (λ _, "bad len: " +:+ len_str) (parse_u32 len_str);
  Ok (FieldSegment.Build_t pos len signed).

(** The tokens after the name; segments are kept in order. *)
Fixpoint parse_segments (tokens : list string) (segs : list FieldSegment.t) (func : option string)
  : Result (list FieldSegment.t * option string) :=
  match tokens with
  | [] => Ok (segs, func)
  | tok :: tokens =>
      match strip_prefix "!function=" tok with
      | Some f => parse_segments tokens segs (Some f)
      | None => s ← parse_field_segment tok; parse_segments tokens (segs ++ [s])%list func
      end
  end.

(** [tokens[0]] and [tokens[1..]] of a line that is not empty. *)
Definition first_token (tokens : list string) : string := default "" (head tokens).

Definition parse_field (line : string) : Result Field.t :=
  let tokens := split_whitespace line in
  let name := skip_first (first_token tokens) in
  '(segments, func) ← parse_segments (tail tokens) [] None;
  Ok (Field.Build_t name segments func).

Definition parse_argset (line : string) : Result ArgSet.t :=
  let tokens := split_whitespace line in
  let name := skip_first (first_token tokens) in
  let is_extern := bool_decide (last tokens = Some "!extern") in
  let end_ := if is_extern then pred (List.length tokens) else List.length tokens in
  Ok (ArgSet.Build_t name (tail (take end_ tokens)) is_extern).

(** ** Attributes *)

Definition FieldRefs := BTree.t FieldMapping.t.

(** One attribute, which sets the argument set or maps a field. *)
Definition parse_attr (fields : BTree.t Field.t) (tok : string) (st : string * FieldRefs)
  : Result (string * FieldRefs) :=
  let '(args_name, field_map) := st in
  match strip_prefix "&" tok with
  | Some a => Ok (a, field_map)
  | None =>
  match strip_prefix "%" tok with
  | Some f => Ok (args_name, BTree.insert f (FieldMapping.FieldRef f) field_map)
  | None =>
  match split_once "=" tok with
  | Some (key, val) =>
      match strip_prefix "%" val with
      | Some fref => Ok (args_name, BTree.insert key (FieldMapping.FieldRef fref) field_map)
      | None =>
          match parse_i32 val with
          | Ok c => Ok (args_name, BTree.insert key (FieldMapping.Const c) field_map)
          | Err _ => Err ("bad attr: " +:+ tok)
          end
      end
  | None =>
      if starts_with "!" tok then Ok st
      else if negb (starts_with "@" tok) then
        if BTree.contains_key tok fields
        then Ok (args_name, BTree.insert tok (FieldMapping.FieldRef tok) field_map)
        else Ok st
      else Ok st
  end end end.

Fixpoint parse_attrs_from (fields : BTree.t Field.t) (tokens : list string)
  (st : string * FieldRefs) : Result (string * FieldRefs) :=
  match tokens with
  | [] => Ok st
  | tok :: tokens => st ← parse_attr fields tok st; parse_attrs_from fields tokens st
  end.

Definition parse_attrs (tokens : list string) (fields : BTree.t Field.t)
  : Result (string * FieldRefs) := parse_attrs_from fields tokens ("", []).

(** The inline fields of a bit pattern, unless an attribute maps the name. *)
Definition merge_inline (field_map : FieldRefs) (inls : BTree.t (Z * Z)) : FieldRefs :=
  foldl (λ m '(fname, (pos, len)), BTree.or_insert fname (FieldMapping.Inline pos len false) m)
    field_map inls.

(** ** Formats and patterns *)

Definition parse_format (line : string) (fields : BTree.t Field.t) (width : Z)
  : Result (string * Format.t) :=
  let tokens := split_whitespace line in
  let name := skip_first (first_token tokens) in
  let bit_count := count_bit_tokens (tail tokens) in
  bp ← parse_bit_tokens (take bit_count (tail tokens)) width;
  let rest := drop bit_count (tail tokens) in
  '(args_name, field_map) ← parse_attrs rest fields;
  let field_map := merge_inline field_map (BitPatternResult.inline_fields bp) in
  Ok (name, Format.Build_t name (BitPatternResult.fixedbits bp) (BitPatternResult.fixedmask bp)
              args_name field_map).

(** The format a pattern refers to. *)
Fixpoint find_format (tokens : list string) : option string :=
  match tokens with
  | [] => None
  | t :: ts => match strip_prefix "@" t with Some s => Some s | None => find_format ts end
  end.

(** The pattern, and the argument sets made for patterns without one. *)
Definition parse_pattern (line : string) (formats : BTree.t Format.t) (fields : BTree.t Field.t)
  (auto_args : BTree.t ArgSet.t) (width : Z) : Result (Pattern.t * BTree.t ArgSet.t) :=
  let tokens := split_whitespace line in
  let name := first_token tokens in
  let bit_count := count_bit_tokens (tail tokens) in
  bp ← parse_bit_tokens (take bit_count (tail tokens)) width;
  let rest := drop bit_count (tail tokens) in
  let pattern fmt_bits fmt_mask args_name field_map :=
    Pattern.Build_t name (Z.lor (BitPatternResult.fixedbits bp) fmt_bits)
      (Z.lor (BitPatternResult.fixedmask bp) fmt_mask) args_name field_map in
  match find_format rest with
  | Some fname =>
      match BTree.get fname formats with
      | None => Err ("unknown format @" +:+ fname)
      | Some fmt =>
          '(_, extra_map) ← parse_attrs rest fields;
          let fm := BTree.extend (Format.field_map fmt) extra_map in
          Ok (pattern (Format.fixedbits fmt) (Format.fixedmask fmt) (Format.args_name fmt) fm,
              auto_args)
      end
  | None =>
      '(an, fm) ← parse_attrs rest fields;
      let fm := merge_inline fm (BitPatternResult.inline_fields bp) in
      if is_empty an && negb (bool_decide (fm = [])) then
        let aname := "_auto_" +:+ name in
        let a := ArgSet.Build_t aname (BTree.keys fm) false in
        Ok (pattern 0 0 aname fm, BTree.insert aname a auto_args)
      else Ok (pattern 0 0 an fm, auto_args)
  end.

(** ** The file *)

(** The text built so far is kept with its last character first. *)
Definition push_str (s : string) (out : list ascii) : list ascii := rev_append (chars s) out.

Definition backslash : ascii := ascii_of_N 92.

Fixpoint pop_spaces (out : list ascii) : list ascii :=
  match out with c :: r => if Ascii.eqb c " " then pop_spaces r else out | [] => [] end.

(** A line of the input, after [cont] if the line before it ended in a backslash. *)
Definition merge_line (st : list ascii * bool) (line : string) : list ascii * bool :=
  let '(out, cont) := st in
  let out :=
    if cont then push_str (trim line) (" "%char :: out)
    else push_str line (match out with [] => [] | _ => lf :: out end) in
  match out with
  | c :: out' => if Ascii.eqb c backslash then (pop_spaces out', true) else (out, false)
  | [] => ([], false)
  end.

Definition merge_continuations (input : string) : string :=
  of_chars (rev' (foldl merge_line ([], false) (lines input)).1).

(** What the parser has collected. *)
Module Parser.
Record t := {
  fields : BTree.t Field.t; argsets : BTree.t ArgSet.t; formats : BTree.t Format.t;
  patterns : list Pattern.t; auto_args : BTree.t ArgSet.t
}.
Definition new : t := Build_t [] [] [] [] [].
End Parser.

(** A line without its comment.  The errors of the parsers called here leave with [?], as
    they are. *)
Definition parse_line (width : Z) (raw : string) (p : Parser.t) : Result Parser.t :=
  let line := trim (match split_once "#" raw with Some (l, _) => l | None => raw end) in
  let 'Parser.Build_t fields argsets formats patterns auto_args := p in
  match line with
  | "" => Ok p
  | String first _ =>
      if Ascii.eqb first "%" then
        f ← parse_field line;
        Ok (Parser.Build_t (BTree.insert (Field.name f) f fields) argsets formats patterns auto_args)
      else if Ascii.eqb first "&" then
        a ← parse_argset line;
        Ok (Parser.Build_t fields (BTree.insert (ArgSet.name a) a argsets) formats patterns auto_args)
      else if Ascii.eqb first "@" then
        '(n, f) ← parse_format line fields width;
        Ok (Parser.Build_t fields argsets (BTree.insert n f formats) patterns auto_args)
      else if Ascii.eqb first "{" || Ascii.eqb first "}" || Ascii.eqb first "[" || Ascii.eqb first "]"
      then Ok p
      else
        '(pat, auto_args) ← parse_pattern line formats fields auto_args width;
        Ok (Parser.Build_t fields argsets formats (patterns ++ [pat])%list auto_args)
  end.

Fixpoint parse_lines (width : Z) (ls : list string) (p : Parser.t) : Result Parser.t :=
  match ls with
  | [] => Ok p
  | l :: ls => p ← parse_line width l p; parse_lines width ls p
  end.

Definition parse_with_width (input : string) (width : Z) : Result Parsed.t :=
  p ← parse_lines width (lines (merge_continuations input)) Parser.new;
  Ok (Parsed.Build_t (Parser.fields p) (BTree.extend (Parser.argsets p) (Parser.auto_args p))
        (Parser.patterns p)).

(** ** Code generation

    Text, or a panic ([None]). *)

Definition format_hex (val width : Z) : string :=
  if width <=? 16 then padded_hex 6 val else padded_hex 10 val.

Fixpoint camel (upper : bool) (s : string) : string :=
  match s with
  | "" => ""
  | String c s =>
      if Ascii.eqb c "_" then camel true s
      else if upper then String (to_ascii_uppercase c) (camel false s)
      else String c (camel false s)
  end.

Definition to_camel (s : string) : string := camel true s.

Definition struct_name (name : string) : string := "Args" +:+ to_camel name.

Definition emit_arg_struct (a : ArgSet.t) : string :=
  if ArgSet.is_extern a then ""
  else
    writeln "#[derive(Debug, Clone, Copy, Default)]" +:+
    writeln ("pub struct " +:+ struct_name (ArgSet.name a) +:+ " {") +:+
    concat (map (λ f, writeln ("    pub " +:+ f +:+ ": i64,")) (ArgSet.fields a)) +:+
    writeln ("}" +:+ nl).

Definition emit_arg_structs (argsets : BTree.t ArgSet.t) : string :=
  concat (map emit_arg_struct (BTree.values argsets)).

Definition unsigned_ty (width : Z) : string := if width <=? 16 then "u16" else "u32".
Definition signed_ty (width : Z) : string := if width <=? 16 then "i16" else "i32".

(** [(1u32 << len) - 1] *)
Definition len_mask (len : Z) : Z := u32 (bit len - 1).

(** The transform of a [!function=] handler. *)
Definition emit_func_transform (func cast : string) : string :=
  if String.eqb func "ex_shift_1" then writeln ("    (" +:+ cast +:+ ") << 1")
  else if String.eqb func "ex_shift_2" then writeln ("    (" +:+ cast +:+ ") << 2")
  else if String.eqb func "ex_shift_3" then writeln ("    (" +:+ cast +:+ ") << 3")
  else if String.eqb func "ex_shift_4" then writeln ("    (" +:+ cast +:+ ") << 4")
  else if String.eqb func "ex_shift_12" then writeln ("    (" +:+ cast +:+ ") << 12")
  else if String.eqb func "ex_rvc_register" then writeln ("    (" +:+ cast +:+ ") + 8")
  else if String.eqb func "ex_sreg_register" then
    writeln ("    [8,9,18,19,20,21,22,23][(" +:+ cast +:+ ") as usize & 7]")
  else if String.eqb func "ex_rvc_shiftli" || String.eqb func "ex_rvc_shiftri" then
    writeln ("    " +:+ cast)
  else writeln ("    // unknown func: " +:+ func +:+ nl +:+ "    " +:+ cast).

(** The first segment of a field with one segment, and with several. *)
Definition emit_only_segment (width : Z) (s : FieldSegment.t) : string :=
  let '(FieldSegment.Build_t pos len signed) := s in
  if signed then
    let lshift := u32 (u32 (width - pos) - len) in
    let rshift := u32 (width - len) in
    if lshift =? 0 then
      writeln ("    let val = (insn as " +:+ signed_ty width +:+ ") >> " +:+ dec rshift +:+ ";")
    else
      writeln ("    let val = ((insn as " +:+ signed_ty width +:+ ") << " +:+ dec lshift +:+ ") >> "
               +:+ dec rshift +:+ ";")
  else
    writeln ("    let val = (insn >> " +:+ dec pos +:+ ") & " +:+ alt_hex (len_mask len) +:+ ";").

Definition emit_first_segment (width : Z) (s : FieldSegment.t) : string :=
  let '(FieldSegment.Build_t pos len signed) := s in
  if signed then
    let lshift := u32 (u32 (width - pos) - len) in
    let rshift := u32 (width - len) in
    if lshift =? 0 then
      writeln ("    let mut val: i64 = ((insn as " +:+ signed_ty width +:+ ") >> " +:+ dec rshift
               +:+ ") as i64;")
    else
      writeln ("    let mut val: i64 = (((insn as " +:+ signed_ty width +:+ ") << " +:+ dec lshift
               +:+ ") >> " +:+ dec rshift +:+ ") as i64;")
  else
    writeln ("    let mut val: i64 = ((insn >> " +:+ dec pos +:+ ") & " +:+ alt_hex (len_mask len)
             +:+ ") as i64;").

Definition emit_next_segment (s : FieldSegment.t) : string :=
  let '(FieldSegment.Build_t pos len _) := s in
  writeln ("    val = (val << " +:+ dec len +:+ ") | ((insn >> " +:+ dec pos +:+ ") & "
           +:+ alt_hex (len_mask len) +:+ ") as i64;").

(** A field without segments makes [segs[0]] panic. *)
Definition emit_extract_field (field : Field.t) (width : Z) : option string :=
  '(body, cast) ←
    match Field.segments field with
    | [s] => Some (emit_only_segment width s, "val as i64")
    | s0 :: segs => Some (emit_first_segment width s0 +:+ concat (map emit_next_segment segs), "val")
    | [] => None
    end;
  Some (writeln ("fn extract_" +:+ Field.name field +:+ "(insn: " +:+ unsigned_ty width +:+ ") -> i64 {")
        +:+ body +:+
        match Field.func field with
        | Some func => emit_func_transform func cast
        | None => writeln ("    " +:+ cast)
        end +:+
        writeln ("}" +:+ nl)).

Definition emit_field_expr (mapping : FieldMapping.t) (width : Z) : string :=
  match mapping with
  | FieldMapping.FieldRef r => "extract_" +:+ r +:+ "(insn)"
  | FieldMapping.Inline pos len signed =>
      if signed then
        "(((insn as " +:+ signed_ty width +:+ ") << " +:+ dec (u32 (u32 (width - pos) - len)) +:+ ") >> "
        +:+ dec (u32 (width - len)) +:+ ") as i64"
      else "((insn >> " +:+ dec pos +:+ ") & " +:+ alt_hex (len_mask len) +:+ ") as i64"
  | FieldMapping.Const c => dec c +:+ "_i64"
  end.

Definition args_struct (p : Pattern.t) : string :=
  if is_empty (Pattern.args_name p) then "ArgsEmpty" else struct_name (Pattern.args_name p).

Definition trait_name (width : Z) : string := if width <=? 16 then "Decode16" else "Decode".
Definition fn_name (width : Z) : string := if width <=? 16 then "decode16" else "decode".

(** One method per name, for the first pattern that has it. *)
Fixpoint emit_methods (patterns : list Pattern.t) (seen : list string) : string :=
  match patterns with
  | [] => ""
  | p :: ps =>
      if bool_decide (Pattern.name p ∈ seen) then emit_methods ps seen
      else
        writeln ("    fn trans_" +:+ Pattern.name p +:+ "(&mut self, ir: &mut Ir, a: &" +:+ args_struct p
                 +:+ ") -> bool;") +:+ emit_methods ps (Pattern.name p :: seen)
  end.

Definition emit_decode_trait (patterns : list Pattern.t) (width : Z) : string :=
  writeln ("pub trait " +:+ trait_name width +:+ "<Ir> {") +:+ emit_methods patterns [] +:+
  writeln ("}" +:+ nl).

(** The fields of the argument set of a pattern. *)
Definition arg_fields (p : Pattern.t) (argsets : BTree.t ArgSet.t) : list string :=
  if is_empty (Pattern.args_name p) then []
  else match BTree.get (Pattern.args_name p) argsets with
       | Some a => ArgSet.fields a
       | None => []
       end.

Definition full_mask (width : Z) : Z := if width <=? 16 then 0xffff else 0xffffffff.

Definition emit_arg (p : Pattern.t) (width : Z) (af : string) : string :=
  match BTree.get af (Pattern.field_map p) with
  | Some mapping => "            " +:+ af +:+ ": " +:+ emit_field_expr mapping width +:+ writeln ","
  | None => writeln ("            " +:+ af +:+ ": 0,")
  end.

Definition emit_arm (argsets : BTree.t ArgSet.t) (width : Z) (p : Pattern.t) : string :=
  (if Pattern.fixedmask p =? full_mask width then
     writeln ("    if insn == " +:+ format_hex (Pattern.fixedbits p) width +:+ " {")
   else
     writeln ("    if insn & " +:+ format_hex (Pattern.fixedmask p) width +:+ " == "
              +:+ format_hex (Pattern.fixedbits p) width +:+ " {")) +:+
  (if decide (arg_fields p argsets = []) then
     writeln ("        return ctx.trans_" +:+ Pattern.name p +:+ "(ir, &" +:+ args_struct p +:+ " {});")
   else
     writeln ("        let a = " +:+ args_struct p +:+ " {") +:+
     concat (map (emit_arg p width) (arg_fields p argsets)) +:+
     writeln "        };" +:+
     writeln ("        return ctx.trans_" +:+ Pattern.name p +:+ "(ir, &a);")) +:+
  writeln "    }".

Definition emit_decode_fn (patterns : list Pattern.t) (argsets : BTree.t ArgSet.t) (width : Z) : string :=
  writeln ("pub fn " +:+ fn_name width +:+ "<Ir, T: " +:+ trait_name width
           +:+ "<Ir>>(ctx: &mut T, ir: &mut Ir, insn: " +:+ unsigned_ty width +:+ ") -> bool {") +:+
  concat (map (emit_arm argsets width) patterns) +:+
  writeln "    false" +:+ writeln ("}" +:+ nl).

(** The error of the input, or the text written; [None] if a field has no segments. *)
Definition generate_with_width (input : string) (width : Z) : option (Result string) :=
  match parse_with_width input width with
  | Err e => Some (Err e)
  | Ok parsed =>
      extracts ← mapM (λ f, emit_extract_field f width) (BTree.values (Parsed.fields parsed));
      Some (Ok (writeln "// Auto-generated by decode." +:+
                writeln ("// Do not edit." +:+ nl) +:+
                emit_arg_structs (Parsed.argsets parsed) +:+ concat extracts +:+
                emit_decode_trait (Parsed.patterns parsed) width +:+
                emit_decode_fn (Parsed.patterns parsed) (Parsed.argsets parsed) width))
  end.

Definition generate (input : string) : option (Result string) := generate_with_width input 32.
