(* ===== verification/DecodeBits.v ===== *)
(** * Bit patterns are read as written

    The functional specification of [parse_bit_tokens] (decode/src/lib.rs): the mask and the
    fixed bits, bit by bit, and the positions of inline fields. *)

From S2P Require Import Prelude Text DecodeTool.

#[local] Open Scope string_scope.
#[local] Open Scope Z_scope.

(** ** Bit patterns, bit by bit *)

(** What a token says of its bits, a dot where it fixes nothing. *)
Definition token_bits (tok : string) : list ascii :=
  if is_bit_token tok then chars tok
  else match split_once colon tok with
       | Some (_, rest) => match parse_u32 rest with Ok n => replicate (Z.to_nat n) "."%char | Err _ => [] end
       | None => []
       end.

Definition pattern_bits (toks : list string) : list ascii := mjoin (map token_bits toks).

(** The name an inline field has. *)
Definition inline_name (tok : string) : option string :=
  if is_bit_token tok then None else fst <$> split_once colon tok.

(** [bits] and [mask] are those of the characters [cs], from bit [width - 1] downwards. *)
Definition fixes (width : Z) (cs : list ascii) (bits mask : Z) : Prop :=
  ∀ j, 0 ≤ j →
    Z.testbit bits j = (j <? width) && bool_decide (cs !! Z.to_nat (width - 1 - j) = Some "1"%char) ∧
    Z.testbit mask j = (j <? width) && (bool_decide (cs !! Z.to_nat (width - 1 - j) = Some "1"%char) ||
                                        bool_decide (cs !! Z.to_nat (width - 1 - j) = Some "0"%char)).

Lemma bit_pow n : 0 ≤ n < 32 → bit n = 2 ^ n.
Proof.
  intros. unfold bit. rewrite Z.mod_small, Z.shiftl_1_l by lia. apply u32_small.
  pose proof (pow2_pos n). pose proof (Z.pow_lt_mono_r 2 n 32). lia.
Qed.

Lemma lor_bit_spec x n j :
  0 ≤ n < 32 → 0 ≤ j → Z.testbit (Z.lor x (bit n)) j = Z.testbit x j || (j =? n).
Proof.
  intros. rewrite Z.lor_spec, bit_pow, Z.pow2_bits_eqb by lia. f_equal. apply Z.eqb_sym.
Qed.

Section bits.
Variable width : Z.
Hypothesis Hwidth : 1 ≤ width ≤ 32.

(** One more character. *)
Lemma snoc_at cs (c d : ascii) j :
  0 ≤ j < width → zlen cs < width →
  bool_decide ((cs ++ [c])%list !! Z.to_nat (width - 1 - j) = Some d) =
  if j =? width - 1 - zlen cs then Ascii.eqb c d
  else bool_decide (cs !! Z.to_nat (width - 1 - j) = Some d).
Proof.
  unfold zlen. intros Hj Hlen. destruct (j =? _) eqn:E; boolp.
  - rewrite lookup_app_r by lia.
    replace (Z.to_nat (width - 1 - j) - List.length cs)%nat with 0%nat by lia. cbn.
    destruct (Ascii.eqb_spec c d) as [->|Hne]; [by apply bool_decide_eq_true_2|].
    apply bool_decide_eq_false_2. congruence.
  - destruct (decide (width - 1 - j < Z.of_nat (List.length cs))).
    + by rewrite lookup_app_l by lia.
    + rewrite (lookup_ge_None_2 cs) by lia. by rewrite lookup_ge_None_2 by (rewrite length_app; cbn; lia).
Qed.

Lemma fixes_snoc cs bits mask c :
  zlen cs < width → fixes width cs bits mask →
  let pos := width - 1 - zlen cs in
  fixes width (cs ++ [c])
    (if Ascii.eqb c "1" then Z.lor bits (bit pos) else bits)
    (if Ascii.eqb c "1" then Z.lor mask (bit pos) else if Ascii.eqb c "0" then Z.lor mask (bit pos) else mask).
Proof.
  intros Hlen Hf pos j Hj. destruct (Hf j Hj) as [Hb Hm]. pose proof (zlen_nonneg cs).
  assert (∀ x, Z.testbit (Z.lor x (bit pos)) j = Z.testbit x j || (j =? pos)) as Hl
    by (intros x; apply lor_bit_spec; lia).
  destruct (j <? width) eqn:Ej; boolp; cbn [andb] in *.
  - rewrite !snoc_at by lia. fold pos. destruct (j =? pos) eqn:Ep; boolp.
    + assert (∀ d, bool_decide (cs !! Z.to_nat (width - 1 - j) = Some d) = false) as Hno.
      { intros d. apply bool_decide_eq_false_2. unfold zlen in *. rewrite lookup_ge_None_2 by lia. done. }
      rewrite !Hno in *. destruct (Ascii.eqb c "1") eqn:E1, (Ascii.eqb c "0") eqn:E0;
        rewrite ?Hl, ?Hb, ?Hm; try done.
    + destruct (Ascii.eqb c "1"), (Ascii.eqb c "0"); rewrite ?Hl, ?orb_false_r; done.
  - assert ((j =? pos) = false) as Hne by (apply Z.eqb_neq; lia).
    destruct (Ascii.eqb c "1"), (Ascii.eqb c "0"); rewrite ?Hl, ?Hne, ?orb_false_r; done.
Qed.

Definition exceeds : Result (Z * Z * Z) := Err ("bit pattern exceeds " +:+ dec width +:+ " bits").

Lemma i32_small x : - 2 ^ 31 ≤ x < 2 ^ 31 → i32 x = x.
Proof. by apply (signed_small 32). Qed.

Lemma parse_bits_spec l cs bits mask :
  zlen cs ≤ width → fixes width cs bits mask →
  if zlen cs + zlen l <=? width then
    ∃ bits' mask', parse_bits width l (bits, mask, width - 1 - zlen cs) =
                   Ok (bits', mask', width - 1 - zlen (cs ++ l)) ∧ fixes width (cs ++ l) bits' mask'
  else parse_bits width l (bits, mask, width - 1 - zlen cs) = exceeds.
Proof.
  revert cs bits mask. induction l as [|c l IH]; intros cs bits mask Hlen Hf; pose proof (zlen_nonneg cs).
  - rewrite app_nil_r. change (zlen []) with 0. rewrite (proj2 (Z.leb_le _ _)) by lia. by exists bits, mask.
  - assert (zlen (c :: l) = 1 + zlen l) as Hcl by (unfold zlen; cbn [List.length]; lia).
    pose proof (zlen_nonneg l). cbn [parse_bits].
    destruct (decide (zlen cs = width)) as [He|].
    { rewrite (proj2 (Z.ltb_lt _ _)) by lia. by rewrite (proj2 (Z.leb_gt _ _)) by lia. }
    rewrite (proj2 (Z.ltb_ge _ _)) by lia.
    pose proof (fixes_snoc cs bits mask c ltac:(lia) Hf) as Hs. cbn zeta in Hs.
    specialize (IH (cs ++ [c])%list _ _ ltac:(rewrite zlen_app; change (zlen [c]) with 1; lia) Hs).
    rewrite zlen_app in IH. change (zlen [c]) with 1 in IH.
    rewrite i32_small by lia. replace (width - 1 - zlen cs - 1) with (width - 1 - (zlen cs + 1)) by lia.
    rewrite <- app_assoc in IH. cbn [app] in IH.
    replace (zlen cs + zlen (c :: l)) with (zlen cs + 1 + zlen l) by lia.
    destruct (Ascii.eqb c "1"); [|destruct (Ascii.eqb c "0")]; exact IH.
Qed.

Lemma fixes_dots cs bits mask n :
  zlen cs + Z.of_nat n ≤ width → fixes width cs bits mask →
  fixes width (cs ++ replicate n "."%char) bits mask.
Proof.
  revert cs. induction n as [|n IH]; intros cs Hn Hf; cbn [replicate]; [by rewrite app_nil_r|].
  replace (cs ++ "."%char :: replicate n "."%char)%list with ((cs ++ ["."%char]) ++ replicate n "."%char)%list
    by by rewrite <- app_assoc.
  pose proof (fixes_snoc cs bits mask "."%char ltac:(lia) Hf) as Hs. apply IH; [|exact Hs].
  rewrite zlen_app. change (zlen ["."%char]) with 1. lia.
Qed.

(** A token the parser can read: bits, or an inline field whose length is a number. *)
Definition readable (tok : string) : bool :=
  is_bit_token tok ||
  is_inline_field tok &&
  match split_once colon tok with Some (_, rest) => is_ok (parse_u32 rest) | None => false end.

Lemma pattern_bits_cons tok toks : pattern_bits (tok :: toks) = (token_bits tok ++ pattern_bits toks)%list.
Proof. done. Qed.

Lemma fresh_cons tok toks name :
  (∀ t, t ∈ tok :: toks → inline_name t ≠ Some name) →
  inline_name tok ≠ Some name ∧ ∀ t, t ∈ toks → inline_name t ≠ Some name.
Proof. intros H. split; [apply H; left|intros t Ht; apply H; by right]. Qed.

Lemma parse_tokens_spec toks cs bits mask inls :
  forallb readable toks = true → zlen cs + zlen (pattern_bits toks) ≤ width → fixes width cs bits mask →
  ∃ bits' mask' pos' inls',
    parse_tokens width toks (bits, mask, width - 1 - zlen cs) inls = Ok (bits', mask', pos', inls') ∧
    fixes width (cs ++ pattern_bits toks) bits' mask' ∧
    (∀ name, (∀ t, t ∈ toks → inline_name t ≠ Some name) → BTree.get name inls' = BTree.get name inls) ∧
    (∀ pre tok post name, toks = (pre ++ tok :: post)%list → inline_name tok = Some name →
       (∀ t, t ∈ post → inline_name t ≠ Some name) →
       BTree.get name inls' =
       Some (width - (zlen cs + zlen (pattern_bits (pre ++ [tok]))), zlen (token_bits tok))).
Proof.
  revert cs bits mask inls. induction toks as [|tok toks IH]; intros cs bits mask inls Hr Hlen Hf.
  { do 4 eexists. split; [done|]. unfold pattern_bits. cbn. rewrite app_nil_r.
    split_and!; [done..|]. intros [|? ?] ? ? ?; discriminate. }
  cbn [forallb] in Hr. apply andb_prop in Hr as [Ht Hr].
  rewrite pattern_bits_cons, zlen_app in Hlen. pose proof (zlen_nonneg cs).
  pose proof (zlen_nonneg (pattern_bits toks)). pose proof (zlen_nonneg (token_bits tok)).
  (* one token *)
  assert (∃ bits1 mask1 inls1,
    parse_tokens width (tok :: toks) (bits, mask, width - 1 - zlen cs) inls =
    parse_tokens width toks (bits1, mask1, width - 1 - zlen (cs ++ token_bits tok)) inls1 ∧
    fixes width (cs ++ token_bits tok) bits1 mask1 ∧
    inls1 = match inline_name tok with
            | Some name => BTree.insert name (width - zlen (cs ++ token_bits tok), zlen (token_bits tok)) inls
            | None => inls
            end) as (bits1 & mask1 & inls1 & Hstep & Hf1 & Hin).
  { unfold readable in Ht. unfold inline_name. cbn [parse_tokens]. unfold token_bits in *.
    destruct (is_bit_token tok).
    - pose proof (parse_bits_spec (chars tok) cs bits mask ltac:(lia) Hf) as Hp.
      rewrite (proj2 (Z.leb_le _ _)) in Hp by lia. destruct Hp as (bits' & mask' & -> & Hf'). by do 3 eexists.
    - cbn [orb] in Ht. apply andb_prop in Ht as [-> Ht].
      destruct (split_once colon tok) as [[name rest]|]; [|done].
      destruct (parse_u32 rest) as [n|] eqn:En; [|done].
      pose proof (parse_u32_range _ _ En). cbn [map_err mbind result_bind fst fmap option_fmap option_map].
      assert (zlen (replicate (Z.to_nat n) "."%char) = n) as Hn by (unfold zlen; rewrite length_replicate; lia).
      rewrite zlen_app, Hn in *. do 3 eexists. split; [|split; [by apply fixes_dots; [lia|]|done]].
      rewrite !i32_small, u32_small by (rewrite ?i32_small; lia).
      f_equal; [|f_equal; f_equal]; try lia. f_equal. lia. }
  rewrite Hstep.
  destruct (IH (cs ++ token_bits tok)%list bits1 mask1 inls1) as (b' & m' & p' & i' & -> & Hfix & Hold & Hnew);
    [done|rewrite zlen_app; lia|done|].
  exists b', m', p', i'. split; [done|].
  rewrite pattern_bits_cons, app_assoc. split_and!; [done|..].
  - intros name [Hn Hfresh]%fresh_cons. rewrite Hold by done. subst inls1.
    destruct (inline_name tok) as [nm|]; [|done]. rewrite BTree.get_insert.
    destruct (String.eqb_spec name nm) as [->|]; [done|done].
  - intros [|t0 pre] tok' post name Heq Hname Hfresh; injection Heq as <- Heq.
    + subst toks. rewrite Hold by done. subst inls1. rewrite Hname, BTree.get_insert, String.eqb_refl.
      rewrite zlen_app. cbn [app]. unfold pattern_bits. cbn [map]. cbn. rewrite app_nil_r. done.
    + rewrite (Hnew pre tok' post name Heq Hname Hfresh), zlen_app. cbn [app].
      rewrite pattern_bits_cons, zlen_app. do 2 f_equal. lia.
Qed.

Lemma parse_bits_app l l' st :
  parse_bits width (l ++ l') st = (st ← parse_bits width l st; parse_bits width l' st).
Proof.
  revert st. induction l as [|c l IH]; intros [[bits mask] pos]; [done|]. cbn [app parse_bits].
  destruct (pos <? 0); [done|]. apply IH.
Qed.

Lemma parse_bit_only toks st inls :
  forallb is_bit_token toks = true →
  parse_tokens width toks st inls = (st ← parse_bits width (pattern_bits toks) st; Ok (st, inls)).
Proof.
  revert st. induction toks as [|tok toks IH]; intros st; [done|]. cbn [forallb]. intros H. boolp.
  rewrite pattern_bits_cons, parse_bits_app. unfold token_bits at 1. cbn [parse_tokens].
  match goal with H : is_bit_token tok = true |- _ => rewrite H end.
  destruct (parse_bits width (chars tok) st); [|done]. by apply IH.
Qed.

Lemma fixes_nil : fixes width [] 0 0.
Proof.
  intros j Hj. rewrite !Z.testbit_0_l, !lookup_nil. rewrite !bool_decide_eq_false_2 by done.
  by destruct (j <? width).
Qed.
End bits.

(** Bit patterns are read as written: for tokens of at most [width] bits in all, bit [j] of the mask is
    set where the pattern has a 0 or a 1 at that position, counted from the top, bit [j] of the fixed
    bits where it has a 1; an inline field gets the position below the bits before it and its own
    length; and a pattern of bits longer than the width is an error. *)
Theorem bit_pattern_spec width toks :
  1 ≤ width ≤ 32 →
  (forallb readable toks = true → zlen (pattern_bits toks) ≤ width →
   ∃ r, parse_bit_tokens toks width = Ok r ∧
     fixes width (pattern_bits toks) (BitPatternResult.fixedbits r) (BitPatternResult.fixedmask r) ∧
     ∀ pre tok post name, toks = (pre ++ tok :: post)%list → inline_name tok = Some name →
       (∀ t, t ∈ post → inline_name t ≠ Some name) →
       BTree.get name (BitPatternResult.inline_fields r) =
       Some (width - zlen (pattern_bits (pre ++ [tok])), zlen (token_bits tok))) ∧
  (forallb is_bit_token toks = true → width < zlen (pattern_bits toks) →
   parse_bit_tokens toks width = Err ("bit pattern exceeds " +:+ dec width +:+ " bits")).
Proof.
  intros Hw. unfold parse_bit_tokens.
  rewrite (i32_small width), i32_small by lia.
  replace (width - 1) with (width - 1 - zlen (@nil ascii)) by (unfold zlen; simpl; lia). split.
  - intros Hr Hlen.
    destruct (parse_tokens_spec width Hw toks [] 0 0 [] Hr Hlen (fixes_nil width)) as (b & m & p & i & -> & Hf & _ & Hi).
    eexists. split; [reflexivity|]. split; [exact Hf|exact Hi].
  - intros Hb Hlen. rewrite parse_bit_only by done.
    pose proof (parse_bits_spec width Hw (pattern_bits toks) [] 0 0 ltac:(unfold zlen; simpl; lia) (fixes_nil width)) as Hp.
    rewrite (proj2 (Z.leb_gt _ _)) in Hp by (unfold zlen at 1; simpl; lia). by rewrite Hp.
Qed.

Lemma bit_pattern_spec_witness :
  ∃ r, parse_bit_tokens ["----"; "pred:4"; "succ:4"; "-----"; "000"; "-----"; "0001111"] 32 = Ok r ∧
       BTree.get "pred" (BitPatternResult.inline_fields r) = Some (24, 4) ∧
       Z.testbit (BitPatternResult.fixedmask r) 12 = true.
Proof.
  destruct (proj1 (bit_pattern_spec 32 ["----"; "pred:4"; "succ:4"; "-----"; "000"; "-----"; "0001111"] ltac:(lia))
              eq_refl ltac:(vm_compute; discriminate)) as (r & Hr & Hf & Hi).
  exists r. split; [exact Hr|]. split.
  - apply (Hi ["----"] "pred:4" ["succ:4"; "-----"; "000"; "-----"; "0001111"] "pred" eq_refl eq_refl).
    intros t Ht. repeat (apply elem_of_cons in Ht as [->|Ht]; [vm_compute; discriminate|]). inversion Ht.
  - rewrite (proj2 (Hf 12 ltac:(lia))). vm_compute. reflexivity.
Defined.
