(* ===== verification/Generated.v ===== *)
(** * What the generated decoder means

    The generator writes text; [Rust] is the fragment of Rust it writes, with the text of each
    construct ([render]) and its value ([eval], in the types of the text: [u32] or [u16] for
    the word, casts, shifts of signed values, [i64] for fields).  [extract_fn] and [decoder]
    are the program of a parsed file: the emitters of DecodeTool.v write exactly its text,
    and running it gives what the file says ([Spec]): the first pattern whose fixed bits
    match, with each argument the concatenation of its segments. *)

From S2P Require Import Prelude Text DecodeTool.

#[local] Open Scope string_scope.
#[local] Open Scope Z_scope.

(** ** The fragment of Rust *)

Module Rust.
Inductive ity := U16 | U32 | I16 | I32 | I64 | Usize.

Definition ity_bits (t : ity) : Z :=
  match t with U16 | I16 => 16 | U32 | I32 => 32 | I64 | Usize => 64 end.

Definition ity_name (t : ity) : string :=
  match t with
  | U16 => "u16" | U32 => "u32" | I16 => "i16" | I32 => "i32" | I64 => "i64" | Usize => "usize"
  end.

(** The value of type [t] with the low bits of [x]. *)
Definition wrap (t : ity) (x : Z) : Z :=
  match t with
  | U16 | U32 | Usize => x mod 2 ^ ity_bits t
  | I16 | I32 | I64 => signed (ity_bits t) x
  end.

(** Parentheses are part of the syntax. *)
Inductive expr :=
  | Insn
  | Val
  | Paren (e : expr)
  | As (e : expr) (t : ity)
  | Shl (e : expr) (k : Z)
  | Shr (e : expr) (k : Z)
  | And (e : expr) (mask : expr)
  | Hex (m : Z)
  | Or (a b : expr)
  | Plus (e : expr) (k : Z)
  | Index (table : list Z) (e : expr)
  | Dec (k : Z).

Fixpoint commas (l : list string) : string :=
  match l with [] => "" | [x] => x | x :: l => x +:+ "," +:+ commas l end.

Fixpoint render (e : expr) : string :=
  match e with
  | Insn => "insn"
  | Val => "val"
  | Paren e => "(" +:+ render e +:+ ")"
  | As e t => render e +:+ " as " +:+ ity_name t
  | Shl e k => render e +:+ " << " +:+ dec k
  | Shr e k => render e +:+ " >> " +:+ dec k
  | And e m => render e +:+ " & " +:+ render m
  | Hex m => alt_hex m
  | Or a b => render a +:+ " | " +:+ render b
  | Plus e k => render e +:+ " + " +:+ dec k
  | Index l e => "[" +:+ commas (map dec l) +:+ "][" +:+ render e +:+ "]"
  | Dec k => dec k
  end.

(** The type and the value of an expression; a literal has the type of the operand before
    it.  [None]: an index out of bounds.  A shift uses the low bits of its count. *)
Fixpoint eval (word : ity * Z) (val : ity * Z) (e : expr) : option (ity * Z) :=
  match e with
  | Insn => Some word
  | Val => Some val
  | Paren e => eval word val e
  | As e t => '(_, v) ← eval word val e; Some (t, wrap t v)
  | Shl e k => '(t, v) ← eval word val e; Some (t, wrap t (Z.shiftl v (k mod ity_bits t)))
  | Shr e k => '(t, v) ← eval word val e; Some (t, Z.shiftr v (k mod ity_bits t))
  | And e m => '(t, v) ← eval word val e; '(_, m) ← eval word val m; Some (t, wrap t (Z.land v m))
  | Or a b => '(t, v) ← eval word val a; '(_, w) ← eval word val b; Some (t, wrap t (Z.lor v w))
  | Plus e k => '(t, v) ← eval word val e; Some (t, wrap t (v + k))
  | Index l e => '(_, i) ← eval word val e; x ← l.[i]; Some (I64, x)
  | Hex m | Dec m => Some (I64, m)
  end.

(** The statements of an extraction function: [let val = e;], [let mut val: i64 = e;] and
    [val = e;]. *)
Inductive stmt := Let (e : expr) | LetMut (e : expr) | Assign (e : expr).

Definition render_stmt (s : stmt) : string :=
  writeln match s with
          | Let e => "    let val = " +:+ render e +:+ ";"
          | LetMut e => "    let mut val: i64 = " +:+ render e +:+ ";"
          | Assign e => "    val = " +:+ render e +:+ ";"
          end.

Definition run_stmt (word : ity * Z) (s : stmt) (val : ity * Z) : option (ity * Z) :=
  match s with Let e | LetMut e | Assign e => eval word val e end.

Fixpoint run_stmts (word : ity * Z) (l : list stmt) (val : ity * Z) : option (ity * Z) :=
  match l with [] => Some val | s :: l => val ← run_stmt word s val; run_stmts word l val end.

(** [fn extract_<name>(insn: word) -> i64]: statements, a comment line perhaps, the result. *)
Record fn := { fname : string; word_ty : ity; body : list stmt; note : string; result : expr }.

Definition render_fn (f : fn) : string :=
  writeln ("fn extract_" +:+ fname f +:+ "(insn: " +:+ ity_name (word_ty f) +:+ ") -> i64 {") +:+
  concat (map render_stmt (body f)) +:+ note f +:+ writeln ("    " +:+ render (result f)) +:+
  writeln ("}" +:+ nl).

(** The value returned, from a word. *)
Definition call (f : fn) (insn : Z) : option Z :=
  let word := (word_ty f, wrap (word_ty f) insn) in
  val ← run_stmts word (body f) (I64, 0);
  snd <$> eval word val (result f).

(** The arguments of a call of a translation method. *)
Inductive argument := Extract (f : string) | Expr (e : expr) | Literal (c : Z) | Zero.

Definition render_argument (a : argument) : string :=
  match a with
  | Extract f => "extract_" +:+ f +:+ "(insn)"
  | Expr e => render e
  | Literal c => dec c +:+ "_i64"
  | Zero => "0"
  end.

Definition eval_argument (fns : list fn) (word : ity * Z) (a : argument) : option Z :=
  match a with
  | Extract f => '(_, g) ← list_find (λ g, fname g = f) fns; call g word.2
  | Expr e => snd <$> eval word (I64, 0) e
  | Literal c => Some c
  | Zero => Some 0
  end.

(** An [if] of the decoding function: compare the word ([None]) or the bits of a mask; build
    the struct and call the method. *)
Record arm := {
  mask : option Z; bits : Z; method : string; struct : string; args : list (string * argument)
}.

Definition matches (a : arm) (insn : Z) : bool :=
  match mask a with Some m => Z.land insn m =? bits a | None => insn =? bits a end.

Definition render_arm (width : Z) (a : arm) : string :=
  writeln ("    if insn " +:+
           match mask a with Some m => "& " +:+ format_hex m width +:+ " " | None => "" end +:+
           "== " +:+ format_hex (bits a) width +:+ " {") +:+
  match args a with
  | [] => writeln ("        return ctx.trans_" +:+ method a +:+ "(ir, &" +:+ struct a +:+ " {});")
  | l =>
      writeln ("        let a = " +:+ struct a +:+ " {") +:+
      concat (map (λ '(f, x), writeln ("            " +:+ f +:+ ": " +:+ render_argument x +:+ ",")) l) +:+
      writeln "        };" +:+
      writeln ("        return ctx.trans_" +:+ method a +:+ "(ir, &a);")
  end +:+
  writeln "    }".

(** The method called and the fields of its argument, or [None]: the decoder returns
    [false].  The outer [option]: the program does not compile or panics. *)
Fixpoint run_arms (fns : list fn) (word : ity * Z) (l : list arm)
  : option (option (string * list (string * Z))) :=
  match l with
  | [] => Some None
  | a :: l =>
      if matches a word.2 then
        vs ← mapM (λ '(f, x), v ← eval_argument fns word x; Some (f, v)) (args a);
        Some (Some (method a, vs))
      else run_arms fns word l
  end.
End Rust.

(** ** The program of a parsed file *)

Section program.
Variable width : Z.

Definition word_type : Rust.ity := if width <=? 16 then Rust.U16 else Rust.U32.
Definition signed_type : Rust.ity := if width <=? 16 then Rust.I16 else Rust.I32.

Definition signed_segment (pos len : Z) : Rust.expr :=
  let insn := Rust.Paren (Rust.As Rust.Insn signed_type) in
  let lshift := u32 (u32 (width - pos) - len) in
  Rust.Shr (if lshift =? 0 then insn else Rust.Paren (Rust.Shl insn lshift)) (u32 (width - len)).

Definition unsigned_segment (pos len : Z) : Rust.expr :=
  Rust.And (Rust.Paren (Rust.Shr Rust.Insn pos)) (Rust.Hex (len_mask len)).

Definition segment_expr (s : FieldSegment.t) : Rust.expr :=
  let '(FieldSegment.Build_t pos len signed) := s in
  if signed then signed_segment pos len else unsigned_segment pos len.

Definition as_i64 (e : Rust.expr) : Rust.expr := Rust.As (Rust.Paren e) Rust.I64.

Definition next_stmt (s : FieldSegment.t) : Rust.stmt :=
  let '(FieldSegment.Build_t pos len _) := s in
  Rust.Assign (Rust.Or (Rust.Paren (Rust.Shl Rust.Val len)) (as_i64 (unsigned_segment pos len))).

Definition transform_expr (func : string) (cast : Rust.expr) : Rust.expr :=
  let x := Rust.Paren cast in
  if String.eqb func "ex_shift_1" then Rust.Shl x 1
  else if String.eqb func "ex_shift_2" then Rust.Shl x 2
  else if String.eqb func "ex_shift_3" then Rust.Shl x 3
  else if String.eqb func "ex_shift_4" then Rust.Shl x 4
  else if String.eqb func "ex_shift_12" then Rust.Shl x 12
  else if String.eqb func "ex_rvc_register" then Rust.Plus x 8
  else if String.eqb func "ex_sreg_register" then
    Rust.Index [8; 9; 18; 19; 20; 21; 22; 23] (Rust.And (Rust.As x Rust.Usize) (Rust.Dec 7))
  else cast.

(** The handlers [emit_func_transform] knows. *)
Definition known_func (func : string) : bool :=
  existsb (String.eqb func)
    ["ex_shift_1"; "ex_shift_2"; "ex_shift_3"; "ex_shift_4"; "ex_shift_12";
     "ex_rvc_register"; "ex_sreg_register"; "ex_rvc_shiftli"; "ex_rvc_shiftri"].

Definition unknown_note (func : string) : string :=
  if known_func func then "" else writeln ("    // unknown func: " +:+ func).

Definition field_fn (f : Field.t) (body : list Rust.stmt) (cast : Rust.expr) : Rust.fn :=
  match Field.func f with
  | Some func =>
      Rust.Build_fn (Field.name f) word_type body (unknown_note func) (transform_expr func cast)
  | None => Rust.Build_fn (Field.name f) word_type body "" cast
  end.

Definition extract_fn (f : Field.t) : option Rust.fn :=
  '(body, cast) ←
    match Field.segments f with
    | [s] => Some ([Rust.Let (segment_expr s)], Rust.As Rust.Val Rust.I64)
    | s0 :: segs => Some (Rust.LetMut (as_i64 (segment_expr s0)) :: map next_stmt segs, Rust.Val)
    | [] => None
    end;
  Some (field_fn f body cast).

Definition mapping_argument (m : FieldMapping.t) : Rust.argument :=
  match m with
  | FieldMapping.FieldRef r => Rust.Extract r
  | FieldMapping.Inline pos len signed =>
      Rust.Expr (as_i64
        (if signed then
           Rust.Shr (Rust.Paren (Rust.Shl (Rust.Paren (Rust.As Rust.Insn signed_type))
                                          (u32 (u32 (width - pos) - len))))
                    (u32 (width - len))
         else unsigned_segment pos len))
  | FieldMapping.Const c => Rust.Literal c
  end.

Definition pattern_arm (argsets : BTree.t ArgSet.t) (p : Pattern.t) : Rust.arm :=
  Rust.Build_arm
    (if Pattern.fixedmask p =? full_mask width then None else Some (Pattern.fixedmask p))
    (Pattern.fixedbits p) (Pattern.name p) (args_struct p)
    (map (λ af, (af, match BTree.get af (Pattern.field_map p) with
                     | Some m => mapping_argument m
                     | None => Rust.Zero
                     end)) (arg_fields p argsets)).

(** Running the generated decoder on a word. *)
Definition run_decoder (parsed : Parsed.t) (insn : Z) : option (option (string * list (string * Z))) :=
  fns ← mapM extract_fn (BTree.values (Parsed.fields parsed));
  Rust.run_arms fns (word_type, Rust.wrap word_type insn)
    (map (pattern_arm (Parsed.argsets parsed)) (Parsed.patterns parsed)).
End program.

(** ** The emitters write that program *)

(** Text compared character by character. *)
Ltac text :=
  unfold writeln; rewrite ?append_assoc; cbn [String.append]; rewrite ?append_assoc; try reflexivity.

Lemma ity_name_word w : Rust.ity_name (word_type w) = unsigned_ty w.
Proof. unfold word_type, unsigned_ty. by destruct (w <=? 16). Qed.

Lemma ity_name_signed w : Rust.ity_name (signed_type w) = signed_ty w.
Proof. unfold signed_type, signed_ty. by destruct (w <=? 16). Qed.

Lemma concat_map_ext {A} (f g : A → string) l :
  (∀ x, f x = g x) → concat (map f l) = concat (map g l).
Proof. intros H. f_equal. by apply map_ext. Qed.

Lemma emit_only_segment_text w s :
  emit_only_segment w s = Rust.render_stmt (Rust.Let (segment_expr w s)).
Proof.
  destruct s as [pos len []]; cbn [emit_only_segment segment_expr]; unfold signed_segment.
  - case_match; unfold Rust.render_stmt; cbn [Rust.render]; rewrite ity_name_signed; text.
  - unfold Rust.render_stmt, unsigned_segment. cbn [Rust.render]. text.
Qed.

Lemma emit_first_segment_text w s :
  emit_first_segment w s = Rust.render_stmt (Rust.LetMut (as_i64 (segment_expr w s))).
Proof.
  destruct s as [pos len []]; cbn [emit_first_segment segment_expr]; unfold signed_segment, as_i64.
  - case_match; unfold Rust.render_stmt; cbn [Rust.render]; rewrite ity_name_signed; text.
  - unfold Rust.render_stmt, unsigned_segment. cbn [Rust.render]. text.
Qed.

Lemma emit_next_segment_text s : emit_next_segment s = Rust.render_stmt (next_stmt s).
Proof.
  destruct s as [pos len sg]. unfold emit_next_segment, next_stmt, Rust.render_stmt, as_i64, unsigned_segment.
  cbn [Rust.render]. text.
Qed.

Lemma emit_func_transform_text func cast :
  emit_func_transform func (Rust.render cast) =
  unknown_note func +:+ writeln ("    " +:+ Rust.render (transform_expr func cast)).
Proof.
  unfold emit_func_transform, transform_expr, unknown_note, known_func. cbn [existsb].
  repeat (destruct (String.eqb func _); [cbn [orb Rust.render]; text|]).
  cbn [orb]. text.
Qed.

Lemma render_field_fn w f body cast :
  Rust.render_fn (field_fn w f body cast) =
  writeln ("fn extract_" +:+ Field.name f +:+ "(insn: " +:+ unsigned_ty w +:+ ") -> i64 {") +:+
  concat (map Rust.render_stmt body) +:+
  match Field.func f with
  | Some func => emit_func_transform func (Rust.render cast)
  | None => writeln ("    " +:+ Rust.render cast)
  end +:+
  writeln ("}" +:+ nl).
Proof.
  unfold Rust.render_fn, field_fn. rewrite <- ity_name_word. destruct (Field.func f) as [func|].
  - by rewrite emit_func_transform_text, append_assoc.
  - done.
Qed.

Lemma emit_extract_field_text f w :
  emit_extract_field f w = Rust.render_fn <$> extract_fn w f.
Proof.
  unfold emit_extract_field, extract_fn.
  destruct (Field.segments f) as [|s0 [|s1 segs]];
    cbn [mbind option_bind fmap option_fmap option_map]; [done|..];
    rewrite render_field_fn; f_equal.
  - rewrite emit_only_segment_text. cbn [map concat foldr]. by rewrite append_nil_r.
  - rewrite emit_first_segment_text, (concat_map_ext _ _ _ emit_next_segment_text), <- map_map.
    cbn [map concat foldr]. by rewrite !append_assoc.
Qed.

Lemma emit_arg_text w p af :
  emit_arg p w af =
  writeln ("            " +:+ af +:+ ": " +:+
           Rust.render_argument match BTree.get af (Pattern.field_map p) with
                                | Some m => mapping_argument w m
                                | None => Rust.Zero
                                end +:+ ",").
Proof.
  unfold emit_arg. destruct (BTree.get af _) as [[r|pos len [] |c]|]; [..|text];
    cbn [emit_field_expr mapping_argument Rust.render_argument]; [text| | |text];
    unfold as_i64, unsigned_segment; cbn [Rust.render Rust.ity_name];
    rewrite ?ity_name_signed; text.
Qed.

Lemma emit_arm_text argsets w p :
  emit_arm argsets w p = Rust.render_arm w (pattern_arm w argsets p).
Proof.
  unfold emit_arm, Rust.render_arm, pattern_arm.
  cbn [Rust.mask Rust.bits Rust.method Rust.struct Rust.args]. f_equal.
  - case_match; text.
  - destruct (arg_fields p argsets) as [|f fs]; [by rewrite decide_True by done|].
    rewrite decide_False by done. cbn [map]. rewrite !append_assoc. f_equal.
    rewrite emit_arg_text. cbn [concat foldr map]. rewrite !append_assoc, map_map. do 2 f_equal.
    apply concat_map_ext. intros af. apply emit_arg_text.
Qed.

(** The text of the decoder of a parsed file. *)
Definition decoder_text (w : Z) (parsed : Parsed.t) (fns : list Rust.fn) : string :=
  writeln "// Auto-generated by decode." +:+ writeln ("// Do not edit." +:+ nl) +:+
  emit_arg_structs (Parsed.argsets parsed) +:+ concat (map Rust.render_fn fns) +:+
  emit_decode_trait (Parsed.patterns parsed) w +:+
  writeln ("pub fn " +:+ fn_name w +:+ "<Ir, T: " +:+ trait_name w
           +:+ "<Ir>>(ctx: &mut T, ir: &mut Ir, insn: " +:+ unsigned_ty w +:+ ") -> bool {") +:+
  concat (map (λ p, Rust.render_arm w (pattern_arm w (Parsed.argsets parsed) p)) (Parsed.patterns parsed)) +:+
  writeln "    false" +:+ writeln ("}" +:+ nl).

Lemma mapM_fmap {A B C} (f : A → option B) (g : B → C) l :
  mapM (λ x, g <$> f x) l = (fmap g) <$> mapM f l.
Proof.
  induction l as [|x l IH]; [done|]. cbn [mapM]. rewrite IH. by destruct (f x), (mapM f l).
Qed.

Lemma generated_text input w parsed fns :
  parse_with_width input w = Ok parsed →
  mapM (extract_fn w) (BTree.values (Parsed.fields parsed)) = Some fns →
  generate_with_width input w = Some (Ok (decoder_text w parsed fns)).
Proof.
  intros Hp Hf. unfold generate_with_width. rewrite Hp.
  rewrite (Forall_mapM_ext _ (λ f, Rust.render_fn <$> extract_fn w f))
    by (apply Forall_true; intros f; apply emit_extract_field_text).
  rewrite mapM_fmap, Hf. cbn [fmap option_fmap option_map mbind option_bind].
  unfold decoder_text, emit_decode_fn. by rewrite (concat_map_ext _ _ _ (emit_arm_text _ w)).
Qed.

(** ** What the file says *)

Module Spec.
(** Bits [pos] to [pos + len - 1] of a word. *)
Definition slice (insn pos len : Z) : Z := (insn / 2 ^ pos) mod 2 ^ len.

Definition segment_value (insn : Z) (s : FieldSegment.t) : Z :=
  let v := slice insn (FieldSegment.pos s) (FieldSegment.len s) in
  if FieldSegment.signed s then signed (FieldSegment.len s) v else v.

(** Segments side by side, the first the most significant and perhaps signed. *)
Definition field_raw (insn : Z) (segs : list FieldSegment.t) : Z :=
  match segs with
  | [] => 0
  | s0 :: segs =>
      foldl (λ v s, v * 2 ^ FieldSegment.len s + slice insn (FieldSegment.pos s) (FieldSegment.len s))
        (segment_value insn s0) segs
  end.

(** The handlers of RISC-V immediates; the others do nothing. *)
Definition transform (func : string) (x : Z) : Z :=
  if String.eqb func "ex_shift_1" then x * 2
  else if String.eqb func "ex_shift_2" then x * 4
  else if String.eqb func "ex_shift_3" then x * 8
  else if String.eqb func "ex_shift_4" then x * 16
  else if String.eqb func "ex_shift_12" then x * 4096
  else if String.eqb func "ex_rvc_register" then x + 8
  else if String.eqb func "ex_sreg_register" then
    default 0 ([8; 9; 18; 19; 20; 21; 22; 23].[x mod 8])
  else x.

Definition field_value (insn : Z) (f : Field.t) : Z :=
  let v := field_raw insn (Field.segments f) in
  match Field.func f with Some func => transform func v | None => v end.

Definition mapping_value (fields : BTree.t Field.t) (insn : Z) (m : FieldMapping.t) : Z :=
  match m with
  | FieldMapping.FieldRef r => from_option (field_value insn) 0 (BTree.get r fields)
  | FieldMapping.Inline pos len signed => segment_value insn (FieldSegment.Build_t pos len signed)
  | FieldMapping.Const c => c
  end.

Definition matches (insn : Z) (p : Pattern.t) : bool :=
  Z.land insn (Pattern.fixedmask p) =? Pattern.fixedbits p.

Definition args (parsed : Parsed.t) (insn : Z) (p : Pattern.t) : list (string * Z) :=
  map (λ af, (af, from_option (mapping_value (Parsed.fields parsed) insn) 0
                    (BTree.get af (Pattern.field_map p))))
    (arg_fields p (Parsed.argsets parsed)).

(** The first pattern that matches. *)
Fixpoint first_match (insn : Z) (ps : list Pattern.t) : option Pattern.t :=
  match ps with
  | [] => None
  | p :: ps => if matches insn p then Some p else first_match insn ps
  end.

Definition decode (parsed : Parsed.t) (insn : Z) : option (string * list (string * Z)) :=
  p ← first_match insn (Parsed.patterns parsed); Some (Pattern.name p, args parsed insn p).
End Spec.

(** ** Files whose decoder means that *)

Definition wf_segment (w : Z) (s : FieldSegment.t) : bool :=
  let '(FieldSegment.Build_t pos len signed) := s in
  (0 <=? pos) && (1 <=? len) && (pos + len <=? w) && (signed || (len <? 32)).

Definition total_len (segs : list FieldSegment.t) : Z :=
  foldr (λ s n, FieldSegment.len s + n) 0 segs.

(** A field: some segments, inside the word, only the first signed, 32 bits in all. *)
Definition wf_field (w : Z) (f : Field.t) : bool :=
  negb (bool_decide (Field.segments f = [])) && forallb (wf_segment w) (Field.segments f) &&
  forallb (λ s, negb (FieldSegment.signed s)) (tail (Field.segments f)) &&
  (total_len (Field.segments f) <=? 32).

Definition wf_mapping (w : Z) (fields : BTree.t Field.t) (m : FieldMapping.t) : bool :=
  match m with
  | FieldMapping.FieldRef r => BTree.contains_key r fields
  | FieldMapping.Inline pos len signed => negb signed && wf_segment w (FieldSegment.Build_t pos len false)
  | FieldMapping.Const _ => true
  end.

Definition wf_parsed (w : Z) (parsed : Parsed.t) : bool :=
  ((w =? 16) || (w =? 32)) &&
  forallb (λ '(k, f), String.eqb k (Field.name f) && wf_field w f) (Parsed.fields parsed) &&
  forallb (λ p, forallb (λ af, match BTree.get af (Pattern.field_map p) with
                               | Some m => wf_mapping w (Parsed.fields parsed) m
                               | None => true
                               end) (arg_fields p (Parsed.argsets parsed))) (Parsed.patterns parsed).

(** ** Slices and shifts *)

(** A signed shift to the right keeps the sign of what is left. *)
Lemma signed_div w r z : 0 ≤ r < w → signed w z / 2 ^ r = signed (w - r) (z / 2 ^ r).
Proof.
  intros Hr.
  assert ((z mod 2 ^ w) / 2 ^ r = (z / 2 ^ r) mod 2 ^ (w - r)) as Hm.
  { apply Z.bits_inj'. intros n Hn. rewrite Z.div_pow2_bits by lia. destruct (decide (n < w - r)).
    - rewrite !Z.mod_pow2_bits_low, Z.div_pow2_bits by lia. done.
    - rewrite !Z.mod_pow2_bits_high by lia. done. }
  unfold signed. rewrite <- Hm.
  assert (0 < 2 ^ r) by (apply pow2_pos; lia).
  assert (2 ^ w = 2 ^ (w - r) * 2 ^ r) as Hw by (rewrite <- Z.pow_add_r by lia; f_equal; lia).
  assert (2 ^ (w - 1) = 2 ^ (w - r - 1) * 2 ^ r) as Hh by (rewrite <- Z.pow_add_r by lia; f_equal; lia).
  set (m := z mod 2 ^ w). destruct (m <? 2 ^ (w - 1)) eqn:E; boolp.
  - rewrite (proj2 (Z.ltb_lt _ _)); [done|]. apply Z.div_lt_upper_bound; lia.
  - rewrite (proj2 (Z.ltb_ge _ _)).
    + rewrite Hw. replace (m - 2 ^ (w - r) * 2 ^ r) with (m + (- 2 ^ (w - r)) * 2 ^ r) by lia.
      rewrite Z.div_add by lia. lia.
    + apply Z.div_le_lower_bound; lia.
Qed.

Lemma signed_mul_mod w x k : 0 < w → signed w (signed w x * k) = signed w (x * k).
Proof.
  intros. rewrite <- (signed_of_mod w (signed w x * k)), <- (signed_of_mod w (x * k)) by done.
  rewrite <- Z.mul_mod_idemp_l, signed_mod, Z.mul_mod_idemp_l by (try done; pose proof (pow2_pos w); lia).
  done.
Qed.

Lemma len_mask_ones len : 0 ≤ len < 32 → len_mask len = 2 ^ len - 1.
Proof.
  intros. unfold len_mask, bit. rewrite (Z.mod_small len), Z.shiftl_1_l by lia.
  assert (0 < 2 ^ len) by (apply pow2_pos; lia).
  assert (2 ^ len < 2 ^ 32) by (apply Z.pow_lt_mono_r; lia).
  rewrite !u32_small; rewrite ?u32_small; lia.
Qed.

Lemma slice_range v pos len : 0 ≤ len → 0 ≤ Spec.slice v pos len < 2 ^ len.
Proof. intros. apply (mod_in_width len). done. Qed.

Lemma segment_value_range v pos len sg :
  1 ≤ len → - 2 ^ len ≤ Spec.segment_value v (FieldSegment.Build_t pos len sg) < 2 ^ len.
Proof.
  intros. unfold Spec.segment_value. simpl. pose proof (slice_range v pos len ltac:(lia)).
  destruct sg; [|lia].
  pose proof (signed_range len (Spec.slice v pos len) ltac:(lia)).
  assert (2 ^ (len - 1) < 2 ^ len) by (apply Z.pow_lt_mono_r; lia). lia.
Qed.

(** ** Running the generated functions *)

Section run.
Variable w : Z.
Hypothesis Hw : w = 16 ∨ w = 32.

Lemma word_bits : Rust.ity_bits (word_type w) = w.
Proof. by destruct Hw as [-> | ->]. Qed.

Lemma signed_bits : Rust.ity_bits (signed_type w) = w.
Proof. by destruct Hw as [-> | ->]. Qed.

Lemma wrap_word x : Rust.wrap (word_type w) x = x mod 2 ^ w.
Proof. by destruct Hw as [-> | ->]. Qed.

Lemma wrap_signed x : Rust.wrap (signed_type w) x = signed w x.
Proof. by destruct Hw as [-> | ->]. Qed.

Lemma wrap_i64 x : - 2 ^ 63 ≤ x < 2 ^ 63 → Rust.wrap Rust.I64 x = x.
Proof. intros. by apply (signed_small 64). Qed.

Variable insn : Z.
Hypothesis Hinsn : 0 ≤ insn < 2 ^ w.
#[local] Notation word := (word_type w, insn).

Lemma eval_unsigned_segment val pos len :
  0 ≤ pos → 1 ≤ len < 32 → pos + len ≤ w →
  Rust.eval word val (unsigned_segment pos len) = Some (word_type w, Spec.slice insn pos len).
Proof.
  intros Hpos Hlen Hsum. unfold unsigned_segment. cbn [Rust.eval mbind option_bind].
  rewrite word_bits, (Z.mod_small pos), len_mask_ones, land_ones_mod, wrap_word, Z.shiftr_div_pow2 by lia.
  fold (Spec.slice insn pos len). rewrite Z.mod_small; [done|].
  pose proof (slice_range insn pos len ltac:(lia)).
  assert (2 ^ len ≤ 2 ^ w) by (apply Z.pow_le_mono_r; lia). lia.
Qed.

Lemma eval_signed_segment val pos len :
  0 ≤ pos → 1 ≤ len → pos + len ≤ w →
  Rust.eval word val (signed_segment w pos len) =
  Some (signed_type w, signed len (Spec.slice insn pos len)).
Proof.
  intros Hpos Hlen Hsum. unfold signed_segment.
  assert (w < 2 ^ 32) by (destruct Hw; subst; lia).
  rewrite (u32_small (w - pos)), (u32_small (w - pos - len)), (u32_small (w - len)) by lia.
  assert (Rust.eval word val
    (if w - pos - len =? 0 then Rust.Paren (Rust.As Rust.Insn (signed_type w))
     else Rust.Paren (Rust.Shl (Rust.Paren (Rust.As Rust.Insn (signed_type w))) (w - pos - len))) =
    Some (signed_type w, signed w (insn * 2 ^ (w - pos - len)))) as He.
  { case_match; boolp; cbn [Rust.eval mbind option_bind].
    - rewrite wrap_signed. by replace (w - pos - len) with 0 by lia; rewrite Z.mul_1_r.
    - rewrite !wrap_signed, signed_bits, (Z.mod_small (w - pos - len)), Z.shiftl_mul_pow2 by lia.
      by rewrite signed_mul_mod by lia. }
  cbn [Rust.eval]. rewrite He. cbn [mbind option_bind].
  rewrite signed_bits, (Z.mod_small (w - len)), Z.shiftr_div_pow2, signed_div by lia.
  replace (w - (w - len)) with len by lia. do 2 f_equal.
  rewrite <- (signed_of_mod len (insn * _ / _)) by lia. rewrite <- (signed_of_mod len (Spec.slice _ _ _)) by lia.
  f_equal. unfold Spec.slice. rewrite Z.mod_mod by (pose proof (pow2_pos len); lia). f_equal.
  replace (w - len) with (w - pos - len + pos) by lia. rewrite Z.pow_add_r by lia.
  rewrite Z.mul_comm, Z.div_mul_cancel_l; [done|..]; pose proof (pow2_pos pos); pose proof (pow2_pos (w - pos - len)); lia.
Qed.

(** A segment has one value, of a type that depends on its sign. *)
Lemma eval_segment val s :
  wf_segment w s = true →
  ∃ t, Rust.eval word val (segment_expr w s) = Some (t, Spec.segment_value insn s).
Proof.
  destruct s as [pos len sg]. intros H. unfold wf_segment in H. boolp.
  unfold segment_expr, Spec.segment_value. cbn [FieldSegment.pos FieldSegment.len FieldSegment.signed].
  destruct sg; cbn [orb] in *; boolp; eexists;
    [apply eval_signed_segment|apply eval_unsigned_segment]; lia.
Qed.

Lemma wf_segment_len s : wf_segment w s = true → 1 ≤ FieldSegment.len s ≤ 32.
Proof. destruct s as [pos len sg]. intros H. unfold wf_segment in H. simpl. boolp. destruct Hw; lia. Qed.

Lemma eval_i64 val e t v :
  Rust.eval word val e = Some (t, v) → - 2 ^ 63 ≤ v < 2 ^ 63 →
  Rust.eval word val (as_i64 e) = Some (Rust.I64, v).
Proof. intros He Hv. unfold as_i64. cbn [Rust.eval]. rewrite He. cbn [mbind option_bind]. by rewrite wrap_i64. Qed.

Lemma segment_small s : wf_segment w s = true →
  - 2 ^ 63 ≤ Spec.segment_value insn s < 2 ^ 63.
Proof.
  intros H. pose proof (wf_segment_len s H) as Hl. destruct s as [pos len sg]. simpl in Hl.
  pose proof (segment_value_range insn pos len sg ltac:(lia)).
  assert (2 ^ len ≤ 2 ^ 32) by (apply Z.pow_le_mono_r; lia). lia.
Qed.

Lemma eval_or val a b :
  Rust.eval word val (Rust.Or a b) =
  '(t, v) ← Rust.eval word val a; '(_, x) ← Rust.eval word val b; Some (t, Rust.wrap t (Z.lor v x)).
Proof. done. Qed.

(** One more segment, to the right of [n] bits. *)
Lemma run_next_stmt s v n :
  wf_segment w s = true → FieldSegment.signed s = false → 0 ≤ n → n + FieldSegment.len s ≤ 32 →
  - 2 ^ n ≤ v < 2 ^ n →
  let v' := v * 2 ^ FieldSegment.len s + Spec.slice insn (FieldSegment.pos s) (FieldSegment.len s) in
  Rust.run_stmt word (next_stmt s) (Rust.I64, v) = Some (Rust.I64, v') ∧
  - 2 ^ (n + FieldSegment.len s) ≤ v' < 2 ^ (n + FieldSegment.len s).
Proof.
  intros Hs Hu Hn Hsum Hv v'. pose proof (wf_segment_len s Hs) as Hl.
  destruct s as [pos len sg]. cbn [FieldSegment.pos FieldSegment.len FieldSegment.signed] in *. subst sg. unfold wf_segment in Hs. cbn [orb] in Hs. boolp.
  pose proof (slice_range insn pos len ltac:(lia)) as Hsl.
  assert (- 2 ^ (n + len) ≤ v' < 2 ^ (n + len)) as Hr.
  { subst v'. rewrite Z.pow_add_r by lia. nia. }
  split; [|done].
  assert (2 ^ (n + len) ≤ 2 ^ 32) by (apply Z.pow_le_mono_r; lia).
  assert (2 ^ len ≤ 2 ^ 32) by (apply Z.pow_le_mono_r; lia).
  unfold next_stmt, Rust.run_stmt. cbv beta iota. rewrite eval_or.
  rewrite (eval_i64 _ _ _ _ (eval_unsigned_segment _ pos len ltac:(lia) ltac:(lia) ltac:(lia))) by lia.
  cbn [Rust.eval mbind option_bind Rust.ity_bits].
  rewrite (Z.mod_small len), Z.shiftl_mul_pow2 by lia.
  rewrite (wrap_i64 (v * 2 ^ len)) by nia.
  rewrite (lor_add_low len); [|lia|done|apply Z.mod_mul; lia].
  fold v'. by rewrite wrap_i64 by lia.
Qed.
Lemma run_next_stmts segs v n :
  forallb (wf_segment w) segs = true → forallb (λ s, negb (FieldSegment.signed s)) segs = true →
  0 ≤ n → n + total_len segs ≤ 32 → - 2 ^ n ≤ v < 2 ^ n →
  let v' := foldl (λ v s, v * 2 ^ FieldSegment.len s +
                          Spec.slice insn (FieldSegment.pos s) (FieldSegment.len s)) v segs in
  Rust.run_stmts word (map next_stmt segs) (Rust.I64, v) = Some (Rust.I64, v') ∧
  - 2 ^ (n + total_len segs) ≤ v' < 2 ^ (n + total_len segs).
Proof.
  revert v n. induction segs as [|s segs IH]; intros v n Hs Hu Hn Hsum Hv; cbn [total_len foldr] in *.
  { rewrite Z.add_0_r. split; [done|apply Hv]. }
  cbn [forallb] in Hs, Hu. boolp. fold (total_len segs) in *.
  pose proof (wf_segment_len s ltac:(done)).
  assert (0 ≤ total_len segs).
  { clear IH Hsum. induction segs as [|s' segs IH]; [done|]. cbn [forallb total_len foldr] in *. boolp.
    pose proof (wf_segment_len s' ltac:(done)). fold (total_len segs). specialize (IH ltac:(done) ltac:(done)). lia. }
  destruct (run_next_stmt s v n) as [Hrun Hv']; [done..|lia|done|].
  destruct (IH (v * 2 ^ FieldSegment.len s + Spec.slice insn (FieldSegment.pos s) (FieldSegment.len s))
              (n + FieldSegment.len s)) as [Hruns Hb]; [done..|lia|lia|done|].
  cbn [map Rust.run_stmts foldl]. rewrite Hrun. cbn [mbind option_bind].
  rewrite Z.add_assoc. by split.
Qed.

Lemma eval_transform func cast val v :
  Rust.eval word val cast = Some (Rust.I64, v) → - 2 ^ 32 ≤ v < 2 ^ 32 →
  Rust.eval word val (transform_expr func cast) = Some (Rust.I64, Spec.transform func v).
Proof.
  intros He Hv. unfold transform_expr, Spec.transform.
  repeat (destruct (String.eqb func _);
    [cbn [Rust.eval]; rewrite He; cbn [mbind option_bind Rust.ity_bits];
     try (rewrite Z.shiftl_mul_pow2 by done;
          match goal with |- context [2 ^ (?k mod 64)] => let x := eval vm_compute in (2 ^ k) in change (2 ^ (k mod 64)) with x end);
     try (rewrite wrap_i64 by lia; done)|]);
    [|done].
  cbn [Rust.wrap Rust.ity_bits]. rewrite (land_ones_mod 3), (mod_mod_pow2 v 3 64) by lia.
  change (2 ^ 3) with 8. pose proof (Z.mod_pos_bound v 8 ltac:(lia)).
  rewrite (Z.mod_small (v mod 8)) by lia.
  destruct (proj2 (zlookup_lt_is_Some [8; 9; 18; 19; 20; 21; 22; 23] (v mod 8))) as [x Hx]; [done|].
  by rewrite Hx.
Qed.

(** The extraction function of a well-formed field returns its value. *)
Lemma call_extract f :
  wf_field w f = true →
  ∃ fn, extract_fn w f = Some fn ∧ Rust.fname fn = Field.name f ∧
        Rust.call fn insn = Some (Spec.field_value insn f).
Proof.
  unfold wf_field. intros H. boolp. unfold Spec.field_value, extract_fn.
  assert (∃ body cast val,
    match Field.segments f with
    | [s] => Some ([Rust.Let (segment_expr w s)], Rust.As Rust.Val Rust.I64)
    | s0 :: segs => Some (Rust.LetMut (as_i64 (segment_expr w s0)) :: map next_stmt segs, Rust.Val)
    | [] => None
    end = Some (body, cast) ∧
    Rust.run_stmts word body (Rust.I64, 0) = Some val ∧
    Rust.eval word val cast = Some (Rust.I64, Spec.field_raw insn (Field.segments f)) ∧
    - 2 ^ 32 ≤ Spec.field_raw insn (Field.segments f) < 2 ^ 32) as (body & cast & val & -> & Hb & Hc & Hr).
  { destruct (Field.segments f) as [|s0 segs]; [done|]. cbn [forallb tail total_len foldr] in *. boolp.
    fold (total_len segs) in *.
    destruct (eval_segment (Rust.I64, 0) s0) as [t Ht]; [done|].
    pose proof (segment_small s0 ltac:(done)). pose proof (wf_segment_len s0 ltac:(done)).
    assert (- 2 ^ FieldSegment.len s0 ≤ Spec.segment_value insn s0 < 2 ^ FieldSegment.len s0) as Hs0.
    { destruct s0. apply segment_value_range. simpl in *. lia. }
    destruct segs as [|s1 segs].
    - do 3 eexists. split; [done|]. cbn [Rust.run_stmts Rust.run_stmt]. rewrite Ht.
      split; [done|]. cbn [Rust.eval mbind option_bind Spec.field_raw foldl].
      rewrite wrap_i64 by done. split; [done|].
      assert (2 ^ FieldSegment.len s0 ≤ 2 ^ 32) by (apply Z.pow_le_mono_r; lia). lia.
    - destruct (run_next_stmts (s1 :: segs) (Spec.segment_value insn s0) (FieldSegment.len s0))
        as [Hrun Hbound]; [done..|lia|lia|done|].
      do 3 eexists. split; [done|]. cbn [Rust.run_stmts Rust.run_stmt].
      rewrite (eval_i64 _ _ _ _ Ht) by done. cbn [mbind option_bind].
      split; [exact Hrun|]. split; [done|]. unfold Spec.field_raw.
      assert (2 ^ (FieldSegment.len s0 + total_len (s1 :: segs)) ≤ 2 ^ 32)
        by (apply Z.pow_le_mono_r; lia). lia. }
  cbn [mbind option_bind]. eexists. split; [done|].
  unfold field_fn, Rust.call.
  destruct (Field.func f) as [func|]; cbn [Rust.fname Rust.word_ty Rust.body Rust.result]; (split; [done|]);
    rewrite wrap_word, Z.mod_small, Hb by done; cbn [mbind option_bind];
    [rewrite (eval_transform func _ _ _ Hc Hr)|rewrite Hc]; done.
Qed.

Lemma eval_mapping parsed fns m :
  mapM (extract_fn w) (BTree.values (Parsed.fields parsed)) = Some fns →
  forallb (λ '(k, f), String.eqb k (Field.name f) && wf_field w f) (Parsed.fields parsed) = true →
  wf_mapping w (Parsed.fields parsed) m = true →
  Rust.eval_argument fns word (mapping_argument w m) =
  Some (Spec.mapping_value (Parsed.fields parsed) insn m).
Proof.
  intros Hfns Hwf Hm. destruct m as [r|pos len sg|c]; [..|done]; cbn [mapping_argument Rust.eval_argument].
  - unfold wf_mapping, BTree.contains_key in Hm. unfold Spec.mapping_value, BTree.values in *.
    revert fns Hfns Hm. induction (Parsed.fields parsed) as [|[k f] fs IH]; intros fns Hfns Hm; [done|].
    cbn [forallb BTree.get] in *. boolp.
    match goal with H : String.eqb k _ = true |- _ => apply String.eqb_eq in H as -> end.
    destruct (call_extract f) as (fn & Hf & Hname & Hcall); [done|].
    change (mapM (extract_fn w) (f :: fs.*2) = Some fns) in Hfns. cbn [mapM] in Hfns.
    rewrite Hf in Hfns. cbn [mbind option_bind] in Hfns.
    destruct (mapM (extract_fn w) fs.*2) as [fns'|] eqn:E; [|done]. injection Hfns as <-.
    cbn [list_find]. destruct (String.eqb r (Field.name f)) eqn:Er.
    + apply String.eqb_eq in Er as ->. rewrite decide_True by done. done.
    + apply String.eqb_neq in Er. rewrite decide_False by congruence.
      specialize (IH ltac:(done) fns' ltac:(done) ltac:(done)).
      destruct (list_find _ fns') as [[i g]|]; [|done]. exact IH.
  - cbn [wf_mapping] in Hm. boolp. subst sg. unfold wf_segment in *. cbn [orb] in *. boolp.
    rewrite (eval_i64 _ _ _ _ (eval_unsigned_segment _ pos len ltac:(lia) ltac:(lia) ltac:(lia))).
    { done. }
    pose proof (slice_range insn pos len ltac:(lia)).
    assert (2 ^ len ≤ 2 ^ 32) by (apply Z.pow_le_mono_r; lia). lia.
Qed.
End run.

Lemma extract_total w (Hw : w = 16 ∨ w = 32) fs :
  Forall (λ f, wf_field w f = true) fs → is_Some (mapM (extract_fn w) fs).
Proof.
  intros H. apply mapM_is_Some_2. eapply Forall_impl; [exact H|]. intros f Hf.
  destruct (call_extract w Hw 0 ltac:(pose proof (pow2_pos w); destruct Hw; lia) f Hf) as (fn & Hfn & _). by exists fn.
Qed.

Lemma run_arms_spec w parsed fns insn :
  w = 16 ∨ w = 32 → 0 ≤ insn < 2 ^ w →
  mapM (extract_fn w) (BTree.values (Parsed.fields parsed)) = Some fns →
  wf_parsed w parsed = true →
  Rust.run_arms fns (word_type w, insn)
    (map (pattern_arm w (Parsed.argsets parsed)) (Parsed.patterns parsed)) =
  Some (Spec.decode parsed insn).
Proof.
  intros Hw Hinsn Hfns Hwf. unfold wf_parsed in Hwf. boolp. unfold Spec.decode.
  induction (Parsed.patterns parsed) as [|p ps IH]; [done|].
  cbn [map forallb Rust.run_arms Spec.first_match snd] in *. boolp.
  assert (Rust.matches (pattern_arm w (Parsed.argsets parsed) p) insn = Spec.matches insn p) as ->.
  { unfold Rust.matches, Spec.matches, pattern_arm. cbn [Rust.mask Rust.bits].
    destruct (Pattern.fixedmask p =? full_mask w) eqn:E; [|done]. boolp. rewrite E.
    assert (full_mask w = 2 ^ w - 1) as -> by (destruct Hw as [-> | ->]; done).
    rewrite land_ones_mod, Z.mod_small by (destruct Hw; lia). done. }
  destruct (Spec.matches insn p); [|by apply IH].
  cbn [mbind option_bind]. unfold Spec.args, pattern_arm. cbn [Rust.args Rust.method].
  match goal with H : forallb _ (arg_fields p _) = true |- _ => rename H into Hargs end.
  induction (arg_fields p (Parsed.argsets parsed)) as [|af afs IHa]; [done|].
  cbn [map mapM forallb] in *. boolp.
  assert (Rust.eval_argument fns (word_type w, insn)
    match BTree.get af (Pattern.field_map p) with Some m => mapping_argument w m | None => Rust.Zero end =
    Some (from_option (Spec.mapping_value (Parsed.fields parsed) insn) 0 (BTree.get af (Pattern.field_map p))))
    as ->.
  { destruct (BTree.get af (Pattern.field_map p)) as [m|]; [|done]. by apply eval_mapping. }
  cbn [mbind option_bind]. specialize (IHa ltac:(done)).
  destruct (mapM _ (map _ afs)) as [vs|]; cbn in IHa |- *; [|done]. by injection IHa as ->.
Qed.

Lemma wf_parsed_fields w parsed :
  wf_parsed w parsed = true → Forall (λ f, wf_field w f = true) (BTree.values (Parsed.fields parsed)).
Proof.
  unfold wf_parsed. intros H. boolp.
  match goal with H : forallb _ (Parsed.fields _) = true |- _ => revert H end. clear. unfold BTree.values.
  induction (Parsed.fields parsed) as [|[k f] fs IH]; cbn [forallb]; [constructor|].
  intros ?. boolp. constructor; [done|by apply IH].
Qed.

Lemma wf_parsed_width w parsed : wf_parsed w parsed = true → w = 16 ∨ w = 32.
Proof.
  unfold wf_parsed. intros H. do 2 (apply andb_prop in H as [H _]). apply orb_prop in H as [?|?]; boolp; auto.
Qed.

(** C6. The generator is correct: on a file that parses to well-formed fields (16- or 32-bit
    words), the text written is the rendering of a program of extraction functions and tests
    (parentheses, casts and literals included), and running that program in Rust's types on any word
    calls the method of the first pattern whose fixed bits match, with every argument the
    value the file gives it: segments side by side, the sign of the first, its handler. *)
Theorem generated_decoder_correct input w parsed :
  parse_with_width input w = Ok parsed → wf_parsed w parsed = true →
  ∃ fns,
    generate_with_width input w = Some (Ok (decoder_text w parsed fns)) ∧
    ∀ insn, 0 ≤ insn < 2 ^ w →
      Rust.run_arms fns (word_type w, insn)
        (map (pattern_arm w (Parsed.argsets parsed)) (Parsed.patterns parsed)) =
      Some (Spec.decode parsed insn).
Proof.
  intros Hp Hwf. pose proof (wf_parsed_width w parsed Hwf) as Hw.
  destruct (extract_total w Hw _ (wf_parsed_fields w parsed Hwf)) as [fns Hfns].
  exists fns. split; [by apply generated_text|]. intros insn Hinsn. by apply run_arms_spec.
Qed.

(** A small file: two fields, one of two segments, and an inline one. *)
Definition mini_text : string :=
"%rd 7:5
%imm_s 25:s7 7:5 !function=ex_shift_1
&s imm rd
@s ....... ..... ..... ... ..... ....... &s imm=%imm_s %rd
sb ....... ..... ..... 000 ..... 0100011 @s # a store
fence ---- pred:4 succ:4 ----- 000 ----- 0001111
".

Definition mini_parsed : Parsed.t :=
  match parse_with_width mini_text 32 with Ok p => p | Err _ => Parsed.Build_t [] [] [] end.

Lemma generated_decoder_correct_witness :
  ∃ fns,
    generate_with_width mini_text 32 =
      Some (Ok (decoder_text 32 mini_parsed fns)) ∧
    Rust.run_arms fns (word_type 32, 0xfe002fa3)
      (map (pattern_arm 32 (Parsed.argsets mini_parsed))
           (Parsed.patterns mini_parsed)) =
    Some None ∧
    Rust.run_arms fns (word_type 32, 0xfe000fa3)
      (map (pattern_arm 32 (Parsed.argsets mini_parsed))
           (Parsed.patterns mini_parsed)) =
    Some (Some ("sb", [("imm", -2); ("rd", 31)])).
Proof.
  destruct (generated_decoder_correct mini_text 32
              mini_parsed
              ltac:(vm_compute; reflexivity) ltac:(vm_compute; reflexivity)) as (fns & Hg & Hr).
  exists fns. split; [exact Hg|]. split; (etransitivity; [apply Hr; lia|vm_compute; reflexivity]).
Defined.
