(* ===== verification/Encoding.v ===== *)
(** * Instruction encodings, and how a decoder reads them

    An encoding is a list of pieces, from the most significant bit: constants and bits
    [hi..lo] of an argument ([Encoding.encode]).  To show that a decoder recovers the
    arguments of every word of an encoding, the word is run through the patterns bit by bit
    ([Sym]): a bit is known, or is bit [i] of an argument.  One computation ([Sym.decodes])
    then settles the matter for all values of the arguments ([sym_decodes]). *)

From S2P Require Import Prelude Text DecodeTool Generated.

#[local] Open Scope string_scope.
#[local] Open Scope Z_scope.

(** ** Encodings *)

Module Encoding.
Inductive piece :=
  | Fix (len : nat) (v : Z)
  | Arg (a : string) (hi lo : nat).

Definition len (p : piece) : nat := match p with Fix n _ => n | Arg _ hi lo => S hi - lo end.

Definition value (arg : string → Z) (p : piece) : Z :=
  match p with
  | Fix n v => v mod 2 ^ Z.of_nat n
  | Arg a hi lo => Spec.slice (arg a) (Z.of_nat lo) (Z.of_nat (len p))
  end.

Definition encode (ps : list piece) (arg : string → Z) : Z :=
  foldl (λ w p, w * 2 ^ Z.of_nat (len p) + value arg p) 0 ps.

(** What an argument may be: unsigned of [n] bits; signed of [n] bits with [k] zeros at the
    end; unsigned of [n] bits with [k] zeros at the end; a register from 8 on, of 3 bits; a
    constant. *)
Inductive kind :=
  | Unsigned (n : nat)
  | Signed (n k : nat)
  | Scaled (n k : nat)
  | High
  | Always (v : Z).

Definition in_kind (k : kind) (v : Z) : Prop :=
  match k with
  | Unsigned n => 0 ≤ v < 2 ^ Z.of_nat n
  | Signed n k => - 2 ^ (Z.of_nat n - 1) ≤ v < 2 ^ (Z.of_nat n - 1) ∧ v mod 2 ^ Z.of_nat k = 0
  | Scaled n k => 0 ≤ v < 2 ^ Z.of_nat n ∧ v mod 2 ^ Z.of_nat k = 0
  | High => 8 ≤ v < 16
  | Always c => v = c
  end.

#[global] Instance in_kind_dec k v : Decision (in_kind k v).
Proof. destruct k; unfold in_kind; apply _. Defined.

(** The pieces, and the kind of each argument. *)
Record form := { pieces : list piece; kinds : list (string * kind) }.
End Encoding.

(** ** Words with symbolic bits *)

Module Sym.
Inductive bit := Known (b : bool) | Of (a : string) (i : nat).

#[global] Instance bit_eq_dec : EqDecision bit.
Proof. solve_decision. Defined.

Definition denote (arg : string → Z) (b : bit) : bool :=
  match b with Known b => b | Of a i => Z.testbit (arg a) (Z.of_nat i) end.

(** The least significant bit first. *)
Fixpoint word (arg : string → Z) (bs : list bit) : Z :=
  match bs with [] => 0 | b :: bs => Z.b2z (denote arg b) + 2 * word arg bs end.

Definition piece_bits (p : Encoding.piece) : list bit :=
  match p with
  | Encoding.Fix n v => map (λ i, Known (Z.testbit v (Z.of_nat i))) (seq 0 n)
  | Encoding.Arg a hi lo => map (Of a) (seq lo (S hi - lo))
  end.

Definition bits (ps : list Encoding.piece) : list bit := foldl (λ bs p, piece_bits p ++ bs)%list [] ps.

(** Every fixed bit of the pattern is known and has the value asked for. *)
Definition hit (p : Pattern.t) (bs : list bit) : bool :=
  (0 <=? Pattern.fixedmask p) && (0 <=? Pattern.fixedbits p) &&
  (Pattern.fixedmask p <? 2 ^ 32) && (Pattern.fixedbits p <? 2 ^ 32) &&
  forallb (λ j, let m := Z.testbit (Pattern.fixedmask p) (Z.of_nat j) in
                let v := Z.testbit (Pattern.fixedbits p) (Z.of_nat j) in
                if m then match bs !! j with Some (Known b) => Bool.eqb b v | _ => false end else negb v)
    (seq 0 32).

(** Some fixed bit is known and has the other value. *)
Definition clash (p : Pattern.t) (bs : list bit) : bool :=
  existsb (λ j, Z.testbit (Pattern.fixedmask p) (Z.of_nat j) &&
                match bs !! j with
                | Some (Known b) => negb (Bool.eqb b (Z.testbit (Pattern.fixedbits p) (Z.of_nat j)))
                | _ => false
                end) (seq 0 32).

(** All encoded bits of [a], an argument of kind [k], are fixed to those of [v]. *)
Definition forces (p : Pattern.t) (bs : list bit) (a : string) (idx : list nat) (v : Z) : bool :=
  forallb (λ i, existsb (λ j, bool_decide (bs !! j = Some (Of a i)) &&
                              Z.testbit (Pattern.fixedmask p) (Z.of_nat j) &&
                              Bool.eqb (Z.testbit (Pattern.fixedbits p) (Z.of_nat j)) (Z.testbit v (Z.of_nat i)))
                        (seq 0 32)) idx.

(** The bits of an argument that an encoding has. *)
Definition kind_bits (k : Encoding.kind) : list nat :=
  match k with
  | Encoding.Unsigned n => seq 0 n
  | Encoding.Signed n k | Encoding.Scaled n k => seq k (n - k)
  | Encoding.High => seq 0 3
  | Encoding.Always _ => []
  end.

(** The pattern does not match, given the values in [ne] that arguments do not have. *)
Definition miss (p : Pattern.t) (bs : list bit) (kinds : list (string * Encoding.kind))
  (ne : list (string * Z)) : bool :=
  clash p bs ||
  existsb (λ '(a, v), match BTree.get a kinds with
                      | Some (Encoding.Always _) | None => false
                      | Some k => bool_decide (Encoding.in_kind k v) && forces p bs a (kind_bits k) v
                      end) ne.

(** The pattern that every such word matches first. *)
Fixpoint first_match (ps : list Pattern.t) (bs : list bit) (kinds : list (string * Encoding.kind))
  (ne : list (string * Z)) : option Pattern.t :=
  match ps with
  | [] => None
  | p :: ps =>
      if hit p bs then Some p
      else if miss p bs kinds ne then first_match ps bs kinds ne else None
  end.

Definition segment_bits (bs : list bit) (s : FieldSegment.t) : list bit :=
  take (Z.to_nat (FieldSegment.len s)) (drop (Z.to_nat (FieldSegment.pos s)) bs).

Definition field_bits (bs : list bit) (segs : list FieldSegment.t) : list bit :=
  foldl (λ acc s, segment_bits bs s ++ acc)%list [] segs.

(** The zeros a handler puts at the end of a field. *)
Definition shift_of (func : option string) : option nat :=
  match func with
  | None => Some O
  | Some f =>
      if String.eqb f "ex_shift_1" then Some 1%nat
      else if String.eqb f "ex_shift_2" then Some 2%nat
      else if String.eqb f "ex_shift_3" then Some 3%nat
      else if String.eqb f "ex_shift_4" then Some 4%nat
      else if String.eqb f "ex_shift_12" then Some 12%nat
      else if String.eqb f "ex_rvc_shiftli" || String.eqb f "ex_rvc_shiftri" then Some O
      else None
  end.

(** The bits of a field are those of [a], from bit [k], and then zeros. *)
Definition is_arg (a : string) (k n : nat) (l : list bit) : bool :=
  bool_decide (take (n - k) l = map (Of a) (seq k (n - k))) &&
  forallb (λ b, bool_decide (b = Known false)) (drop (n - k) l).

(** A field that returns the value of argument [a]. *)
Definition field_is (bs : list bit) (f : Field.t) (a : string) (kd : Encoding.kind) : bool :=
  let l := field_bits bs (Field.segments f) in
  let sg := match Field.segments f with s :: _ => FieldSegment.signed s | [] => false end in
  match kd with
  | Encoding.Unsigned n => bool_decide (shift_of (Field.func f) = Some O) && negb sg && is_arg a 0 n l
  | Encoding.Scaled n k => bool_decide (shift_of (Field.func f) = Some k) && negb sg && is_arg a k n l && (Nat.leb k n)
  | Encoding.Signed n k =>
      bool_decide (shift_of (Field.func f) = Some k) && sg && bool_decide (l = map (Of a) (seq k (n - k))) &&
      (Nat.ltb k n)
  | Encoding.High => bool_decide (Field.func f = Some "ex_rvc_register") && negb sg && is_arg a 0 3 l
  | Encoding.Always _ => false
  end.

Definition mapping_is (fields : BTree.t Field.t) (bs : list bit) (m : FieldMapping.t) (a : string)
  (kd : Encoding.kind) : bool :=
  match m with
  | FieldMapping.Const c => match kd with Encoding.Always v => c =? v | _ => false end
  | FieldMapping.FieldRef r =>
      match BTree.get r fields with Some f => field_is bs f a kd | None => false end
  | FieldMapping.Inline pos len sg =>
      field_is bs (Field.Build_t "" [FieldSegment.Build_t pos len sg] None) a kd
  end.

(** Every word of the form, with arguments other than those in [ne], decodes to a call of
    [method] whose struct has the fields [names], in this order, each with its argument. *)
Definition decodes (parsed : Parsed.t) (f : Encoding.form) (ne : list (string * Z))
  (method : string) (names : list (string * string)) : bool :=
  let bs := bits (Encoding.pieces f) in
  match first_match (Parsed.patterns parsed) bs (Encoding.kinds f) ne with
  | None => false
  | Some p =>
      String.eqb (Pattern.name p) method &&
      bool_decide (arg_fields p (Parsed.argsets parsed) = names.*1) &&
      forallb (λ '(fd, a), match BTree.get a (Encoding.kinds f) with
                           | None => false
                           | Some k =>
                               match BTree.get fd (Pattern.field_map p) with
                               | Some m => mapping_is (Parsed.fields parsed) bs m a k
                               | None => match k with Encoding.Always v => v =? 0 | _ => false end
                               end
                           end) names
  end.
End Sym.

(** ** Symbolic words and words *)

Section sym.
Variable arg : string → Z.
Implicit Types (bs : list Sym.bit) (ps : list Encoding.piece).

Lemma word_range bs : 0 ≤ Sym.word arg bs < 2 ^ zlen bs.
Proof.
  induction bs as [|b bs IH]; [done|]. cbn [Sym.word]. unfold zlen in *. cbn [List.length].
  rewrite Nat2Z.inj_succ, Z.pow_succ_r by lia. destruct (Sym.denote arg b); simpl; lia.
Qed.

Lemma word_app l bs : Sym.word arg (l ++ bs) = Sym.word arg l + 2 ^ zlen l * Sym.word arg bs.
Proof.
  induction l as [|b l IH]; cbn [app Sym.word]; [rewrite Z.mul_1_l; done|].
  rewrite IH. unfold zlen. cbn [List.length]. rewrite Nat2Z.inj_succ, Z.pow_succ_r by lia. lia.
Qed.

Lemma word_testbit bs (j : nat) :
  Z.testbit (Sym.word arg bs) (Z.of_nat j) = from_option (Sym.denote arg) false (bs !! j).
Proof.
  revert j. induction bs as [|b bs IH]; intros j; [by rewrite Z.testbit_0_l|].
  cbn [Sym.word]. rewrite Z.add_comm. destruct j as [|j].
  - rewrite Z.testbit_0_r. done.
  - rewrite Nat2Z.inj_succ, Z.testbit_succ_r by lia. apply IH.
Qed.

Lemma word_of_seq (f : nat → Sym.bit) (x : Z) lo n :
  (∀ i, Sym.denote arg (f i) = Z.testbit x (Z.of_nat i)) →
  Sym.word arg (map f (seq lo n)) = Spec.slice x (Z.of_nat lo) (Z.of_nat n).
Proof.
  intros Hf. apply Z.bits_inj'. intros j Hj. rewrite <- (Z2Nat.id j) by done. rewrite word_testbit.
  unfold Spec.slice. destruct (decide (Z.to_nat j < n)%nat).
  - rewrite Z.mod_pow2_bits_low, Z.div_pow2_bits by lia.
    rewrite list_lookup_fmap, lookup_seq_lt by done. cbn. rewrite Hf. f_equal. lia.
  - rewrite Z.mod_pow2_bits_high by lia. rewrite list_lookup_fmap, lookup_seq_ge by lia. done.
Qed.

Lemma word_piece p : Sym.word arg (Sym.piece_bits p) = Encoding.value arg p.
Proof.
  destruct p as [n v|a hi lo]; cbn [Sym.piece_bits Encoding.value Encoding.len].
  - rewrite (word_of_seq _ v) by done. unfold Spec.slice. by rewrite Z.div_1_r.
  - by rewrite (word_of_seq _ (arg a)).
Qed.

Lemma length_piece p : zlen (Sym.piece_bits p) = Z.of_nat (Encoding.len p).
Proof. unfold zlen. by destruct p; cbn; rewrite length_map, length_seq. Qed.

(** An encoded word is its symbolic word. *)
Lemma encode_word ps : Encoding.encode ps arg = Sym.word arg (Sym.bits ps).
Proof.
  unfold Encoding.encode, Sym.bits. change 0 with (Sym.word arg []). generalize (@nil Sym.bit) as bs.
  induction ps as [|p ps IH]; intros bs; cbn [foldl]; [done|].
  rewrite <- IH, word_app, word_piece, length_piece. f_equal. lia.
Qed.

(** ** Patterns *)

Lemma hit_matches p bs : Sym.hit p bs = true → Spec.matches (Sym.word arg bs) p = true.
Proof.
  unfold Sym.hit, Spec.matches. intros H. boolp. apply Z.eqb_eq. apply Z.bits_inj'. intros j Hj.
  rewrite Z.land_spec.
  match goal with H : forallb _ _ = true |- _ => rewrite forallb_forall in H; rename H into Hf end.
  destruct (decide (j < 32)) as [Hlt|].
  - specialize (Hf (Z.to_nat j) ltac:(apply in_seq; lia)). rewrite Z2Nat.id in Hf by done.
    rewrite <- (Z2Nat.id j), word_testbit, Z2Nat.id by done.
    destruct (Z.testbit (Pattern.fixedmask p) j); [|rewrite andb_false_r; by apply negb_true_iff in Hf].
    destruct (bs !! Z.to_nat j) as [[b|]|]; try done. apply Bool.eqb_prop in Hf as ->. by rewrite andb_true_r.
  - assert (∀ x, 0 ≤ x < 2 ^ 32 → Z.testbit x j = false) as Hhi.
    { intros x Hx. rewrite <- (mod_small_width 32 x) by done. apply Z.mod_pow2_bits_high. lia. }
    rewrite !(Hhi (Pattern.fixedmask p)), (Hhi (Pattern.fixedbits p)), andb_false_r by lia. done.
Qed.

Lemma fixed_bit p w j :
  Spec.matches w p = true → Z.testbit (Pattern.fixedmask p) j = true →
  Z.testbit w j = Z.testbit (Pattern.fixedbits p) j.
Proof.
  unfold Spec.matches. intros H Hm. boolp. rewrite <- H, Z.land_spec, Hm, andb_true_r. done.
Qed.

Lemma clash_no_match p bs : Sym.clash p bs = true → Spec.matches (Sym.word arg bs) p = false.
Proof.
  unfold Sym.clash. rewrite existsb_exists. intros (j & _ & H). apply andb_prop in H as [Hm H].
  apply not_true_iff_false. intros Hw. apply (fixed_bit _ _ _ Hw) in Hm.
  rewrite word_testbit in Hm. destruct (bs !! j) as [[b|]|]; try done. simpl in Hm. subst b.
  by rewrite Bool.eqb_reflx in H.
Qed.

(** Two values of a kind are equal if the bits an encoding has are. *)
Lemma kind_bits_inj k v v' :
  (∀ c, k ≠ Encoding.Always c) → Encoding.in_kind k v → Encoding.in_kind k v' →
  (∀ i, i ∈ Sym.kind_bits k → Z.testbit v (Z.of_nat i) = Z.testbit v' (Z.of_nat i)) → v = v'.
Proof.
  intros Hk Hv Hv' Hb.
  assert (∀ n (x y : Z), (∀ i, (i < n)%nat → Z.testbit x (Z.of_nat i) = Z.testbit y (Z.of_nat i)) →
          x mod 2 ^ Z.of_nat n = y mod 2 ^ Z.of_nat n) as Hlow.
  { intros n x y Hxy. apply Z.bits_inj'. intros j Hj. destruct (decide (j < Z.of_nat n)).
    - rewrite !Z.mod_pow2_bits_low by lia. rewrite <- (Z2Nat.id j) by done. apply Hxy. lia.
    - by rewrite !Z.mod_pow2_bits_high by lia. }
  assert (∀ k x i, x mod 2 ^ Z.of_nat k = 0 → (i < k)%nat → Z.testbit x (Z.of_nat i) = false) as Hz.
  { intros k0 x i Hx Hi. rewrite <- (Z.mod_pow2_bits_low x (Z.of_nat k0)) by lia. by rewrite Hx, Z.bits_0. }
  destruct k as [n|n k|n k| |c]; cbn [Encoding.in_kind Sym.kind_bits] in *.
  - rewrite <- (Z.mod_small v (2 ^ Z.of_nat n)), <- (Z.mod_small v' (2 ^ Z.of_nat n)) by done.
    apply Hlow. intros i Hi. apply Hb, elem_of_seq. lia.
  - destruct Hv as [Hv Hv0], Hv' as [Hv' Hv0']. destruct n as [|n]; [simpl in *; lia|].
    rewrite <- (signed_small (Z.of_nat (S n)) v), <- (signed_small (Z.of_nat (S n)) v') by first [lia|done].
    rewrite <- signed_of_mod, <- (signed_of_mod _ v') by lia. f_equal. apply Hlow.
    intros i Hi. destruct (decide (i < k)%nat); [by rewrite !(Hz k)|]. apply Hb, elem_of_seq. lia.
  - destruct Hv as [Hv Hv0], Hv' as [Hv' Hv0'].
    rewrite <- (Z.mod_small v (2 ^ Z.of_nat n)), <- (Z.mod_small v' (2 ^ Z.of_nat n)) by done.
    apply Hlow. intros i Hi. destruct (decide (i < k)%nat); [by rewrite !(Hz k)|]. apply Hb, elem_of_seq. lia.
  - assert (v mod 2 ^ Z.of_nat 3 = v' mod 2 ^ Z.of_nat 3) as Hm.
    { apply Hlow. intros i Hi. apply Hb, elem_of_seq. lia. }
    change (2 ^ Z.of_nat 3) with 8 in Hm. Z.to_euclidean_division_equations. lia.
  - by destruct (Hk c).
Qed.
Variable kinds : list (string * Encoding.kind).
Variable ne : list (string * Z).
Hypothesis Hkinds : ∀ a k, BTree.get a kinds = Some k → Encoding.in_kind k (arg a).
Hypothesis Hne : ∀ a v, (a, v) ∈ ne → arg a ≠ v.

Lemma miss_no_match p bs : Sym.miss p bs kinds ne = true → Spec.matches (Sym.word arg bs) p = false.
Proof.
  unfold Sym.miss. intros H. apply orb_prop in H as [H|H]; [by apply clash_no_match|].
  apply existsb_exists in H as ([a v] & Hin & H).
  apply not_true_iff_false. intros Hw. apply list_elem_of_In in Hin. apply (Hne a v Hin).
  destruct (BTree.get a kinds) as [k|] eqn:Ek; [|done].
  assert ((∀ c, k ≠ Encoding.Always c) ∧ Encoding.in_kind k v ∧
          Sym.forces p bs a (Sym.kind_bits k) v = true) as (Hk & Hv & Hf).
  { destruct k; try done; boolp; done. }
  apply (kind_bits_inj k); [done|by apply Hkinds|done|]. intros i Hi.
  unfold Sym.forces in Hf. rewrite forallb_forall in Hf.
  specialize (Hf i ltac:(by apply list_elem_of_In)). apply existsb_exists in Hf as (j & _ & Hj).
  apply andb_prop in Hj as [Hj Hb]. apply andb_prop in Hj as [Hj Hm]. boolp.
  apply Bool.eqb_prop in Hb. rewrite <- Hb, <- (fixed_bit _ _ _ Hw Hm), word_testbit, Hj. done.
Qed.

Lemma first_match_sym patterns bs p :
  Sym.first_match patterns bs kinds ne = Some p →
  Spec.first_match (Sym.word arg bs) patterns = Some p ∧ p ∈ patterns.
Proof.
  induction patterns as [|q qs IH]; [done|]. cbn [Sym.first_match Spec.first_match].
  destruct (Sym.hit q bs) eqn:Eh.
  - intros [= ->]. rewrite hit_matches by done. split; [done|left].
  - destruct (Sym.miss q bs kinds ne) eqn:Em; [|done]. intros H. rewrite miss_no_match by done.
    destruct (IH H). split; [done|by right].
Qed.

(** ** Fields *)

Lemma slice_word bs s :
  0 ≤ FieldSegment.pos s → 0 ≤ FieldSegment.len s →
  Spec.slice (Sym.word arg bs) (FieldSegment.pos s) (FieldSegment.len s) =
  Sym.word arg (Sym.segment_bits bs s).
Proof.
  intros Hp Hl. apply Z.bits_inj'. intros j Hj. unfold Spec.slice, Sym.segment_bits.
  rewrite <- (Z2Nat.id j), word_testbit by done. destruct (decide (j < FieldSegment.len s)).
  - rewrite Z.mod_pow2_bits_low, Z.div_pow2_bits by lia.
    replace (Z.of_nat (Z.to_nat j) + FieldSegment.pos s)
      with (Z.of_nat (Z.to_nat (FieldSegment.pos s) + Z.to_nat j)) by lia.
    rewrite word_testbit, lookup_take_lt, lookup_drop by lia. done.
  - rewrite Z.mod_pow2_bits_high by lia. rewrite lookup_take_ge by lia. done.
Qed.

(** Signed if [sg]. *)
Definition read (sg : bool) (l : list Sym.bit) : Z :=
  if sg then signed (zlen l) (Sym.word arg l) else Sym.word arg l.

Lemma read_app sg l b :
  0 < zlen b → read sg (l ++ b) = read sg b * 2 ^ zlen l + Sym.word arg l.
Proof.
  intros Hb. unfold read. rewrite word_app, zlen_app. destruct sg; [|lia].
  pose proof (word_range l). pose proof (word_range b). pose proof (zlen_nonneg l).
  unfold signed. rewrite (Z.mod_small (Sym.word arg b)) by done.
  assert (2 ^ (zlen l + zlen b) = 2 ^ zlen l * 2 ^ zlen b) as Hp by (apply Z.pow_add_r; lia).
  assert (2 ^ (zlen l + zlen b - 1) = 2 ^ zlen l * 2 ^ (zlen b - 1)) as Hh
    by (rewrite <- Z.pow_add_r by lia; f_equal; lia).
  rewrite Hp, Hh, Z.mod_small by nia.
  destruct (Sym.word arg b <? 2 ^ (zlen b - 1)) eqn:E; boolp.
  - rewrite (proj2 (Z.ltb_lt _ _)) by nia. lia.
  - rewrite (proj2 (Z.ltb_ge _ _)) by nia. lia.
Qed.

Lemma segment_bits_len w bs s :
  zlen bs = w → wf_segment w s = true → zlen (Sym.segment_bits bs s) = FieldSegment.len s.
Proof.
  destruct s as [pos len sg]. unfold wf_segment, Sym.segment_bits, zlen. simpl. intros Hb H. boolp.
  rewrite length_take, length_drop. lia.
Qed.

(** The symbolic bits of a field are its value. *)
Lemma field_raw_word w bs segs sg :
  zlen bs = w → forallb (wf_segment w) segs = true → segs ≠ [] →
  sg = match segs with s :: _ => FieldSegment.signed s | [] => false end →
  Spec.field_raw (Sym.word arg bs) segs = read sg (Sym.field_bits bs segs) ∧
  0 < zlen (Sym.field_bits bs segs).
Proof.
  intros Hb Hwf Hne0 ->. destruct segs as [|s0 segs]; [done|]. clear Hne0. cbn [forallb] in Hwf. boolp.
  assert (∀ s, wf_segment w s = true → 0 ≤ FieldSegment.pos s ∧ 1 ≤ FieldSegment.len s) as Hs.
  { intros [pos len sg] Hs. unfold wf_segment in Hs. boolp. simpl. lia. }
  unfold Spec.field_raw, Sym.field_bits. cbn [foldl].
  assert (Spec.segment_value (Sym.word arg bs) s0 =
          read (FieldSegment.signed s0) (Sym.segment_bits bs s0 ++ [])) as Hv.
  { unfold Spec.segment_value, read. destruct (Hs s0 ltac:(done)). rewrite slice_word, app_nil_r by lia.
    by rewrite (segment_bits_len w) by done. }
  assert (0 < zlen (Sym.segment_bits bs s0 ++ [])) as Hpos.
  { rewrite app_nil_r, (segment_bits_len w) by done. destruct (Hs s0 ltac:(done)). lia. }
  revert Hv Hpos. generalize (Spec.segment_value (Sym.word arg bs) s0), (Sym.segment_bits bs s0 ++ [])%list.
  induction segs as [|s segs IH]; intros v l Hv Hpos; cbn [foldl]; [done|]. cbn [forallb] in *. boolp.
  destruct (Hs s ltac:(done)). apply IH; [done|..].
  - rewrite read_app, (segment_bits_len w) by done. rewrite slice_word, Hv by lia. done.
  - rewrite zlen_app, (segment_bits_len w) by done. lia.
Qed.

Lemma transform_shift func k x :
  Sym.shift_of func = Some k →
  match func with Some f => Spec.transform f x | None => x end = x * 2 ^ Z.of_nat k.
Proof.
  unfold Sym.shift_of, Spec.transform.
  destruct func as [f|]; [|intros [= <-]; symmetry; apply Z.mul_1_r].
  do 5 (destruct (String.eqb f _); [intros [= <-]; cbn [Z.of_nat]; lia|]).
  destruct (String.eqb f "ex_rvc_shiftli" || String.eqb f "ex_rvc_shiftri") eqn:E; [|done].
  intros [= <-]. rewrite Z.mul_1_r. apply orb_prop in E as [E|E]; apply String.eqb_eq in E; subst f; reflexivity.
Qed.

Lemma is_arg_word a k n l :
  (k ≤ n)%nat → Sym.is_arg a k n l = true →
  Sym.word arg l = Spec.slice (arg a) (Z.of_nat k) (Z.of_nat (n - k)).
Proof.
  unfold Sym.is_arg. intros Hkn H. boolp. rewrite <- (take_drop (n - k) l), word_app.
  assert (Sym.word arg (drop (n - k) l) = 0) as ->.
  { match goal with H : forallb _ (drop _ _) = true |- _ => revert H end.
    induction (drop (n - k) l) as [|b bs IH]; [done|]. cbn [forallb Sym.word]. intros ?. boolp. subst b.
    simpl. rewrite IH by done. done. }
  match goal with H : take _ _ = _ |- _ => rewrite H end.
  rewrite (word_of_seq _ (arg a)) by done. lia.
Qed.

(** What the bits of a kind of argument are worth. *)
Lemma in_kind_value k v :
  Encoding.in_kind k v →
  match k with
  | Encoding.Unsigned n => Spec.slice v 0 (Z.of_nat n) = v
  | Encoding.Scaled n k => (k ≤ n)%nat → Spec.slice v (Z.of_nat k) (Z.of_nat (n - k)) * 2 ^ Z.of_nat k = v
  | Encoding.Signed n k =>
      (k < n)%nat → signed (Z.of_nat (n - k)) (Spec.slice v (Z.of_nat k) (Z.of_nat (n - k))) * 2 ^ Z.of_nat k = v
  | Encoding.High => Spec.slice v 0 3 + 8 = v
  | Encoding.Always _ => True
  end.
Proof.
  destruct k as [n|n k|n k| |c]; cbn [Encoding.in_kind]; unfold Spec.slice; intros H; [..|done].
  - rewrite Z.div_1_r. by apply Z.mod_small.
  - intros Hk. destruct H as [H H0].
    assert (0 < 2 ^ Z.of_nat k) by (apply pow2_pos; lia).
    assert (2 ^ (Z.of_nat n - 1) = 2 ^ (Z.of_nat (n - k) - 1) * 2 ^ Z.of_nat k) as Hp
      by (rewrite <- Z.pow_add_r by lia; f_equal; lia).
    pose proof (Z.div_mod v (2 ^ Z.of_nat k) ltac:(lia)).
    rewrite signed_of_mod, signed_small by (lia || nia). lia.
  - intros Hk. destruct H as [H H0].
    assert (0 < 2 ^ Z.of_nat k) by (apply pow2_pos; lia).
    assert (2 ^ Z.of_nat n = 2 ^ Z.of_nat (n - k) * 2 ^ Z.of_nat k) as Hp
      by (rewrite <- Z.pow_add_r by lia; f_equal; lia).
    pose proof (Z.div_mod v (2 ^ Z.of_nat k) ltac:(lia)).
    rewrite Z.mod_small by nia. lia.
  - rewrite Z.div_1_r. Z.to_euclidean_division_equations. lia.
Qed.

Lemma field_is_value w bs f a k :
  zlen bs = w → forallb (wf_segment w) (Field.segments f) = true → Field.segments f ≠ [] →
  Sym.field_is bs f a k = true → Encoding.in_kind k (arg a) →
  Spec.field_value (Sym.word arg bs) f = arg a.
Proof.
  intros Hb Hwf Hne0 Hf Hk%in_kind_value. unfold Spec.field_value.
  destruct (field_raw_word w bs (Field.segments f) _ Hb Hwf Hne0 eq_refl) as [-> Hpos].
  unfold Sym.field_is in Hf. unfold read.
  set (sg := match Field.segments f with [] => false | _ => _ end) in *. clearbody sg.
  destruct k as [n|n k|n k| |c]; [..|done]; boolp; try subst sg.
  - erewrite transform_shift by done. rewrite (is_arg_word a 0 n) by (done || lia).
    rewrite Nat.sub_0_r, Z.mul_1_r. done.
  - match goal with H : Nat.ltb _ _ = true |- _ => apply Nat.ltb_lt in H end.
    erewrite transform_shift by done.
    match goal with H : Sym.field_bits _ _ = _ |- _ => rewrite H in * end.
    rewrite (word_of_seq _ (arg a)) by done. unfold zlen. rewrite length_map, length_seq. auto.
  - match goal with H : Nat.leb _ _ = true |- _ => apply Nat.leb_le in H end.
    erewrite transform_shift by done. rewrite (is_arg_word a k n) by done. auto.
  - match goal with H : Field.func f = _ |- _ => rewrite H end.
    rewrite (is_arg_word a 0 3) by (done || lia). done.
Qed.

Lemma mapping_is_value w fields bs m a k :
  zlen bs = w → forallb (λ '(k, f), String.eqb k (Field.name f) && wf_field w f) fields = true →
  wf_mapping w fields m = true →
  Sym.mapping_is fields bs m a k = true → Encoding.in_kind k (arg a) →
  Spec.mapping_value fields (Sym.word arg bs) m = arg a.
Proof.
  intros Hb Hf Hm His Hk. destruct m as [r|pos len sg|c]; cbn [Sym.mapping_is Spec.mapping_value wf_mapping] in *.
  - destruct (BTree.get r fields) as [f|] eqn:Er; [|done].
    assert (wf_field w f = true) as Hwf.
    { clear -Hf Er. induction fields as [|[k' f'] fs IH]; [done|]. cbn [BTree.get forallb] in *. boolp.
      destruct (String.eqb r k'); [by injection Er as <-|by apply IH]. }
    unfold wf_field in Hwf. boolp. by eapply field_is_value.
  - change (Spec.segment_value (Sym.word arg bs) (FieldSegment.Build_t pos len sg))
      with (Spec.field_value (Sym.word arg bs) (Field.Build_t "" [FieldSegment.Build_t pos len sg] None)).
    boolp. subst sg. eapply field_is_value; try done. cbn [Field.segments forallb]. by apply andb_true_intro.
  - destruct k; try done. boolp. cbn in Hk. by subst.
Qed.
End sym.

(** Every word of the form decodes to a call with the arguments it was made from. *)
Lemma sym_decodes w parsed f ne method names arg :
  wf_parsed w parsed = true → zlen (Sym.bits (Encoding.pieces f)) = w →
  Sym.decodes parsed f ne method names = true →
  (∀ a k, BTree.get a (Encoding.kinds f) = Some k → Encoding.in_kind k (arg a)) →
  (∀ a v, (a, v) ∈ ne → arg a ≠ v) →
  Spec.decode parsed (Encoding.encode (Encoding.pieces f) arg) = Some (method, map (λ '(fd, a), (fd, arg a)) names).
Proof.
  intros Hwf Hlen Hd Hkinds Hne. rewrite encode_word. unfold Sym.decodes in Hd. unfold Spec.decode.
  destruct (Sym.first_match _ _ _ ne) as [p|] eqn:Ep; [|done].
  apply (first_match_sym arg _ _ Hkinds Hne) in Ep as [-> Hp]. cbn [mbind option_bind].
  boolp. match goal with H : String.eqb _ _ = true |- _ => apply String.eqb_eq in H as -> end.
  unfold Spec.args. match goal with H : arg_fields _ _ = _ |- _ => rename H into Hargs end.
  rewrite Hargs. do 2 f_equal. unfold fmap. rewrite map_map. apply map_ext_in. intros [fd a] Ha. cbn [fst]. f_equal.
  match goal with H : forallb _ names = true |- _ => rewrite forallb_forall in H; specialize (H _ Ha); rename H into Hm end.
  cbn beta iota in Hm.
  destruct (BTree.get a (Encoding.kinds f)) as [k|] eqn:Ek; [|done]. pose proof (Hkinds _ _ Ek) as Hk.
  unfold wf_parsed in Hwf. boolp.
  match goal with H : forallb _ (Parsed.patterns parsed) = true |- _ => rewrite forallb_forall in H;
    specialize (H p ltac:(by apply list_elem_of_In)); rewrite Hargs, forallb_forall in H;
    specialize (H fd ltac:(exact (in_map fst _ _ Ha))); rename H into Hmap end.
  destruct (BTree.get fd (Pattern.field_map p)) as [m|]; cbn [from_option].
  - by eapply mapping_is_value.
  - destruct k; try done. boolp. cbn in Hk. by subst.
Qed.
