(* ===== verification/RiscvDecode.v ===== *)
(** * The RISC-V decoders

    frontend/build.rs runs the generator on insn32.decode and insn16.decode.  Here are the two
    files, the decoders generated from them ([generated], an instance of the class
    [Decoder]), and the proof that they decode RISC-V: every encoding of an instruction of
    the ISA manual ([isa]) gives back the instruction, and every compressed encoding
    ([rvc]) the instruction it expands to. *)

From S2P Require Import Prelude Text DecodeTool Generated Encoding RiscvGen RiscvTrans RiscvSem RiscvRules.
From S2P Require Import RiscvFp RiscvSound RiscvTb.

#[local] Open Scope string_scope.
#[local] Open Scope Z_scope.

(** ** The files *)

Definition insn32_text : string :=
"#
# RISC-V RV64I Base + M Extension decode patterns.
#
# Extracted from QEMU target/riscv/insn32.decode for tcg-rs.
# Original copyright:
#   Copyright (c) 2018 Peer Adelt, peer.adelt@hni.uni-paderborn.de
#                      Bastian Koppelmann, kbastian@mail.uni-paderborn.de
#   Licensed under GPL-2.0-or-later.
#

# Fields:
%rs3       27:5
%rs2       20:5
%rs1       15:5
%rd        7:5
%sh5       20:5
%sh7       20:7
%csr       20:12
%rm        12:3

# Immediates:
%imm_i    20:s12
%imm_s    25:s7 7:5
%imm_b    31:s1 7:1 25:6 8:4     !function=ex_shift_1
%imm_j    31:s1 12:8 20:1 21:10  !function=ex_shift_1
%imm_u    12:s20                  !function=ex_shift_12

# Argument sets:
&empty
&b    imm rs2 rs1
&i    imm rs1 rd
&j    imm rd
&r    rd rs1 rs2
&r2   rd rs1
&r2_rm rd rs1 rm
&r_rm rd rs1 rs2 rm
&r4_rm rd rs1 rs2 rs3 rm
&s    imm rs1 rs2
&u    imm rd
&shift     shamt rs1 rd
&atomic    aq rl rs2 rs1 rd
&csr  csr rs1 rd

# Formats 32:
@r       .......   ..... ..... ... ..... ....... &r                %rs2 %rs1 %rd
@i       ............    ..... ... ..... ....... &i      imm=%imm_i     %rs1 %rd
@b       .......   ..... ..... ... ..... ....... &b      imm=%imm_b %rs2 %rs1
@s       .......   ..... ..... ... ..... ....... &s      imm=%imm_s %rs2 %rs1
@u       ....................      ..... ....... &u      imm=%imm_u          %rd
@j       ....................      ..... ....... &j      imm=%imm_j          %rd
@sh      ......  ...... .....  ... ..... ....... &shift  shamt=%sh7     %rs1 %rd
@csr     ............   .....  ... ..... ....... &csr    %csr     %rs1 %rd

# Formats 64:
@sh5     .......  ..... .....  ... ..... ....... &shift  shamt=%sh5      %rs1 %rd

# Formats atomic:
@atom_ld ..... aq:1 rl:1 ..... ........ ..... ....... &atomic rs2=0     %rs1 %rd
@atom_st ..... aq:1 rl:1 ..... ........ ..... ....... &atomic %rs2      %rs1 %rd

@r4_rm   ..... ..  ..... ..... ... ..... ....... &r4_rm  %rs3 %rs2 %rs1 %rm %rd
@r_rm    .......   ..... ..... ... ..... ....... &r_rm   %rs2 %rs1 %rm %rd
@r2_rm   .......   ..... ..... ... ..... ....... &r2_rm  %rs1 %rm %rd
@r2      .......   ..... ..... ... ..... ....... &r2     %rs1 %rd

# *** Privileged Instructions ***
ecall       000000000000     00000 000 00000 1110011
ebreak      000000000001     00000 000 00000 1110011
csrrw       ............     ..... 001 ..... 1110011 @csr
csrrs       ............     ..... 010 ..... 1110011 @csr
csrrc       ............     ..... 011 ..... 1110011 @csr
csrrwi      ............     ..... 101 ..... 1110011 @csr
csrrsi      ............     ..... 110 ..... 1110011 @csr
csrrci      ............     ..... 111 ..... 1110011 @csr

# *** RV32I Base Instruction Set ***
lui      ....................       ..... 0110111 @u
auipc    ....................       ..... 0010111 @u
jal      ....................       ..... 1101111 @j
jalr     ............     ..... 000 ..... 1100111 @i
beq      ....... .....    ..... 000 ..... 1100011 @b
bne      ....... .....    ..... 001 ..... 1100011 @b
blt      ....... .....    ..... 100 ..... 1100011 @b
bge      ....... .....    ..... 101 ..... 1100011 @b
bltu     ....... .....    ..... 110 ..... 1100011 @b
bgeu     ....... .....    ..... 111 ..... 1100011 @b
lb       ............     ..... 000 ..... 0000011 @i
lh       ............     ..... 001 ..... 0000011 @i
lw       ............     ..... 010 ..... 0000011 @i
lbu      ............     ..... 100 ..... 0000011 @i
lhu      ............     ..... 101 ..... 0000011 @i
sb       .......  .....   ..... 000 ..... 0100011 @s
sh       .......  .....   ..... 001 ..... 0100011 @s
sw       .......  .....   ..... 010 ..... 0100011 @s
addi     ............     ..... 000 ..... 0010011 @i
slti     ............     ..... 010 ..... 0010011 @i
sltiu    ............     ..... 011 ..... 0010011 @i
xori     ............     ..... 100 ..... 0010011 @i
ori      ............     ..... 110 ..... 0010011 @i
andi     ............     ..... 111 ..... 0010011 @i
slli     00000. ......    ..... 001 ..... 0010011 @sh
srli     00000. ......    ..... 101 ..... 0010011 @sh
srai     01000. ......    ..... 101 ..... 0010011 @sh
add      0000000 .....    ..... 000 ..... 0110011 @r
sub      0100000 .....    ..... 000 ..... 0110011 @r
sll      0000000 .....    ..... 001 ..... 0110011 @r
slt      0000000 .....    ..... 010 ..... 0110011 @r
sltu     0000000 .....    ..... 011 ..... 0110011 @r
xor      0000000 .....    ..... 100 ..... 0110011 @r
srl      0000000 .....    ..... 101 ..... 0110011 @r
sra      0100000 .....    ..... 101 ..... 0110011 @r
or       0000000 .....    ..... 110 ..... 0110011 @r
and      0000000 .....    ..... 111 ..... 0110011 @r
fence    ---- pred:4 succ:4 ----- 000 ----- 0001111

# *** RV64I Base Instruction Set ***
lwu      ............   ..... 110 ..... 0000011 @i
ld       ............   ..... 011 ..... 0000011 @i
sd       ....... .....  ..... 011 ..... 0100011 @s
addiw    ............   ..... 000 ..... 0011011 @i
slliw    0000000 .....  ..... 001 ..... 0011011 @sh5
srliw    0000000 .....  ..... 101 ..... 0011011 @sh5
sraiw    0100000 .....  ..... 101 ..... 0011011 @sh5
addw     0000000 .....  ..... 000 ..... 0111011 @r
subw     0100000 .....  ..... 000 ..... 0111011 @r
sllw     0000000 .....  ..... 001 ..... 0111011 @r
srlw     0000000 .....  ..... 101 ..... 0111011 @r
sraw     0100000 .....  ..... 101 ..... 0111011 @r

# *** RV32M Standard Extension ***
mul      0000001 .....  ..... 000 ..... 0110011 @r
mulh     0000001 .....  ..... 001 ..... 0110011 @r
mulhsu   0000001 .....  ..... 010 ..... 0110011 @r
mulhu    0000001 .....  ..... 011 ..... 0110011 @r
div      0000001 .....  ..... 100 ..... 0110011 @r
divu     0000001 .....  ..... 101 ..... 0110011 @r
rem      0000001 .....  ..... 110 ..... 0110011 @r
remu     0000001 .....  ..... 111 ..... 0110011 @r

# *** RV64M Standard Extension ***
mulw     0000001 .....  ..... 000 ..... 0111011 @r
divw     0000001 .....  ..... 100 ..... 0111011 @r
divuw    0000001 .....  ..... 101 ..... 0111011 @r
remw     0000001 .....  ..... 110 ..... 0111011 @r
remuw    0000001 .....  ..... 111 ..... 0111011 @r

# *** RV32F Standard Extension ***
flw        ............   ..... 010 ..... 0000111 @i
fsw        .......  ..... ..... 010 ..... 0100111 @s
fmadd_s    ..... 00 ..... ..... ... ..... 1000011 @r4_rm
fmsub_s    ..... 00 ..... ..... ... ..... 1000111 @r4_rm
fnmsub_s   ..... 00 ..... ..... ... ..... 1001011 @r4_rm
fnmadd_s   ..... 00 ..... ..... ... ..... 1001111 @r4_rm
fadd_s     0000000  ..... ..... ... ..... 1010011 @r_rm
fsub_s     0000100  ..... ..... ... ..... 1010011 @r_rm
fmul_s     0001000  ..... ..... ... ..... 1010011 @r_rm
fdiv_s     0001100  ..... ..... ... ..... 1010011 @r_rm
fsqrt_s    0101100  00000 ..... ... ..... 1010011 @r2_rm
fsgnj_s    0010000  ..... ..... 000 ..... 1010011 @r
fsgnjn_s   0010000  ..... ..... 001 ..... 1010011 @r
fsgnjx_s   0010000  ..... ..... 010 ..... 1010011 @r
fmin_s     0010100  ..... ..... 000 ..... 1010011 @r
fmax_s     0010100  ..... ..... 001 ..... 1010011 @r
fcvt_w_s   1100000  00000 ..... ... ..... 1010011 @r2_rm
fcvt_wu_s  1100000  00001 ..... ... ..... 1010011 @r2_rm
fmv_x_w    1110000  00000 ..... 000 ..... 1010011 @r2
feq_s      1010000  ..... ..... 010 ..... 1010011 @r
flt_s      1010000  ..... ..... 001 ..... 1010011 @r
fle_s      1010000  ..... ..... 000 ..... 1010011 @r
fclass_s   1110000  00000 ..... 001 ..... 1010011 @r2
fcvt_s_w   1101000  00000 ..... ... ..... 1010011 @r2_rm
fcvt_s_wu  1101000  00001 ..... ... ..... 1010011 @r2_rm
fmv_w_x    1111000  00000 ..... 000 ..... 1010011 @r2

# *** RV64F Standard Extension (in addition to RV32F) ***
fcvt_l_s   1100000  00010 ..... ... ..... 1010011 @r2_rm
fcvt_lu_s  1100000  00011 ..... ... ..... 1010011 @r2_rm
fcvt_s_l   1101000  00010 ..... ... ..... 1010011 @r2_rm
fcvt_s_lu  1101000  00011 ..... ... ..... 1010011 @r2_rm

# *** RV32D Standard Extension ***
fld        ............   ..... 011 ..... 0000111 @i
fsd        ....... .....  ..... 011 ..... 0100111 @s
fmadd_d    ..... 01 ..... ..... ... ..... 1000011 @r4_rm
fmsub_d    ..... 01 ..... ..... ... ..... 1000111 @r4_rm
fnmsub_d   ..... 01 ..... ..... ... ..... 1001011 @r4_rm
fnmadd_d   ..... 01 ..... ..... ... ..... 1001111 @r4_rm
fadd_d     0000001  ..... ..... ... ..... 1010011 @r_rm
fsub_d     0000101  ..... ..... ... ..... 1010011 @r_rm
fmul_d     0001001  ..... ..... ... ..... 1010011 @r_rm
fdiv_d     0001101  ..... ..... ... ..... 1010011 @r_rm
fsqrt_d    0101101  00000 ..... ... ..... 1010011 @r2_rm
fsgnj_d    0010001  ..... ..... 000 ..... 1010011 @r
fsgnjn_d   0010001  ..... ..... 001 ..... 1010011 @r
fsgnjx_d   0010001  ..... ..... 010 ..... 1010011 @r
fmin_d     0010101  ..... ..... 000 ..... 1010011 @r
fmax_d     0010101  ..... ..... 001 ..... 1010011 @r
fcvt_s_d   0100000  00001 ..... ... ..... 1010011 @r2_rm
fcvt_d_s   0100001  00000 ..... ... ..... 1010011 @r2_rm
feq_d      1010001  ..... ..... 010 ..... 1010011 @r
flt_d      1010001  ..... ..... 001 ..... 1010011 @r
fle_d      1010001  ..... ..... 000 ..... 1010011 @r
fclass_d   1110001  00000 ..... 001 ..... 1010011 @r2
fcvt_w_d   1100001  00000 ..... ... ..... 1010011 @r2_rm
fcvt_wu_d  1100001  00001 ..... ... ..... 1010011 @r2_rm
fcvt_d_w   1101001  00000 ..... ... ..... 1010011 @r2_rm
fcvt_d_wu  1101001  00001 ..... ... ..... 1010011 @r2_rm

# *** RV64D Standard Extension (in addition to RV32D) ***
fcvt_l_d   1100001  00010 ..... ... ..... 1010011 @r2_rm
fcvt_lu_d  1100001  00011 ..... ... ..... 1010011 @r2_rm
fmv_x_d    1110001  00000 ..... 000 ..... 1010011 @r2
fcvt_d_l   1101001  00010 ..... ... ..... 1010011 @r2_rm
fcvt_d_lu  1101001  00011 ..... ... ..... 1010011 @r2_rm
fmv_d_x    1111001  00000 ..... 000 ..... 1010011 @r2

# *** RV32A Standard Extension ***
lr_w       00010 . . 00000 ..... 010 ..... 0101111 @atom_ld
sc_w       00011 . . ..... ..... 010 ..... 0101111 @atom_st
amoswap_w  00001 . . ..... ..... 010 ..... 0101111 @atom_st
amoadd_w   00000 . . ..... ..... 010 ..... 0101111 @atom_st
amoxor_w   00100 . . ..... ..... 010 ..... 0101111 @atom_st
amoand_w   01100 . . ..... ..... 010 ..... 0101111 @atom_st
amoor_w    01000 . . ..... ..... 010 ..... 0101111 @atom_st
amomin_w   10000 . . ..... ..... 010 ..... 0101111 @atom_st
amomax_w   10100 . . ..... ..... 010 ..... 0101111 @atom_st
amominu_w  11000 . . ..... ..... 010 ..... 0101111 @atom_st
amomaxu_w  11100 . . ..... ..... 010 ..... 0101111 @atom_st

# *** RV64A Standard Extension ***
lr_d       00010 . . 00000 ..... 011 ..... 0101111 @atom_ld
sc_d       00011 . . ..... ..... 011 ..... 0101111 @atom_st
amoswap_d  00001 . . ..... ..... 011 ..... 0101111 @atom_st
amoadd_d   00000 . . ..... ..... 011 ..... 0101111 @atom_st
amoxor_d   00100 . . ..... ..... 011 ..... 0101111 @atom_st
amoand_d   01100 . . ..... ..... 011 ..... 0101111 @atom_st
amoor_d    01000 . . ..... ..... 011 ..... 0101111 @atom_st
amomin_d   10000 . . ..... ..... 011 ..... 0101111 @atom_st
amomax_d   10100 . . ..... ..... 011 ..... 0101111 @atom_st
amominu_d  11000 . . ..... ..... 011 ..... 0101111 @atom_st
amomaxu_d  11100 . . ..... ..... 011 ..... 0101111 @atom_st
".

Definition insn16_text : string :=
"#
# RISC-V RV64C Standard Extension (16-bit compressed) decode patterns.
#
# Ported from QEMU target/riscv/insn16.decode for tcg-rs.
# Original copyright:
#   Copyright (c) 2018 Peer Adelt, peer.adelt@hni.uni-paderborn.de
#                      Bastian Koppelmann, kbastian@mail.uni-paderborn.de
#   Licensed under GPL-2.0-or-later.
#
# Subset: RV64C only.  Excludes Zcb, Zcmp, Zcmt, Zclsd, Zcmops,
# RV128 (lq/sq).

# Fields:
%rd        7:5
%rs1_3     7:3                !function=ex_rvc_register
%rs2_3     2:3                !function=ex_rvc_register
%rs2_5     2:5

# Immediates:
%imm_ci        12:s1 2:5
%nzuimm_ciw    7:4 11:2 5:1 6:1   !function=ex_shift_2
%uimm_cl_d     5:2 10:3           !function=ex_shift_3
%uimm_cl_w     5:1 10:3 6:1       !function=ex_shift_2
%imm_cb        12:s1 5:2 2:1 10:2 3:2 !function=ex_shift_1
%imm_cj        12:s1 8:1 9:2 6:1 7:1 2:1 11:1 3:3 !function=ex_shift_1

%shlimm_6bit  12:1 2:5               !function=ex_rvc_shiftli
%shrimm_6bit  12:1 2:5               !function=ex_rvc_shiftri
%uimm_6bit_ld 2:3 12:1 5:2           !function=ex_shift_3
%uimm_6bit_lw 2:2 12:1 4:3           !function=ex_shift_2
%uimm_6bit_sd 7:3 10:3               !function=ex_shift_3
%uimm_6bit_sw 7:2 9:4                !function=ex_shift_2

%imm_addi16sp  12:s1 3:2 5:1 2:1 6:1 !function=ex_shift_4
%imm_lui       12:s1 2:5             !function=ex_shift_12

# Argument sets imported from insn32.decode:
&empty                  !extern
&b    imm rs2 rs1       !extern
&i    imm rs1 rd        !extern
&j    imm rd            !extern
&r    rd rs1 rs2        !extern
&s    imm rs1 rs2       !extern
&u    imm rd            !extern
&shift     shamt rs1 rd !extern

# Formats 16:
@cr        ....  ..... .....  .. &r      rs2=%rs2_5       rs1=%rd     %rd
@ci        ... . ..... .....  .. &i      imm=%imm_ci      rs1=%rd     %rd
@cl_d      ... ... ... .. ... .. &i      imm=%uimm_cl_d   rs1=%rs1_3  rd=%rs2_3
@cl_w      ... ... ... .. ... .. &i      imm=%uimm_cl_w   rs1=%rs1_3  rd=%rs2_3
@cs_2      ... ... ... .. ... .. &r      rs2=%rs2_3       rs1=%rs1_3  rd=%rs1_3
@cs_d      ... ... ... .. ... .. &s      imm=%uimm_cl_d   rs1=%rs1_3  rs2=%rs2_3
@cs_w      ... ... ... .. ... .. &s      imm=%uimm_cl_w   rs1=%rs1_3  rs2=%rs2_3
@cj        ...    ........... .. &j      imm=%imm_cj
@cb_z      ... ... ... .. ... .. &b      imm=%imm_cb      rs1=%rs1_3  rs2=0

@c_ldsp    ... . .....  ..... .. &i      imm=%uimm_6bit_ld rs1=2 %rd
@c_lwsp    ... . .....  ..... .. &i      imm=%uimm_6bit_lw rs1=2 %rd
@c_sdsp    ... . .....  ..... .. &s      imm=%uimm_6bit_sd rs1=2 rs2=%rs2_5
@c_swsp    ... . .....  ..... .. &s      imm=%uimm_6bit_sw rs1=2 rs2=%rs2_5
@c_li      ... . .....  ..... .. &i      imm=%imm_ci rs1=0 %rd
@c_lui     ... . .....  ..... .. &u      imm=%imm_lui %rd
@c_jalr    ... . .....  ..... .. &i      imm=0 rs1=%rd
@c_mv      ... . ..... .....  .. &i      imm=0 rs1=%rs2_5 %rd

@c_addi4spn     ... .  ..... ..... .. &i imm=%nzuimm_ciw rs1=2 rd=%rs2_3
@c_addi16sp     ... .  ..... ..... .. &i imm=%imm_addi16sp rs1=2 rd=2

@c_shift        ... . .. ... ..... .. \
                &shift rd=%rs1_3 rs1=%rs1_3 shamt=%shrimm_6bit
@c_shift2       ... . .. ... ..... .. \
                &shift rd=%rd rs1=%rd shamt=%shlimm_6bit

@c_andi         ... . .. ... ..... .. &i imm=%imm_ci rs1=%rs1_3 rd=%rs1_3

# *** RV32/64C Standard Extension (Quadrant 0) ***
{
  illegal         000  000 000 00 --- 00
  addi            000  ... ... .. ... 00 @c_addi4spn
}
{
  c_fld           001  ... ... .. ... 00 @cl_d
}
lw                010  ... ... .. ... 00 @cl_w
{
  ld              011  ... ... .. ... 00 @cl_d
  c_flw           011  ... ... .. ... 00 @cl_w
}
{
  c_fsd           101  ... ... .. ... 00 @cs_d
}
sw                110  ... ... .. ... 00 @cs_w
{
  sd              111  ... ... .. ... 00 @cs_d
  c_fsw           111  ... ... .. ... 00 @cs_w
}

# *** RV32/64C Standard Extension (Quadrant 1) ***
addi              000 .  .....  ..... 01 @ci
addi              010 .  .....  ..... 01 @c_li
{
  illegal         011 0  -----  00000 01
  addi            011 .  00010  ..... 01 @c_addi16sp
  lui             011 .  .....  ..... 01 @c_lui
}
srli              100 . 00 ...  ..... 01 @c_shift
srai              100 . 01 ...  ..... 01 @c_shift
andi              100 . 10 ...  ..... 01 @c_andi
sub               100 0 11 ... 00 ... 01 @cs_2
xor               100 0 11 ... 01 ... 01 @cs_2
or                100 0 11 ... 10 ... 01 @cs_2
and               100 0 11 ... 11 ... 01 @cs_2
jal               101     ........... 01 @cj    rd=0
beq               110  ... ...  ..... 01 @cb_z
bne               111  ... ...  ..... 01 @cb_z

# *** RV64C specific (Quadrant 1) ***
{
  c64_illegal     001 -  00000  ----- 01
  addiw           001 .  .....  ..... 01 @ci
}
subw              100 1 11 ... 00 ... 01 @cs_2
addw              100 1 11 ... 01 ... 01 @cs_2

# *** RV32/64C Standard Extension (Quadrant 2) ***
slli              000 .  .....  ..... 10 @c_shift2
{
  c_fld           001 .  .....  ..... 10 @c_ldsp
}
{
  illegal         010 -  00000  ----- 10
  lw              010 .  .....  ..... 10 @c_lwsp
}
{
  illegal         100 0  00000  00000 10
  jalr            100 0  .....  00000 10 @c_jalr rd=0
  addi            100 0  .....  ..... 10 @c_mv
}
{
  ebreak          100 1  00000  00000 10
  jalr            100 1  .....  00000 10 @c_jalr rd=1
  add             100 1  .....  ..... 10 @cr
}
sw                110 .  .....  ..... 10 @c_swsp
{
  c_fsd           101   ......  ..... 10 @c_sdsp
}

# *** RV64C specific (Quadrant 2) ***
{
  c64_illegal     011 -  00000  ----- 10
  ld              011 .  .....  ..... 10 @c_ldsp
}
sd                111 .  .....  ..... 10 @c_sdsp
".

Definition parsed_of (r : Result Parsed.t) : Parsed.t :=
  match r with Ok p => p | Err _ => Parsed.Build_t [] [] [] end.

Definition riscv32 : Parsed.t := Eval vm_compute in parsed_of (parse_with_width insn32_text 32).
Definition riscv16 : Parsed.t := Eval vm_compute in parsed_of (parse_with_width insn16_text 16).

Lemma riscv32_parses : parse_with_width insn32_text 32 = Ok riscv32.
Proof. vm_compute. reflexivity. Qed.

Lemma riscv16_parses : parse_with_width insn16_text 16 = Ok riscv16.
Proof. vm_compute. reflexivity. Qed.

Lemma riscv32_wf : wf_parsed 32 riscv32 = true.
Proof. vm_compute. reflexivity. Qed.

Lemma riscv16_wf : wf_parsed 16 riscv16 = true.
Proof. vm_compute. reflexivity. Qed.

(** ** The methods of the traits [Decode] and [Decode16] *)

(** [trans_<name>] applied to the struct built for it. *)
Definition methods32 : list (string * ((string → Z) → Insn.t)) := [
  ("lui", λ get, Insn.lui (ArgsU.mk (get "imm") (get "rd")));
  ("auipc", λ get, Insn.auipc (ArgsU.mk (get "imm") (get "rd")));
  ("jal", λ get, Insn.jal (ArgsJ.mk (get "imm") (get "rd")));
  ("jalr", λ get, Insn.jalr (ArgsI.mk (get "imm") (get "rs1") (get "rd")));
  ("beq", λ get, Insn.beq (ArgsB.mk (get "imm") (get "rs2") (get "rs1")));
  ("bne", λ get, Insn.bne (ArgsB.mk (get "imm") (get "rs2") (get "rs1")));
  ("blt", λ get, Insn.blt (ArgsB.mk (get "imm") (get "rs2") (get "rs1")));
  ("bge", λ get, Insn.bge (ArgsB.mk (get "imm") (get "rs2") (get "rs1")));
  ("bltu", λ get, Insn.bltu (ArgsB.mk (get "imm") (get "rs2") (get "rs1")));
  ("bgeu", λ get, Insn.bgeu (ArgsB.mk (get "imm") (get "rs2") (get "rs1")));
  ("lb", λ get, Insn.lb (ArgsI.mk (get "imm") (get "rs1") (get "rd")));
  ("lh", λ get, Insn.lh (ArgsI.mk (get "imm") (get "rs1") (get "rd")));
  ("lw", λ get, Insn.lw (ArgsI.mk (get "imm") (get "rs1") (get "rd")));
  ("lbu", λ get, Insn.lbu (ArgsI.mk (get "imm") (get "rs1") (get "rd")));
  ("lhu", λ get, Insn.lhu (ArgsI.mk (get "imm") (get "rs1") (get "rd")));
  ("sb", λ get, Insn.sb (ArgsS.mk (get "imm") (get "rs1") (get "rs2")));
  ("sh", λ get, Insn.sh (ArgsS.mk (get "imm") (get "rs1") (get "rs2")));
  ("sw", λ get, Insn.sw (ArgsS.mk (get "imm") (get "rs1") (get "rs2")));
  ("addi", λ get, Insn.addi (ArgsI.mk (get "imm") (get "rs1") (get "rd")));
  ("slti", λ get, Insn.slti (ArgsI.mk (get "imm") (get "rs1") (get "rd")));
  ("sltiu", λ get, Insn.sltiu (ArgsI.mk (get "imm") (get "rs1") (get "rd")));
  ("xori", λ get, Insn.xori (ArgsI.mk (get "imm") (get "rs1") (get "rd")));
  ("ori", λ get, Insn.ori (ArgsI.mk (get "imm") (get "rs1") (get "rd")));
  ("andi", λ get, Insn.andi (ArgsI.mk (get "imm") (get "rs1") (get "rd")));
  ("slli", λ get, Insn.slli (ArgsShift.mk (get "shamt") (get "rs1") (get "rd")));
  ("srli", λ get, Insn.srli (ArgsShift.mk (get "shamt") (get "rs1") (get "rd")));
  ("srai", λ get, Insn.srai (ArgsShift.mk (get "shamt") (get "rs1") (get "rd")));
  ("add", λ get, Insn.add (ArgsR.mk (get "rd") (get "rs1") (get "rs2")));
  ("sub", λ get, Insn.sub (ArgsR.mk (get "rd") (get "rs1") (get "rs2")));
  ("sll", λ get, Insn.sll (ArgsR.mk (get "rd") (get "rs1") (get "rs2")));
  ("slt", λ get, Insn.slt (ArgsR.mk (get "rd") (get "rs1") (get "rs2")));
  ("sltu", λ get, Insn.sltu (ArgsR.mk (get "rd") (get "rs1") (get "rs2")));
  ("xor", λ get, Insn.xor (ArgsR.mk (get "rd") (get "rs1") (get "rs2")));
  ("srl", λ get, Insn.srl (ArgsR.mk (get "rd") (get "rs1") (get "rs2")));
  ("sra", λ get, Insn.sra (ArgsR.mk (get "rd") (get "rs1") (get "rs2")));
  ("or", λ get, Insn.or (ArgsR.mk (get "rd") (get "rs1") (get "rs2")));
  ("and", λ get, Insn.and (ArgsR.mk (get "rd") (get "rs1") (get "rs2")));
  ("fence", λ get, Insn.fence (ArgsAutoFence.mk (get "pred") (get "succ")));
  ("ecall", λ get, Insn.ecall (ArgsEmpty.mk));
  ("ebreak", λ get, Insn.ebreak (ArgsEmpty.mk));
  ("lwu", λ get, Insn.lwu (ArgsI.mk (get "imm") (get "rs1") (get "rd")));
  ("ld", λ get, Insn.ld (ArgsI.mk (get "imm") (get "rs1") (get "rd")));
  ("sd", λ get, Insn.sd (ArgsS.mk (get "imm") (get "rs1") (get "rs2")));
  ("addiw", λ get, Insn.addiw (ArgsI.mk (get "imm") (get "rs1") (get "rd")));
  ("slliw", λ get, Insn.slliw (ArgsShift.mk (get "shamt") (get "rs1") (get "rd")));
  ("srliw", λ get, Insn.srliw (ArgsShift.mk (get "shamt") (get "rs1") (get "rd")));
  ("sraiw", λ get, Insn.sraiw (ArgsShift.mk (get "shamt") (get "rs1") (get "rd")));
  ("addw", λ get, Insn.addw (ArgsR.mk (get "rd") (get "rs1") (get "rs2")));
  ("subw", λ get, Insn.subw (ArgsR.mk (get "rd") (get "rs1") (get "rs2")));
  ("sllw", λ get, Insn.sllw (ArgsR.mk (get "rd") (get "rs1") (get "rs2")));
  ("srlw", λ get, Insn.srlw (ArgsR.mk (get "rd") (get "rs1") (get "rs2")));
  ("sraw", λ get, Insn.sraw (ArgsR.mk (get "rd") (get "rs1") (get "rs2")));
  ("mul", λ get, Insn.mul (ArgsR.mk (get "rd") (get "rs1") (get "rs2")));
  ("mulh", λ get, Insn.mulh (ArgsR.mk (get "rd") (get "rs1") (get "rs2")));
  ("mulhsu", λ get, Insn.mulhsu (ArgsR.mk (get "rd") (get "rs1") (get "rs2")));
  ("mulhu", λ get, Insn.mulhu (ArgsR.mk (get "rd") (get "rs1") (get "rs2")));
  ("div", λ get, Insn.div (ArgsR.mk (get "rd") (get "rs1") (get "rs2")));
  ("divu", λ get, Insn.divu (ArgsR.mk (get "rd") (get "rs1") (get "rs2")));
  ("rem", λ get, Insn.rem (ArgsR.mk (get "rd") (get "rs1") (get "rs2")));
  ("remu", λ get, Insn.remu (ArgsR.mk (get "rd") (get "rs1") (get "rs2")));
  ("mulw", λ get, Insn.mulw (ArgsR.mk (get "rd") (get "rs1") (get "rs2")));
  ("divw", λ get, Insn.divw (ArgsR.mk (get "rd") (get "rs1") (get "rs2")));
  ("divuw", λ get, Insn.divuw (ArgsR.mk (get "rd") (get "rs1") (get "rs2")));
  ("remw", λ get, Insn.remw (ArgsR.mk (get "rd") (get "rs1") (get "rs2")));
  ("remuw", λ get, Insn.remuw (ArgsR.mk (get "rd") (get "rs1") (get "rs2")));
  ("lr_w", λ get, Insn.lr_w (ArgsAtomic.mk (get "aq") (get "rl") (get "rs2") (get "rs1") (get "rd")));
  ("sc_w", λ get, Insn.sc_w (ArgsAtomic.mk (get "aq") (get "rl") (get "rs2") (get "rs1") (get "rd")));
  ("amoswap_w", λ get, Insn.amoswap_w (ArgsAtomic.mk (get "aq") (get "rl") (get "rs2") (get "rs1") (get "rd")));
  ("amoadd_w", λ get, Insn.amoadd_w (ArgsAtomic.mk (get "aq") (get "rl") (get "rs2") (get "rs1") (get "rd")));
  ("amoxor_w", λ get, Insn.amoxor_w (ArgsAtomic.mk (get "aq") (get "rl") (get "rs2") (get "rs1") (get "rd")));
  ("amoand_w", λ get, Insn.amoand_w (ArgsAtomic.mk (get "aq") (get "rl") (get "rs2") (get "rs1") (get "rd")));
  ("amoor_w", λ get, Insn.amoor_w (ArgsAtomic.mk (get "aq") (get "rl") (get "rs2") (get "rs1") (get "rd")));
  ("amomin_w", λ get, Insn.amomin_w (ArgsAtomic.mk (get "aq") (get "rl") (get "rs2") (get "rs1") (get "rd")));
  ("amomax_w", λ get, Insn.amomax_w (ArgsAtomic.mk (get "aq") (get "rl") (get "rs2") (get "rs1") (get "rd")));
  ("amominu_w", λ get, Insn.amominu_w (ArgsAtomic.mk (get "aq") (get "rl") (get "rs2") (get "rs1") (get "rd")));
  ("amomaxu_w", λ get, Insn.amomaxu_w (ArgsAtomic.mk (get "aq") (get "rl") (get "rs2") (get "rs1") (get "rd")));
  ("lr_d", λ get, Insn.lr_d (ArgsAtomic.mk (get "aq") (get "rl") (get "rs2") (get "rs1") (get "rd")));
  ("sc_d", λ get, Insn.sc_d (ArgsAtomic.mk (get "aq") (get "rl") (get "rs2") (get "rs1") (get "rd")));
  ("amoswap_d", λ get, Insn.amoswap_d (ArgsAtomic.mk (get "aq") (get "rl") (get "rs2") (get "rs1") (get "rd")));
  ("amoadd_d", λ get, Insn.amoadd_d (ArgsAtomic.mk (get "aq") (get "rl") (get "rs2") (get "rs1") (get "rd")));
  ("amoxor_d", λ get, Insn.amoxor_d (ArgsAtomic.mk (get "aq") (get "rl") (get "rs2") (get "rs1") (get "rd")));
  ("amoand_d", λ get, Insn.amoand_d (ArgsAtomic.mk (get "aq") (get "rl") (get "rs2") (get "rs1") (get "rd")));
  ("amoor_d", λ get, Insn.amoor_d (ArgsAtomic.mk (get "aq") (get "rl") (get "rs2") (get "rs1") (get "rd")));
  ("amomin_d", λ get, Insn.amomin_d (ArgsAtomic.mk (get "aq") (get "rl") (get "rs2") (get "rs1") (get "rd")));
  ("amomax_d", λ get, Insn.amomax_d (ArgsAtomic.mk (get "aq") (get "rl") (get "rs2") (get "rs1") (get "rd")));
  ("amominu_d", λ get, Insn.amominu_d (ArgsAtomic.mk (get "aq") (get "rl") (get "rs2") (get "rs1") (get "rd")));
  ("amomaxu_d", λ get, Insn.amomaxu_d (ArgsAtomic.mk (get "aq") (get "rl") (get "rs2") (get "rs1") (get "rd")));
  ("csrrw", λ get, Insn.csrrw (ArgsCsr.mk (get "csr") (get "rs1") (get "rd")));
  ("csrrs", λ get, Insn.csrrs (ArgsCsr.mk (get "csr") (get "rs1") (get "rd")));
  ("csrrc", λ get, Insn.csrrc (ArgsCsr.mk (get "csr") (get "rs1") (get "rd")));
  ("csrrwi", λ get, Insn.csrrwi (ArgsCsr.mk (get "csr") (get "rs1") (get "rd")));
  ("csrrsi", λ get, Insn.csrrsi (ArgsCsr.mk (get "csr") (get "rs1") (get "rd")));
  ("csrrci", λ get, Insn.csrrci (ArgsCsr.mk (get "csr") (get "rs1") (get "rd")));
  ("flw", λ get, Insn.flw (ArgsI.mk (get "imm") (get "rs1") (get "rd")));
  ("fsw", λ get, Insn.fsw (ArgsS.mk (get "imm") (get "rs1") (get "rs2")));
  ("fld", λ get, Insn.fld (ArgsI.mk (get "imm") (get "rs1") (get "rd")));
  ("fsd", λ get, Insn.fsd (ArgsS.mk (get "imm") (get "rs1") (get "rs2")));
  ("fmadd_s", λ get, Insn.fmadd_s (ArgsR4Rm.mk (get "rd") (get "rs1") (get "rs2") (get "rs3") (get "rm")));
  ("fmsub_s", λ get, Insn.fmsub_s (ArgsR4Rm.mk (get "rd") (get "rs1") (get "rs2") (get "rs3") (get "rm")));
  ("fnmsub_s", λ get, Insn.fnmsub_s (ArgsR4Rm.mk (get "rd") (get "rs1") (get "rs2") (get "rs3") (get "rm")));
  ("fnmadd_s", λ get, Insn.fnmadd_s (ArgsR4Rm.mk (get "rd") (get "rs1") (get "rs2") (get "rs3") (get "rm")));
  ("fadd_s", λ get, Insn.fadd_s (ArgsRRm.mk (get "rd") (get "rs1") (get "rs2") (get "rm")));
  ("fsub_s", λ get, Insn.fsub_s (ArgsRRm.mk (get "rd") (get "rs1") (get "rs2") (get "rm")));
  ("fmul_s", λ get, Insn.fmul_s (ArgsRRm.mk (get "rd") (get "rs1") (get "rs2") (get "rm")));
  ("fdiv_s", λ get, Insn.fdiv_s (ArgsRRm.mk (get "rd") (get "rs1") (get "rs2") (get "rm")));
  ("fsqrt_s", λ get, Insn.fsqrt_s (ArgsR2Rm.mk (get "rd") (get "rs1") (get "rm")));
  ("fsgnj_s", λ get, Insn.fsgnj_s (ArgsR.mk (get "rd") (get "rs1") (get "rs2")));
  ("fsgnjn_s", λ get, Insn.fsgnjn_s (ArgsR.mk (get "rd") (get "rs1") (get "rs2")));
  ("fsgnjx_s", λ get, Insn.fsgnjx_s (ArgsR.mk (get "rd") (get "rs1") (get "rs2")));
  ("fmin_s", λ get, Insn.fmin_s (ArgsR.mk (get "rd") (get "rs1") (get "rs2")));
  ("fmax_s", λ get, Insn.fmax_s (ArgsR.mk (get "rd") (get "rs1") (get "rs2")));
  ("feq_s", λ get, Insn.feq_s (ArgsR.mk (get "rd") (get "rs1") (get "rs2")));
  ("flt_s", λ get, Insn.flt_s (ArgsR.mk (get "rd") (get "rs1") (get "rs2")));
  ("fle_s", λ get, Insn.fle_s (ArgsR.mk (get "rd") (get "rs1") (get "rs2")));
  ("fclass_s", λ get, Insn.fclass_s (ArgsR2.mk (get "rd") (get "rs1")));
  ("fcvt_w_s", λ get, Insn.fcvt_w_s (ArgsR2Rm.mk (get "rd") (get "rs1") (get "rm")));
  ("fcvt_wu_s", λ get, Insn.fcvt_wu_s (ArgsR2Rm.mk (get "rd") (get "rs1") (get "rm")));
  ("fcvt_s_w", λ get, Insn.fcvt_s_w (ArgsR2Rm.mk (get "rd") (get "rs1") (get "rm")));
  ("fcvt_s_wu", λ get, Insn.fcvt_s_wu (ArgsR2Rm.mk (get "rd") (get "rs1") (get "rm")));
  ("fmv_x_w", λ get, Insn.fmv_x_w (ArgsR2.mk (get "rd") (get "rs1")));
  ("fmv_w_x", λ get, Insn.fmv_w_x (ArgsR2.mk (get "rd") (get "rs1")));
  ("fcvt_l_s", λ get, Insn.fcvt_l_s (ArgsR2Rm.mk (get "rd") (get "rs1") (get "rm")));
  ("fcvt_lu_s", λ get, Insn.fcvt_lu_s (ArgsR2Rm.mk (get "rd") (get "rs1") (get "rm")));
  ("fcvt_s_l", λ get, Insn.fcvt_s_l (ArgsR2Rm.mk (get "rd") (get "rs1") (get "rm")));
  ("fcvt_s_lu", λ get, Insn.fcvt_s_lu (ArgsR2Rm.mk (get "rd") (get "rs1") (get "rm")));
  ("fmadd_d", λ get, Insn.fmadd_d (ArgsR4Rm.mk (get "rd") (get "rs1") (get "rs2") (get "rs3") (get "rm")));
  ("fmsub_d", λ get, Insn.fmsub_d (ArgsR4Rm.mk (get "rd") (get "rs1") (get "rs2") (get "rs3") (get "rm")));
  ("fnmsub_d", λ get, Insn.fnmsub_d (ArgsR4Rm.mk (get "rd") (get "rs1") (get "rs2") (get "rs3") (get "rm")));
  ("fnmadd_d", λ get, Insn.fnmadd_d (ArgsR4Rm.mk (get "rd") (get "rs1") (get "rs2") (get "rs3") (get "rm")));
  ("fadd_d", λ get, Insn.fadd_d (ArgsRRm.mk (get "rd") (get "rs1") (get "rs2") (get "rm")));
  ("fsub_d", λ get, Insn.fsub_d (ArgsRRm.mk (get "rd") (get "rs1") (get "rs2") (get "rm")));
  ("fmul_d", λ get, Insn.fmul_d (ArgsRRm.mk (get "rd") (get "rs1") (get "rs2") (get "rm")));
  ("fdiv_d", λ get, Insn.fdiv_d (ArgsRRm.mk (get "rd") (get "rs1") (get "rs2") (get "rm")));
  ("fsqrt_d", λ get, Insn.fsqrt_d (ArgsR2Rm.mk (get "rd") (get "rs1") (get "rm")));
  ("fsgnj_d", λ get, Insn.fsgnj_d (ArgsR.mk (get "rd") (get "rs1") (get "rs2")));
  ("fsgnjn_d", λ get, Insn.fsgnjn_d (ArgsR.mk (get "rd") (get "rs1") (get "rs2")));
  ("fsgnjx_d", λ get, Insn.fsgnjx_d (ArgsR.mk (get "rd") (get "rs1") (get "rs2")));
  ("fmin_d", λ get, Insn.fmin_d (ArgsR.mk (get "rd") (get "rs1") (get "rs2")));
  ("fmax_d", λ get, Insn.fmax_d (ArgsR.mk (get "rd") (get "rs1") (get "rs2")));
  ("feq_d", λ get, Insn.feq_d (ArgsR.mk (get "rd") (get "rs1") (get "rs2")));
  ("flt_d", λ get, Insn.flt_d (ArgsR.mk (get "rd") (get "rs1") (get "rs2")));
  ("fle_d", λ get, Insn.fle_d (ArgsR.mk (get "rd") (get "rs1") (get "rs2")));
  ("fclass_d", λ get, Insn.fclass_d (ArgsR2.mk (get "rd") (get "rs1")));
  ("fcvt_s_d", λ get, Insn.fcvt_s_d (ArgsR2Rm.mk (get "rd") (get "rs1") (get "rm")));
  ("fcvt_d_s", λ get, Insn.fcvt_d_s (ArgsR2Rm.mk (get "rd") (get "rs1") (get "rm")));
  ("fcvt_w_d", λ get, Insn.fcvt_w_d (ArgsR2Rm.mk (get "rd") (get "rs1") (get "rm")));
  ("fcvt_wu_d", λ get, Insn.fcvt_wu_d (ArgsR2Rm.mk (get "rd") (get "rs1") (get "rm")));
  ("fcvt_d_w", λ get, Insn.fcvt_d_w (ArgsR2Rm.mk (get "rd") (get "rs1") (get "rm")));
  ("fcvt_d_wu", λ get, Insn.fcvt_d_wu (ArgsR2Rm.mk (get "rd") (get "rs1") (get "rm")));
  ("fcvt_l_d", λ get, Insn.fcvt_l_d (ArgsR2Rm.mk (get "rd") (get "rs1") (get "rm")));
  ("fcvt_lu_d", λ get, Insn.fcvt_lu_d (ArgsR2Rm.mk (get "rd") (get "rs1") (get "rm")));
  ("fcvt_d_l", λ get, Insn.fcvt_d_l (ArgsR2Rm.mk (get "rd") (get "rs1") (get "rm")));
  ("fcvt_d_lu", λ get, Insn.fcvt_d_lu (ArgsR2Rm.mk (get "rd") (get "rs1") (get "rm")));
  ("fmv_x_d", λ get, Insn.fmv_x_d (ArgsR2.mk (get "rd") (get "rs1")));
  ("fmv_d_x", λ get, Insn.fmv_d_x (ArgsR2.mk (get "rd") (get "rs1")))
].

Definition methods16 : list (string * ((string → Z) → Insn16.t)) := [
  ("illegal", λ get, Insn16.illegal (ArgsEmpty.mk));
  ("c64_illegal", λ get, Insn16.c64_illegal (ArgsEmpty.mk));
  ("addi", λ get, Insn16.addi (ArgsI.mk (get "imm") (get "rs1") (get "rd")));
  ("lw", λ get, Insn16.lw (ArgsI.mk (get "imm") (get "rs1") (get "rd")));
  ("ld", λ get, Insn16.ld (ArgsI.mk (get "imm") (get "rs1") (get "rd")));
  ("c_fld", λ get, Insn16.c_fld (ArgsI.mk (get "imm") (get "rs1") (get "rd")));
  ("c_flw", λ get, Insn16.c_flw (ArgsI.mk (get "imm") (get "rs1") (get "rd")));
  ("sw", λ get, Insn16.sw (ArgsS.mk (get "imm") (get "rs1") (get "rs2")));
  ("sd", λ get, Insn16.sd (ArgsS.mk (get "imm") (get "rs1") (get "rs2")));
  ("c_fsd", λ get, Insn16.c_fsd (ArgsS.mk (get "imm") (get "rs1") (get "rs2")));
  ("c_fsw", λ get, Insn16.c_fsw (ArgsS.mk (get "imm") (get "rs1") (get "rs2")));
  ("lui", λ get, Insn16.lui (ArgsU.mk (get "imm") (get "rd")));
  ("srli", λ get, Insn16.srli (ArgsShift.mk (get "shamt") (get "rs1") (get "rd")));
  ("srai", λ get, Insn16.srai (ArgsShift.mk (get "shamt") (get "rs1") (get "rd")));
  ("andi", λ get, Insn16.andi (ArgsI.mk (get "imm") (get "rs1") (get "rd")));
  ("sub", λ get, Insn16.sub (ArgsR.mk (get "rd") (get "rs1") (get "rs2")));
  ("xor", λ get, Insn16.xor (ArgsR.mk (get "rd") (get "rs1") (get "rs2")));
  ("or", λ get, Insn16.or (ArgsR.mk (get "rd") (get "rs1") (get "rs2")));
  ("and", λ get, Insn16.and (ArgsR.mk (get "rd") (get "rs1") (get "rs2")));
  ("jal", λ get, Insn16.jal (ArgsJ.mk (get "imm") (get "rd")));
  ("beq", λ get, Insn16.beq (ArgsB.mk (get "imm") (get "rs2") (get "rs1")));
  ("bne", λ get, Insn16.bne (ArgsB.mk (get "imm") (get "rs2") (get "rs1")));
  ("addiw", λ get, Insn16.addiw (ArgsI.mk (get "imm") (get "rs1") (get "rd")));
  ("subw", λ get, Insn16.subw (ArgsR.mk (get "rd") (get "rs1") (get "rs2")));
  ("addw", λ get, Insn16.addw (ArgsR.mk (get "rd") (get "rs1") (get "rs2")));
  ("slli", λ get, Insn16.slli (ArgsShift.mk (get "shamt") (get "rs1") (get "rd")));
  ("jalr", λ get, Insn16.jalr (ArgsI.mk (get "imm") (get "rs1") (get "rd")));
  ("ebreak", λ get, Insn16.ebreak (ArgsEmpty.mk));
  ("add", λ get, Insn16.add (ArgsR.mk (get "rd") (get "rs1") (get "rs2")))
].

Definition field (args : list (string * Z)) (a : string) : Z := default 0 (BTree.get a args).

(** What the generated function calls, as an instruction. *)
Definition called {I} (methods : list (string * ((string → Z) → I)))
  (r : option (option (string * list (string * Z)))) : option I :=
  '(m, args) ← mjoin r; mk ← BTree.get m methods; Some (mk (field args)).

Definition generated : Decoder := {|
  decode insn := called methods32 (run_decoder 32 riscv32 insn);
  decode16 insn := called methods16 (run_decoder 16 riscv16 insn)
|}.

(** ** Encodings of the ISA manual *)

Import Encoding.

Definition rs1 := Arg "rs1" 4 0.
Definition rs2 := Arg "rs2" 4 0.
Definition rs3 := Arg "rs3" 4 0.
Definition rd := Arg "rd" 4 0.
Definition rm := Arg "rm" 2 0.
Definition Reg (a : string) : string * kind := (a, Unsigned 5).

Definition R (f7 f3 op : Z) : form :=
  Build_form [Fix 7 f7; rs2; rs1; Fix 3 f3; rd; Fix 7 op] [Reg "rd"; Reg "rs1"; Reg "rs2"].
Definition I (f3 op : Z) : form :=
  Build_form [Arg "imm" 11 0; rs1; Fix 3 f3; rd; Fix 7 op] [("imm", Signed 12 0); Reg "rs1"; Reg "rd"].
Definition S (f3 op : Z) : form :=
  Build_form [Arg "imm" 11 5; rs2; rs1; Fix 3 f3; Arg "imm" 4 0; Fix 7 op]
    [("imm", Signed 12 0); Reg "rs1"; Reg "rs2"].
Definition B (f3 : Z) : form :=
  Build_form [Arg "imm" 12 12; Arg "imm" 10 5; rs2; rs1; Fix 3 f3; Arg "imm" 4 1; Arg "imm" 11 11; Fix 7 0x63]
    [("imm", Signed 13 1); Reg "rs2"; Reg "rs1"].
Definition U (op : Z) : form :=
  Build_form [Arg "imm" 31 12; rd; Fix 7 op] [("imm", Signed 32 12); Reg "rd"].
Definition J : form :=
  Build_form [Arg "imm" 20 20; Arg "imm" 10 1; Arg "imm" 11 11; Arg "imm" 19 12; rd; Fix 7 0x6f]
    [("imm", Signed 21 1); Reg "rd"].
(** Shifts by constants, of 64 and of 32 bits. *)
Definition Sh6 (f6 f3 : Z) : form :=
  Build_form [Fix 6 f6; Arg "shamt" 5 0; rs1; Fix 3 f3; rd; Fix 7 0x13]
    [("shamt", Unsigned 6); Reg "rs1"; Reg "rd"].
Definition Sh5 (f7 f3 : Z) : form :=
  Build_form [Fix 7 f7; Arg "shamt" 4 0; rs1; Fix 3 f3; rd; Fix 7 0x1b]
    [("shamt", Unsigned 5); Reg "rs1"; Reg "rd"].
Definition System (f12 : Z) : form := Build_form [Fix 12 f12; Fix 13 0; Fix 7 0x73] [].
Definition Fence : form :=
  Build_form [Fix 4 0; Arg "pred" 3 0; Arg "succ" 3 0; Fix 5 0; Fix 3 0; Fix 5 0; Fix 7 0x0f]
    [("pred", Unsigned 4); ("succ", Unsigned 4)].
Definition Csr (f3 : Z) : form :=
  Build_form [Arg "csr" 11 0; rs1; Fix 3 f3; rd; Fix 7 0x73] [("csr", Unsigned 12); Reg "rs1"; Reg "rd"].
Definition amo_kinds (k : kind) : list (string * kind) :=
  [("aq", Unsigned 1); ("rl", Unsigned 1); ("rs2", k); Reg "rs1"; Reg "rd"].
Definition Amo (f5 f3 : Z) : form :=
  Build_form [Fix 5 f5; Arg "aq" 0 0; Arg "rl" 0 0; rs2; rs1; Fix 3 f3; rd; Fix 7 0x2f] (amo_kinds (Unsigned 5)).
Definition Lr (f3 : Z) : form :=
  Build_form [Fix 5 2; Arg "aq" 0 0; Arg "rl" 0 0; Fix 5 0; rs1; Fix 3 f3; rd; Fix 7 0x2f] (amo_kinds (Always 0)).
Definition R4 (fmt op : Z) : form :=
  Build_form [rs3; Fix 2 fmt; rs2; rs1; rm; rd; Fix 7 op]
    [Reg "rd"; Reg "rs1"; Reg "rs2"; Reg "rs3"; ("rm", Unsigned 3)].
Definition Rrm (f7 : Z) : form :=
  Build_form [Fix 7 f7; rs2; rs1; rm; rd; Fix 7 0x53] [Reg "rd"; Reg "rs1"; Reg "rs2"; ("rm", Unsigned 3)].
Definition R2rm (f7 f5 : Z) : form :=
  Build_form [Fix 7 f7; Fix 5 f5; rs1; rm; rd; Fix 7 0x53] [Reg "rd"; Reg "rs1"; ("rm", Unsigned 3)].
Definition R2 (f7 f3 : Z) : form :=
  Build_form [Fix 7 f7; Fix 5 0; rs1; Fix 3 f3; rd; Fix 7 0x53] [Reg "rd"; Reg "rs1"].

Definition of_Empty (a : ArgsEmpty.t) : list (string * Z) := [].
Definition of_B (a : ArgsB.t) : list (string * Z) := [("imm", ArgsB.imm a); ("rs2", ArgsB.rs2 a); ("rs1", ArgsB.rs1 a)].
Definition of_I (a : ArgsI.t) : list (string * Z) := [("imm", ArgsI.imm a); ("rs1", ArgsI.rs1 a); ("rd", ArgsI.rd a)].
Definition of_J (a : ArgsJ.t) : list (string * Z) := [("imm", ArgsJ.imm a); ("rd", ArgsJ.rd a)].
Definition of_R (a : ArgsR.t) : list (string * Z) := [("rd", ArgsR.rd a); ("rs1", ArgsR.rs1 a); ("rs2", ArgsR.rs2 a)].
Definition of_R2 (a : ArgsR2.t) : list (string * Z) := [("rd", ArgsR2.rd a); ("rs1", ArgsR2.rs1 a)].
Definition of_R2Rm (a : ArgsR2Rm.t) : list (string * Z) := [("rd", ArgsR2Rm.rd a); ("rs1", ArgsR2Rm.rs1 a); ("rm", ArgsR2Rm.rm a)].
Definition of_RRm (a : ArgsRRm.t) : list (string * Z) := [("rd", ArgsRRm.rd a); ("rs1", ArgsRRm.rs1 a); ("rs2", ArgsRRm.rs2 a); ("rm", ArgsRRm.rm a)].
Definition of_R4Rm (a : ArgsR4Rm.t) : list (string * Z) := [("rd", ArgsR4Rm.rd a); ("rs1", ArgsR4Rm.rs1 a); ("rs2", ArgsR4Rm.rs2 a); ("rs3", ArgsR4Rm.rs3 a); ("rm", ArgsR4Rm.rm a)].
Definition of_S (a : ArgsS.t) : list (string * Z) := [("imm", ArgsS.imm a); ("rs1", ArgsS.rs1 a); ("rs2", ArgsS.rs2 a)].
Definition of_U (a : ArgsU.t) : list (string * Z) := [("imm", ArgsU.imm a); ("rd", ArgsU.rd a)].
Definition of_Shift (a : ArgsShift.t) : list (string * Z) := [("shamt", ArgsShift.shamt a); ("rs1", ArgsShift.rs1 a); ("rd", ArgsShift.rd a)].
Definition of_Atomic (a : ArgsAtomic.t) : list (string * Z) := [("aq", ArgsAtomic.aq a); ("rl", ArgsAtomic.rl a); ("rs2", ArgsAtomic.rs2 a); ("rs1", ArgsAtomic.rs1 a); ("rd", ArgsAtomic.rd a)].
Definition of_Csr (a : ArgsCsr.t) : list (string * Z) := [("csr", ArgsCsr.csr a); ("rs1", ArgsCsr.rs1 a); ("rd", ArgsCsr.rd a)].
Definition of_AutoFence (a : ArgsAutoFence.t) : list (string * Z) := [("pred", ArgsAutoFence.pred a); ("succ", ArgsAutoFence.succ a)].

(** The method and the arguments of an instruction, in the order of its struct. *)
Definition describe (i : Insn.t) : string * list (string * Z) :=
  match i with
  | Insn.lui a => ("lui", of_U a)
  | Insn.auipc a => ("auipc", of_U a)
  | Insn.jal a => ("jal", of_J a)
  | Insn.jalr a => ("jalr", of_I a)
  | Insn.beq a => ("beq", of_B a)
  | Insn.bne a => ("bne", of_B a)
  | Insn.blt a => ("blt", of_B a)
  | Insn.bge a => ("bge", of_B a)
  | Insn.bltu a => ("bltu", of_B a)
  | Insn.bgeu a => ("bgeu", of_B a)
  | Insn.lb a => ("lb", of_I a)
  | Insn.lh a => ("lh", of_I a)
  | Insn.lw a => ("lw", of_I a)
  | Insn.lbu a => ("lbu", of_I a)
  | Insn.lhu a => ("lhu", of_I a)
  | Insn.sb a => ("sb", of_S a)
  | Insn.sh a => ("sh", of_S a)
  | Insn.sw a => ("sw", of_S a)
  | Insn.addi a => ("addi", of_I a)
  | Insn.slti a => ("slti", of_I a)
  | Insn.sltiu a => ("sltiu", of_I a)
  | Insn.xori a => ("xori", of_I a)
  | Insn.ori a => ("ori", of_I a)
  | Insn.andi a => ("andi", of_I a)
  | Insn.slli a => ("slli", of_Shift a)
  | Insn.srli a => ("srli", of_Shift a)
  | Insn.srai a => ("srai", of_Shift a)
  | Insn.add a => ("add", of_R a)
  | Insn.sub a => ("sub", of_R a)
  | Insn.sll a => ("sll", of_R a)
  | Insn.slt a => ("slt", of_R a)
  | Insn.sltu a => ("sltu", of_R a)
  | Insn.xor a => ("xor", of_R a)
  | Insn.srl a => ("srl", of_R a)
  | Insn.sra a => ("sra", of_R a)
  | Insn.or a => ("or", of_R a)
  | Insn.and a => ("and", of_R a)
  | Insn.fence a => ("fence", of_AutoFence a)
  | Insn.ecall a => ("ecall", of_Empty a)
  | Insn.ebreak a => ("ebreak", of_Empty a)
  | Insn.lwu a => ("lwu", of_I a)
  | Insn.ld a => ("ld", of_I a)
  | Insn.sd a => ("sd", of_S a)
  | Insn.addiw a => ("addiw", of_I a)
  | Insn.slliw a => ("slliw", of_Shift a)
  | Insn.srliw a => ("srliw", of_Shift a)
  | Insn.sraiw a => ("sraiw", of_Shift a)
  | Insn.addw a => ("addw", of_R a)
  | Insn.subw a => ("subw", of_R a)
  | Insn.sllw a => ("sllw", of_R a)
  | Insn.srlw a => ("srlw", of_R a)
  | Insn.sraw a => ("sraw", of_R a)
  | Insn.mul a => ("mul", of_R a)
  | Insn.mulh a => ("mulh", of_R a)
  | Insn.mulhsu a => ("mulhsu", of_R a)
  | Insn.mulhu a => ("mulhu", of_R a)
  | Insn.div a => ("div", of_R a)
  | Insn.divu a => ("divu", of_R a)
  | Insn.rem a => ("rem", of_R a)
  | Insn.remu a => ("remu", of_R a)
  | Insn.mulw a => ("mulw", of_R a)
  | Insn.divw a => ("divw", of_R a)
  | Insn.divuw a => ("divuw", of_R a)
  | Insn.remw a => ("remw", of_R a)
  | Insn.remuw a => ("remuw", of_R a)
  | Insn.lr_w a => ("lr_w", of_Atomic a)
  | Insn.sc_w a => ("sc_w", of_Atomic a)
  | Insn.amoswap_w a => ("amoswap_w", of_Atomic a)
  | Insn.amoadd_w a => ("amoadd_w", of_Atomic a)
  | Insn.amoxor_w a => ("amoxor_w", of_Atomic a)
  | Insn.amoand_w a => ("amoand_w", of_Atomic a)
  | Insn.amoor_w a => ("amoor_w", of_Atomic a)
  | Insn.amomin_w a => ("amomin_w", of_Atomic a)
  | Insn.amomax_w a => ("amomax_w", of_Atomic a)
  | Insn.amominu_w a => ("amominu_w", of_Atomic a)
  | Insn.amomaxu_w a => ("amomaxu_w", of_Atomic a)
  | Insn.lr_d a => ("lr_d", of_Atomic a)
  | Insn.sc_d a => ("sc_d", of_Atomic a)
  | Insn.amoswap_d a => ("amoswap_d", of_Atomic a)
  | Insn.amoadd_d a => ("amoadd_d", of_Atomic a)
  | Insn.amoxor_d a => ("amoxor_d", of_Atomic a)
  | Insn.amoand_d a => ("amoand_d", of_Atomic a)
  | Insn.amoor_d a => ("amoor_d", of_Atomic a)
  | Insn.amomin_d a => ("amomin_d", of_Atomic a)
  | Insn.amomax_d a => ("amomax_d", of_Atomic a)
  | Insn.amominu_d a => ("amominu_d", of_Atomic a)
  | Insn.amomaxu_d a => ("amomaxu_d", of_Atomic a)
  | Insn.csrrw a => ("csrrw", of_Csr a)
  | Insn.csrrs a => ("csrrs", of_Csr a)
  | Insn.csrrc a => ("csrrc", of_Csr a)
  | Insn.csrrwi a => ("csrrwi", of_Csr a)
  | Insn.csrrsi a => ("csrrsi", of_Csr a)
  | Insn.csrrci a => ("csrrci", of_Csr a)
  | Insn.flw a => ("flw", of_I a)
  | Insn.fsw a => ("fsw", of_S a)
  | Insn.fld a => ("fld", of_I a)
  | Insn.fsd a => ("fsd", of_S a)
  | Insn.fmadd_s a => ("fmadd_s", of_R4Rm a)
  | Insn.fmsub_s a => ("fmsub_s", of_R4Rm a)
  | Insn.fnmsub_s a => ("fnmsub_s", of_R4Rm a)
  | Insn.fnmadd_s a => ("fnmadd_s", of_R4Rm a)
  | Insn.fadd_s a => ("fadd_s", of_RRm a)
  | Insn.fsub_s a => ("fsub_s", of_RRm a)
  | Insn.fmul_s a => ("fmul_s", of_RRm a)
  | Insn.fdiv_s a => ("fdiv_s", of_RRm a)
  | Insn.fsqrt_s a => ("fsqrt_s", of_R2Rm a)
  | Insn.fsgnj_s a => ("fsgnj_s", of_R a)
  | Insn.fsgnjn_s a => ("fsgnjn_s", of_R a)
  | Insn.fsgnjx_s a => ("fsgnjx_s", of_R a)
  | Insn.fmin_s a => ("fmin_s", of_R a)
  | Insn.fmax_s a => ("fmax_s", of_R a)
  | Insn.feq_s a => ("feq_s", of_R a)
  | Insn.flt_s a => ("flt_s", of_R a)
  | Insn.fle_s a => ("fle_s", of_R a)
  | Insn.fclass_s a => ("fclass_s", of_R2 a)
  | Insn.fcvt_w_s a => ("fcvt_w_s", of_R2Rm a)
  | Insn.fcvt_wu_s a => ("fcvt_wu_s", of_R2Rm a)
  | Insn.fcvt_s_w a => ("fcvt_s_w", of_R2Rm a)
  | Insn.fcvt_s_wu a => ("fcvt_s_wu", of_R2Rm a)
  | Insn.fmv_x_w a => ("fmv_x_w", of_R2 a)
  | Insn.fmv_w_x a => ("fmv_w_x", of_R2 a)
  | Insn.fcvt_l_s a => ("fcvt_l_s", of_R2Rm a)
  | Insn.fcvt_lu_s a => ("fcvt_lu_s", of_R2Rm a)
  | Insn.fcvt_s_l a => ("fcvt_s_l", of_R2Rm a)
  | Insn.fcvt_s_lu a => ("fcvt_s_lu", of_R2Rm a)
  | Insn.fmadd_d a => ("fmadd_d", of_R4Rm a)
  | Insn.fmsub_d a => ("fmsub_d", of_R4Rm a)
  | Insn.fnmsub_d a => ("fnmsub_d", of_R4Rm a)
  | Insn.fnmadd_d a => ("fnmadd_d", of_R4Rm a)
  | Insn.fadd_d a => ("fadd_d", of_RRm a)
  | Insn.fsub_d a => ("fsub_d", of_RRm a)
  | Insn.fmul_d a => ("fmul_d", of_RRm a)
  | Insn.fdiv_d a => ("fdiv_d", of_RRm a)
  | Insn.fsqrt_d a => ("fsqrt_d", of_R2Rm a)
  | Insn.fsgnj_d a => ("fsgnj_d", of_R a)
  | Insn.fsgnjn_d a => ("fsgnjn_d", of_R a)
  | Insn.fsgnjx_d a => ("fsgnjx_d", of_R a)
  | Insn.fmin_d a => ("fmin_d", of_R a)
  | Insn.fmax_d a => ("fmax_d", of_R a)
  | Insn.feq_d a => ("feq_d", of_R a)
  | Insn.flt_d a => ("flt_d", of_R a)
  | Insn.fle_d a => ("fle_d", of_R a)
  | Insn.fclass_d a => ("fclass_d", of_R2 a)
  | Insn.fcvt_s_d a => ("fcvt_s_d", of_R2Rm a)
  | Insn.fcvt_d_s a => ("fcvt_d_s", of_R2Rm a)
  | Insn.fcvt_w_d a => ("fcvt_w_d", of_R2Rm a)
  | Insn.fcvt_wu_d a => ("fcvt_wu_d", of_R2Rm a)
  | Insn.fcvt_d_w a => ("fcvt_d_w", of_R2Rm a)
  | Insn.fcvt_d_wu a => ("fcvt_d_wu", of_R2Rm a)
  | Insn.fcvt_l_d a => ("fcvt_l_d", of_R2Rm a)
  | Insn.fcvt_lu_d a => ("fcvt_lu_d", of_R2Rm a)
  | Insn.fcvt_d_l a => ("fcvt_d_l", of_R2Rm a)
  | Insn.fcvt_d_lu a => ("fcvt_d_lu", of_R2Rm a)
  | Insn.fmv_x_d a => ("fmv_x_d", of_R2 a)
  | Insn.fmv_d_x a => ("fmv_d_x", of_R2 a)
  end.

(** The encodings of the ISA manual. *)
Definition isa : list (string * Encoding.form) := [
  ("lui", U 55); ("auipc", U 23); ("jal", J); ("jalr", I 0 103); ("beq", B 0); ("bne", B 1);
  ("blt", B 4); ("bge", B 5); ("bltu", B 6); ("bgeu", B 7); ("lb", I 0 3); ("lh", I 1 3);
  ("lw", I 2 3); ("lbu", I 4 3); ("lhu", I 5 3); ("sb", S 0 35); ("sh", S 1 35); ("sw", S 2 35);
  ("addi", I 0 19); ("slti", I 2 19); ("sltiu", I 3 19); ("xori", I 4 19); ("ori", I 6 19);
  ("andi", I 7 19); ("slli", Sh6 0 1); ("srli", Sh6 0 5); ("srai", Sh6 16 5); ("add", R 0 0 51);
  ("sub", R 32 0 51); ("sll", R 0 1 51); ("slt", R 0 2 51); ("sltu", R 0 3 51);
  ("xor", R 0 4 51); ("srl", R 0 5 51); ("sra", R 32 5 51); ("or", R 0 6 51); ("and", R 0 7 51);
  ("fence", Fence); ("ecall", System 0); ("ebreak", System 1); ("lwu", I 6 3); ("ld", I 3 3);
  ("sd", S 3 35); ("addiw", I 0 27); ("slliw", Sh5 0 1); ("srliw", Sh5 0 5);
  ("sraiw", Sh5 32 5); ("addw", R 0 0 59); ("subw", R 32 0 59); ("sllw", R 0 1 59);
  ("srlw", R 0 5 59); ("sraw", R 32 5 59); ("mul", R 1 0 51); ("mulh", R 1 1 51);
  ("mulhsu", R 1 2 51); ("mulhu", R 1 3 51); ("div", R 1 4 51); ("divu", R 1 5 51);
  ("rem", R 1 6 51); ("remu", R 1 7 51); ("mulw", R 1 0 59); ("divw", R 1 4 59);
  ("divuw", R 1 5 59); ("remw", R 1 6 59); ("remuw", R 1 7 59); ("lr_w", Lr 2);
  ("sc_w", Amo 3 2); ("amoswap_w", Amo 1 2); ("amoadd_w", Amo 0 2); ("amoxor_w", Amo 4 2);
  ("amoand_w", Amo 12 2); ("amoor_w", Amo 8 2); ("amomin_w", Amo 16 2); ("amomax_w", Amo 20 2);
  ("amominu_w", Amo 24 2); ("amomaxu_w", Amo 28 2); ("lr_d", Lr 3); ("sc_d", Amo 3 3);
  ("amoswap_d", Amo 1 3); ("amoadd_d", Amo 0 3); ("amoxor_d", Amo 4 3); ("amoand_d", Amo 12 3);
  ("amoor_d", Amo 8 3); ("amomin_d", Amo 16 3); ("amomax_d", Amo 20 3); ("amominu_d", Amo 24 3);
  ("amomaxu_d", Amo 28 3); ("csrrw", Csr 1); ("csrrs", Csr 2); ("csrrc", Csr 3);
  ("csrrwi", Csr 5); ("csrrsi", Csr 6); ("csrrci", Csr 7); ("flw", I 2 7); ("fsw", S 2 39);
  ("fld", I 3 7); ("fsd", S 3 39); ("fmadd_s", R4 0 67); ("fmsub_s", R4 0 71);
  ("fnmsub_s", R4 0 75); ("fnmadd_s", R4 0 79); ("fadd_s", Rrm 0); ("fsub_s", Rrm 4);
  ("fmul_s", Rrm 8); ("fdiv_s", Rrm 12); ("fsqrt_s", R2rm 44 0); ("fsgnj_s", R 16 0 83);
  ("fsgnjn_s", R 16 1 83); ("fsgnjx_s", R 16 2 83); ("fmin_s", R 20 0 83);
  ("fmax_s", R 20 1 83); ("feq_s", R 80 2 83); ("flt_s", R 80 1 83); ("fle_s", R 80 0 83);
  ("fclass_s", R2 112 1); ("fcvt_w_s", R2rm 96 0); ("fcvt_wu_s", R2rm 96 1);
  ("fcvt_s_w", R2rm 104 0); ("fcvt_s_wu", R2rm 104 1); ("fmv_x_w", R2 112 0);
  ("fmv_w_x", R2 120 0); ("fcvt_l_s", R2rm 96 2); ("fcvt_lu_s", R2rm 96 3);
  ("fcvt_s_l", R2rm 104 2); ("fcvt_s_lu", R2rm 104 3); ("fmadd_d", R4 1 67);
  ("fmsub_d", R4 1 71); ("fnmsub_d", R4 1 75); ("fnmadd_d", R4 1 79); ("fadd_d", Rrm 1);
  ("fsub_d", Rrm 5); ("fmul_d", Rrm 9); ("fdiv_d", Rrm 13); ("fsqrt_d", R2rm 45 0);
  ("fsgnj_d", R 17 0 83); ("fsgnjn_d", R 17 1 83); ("fsgnjx_d", R 17 2 83);
  ("fmin_d", R 21 0 83); ("fmax_d", R 21 1 83); ("feq_d", R 81 2 83); ("flt_d", R 81 1 83);
  ("fle_d", R 81 0 83); ("fclass_d", R2 113 1); ("fcvt_s_d", R2rm 32 1);
  ("fcvt_d_s", R2rm 33 0); ("fcvt_w_d", R2rm 97 0); ("fcvt_wu_d", R2rm 97 1);
  ("fcvt_d_w", R2rm 105 0); ("fcvt_d_wu", R2rm 105 1); ("fcvt_l_d", R2rm 97 2);
  ("fcvt_lu_d", R2rm 97 3); ("fcvt_d_l", R2rm 105 2); ("fcvt_d_lu", R2rm 105 3);
  ("fmv_x_d", R2 113 0); ("fmv_d_x", R2 121 0)
].

(** An instruction with arguments its encoding has room for, and its word. *)
Definition arg_of (i : Insn.t) (a : string) : Z := field (describe i).2 a.

Definition encodable (i : Insn.t) : Prop :=
  match BTree.get (describe i).1 isa with
  | Some f => Forall (λ '(a, k), in_kind k (arg_of i a)) (kinds f)
  | None => False
  end.

#[global] Instance encodable_dec i : Decision (encodable i).
Proof.
  unfold encodable. destruct (BTree.get _ isa) as [f|]; [|apply _].
  apply Forall_dec. intros [a k]. apply _.
Defined.

Definition encode_insn (i : Insn.t) : Z :=
  match BTree.get (describe i).1 isa with
  | Some f => encode (pieces f) (arg_of i)
  | None => 0
  end.

(** ** The decoder inverts the encodings *)

Definition same (l : list string) : list (string * string) := map (λ a, (a, a)) l.

(** Each encoding, checked symbolically. *)
Lemma isa_decodes :
  forallb (λ '(m, f), (zlen (Sym.bits (pieces f)) =? 32) &&
                      Sym.decodes riscv32 f [] m (same (kinds f).*1)) isa = true.
Proof. vm_compute. reflexivity. Qed.

Lemma get_elem {A} k (m : list (string * A)) x : BTree.get k m = Some x → (k, x) ∈ m.
Proof.
  induction m as [|[k' y] m IH]; [done|]. cbn [BTree.get]. destruct (String.eqb k k') eqn:E.
  - apply String.eqb_eq in E as ->. intros [= ->]. left.
  - intros H. right. auto.
Qed.

Lemma encode_range ps arg : 0 ≤ encode ps arg < 2 ^ zlen (Sym.bits ps).
Proof. rewrite encode_word. apply word_range. Qed.

(** Running the generated program is what the file says. *)
Lemma run_decoder_spec w parsed insn :
  wf_parsed w parsed = true → run_decoder w parsed insn = Some (Spec.decode parsed (insn mod 2 ^ w)).
Proof.
  intros Hwf. pose proof (wf_parsed_width w parsed Hwf) as Hw.
  destruct (extract_total w Hw _ (wf_parsed_fields w parsed Hwf)) as [fns Hfns].
  unfold run_decoder. rewrite Hfns. cbn [mbind option_bind]. rewrite wrap_word by done.
  apply run_arms_spec; try done. apply mod_in_width. destruct Hw; lia.
Qed.

(** The struct built from the arguments of an instruction is that instruction. *)
Lemma called_describe i f :
  BTree.get (describe i).1 isa = Some f →
  called methods32 (Some (Some ((describe i).1, map (λ '(fd, a), (fd, arg_of i a)) (same (kinds f).*1)))) =
  Some i.
Proof. destruct i; destruct a; intros [= <-]; reflexivity. Qed.

Lemma decode_encode i : encodable i → @decode generated (encode_insn i) = Some i.
Proof.
  unfold encodable, encode_insn. destruct (BTree.get (describe i).1 isa) as [f|] eqn:Ef; [|done].
  intros Hk. pose proof isa_decodes as H. rewrite forallb_forall in H.
  specialize (H _ (proj1 (list_elem_of_In _ _) (get_elem _ _ _ Ef))). cbn beta iota in H. boolp.
  cbn [decode generated]. rewrite (run_decoder_spec 32) by apply riscv32_wf.
  rewrite Z.mod_small.
  2:{ match goal with H : zlen _ = 32 |- _ => rewrite <- H end. apply encode_range. }
  rewrite (sym_decodes 32 riscv32 f [] (describe i).1 (same (kinds f).*1) (arg_of i));
    [by apply called_describe|apply riscv32_wf|done|done| |].
  - intros a k Ha%get_elem. rewrite Forall_forall in Hk. exact (Hk _ Ha).
  - intros a v Hin. inversion Hin.
Qed.

(** ** Register numbers and shift amounts *)

(** A bound of a field: its values are below it, and not negative. *)
Definition field_bound (f : Field.t) : option Z :=
  match Field.segments f with
  | s :: _ =>
      if FieldSegment.signed s then None
      else
        let b := 2 ^ total_len (Field.segments f) in
        match Field.func f with
        | None => Some b
        | Some g =>
            if String.eqb g "ex_rvc_register" then Some (b + 8)
            else if String.eqb g "ex_rvc_shiftli" then Some b
            else if String.eqb g "ex_rvc_shiftri" then Some b else None
        end
  | [] => None
  end.

Definition mapping_bound (fields : BTree.t Field.t) (m : FieldMapping.t) : option Z :=
  match m with
  | FieldMapping.FieldRef r => f ← BTree.get r fields; field_bound f
  | FieldMapping.Inline _ _ _ => None
  | FieldMapping.Const c => if 0 <=? c then Some (c + 1) else None
  end.

Definition register_fields : list string := ["rd"; "rs1"; "rs2"; "rs3"].

(** Every register argument of a pattern is below 32, every shift amount below 128. *)
Definition bounded (parsed : Parsed.t) : bool :=
  forallb (λ p, forallb (λ af,
      match (if bool_decide (af ∈ register_fields) then Some 32
             else if String.eqb af "shamt" then Some 128 else None), BTree.get af (Pattern.field_map p) with
      | Some b, Some m => match mapping_bound (Parsed.fields parsed) m with Some b' => b' <=? b | None => false end
      | _, _ => true
      end) (arg_fields p (Parsed.argsets parsed))) (Parsed.patterns parsed).

Lemma raw_bound w insn s segs :
  forallb (wf_segment w) (s :: segs) = true → FieldSegment.signed s = false →
  0 ≤ Spec.field_raw insn (s :: segs) < 2 ^ total_len (s :: segs).
Proof.
  intros Hwf Hs. cbn [forallb] in Hwf. boolp.
  assert (∀ s, wf_segment w s = true → 1 ≤ FieldSegment.len s) as Hlen.
  { intros [pos len sg] H1. unfold wf_segment in H1. boolp. done. }
  cbn [Spec.field_raw total_len foldr]. unfold Spec.segment_value. rewrite Hs.
  pose proof (Hlen s ltac:(done)).
  pose proof (slice_range insn (FieldSegment.pos s) (FieldSegment.len s) ltac:(lia)) as Hv.
  revert Hv. generalize (Spec.slice insn (FieldSegment.pos s) (FieldSegment.len s)).
  assert (0 ≤ FieldSegment.len s) as Hn by lia. revert Hn. generalize (FieldSegment.len s).
  induction segs as [|s1 segs IH]; intros n Hn v Hv; cbn [foldl foldr].
  { rewrite Z.add_0_r. done. }
  cbn [forallb] in *. boolp. pose proof (Hlen s1 ltac:(done)).
  pose proof (slice_range insn (FieldSegment.pos s1) (FieldSegment.len s1) ltac:(lia)).
  rewrite Z.add_assoc. apply IH; [done|lia|]. rewrite Z.pow_add_r by lia. nia.
Qed.

Lemma field_bound_spec w insn f b :
  wf_field w f = true → field_bound f = Some b → 0 ≤ Spec.field_value insn f < b.
Proof.
  unfold wf_field, field_bound, Spec.field_value. intros Hwf. boolp.
  destruct (Field.segments f) as [|s segs]; [done|]. destruct (FieldSegment.signed s) eqn:Es; [done|].
  pose proof (raw_bound w insn s segs ltac:(done) Es) as Hr. revert Hr.
  generalize (Spec.field_raw insn (s :: segs)), (2 ^ total_len (s :: segs)). intros v n Hr.
  destruct (Field.func f) as [g|]; [|by intros [= <-]].
  destruct (String.eqb g "ex_rvc_register") eqn:E1.
  { apply String.eqb_eq in E1 as ->. intros [= <-]. cbn. lia. }
  destruct (String.eqb g "ex_rvc_shiftli") eqn:E2.
  { apply String.eqb_eq in E2 as ->. by intros [= <-]. }
  destruct (String.eqb g "ex_rvc_shiftri") eqn:E3; [|done].
  apply String.eqb_eq in E3 as ->. by intros [= <-].
Qed.

Lemma mapping_bound_spec w parsed insn m b :
  wf_parsed w parsed = true → mapping_bound (Parsed.fields parsed) m = Some b →
  0 ≤ Spec.mapping_value (Parsed.fields parsed) insn m < b.
Proof.
  intros Hwf%wf_parsed_fields. destruct m as [r|pos len sg|c]; cbn [mapping_bound Spec.mapping_value]; [|done|].
  - destruct (BTree.get r (Parsed.fields parsed)) as [f|] eqn:Ef; [|done]. cbn [mbind option_bind from_option].
    apply (field_bound_spec w). rewrite Forall_forall in Hwf. apply Hwf.
    apply get_elem in Ef. apply (list_elem_of_fmap_2 snd _ _ Ef).
  - destruct (0 <=? c) eqn:E; [|done]. intros [= <-]. boolp. lia.
Qed.

Lemma first_match_elem insn ps p : Spec.first_match insn ps = Some p → p ∈ ps.
Proof.
  induction ps as [|q ps IH]; [done|]. cbn [Spec.first_match]. destruct (Spec.matches insn q).
  - intros [= ->]. left.
  - intros H. right. auto.
Qed.

(** The registers and the shift amount of a decoded instruction. *)
Definition well_typed (get : string → Z) : Prop :=
  reg (get "rd") ∧ reg (get "rs1") ∧ reg (get "rs2") ∧ reg (get "rs3") ∧ 0 ≤ get "shamt".

Lemma args_bounded w parsed insn m args :
  wf_parsed w parsed = true → bounded parsed = true → Spec.decode parsed insn = Some (m, args) →
  well_typed (field args).
Proof.
  intros Hwf Hb Hd. unfold Spec.decode in Hd.
  destruct (Spec.first_match insn _) as [p|] eqn:Ep; [|done]. injection Hd as <- <-.
  apply first_match_elem, list_elem_of_In in Ep. unfold bounded in Hb. rewrite forallb_forall in Hb.
  specialize (Hb p Ep). cbn beta in Hb.
  assert (∀ a b, (if bool_decide (a ∈ register_fields) then Some 32
                  else if String.eqb a "shamt" then Some 128 else None) = Some b →
          0 ≤ field (Spec.args parsed insn p) a < b) as H.
  { intros a b Hab. unfold field, Spec.args.
    assert (0 < b) by (repeat case_match; simplify_eq; lia).
    induction (arg_fields p (Parsed.argsets parsed)) as [|af afs IH]; [simpl; lia|].
    cbn [forallb map BTree.get] in *. boolp.
    destruct (String.eqb a af) eqn:E; [|by apply IH].
    apply String.eqb_eq in E as <-. rewrite Hab in *. simpl.
    destruct (BTree.get a (Pattern.field_map p)) as [mp|]; [|simpl; lia]. simpl.
    destruct (mapping_bound (Parsed.fields parsed) mp) as [b'|] eqn:Em; [|done]. boolp.
    pose proof (mapping_bound_spec w parsed insn mp b' Hwf Em). lia. }
  split_and!; try (by apply H). by apply (H "shamt" 128).
Qed.

Lemma methods32_ok m mk get :
  BTree.get m methods32 = Some mk → well_typed get → args_ok (mk get).
Proof.
  intros Hm%get_elem (? & ? & ? & ? & ?).
  assert (Forall (λ '(_, mk), args_ok (mk get)) methods32) as HF.
  { unfold methods32. repeat (constructor; [cbn; unfold args_r, args_i, args_s, args_b, args_shift, args_atomic, args_csr; cbn; tauto|]). constructor. }
  rewrite Forall_forall in HF. exact (HF _ Hm).
Qed.

Lemma methods16_ok m mk get i :
  BTree.get m methods16 = Some mk → well_typed get → expand (mk get) = Some i → args_ok i.
Proof.
  intros Hm%get_elem (? & ? & ? & ? & ?).
  assert (Forall (λ '(_, mk), ∀ i, expand (mk get) = Some i → args_ok i) methods16) as HF.
  { unfold methods16. repeat (constructor; [cbn; intros ? [= <-]; cbn; unfold args_r, args_i, args_s, args_b, args_shift; cbn; tauto|]).
    constructor. }
  rewrite Forall_forall in HF. exact (HF _ Hm i).
Qed.

Lemma called_typed {I} (methods : list (string * ((string → Z) → I))) w parsed insn i :
  wf_parsed w parsed = true → bounded parsed = true →
  called methods (run_decoder w parsed insn) = Some i →
  ∃ m mk get, BTree.get m methods = Some mk ∧ well_typed get ∧ i = mk get.
Proof.
  intros Hwf Hb. rewrite run_decoder_spec by done. unfold called. cbn [mjoin option_join].
  destruct (Spec.decode parsed _) as [[m args]|] eqn:E; [|done]. cbn [mbind option_bind].
  destruct (BTree.get m methods) as [mk|] eqn:Em; [|done]. intros [= <-].
  exists m, mk, (field args). split_and!; [done| |done]. exact (args_bounded w parsed _ m args Hwf Hb E).
Qed.

(** ** Compressed instructions *)

(** An encoding of the manual's chapter on C, the values reserved for other encodings, the
    call of the decoder, and the instruction it stands for. *)
Record compressed := {
  cform : form; cne : list (string * Z); cmethod : string; cnames : list (string * string);
  cinsn : (string → Z) → Insn.t
}.

(** Registers 8 to 15, and constants. *)
Definition rd' := Arg "rd" 2 0.
Definition rs1' := Arg "rs1" 2 0.
Definition rs2' := Arg "rs2" 2 0.
Definition sp : string * kind := ("sp", Always 2).
Definition ra : string * kind := ("ra", Always 1).
Definition zero : string * kind := ("zero", Always 0).

Definition C (ps : list piece) (ks : list (string * kind)) := Build_compressed (Build_form ps ks).

(** Struct fields by argument. *)
Definition at_i (imm rs1 rd : string) := [("imm", imm); ("rs1", rs1); ("rd", rd)].
Definition at_s (imm rs1 rs2 : string) := [("imm", imm); ("rs1", rs1); ("rs2", rs2)].
Definition at_r (rd rs1 rs2 : string) := [("rd", rd); ("rs1", rs1); ("rs2", rs2)].
Definition at_b (imm rs2 rs1 : string) := [("imm", imm); ("rs2", rs2); ("rs1", rs1)].
Definition at_sh (shamt rs1 rd : string) := [("shamt", shamt); ("rs1", rs1); ("rd", rd)].

Definition load_d : list piece := [Arg "imm" 5 3; rs1'; Arg "imm" 7 6].
Definition load_w : list piece := [Arg "imm" 5 3; rs1'; Arg "imm" 2 2; Arg "imm" 6 6].
Definition mem_kinds (k : kind) (r : string) : list (string * kind) := [("imm", k); ("rs1", High); (r, High)].
Definition alu_kinds : list (string * kind) := [("rd", High); ("rs2", High)].
Definition alu (f1 f2 : Z) : list piece := [Fix 3 4; Fix 1 f1; Fix 2 3; rd'; Fix 2 f2; rs2'; Fix 2 1].
Definition imm_ci (f3 op : Z) : list piece := [Fix 3 f3; Arg "imm" 5 5; rd; Arg "imm" 4 0; Fix 2 op].
Definition ci_kinds : list (string * kind) := [("imm", Signed 6 0); Reg "rd"; zero].
Definition shift_pieces (f2 : Z) : list piece :=
  [Fix 3 4; Arg "shamt" 5 5; Fix 2 f2; rd'; Arg "shamt" 4 0; Fix 2 1].
Definition branch_pieces (f3 : Z) : list piece :=
  [Fix 3 f3; Arg "imm" 8 8; Arg "imm" 4 3; rs1'; Arg "imm" 7 6; Arg "imm" 2 1; Arg "imm" 5 5; Fix 2 1].
Definition branch_kinds : list (string * kind) := [("imm", Signed 9 1); ("rs1", High); zero].
Definition sp_d (f3 : Z) : list piece := [Fix 3 f3; Arg "imm" 5 5; rd; Arg "imm" 4 3; Arg "imm" 8 6; Fix 2 2].
Definition sp_w (f3 : Z) : list piece := [Fix 3 f3; Arg "imm" 5 5; rd; Arg "imm" 4 2; Arg "imm" 7 6; Fix 2 2].

(** MV is decoded as an addition of zero. *)
Definition rvc : list compressed := [
  (* quadrant 0 *)
  C [Fix 3 0; Arg "imm" 5 4; Arg "imm" 9 6; Arg "imm" 2 2; Arg "imm" 3 3; rd'; Fix 2 0]
    [("imm", Scaled 10 2); sp; ("rd", High)] [("imm", 0)] "addi" (at_i "imm" "sp" "rd")
    (λ a, Insn.addi (ArgsI.mk (a "imm") 2 (a "rd")));
  C ([Fix 3 1] ++ load_d ++ [rd'; Fix 2 0]) (mem_kinds (Scaled 8 3) "rd") [] "c_fld" (at_i "imm" "rs1" "rd")
    (λ a, Insn.fld (ArgsI.mk (a "imm") (a "rs1") (a "rd")));
  C ([Fix 3 2] ++ load_w ++ [rd'; Fix 2 0]) (mem_kinds (Scaled 7 2) "rd") [] "lw" (at_i "imm" "rs1" "rd")
    (λ a, Insn.lw (ArgsI.mk (a "imm") (a "rs1") (a "rd")));
  C ([Fix 3 3] ++ load_d ++ [rd'; Fix 2 0]) (mem_kinds (Scaled 8 3) "rd") [] "ld" (at_i "imm" "rs1" "rd")
    (λ a, Insn.ld (ArgsI.mk (a "imm") (a "rs1") (a "rd")));
  C ([Fix 3 5] ++ load_d ++ [rs2'; Fix 2 0]) (mem_kinds (Scaled 8 3) "rs2") [] "c_fsd" (at_s "imm" "rs1" "rs2")
    (λ a, Insn.fsd (ArgsS.mk (a "imm") (a "rs1") (a "rs2")));
  C ([Fix 3 6] ++ load_w ++ [rs2'; Fix 2 0]) (mem_kinds (Scaled 7 2) "rs2") [] "sw" (at_s "imm" "rs1" "rs2")
    (λ a, Insn.sw (ArgsS.mk (a "imm") (a "rs1") (a "rs2")));
  C ([Fix 3 7] ++ load_d ++ [rs2'; Fix 2 0]) (mem_kinds (Scaled 8 3) "rs2") [] "sd" (at_s "imm" "rs1" "rs2")
    (λ a, Insn.sd (ArgsS.mk (a "imm") (a "rs1") (a "rs2")));
  (* quadrant 1 *)
  C (imm_ci 0 1) ci_kinds [] "addi" (at_i "imm" "rd" "rd")
    (λ a, Insn.addi (ArgsI.mk (a "imm") (a "rd") (a "rd")));
  C (imm_ci 1 1) ci_kinds [("rd", 0)] "addiw" (at_i "imm" "rd" "rd")
    (λ a, Insn.addiw (ArgsI.mk (a "imm") (a "rd") (a "rd")));
  C (imm_ci 2 1) ci_kinds [] "addi" (at_i "imm" "zero" "rd")
    (λ a, Insn.addi (ArgsI.mk (a "imm") 0 (a "rd")));
  C [Fix 3 3; Arg "imm" 9 9; Fix 5 2; Arg "imm" 4 4; Arg "imm" 6 6; Arg "imm" 8 7; Arg "imm" 5 5; Fix 2 1]
    [("imm", Signed 10 4); sp] [("imm", 0)] "addi" (at_i "imm" "sp" "sp")
    (λ a, Insn.addi (ArgsI.mk (a "imm") 2 2));
  C [Fix 3 3; Arg "imm" 17 17; rd; Arg "imm" 16 12; Fix 2 1] [("imm", Signed 18 12); Reg "rd"]
    [("imm", 0); ("rd", 2)] "lui" [("imm", "imm"); ("rd", "rd")]
    (λ a, Insn.lui (ArgsU.mk (a "imm") (a "rd")));
  C (shift_pieces 0) [("shamt", Unsigned 6); ("rd", High)] [] "srli" (at_sh "shamt" "rd" "rd")
    (λ a, Insn.srli (ArgsShift.mk (a "shamt") (a "rd") (a "rd")));
  C (shift_pieces 1) [("shamt", Unsigned 6); ("rd", High)] [] "srai" (at_sh "shamt" "rd" "rd")
    (λ a, Insn.srai (ArgsShift.mk (a "shamt") (a "rd") (a "rd")));
  C [Fix 3 4; Arg "imm" 5 5; Fix 2 2; rd'; Arg "imm" 4 0; Fix 2 1] [("imm", Signed 6 0); ("rd", High)] []
    "andi" (at_i "imm" "rd" "rd") (λ a, Insn.andi (ArgsI.mk (a "imm") (a "rd") (a "rd")));
  C (alu 0 0) alu_kinds [] "sub" (at_r "rd" "rd" "rs2") (λ a, Insn.sub (ArgsR.mk (a "rd") (a "rd") (a "rs2")));
  C (alu 0 1) alu_kinds [] "xor" (at_r "rd" "rd" "rs2") (λ a, Insn.xor (ArgsR.mk (a "rd") (a "rd") (a "rs2")));
  C (alu 0 2) alu_kinds [] "or" (at_r "rd" "rd" "rs2") (λ a, Insn.or (ArgsR.mk (a "rd") (a "rd") (a "rs2")));
  C (alu 0 3) alu_kinds [] "and" (at_r "rd" "rd" "rs2") (λ a, Insn.and (ArgsR.mk (a "rd") (a "rd") (a "rs2")));
  C (alu 1 0) alu_kinds [] "subw" (at_r "rd" "rd" "rs2") (λ a, Insn.subw (ArgsR.mk (a "rd") (a "rd") (a "rs2")));
  C (alu 1 1) alu_kinds [] "addw" (at_r "rd" "rd" "rs2") (λ a, Insn.addw (ArgsR.mk (a "rd") (a "rd") (a "rs2")));
  C [Fix 3 5; Arg "imm" 11 11; Arg "imm" 4 4; Arg "imm" 9 8; Arg "imm" 10 10; Arg "imm" 6 6; Arg "imm" 7 7;
     Arg "imm" 3 1; Arg "imm" 5 5; Fix 2 1]
    [("imm", Signed 12 1); zero] [] "jal" [("imm", "imm"); ("rd", "zero")]
    (λ a, Insn.jal (ArgsJ.mk (a "imm") 0));
  C (branch_pieces 6) branch_kinds [] "beq" (at_b "imm" "zero" "rs1")
    (λ a, Insn.beq (ArgsB.mk (a "imm") 0 (a "rs1")));
  C (branch_pieces 7) branch_kinds [] "bne" (at_b "imm" "zero" "rs1")
    (λ a, Insn.bne (ArgsB.mk (a "imm") 0 (a "rs1")));
  (* quadrant 2 *)
  C [Fix 3 0; Arg "shamt" 5 5; rd; Arg "shamt" 4 0; Fix 2 2] [("shamt", Unsigned 6); Reg "rd"] []
    "slli" (at_sh "shamt" "rd" "rd") (λ a, Insn.slli (ArgsShift.mk (a "shamt") (a "rd") (a "rd")));
  C (sp_d 1) [("imm", Scaled 9 3); sp; Reg "rd"] [] "c_fld" (at_i "imm" "sp" "rd")
    (λ a, Insn.fld (ArgsI.mk (a "imm") 2 (a "rd")));
  C (sp_w 2) [("imm", Scaled 8 2); sp; Reg "rd"] [("rd", 0)] "lw" (at_i "imm" "sp" "rd")
    (λ a, Insn.lw (ArgsI.mk (a "imm") 2 (a "rd")));
  C (sp_d 3) [("imm", Scaled 9 3); sp; Reg "rd"] [("rd", 0)] "ld" (at_i "imm" "sp" "rd")
    (λ a, Insn.ld (ArgsI.mk (a "imm") 2 (a "rd")));
  C [Fix 3 4; Fix 1 0; rs1; Fix 5 0; Fix 2 2] [zero; Reg "rs1"] [("rs1", 0)] "jalr" (at_i "zero" "rs1" "zero")
    (λ a, Insn.jalr (ArgsI.mk 0 (a "rs1") 0));
  C [Fix 3 4; Fix 1 0; rd; rs2; Fix 2 2] [zero; Reg "rd"; Reg "rs2"] [("rs2", 0)]
    "addi" (at_i "zero" "rs2" "rd") (λ a, Insn.addi (ArgsI.mk 0 (a "rs2") (a "rd")));
  C [Fix 3 4; Fix 1 1; Fix 5 0; Fix 5 0; Fix 2 2] [] [] "ebreak" [] (λ _, Insn.ebreak ArgsEmpty.mk);
  C [Fix 3 4; Fix 1 1; rs1; Fix 5 0; Fix 2 2] [zero; ra; Reg "rs1"] [("rs1", 0)] "jalr" (at_i "zero" "rs1" "ra")
    (λ a, Insn.jalr (ArgsI.mk 0 (a "rs1") 1));
  C [Fix 3 4; Fix 1 1; rd; rs2; Fix 2 2] [Reg "rd"; Reg "rs2"] [("rs2", 0)] "add" (at_r "rd" "rd" "rs2")
    (λ a, Insn.add (ArgsR.mk (a "rd") (a "rd") (a "rs2")));
  C [Fix 3 5; Arg "imm" 5 3; Arg "imm" 8 6; rs2; Fix 2 2] [("imm", Scaled 9 3); sp; Reg "rs2"] []
    "c_fsd" (at_s "imm" "sp" "rs2") (λ a, Insn.fsd (ArgsS.mk (a "imm") 2 (a "rs2")));
  C [Fix 3 6; Arg "imm" 5 2; Arg "imm" 7 6; rs2; Fix 2 2] [("imm", Scaled 8 2); sp; Reg "rs2"] []
    "sw" (at_s "imm" "sp" "rs2") (λ a, Insn.sw (ArgsS.mk (a "imm") 2 (a "rs2")));
  C [Fix 3 7; Arg "imm" 5 3; Arg "imm" 8 6; rs2; Fix 2 2] [("imm", Scaled 9 3); sp; Reg "rs2"] []
    "sd" (at_s "imm" "sp" "rs2") (λ a, Insn.sd (ArgsS.mk (a "imm") 2 (a "rs2")))
]%list.

(** Each encoding, checked symbolically. *)
Lemma rvc_decodes :
  forallb (λ c, (zlen (Sym.bits (pieces (cform c))) =? 16) &&
                Sym.decodes riscv16 (cform c) (cne c) (cmethod c) (cnames c)) rvc = true.
Proof. vm_compute. reflexivity. Qed.

(** Arguments an encoding has room for, and that are not reserved. *)
Definition legal (c : compressed) (arg : string → Z) : Prop :=
  Forall (λ '(a, k), in_kind k (arg a)) (kinds (cform c)) ∧ Forall (λ '(a, v), arg a ≠ v) (cne c).

Lemma called_rvc c arg :
  c ∈ rvc → legal c arg →
  called methods16 (Some (Some (cmethod c, map (λ '(fd, a), (fd, arg a)) (cnames c)))) ≫= expand =
  Some (cinsn c arg).
Proof.
  intros Hc [Hk _]. revert c Hc Hk.
  enough (Forall (λ c, Forall (λ '(a, k), in_kind k (arg a)) (kinds (cform c)) →
    called methods16 (Some (Some (cmethod c, map (λ '(fd, a), (fd, arg a)) (cnames c)))) ≫= expand =
    Some (cinsn c arg)) rvc) as H by (intros c Hc; rewrite Forall_forall in H; by apply H).
  unfold rvc.
  repeat (apply Forall_cons; split;
    [intros H; repeat (apply Forall_cons in H as [? H]); clear H; cbn in *; congruence|]).
  constructor.
Qed.

(** ** The decoders *)

(** C5. The decoder generated from insn32.decode inverts the encodings of the RISC-V manual: any of the
    155 instructions of RV64IMAFD and Zicsr, with arguments its encoding has room for, is decoded
    from its 32-bit word. *)
Theorem decoder_inverts_encoding i : encodable i → @decode generated (encode_insn i) = Some i.
Proof. apply decode_encode. Qed.

Lemma decoder_inverts_encoding_witness :
  encode_insn (Insn.beq (ArgsB.mk (-4096) 31 1)) = 0x81f08063 ∧
  @decode generated 0x81f08063 = Some (Insn.beq (ArgsB.mk (-4096) 31 1)).
Proof.
  split; [vm_compute; reflexivity|].
  exact (decoder_inverts_encoding (Insn.beq (ArgsB.mk (-4096) 31 1)) ltac:(vm_compute; repeat constructor; discriminate)).
Defined.

(** C12. The decoder generated from insn16.decode expands compressed instructions: an encoding of
    RV64C (all of quadrants 0 to 2, with D), with arguments that are not reserved, is decoded to the
    32-bit instruction it stands for, although the groups of overlapping patterns of the file are
    flattened. *)
Theorem compressed_expansion c arg :
  c ∈ rvc → legal c arg →
  @decode16 generated (encode (pieces (cform c)) arg) ≫= expand = Some (cinsn c arg).
Proof.
  intros Hc Hl. pose proof rvc_decodes as H. rewrite forallb_forall in H.
  specialize (H c (proj1 (list_elem_of_In _ _) Hc)). cbn beta in H. boolp.
  cbn [decode16 generated]. rewrite (run_decoder_spec 16) by apply riscv16_wf. rewrite Z.mod_small.
  2:{ match goal with H : zlen _ = 16 |- _ => rewrite <- H end. apply encode_range. }
  destruct Hl as [Hk Hne]. pose proof (called_rvc c arg Hc (conj Hk Hne)) as Hcall.
  rewrite Forall_forall in Hk. rewrite Forall_forall in Hne.
  rewrite (sym_decodes 16 riscv16 (cform c) (cne c) (cmethod c) (cnames c) arg);
    [exact Hcall|apply riscv16_wf|done|done| |].
  - intros a k Ha%get_elem. exact (Hk _ Ha).
  - intros a v Hin. exact (Hne _ Hin).
Qed.

(** [c.lui x5, -1] *)
Definition some_args (a : string) : Z := if String.eqb a "imm" then -4096 else 5.

Lemma compressed_expansion_witness :
  (@decode16 generated 0x72fd ≫= expand) = Some (Insn.lui (ArgsU.mk (-4096) 5)).
Proof.
  refine (compressed_expansion (nth 11 rvc (nth 0 rvc (Build_compressed (Build_form [] []) [] "" [] (λ _, Insn.ebreak ArgsEmpty.mk))))
            some_args _ _).
  - apply list_elem_of_In, nth_In. vm_compute. repeat constructor.
  - split; vm_compute; repeat constructor; discriminate.
Defined.

(** C13. Every instruction either decoder makes is well typed: on any word, register operands are below 32
    and shift amounts are not negative; which is what the translation of an instruction assumes. *)
Theorem decoders_well_typed : @decoder_ok generated.
Proof.
  split.
  - intros w i H. apply (called_typed methods32 32 riscv32) in H; [|apply riscv32_wf|vm_compute; reflexivity].
    destruct H as (m & mk & get & Hm & Ht & ->). by eapply methods32_ok.
  - intros w i j H Hj. apply (called_typed methods16 16 riscv16) in H; [|apply riscv16_wf|vm_compute; reflexivity].
    destruct H as (m & mk & get & Hm & Ht & ->). by eapply methods16_ok.
Qed.
