(* ===== verification/Disas.v ===== *)
(** * The RISC-V disassembler (disas/src/riscv.rs)

    [print_insn_riscv64] and what it is made of; [None] is an [unreachable!].  A [u32] operand of [<<]
    loses the bits that leave it. *)

From stdpp Require Import strings.
From S2P Require Import Prelude Text.

#[local] Open Scope string_scope.
#[local] Open Scope Z_scope.

Definition REG_ABI : list string := [
  "zero"; "ra"; "sp"; "gp"; "tp"; "t0"; "t1"; "t2"; "s0"; "s1"; "a0"; "a1";
  "a2"; "a3"; "a4"; "a5"; "a6"; "a7"; "s2"; "s3"; "s4"; "s5"; "s6"; "s7";
  "s8"; "s9"; "s10"; "s11"; "t3"; "t4"; "t5"; "t6"].

(** The index is below 32. *)
Definition reg (r : Z) : string := default "" (REG_ABI.[Z.land r 0x1f]).
Definition creg (r : Z) : string := default "" (REG_ABI.[8 + Z.land r 0x7]).

(** [x >> k] and [x << k] of a [u32] *)
Abbreviation shr := Z.shiftr.
Definition shl (x k : Z) : Z := u32 (Z.shiftl x k).

Definition sign_ext (val bits : Z) : Z :=
  let shift := 32 - bits in shr (signed 32 (shl val shift)) shift.

(** [format!(".word {insn:#010x}")] and [format!(".half {h:#06x}")] *)
Definition dot_word (insn : Z) : string := ".word " +:+ padded_hex 10 insn.
Definition dot_half (h : Z) : string := ".half " +:+ padded_hex 6 h.

(** [{op} {}], and with two and three operands *)
Definition ops1 (op a : string) : string := op +:+ " " +:+ a.
Definition ops2 (op a b : string) : string := op +:+ " " +:+ a +:+ ", " +:+ b.
Definition ops3 (op a b c : string) : string := op +:+ " " +:+ a +:+ ", " +:+ b +:+ ", " +:+ c.
(** [{}({})] *)
Definition mem (off base : string) : string := off +:+ "(" +:+ base +:+ ")".

(** ** Immediates *)

Definition jtype_imm (insn : Z) : Z :=
  let b20 := Z.land (shr insn 31) 1 in
  let b10_1 := Z.land (shr insn 21) 0x3ff in
  let b11 := Z.land (shr insn 20) 1 in
  let b19_12 := Z.land (shr insn 12) 0xff in
  let raw := Z.lor (Z.lor (Z.lor (shl b20 20) (shl b19_12 12)) (shl b11 11)) (shl b10_1 1) in
  sign_ext raw 21.

Definition btype_imm (insn : Z) : Z :=
  let b12 := Z.land (shr insn 31) 1 in
  let b10_5 := Z.land (shr insn 25) 0x3f in
  let b4_1 := Z.land (shr insn 8) 0xf in
  let b11 := Z.land (shr insn 7) 1 in
  let raw := Z.lor (Z.lor (Z.lor (shl b12 12) (shl b11 11)) (shl b10_5 5)) (shl b4_1 1) in
  sign_ext raw 13.

Definition stype_imm (insn : Z) : Z :=
  let hi := Z.land (shr insn 25) 0x7f in
  let lo := Z.land (shr insn 7) 0x1f in
  sign_ext (Z.lor (shl hi 5) lo) 12.

Definition itype_imm (insn : Z) : Z := sign_ext (shr insn 20) 12.

(** ** 32-bit instructions *)

(** The branch target is not used when [f3] names no branch. *)
Definition disasm_branch (insn pc f3 rs1 rs2 : Z) : string :=
  let imm := btype_imm insn in
  let target := u64 (pc + u64 imm) in
  let op := match f3 with
    | 0 => Some "beq" | 1 => Some "bne" | 4 => Some "blt" | 5 => Some "bge" | 6 => Some "bltu" | 7 => Some "bgeu"
    | _ => None
    end in
  match op with
  | None => dot_word insn
  | Some op =>
      if (f3 =? 0) && (rs2 =? 0) then ops2 "beqz" (reg rs1) (alt_hex target)
      else if (f3 =? 1) && (rs2 =? 0) then ops2 "bnez" (reg rs1) (alt_hex target)
      else ops3 op (reg rs1) (reg rs2) (alt_hex target)
  end.

Definition disasm_load (insn f3 rd rs1 : Z) : string :=
  let imm := itype_imm insn in
  let op := match f3 with
    | 0 => Some "lb" | 1 => Some "lh" | 2 => Some "lw" | 3 => Some "ld" | 4 => Some "lbu" | 5 => Some "lhu"
    | 6 => Some "lwu" | _ => None
    end in
  match op with
  | None => dot_word insn
  | Some op => ops2 op (reg rd) (mem (dec imm) (reg rs1))
  end.

Definition disasm_store (insn f3 rs1 rs2 : Z) : string :=
  let imm := stype_imm insn in
  let op := match f3 with
    | 0 => Some "sb" | 1 => Some "sh" | 2 => Some "sw" | 3 => Some "sd" | _ => None
    end in
  match op with
  | None => dot_word insn
  | Some op => ops2 op (reg rs2) (mem (dec imm) (reg rs1))
  end.

Definition disasm_op_imm (insn f3 rd rs1 : Z) : option string :=
  let imm := itype_imm insn in
  let shamt := Z.land (shr insn 20) 0x3f in
  match f3 with
  | 0 =>
      Some (if rs1 =? 0 then ops2 "li" (reg rd) (dec imm)
            else if imm =? 0 then ops2 "mv" (reg rd) (reg rs1)
            else ops3 "addi" (reg rd) (reg rs1) (dec imm))
  | 1 => Some (ops3 "slli" (reg rd) (reg rs1) (dec shamt))
  | 2 => Some (ops3 "slti" (reg rd) (reg rs1) (dec imm))
  | 3 =>
      Some (if imm =? 1 then ops2 "seqz" (reg rd) (reg rs1)
            else ops3 "sltiu" (reg rd) (reg rs1) (dec imm))
  | 4 =>
      Some (if imm =? -1 then ops2 "not" (reg rd) (reg rs1)
            else ops3 "xori" (reg rd) (reg rs1) (dec imm))
  | 5 =>
      Some (if shr insn 26 =? 0 then ops3 "srli" (reg rd) (reg rs1) (dec shamt)
            else ops3 "srai" (reg rd) (reg rs1) (dec shamt))
  | 6 => Some (ops3 "ori" (reg rd) (reg rs1) (dec imm))
  | 7 => Some (ops3 "andi" (reg rd) (reg rs1) (dec imm))
  | _ => None
  end.

(** [format!("{name} f3={f3} f7={f7:#x}")] *)
Definition unknown_op (name : string) (f3 f7 : Z) : string :=
  name +:+ " f3=" +:+ dec f3 +:+ " f7=" +:+ alt_hex f7.

Definition disasm_op (f3 f7 rd rs1 rs2 : Z) : option string :=
  if f7 =? 1 then
    op ← match f3 with
      | 0 => Some "mul" | 1 => Some "mulh" | 2 => Some "mulhsu" | 3 => Some "mulhu"
      | 4 => Some "div" | 5 => Some "divu" | 6 => Some "rem" | 7 => Some "remu" | _ => None
      end;
    Some (ops3 op (reg rd) (reg rs1) (reg rs2))
  else
    let op := match f3, f7 with
      | 0, 0 => Some "add" | 0, 0x20 => Some "sub" | 1, 0 => Some "sll" | 2, 0 => Some "slt" | 3, 0 => Some "sltu"
      | 4, 0 => Some "xor" | 5, 0 => Some "srl" | 5, 0x20 => Some "sra" | 6, 0 => Some "or" | 7, 0 => Some "and"
      | _, _ => None
      end in
    Some (match op with
          | None => unknown_op "op" f3 f7
          | Some op =>
              if (f3 =? 3) && (rs1 =? 0) then ops2 "snez" (reg rd) (reg rs2)
              else ops3 op (reg rd) (reg rs1) (reg rs2)
          end).

Definition disasm_op_imm32 (insn f3 rd rs1 : Z) : string :=
  let imm := itype_imm insn in
  let shamt := Z.land (shr insn 20) 0x1f in
  match f3 with
  | 0 => if imm =? 0 then ops2 "sext.w" (reg rd) (reg rs1) else ops3 "addiw" (reg rd) (reg rs1) (dec imm)
  | 1 => ops3 "slliw" (reg rd) (reg rs1) (dec shamt)
  | 5 =>
      if shr insn 25 =? 0 then ops3 "srliw" (reg rd) (reg rs1) (dec shamt)
      else ops3 "sraiw" (reg rd) (reg rs1) (dec shamt)
  | _ => dot_word insn
  end.

Definition disasm_op32 (f3 f7 rd rs1 rs2 : Z) : string :=
  let op :=
    if f7 =? 1 then
      match f3 with
      | 0 => Some "mulw" | 4 => Some "divw" | 5 => Some "divuw" | 6 => Some "remw" | 7 => Some "remuw"
      | _ => None
      end
    else
      match f3, f7 with
      | 0, 0 => Some "addw" | 0, 0x20 => Some "subw" | 1, 0 => Some "sllw" | 5, 0 => Some "srlw"
      | 5, 0x20 => Some "sraw" | _, _ => None
      end in
  match op with
  | None => unknown_op "op32" f3 f7
  | Some op => ops3 op (reg rd) (reg rs1) (reg rs2)
  end.

Definition disasm_amo (insn f3 rd rs1 rs2 : Z) : string :=
  let funct5 := shr insn 27 in
  let aq := Z.land (shr insn 26) 1 in
  let rl := Z.land (shr insn 25) 1 in
  match (match f3 with 2 => Some ".w" | 3 => Some ".d" | _ => None end) with
  | None => dot_word insn
  | Some suffix =>
      let aqrl := match aq, rl with 0, 0 => "" | 1, 0 => ".aq" | 0, 1 => ".rl" | _, _ => ".aqrl" end in
      match funct5 with
      | 0x02 => ops2 ("lr" +:+ suffix +:+ aqrl) (reg rd) ("(" +:+ reg rs1 +:+ ")")
      | 0x03 => ops3 ("sc" +:+ suffix +:+ aqrl) (reg rd) (reg rs2) ("(" +:+ reg rs1 +:+ ")")
      | _ =>
          let op := match funct5 with
            | 0x01 => Some "amoswap" | 0x00 => Some "amoadd" | 0x04 => Some "amoxor" | 0x0c => Some "amoand"
            | 0x08 => Some "amoor" | 0x10 => Some "amomin" | 0x14 => Some "amomax" | 0x18 => Some "amominu"
            | 0x1c => Some "amomaxu" | _ => None
            end in
          match op with
          | None => dot_word insn
          | Some op => ops3 (op +:+ suffix +:+ aqrl) (reg rd) (reg rs2) ("(" +:+ reg rs1 +:+ ")")
          end
      end
  end.

Definition disasm_system (insn rd rs1 f3 : Z) : string :=
  if f3 =? 0 then
    match insn with
    | 0x00000073 => "ecall"
    | 0x00100073 => "ebreak"
    | _ => dot_word insn
    end
  else
    let csr := shr insn 20 in
    let op := match f3 with
      | 1 => Some "csrrw" | 2 => Some "csrrs" | 3 => Some "csrrc" | 5 => Some "csrrwi" | 6 => Some "csrrsi"
      | 7 => Some "csrrci" | _ => None
      end in
    match op with
    | None => dot_word insn
    | Some op =>
        if 5 <=? f3 then ops3 op (reg rd) (alt_hex csr) (dec rs1)
        else ops3 op (reg rd) (alt_hex csr) (reg rs1)
    end.

(** [{:#x}] of an [i32] prints its bits. *)
Definition disasm32 (insn pc : Z) : option string :=
  let opcode := Z.land insn 0x7f in
  let rd := Z.land (shr insn 7) 0x1f in
  let funct3 := Z.land (shr insn 12) 0x7 in
  let rs1 := Z.land (shr insn 15) 0x1f in
  let rs2 := Z.land (shr insn 20) 0x1f in
  let funct7 := shr insn 25 in
  match opcode with
  | 0x37 =>
      let imm := signed 32 (Z.land insn 0xfffff000) in
      Some (ops2 "lui" (reg rd) (alt_hex (u32 (shr imm 12))))
  | 0x17 =>
      let imm := signed 32 (Z.land insn 0xfffff000) in
      let target := u64 (pc + u64 imm) in
      Some (ops2 "auipc" (reg rd) (alt_hex (Z.land (shr imm 12) 0xfffff)) +:+ "  # " +:+ alt_hex target)
  | 0x6f =>
      let imm := jtype_imm insn in
      let target := u64 (pc + u64 imm) in
      Some (if rd =? 0 then ops1 "j" (alt_hex target) else ops2 "jal" (reg rd) (alt_hex target))
  | 0x67 =>
      let imm := sign_ext (shr insn 20) 12 in
      Some (if (rd =? 0) && (imm =? 0) then ops1 "jr" (reg rs1)
            else if (rd =? 1) && (imm =? 0) then ops1 "jalr" (reg rs1)
            else ops2 "jalr" (reg rd) (mem (dec imm) (reg rs1)))
  | 0x63 => Some (disasm_branch insn pc funct3 rs1 rs2)
  | 0x03 => Some (disasm_load insn funct3 rd rs1)
  | 0x23 => Some (disasm_store insn funct3 rs1 rs2)
  | 0x13 => disasm_op_imm insn funct3 rd rs1
  | 0x33 => disasm_op funct3 funct7 rd rs1 rs2
  | 0x1b => Some (disasm_op_imm32 insn funct3 rd rs1)
  | 0x3b => Some (disasm_op32 funct3 funct7 rd rs1 rs2)
  | 0x2f => Some (disasm_amo insn funct3 rd rs1 rs2)
  | 0x73 => Some (disasm_system insn rd rs1 funct3)
  | 0x0f => Some (if funct3 =? 0 then "fence" else "fence.i")
  | _ => Some (dot_word insn)
  end.

(** ** Immediates of compressed instructions *)

Definition c_imm6 (h : Z) : Z :=
  let raw := Z.lor (Z.land (shr h 7) 0x20) (Z.land (shr h 2) 0x1f) in
  sign_ext raw 6.

Definition c_addi16sp_imm (h : Z) : Z :=
  let raw := Z.lor (Z.lor (Z.lor (Z.lor (Z.land (shr h 3) 0x200)
    (Z.land (shr h 2) 0x10))
    (Z.land (shl h 1) 0x40))
    (Z.land (shl h 4) 0x180))
    (Z.land (shl h 3) 0x20) in
  sign_ext raw 10.

Definition c_j_off (h : Z) : Z :=
  let raw := Z.lor (Z.lor (Z.lor (Z.lor (Z.lor (Z.lor (Z.lor (Z.land (shr h 1) 0x800)
    (Z.land (shr h 7) 0x10))
    (Z.land (shr h 1) 0x300))
    (Z.land (shl h 2) 0x400))
    (Z.land (shr h 1) 0x40))
    (Z.land (shl h 1) 0x80))
    (Z.land (shr h 2) 0xe))
    (Z.land (shl h 3) 0x20) in
  sign_ext raw 12.

Definition c_b_off (h : Z) : Z :=
  let raw := Z.lor (Z.lor (Z.lor (Z.lor (Z.land (shr h 4) 0x100)
    (Z.land (shr h 7) 0x18))
    (Z.land (shl h 1) 0xc0))
    (Z.land (shr h 2) 0x6))
    (Z.land (shl h 3) 0x20) in
  sign_ext raw 9.

Definition c_lw_off (h : Z) : Z :=
  Z.lor (Z.lor (Z.land (shr h 7) 0x38) (Z.land (shr h 4) 0x4)) (Z.land (shl h 1) 0x40).

Definition c_ld_off (h : Z) : Z := Z.lor (Z.land (shr h 7) 0x38) (Z.land (shl h 1) 0xc0).

(** ** 16-bit instructions *)

Definition disasm_c_q0 (h f3 : Z) : string :=
  let rd := creg (Z.land (shr h 2) 0x7) in
  let rs1 := creg (Z.land (shr h 7) 0x7) in
  match f3 with
  | 0 =>
      let nzuimm := Z.lor (Z.lor (Z.lor (Z.land (shr h 1) 0x40)
        (Z.land (shr h 7) 0x30))
        (Z.land (shr h 2) 0x8))
        (Z.land (shr h 4) 0x4) in
      if nzuimm =? 0 then dot_half h
      else ops3 "c.addi4spn" rd "sp" (dec nzuimm)
  | 2 => let off := c_lw_off h in ops2 "c.lw" rd (mem (dec off) rs1)
  | 3 => let off := c_ld_off h in ops2 "c.ld" rd (mem (dec off) rs1)
  | 6 => let off := c_lw_off h in ops2 "c.sw" rd (mem (dec off) rs1)
  | 7 => let off := c_ld_off h in ops2 "c.sd" rd (mem (dec off) rs1)
  | _ => dot_half h
  end.

Definition disasm_c_alu (h : Z) : option string :=
  let rd := creg (Z.land (shr h 7) 0x7) in
  let f2 := Z.land (shr h 10) 0x3 in
  match f2 with
  | 0 =>
      let shamt := Z.lor (Z.land (shr h 7) 0x20) (Z.land (shr h 2) 0x1f) in
      Some (ops2 "c.srli" rd (dec shamt))
  | 1 =>
      let shamt := Z.lor (Z.land (shr h 7) 0x20) (Z.land (shr h 2) 0x1f) in
      Some (ops2 "c.srai" rd (dec shamt))
  | 2 => let imm := c_imm6 h in Some (ops2 "c.andi" rd (dec imm))
  | 3 =>
      let rs2 := creg (Z.land (shr h 2) 0x7) in
      let bit12 := Z.land (shr h 12) 1 in
      let f2b := Z.land (shr h 5) 0x3 in
      let op := match bit12, f2b with
        | 0, 0 => Some "c.sub" | 0, 1 => Some "c.xor" | 0, 2 => Some "c.or" | 0, 3 => Some "c.and"
        | 1, 0 => Some "c.subw" | 1, 1 => Some "c.addw" | _, _ => None
        end in
      Some (match op with None => dot_half h | Some op => ops2 op rd rs2 end)
  | _ => None
  end.

Definition disasm_c_q1 (h f3 pc : Z) : option string :=
  match f3 with
  | 0 =>
      let rd := Z.land (shr h 7) 0x1f in
      let imm := c_imm6 h in
      Some (if rd =? 0 then "c.nop" else ops2 "c.addi" (reg rd) (dec imm))
  | 1 =>
      let rd := Z.land (shr h 7) 0x1f in
      let imm := c_imm6 h in
      Some (ops2 "c.addiw" (reg rd) (dec imm))
  | 2 =>
      let rd := Z.land (shr h 7) 0x1f in
      let imm := c_imm6 h in
      Some (ops2 "c.li" (reg rd) (dec imm))
  | 3 =>
      let rd := Z.land (shr h 7) 0x1f in
      Some (if rd =? 2 then
              let imm := c_addi16sp_imm h in ops2 "c.addi16sp" "sp" (dec imm)
            else
              let imm := c_imm6 h in ops2 "c.lui" (reg rd) (alt_hex (u64 imm)))
  | 4 => disasm_c_alu h
  | 5 =>
      let off := c_j_off h in
      let target := u64 (pc + u64 off) in
      Some (ops1 "c.j" (alt_hex target))
  | 6 =>
      let rs1 := creg (Z.land (shr h 7) 0x7) in
      let off := c_b_off h in
      let target := u64 (pc + u64 off) in
      Some (ops2 "c.beqz" rs1 (alt_hex target))
  | 7 =>
      let rs1 := creg (Z.land (shr h 7) 0x7) in
      let off := c_b_off h in
      let target := u64 (pc + u64 off) in
      Some (ops2 "c.bnez" rs1 (alt_hex target))
  | _ => Some (dot_half h)
  end.

Definition disasm_c_q2 (h f3 : Z) : string :=
  let rd := Z.land (shr h 7) 0x1f in
  match f3 with
  | 0 =>
      let shamt := Z.lor (Z.land (shr h 7) 0x20) (Z.land (shr h 2) 0x1f) in
      ops2 "c.slli" (reg rd) (dec shamt)
  | 2 =>
      let off := Z.lor (Z.lor (Z.land (shr h 2) 0x1c) (Z.land (shl h 4) 0x20)) (Z.land (shr h 7) 0x40) in
      ops2 "c.lwsp" (reg rd) (mem (dec off) "sp")
  | 3 =>
      let off := Z.lor (Z.lor (Z.land (shr h 2) 0x18) (Z.land (shl h 4) 0x20)) (Z.land (shr h 7) 0xc0) in
      ops2 "c.ldsp" (reg rd) (mem (dec off) "sp")
  | 4 =>
      let rs2 := Z.land (shr h 2) 0x1f in
      let bit12 := Z.land (shr h 12) 1 in
      if bit12 =? 0 then
        if rs2 =? 0 then ops1 "c.jr" (reg rd) else ops2 "c.mv" (reg rd) (reg rs2)
      else if rs2 =? 0 then
        if rd =? 0 then "c.ebreak" else ops1 "c.jalr" (reg rd)
      else ops2 "c.add" (reg rd) (reg rs2)
  | 6 =>
      let rs2 := Z.land (shr h 2) 0x1f in
      let off := Z.lor (Z.land (shr h 7) 0x3c) (Z.land (shr h 1) 0x40) in
      ops2 "c.swsp" (reg rs2) (mem (dec off) "sp")
  | 7 =>
      let rs2 := Z.land (shr h 2) 0x1f in
      let off := Z.lor (Z.land (shr h 7) 0x38) (Z.land (shr h 1) 0xc0) in
      ops2 "c.sdsp" (reg rs2) (mem (dec off) "sp")
  | _ => dot_half h
  end.

Definition disasm16 (h pc : Z) : option string :=
  let quadrant := Z.land h 0x3 in
  let funct3 := Z.land (shr h 13) 0x7 in
  match quadrant with
  | 0 => Some (disasm_c_q0 h funct3)
  | 1 => disasm_c_q1 h funct3 pc
  | 2 => Some (disasm_c_q2 h funct3)
  | _ => Some (dot_half h)
  end.

(** The text and the length. *)
Definition print_insn_riscv64 (pc : Z) (data : list Z) : option (string * Z) :=
  if zlen data <? 2 then Some (".byte ???", 0)
  else
    let half := le_value (take 2 data) in
    if negb (Z.land half 0x3 =? 0x3) then s ← disasm16 half pc; Some (s, 2)
    else if zlen data <? 4 then Some (".byte ???", 0)
    else
      let insn := le_value (take 4 data) in
      s ← disasm32 insn pc; Some (s, 4).
