(* ===== verification/DisasSound.v ===== *)
(** * The disassembler on the encodings of the manual

    A field of an instruction is a term of shifts, masks and ors of its word.  On the symbolic bits of
    an encoding such a term is computed ([Term.sym]), so the text of an instruction is that of its
    arguments. *)

From stdpp Require Import strings.
From S2P Require Import Prelude Text DecodeTool Generated Encoding RiscvCpu RiscvGen RiscvTrans RiscvTb RiscvDecode Disas.

#[local] Open Scope string_scope.
#[local] Open Scope Z_scope.

(** ** Terms over a word *)

Module Term.
Inductive t := W | Shr (e : t) (k : Z) | Shl (e : t) (k : Z) | And (e : t) (m : Z) | Or (e1 e2 : t).

Fixpoint eval (w : Z) (e : t) : Z :=
  match e with
  | W => w
  | Shr e k => shr (eval w e) k
  | Shl e k => shl (eval w e) k
  | And e m => Z.land (eval w e) m
  | Or e1 e2 => Z.lor (eval w e1) (eval w e2)
  end.

Definition off : Sym.bit := Sym.Known false.

(** One of the two is known to be 0. *)
Definition or_bit (b1 b2 : Sym.bit) : option Sym.bit :=
  if decide (b1 = off) then Some b2 else if decide (b2 = off) then Some b1 else None.

Fixpoint or_bits (l1 l2 : list Sym.bit) : option (list Sym.bit) :=
  match l1, l2 with
  | [], l | l, [] => Some l
  | b1 :: l1, b2 :: l2 => b ← or_bit b1 b2; l ← or_bits l1 l2; Some (b :: l)
  end.

Fixpoint and_bits (l : list Sym.bit) (m : Z) (i : Z) : list Sym.bit :=
  match l with [] => [] | b :: l => (if Z.testbit m i then b else off) :: and_bits l m (i + 1) end.

Fixpoint sym (bs : list Sym.bit) (e : t) : option (list Sym.bit) :=
  match e with
  | W => Some bs
  | Shr e k => l ← sym bs e; if 0 <=? k then Some (drop (Z.to_nat k) l) else None
  | Shl e k => l ← sym bs e; if 0 <=? k then Some (take 32 (replicate (Z.to_nat k) off ++ l)%list) else None
  | And e m => l ← sym bs e; Some (and_bits l m 0)
  | Or e1 e2 => l1 ← sym bs e1; l2 ← sym bs e2; or_bits l1 l2
  end.
End Term.

Section sym.
Variable arg : string → Z.

Lemma word_by_bits bs x :
  (∀ j : nat, Z.testbit x (Z.of_nat j) = from_option (Sym.denote arg) false (bs !! j)) → x = Sym.word arg bs.
Proof.
  intros Hx. apply Z.bits_inj'. intros j Hj. rewrite <- (Z2Nat.id j) by done. by rewrite Hx, word_testbit.
Qed.

Lemma and_bits_lookup l m i (j : nat) :
  Term.and_bits l m i !! j = (λ b, if Z.testbit m (i + Z.of_nat j) then b else Term.off) <$> l !! j.
Proof.
  revert i j. induction l as [|b l IH]; intros i [|j]; cbn [Term.and_bits]; [done..| |].
  - by rewrite Z.add_0_r.
  - change (Term.and_bits l m (i + 1) !! j = (λ b, if Z.testbit m (i + Z.of_nat (Datatypes.S j)) then b else Term.off) <$> l !! j).
    rewrite IH. by replace (i + 1 + Z.of_nat j) with (i + Z.of_nat (Datatypes.S j)) by lia.
Qed.

Lemma or_bits_word l1 l2 l :
  Term.or_bits l1 l2 = Some l → Z.lor (Sym.word arg l1) (Sym.word arg l2) = Sym.word arg l.
Proof.
  revert l2 l. induction l1 as [|b1 l1 IH]; intros l2 l Hl; [by injection Hl as <-|].
  destruct l2 as [|b2 l2]; [injection Hl as <-; by rewrite Z.lor_0_r|]. cbn [Term.or_bits] in Hl.
  apply bind_Some in Hl as (b & Hb & Hl). apply bind_Some in Hl as (l' & Hl' & Hl). injection Hl as <-.
  apply word_by_bits. intros [|j]; rewrite Z.lor_spec, !word_testbit; cbn [lookup list_lookup from_option].
  - unfold Term.or_bit in Hb. destruct (decide (b1 = Term.off)) as [->|]; [by injection Hb as <-|].
    destruct (decide (b2 = Term.off)) as [->|]; [|done]. injection Hb as <-. apply orb_false_r.
  - rewrite <- !word_testbit, <- Z.lor_spec. by rewrite (IH _ _ Hl').
Qed.

(** On symbolic bits a term is computed. *)
Lemma sym_sound bs e l : Term.sym bs e = Some l → Term.eval (Sym.word arg bs) e = Sym.word arg l.
Proof.
  revert l. induction e as [|e IH k|e IH k|e IH m|e1 IH1 e2 IH2]; cbn [Term.sym Term.eval]; intros l Hl.
  - by injection Hl as ->.
  - apply bind_Some in Hl as (l' & Hl' & Hl). rewrite (IH _ Hl'). destruct (0 <=? k) eqn:Hk; [|done]. boolp.
    injection Hl as <-. apply word_by_bits. intros j. rewrite Z.shiftr_spec by lia.
    replace (Z.of_nat j + k) with (Z.of_nat (Z.to_nat k + j)) by lia. by rewrite word_testbit, lookup_drop.
  - apply bind_Some in Hl as (l' & Hl' & Hl). rewrite (IH _ Hl'). destruct (0 <=? k) eqn:Hk; [|done]. boolp.
    injection Hl as <-. apply word_by_bits. intros j. unfold shl, u32. destruct (decide (j < 32)%nat).
    + rewrite Z.mod_pow2_bits_low, lookup_take_lt by lia. destruct (decide (Z.of_nat j < k)).
      * rewrite Z.shiftl_spec_low, lookup_app_l by (rewrite ?length_replicate; lia).
        by rewrite lookup_replicate_2 by lia.
      * rewrite Z.shiftl_spec, lookup_app_r, length_replicate by (rewrite ?length_replicate; lia).
        replace (Z.of_nat j - k) with (Z.of_nat (j - Z.to_nat k)) by lia. apply word_testbit.
    + by rewrite Z.mod_pow2_bits_high, lookup_take_ge by lia.
  - apply bind_Some in Hl as (l' & Hl' & Hl). rewrite (IH _ Hl'). injection Hl as <-. apply word_by_bits. intros j.
    rewrite Z.land_spec, word_testbit, and_bits_lookup, Z.add_0_l. destruct (l' !! j); [|done]. cbn.
    destruct (Z.testbit m _); cbn; [apply andb_true_r|apply andb_false_r].
  - apply bind_Some in Hl as (l1 & Hl1 & Hl). apply bind_Some in Hl as (l2 & Hl2 & Hl).
    rewrite (IH1 _ Hl1), (IH2 _ Hl2). by apply or_bits_word.
Qed.
End sym.

(** ** Arguments *)

(** The bits of an argument, from bit [k], after [k] zeros. *)
Definition arg_bits (a : string) (k n : nat) : list Sym.bit :=
  (replicate k Term.off ++ map (Sym.Of a) (seq k (n - k)))%list.

(** The argument's bits [k..n-1], where they belong, and nothing else. *)
Definition is_bits (a : string) (k n : nat) (l : list Sym.bit) : bool :=
  Nat.leb k n && bool_decide (take n l = arg_bits a k n) && forallb (λ b, bool_decide (b = Term.off)) (drop n l).

(** Bits that are the value of argument [a]. *)
Definition is_value (kinds : list (string * Encoding.kind)) (a : string) (l : list Sym.bit) : bool :=
  match BTree.get a kinds with
  | Some (Encoding.Unsigned n) => is_bits a 0 n l
  | Some (Encoding.Scaled n k) => is_bits a k n l
  | _ => false
  end.

(** Bits that are, as a signed number of [n] bits. *)
Definition is_signed_value (kinds : list (string * Encoding.kind)) (a : string) (n : nat) (l : list Sym.bit) : bool :=
  match BTree.get a kinds with
  | Some (Encoding.Signed n' k) => Nat.eqb n n' && Nat.ltb 0 n && is_bits a k n l
  | _ => false
  end.

Lemma sign_ext_signed v n : 0 < n ≤ 32 → sign_ext v n = signed n v.
Proof.
  intros Hn. unfold sign_ext, shl, u32. cbv zeta. rewrite Z.shiftr_div_pow2, Z.shiftl_mul_pow2 by lia.
  rewrite (signed_of_mod 32) by lia. rewrite signed_div by lia. f_equal; [lia|].
  rewrite Z.div_mul by (pose proof (pow2_pos (32 - n)); lia). done.
Qed.

Section args.
Variables (arg : string → Z) (kinds : list (string * Encoding.kind)).
Hypothesis Hkinds : Forall (λ '(a, k), Encoding.in_kind k (arg a)) kinds.

Lemma arg_in_kind a k : BTree.get a kinds = Some k → Encoding.in_kind k (arg a).
Proof. intros Ha%get_elem. rewrite Forall_forall in Hkinds. exact (Hkinds _ Ha). Qed.

Lemma word_off l : forallb (λ b, bool_decide (b = Term.off)) l = true → Sym.word arg l = 0.
Proof. induction l as [|b l IH]; [done|]. cbn [forallb Sym.word]. intros ?. boolp. subst b. by rewrite IH. Qed.

Lemma word_is_bits a k n l :
  is_bits a k n l = true → arg a mod 2 ^ Z.of_nat k = 0 → Sym.word arg l = arg a mod 2 ^ Z.of_nat n.
Proof.
  unfold is_bits. intros [[Hkn%Nat.leb_le Ht%bool_decide_eq_true]%andb_true_iff Hd]%andb_true_iff H0.
  rewrite <- (take_drop n l), word_app, (word_off (drop n l)), Ht by done. unfold arg_bits.
  rewrite word_app, (word_of_seq _ _ (arg a)) by done.
  rewrite (word_off (replicate k _)) by (clear; by induction k).
  unfold zlen, Spec.slice. rewrite length_replicate. set (K := 2 ^ Z.of_nat k) in *.
  assert (0 < K) by (apply pow2_pos; lia). assert (0 < 2 ^ Z.of_nat (n - k)) by (apply pow2_pos; lia).
  assert (2 ^ Z.of_nat n = K * 2 ^ Z.of_nat (n - k)) as ->
    by (unfold K; rewrite <- Z.pow_add_r by lia; f_equal; lia).
  rewrite Z.rem_mul_r, H0 by lia. ring.
Qed.

Lemma word_value a l : is_value kinds a l = true → Sym.word arg l = arg a.
Proof.
  unfold is_value. destruct (BTree.get a kinds) as [k|] eqn:Ek; [|done]. apply arg_in_kind in Ek.
  destruct k as [n|n k|n k| |c]; try done; intros Hb; cbn [Encoding.in_kind] in Ek.
  - rewrite (word_is_bits a 0 n l Hb) by apply Z.mod_1_r. by apply Z.mod_small.
  - destruct Ek as [Hr H0]. rewrite (word_is_bits a k n l Hb H0). by apply Z.mod_small.
Qed.

Lemma word_signed_value a n l :
  is_signed_value kinds a n l = true → (n ≤ 32)%nat → sign_ext (Sym.word arg l) (Z.of_nat n) = arg a.
Proof.
  unfold is_signed_value. destruct (BTree.get a kinds) as [k|] eqn:Ek; [|done]. apply arg_in_kind in Ek.
  destruct k as [|n' k| | |]; try done.
  intros [[<-%Nat.eqb_eq Hpos%Nat.ltb_lt]%andb_true_iff Hb]%andb_true_iff Hn.
  cbn [Encoding.in_kind] in Ek. destruct Ek as [Hr H0].
  rewrite sign_ext_signed by lia.
  rewrite (word_is_bits a k n l) by done. rewrite signed_of_mod by lia. apply signed_small; lia.
Qed.
(** Registers 8 to 15 are encoded by three bits. *)
Lemma word_high a l :
  match BTree.get a kinds with Some Encoding.High => is_bits a 0 3 l | _ => false end = true → Sym.word arg l = arg a - 8.
Proof.
  destruct (BTree.get a kinds) as [[]|] eqn:Ek; try done. intros Hb. apply arg_in_kind in Ek. cbn [Encoding.in_kind] in Ek.
  rewrite (word_is_bits a 0 3 l Hb) by apply Z.mod_1_r. change (2 ^ Z.of_nat 3) with 8.
  Z.to_euclidean_division_equations. lia.
Qed.

Lemma creg_high a : BTree.get a kinds = Some Encoding.High → creg (arg a - 8) = reg (arg a).
Proof.
  intros Hk%arg_in_kind. cbn [Encoding.in_kind] in Hk. unfold creg, reg.
  assert (arg a = 8 ∨ arg a = 9 ∨ arg a = 10 ∨ arg a = 11 ∨ arg a = 12 ∨ arg a = 13 ∨ arg a = 14 ∨ arg a = 15)
    as Hc by lia.
  repeat (destruct Hc as [-> |Hc]; [reflexivity|]). by rewrite Hc.
Qed.

(** The upper bits of a signed argument, alone. *)
Lemma word_signed_upper a (m k : nat) l :
  match BTree.get a kinds with
  | Some (Encoding.Signed n k') =>
      Nat.eqb k k' && Nat.eqb n (k + m) && Nat.ltb 0 m && bool_decide (take m l = map (Sym.Of a) (seq k m)) &&
      forallb (λ b, bool_decide (b = Term.off)) (drop m l)
  | _ => false
  end = true → (m ≤ 32)%nat → sign_ext (Sym.word arg l) (Z.of_nat m) = shr (arg a) (Z.of_nat k).
Proof.
  destruct (BTree.get a kinds) as [kd|] eqn:Ek; [|done]. apply arg_in_kind in Ek. destruct kd as [|n k'| | |]; try done.
  intros [[[[<-%Nat.eqb_eq ->%Nat.eqb_eq]%andb_true_iff Hm%Nat.ltb_lt]%andb_true_iff Ht%bool_decide_eq_true]%andb_true_iff Hd]%andb_true_iff H32.
  rewrite <- (take_drop m l), word_app, Ht, (word_off (drop m l)), Z.mul_0_r, Z.add_0_r by done.
  rewrite sign_ext_signed, (word_of_seq _ _ (arg a)) by (done || lia).
  pose proof (in_kind_value _ _ Ek ltac:(lia)) as Hv. replace (k + m - k)%nat with m in Hv by lia.
  rewrite Z.shiftr_div_pow2 by lia. rewrite <- Hv at 2. rewrite Z.div_mul by (pose proof (pow2_pos (Z.of_nat k)); lia). done.
Qed.

(** The low bits of an argument under constants. *)
Lemma word_low a (n : nat) l :
  match BTree.get a kinds with
  | Some (Encoding.Scaled _ k) => is_bits a k n (take n l)
  | _ => false
  end = true → (n ≤ List.length l)%nat → Sym.word arg l = arg a mod 2 ^ Z.of_nat n + 2 ^ Z.of_nat n * Sym.word arg (drop n l).
Proof.
  destruct (BTree.get a kinds) as [kd|] eqn:Ek; [|done]. apply arg_in_kind in Ek. destruct kd as [| |n' k| |]; try done.
  intros Hb Hn. destruct Ek as [_ H0]. rewrite <- (take_drop n l) at 1. rewrite word_app, (word_is_bits a k n) by done.
  unfold zlen. rewrite length_take, Nat.min_l by done. done.
Qed.
End args.

(** ** Evaluation of the disassembler on an encoding *)

Ltac reify w t :=
  lazymatch t with
  | w => constr:(Term.W)
  | Z.land ?a ?m => let e := reify w a in constr:(Term.And e m)
  | shr ?a ?k => let e := reify w a in constr:(Term.Shr e k)
  | shl ?a ?k => let e := reify w a in constr:(Term.Shl e k)
  | Z.lor ?a ?b => let e1 := reify w a in let e2 := reify w b in constr:(Term.Or e1 e2)
  end.

Definition is_known (b : Sym.bit) : bool := match b with Sym.Known _ => true | _ => false end.

(** The low [n] bits of [imm], under constants. *)
Ltac low_bits arg kinds Hk l n :=
  let d := eval vm_compute in (drop n l) in
  let c := eval vm_compute in (forallb is_known d) in
  lazymatch c with
  | true =>
      let v := eval vm_compute in (2 ^ Z.of_nat n * Sym.word arg d) in
      let m := eval vm_compute in (2 ^ Z.of_nat n) in
      exact (word_low arg kinds Hk "imm" n l eq_refl ltac:(vm_compute; lia) : _ = arg "imm" mod m + v)
  end.

(** A field that is a constant, or an argument. *)
Ltac value arg kinds Hk l :=
  let c := eval vm_compute in (forallb is_known l) in
  lazymatch c with
  | true => let n := eval vm_compute in (Sym.word arg l) in exact (eq_refl n)
  | false =>
      first [exact (word_value arg kinds Hk "rd" l eq_refl)|exact (word_value arg kinds Hk "rs1" l eq_refl)
            |exact (word_value arg kinds Hk "rs2" l eq_refl)|exact (word_value arg kinds Hk "shamt" l eq_refl)
            |exact (word_value arg kinds Hk "csr" l eq_refl)|exact (word_value arg kinds Hk "imm" l eq_refl)
            |exact (word_value arg kinds Hk "aq" l eq_refl)|exact (word_value arg kinds Hk "rl" l eq_refl)
            |exact (word_high arg kinds Hk "rd" l eq_refl)|exact (word_high arg kinds Hk "rs1" l eq_refl)
            |exact (word_high arg kinds Hk "rs2" l eq_refl)|low_bits arg kinds Hk l 5%nat|low_bits arg kinds Hk l 7%nat
            |low_bits arg kinds Hk l 8%nat]
  end.

(** Rewrites the term [t] over the word [w], whose symbolic bits are [bs]. *)
Ltac field arg bs kinds Hk t :=
  let w := constr:(Sym.word arg bs) in
  let e := reify w t in
  let l := eval vm_compute in (Term.sym bs e) in
  lazymatch l with
  | Some ?l =>
      let H := fresh in
      eassert (t = _) as H; [etransitivity; [exact (sym_sound arg bs e l eq_refl)|value arg kinds Hk l]|rewrite H; clear H]
  end.

(** A signed argument of [n] bits. *)
Ltac signed_field arg bs kinds Hk t n :=
  let w := constr:(Sym.word arg bs) in
  let e := reify w t in
  let l := eval vm_compute in (Term.sym bs e) in
  lazymatch l with
  | Some ?l =>
      let H := fresh in
      eassert (sign_ext t n = _) as H;
      [change t with (Term.eval w e); rewrite (sym_sound arg bs e l eq_refl);
       first [exact (word_signed_value arg kinds Hk "imm" (Z.to_nat n) l eq_refl ltac:(vm_compute; lia))
             |exact (word_signed_upper arg kinds Hk "imm" (Z.to_nat n) 12%nat l eq_refl ltac:(vm_compute; lia))]
      |rewrite ?H; rewrite sign_ext_signed in H by lia; rewrite ?H; clear H]
  end.

(** All the fields of the goal. *)
Ltac fields arg bs kinds Hk :=
  let w := constr:(Sym.word arg bs) in
  repeat (cbv beta iota zeta; match goal with
  | Hv : (arg ?a =? ?v) = false |- context [arg ?a =? ?v] => rewrite Hv
  | |- context [sign_ext ?t ?n] => signed_field arg bs kinds Hk t n
  | |- context [signed 32 (Z.land w ?m)] => signed_field arg bs kinds Hk (Z.land w m) 32
  | |- context [Z.lor ?a ?b] => field arg bs kinds Hk (Z.lor a b)
  | |- context [Z.land (shr w ?k) ?m] => field arg bs kinds Hk (Z.land (shr w k) m)
  | |- context [Z.land w ?m] => field arg bs kinds Hk (Z.land w m)
  | |- context [shr w ?k] => field arg bs kinds Hk (shr w k)
  end).

(** ** Assembly *)

(** [format!("{:#x}")] of a branch target *)
Definition target (pc off : Z) : string := alt_hex (u64 (pc + u64 off)).

Definition aqrl (aq rl : Z) : string := match aq, rl with 0, 0 => "" | 1, 0 => ".aq" | 0, 1 => ".rl" | _, _ => ".aqrl" end.

(** [lr_w] is written [lr.w]. *)
Fixpoint dotted (s : string) : string :=
  match s with "" => "" | String c s => String (if Ascii.eqb c "_" then "."%char else c) (dotted s) end.

(** The assembly of an instruction at [pc], with the aliases the disassembler prefers; it knows no
    floating-point instructions. *)
Definition asm (pc : Z) (i : Insn.t) : string :=
  let op := (describe i).1 in
  match i with
  | Insn.lui a => ops2 op (reg (ArgsU.rd a)) (alt_hex (u32 (shr (ArgsU.imm a) 12)))
  | Insn.auipc a =>
      ops2 op (reg (ArgsU.rd a)) (alt_hex (Z.land (shr (ArgsU.imm a) 12) 0xfffff)) +:+ "  # " +:+ target pc (ArgsU.imm a)
  | Insn.jal a =>
      if ArgsJ.rd a =? 0 then ops1 "j" (target pc (ArgsJ.imm a)) else ops2 op (reg (ArgsJ.rd a)) (target pc (ArgsJ.imm a))
  | Insn.jalr a =>
      if (ArgsI.rd a =? 0) && (ArgsI.imm a =? 0) then ops1 "jr" (reg (ArgsI.rs1 a))
      else if (ArgsI.rd a =? 1) && (ArgsI.imm a =? 0) then ops1 op (reg (ArgsI.rs1 a))
      else ops2 op (reg (ArgsI.rd a)) (mem (dec (ArgsI.imm a)) (reg (ArgsI.rs1 a)))
  | Insn.beq a =>
      if ArgsB.rs2 a =? 0 then ops2 "beqz" (reg (ArgsB.rs1 a)) (target pc (ArgsB.imm a))
      else ops3 op (reg (ArgsB.rs1 a)) (reg (ArgsB.rs2 a)) (target pc (ArgsB.imm a))
  | Insn.bne a =>
      if ArgsB.rs2 a =? 0 then ops2 "bnez" (reg (ArgsB.rs1 a)) (target pc (ArgsB.imm a))
      else ops3 op (reg (ArgsB.rs1 a)) (reg (ArgsB.rs2 a)) (target pc (ArgsB.imm a))
  | Insn.blt a | Insn.bge a | Insn.bltu a | Insn.bgeu a =>
      ops3 op (reg (ArgsB.rs1 a)) (reg (ArgsB.rs2 a)) (target pc (ArgsB.imm a))
  | Insn.lb a | Insn.lh a | Insn.lw a | Insn.lbu a | Insn.lhu a | Insn.lwu a | Insn.ld a =>
      ops2 op (reg (ArgsI.rd a)) (mem (dec (ArgsI.imm a)) (reg (ArgsI.rs1 a)))
  | Insn.sb a | Insn.sh a | Insn.sw a | Insn.sd a =>
      ops2 op (reg (ArgsS.rs2 a)) (mem (dec (ArgsS.imm a)) (reg (ArgsS.rs1 a)))
  | Insn.addi a =>
      if ArgsI.rs1 a =? 0 then ops2 "li" (reg (ArgsI.rd a)) (dec (ArgsI.imm a))
      else if ArgsI.imm a =? 0 then ops2 "mv" (reg (ArgsI.rd a)) (reg (ArgsI.rs1 a))
      else ops3 op (reg (ArgsI.rd a)) (reg (ArgsI.rs1 a)) (dec (ArgsI.imm a))
  | Insn.sltiu a =>
      if ArgsI.imm a =? 1 then ops2 "seqz" (reg (ArgsI.rd a)) (reg (ArgsI.rs1 a))
      else ops3 op (reg (ArgsI.rd a)) (reg (ArgsI.rs1 a)) (dec (ArgsI.imm a))
  | Insn.xori a =>
      if ArgsI.imm a =? -1 then ops2 "not" (reg (ArgsI.rd a)) (reg (ArgsI.rs1 a))
      else ops3 op (reg (ArgsI.rd a)) (reg (ArgsI.rs1 a)) (dec (ArgsI.imm a))
  | Insn.addiw a =>
      if ArgsI.imm a =? 0 then ops2 "sext.w" (reg (ArgsI.rd a)) (reg (ArgsI.rs1 a))
      else ops3 op (reg (ArgsI.rd a)) (reg (ArgsI.rs1 a)) (dec (ArgsI.imm a))
  | Insn.slti a | Insn.ori a | Insn.andi a => ops3 op (reg (ArgsI.rd a)) (reg (ArgsI.rs1 a)) (dec (ArgsI.imm a))
  | Insn.slli a | Insn.srli a | Insn.srai a | Insn.slliw a | Insn.srliw a | Insn.sraiw a =>
      ops3 op (reg (ArgsShift.rd a)) (reg (ArgsShift.rs1 a)) (dec (ArgsShift.shamt a))
  | Insn.sltu a =>
      if ArgsR.rs1 a =? 0 then ops2 "snez" (reg (ArgsR.rd a)) (reg (ArgsR.rs2 a))
      else ops3 op (reg (ArgsR.rd a)) (reg (ArgsR.rs1 a)) (reg (ArgsR.rs2 a))
  | Insn.add a | Insn.sub a | Insn.sll a | Insn.slt a | Insn.xor a | Insn.srl a | Insn.sra a | Insn.or a | Insn.and a
  | Insn.addw a | Insn.subw a | Insn.sllw a | Insn.srlw a | Insn.sraw a
  | Insn.mul a | Insn.mulh a | Insn.mulhsu a | Insn.mulhu a | Insn.div a | Insn.divu a | Insn.rem a | Insn.remu a
  | Insn.mulw a | Insn.divw a | Insn.divuw a | Insn.remw a | Insn.remuw a =>
      ops3 op (reg (ArgsR.rd a)) (reg (ArgsR.rs1 a)) (reg (ArgsR.rs2 a))
  | Insn.fence _ | Insn.ecall _ | Insn.ebreak _ => op
  | Insn.lr_w a | Insn.lr_d a =>
      ops2 (dotted op +:+ aqrl (ArgsAtomic.aq a) (ArgsAtomic.rl a)) (reg (ArgsAtomic.rd a))
        ("(" +:+ reg (ArgsAtomic.rs1 a) +:+ ")")
  | Insn.sc_w a | Insn.sc_d a
  | Insn.amoswap_w a | Insn.amoadd_w a | Insn.amoxor_w a | Insn.amoand_w a | Insn.amoor_w a
  | Insn.amomin_w a | Insn.amomax_w a | Insn.amominu_w a | Insn.amomaxu_w a
  | Insn.amoswap_d a | Insn.amoadd_d a | Insn.amoxor_d a | Insn.amoand_d a | Insn.amoor_d a
  | Insn.amomin_d a | Insn.amomax_d a | Insn.amominu_d a | Insn.amomaxu_d a =>
      ops3 (dotted op +:+ aqrl (ArgsAtomic.aq a) (ArgsAtomic.rl a)) (reg (ArgsAtomic.rd a)) (reg (ArgsAtomic.rs2 a))
        ("(" +:+ reg (ArgsAtomic.rs1 a) +:+ ")")
  | Insn.csrrw a | Insn.csrrs a | Insn.csrrc a => ops3 op (reg (ArgsCsr.rd a)) (alt_hex (ArgsCsr.csr a)) (reg (ArgsCsr.rs1 a))
  | Insn.csrrwi a | Insn.csrrsi a | Insn.csrrci a =>
      ops3 op (reg (ArgsCsr.rd a)) (alt_hex (ArgsCsr.csr a)) (dec (ArgsCsr.rs1 a))
  | _ => dot_word (encode_insn i)
  end.

(** The word of an instruction, with its symbolic bits computed. *)
Ltac encoded :=
  lazymatch goal with
  | Hk : encodable ?i |- _ =>
      let f := eval vm_compute in (BTree.get (describe i).1 isa) in
      lazymatch f with
      | Some ?f =>
          let bs := eval vm_compute in (Sym.bits (Encoding.pieces f)) in
          let kinds := eval vm_compute in (Encoding.kinds f) in
          change (Forall (λ '(a, k), Encoding.in_kind k (arg_of i a)) kinds) in Hk;
          assert (encode_insn i = Sym.word (arg_of i) bs) as Hw by exact (encode_word (arg_of i) (Encoding.pieces f));
          rewrite ?Hw; clear Hw
      end
  end.

(** The opcode first, which selects the branch. *)
Ltac disassemble :=
  intros Hk; encoded; unfold disasm32;
  lazymatch type of Hk with
  | Forall (λ '(a, k), Encoding.in_kind k (?arg a)) ?kinds =>
      lazymatch goal with
      | |- context [Sym.word _ ?bs] =>
          let w := constr:(Sym.word arg bs) in
          field arg bs kinds Hk (Z.land w 0x7f); cbv beta iota zeta;
          unfold disasm_branch, disasm_load, disasm_store, disasm_op_imm, disasm_op, disasm_op_imm32, disasm_op32,
            disasm_amo, disasm_system, jtype_imm, btype_imm, stype_imm, itype_imm;
          fields arg bs kinds Hk
      end
  end.

Lemma disasm32_asm i pc : encodable i → disasm32 (encode_insn i) pc = Some (asm pc i).
Proof.
  destruct i; lazymatch goal with
  | |- encodable ?i → _ => try change (asm pc i) with (dot_word (encode_insn i))
  end; disassemble; reflexivity.
Qed.

(** ** Compressed instructions *)

(** What each encoding of [rvc] reads, at [pc]; nothing for the floating-point ones, which the disassembler
    does not know, and for those whose offset it misreads. *)
Definition rvc_asm : list (option (Z → (string → Z) → string)) := [
  None;
  None;
  Some (λ _ a, ops2 "c.lw" (reg (a "rd")) (mem (dec (a "imm")) (reg (a "rs1"))));
  Some (λ _ a, ops2 "c.ld" (reg (a "rd")) (mem (dec (a "imm")) (reg (a "rs1"))));
  None;
  Some (λ _ a, ops2 "c.sw" (reg (a "rs2")) (mem (dec (a "imm")) (reg (a "rs1"))));
  Some (λ _ a, ops2 "c.sd" (reg (a "rs2")) (mem (dec (a "imm")) (reg (a "rs1"))));
  Some (λ _ a, if a "rd" =? 0 then "c.nop" else ops2 "c.addi" (reg (a "rd")) (dec (a "imm")));
  Some (λ _ a, ops2 "c.addiw" (reg (a "rd")) (dec (a "imm")));
  Some (λ _ a, ops2 "c.li" (reg (a "rd")) (dec (a "imm")));
  Some (λ _ a, ops2 "c.addi16sp" "sp" (dec (a "imm")));
  Some (λ _ a, ops2 "c.lui" (reg (a "rd")) (alt_hex (u64 (shr (a "imm") 12))));
  Some (λ _ a, ops2 "c.srli" (reg (a "rd")) (dec (a "shamt")));
  Some (λ _ a, ops2 "c.srai" (reg (a "rd")) (dec (a "shamt")));
  Some (λ _ a, ops2 "c.andi" (reg (a "rd")) (dec (a "imm")));
  Some (λ _ a, ops2 "c.sub" (reg (a "rd")) (reg (a "rs2")));
  Some (λ _ a, ops2 "c.xor" (reg (a "rd")) (reg (a "rs2")));
  Some (λ _ a, ops2 "c.or" (reg (a "rd")) (reg (a "rs2")));
  Some (λ _ a, ops2 "c.and" (reg (a "rd")) (reg (a "rs2")));
  Some (λ _ a, ops2 "c.subw" (reg (a "rd")) (reg (a "rs2")));
  Some (λ _ a, ops2 "c.addw" (reg (a "rd")) (reg (a "rs2")));
  Some (λ pc a, ops1 "c.j" (target pc (a "imm")));
  Some (λ pc a, ops2 "c.beqz" (reg (a "rs1")) (target pc (a "imm")));
  Some (λ pc a, ops2 "c.bnez" (reg (a "rs1")) (target pc (a "imm")));
  Some (λ _ a, ops2 "c.slli" (reg (a "rd")) (dec (a "shamt")));
  None;
  None;
  None;
  Some (λ _ a, ops1 "c.jr" (reg (a "rs1")));
  Some (λ _ a, ops2 "c.mv" (reg (a "rd")) (reg (a "rs2")));
  Some (λ _ a, "c.ebreak");
  Some (λ _ a, ops1 "c.jalr" (reg (a "rs1")));
  Some (λ _ a, ops2 "c.add" (reg (a "rd")) (reg (a "rs2")));
  None;
  None;
  None
].

(** The word of a compressed instruction, with its symbolic bits; then the quadrant and [funct3]. *)
Ltac disassemble16 :=
  lazymatch goal with
  | |- legal ?c ?arg → _ =>
      let ps := eval vm_compute in (Encoding.pieces (cform c)) in
      let bs := eval vm_compute in (Sym.bits ps) in
      let kinds := eval vm_compute in (Encoding.kinds (cform c)) in
      intros [Hk Hne]; change (Forall (λ '(a, k), Encoding.in_kind k (arg a)) kinds) in Hk;
      change (Forall (λ '(a, v), arg a ≠ v) (cne c)) in Hne; cbn [cne C] in Hne;
      repeat (let Hv := fresh in apply Forall_cons in Hne as [Hv Hne]; apply Z.eqb_neq in Hv);
      change (Encoding.pieces (cform c)) with ps; rewrite (encode_word arg ps); change (Sym.bits ps) with bs;
      let w := constr:(Sym.word arg bs) in
      unfold disasm16; field arg bs kinds Hk (Z.land w 0x3); field arg bs kinds Hk (Z.land (shr w 13) 0x7);
      cbv beta iota zeta;
      unfold disasm_c_q0, disasm_c_q1, disasm_c_q2, disasm_c_alu, c_imm6, c_addi16sp_imm, c_j_off, c_b_off,
        c_lw_off, c_ld_off;
      fields arg bs kinds Hk;
      repeat match goal with
      | |- context [creg (arg ?a - 8)] => rewrite (creg_high arg kinds Hk a eq_refl)
      end
  end.

Lemma disasm16_asm arg pc :
  Forall2 (λ c t, match t with
                  | Some t => legal c arg →
                      disasm16 (Encoding.encode (Encoding.pieces (cform c)) arg) pc = Some (t pc arg)
                  | None => True
                  end) rvc rvc_asm.
Proof.
  unfold rvc, rvc_asm. cbn [app].
  repeat (apply List.Forall2_cons; [cbv beta iota; try done; disassemble16; reflexivity|]). by constructor.
Qed.

(** ** Whole instructions *)

(** The encodings of [rvc] that are misread. *)
Definition rvc_entry (k : nat) : compressed :=
  default (Build_compressed (Encoding.Build_form [] []) [] "" [] (λ _, Insn.ebreak ArgsEmpty.mk)) (rvc !! k).

Definition c_addi4spn : compressed := rvc_entry 0.
Definition c_lwsp : compressed := rvc_entry 26.
Definition c_ldsp : compressed := rvc_entry 27.
Definition c_swsp : compressed := rvc_entry 34.
Definition c_sdsp : compressed := rvc_entry 35.

Definition word_of (c : compressed) (arg : string → Z) : Z := Encoding.encode (Encoding.pieces (cform c)) arg.

Lemma misread_addi4spn arg pc : legal c_addi4spn arg →
  disasm16 (word_of c_addi4spn arg) pc =
  Some (if arg "imm" mod 128 =? 0 then dot_half (word_of c_addi4spn arg)
        else ops3 "c.addi4spn" (reg (arg "rd")) "sp" (dec (arg "imm" mod 128))).
Proof. unfold word_of. disassemble16. rewrite ?Z.add_0_r. reflexivity. Qed.

Lemma misread_lwsp arg pc : legal c_lwsp arg →
  disasm16 (word_of c_lwsp arg) pc =
  Some (ops2 "c.lwsp" (reg (arg "rd")) (mem (dec (arg "imm" mod 32 + 32)) "sp")).
Proof. unfold word_of. disassemble16. reflexivity. Qed.

Lemma misread_ldsp arg pc : legal c_ldsp arg →
  disasm16 (word_of c_ldsp arg) pc =
  Some (ops2 "c.ldsp" (reg (arg "rd")) (mem (dec (arg "imm" mod 32 + 224)) "sp")).
Proof. unfold word_of. disassemble16. reflexivity. Qed.

Lemma misread_swsp arg pc : legal c_swsp arg →
  disasm16 (word_of c_swsp arg) pc =
  Some (ops2 "c.swsp" (reg (arg "rs2")) (mem (dec (arg "imm" mod 128)) "sp")).
Proof. unfold word_of. disassemble16. rewrite ?Z.add_0_r. reflexivity. Qed.

Lemma misread_sdsp arg pc : legal c_sdsp arg →
  disasm16 (word_of c_sdsp arg) pc =
  Some (ops2 "c.sdsp" (reg (arg "rs2")) (mem (dec (arg "imm" mod 256)) "sp")).
Proof. unfold word_of. disassemble16. rewrite ?Z.add_0_r. reflexivity. Qed.

(** A word of two or four bytes is read back, and its low bits tell its length. *)
Lemma low_bits3 arg b0 b1 l : Z.land (Sym.word arg (b0 :: b1 :: l)) 3 = Z.b2z (Sym.denote arg b0) + 2 * Z.b2z (Sym.denote arg b1).
Proof.
  change 3 with (Z.ones 2). rewrite Z.land_ones by lia. cbn [Sym.word].
  destruct (Sym.denote arg b0), (Sym.denote arg b1); cbn [Z.b2z]; Z.to_euclidean_division_equations; lia.
Qed.

(** Both low bits of a 32-bit instruction are set, those of a compressed one are not. *)
Lemma isa_low_bits :
  forallb (λ '(_, f), (zlen (Sym.bits (Encoding.pieces f)) =? 32) &&
    bool_decide (take 2 (Sym.bits (Encoding.pieces f)) = [Sym.Known true; Sym.Known true])) isa = true.
Proof. vm_compute. reflexivity. Qed.

Lemma rvc_low_bits :
  forallb (λ c, let bs := Sym.bits (Encoding.pieces (cform c)) in (zlen bs =? 16) &&
    match bs with
    | Sym.Known b0 :: Sym.Known b1 :: _ => negb (b0 && b1)
    | _ => false
    end) rvc = true.
Proof. vm_compute. reflexivity. Qed.

Lemma half_low w : Z.land (w mod 2 ^ 16) 3 = Z.land w 3.
Proof.
  change 3 with (Z.ones 2). rewrite !Z.land_ones by lia. Z.to_euclidean_division_equations. lia.
Qed.

Lemma print32 i pc s :
  encodable i → disasm32 (encode_insn i) pc = Some s → print_insn_riscv64 pc (le_bytes 4 (encode_insn i)) = Some (s, 4).
Proof.
  unfold encodable, encode_insn. destruct (BTree.get (describe i).1 isa) as [f|] eqn:Ef; [|done]. intros _ Hs.
  pose proof isa_low_bits as Hl. rewrite forallb_forall in Hl.
  specialize (Hl _ (proj1 (list_elem_of_In _ _) (get_elem _ _ _ Ef))). cbn beta iota in Hl. boolp.
  match goal with Hz : zlen _ = 32, Ht : take 2 _ = _ |- _ => rename Hz into Hlen; rename Ht into Htake end.
  pose proof (encode_range (Encoding.pieces f) (arg_of i)) as Hr. rewrite Hlen in Hr.
  set (w := Encoding.encode _ _) in *. assert (Z.land w 3 = 3) as H3.
  { unfold w. rewrite encode_word. destruct (Sym.bits _) as [|b0 [|b1 l]]; try done.
    injection Htake as -> ->. by rewrite low_bits3. }
  assert (zlen (le_bytes 4 w) = 4) as H4 by (unfold zlen; by rewrite le_bytes_length).
  unfold print_insn_riscv64. rewrite H4. change (4 <? 2) with false. change (4 <? 4) with false. cbv beta iota zeta.
  assert (le_value (take 2 (le_bytes 4 w)) = w mod 2 ^ 16) as -> by apply (le_value_bytes 2 w).
  rewrite half_low, H3. change (negb (3 =? 3)) with false. cbv iota.
  rewrite (take_ge (le_bytes 4 w)) by (by rewrite le_bytes_length).
  rewrite le_value_bytes, Z.mod_small by done. by rewrite Hs.
Qed.

Lemma print16 c arg pc s :
  c ∈ rvc → disasm16 (word_of c arg) pc = Some s → print_insn_riscv64 pc (le_bytes 2 (word_of c arg)) = Some (s, 2).
Proof.
  intros Hc Hs. pose proof rvc_low_bits as Hl. rewrite forallb_forall in Hl.
  specialize (Hl c (proj1 (list_elem_of_In _ _) Hc)). cbn beta zeta in Hl.
  apply andb_true_iff in Hl as [Hlen%Z.eqb_eq Htake].
  pose proof (encode_range (Encoding.pieces (cform c)) arg) as Hr. rewrite Hlen in Hr. fold (word_of c arg) in Hr.
  assert ((Z.land (word_of c arg) 3 =? 3) = false) as H3.
  { unfold word_of. rewrite encode_word. destruct (Sym.bits _) as [|[b0|] [|[b1|] l]]; try done.
    rewrite low_bits3. by destruct b0, b1. }
  unfold print_insn_riscv64. assert (zlen (le_bytes 2 (word_of c arg)) = 2) as -> by (unfold zlen; by rewrite le_bytes_length).
  change (2 <? 2) with false. cbv iota zeta.
  rewrite (take_ge (le_bytes 2 _)) by (by rewrite le_bytes_length).
  rewrite le_value_bytes, Z.mod_small, H3 by done. cbn [negb]. by rewrite Hs.
Qed.

(** ** It never panics *)

Lemma land_ones_range x k m : 0 ≤ k → m = Z.ones k → 0 ≤ Z.land x m < 2 ^ k.
Proof. intros Hk ->. rewrite Z.land_ones by done. apply Z.mod_pos_bound, pow2_pos. done. Qed.

Lemma disasm32_total insn pc : is_Some (disasm32 insn pc).
Proof.
  unfold disasm32. cbv zeta. pose proof (land_ones_range (shr insn 12) 3 7 ltac:(done) eq_refl) as Hf.
  set (f3 := Z.land (shr insn 12) 7) in *.
  assert (f3 = 0 ∨ f3 = 1 ∨ f3 = 2 ∨ f3 = 3 ∨ f3 = 4 ∨ f3 = 5 ∨ f3 = 6 ∨ f3 = 7) as Hc by lia.
  assert (∀ f7 rd rs1 rs2, is_Some (disasm_op f3 f7 rd rs1 rs2)) as H1.
  { intros. unfold disasm_op. destruct (f7 =? 1); [|by eexists].
    repeat (destruct Hc as [-> |Hc]; [by eexists|]). rewrite Hc. by eexists. }
  assert (∀ rd rs1, is_Some (disasm_op_imm insn f3 rd rs1)) as H2.
  { intros. unfold disasm_op_imm. repeat (destruct Hc as [-> |Hc]; [by eexists|]). rewrite Hc. by eexists. }
  repeat case_match; eauto.
Qed.

Lemma disasm16_total h pc : is_Some (disasm16 h pc).
Proof.
  assert (is_Some (disasm_c_alu h)) as H1.
  { unfold disasm_c_alu. cbv zeta. pose proof (land_ones_range (shr h 10) 2 3 ltac:(done) eq_refl) as Hf.
    set (f2 := Z.land (shr h 10) 3) in *.
    assert (f2 = 0 ∨ f2 = 1 ∨ f2 = 2 ∨ f2 = 3) as Hc by lia.
    repeat (destruct Hc as [-> |Hc]; [by eexists|]). rewrite Hc. by eexists. }
  unfold disasm16, disasm_c_q1. cbv zeta. repeat case_match; eauto.
Qed.

(** C11. The disassembler reads the instructions it is meant for.  A 32-bit encoding of the manual comes
    out as the assembly of its instruction, with the usual aliases, and as a data word if it is a
    floating-point one; a compressed encoding of the integer instructions, with arguments that are not
    reserved, comes out as its own assembly, but for the five of [disas_misreads_offsets].  On no bytes
    does it panic. *)
Theorem disas_reads_encodings :
  (∀ i pc, encodable i → print_insn_riscv64 pc (le_bytes 4 (encode_insn i)) = Some (asm pc i, 4)) ∧
  (∀ k c t arg pc, rvc !! k = Some c → rvc_asm !! k = Some (Some t) → legal c arg →
     print_insn_riscv64 pc (le_bytes 2 (word_of c arg)) = Some (t pc arg, 2)) ∧
  (∀ pc data, is_Some (print_insn_riscv64 pc data)).
Proof.
  split; [|split].
  - intros i pc Hi. apply print32; [done|]. by apply disasm32_asm.
  - intros k c t arg pc Hc Ht Hl. apply print16; [by eapply list_elem_of_lookup_2|].
    by apply (Forall2_lookup_lr _ _ _ _ _ _ (disasm16_asm arg pc) Hc Ht).
  - intros pc data. unfold print_insn_riscv64. destruct (zlen data <? 2); [eauto|]. cbv zeta.
    destruct (negb _).
    + destruct (disasm16_total (le_value (take 2 data)) pc) as [s ->]. eauto.
    + destruct (zlen data <? 4); [eauto|]. destruct (disasm32_total (le_value (take 4 data)) pc) as [s ->]. eauto.
Qed.

(** C34. It misreads the offsets of five compressed instructions: LWSP and LDSP show the low five bits of
    the offset plus 32 and 224, SWSP, SDSP and ADDI4SPN lose what is above bit 6, 7 and 6, and ADDI4SPN
    with a multiple of 128 is not recognised.  LWSP at offset 0 reads as offset 32. *)
Theorem disas_misreads_offsets :
  (∀ arg pc, legal c_lwsp arg →
     disasm16 (word_of c_lwsp arg) pc = Some (ops2 "c.lwsp" (reg (arg "rd")) (mem (dec (arg "imm" mod 32 + 32)) "sp"))) ∧
  (∀ arg pc, legal c_ldsp arg →
     disasm16 (word_of c_ldsp arg) pc = Some (ops2 "c.ldsp" (reg (arg "rd")) (mem (dec (arg "imm" mod 32 + 224)) "sp"))) ∧
  (∀ arg pc, legal c_swsp arg →
     disasm16 (word_of c_swsp arg) pc = Some (ops2 "c.swsp" (reg (arg "rs2")) (mem (dec (arg "imm" mod 128)) "sp"))) ∧
  (∀ arg pc, legal c_sdsp arg →
     disasm16 (word_of c_sdsp arg) pc = Some (ops2 "c.sdsp" (reg (arg "rs2")) (mem (dec (arg "imm" mod 256)) "sp"))) ∧
  (∀ arg pc, legal c_addi4spn arg →
     disasm16 (word_of c_addi4spn arg) pc =
     Some (if arg "imm" mod 128 =? 0 then dot_half (word_of c_addi4spn arg)
           else ops3 "c.addi4spn" (reg (arg "rd")) "sp" (dec (arg "imm" mod 128)))) ∧
  print_insn_riscv64 0 [0x02; 0x45] = Some ("c.lwsp a0, 32(sp)", 2) ∧
  @decode16 generated 0x4502 ≫= expand = Some (Insn.lw (ArgsI.mk 0 2 10)).
Proof.
  split_and!; [exact misread_lwsp|exact misread_ldsp|exact misread_swsp|exact misread_sdsp|exact misread_addi4spn|
    vm_compute; reflexivity..].
Qed.

(** [beqz ra, 0x1000] at 0x2000, and [c.lui t0, -1]. *)
Lemma disas_reads_encodings_witness :
  print_insn_riscv64 0x2000 (le_bytes 4 (encode_insn (Insn.beq (ArgsB.mk (-4096) 0 1)))) = Some ("beqz ra, 0x1000", 4) ∧
  print_insn_riscv64 0 [0xfd; 0x72] = Some ("c.lui t0, 0xffffffffffffffff", 2).
Proof.
  destruct disas_reads_encodings as (H32 & H16 & _). split.
  - exact (H32 (Insn.beq (ArgsB.mk (-4096) 0 1)) 0x2000 ltac:(vm_compute; repeat constructor; discriminate)).
  - exact (H16 11%nat (rvc_entry 11) _ some_args 0 eq_refl eq_refl ltac:(split; vm_compute; repeat constructor; discriminate)).
Defined.

(** [c.swsp a0, 128(sp)] reads as an offset of 0. *)
Definition at_128 (a : string) : Z := if String.eqb a "imm" then 128 else if String.eqb a "sp" then 2 else 10.

Lemma disas_misreads_offsets_witness :
  disasm16 (word_of c_swsp at_128) 0 = Some ("c.swsp a0, 0(sp)").
Proof.
  destruct disas_misreads_offsets as (_ & _ & Hs & _).
  exact (Hs at_128 0 ltac:(split; vm_compute; repeat constructor; discriminate)).
Defined.
