(* ===== verification/GuestSpace.v ===== *)
(** * The guest's memory (linux-user/src/guest_space.rs)

    Guest addresses are offsets into a region of host memory.  The host is its bytes and the
    state of the kernel; the C library is the class [Libc], whose documented behaviour is
    [LibcLaws].  Accesses to unmapped or protected pages (a signal) are not modelled.  A method
    is a function on the host state that may panic. *)

From S2P Require Import Prelude Ir.

(** ** The C library *)

Definition PROT_NONE : Z := 0.
Definition PROT_READ : Z := 1.
Definition PROT_WRITE : Z := 2.
Definition PROT_EXEC : Z := 4.
Definition MAP_PRIVATE : Z := 0x2.
Definition MAP_FIXED : Z := 0x10.
Definition MAP_ANONYMOUS : Z := 0x20.
Definition MAP_NORESERVE : Z := 0x4000.
Definition MAP_FAILED : Z := 2 ^ 64 - 1.

Definition Memory := Z → Z.

(** [struct stat] and [struct rlimit], the fields that are read. *)
Record stat := {
  st_dev : Z; st_ino : Z; st_mode : Z; st_nlink : Z; st_uid : Z; st_gid : Z; st_rdev : Z;
  st_size : Z; st_blksize : Z; st_blocks : Z; st_atime : Z; st_atime_nsec : Z; st_mtime : Z;
  st_mtime_nsec : Z; st_ctime : Z; st_ctime_nsec : Z
}.

(** Results are signed; [write] reads the bytes at a pointer. *)
Class Libc := {
  Kernel : Type;
  errno : Kernel → Z;
  libc_mmap : Kernel → Memory → Z → Z → Z → Z → Z * Memory * Kernel;
  libc_mprotect : Kernel → Z → Z → Z → Z * Kernel;
  libc_munmap : Kernel → Memory → Z → Z → Memory * Kernel;
  libc_write : Kernel → Memory → Z → Z → Z → Z * Kernel;
  libc_fstat : Kernel → Z → Z * stat * Kernel;
  libc_getrlimit : Kernel → Z → Z * (Z * Z) * Kernel;
  libc_clock_gettime : Kernel → Z → Z * (Z * Z) * Kernel;
  sysconf_pagesize : Z
}.

Module Process.
Record t `{Libc} := mk { mem : Memory; kernel : Kernel }.
End Process.

(** [io::Result]; an error is its [errno]. *)
Inductive IoResult (A : Type) : Type := IoOk (a : A) | IoErr (e : Z).
Arguments IoOk {A} a.
Arguments IoErr {A} e.

Section guest_space.
Context `{Libc}.

(** [None]: a panic. *)
Definition HostM (A : Type) : Type := Process.t → option (A * Process.t).

#[export] Instance host_ret : MRet HostM := λ A a h, Some (a, h).
#[export] Instance host_bind : MBind HostM := λ A B f m h, '(a, h) ← m h; f a h.

Definition or_panic {A} (o : option A) : HostM A := λ h, a ← o; Some (a, h).

Definition host_call {A} (f : Process.t → option (A * Process.t)) : HostM A := f.

Definition last_os_error {A} : HostM (IoResult A) := λ h, Some (IoErr (errno (Process.kernel h)), h).

Lemma bind_run {A B} (m : HostM A) (f : A → HostM B) h :
  (m ≫= f) h = ('(a, h) ← m h; f a h).
Proof. done. Qed.

(** Bytes of host memory. *)
Definition put_bytes (a : Z) (bs : list Z) (m : Memory) : Memory :=
  λ x, if (a <=? x) && (x <? a + zlen bs) then default 0 (bs.[x - a]) else m x.

Definition get_bytes (m : Memory) (a : Z) (n : nat) : list Z := map (λ i, m (a + Z.of_nat i)) (seq 0 n).

(** [write_bytes(p, v, n)] *)
Definition fill (a n v : Z) (m : Memory) : Memory :=
  λ x, if (a <=? x) && (x <? a + n) then v else m x.

Definition store_mem (f : Memory → Memory) : HostM unit :=
  λ h, Some (tt, Process.mk _ (f (Process.mem h)) (Process.kernel h)).

Definition load_mem {A} (f : Memory → A) : HostM A := λ h, Some (f (Process.mem h), h).

(** ** [GuestSpace] *)

Definition GUEST_SPACE_SIZE : Z := Z.shiftl 1 30.
Definition GUEST_STACK_TOP : Z := 0x3FFF0000.
Definition GUEST_STACK_SIZE : Z := 8 * 1024 * 1024.

End guest_space.

Module GuestSpace.
Record t := mk { base : Z; size : Z; brk : Z }.

Definition set_brk (self : t) (b : Z) : t := mk (base self) (size self) b.
Definition guest_base (self : t) : Z := base self.

Section methods.
Context `{Libc}.

Definition new : HostM (IoResult t) := λ h,
  let '(ptr, m, k) := libc_mmap (Process.kernel h) (Process.mem h) 0 GUEST_SPACE_SIZE PROT_NONE
                        (Z.lor (Z.lor MAP_PRIVATE MAP_ANONYMOUS) MAP_NORESERVE) in
  let h := Process.mk _ m k in
  if ptr =? MAP_FAILED then last_os_error h else Some (IoOk (mk ptr GUEST_SPACE_SIZE 0), h).

(** The host pointer of a guest address; only the address itself is checked. *)
Definition g2h (self : t) (guest_addr : Z) : option Z :=
  assert! (guest_addr <? size self); Some (base self + guest_addr).

Definition h2g (self : t) (host_ptr : Z) : option Z :=
  let off := u64 (host_ptr - base self) in
  assert! (off <? size self); Some off.

Definition mmap_fixed (self : t) (guest_addr sz prot : Z) : HostM (IoResult unit) :=
  host ← or_panic (g2h self guest_addr);
  host_call (λ h,
    let '(ret, m, k) := libc_mmap (Process.kernel h) (Process.mem h) host sz prot
                          (Z.lor (Z.lor MAP_PRIVATE MAP_ANONYMOUS) MAP_FIXED) in
    let h := Process.mk _ m k in
    if ret =? MAP_FAILED then last_os_error h else Some (IoOk tt, h)).

Definition mprotect (self : t) (guest_addr sz prot : Z) : HostM (IoResult unit) :=
  host ← or_panic (g2h self guest_addr);
  host_call (λ h,
    let '(ret, k) := libc_mprotect (Process.kernel h) host sz prot in
    let h := Process.mk _ (Process.mem h) k in
    if negb (ret =? 0) then last_os_error h else Some (IoOk tt, h)).

Definition write_bytes (self : t) (guest_addr : Z) (data : list Z) : HostM unit :=
  dst ← or_panic (g2h self guest_addr); store_mem (put_bytes dst data).

Definition write_u64 (self : t) (guest_addr val : Z) : HostM unit :=
  dst ← or_panic (g2h self guest_addr); store_mem (put_bytes dst (le_bytes 8 val)).

Definition read_u64 (self : t) (guest_addr : Z) : HostM Z :=
  src ← or_panic (g2h self guest_addr); load_mem (λ m, le_value (get_bytes m src 8)).

Definition drop (self : t) : HostM unit := λ h,
  if base self =? 0 then Some (tt, h)
  else
    let '(m, k) := libc_munmap (Process.kernel h) (Process.mem h) (base self) (size self) in
    Some (tt, Process.mk _ m k).
End methods.
End GuestSpace.

Section pages.
Context `{Libc}.

Definition page_size : Z := if sysconf_pagesize <=? 0 then 4096 else sysconf_pagesize.

Definition not_u64 (x : Z) : Z := 2 ^ 64 - 1 - x.

Definition page_align_up (addr : Z) : Z :=
  Z.land (u64 (u64 (addr + page_size) - 1)) (not_u64 (page_size - 1)).

Definition page_align_down (addr : Z) : Z := Z.land addr (not_u64 (page_size - 1)).
End pages.

(** ** What the library relies on *)

(** Pages are of a power of two; a fixed anonymous mapping gives zeroed pages at the address
    asked for, and whether it succeeds or not, nothing else changes. *)
Class LibcLaws `{Libc} := {
  pagesize_pow2 : ∃ k, 0 ≤ k ≤ 16 ∧ sysconf_pagesize = 2 ^ k;
  mmap_fixed_zeroes k m a n prot :
    let '(ret, m', _) := libc_mmap k m a n prot (Z.lor (Z.lor MAP_PRIVATE MAP_ANONYMOUS) MAP_FIXED) in
    ret ≠ MAP_FAILED →
    ret = a ∧ ∀ x, m' x = if (a <=? x) && (x <? a + page_align_up n) then 0 else m x;
  mmap_fixed_confined k m a n prot :
    let '(_, m', _) := libc_mmap k m a n prot (Z.lor (Z.lor MAP_PRIVATE MAP_ANONYMOUS) MAP_FIXED) in
    ∀ x, x < a ∨ a + page_align_up n ≤ x → m' x = m x
}.

(** ** Pages *)

Section lemmas.
Context `{LibcLaws}.

Lemma page_size_pow2 : ∃ k, 0 ≤ k ≤ 16 ∧ page_size = 2 ^ k.
Proof.
  destruct pagesize_pow2 as (k & Hk & Hp). exists k. split; [done|]. unfold page_size.
  rewrite Hp. pose proof (pow2_pos k). by rewrite (proj2 (Z.leb_gt _ _)) by lia.
Qed.

Lemma land_not_u64 x k : 0 ≤ k ≤ 64 → in_width 64 x → Z.land x (not_u64 (2 ^ k - 1)) = x / 2 ^ k * 2 ^ k.
Proof.
  intros Hk Hx. rewrite <- land_lnot_pred_pow2 by lia.
  replace (not_u64 (2 ^ k - 1)) with (Z.lnot (2 ^ k - 1) + 1 * 2 ^ 64) by (unfold not_u64, Z.lnot; lia).
  rewrite <- (mod_small_width 64 x Hx). apply Z.bits_inj'. intros n Hn. rewrite !Z.land_spec.
  destruct (decide (n < 64)).
  - f_equal. rewrite <- (Z.mod_pow2_bits_low (_ + _) 64), Z.mod_add, Z.mod_pow2_bits_low by lia. done.
  - by rewrite !Z.mod_pow2_bits_high by lia.
Qed.

Lemma page_align_down_spec x :
  in_width 64 x → x - page_size < page_align_down x ≤ x ∧ page_align_down x mod page_size = 0 ∧ 0 ≤ page_align_down x.
Proof.
  intros Hx. destruct page_size_pow2 as (k & Hk & Hp). unfold page_align_down. rewrite Hp, land_not_u64 by (lia || done).
  pose proof (pow2_pos k). rewrite Z.mod_mul by lia.
  pose proof (Z.div_mod x (2 ^ k)). pose proof (Z.mod_pos_bound x (2 ^ k)).
  destruct Hx. pose proof (Z.div_pos x (2 ^ k)). split_and!; nia.
Qed.

Lemma page_align_up_spec x :
  0 ≤ x ≤ 2 ^ 63 → x ≤ page_align_up x < x + page_size ∧ page_align_up x mod page_size = 0.
Proof.
  intros Hx. destruct page_size_pow2 as (k & Hk & Hp). unfold page_align_up. rewrite Hp.
  pose proof (pow2_pos k). assert (2 ^ k ≤ 2 ^ 16) by (apply Z.pow_le_mono_r; lia).
  rewrite (u64_small (x + 2 ^ k)), u64_small by lia. rewrite land_not_u64 by (unfold in_width; lia).
  rewrite Z.mod_mul by lia.
  pose proof (Z.div_mod (x + 2 ^ k - 1) (2 ^ k)). pose proof (Z.mod_pos_bound (x + 2 ^ k - 1) (2 ^ k)).
  split; [nia|done].
Qed.

(** ** Bytes *)

Lemma put_bytes_in a bs m x : a ≤ x < a + zlen bs → Some (put_bytes a bs m x) = bs.[x - a].
Proof.
  intros Hx. unfold put_bytes. rewrite (proj2 (Z.leb_le _ _)), (proj2 (Z.ltb_lt _ _)) by lia. cbn [andb].
  destruct (proj2 (zlookup_lt_is_Some bs (x - a)) ltac:(lia)) as [b Hb]. by rewrite Hb.
Qed.

Lemma put_bytes_out a bs m x : x < a ∨ a + zlen bs ≤ x → put_bytes a bs m x = m x.
Proof.
  intros Hx. unfold put_bytes. destruct (a <=? x) eqn:E1, (x <? a + zlen bs) eqn:E2; cbn [andb]; try done.
  boolp. lia.
Qed.

Lemma get_put_same a bs m : get_bytes (put_bytes a bs m) a (length bs) = bs.
Proof.
  apply list_eq. intros i. unfold get_bytes. rewrite list_lookup_fmap.
  destruct (decide (i < length bs)%nat) as [Hi|Hi].
  - rewrite lookup_seq_lt by done. cbn. rewrite put_bytes_in by (unfold zlen; lia).
    replace (a + Z.of_nat i - a) with (Z.of_nat i) by lia. by rewrite zlookup_of_nat.
  - rewrite lookup_seq_ge by lia. by rewrite lookup_ge_None_2 by lia.
Qed.

Lemma get_bytes_ext m m' a n :
  (∀ x, a ≤ x < a + Z.of_nat n → m x = m' x) → get_bytes m a n = get_bytes m' a n.
Proof.
  intros Hm. unfold get_bytes. apply map_ext_in. intros i Hi%in_seq. apply Hm. lia.
Qed.
End lemmas.
