(* ===== verification/Elf.v ===== *)
(** * ELF headers (linux-user/src/elf.rs)

    The file is a list of bytes; a [repr(C)] struct read through a pointer cast is its fields at
    their offsets, little-endian.  Alignment of the pointer is not modelled. *)

From S2P Require Import Prelude.

Definition ELF_MAGIC : list Z := [0x7f; 0x45; 0x4c; 0x46].
Definition ELFCLASS64 : Z := 2.
Definition ELFDATA2LSB : Z := 1.
Definition EV_CURRENT : Z := 1.
Definition ET_EXEC : Z := 2.
Definition EM_RISCV : Z := 243.
Definition PT_LOAD : Z := 1.
Definition PT_PHDR : Z := 6.
Definition PF_X : Z := 1.
Definition PF_W : Z := 2.
Definition PF_R : Z := 4.
Definition AT_NULL : Z := 0.
Definition AT_PHDR : Z := 3.
Definition AT_PHENT : Z := 4.
Definition AT_PHNUM : Z := 5.
Definition AT_PAGESZ : Z := 6.
Definition AT_ENTRY : Z := 9.
Definition AT_RANDOM : Z := 25.
Definition AT_EXECFN : Z := 31.

Module ElfError.
Inductive t :=
  | TooSmall | InvalidMagic | UnsupportedClass | UnsupportedEndian | UnsupportedMachine
  | UnsupportedType | InvalidPhdr.

#[export] Instance eq_dec : EqDecision t.
Proof. solve_decision. Defined.

(** [Display] *)
Definition fmt (e : t) : string :=
  match e with
  | TooSmall => "file too small"
  | InvalidMagic => "invalid ELF magic"
  | UnsupportedClass => "not ELF64"
  | UnsupportedEndian => "not little-endian"
  | UnsupportedMachine => "not RISC-V"
  | UnsupportedType => "not ET_EXEC"
  | InvalidPhdr => "invalid program header"
  end.
End ElfError.

Definition ElfResult (A : Type) : Type := ElfError.t + A.

(** The [n]-byte field at an offset of a struct. *)
Definition field_at (data : list Z) (base off : Z) (n : nat) : Z :=
  le_value (read_at data (base + off) n).

Module Elf64Phdr.
Record t := {
  p_type : Z; p_flags : Z; p_offset : Z; p_vaddr : Z; p_paddr : Z; p_filesz : Z; p_memsz : Z;
  p_align : Z
}.

(** [size_of] *)
Definition size : Z := 56.

(** The struct at a position of the file. *)
Definition at_pos (data : list Z) (pos : Z) : t := {|
  p_type := field_at data pos 0 4; p_flags := field_at data pos 4 4;
  p_offset := field_at data pos 8 8; p_vaddr := field_at data pos 16 8;
  p_paddr := field_at data pos 24 8; p_filesz := field_at data pos 32 8;
  p_memsz := field_at data pos 40 8; p_align := field_at data pos 48 8
|}.

Definition to_bytes (p : t) : list Z :=
  le_bytes 4 (p_type p) ++ le_bytes 4 (p_flags p) ++ le_bytes 8 (p_offset p) ++
  le_bytes 8 (p_vaddr p) ++ le_bytes 8 (p_paddr p) ++ le_bytes 8 (p_filesz p) ++
  le_bytes 8 (p_memsz p) ++ le_bytes 8 (p_align p).

Definition fits (p : t) : Prop :=
  in_width 32 (p_type p) ∧ in_width 32 (p_flags p) ∧ in_width 64 (p_offset p) ∧
  in_width 64 (p_vaddr p) ∧ in_width 64 (p_paddr p) ∧ in_width 64 (p_filesz p) ∧
  in_width 64 (p_memsz p) ∧ in_width 64 (p_align p).
End Elf64Phdr.

(** [checked_mul] and [checked_add] of [usize]. *)
Definition checked (x : Z) : option Z := if x <? 2 ^ 64 then Some x else None.

Module Elf64Ehdr.
Record t := {
  e_ident : list Z; e_type : Z; e_machine : Z; e_version : Z; e_entry : Z; e_phoff : Z;
  e_shoff : Z; e_flags : Z; e_ehsize : Z; e_phentsize : Z; e_phnum : Z; e_shentsize : Z;
  e_shnum : Z; e_shstrndx : Z
}.

Definition size : Z := 64.

Definition at_start (data : list Z) : t := {|
  e_ident := read_at data 0 16; e_type := field_at data 0 16 2; e_machine := field_at data 0 18 2;
  e_version := field_at data 0 20 4; e_entry := field_at data 0 24 8;
  e_phoff := field_at data 0 32 8; e_shoff := field_at data 0 40 8;
  e_flags := field_at data 0 48 4; e_ehsize := field_at data 0 52 2;
  e_phentsize := field_at data 0 54 2; e_phnum := field_at data 0 56 2;
  e_shentsize := field_at data 0 58 2; e_shnum := field_at data 0 60 2;
  e_shstrndx := field_at data 0 62 2
|}.

Definition from_bytes (data : list Z) : ElfResult t :=
  if zlen data <? size then inl ElfError.TooSmall else inr (at_start data).

Definition validate_riscv64 (self : t) : ElfResult unit :=
  let id i := default 0 ((e_ident self).[i]) in
  if negb (bool_decide (take 4 (e_ident self) = ELF_MAGIC)) then inl ElfError.InvalidMagic
  else if negb (id 4 =? ELFCLASS64) then inl ElfError.UnsupportedClass
  else if negb (id 5 =? ELFDATA2LSB) then inl ElfError.UnsupportedEndian
  else if negb (id 6 =? EV_CURRENT) then inl ElfError.InvalidMagic
  else if negb (e_machine self =? EM_RISCV) then inl ElfError.UnsupportedMachine
  else if negb (e_type self =? ET_EXEC) then inl ElfError.UnsupportedType
  else inr tt.

(** The slice has [num] structs, one after the other from [e_phoff]. *)
Definition program_headers (self : t) (data : list Z) : ElfResult (list Elf64Phdr.t) :=
  let off := e_phoff self in
  let num := e_phnum self in
  let ent := e_phentsize self in
  if ent <? Elf64Phdr.size then inl ElfError.InvalidPhdr
  else
    match (len ← checked (num * ent); checked (off + len)) with
    | None => inl ElfError.InvalidPhdr
    | Some end_ =>
        if zlen data <? end_ then inl ElfError.InvalidPhdr
        else inr (map (λ i, Elf64Phdr.at_pos data (off + Elf64Phdr.size * Z.of_nat i)) (seq 0 (Z.to_nat num)))
    end.

Definition to_bytes (h : t) : list Z :=
  e_ident h ++ le_bytes 2 (e_type h) ++ le_bytes 2 (e_machine h) ++ le_bytes 4 (e_version h) ++
  le_bytes 8 (e_entry h) ++ le_bytes 8 (e_phoff h) ++ le_bytes 8 (e_shoff h) ++
  le_bytes 4 (e_flags h) ++ le_bytes 2 (e_ehsize h) ++ le_bytes 2 (e_phentsize h) ++
  le_bytes 2 (e_phnum h) ++ le_bytes 2 (e_shentsize h) ++ le_bytes 2 (e_shnum h) ++
  le_bytes 2 (e_shstrndx h).

Definition fits (h : t) : Prop :=
  zlen (e_ident h) = 16 ∧ in_width 16 (e_type h) ∧ in_width 16 (e_machine h) ∧
  in_width 32 (e_version h) ∧ in_width 64 (e_entry h) ∧ in_width 64 (e_phoff h) ∧
  in_width 64 (e_shoff h) ∧ in_width 32 (e_flags h) ∧ in_width 16 (e_ehsize h) ∧
  in_width 16 (e_phentsize h) ∧ in_width 16 (e_phnum h) ∧ in_width 16 (e_shentsize h) ∧
  in_width 16 (e_shnum h) ∧ in_width 16 (e_shstrndx h).
End Elf64Ehdr.

(** ** Reading back what a linker wrote *)

Lemma read_at_app (a b c : list Z) n :
  length b = n → read_at (a ++ b ++ c) (zlen a) n = b.
Proof.
  intros Hn. unfold read_at, zlen. rewrite Nat2Z.id, drop_app_length. subst n. apply take_app_length.
Qed.

(** The fields of a struct are found at the sums of the sizes before them. *)
Lemma field_at_app data (a : list Z) n v c base off :
  data = a ++ le_bytes n v ++ c → zlen a = base + off → in_width (8 * Z.of_nat n) v →
  field_at data base off n = v.
Proof.
  intros -> Ha Hv. unfold field_at. rewrite <- Ha, read_at_app by apply le_bytes_length.
  rewrite le_value_bytes. by apply mod_small_width.
Qed.

(** The [k]-th of a list of chunks. *)
Lemma chunk_at (pre post : list (list Z)) (b : list Z) (rest : list Z) :
  concat (pre ++ b :: post) ++ rest = concat pre ++ b ++ (concat post ++ rest).
Proof. rewrite concat_app. cbn [concat]. by rewrite <- !app_assoc. Qed.

Lemma zlen_concat (l : list (list Z)) : zlen (concat l) = foldr (λ b n, zlen b + n) 0 l.
Proof. induction l as [|b l IH]; [done|]. cbn [concat foldr]. by rewrite zlen_app, IH. Qed.

Lemma zlen_le_bytes n v : zlen (le_bytes n v) = Z.of_nat n.
Proof. unfold zlen. by rewrite le_bytes_length. Qed.

(** A field given as a chunk of a list of chunks. *)
Lemma field_chunk (l pre post : list (list Z)) (front rest : list Z) base off n v :
  l = pre ++ le_bytes n v :: post → zlen front = base →
  foldr (λ b n, zlen b + n) 0 pre = off → in_width (8 * Z.of_nat n) v →
  field_at (front ++ concat l ++ rest) base off n = v.
Proof.
  intros -> Hf Ho Hv. rewrite chunk_at.
  apply (field_at_app _ (front ++ concat pre) n v (concat post ++ rest)); [by rewrite <- app_assoc| |done].
  rewrite zlen_app, zlen_concat. lia.
Qed.

Section structs.
Variables (front rest : list Z).

Lemma phdr_roundtrip p :
  Elf64Phdr.fits p → Elf64Phdr.at_pos (front ++ Elf64Phdr.to_bytes p ++ rest) (zlen front) = p.
Proof.
  destruct p as [a b c d e f g h]. intros (? & ? & ? & ? & ? & ? & ? & ?).
  cbn [Elf64Phdr.p_type Elf64Phdr.p_flags Elf64Phdr.p_offset Elf64Phdr.p_vaddr Elf64Phdr.p_paddr
       Elf64Phdr.p_filesz Elf64Phdr.p_memsz Elf64Phdr.p_align] in *.
  assert (Elf64Phdr.to_bytes (Elf64Phdr.Build_t a b c d e f g h) =
          concat [le_bytes 4 a; le_bytes 4 b; le_bytes 8 c; le_bytes 8 d; le_bytes 8 e; le_bytes 8 f;
                  le_bytes 8 g; le_bytes 8 h]) as -> by (cbn [concat]; by rewrite app_nil_r).
  unfold Elf64Phdr.at_pos.
  f_equal;
    [apply (field_chunk _ [] _ _ _ _ _ _ _ eq_refl)
    |apply (field_chunk _ [_] _ _ _ _ _ _ _ eq_refl)
    |apply (field_chunk _ [_; _] _ _ _ _ _ _ _ eq_refl)
    |apply (field_chunk _ [_; _; _] _ _ _ _ _ _ _ eq_refl)
    |apply (field_chunk _ [_; _; _; _] _ _ _ _ _ _ _ eq_refl)
    |apply (field_chunk _ [_; _; _; _; _] _ _ _ _ _ _ _ eq_refl)
    |apply (field_chunk _ [_; _; _; _; _; _] _ _ _ _ _ _ _ eq_refl)
    |apply (field_chunk _ [_; _; _; _; _; _; _] _ _ _ _ _ _ _ eq_refl)];
    try done; cbn [foldr]; rewrite ?zlen_le_bytes; done.
Qed.
End structs.

Lemma length_phdr p : zlen (Elf64Phdr.to_bytes p) = Elf64Phdr.size.
Proof. unfold Elf64Phdr.to_bytes. by rewrite !zlen_app, !zlen_le_bytes. Qed.

Lemma ehdr_roundtrip h rest :
  Elf64Ehdr.fits h → Elf64Ehdr.at_start (Elf64Ehdr.to_bytes h ++ rest) = h.
Proof.
  destruct h as [id a b c d e f g h i j k l m]. unfold Elf64Ehdr.fits.
  cbn [Elf64Ehdr.e_ident Elf64Ehdr.e_type Elf64Ehdr.e_machine Elf64Ehdr.e_version Elf64Ehdr.e_entry
       Elf64Ehdr.e_phoff Elf64Ehdr.e_shoff Elf64Ehdr.e_flags Elf64Ehdr.e_ehsize Elf64Ehdr.e_phentsize
       Elf64Ehdr.e_phnum Elf64Ehdr.e_shentsize Elf64Ehdr.e_shnum Elf64Ehdr.e_shstrndx].
  intros (Hid & ? & ? & ? & ? & ? & ? & ? & ? & ? & ? & ? & ? & ?).
  assert (Elf64Ehdr.to_bytes (Elf64Ehdr.Build_t id a b c d e f g h i j k l m) ++ rest =
          [] ++ concat [id; le_bytes 2 a; le_bytes 2 b; le_bytes 4 c; le_bytes 8 d; le_bytes 8 e;
                        le_bytes 8 f; le_bytes 4 g; le_bytes 2 h; le_bytes 2 i; le_bytes 2 j;
                        le_bytes 2 k; le_bytes 2 l; le_bytes 2 m] ++ rest) as ->
    by (cbn [concat app]; by rewrite app_nil_r).
  unfold Elf64Ehdr.at_start. f_equal;
    [unfold read_at; cbn [concat app Z.to_nat drop]; rewrite <- app_assoc; apply take_app_length'; unfold zlen in Hid; lia
    |apply (field_chunk _ [_] _ _ _ _ _ _ _ eq_refl)
    |apply (field_chunk _ [_; _] _ _ _ _ _ _ _ eq_refl)
    |apply (field_chunk _ [_; _; _] _ _ _ _ _ _ _ eq_refl)
    |apply (field_chunk _ [_; _; _; _] _ _ _ _ _ _ _ eq_refl)
    |apply (field_chunk _ [_; _; _; _; _] _ _ _ _ _ _ _ eq_refl)
    |apply (field_chunk _ [_; _; _; _; _; _] _ _ _ _ _ _ _ eq_refl)
    |apply (field_chunk _ [_; _; _; _; _; _; _] _ _ _ _ _ _ _ eq_refl)
    |apply (field_chunk _ [_; _; _; _; _; _; _; _] _ _ _ _ _ _ _ eq_refl)
    |apply (field_chunk _ [_; _; _; _; _; _; _; _; _] _ _ _ _ _ _ _ eq_refl)
    |apply (field_chunk _ [_; _; _; _; _; _; _; _; _; _] _ _ _ _ _ _ _ eq_refl)
    |apply (field_chunk _ [_; _; _; _; _; _; _; _; _; _; _] _ _ _ _ _ _ _ eq_refl)
    |apply (field_chunk _ [_; _; _; _; _; _; _; _; _; _; _; _] _ _ _ _ _ _ _ eq_refl)
    |apply (field_chunk _ [_; _; _; _; _; _; _; _; _; _; _; _; _] _ _ _ _ _ _ _ eq_refl)];
    try done; cbn [foldr]; rewrite ?zlen_le_bytes, ?Hid; done.
Qed.

Lemma length_ehdr h : Elf64Ehdr.fits h → zlen (Elf64Ehdr.to_bytes h) = Elf64Ehdr.size.
Proof.
  intros (Hid & _). unfold Elf64Ehdr.to_bytes. by rewrite !zlen_app, !zlen_le_bytes, Hid.
Qed.

(** The program headers, one after the other. *)
Lemma phdrs_roundtrip phs front rest :
  Forall Elf64Phdr.fits phs →
  map (λ i, Elf64Phdr.at_pos (front ++ concat (map Elf64Phdr.to_bytes phs) ++ rest)
              (zlen front + Elf64Phdr.size * Z.of_nat i)) (seq 0 (length phs)) = phs.
Proof.
  intros Hfit. revert front. induction Hfit as [|p phs Hp _ IH]; intros front; [done|].
  cbn [map concat length seq]. rewrite <- !app_assoc. f_equal.
  - rewrite Z.mul_0_r, Z.add_0_r. by apply phdr_roundtrip.
  - rewrite <- seq_shift, map_map. rewrite <- (IH (front ++ Elf64Phdr.to_bytes p)) at 2.
    apply map_ext. intros i. rewrite <- app_assoc. f_equal.
    rewrite zlen_app, length_phdr. unfold Elf64Phdr.size. lia.
Qed.

Lemma checked_Some x y : checked x = Some y ↔ x < 2 ^ 64 ∧ y = x.
Proof. unfold checked. destruct (x <? 2 ^ 64) eqn:E; boolp; split; [by intros [= <-]|intros [_ ->]; done|done|lia]. Qed.

Lemma checked_ok x : x < 2 ^ 64 → checked x = Some x.
Proof. intros. by apply checked_Some. Qed.

(** An ELF file: the header, something up to [e_phoff], the program headers, the rest. *)
Definition elf_file (h : Elf64Ehdr.t) (gap : list Z) (phs : list Elf64Phdr.t) (rest : list Z) : list Z :=
  Elf64Ehdr.to_bytes h ++ gap ++ concat (map Elf64Phdr.to_bytes phs) ++ rest.

(** ** What is rejected, and how *)

(** The identification and the two fields of a file the loader takes: the magic, 64 bits,
    little-endian, version 1, RISC-V, executable. *)
Definition well_identified (h : Elf64Ehdr.t) (k : nat) : Prop :=
  let id i := (Elf64Ehdr.e_ident h).[i] in
  Forall (λ P : Prop, P) (take k [take 4 (Elf64Ehdr.e_ident h) = [0x7f; 0x45; 0x4c; 0x46];
    id 4 = Some 2; id 5 = Some 1; id 6 = Some 1; Elf64Ehdr.e_machine h = 243; Elf64Ehdr.e_type h = 2]).

(** The error of a header: that of the first of these that is not as it should be. *)
Definition misidentified (h : Elf64Ehdr.t) (e : ElfError.t) : Prop :=
  ∃ k, well_identified h k ∧ ¬ well_identified h (S k) ∧
    [ElfError.InvalidMagic; ElfError.UnsupportedClass; ElfError.UnsupportedEndian; ElfError.InvalidMagic;
     ElfError.UnsupportedMachine; ElfError.UnsupportedType] !! k = Some e.

Lemma validate_spec h :
  zlen (Elf64Ehdr.e_ident h) = 16 →
  match Elf64Ehdr.validate_riscv64 h with
  | inr _ => well_identified h 6
  | inl e => misidentified h e
  end.
Proof.
  intros Hid. assert (∀ i, 0 ≤ i < 16 → is_Some ((Elf64Ehdr.e_ident h).[i])) as Hb
    by (intros i Hi; apply zlookup_lt_is_Some; lia).
  destruct (Hb 4 ltac:(lia)) as [a Ha], (Hb 5 ltac:(lia)) as [b Hb5], (Hb 6 ltac:(lia)) as [c Hc].
  unfold Elf64Ehdr.validate_riscv64, misidentified, well_identified, ELF_MAGIC, ELFCLASS64, ELFDATA2LSB, EV_CURRENT, EM_RISCV, ET_EXEC.
  cbv zeta. rewrite Ha, Hb5, Hc. cbn [default from_option]. unfold id.
  assert (∀ x y : Z, Some x = Some y ↔ x = y) as Hsome by (split; congruence).
  repeat match goal with |- context [if ?b then _ else _] => destruct b eqn:?; boolp end.
  1: exists 0%nat. 2: exists 1%nat. 3: exists 2%nat. 4: exists 3%nat. 5: exists 4%nat. 6: exists 5%nat.
  all: cbn [take]; rewrite ?Forall_cons, ?Forall_nil, ?Hsome; split_and?; try done; tauto.
Qed.

Lemma program_headers_error h data e :
  Elf64Ehdr.fits h → zlen data < 2 ^ 64 →
  Elf64Ehdr.program_headers h data = inl e ↔
  e = ElfError.InvalidPhdr ∧
  (Elf64Ehdr.e_phentsize h < 56 ∨ zlen data < Elf64Ehdr.e_phoff h + Elf64Ehdr.e_phnum h * Elf64Ehdr.e_phentsize h).
Proof.
  intros (_ & _ & _ & _ & _ & [? ?] & _ & _ & _ & [? ?] & [? ?] & _) Hlen.
  unfold Elf64Ehdr.program_headers, Elf64Phdr.size.
  destruct (Elf64Ehdr.e_phentsize h <? 56) eqn:E; boolp; [naive_solver|].
  rewrite checked_ok by nia. cbn [mbind option_bind]. unfold checked.
  destruct (_ <? 2 ^ 64) eqn:E1; boolp; [|naive_solver lia].
  destruct (zlen data <? _) eqn:E2; boolp; [naive_solver|]. split; [done|]. lia.
Qed.


(** A header of two program headers, after a gap of eight bytes. *)
Definition example_ehdr : Elf64Ehdr.t :=
  Elf64Ehdr.Build_t [0x7f; 0x45; 0x4c; 0x46; 2; 1; 1; 0; 0; 0; 0; 0; 0; 0; 0; 0] 2 243 1 0x10078 72 0 5 64 56 2 0 0 0.
Definition example_phdrs : list Elf64Phdr.t :=
  [Elf64Phdr.Build_t 1 5 0 0x10000 0x10000 0x1b8 0x1b8 0x1000;
   Elf64Phdr.Build_t 1 6 0x1b8 0x111b8 0x111b8 8 0x20 0x1000].

