(* ===== verification/Loader.v ===== *)
(** * Loading a program (linux-user/src/loader.rs)

    [load_elf] maps the segments of an ELF file into guest memory and builds the initial
    stack.  Arithmetic on addresses wraps at 64 bits; a slice with its ends in the wrong order
    panics. *)

From S2P Require Import Prelude Ir GuestSpace Elf.

Module LoadError.
Inductive t := Io (errno : Z) | Elf (e : ElfError.t) | NoLoadSegment | SegmentOutOfRange.
End LoadError.

Module ElfInfo.
Record t := mk { entry : Z; phdr_addr : Z; phnum : Z; sp : Z; brk : Z }.
End ElfInfo.

Definition elf_to_prot (flags : Z) : Z :=
  let prot := if negb (Z.land flags PF_R =? 0) then Z.lor 0 PROT_READ else 0 in
  let prot := if negb (Z.land flags PF_W =? 0) then Z.lor prot PROT_WRITE else prot in
  if negb (Z.land flags PF_X =? 0) then Z.lor prot PROT_EXEC else prot.

Section loader.
Context `{Libc}.

(** [m?] of an [io::Result]. *)
Definition try_io {A B} (m : HostM (IoResult A)) (k : A → HostM (LoadError.t + B)) : HostM (LoadError.t + B) :=
  r ← m; match r with IoOk a => k a | IoErr e => mret (inl (LoadError.Io e)) end.

(** ** The initial stack *)

(** Strings from the top down, each below the one before it, with room for a NUL; their
    addresses in that order. *)
Fixpoint push_strings (space : GuestSpace.t) (strs : list (list Z)) (pos : Z) (addrs : list Z)
  : HostM (Z * list Z) :=
  match strs with
  | [] => mret (pos, addrs)
  | s :: strs =>
      let pos := u64 (pos - (zlen s + 1)) in
      _ ← GuestSpace.write_bytes space pos s;
      push_strings space strs pos (addrs ++ [pos])
  end.

(** Consecutive words; the address after them. *)
Fixpoint push_words (space : GuestSpace.t) (ws : list Z) (cur : Z) : HostM Z :=
  match ws with
  | [] => mret cur
  | w :: ws => _ ← GuestSpace.write_u64 space cur w; push_words space ws (u64 (cur + 8))
  end.

Fixpoint push_auxv (space : GuestSpace.t) (auxv : list (Z * Z)) (cur : Z) : HostM Z :=
  match auxv with
  | [] => mret cur
  | (typ, val) :: auxv =>
      _ ← GuestSpace.write_u64 space cur typ;
      _ ← GuestSpace.write_u64 space (u64 (cur + 8)) val;
      push_auxv space auxv (u64 (cur + 16))
  end.

Definition random_data : list Z :=
  [0xde; 0xad; 0xbe; 0xef; 0xca; 0xfe; 0xba; 0xbe; 0x01; 0x23; 0x45; 0x67; 0x89; 0xab; 0xcd; 0xef].

Definition stack_auxv (entry phdr_addr phnum random_addr execfn_addr : Z) : list (Z * Z) :=
  [(AT_PHDR, phdr_addr); (AT_PHENT, 56); (AT_PHNUM, phnum); (AT_PAGESZ, page_size);
   (AT_ENTRY, entry); (AT_RANDOM, random_addr); (AT_EXECFN, execfn_addr); (AT_NULL, 0)].

(** [pos & !15] *)
Definition align16 (pos : Z) : Z := Z.land pos (not_u64 15).

Definition setup_stack (space : GuestSpace.t) (entry phdr_addr phnum : Z) (argv envp : list (list Z))
  (execfn : list Z) : HostM (LoadError.t + Z) :=
  let stack_top := GUEST_STACK_TOP in
  let stack_base := stack_top - GUEST_STACK_SIZE in
  try_io (GuestSpace.mmap_fixed space stack_base GUEST_STACK_SIZE (Z.lor PROT_READ PROT_WRITE)) (λ _,
    let random_addr := u64 (stack_top - 16) in
    _ ← GuestSpace.write_bytes space random_addr random_data;
    let execfn_addr := u64 (random_addr - (zlen execfn + 1)) in
    _ ← GuestSpace.write_bytes space execfn_addr execfn;
    '(pos, envp_addrs) ← push_strings space (reverse envp) execfn_addr [];
    let envp_addrs := reverse envp_addrs in
    '(pos, argv_addrs) ← push_strings space (reverse argv) pos [];
    let argv_addrs := reverse argv_addrs in
    let pos := align16 pos in
    let auxv := stack_auxv entry phdr_addr phnum random_addr execfn_addr in
    let frame_u64s := 1 + zlen argv + 1 + zlen envp + 1 + zlen auxv * 2 in
    let sp := align16 (u64 (pos - frame_u64s * 8)) in
    _ ← GuestSpace.write_u64 space sp (zlen argv);
    cur ← push_words space argv_addrs (u64 (sp + 8));
    _ ← GuestSpace.write_u64 space cur 0;
    cur ← push_words space envp_addrs (u64 (cur + 8));
    _ ← GuestSpace.write_u64 space cur 0;
    _ ← push_auxv space auxv (u64 (cur + 8));
    mret (inr sp)).

(** ** Segments *)

(** The address of the program headers and of the first [PT_LOAD] segment. *)
Definition find_phdr (phdrs : list Elf64Phdr.t) : Z * option Z :=
  foldl (λ '(phdr_addr, first) ph,
    (if Elf64Phdr.p_type ph =? PT_PHDR then Elf64Phdr.p_vaddr ph else phdr_addr,
     if (Elf64Phdr.p_type ph =? PT_LOAD) && negb (bool_decide (is_Some first))
     then Some (Elf64Phdr.p_vaddr ph) else first)) (0, None) phdrs.

(** One [PT_LOAD] segment; the new break. *)
Definition load_segment (space : GuestSpace.t) (data : list Z) (ph : Elf64Phdr.t) (brk : Z)
  : HostM (LoadError.t + Z) :=
  let vaddr := Elf64Phdr.p_vaddr ph in
  let aligned_start := page_align_down vaddr in
  let aligned_end := page_align_up (u64 (vaddr + Elf64Phdr.p_memsz ph)) in
  let aligned_size := u64 (aligned_end - aligned_start) in
  if GUEST_STACK_TOP <? aligned_end then mret (inl LoadError.SegmentOutOfRange)
  else
    try_io (GuestSpace.mmap_fixed space aligned_start aligned_size (Z.lor PROT_READ PROT_WRITE)) (λ _,
      let finish : HostM (LoadError.t + Z) :=
        let prot := elf_to_prot (Elf64Phdr.p_flags ph) in
        let done : HostM (LoadError.t + Z) :=
          let seg_end := page_align_up (u64 (vaddr + Elf64Phdr.p_memsz ph)) in
          mret (inr (if brk <? seg_end then seg_end else brk)) in
        if negb (prot =? Z.lor PROT_READ PROT_WRITE)
        then try_io (GuestSpace.mprotect space aligned_start aligned_size prot) (λ _, done)
        else done in
      if 0 <? Elf64Phdr.p_filesz ph then
        let src_off := Elf64Phdr.p_offset ph in
        let src_end := u64 (src_off + Elf64Phdr.p_filesz ph) in
        if zlen data <? src_end then mret (inl (LoadError.Elf ElfError.InvalidPhdr))
        else
          _ ← or_panic (assert! (src_off <=? src_end); Some tt);
          _ ← GuestSpace.write_bytes space vaddr (read_at data src_off (Z.to_nat (src_end - src_off)));
          finish
      else finish).

(** The break, and whether there was a segment. *)
Fixpoint load_segments (space : GuestSpace.t) (data : list Z) (phdrs : list Elf64Phdr.t) (brk : Z)
  (has_load : bool) : HostM (LoadError.t + (Z * bool)) :=
  match phdrs with
  | [] => mret (inr (brk, has_load))
  | ph :: phdrs =>
      if negb (Elf64Phdr.p_type ph =? PT_LOAD) then load_segments space data phdrs brk has_load
      else
        r ← load_segment space data ph brk;
        match r with
        | inl e => mret (inl e)
        | inr brk => load_segments space data phdrs brk true
        end
  end.

(** [file]: what [fs::read] returns, the bytes of the file or an error.  The space comes back
    with its new break. *)
Definition load_elf (file : IoResult (list Z)) (execfn : list Z) (space : GuestSpace.t)
  (argv envp : list (list Z)) : HostM (GuestSpace.t * (LoadError.t + ElfInfo.t)) :=
  match file with
  | IoErr e => mret (space, inl (LoadError.Io e))
  | IoOk data =>
  match Elf64Ehdr.from_bytes data with
  | inl e => mret (space, inl (LoadError.Elf e))
  | inr ehdr =>
  match Elf64Ehdr.validate_riscv64 ehdr with
  | inl e => mret (space, inl (LoadError.Elf e))
  | inr _ =>
  match Elf64Ehdr.program_headers ehdr data with
  | inl e => mret (space, inl (LoadError.Elf e))
  | inr phdrs =>
      let '(phdr_addr, first_load_vaddr) := find_phdr phdrs in
      let phdr_addr :=
        match first_load_vaddr with
        | Some base => if phdr_addr =? 0 then u64 (base + Elf64Ehdr.e_phoff ehdr) else phdr_addr
        | None => phdr_addr
        end in
      r ← load_segments space data phdrs 0 false;
      match r with
      | inl e => mret (space, inl e)
      | inr (brk, has_load) =>
          if negb has_load then mret (space, inl LoadError.NoLoadSegment)
          else
            let space := GuestSpace.set_brk space brk in
            r ← setup_stack space (Elf64Ehdr.e_entry ehdr) phdr_addr (Elf64Ehdr.e_phnum ehdr) argv envp execfn;
            mret (space, match r with
                         | inl e => inl e
                         | inr sp => inr (ElfInfo.mk (Elf64Ehdr.e_entry ehdr) phdr_addr
                                            (Elf64Ehdr.e_phnum ehdr) sp brk)
                         end)
      end
  end end end end.
End loader.
