(* ===== verification/LoaderSound.v ===== *)
(** * The image of a loaded program

    What [load_elf] leaves in guest memory: each segment at its address, zeros up to its size
    in memory, and a stack with the arguments, the environment and the auxiliary vector where
    the psABI says a program finds them. *)

From S2P Require Import Prelude Ir GuestSpace Elf Loader.

Section image.
Context `{LibcLaws}.
Variable space : GuestSpace.t.
Hypothesis Hsize : GuestSpace.size space = GUEST_SPACE_SIZE.
#[local] Notation base := (GuestSpace.base space).

Definition stack_base : Z := GUEST_STACK_TOP - GUEST_STACK_SIZE.

(** ** Reading guest memory *)

(** A NUL-terminated string, and consecutive little-endian words. *)
Definition cstring (m : Memory) (a : Z) (s : list Z) : Prop :=
  get_bytes m (base + a) (length s) = s ∧ m (base + a + zlen s) = 0.

Definition words (m : Memory) (a : Z) (ws : list Z) : Prop :=
  get_bytes m (base + a) (length (concat (map (le_bytes 8) ws))) = concat (map (le_bytes 8) ws).

(** The memories agree at the guest addresses of [P]. *)
Definition same_on (P : Z → Prop) (m m' : Memory) : Prop := ∀ x, P x → m' (base + x) = m (base + x).

Lemma get_bytes_same P m m' a n :
  same_on P m m' → (∀ x, a ≤ x < a + Z.of_nat n → P x) → get_bytes m' (base + a) n = get_bytes m (base + a) n.
Proof.
  intros Hs HP. apply get_bytes_ext. intros x Hx.
  replace x with (base + (x - base)) by lia. apply Hs, HP. lia.
Qed.

Lemma cstring_same P m m' a s :
  same_on P m m' → (∀ x, a ≤ x ≤ a + zlen s → P x) → cstring m a s → cstring m' a s.
Proof.
  intros Hs HP [Hb Hz]. split.
  - rewrite (get_bytes_same P m m') by (done || intros; apply HP; unfold zlen; lia). done.
  - rewrite <- Z.add_assoc, Hs, Z.add_assoc; [done|]. apply HP. pose proof (zlen_nonneg s). lia.
Qed.

Lemma same_on_put P m a bs :
  (∀ x, P x → x < a ∨ a + zlen bs ≤ x) → same_on P m (put_bytes (base + a) bs m).
Proof. intros HP x Hx. apply put_bytes_out. destruct (HP x Hx); lia. Qed.

Lemma same_on_trans (P Q R : Z → Prop) m m' m'' :
  same_on P m m' → same_on Q m' m'' → (∀ x, R x → P x ∧ Q x) → same_on R m m''.
Proof. intros H1 H2 HR x Hx. destruct (HR x Hx). by rewrite H2, H1. Qed.

(** ** Writing *)

Lemma write_bytes_run a bs h :
  a < GUEST_SPACE_SIZE →
  GuestSpace.write_bytes space a bs h =
  Some (tt, Process.mk _ (put_bytes (base + a) bs (Process.mem h)) (Process.kernel h)).
Proof.
  intros Ha. unfold GuestSpace.write_bytes, GuestSpace.g2h. rewrite Hsize, (proj2 (Z.ltb_lt _ _)) by done. done.
Qed.

Lemma write_u64_run a v h :
  a < GUEST_SPACE_SIZE →
  GuestSpace.write_u64 space a v h =
  Some (tt, Process.mk _ (put_bytes (base + a) (le_bytes 8 v) (Process.mem h)) (Process.kernel h)).
Proof.
  intros Ha. unfold GuestSpace.write_u64, GuestSpace.g2h. rewrite Hsize, (proj2 (Z.ltb_lt _ _)) by done. done.
Qed.

(** The room strings take. *)
Definition room (strs : list (list Z)) : Z := foldr (λ s n, zlen s + 1 + n) 0 strs.

Lemma room_nonneg strs : 0 ≤ room strs.
Proof. induction strs as [|s strs IH]; cbn [room foldr]; [done|]. pose proof (zlen_nonneg s). unfold room in IH. lia. Qed.

Lemma push_strings_spec strs pos addrs h :
  stack_base + room strs ≤ pos → pos ≤ GUEST_STACK_TOP →
  (∀ x, stack_base ≤ x < pos → Process.mem h (base + x) = 0) →
  ∃ new m',
    push_strings space strs pos addrs h = Some ((pos - room strs, addrs ++ new), Process.mk _ m' (Process.kernel h)) ∧
    Forall2 (λ a s, cstring m' a s ∧ pos - room strs ≤ a ∧ a + zlen s < pos) new strs ∧
    same_on (λ x, x < pos - room strs ∨ pos ≤ x) (Process.mem h) m'.
Proof.
  revert pos addrs h. induction strs as [|s strs IH]; intros pos addrs h Hlo Hhi Hz; cbn [push_strings room foldr] in *.
  { exists [], (Process.mem h). rewrite Z.sub_0_r, app_nil_r. destruct h. split_and!; [done..|]. by intros x _. }
  fold (room strs) in *. pose proof (room_nonneg strs). pose proof (zlen_nonneg s).
  unfold stack_base, GUEST_STACK_TOP, GUEST_STACK_SIZE in *.
  rewrite u64_small by lia. unfold mbind, host_bind at 1.
  rewrite write_bytes_run by (unfold GUEST_SPACE_SIZE; change (Z.shiftl 1 30) with (2 ^ 30); lia).
  cbn [mbind option_bind]. set (p := pos - (zlen s + 1)).
  set (h1 := Process.mk _ (put_bytes (base + p) s (Process.mem h)) (Process.kernel h)).
  destruct (IH p (addrs ++ [p]) h1) as (new & m' & Hrun & Hstr & Hsame); [unfold p; lia|unfold p; lia| |].
  { intros x Hx. cbn [h1 Process.mem]. rewrite put_bytes_out by lia. apply Hz. unfold p in Hx. lia. }
  exists (p :: new), m'. rewrite Hrun. split; [|split].
  - rewrite <- app_assoc. cbn [app h1 Process.kernel]. do 3 f_equal. unfold p. lia.
  - constructor; [split; [|unfold p; lia]|].
    + apply (cstring_same _ _ m' p s Hsame); [intros x Hx; right; lia|]. split.
      * cbn [h1 Process.mem]. apply get_put_same.
      * cbn [h1 Process.mem]. rewrite put_bytes_out by lia. rewrite <- Z.add_assoc. apply Hz. unfold p. lia.
    + eapply Forall2_impl; [exact Hstr|]. intros a t (Hc & ? & ?). unfold p in *. split; [done|lia].
  - eapply same_on_trans; [apply (same_on_put (λ x, x < p ∨ pos ≤ x))|exact Hsame|]; cbn beta; unfold p; intros; lia.
Qed.

Lemma length_words ws : length (concat (map (le_bytes 8) ws)) = (8 * length ws)%nat.
Proof. induction ws as [|w ws IH]; [done|]. cbn [map concat]. rewrite length_app, le_bytes_length, IH. cbn [length]. lia. Qed.

Lemma push_words_spec ws cur h :
  0 ≤ cur → cur + 8 * zlen ws ≤ GUEST_STACK_TOP →
  ∃ m', push_words space ws cur h = Some (cur + 8 * zlen ws, Process.mk _ m' (Process.kernel h)) ∧
    words m' cur ws ∧ same_on (λ x, x < cur ∨ cur + 8 * zlen ws ≤ x) (Process.mem h) m'.
Proof.
  revert cur h. induction ws as [|w ws IH]; intros cur h Hlo Hhi; cbn [push_words].
  { exists (Process.mem h). destruct h. change (zlen []) with 0. rewrite Z.add_0_r. split_and!; [done..|]. by intros x _. }
  assert (zlen (w :: ws) = 1 + zlen ws) as Hl by (unfold zlen; cbn [length]; lia). rewrite Hl in *.
  pose proof (zlen_nonneg ws). unfold GUEST_STACK_TOP in *.
  unfold mbind, host_bind at 1.
  rewrite write_u64_run by (unfold GUEST_SPACE_SIZE; change (Z.shiftl 1 30) with (2 ^ 30); lia).
  cbn [mbind option_bind]. rewrite u64_small by lia.
  set (h1 := Process.mk _ (put_bytes (base + cur) (le_bytes 8 w) (Process.mem h)) (Process.kernel h)).
  destruct (IH (cur + 8) h1) as (m' & Hrun & Hw & Hsame); [lia|lia|].
  exists m'. rewrite Hrun. cbn [h1 Process.kernel Process.mem] in *. assert (zlen (le_bytes 8 w) = 8) as H8 by done.
  split; [|split].
  - do 2 f_equal. lia.
  - unfold words in *. cbn [map concat]. rewrite length_app.
    unfold get_bytes in *. rewrite seq_app, map_app. f_equal.
    + change (get_bytes m' (base + cur) (length (le_bytes 8 w)) = le_bytes 8 w).
      erewrite get_bytes_same; [apply get_put_same|exact Hsame|]. intros x Hx. rewrite le_bytes_length in Hx. left. lia.
    + rewrite <- Hw at 2. rewrite <- (Nat.add_0_r (0 + _)) at 1.
      rewrite <- (fmap_add_seq (0 + length (le_bytes 8 w)) 0), map_map. apply map_ext. intros i.
      rewrite le_bytes_length. f_equal. lia.
  - eapply same_on_trans; [apply (same_on_put (λ x, x < cur ∨ cur + 8 ≤ x))|exact Hsame|]; rewrite ?H8; cbn beta; intros; lia.
Qed.

(** ** The frame *)

Lemma push_words_app a b cur h :
  push_words space (a ++ b) cur h = ('(c, h) ← push_words space a cur h; push_words space b c h).
Proof.
  revert cur h. induction a as [|w a IH]; intros cur h; [done|]. cbn [app push_words].
  unfold mbind, host_bind. destruct (GuestSpace.write_u64 space cur w h) as [[[] h']|]; [|done].
  cbn [option_bind]. apply IH.
Qed.

Definition flat_auxv (l : list (Z * Z)) : list Z := concat (map (λ '(t, v), [t; v]) l).

Lemma push_auxv_words l cur h : push_auxv space l cur h = push_words space (flat_auxv l) cur h.
Proof.
  revert cur h. induction l as [|[t v] l IH]; intros cur h; [done|].
  unfold flat_auxv. cbn [map concat app push_auxv push_words]. rewrite !bind_run.
  destruct (GuestSpace.write_u64 space cur t h) as [[[] h1]|]; [|done]. cbn [mbind option_bind].
  rewrite !bind_run. destruct (GuestSpace.write_u64 space (u64 (cur + 8)) v h1) as [[[] h2]|]; [|done].
  cbn [mbind option_bind]. rewrite IH. f_equal. unfold u64. rewrite Z.add_mod_idemp_l by done. f_equal. lia.
Qed.

Definition frame (argv_addrs envp_addrs : list Z) (auxv : list (Z * Z)) : list Z :=
  zlen argv_addrs :: argv_addrs ++ 0 :: envp_addrs ++ 0 :: flat_auxv auxv.

(** The words of the frame, written one after the other. *)
Lemma frame_run argc argv_addrs envp_addrs auxv sp h :
  argc = zlen argv_addrs →
  ((_ ← GuestSpace.write_u64 space sp argc;
    cur ← push_words space argv_addrs (u64 (sp + 8));
    _ ← GuestSpace.write_u64 space cur 0;
    cur ← push_words space envp_addrs (u64 (cur + 8));
    _ ← GuestSpace.write_u64 space cur 0;
    _ ← push_auxv space auxv (u64 (cur + 8));
    mret (inr sp)) : HostM (LoadError.t + Z)) h =
  ('(_, h) ← push_words space (frame argv_addrs envp_addrs auxv) sp h; Some (inr sp, h)).
Proof.
  intros ->. unfold frame. cbn [push_words]. rewrite !bind_run.
  destruct (GuestSpace.write_u64 space sp _ h) as [[[] h1]|]; [|done]. cbn [mbind option_bind].
  rewrite push_words_app, bind_run. destruct (push_words space argv_addrs _ h1) as [[c2 h2]|]; [|done].
  cbn [mbind option_bind push_words]. rewrite !bind_run.
  destruct (GuestSpace.write_u64 space c2 0 h2) as [[[] h3]|]; [|done]. cbn [mbind option_bind].
  rewrite push_words_app, bind_run. destruct (push_words space envp_addrs _ h3) as [[c4 h4]|]; [|done].
  cbn [mbind option_bind push_words]. rewrite !bind_run.
  destruct (GuestSpace.write_u64 space c4 0 h4) as [[[] h5]|]; [|done]. cbn [mbind option_bind].
  rewrite bind_run, push_auxv_words. by destruct (push_words space (flat_auxv auxv) _ h5) as [[c6 h6]|].
Qed.

(** ** The stack *)

(** What a program finds at its stack pointer. *)
Record initial_stack (m : Memory) (sp : Z) (argv envp : list (list Z)) (execfn : list Z)
  (entry phdr phnum : Z) : Prop := {
  stack_aligned : sp mod 16 = 0;
  stack_inside : stack_base ≤ sp < GUEST_STACK_TOP;
  stack_frame : ∃ argv_addrs envp_addrs random_addr execfn_addr,
    words m sp (frame argv_addrs envp_addrs (stack_auxv entry phdr phnum random_addr execfn_addr)) ∧
    Forall2 (cstring m) argv_addrs argv ∧ Forall2 (cstring m) envp_addrs envp ∧
    cstring m execfn_addr execfn ∧ get_bytes m (base + random_addr) 16 = random_data ∧
    Forall (λ a, sp < a < GUEST_STACK_TOP) (random_addr :: execfn_addr :: argv_addrs ++ envp_addrs)
}.

(** The bytes of the strings and of the frame. *)
Definition stack_need (argv envp : list (list Z)) (execfn : list Z) : Z :=
  16 + (zlen execfn + 1) + room envp + room argv + 8 * (3 + zlen argv + zlen envp + 16) + 32.

Lemma align16_spec x : in_width 64 x → x - 15 ≤ align16 x ≤ x ∧ align16 x mod 16 = 0.
Proof.
  intros Hx.
  assert (align16 x = x / 16 * 16) as -> by exact (land_not_u64 x 4 ltac:(lia) Hx).
  pose proof (Z.div_mod x 16 ltac:(lia)). pose proof (Z.mod_pos_bound x 16 ltac:(lia)).
  split; [lia|by apply Z.mod_mul].
Qed.

(** The pages of a mapping whose size is a number of pages. *)
Lemma page_align_up_id x : 0 ≤ x ≤ 2 ^ 63 → x mod 2 ^ 16 = 0 → page_align_up x = x.
Proof.
  intros Hx Hm. destruct page_size_pow2 as (k & Hk & Hp).
  destruct (page_align_up_spec x Hx) as [Hr Hmod]. rewrite Hp in *. pose proof (pow2_pos k ltac:(lia)).
  assert (x mod 2 ^ k = 0) as Hxk.
  { apply Z.mod_divide; [lia|]. apply Z.mod_divide in Hm; [|lia].
    eapply Z.divide_trans; [|exact Hm]. exists (2 ^ (16 - k)). rewrite <- Z.pow_add_r by lia.
    apply (f_equal (Z.pow 2)). lia. }
  apply Z.mod_divide in Hmod as [a Ha]; [|lia]. apply Z.mod_divide in Hxk as [b Hb]; [|lia].
  rewrite Ha, Hb in *. f_equal. nia.
Qed.

(** A call of the C library that left the kernel in the state [k'] and failed: an anonymous
    mapping at a guest address, a change of protection. *)
Definition mmap_failed (a n prot : Z) (k' : Kernel) : Prop :=
  ∃ k m m', libc_mmap k m (base + a) n prot (Z.lor (Z.lor MAP_PRIVATE MAP_ANONYMOUS) MAP_FIXED) = (MAP_FAILED, m', k').

Definition mprotect_failed (a n prot : Z) (k' : Kernel) : Prop :=
  ∃ k ret, libc_mprotect k (base + a) n prot = (ret, k') ∧ ret ≠ 0.

Definition stack_failed : Kernel → Prop := mmap_failed stack_base GUEST_STACK_SIZE (Z.lor PROT_READ PROT_WRITE).

Lemma mmap_run a n prot h :
  a < GUEST_SPACE_SIZE →
  ∃ r m' k',
    GuestSpace.mmap_fixed space a n prot h = Some (r, Process.mk _ m' k') ∧
    (r = IoErr (errno k') ∧ mmap_failed a n prot k' ∨
     r = IoOk tt ∧
     (∀ x, m' (base + x) = if (a <=? x) && (x <? a + page_align_up n) then 0 else Process.mem h (base + x))).
Proof.
  intros Ha. unfold GuestSpace.mmap_fixed, GuestSpace.g2h. rewrite Hsize, (proj2 (Z.ltb_lt _ _)) by done.
  unfold mbind, host_bind at 1. unfold or_panic. cbn [mbind option_bind]. unfold host_call.
  pose proof (mmap_fixed_zeroes (Process.kernel h) (Process.mem h) (base + a) n prot) as Hm.
  destruct (libc_mmap _ _ _ _ _ _) as [[ret m'] k'] eqn:El. destruct (ret =? MAP_FAILED) eqn:E; boolp; [subst ret|].
  - exists (IoErr (errno k')), m', k'. split; [done|]. left. split; [done|]. do 3 eexists. eassumption.
  - exists (IoOk tt), m', k'. split; [done|]. right. split; [done|]. intros x.
    destruct (Hm E) as [_ ->].
    destruct (a <=? x) eqn:E1, (x <? a + page_align_up n) eqn:E2; boolp; cbn [andb];
      destruct (base + a <=? base + x) eqn:E3, (base + x <? base + a + page_align_up n) eqn:E4;
      boolp; cbn [andb]; try done; lia.
Qed.

Lemma reverse_Forall2 {A B} (P : A → B → Prop) l k : Forall2 P l (reverse k) → Forall2 P (reverse l) k.
Proof. intros Hl. rewrite <- (reverse_involutive k). by apply Forall2_reverse. Qed.

Lemma Forall2_left {A B} (R : A → B → Prop) (P : A → Prop) l k :
  Forall2 R l k → (∀ a b, R a b → P a) → Forall P l.
Proof. intros Hl HP. induction Hl; constructor; eauto. Qed.

Lemma room_app a b : room (a ++ b) = room a + room b.
Proof. induction a as [|s a IH]; [done|]. unfold room in *. cbn [app foldr]. rewrite IH. lia. Qed.

Lemma room_reverse l : room (reverse l) = room l.
Proof.
  induction l as [|s l IH]; [done|]. rewrite reverse_cons, room_app, IH. unfold room. cbn [foldr]. lia.
Qed.

Lemma setup_stack_spec entry phdr phnum argv envp execfn h :
  stack_need argv envp execfn ≤ GUEST_STACK_SIZE →
  ∃ r m' k',
    setup_stack space entry phdr phnum argv envp execfn h = Some (r, Process.mk _ m' k') ∧
    (r = inl (LoadError.Io (errno k')) ∧ stack_failed k' ∨
     ∃ sp, r = inr sp ∧ initial_stack m' sp argv envp execfn entry phdr phnum ∧
       same_on (λ x, x < stack_base ∨ GUEST_STACK_TOP ≤ x) (Process.mem h) m').
Proof.
  intros Hneed. unfold stack_need in Hneed. unfold setup_stack, try_io.
  fold stack_base.
  destruct (mmap_run stack_base GUEST_STACK_SIZE (Z.lor PROT_READ PROT_WRITE) h) as (r & m1 & k1 & Hrun & Hr);
    [reflexivity|].
  rewrite bind_run, Hrun. cbn [mbind option_bind].
  destruct Hr as [[-> Hfail]|[-> Hm1]].
  { do 3 eexists. split; [reflexivity|]. by left. }
  rewrite page_align_up_id in Hm1 by done.
  pose proof (room_nonneg envp). pose proof (room_nonneg argv). pose proof (zlen_nonneg execfn).
  pose proof (zlen_nonneg argv). pose proof (zlen_nonneg envp).
  assert (∀ a, a < GUEST_STACK_TOP → a < GUEST_SPACE_SIZE) as Hin
    by (intros a Ha; unfold GUEST_STACK_TOP, GUEST_SPACE_SIZE in *; change (Z.shiftl 1 30) with (2 ^ 30); lia).
  assert (stack_base = GUEST_STACK_TOP - GUEST_STACK_SIZE) as Hsb by done.
  assert (GUEST_STACK_TOP = 0x3FFF0000) as Htop by done.
  assert (GUEST_STACK_SIZE = 8388608) as Hsz by done.
  (* the random bytes and the name of the program *)
  rewrite (u64_small (GUEST_STACK_TOP - 16)) by lia. set (ra := GUEST_STACK_TOP - 16).
  rewrite !bind_run, write_bytes_run by (apply Hin; unfold ra; lia). cbn [mbind option_bind].
  rewrite (u64_small (ra - _)) by (unfold ra; lia). set (ea := ra - (zlen execfn + 1)).
  rewrite !bind_run, write_bytes_run by (apply Hin; unfold ea, ra; lia). cbn [mbind option_bind Process.mem Process.kernel].
  set (m3 := put_bytes (base + ea) execfn (put_bytes (base + ra) random_data m1)).
  assert (zlen random_data = 16) as H16 by done.
  assert (∀ x, stack_base ≤ x < ea → m3 (base + x) = 0) as Hz3.
  { intros x Hx. unfold m3. rewrite !put_bytes_out by (unfold ea, ra in *; lia). rewrite Hm1.
    rewrite (proj2 (Z.leb_le _ _)), (proj2 (Z.ltb_lt _ _)) by (unfold ea, ra in *; lia). done. }
  assert (cstring m3 ea execfn) as Hexec.
  { split; [apply get_put_same|]. unfold m3. rewrite put_bytes_out by lia.
    rewrite put_bytes_out by (unfold ea, ra in *; lia). rewrite <- Z.add_assoc, Hm1.
    rewrite (proj2 (Z.leb_le _ _)), (proj2 (Z.ltb_lt _ _)) by (unfold ea, ra in *; lia). done. }
  assert (get_bytes m3 (base + ra) 16 = random_data) as Hrandom.
  { rewrite <- (get_put_same (base + ra) random_data m1). apply get_bytes_ext. intros x Hx.
    unfold m3. apply put_bytes_out. unfold ea, ra in *. lia. }
  (* the strings *)
  destruct (push_strings_spec (reverse envp) ea [] (Process.mk _ m3 k1)) as (en & m4 & Hr4 & Hs4 & Hm4);
    [rewrite room_reverse; unfold ea, ra; lia|unfold ea, ra; lia|done|].
  rewrite bind_run, Hr4. cbn [mbind option_bind]. rewrite room_reverse in *.
  destruct (push_strings_spec (reverse argv) (ea - room envp) [] (Process.mk _ m4 k1)) as (an & m5 & Hr5 & Hs5 & Hm5);
    [rewrite room_reverse; unfold ea, ra; lia|unfold ea, ra; lia| |].
  { intros x Hx. cbn [Process.mem]. rewrite Hm4 by lia. apply Hz3. lia. }
  cbn [Process.mem Process.kernel app] in *. rewrite bind_run, Hr5. cbn [mbind option_bind]. rewrite room_reverse in *.
  set (p5 := ea - room envp - room argv) in *.
  destruct (align16_spec p5) as [Hp5 _]; [unfold in_width, p5, ea, ra; lia|].
  set (auxv := stack_auxv entry phdr phnum ra ea). assert (zlen auxv = 8) as Haux by done. rewrite Haux.
  set (need := 1 + zlen argv + 1 + zlen envp + 1 + 8 * 2).
  rewrite (u64_small (align16 p5 - need * 8)) by (unfold need, p5, ea, ra in *; lia).
  destruct (align16_spec (align16 p5 - need * 8)) as [Hsp Hal]; [unfold in_width, need, p5, ea, ra in *; lia|].
  set (sp := align16 (align16 p5 - need * 8)) in *.
  (* the frame *)
  assert (zlen (reverse an) = zlen argv) as Hla.
  { apply reverse_Forall2, Forall2_length in Hs5. unfold zlen. by rewrite Hs5. }
  assert (zlen (reverse en) = zlen envp) as Hle.
  { apply reverse_Forall2, Forall2_length in Hs4. unfold zlen. by rewrite Hs4. }
  rewrite (frame_run (zlen argv)) by done.
  assert (zlen (frame (reverse an) (reverse en) auxv) = need) as Hlf.
  { unfold frame, need. rewrite <- Hla, <- Hle. unfold zlen. cbn [length]. rewrite !length_app. cbn [length].
    rewrite length_app. cbn. lia. }
  destruct (push_words_spec (frame (reverse an) (reverse en) auxv) sp (Process.mk _ m5 k1)) as (m6 & Hr6 & Hw6 & Hm6);
    [unfold need, p5, ea, ra in *; lia|rewrite Hlf; unfold need, p5, ea, ra in *; lia|].
  rewrite Hr6. cbn [mbind option_bind Process.mem Process.kernel]. rewrite Hlf in *.
  do 3 eexists. split; [reflexivity|]. right. exists sp. split; [done|].
  assert (same_on (λ x, p5 ≤ x) m5 m6) as H56 by (intros x Hx; apply Hm6; right; lia).
  assert (same_on (λ x, ea - room envp ≤ x) m4 m6) as H46.
  { intros x Hx. rewrite H56, Hm5 by (unfold p5; lia). done. }
  assert (same_on (λ x, ea ≤ x) m3 m6) as H36.
  { intros x Hx. rewrite H46, Hm4 by lia. done. }
  split.
  - split; [done|unfold need, p5, ea, ra in *; lia|].
    exists (reverse an), (reverse en), ra, ea. split_and!.
    + exact Hw6.
    + apply reverse_Forall2. eapply Forall2_impl; [exact Hs5|]. intros a s (Hc & ? & ?).
      apply (cstring_same _ _ _ _ _ H56); [|done]. intros x Hx. lia.
    + apply reverse_Forall2. eapply Forall2_impl; [exact Hs4|]. intros a s (Hc & ? & ?).
      apply (cstring_same _ _ _ _ _ H46); [|done]. intros x Hx. lia.
    + apply (cstring_same _ _ _ _ _ H36); [|done]. intros x Hx. lia.
    + rewrite (get_bytes_same _ _ _ _ _ H36); [done|]. intros x Hx. unfold ea. lia.
    + apply Forall_cons. split; [unfold need, p5, ea, ra in *; lia|].
      apply Forall_cons. split; [unfold need, p5, ea, ra in *; lia|].
      apply Forall_app. split; apply Forall_reverse.
      * eapply Forall2_left; [exact Hs5|]. intros a s (_ & ? & ?). pose proof (zlen_nonneg s).
        unfold need, p5, ea, ra in *. lia.
      * eapply Forall2_left; [exact Hs4|]. intros a s (_ & ? & ?). pose proof (zlen_nonneg s).
        unfold need, p5, ea, ra in *. lia.
  - intros x Hx. rewrite Hm6 by (unfold need, p5, ea, ra in *; lia). rewrite Hm5 by (unfold p5, ea, ra in *; lia).
    rewrite Hm4 by (unfold ea, ra in *; lia). unfold m3. rewrite !put_bytes_out by (unfold ea, ra in *; lia).
    rewrite Hm1. destruct (stack_base <=? x) eqn:E1, (x <? stack_base + GUEST_STACK_SIZE) eqn:E2; boolp; cbn [andb]; try done; lia.
Qed.

(** ** Segments *)

Definition is_load (ph : Elf64Phdr.t) : bool := Elf64Phdr.p_type ph =? PT_LOAD.

(** The pages of a segment. *)
Definition seg_start (ph : Elf64Phdr.t) : Z := page_align_down (Elf64Phdr.p_vaddr ph).
Definition seg_end (ph : Elf64Phdr.t) : Z := page_align_up (Elf64Phdr.p_vaddr ph + Elf64Phdr.p_memsz ph).

(** A segment as linkers make them: its bytes are in the file, not more than its memory, and its
    pages are below the stack. *)
Record seg_ok (data : list Z) (ph : Elf64Phdr.t) : Prop := {
  seg_file : 0 ≤ Elf64Phdr.p_filesz ph ≤ Elf64Phdr.p_memsz ph;
  seg_offset : 0 ≤ Elf64Phdr.p_offset ph ∧ Elf64Phdr.p_offset ph + Elf64Phdr.p_filesz ph ≤ zlen data;
  seg_vaddr : 0 ≤ Elf64Phdr.p_vaddr ph ∧ Elf64Phdr.p_vaddr ph + Elf64Phdr.p_memsz ph ≤ stack_base
}.

(** No page is in two segments. *)
Fixpoint disjoint_pages (phs : list Elf64Phdr.t) : Prop :=
  match phs with
  | [] => True
  | ph :: phs =>
      (is_load ph = true → ∀ q, q ∈ phs → is_load q = true →
         seg_end ph ≤ seg_start q ∨ seg_end q ≤ seg_start ph) ∧ disjoint_pages phs
  end.

(** A segment in memory: its bytes, then zeros. *)
Definition placed (m : Memory) (data : list Z) (ph : Elf64Phdr.t) : Prop :=
  ∀ i, 0 ≤ i < Elf64Phdr.p_memsz ph →
    Some (m (base + (Elf64Phdr.p_vaddr ph + i))) =
    if i <? Elf64Phdr.p_filesz ph then data.[Elf64Phdr.p_offset ph + i] else Some 0.

Lemma seg_pages data ph :
  seg_ok data ph →
  0 ≤ seg_start ph ≤ Elf64Phdr.p_vaddr ph ∧
  Elf64Phdr.p_vaddr ph + Elf64Phdr.p_memsz ph ≤ seg_end ph ≤ stack_base.
Proof.
  intros [Hf Ho Hv]. unfold seg_start, seg_end, stack_base, GUEST_STACK_TOP, GUEST_STACK_SIZE in *.
  destruct (page_align_down_spec (Elf64Phdr.p_vaddr ph)) as (Hd & _ & Hd0); [unfold in_width; lia|].
  destruct (page_align_up_spec (Elf64Phdr.p_vaddr ph + Elf64Phdr.p_memsz ph)) as [Hu Hm]; [lia|].
  split; [lia|]. split; [lia|].
  (* the stack starts at a page *)
  destruct page_size_pow2 as (k & Hk & Hp). rewrite Hp in *. pose proof (pow2_pos k ltac:(lia)).
  apply Z.mod_divide in Hm as [a Ha]; [|lia]. rewrite Ha in *.
  assert (1073676288 - 8 * 1024 * 1024 = 2 ^ (16 - k) * 16255 * 2 ^ k) as Hs.
  { transitivity (2 ^ (16 - k + k) * 16255); [by replace (16 - k + k) with 16 by lia|].
    rewrite Z.pow_add_r by lia. ring. }
  revert Hs. generalize (2 ^ (16 - k) * 16255). intros n Hs.
  assert (a < n + 1); nia.
Qed.

(** The size of a mapping is a number of pages. *)
Lemma seg_size data ph :
  seg_ok data ph → page_align_up (seg_end ph - seg_start ph) = seg_end ph - seg_start ph.
Proof.
  intros Hok. pose proof (seg_pages data ph Hok) as Hp. destruct Hok as [Hf Ho Hv].
  unfold stack_base, GUEST_STACK_TOP, GUEST_STACK_SIZE in *.
  destruct (page_align_down_spec (Elf64Phdr.p_vaddr ph)) as (_ & Hd & _); [unfold in_width; lia|].
  destruct (page_align_up_spec (Elf64Phdr.p_vaddr ph + Elf64Phdr.p_memsz ph)) as [_ Hu]; [lia|].
  fold (seg_start ph) in Hd. fold (seg_end ph) in Hu.
  destruct (page_align_up_spec (seg_end ph - seg_start ph)) as [Hr Hm]; [lia|].
  destruct page_size_pow2 as (k & Hk & Hps). rewrite Hps in *. pose proof (pow2_pos k ltac:(lia)).
  apply Z.mod_divide in Hm as [a Ha]; [|lia]. apply Z.mod_divide in Hd as [b Hb]; [|lia].
  apply Z.mod_divide in Hu as [c Hc]; [|lia]. rewrite Ha, Hb, Hc in *.
  assert (c - b ≤ a) by nia. assert (a < c - b + 1) by nia. replace a with (c - b) by lia. ring.
Qed.

(** A call for a segment that failed. *)
Definition segment_failed (ph : Elf64Phdr.t) (k' : Kernel) : Prop :=
  mmap_failed (seg_start ph) (seg_end ph - seg_start ph) (Z.lor PROT_READ PROT_WRITE) k' ∨
  mprotect_failed (seg_start ph) (seg_end ph - seg_start ph) (elf_to_prot (Elf64Phdr.p_flags ph)) k'.

(** The segment has the protection its flags ask for: that of its mapping, or that of a call that succeeded. *)
Definition protected (ph : Elf64Phdr.t) : Prop :=
  elf_to_prot (Elf64Phdr.p_flags ph) = Z.lor PROT_READ PROT_WRITE ∨
  ∃ k k', libc_mprotect k (base + seg_start ph) (seg_end ph - seg_start ph) (elf_to_prot (Elf64Phdr.p_flags ph)) = (0, k').

Lemma load_segment_spec data ph brk h :
  is_load ph = true → seg_ok data ph → zlen data < 2 ^ 63 →
  ∃ r m' k',
    load_segment space data ph brk h = Some (r, Process.mk _ m' k') ∧
    (r = inl (LoadError.Io (errno k')) ∧ segment_failed ph k' ∨
     r = inr (Z.max brk (seg_end ph)) ∧ placed m' data ph ∧ protected ph ∧
     same_on (λ x, x < seg_start ph ∨ seg_end ph ≤ x) (Process.mem h) m').
Proof.
  intros Hl Hok Hdata. pose proof (seg_pages data ph Hok) as Hp. pose proof (seg_size data ph Hok) as Hs.
  destruct Hok as [Hf Ho Hv]. unfold load_segment, try_io.
  assert (stack_base < GUEST_STACK_TOP) by done.
  assert (stack_base < 2 ^ 31) by done. assert (GUEST_STACK_TOP < GUEST_SPACE_SIZE) by done.
  rewrite (u64_small (Elf64Phdr.p_vaddr ph + Elf64Phdr.p_memsz ph)) by lia.
  fold (seg_start ph) (seg_end ph). rewrite (u64_small (seg_end ph - seg_start ph)) by lia.
  rewrite (proj2 (Z.ltb_ge _ _)) by lia.
  destruct (mmap_run (seg_start ph) (seg_end ph - seg_start ph) (Z.lor PROT_READ PROT_WRITE) h)
    as (r & m1 & k1 & Hrun & Hr); [lia|].
  rewrite bind_run, Hrun. cbn [mbind option_bind].
  destruct Hr as [[-> Hfail]|[-> Hm1]]; [do 3 eexists; split; [reflexivity|by left; split; [|left]]|].
  rewrite Hs in Hm1. replace (seg_start ph + (seg_end ph - seg_start ph)) with (seg_end ph) in Hm1 by lia.
  (* the last steps leave memory alone *)
  set (fin := λ h : Process.t,
    (if negb (elf_to_prot (Elf64Phdr.p_flags ph) =? Z.lor PROT_READ PROT_WRITE)
     then try_io (GuestSpace.mprotect space (seg_start ph) (seg_end ph - seg_start ph) (elf_to_prot (Elf64Phdr.p_flags ph)))
            (λ _, mret (inr (if brk <? seg_end ph then seg_end ph else brk)))
     else mret (inr (if brk <? seg_end ph then seg_end ph else brk))) h).
  assert (∀ m k, ∃ r k', fin (Process.mk _ m k) = Some (r, Process.mk _ m k') ∧
            (r = inl (LoadError.Io (errno k')) ∧ segment_failed ph k' ∨
             r = inr (Z.max brk (seg_end ph)) ∧ protected ph)) as Hfin.
  { intros m k. unfold fin.
    assert ((if brk <? seg_end ph then seg_end ph else brk) = Z.max brk (seg_end ph)) as ->
      by (destruct (brk <? seg_end ph) eqn:E; boolp; lia).
    destruct (_ =? _) eqn:Ep; cbn [negb]; boolp; [do 2 eexists; split; [reflexivity|right; split; [done|by left]]|].
    unfold try_io. rewrite bind_run. unfold GuestSpace.mprotect, GuestSpace.g2h.
    rewrite Hsize, (proj2 (Z.ltb_lt _ _)) by lia. rewrite bind_run. unfold or_panic. cbn [mbind option_bind].
    unfold host_call. destruct (libc_mprotect _ _ _ _) as [ret k2] eqn:El.
    destruct (ret =? 0) eqn:Er; cbn [negb mbind option_bind]; boolp.
    - do 2 eexists. split; [reflexivity|right]. split; [done|right]. subst ret. by eexists _, _.
    - do 2 eexists. split; [reflexivity|left]. split; [done|]. right. by eexists _, ret. }
  assert (∀ m, (∀ x, m (base + x) = m1 (base + x) ∨ seg_start ph ≤ x < seg_end ph) →
            same_on (λ x, x < seg_start ph ∨ seg_end ph ≤ x) (Process.mem h) m) as Hout.
  { intros m Hm x Hx. destruct (Hm x) as [->|]; [|lia]. rewrite Hm1.
    destruct (seg_start ph <=? x) eqn:E1, (x <? seg_end ph) eqn:E2; boolp; cbn [andb]; try done; lia. }
  destruct (0 <? Elf64Phdr.p_filesz ph) eqn:Efs; boolp.
  - rewrite (u64_small (Elf64Phdr.p_offset ph + Elf64Phdr.p_filesz ph)) by lia.
    rewrite (proj2 (Z.ltb_ge _ _)) by lia. rewrite !bind_run. unfold or_panic at 1.
    rewrite (proj2 (Z.leb_le _ _)) by lia. cbn [mbind option_bind].
    rewrite bind_run, write_bytes_run by lia. cbn [mbind option_bind Process.mem Process.kernel].
    replace (Elf64Phdr.p_offset ph + Elf64Phdr.p_filesz ph - Elf64Phdr.p_offset ph) with (Elf64Phdr.p_filesz ph) by lia.
    set (bs := read_at data (Elf64Phdr.p_offset ph) (Z.to_nat (Elf64Phdr.p_filesz ph))).
    assert (zlen bs = Elf64Phdr.p_filesz ph) as Hbs.
    { unfold bs, read_at, zlen in *. rewrite length_take, length_drop. lia. }
    set (m2 := put_bytes (base + Elf64Phdr.p_vaddr ph) bs m1).
    destruct (Hfin m2 k1) as (r & k' & Hrf & Hr). exists r, m2, k'. split; [exact Hrf|].
    destruct Hr as [Hr|[Hr Hprot]]; [by left|right]. split; [done|]. split; [|split; [done|]].
    + intros i Hi. destruct (i <? Elf64Phdr.p_filesz ph) eqn:Ei; boolp.
      * unfold m2. rewrite put_bytes_in by lia.
        replace (base + (Elf64Phdr.p_vaddr ph + i) - (base + Elf64Phdr.p_vaddr ph)) with i by lia.
        unfold bs, read_at. rewrite !zlookup_nat by lia. rewrite lookup_take_lt, lookup_drop by lia. f_equal. lia.
      * unfold m2. rewrite put_bytes_out by lia. rewrite Hm1.
        by rewrite (proj2 (Z.leb_le _ _)), (proj2 (Z.ltb_lt _ _)) by lia.
    + apply Hout. intros x. unfold m2.
      destruct (decide (Elf64Phdr.p_vaddr ph ≤ x < Elf64Phdr.p_vaddr ph + zlen bs)); [right; lia|left].
      apply put_bytes_out. lia.
  - destruct (Hfin m1 k1) as (r & k' & Hrf & Hr). exists r, m1, k'. split; [exact Hrf|].
    destruct Hr as [Hr|[Hr Hprot]]; [by left|right]. split; [done|]. split; [|split; [done|apply Hout; intros x; by left]].
    intros i Hi. rewrite (proj2 (Z.ltb_ge _ _)) by lia. rewrite Hm1.
    by rewrite (proj2 (Z.leb_le _ _)), (proj2 (Z.ltb_lt _ _)) by lia.
Qed.

Lemma placed_same P m m' data ph :
  same_on P m m' → (∀ x, Elf64Phdr.p_vaddr ph ≤ x < Elf64Phdr.p_vaddr ph + Elf64Phdr.p_memsz ph → P x) →
  placed m data ph → placed m' data ph.
Proof. intros Hs HP Hpl i Hi. rewrite Hs by (apply HP; lia). by apply Hpl. Qed.

Lemma load_segments_spec data phs brk has h :
  Forall (λ ph, is_load ph = true → seg_ok data ph) phs → disjoint_pages phs → zlen data < 2 ^ 63 →
  ∃ r m' k',
    load_segments space data phs brk has h = Some (r, Process.mk _ m' k') ∧
    (r = inl (LoadError.Io (errno k')) ∧ (∃ ph, ph ∈ phs ∧ is_load ph = true ∧ segment_failed ph k') ∨
     r = inr (foldl Z.max brk (map seg_end (filter (λ ph, is_load ph = true) phs)),
              has || existsb is_load phs) ∧
     (∀ ph, ph ∈ phs → is_load ph = true → placed m' data ph ∧ protected ph) ∧
     same_on (λ x, ∀ ph, ph ∈ phs → is_load ph = true → x < seg_start ph ∨ seg_end ph ≤ x) (Process.mem h) m').
Proof.
  revert brk has h. induction phs as [|ph phs IH]; intros brk has h Hok Hdis Hdata; cbn [load_segments].
  { destruct h as [m k]. do 3 eexists. split; [reflexivity|]. right. rewrite orb_false_r. split; [done|].
    split; [by intros ? ?%elem_of_nil|by intros x _]. }
  apply Forall_cons in Hok as [Hph Hok]. cbn [disjoint_pages] in Hdis. destruct Hdis as [Hd Hdis].
  fold (is_load ph). rewrite filter_cons. cbn [existsb]. destruct (is_load ph) eqn:El; cbn [negb orb].
  - rewrite decide_True by done. cbn [map foldl]. rewrite orb_true_r.
    destruct (load_segment_spec data ph brk h El (Hph eq_refl) Hdata) as (r & m1 & k1 & Hrun & Hr).
    rewrite bind_run, Hrun. cbn [mbind option_bind].
    destruct Hr as [[-> Hfail]|(-> & Hpl & Hprot & Hsame)].
    { do 3 eexists. split; [reflexivity|]. left. split; [done|]. exists ph. split_and!; [by left|done..]. }
    destruct (IH (Z.max brk (seg_end ph)) true (Process.mk _ m1 k1) Hok Hdis Hdata) as (r & m2 & k2 & Hrun2 & Hr).
    exists r, m2, k2. split; [exact Hrun2|].
    destruct Hr as [(-> & q & Hq & ?)|(Hr & Hall & Hsame2)]; [left; split; [done|exists q; split; [by right|done]]|right].
    cbn [orb Process.mem] in *. split; [done|].
    pose proof (seg_pages data ph (Hph eq_refl)) as Hpg. split.
    + intros q [->|Hq]%elem_of_cons Hlq; [|by apply Hall]. split; [|done].
      apply (placed_same _ _ _ _ _ Hsame2); [|done]. intros x Hx q Hq Hlq'.
      destruct (Hd eq_refl q Hq Hlq'); lia.
    + intros x Hx. rewrite Hsame2, Hsame; [done|apply (Hx ph); [left|done]|].
      intros q Hq. apply Hx. by right.
  - rewrite decide_False by (intros Hl; congruence).
    destruct (IH brk has h Hok Hdis Hdata) as (r & m2 & k2 & Hrun2 & Hr). exists r, m2, k2. split; [done|].
    destruct Hr as [(-> & q & Hq & ?)|(Hr & Hall & Hsame2)]; [left; split; [done|exists q; split; [by right|done]]|right].
    split; [done|]. split.
    + intros q [->|Hq]%elem_of_cons Hlq; [congruence|by apply Hall].
    + intros x Hx. apply Hsame2. intros q Hq. apply Hx. by right.
Qed.
End image.

(** The break is no part of an address. *)
Lemma initial_stack_set_brk `{Libc} space b m sp argv envp execfn entry phdr phnum :
  initial_stack (GuestSpace.set_brk space b) m sp argv envp execfn entry phdr phnum →
  initial_stack space m sp argv envp execfn entry phdr phnum.
Proof. intros [Ha Hi Hf]. by constructor. Qed.

(** ** A C library whose mappings succeed *)

Module DemoLibc.
Definition zero_stat : stat := Build_stat 0 0 0 0 0 0 0 0 0 0 0 0 0 0 0 0.

#[export] Instance libc : Libc := {|
  Kernel := unit;
  errno _ := 0;
  libc_mmap k m a n prot flags :=
    (a, λ x, if (a <=? x) && (x <? a + Z.land (u64 (u64 (n + 4096) - 1)) (not_u64 (4096 - 1))) then 0 else m x, k);
  libc_mprotect k _ _ _ := (0, k);
  libc_munmap k m _ _ := (m, k);
  libc_write k _ _ _ n := (n, k);
  libc_fstat k _ := (0, zero_stat, k);
  libc_getrlimit k _ := (0, (0, 0), k);
  libc_clock_gettime k _ := (0, (0, 0), k);
  sysconf_pagesize := 4096
|}.

#[export] Instance laws : LibcLaws.
Proof.
  split; [by exists 12| |]; intros k m a n prot; cbn; [by split|].
  intros x Hx. change 4096 with page_size. fold (page_align_up n).
  destruct (a <=? x) eqn:E1, (x <? a + page_align_up n) eqn:E2; boolp; cbn [andb]; try done. lia.
Qed.

Definition host : Process.t := Process.mk _ (λ _, 0xaa) tt.
End DemoLibc.

(** C17. Loading a program: for an ELF file with a valid header and segments that lie in the file and, page
    by page, below the stack and apart from each other, [load_elf] does not panic.  It returns an I/O error
    only when the call it made last, the mapping of a segment or of the stack or the protection of a
    segment, failed, and with the [errno] of that call.  Otherwise every segment is in guest memory at
    its address, zero-filled to its size, and protected by its flags, the break is the end of the last, and the stack pointer, 16-byte aligned, is at the argument
    count, the argument, environment and auxiliary vectors, whose pointers lead to the strings. *)
Theorem load_elf_image `{LibcLaws} space data execfn argv envp h hdr phs :
  GuestSpace.size space = GUEST_SPACE_SIZE →
  Elf64Ehdr.from_bytes data = inr hdr → Elf64Ehdr.validate_riscv64 hdr = inr tt →
  Elf64Ehdr.program_headers hdr data = inr phs →
  zlen data < 2 ^ 63 → existsb is_load phs = true →
  Forall (λ ph, is_load ph = true → seg_ok data ph) phs → disjoint_pages phs →
  stack_need argv envp execfn ≤ GUEST_STACK_SIZE →
  ∃ space' r m' k',
    load_elf (IoOk data) execfn space argv envp h = Some ((space', r), Process.mk _ m' k') ∧
    (r = inl (LoadError.Io (errno k')) ∧
       ((∃ ph, ph ∈ phs ∧ is_load ph = true ∧ segment_failed space ph k') ∨ stack_failed space k') ∨
     ∃ info, r = inr info ∧ ElfInfo.entry info = Elf64Ehdr.e_entry hdr ∧
       ElfInfo.brk info = foldl Z.max 0 (map seg_end (filter (λ ph, is_load ph = true) phs)) ∧
       GuestSpace.brk space' = ElfInfo.brk info ∧
       (∀ ph, ph ∈ phs → is_load ph = true → placed space m' data ph ∧ protected space ph) ∧
       initial_stack space m' (ElfInfo.sp info) argv envp execfn (ElfInfo.entry info)
         (ElfInfo.phdr_addr info) (ElfInfo.phnum info)).
Proof.
  intros Hsize Hhdr Hval Hphs Hdata Hload Hok Hdis Hneed. unfold load_elf. rewrite Hhdr, Hval, Hphs.
  destruct (find_phdr phs) as [pa fl].
  destruct (load_segments_spec space Hsize data phs 0 false h Hok Hdis Hdata) as (r & m1 & k1 & Hrun & Hr).
  rewrite bind_run, Hrun. cbn [mbind option_bind].
  destruct Hr as [[-> Hfail]|(-> & Hplaced & _)].
  { do 4 eexists. split; [reflexivity|]. left. auto. }
  cbn [orb]. rewrite Hload. cbn [negb]. set (brk := foldl Z.max 0 _). set (phdr := match fl with Some _ => _ | None => _ end).
  destruct (setup_stack_spec (GuestSpace.set_brk space brk) Hsize (Elf64Ehdr.e_entry hdr) phdr
              (Elf64Ehdr.e_phnum hdr) argv envp execfn (Process.mk _ m1 k1) Hneed) as (r & m2 & k2 & Hrun2 & Hr).
  rewrite bind_run, Hrun2. cbn [mbind option_bind].
  destruct Hr as [[-> Hfail]|(sp & -> & Hstack & Hsame)].
  { do 4 eexists. split; [reflexivity|]. left. auto. }
  do 4 eexists. split; [reflexivity|]. right. eexists. split; [reflexivity|].
  cbn [ElfInfo.entry ElfInfo.brk ElfInfo.sp ElfInfo.phdr_addr ElfInfo.phnum GuestSpace.brk GuestSpace.set_brk].
  split_and!; [done..| |by eapply initial_stack_set_brk].
  intros ph Hin Hl. rewrite Forall_forall in Hok. pose proof (Hok ph Hin Hl) as Hseg.
  destruct (Hplaced ph Hin Hl) as [Hpl Hprot]. split; [|done].
  apply (placed_same space _ _ _ _ _ Hsame); [|done].
  intros x Hx. left. destruct Hseg as [_ _ Hv]. lia.
Qed.

Definition example_data : list Z := elf_file example_ehdr (replicate 8 0) example_phdrs (replicate 300 7).
Definition example_space : GuestSpace.t := GuestSpace.mk 0x7f0000000000 GUEST_SPACE_SIZE 0.

Import DemoLibc.

(** No call of this C library fails. *)
Lemma demo_no_failure :
  (∀ a n prot k, GuestSpace.base example_space + a ≠ MAP_FAILED → ¬ mmap_failed example_space a n prot k) ∧
  (∀ a n prot k, ¬ mprotect_failed example_space a n prot k).
Proof.
  split.
  - intros a n prot k Ha (k0 & m & m' & Hm). by injection Hm.
  - intros a n prot k (k0 & ret & Hm & Hr). by injection Hm.
Qed.

(** The file of Elf.v with two segments, two arguments and one variable: it is loaded. *)
Lemma load_elf_image_witness :
  ∃ space' info m' k',
    load_elf (IoOk example_data) [47; 97] example_space [[97]; [45; 118]] [[72; 61; 49]] DemoLibc.host =
      Some ((space', inr info), Process.mk _ m' k') ∧
    ElfInfo.brk info = 0x12000 ∧ Forall (placed example_space m' example_data) example_phdrs.
Proof.
  destruct (load_elf_image example_space example_data [47; 97] [[97]; [45; 118]] [[72; 61; 49]] DemoLibc.host
              example_ehdr example_phdrs) as (space' & r & m' & k' & Hrun & Hr).
  - reflexivity.
  - vm_compute. reflexivity.
  - vm_compute. reflexivity.
  - vm_compute. reflexivity.
  - vm_compute. reflexivity.
  - reflexivity.
  - repeat constructor; vm_compute; intros; repeat split; discriminate.
  - cbn [disjoint_pages]. split; [|split; [intros _ q Hq; inversion Hq|exact I]].
    intros _ q [->|Hq]%elem_of_cons _; [left; vm_compute; discriminate|inversion Hq].
  - vm_compute. discriminate.
  - destruct demo_no_failure as [Hmap Hprot].
    destruct Hr as [(_ & [(ph & Hin & _ & [Hf|Hf])|Hf])|(info & -> & _ & Hbrk & _ & Hpl & _)].
    + exfalso. revert Hf. apply Hmap. repeat (apply elem_of_cons in Hin as [->|Hin]; [vm_compute; discriminate|]). by inversion Hin.
    + exfalso. exact (Hprot _ _ _ _ Hf).
    + exfalso. revert Hf. apply Hmap. vm_compute. discriminate.
    + exists space', info, m', k'. split; [exact Hrun|]. split; [rewrite Hbrk; vm_compute; reflexivity|].
      apply Forall_forall. intros ph Hin. apply Hpl; [exact Hin|].
      repeat (apply elem_of_cons in Hin as [->|Hin]; [reflexivity|]). by inversion Hin.
Defined.
