(* ===== verification/Syscall.v ===== *)
(** * System calls (linux-user/src/syscall.rs)

    The emulated Linux calls of a RISC-V program.  A call reads the integer registers and gives
    its result, the guest space with its break, and the next free address for [mmap].  The
    messages on standard error are not modelled. *)

From S2P Require Import Prelude Ir GuestSpace.
From Stdlib Require Import Ascii String.

Definition SYS_IOCTL : Z := 29.
Definition SYS_CLOSE : Z := 57.
Definition SYS_WRITE : Z := 64.
Definition SYS_WRITEV : Z := 66.
Definition SYS_READLINKAT : Z := 78.
Definition SYS_FSTAT : Z := 80.
Definition SYS_EXIT : Z := 93.
Definition SYS_EXIT_GROUP : Z := 94.
Definition SYS_SET_TID_ADDRESS : Z := 96.
Definition SYS_FUTEX : Z := 98.
Definition SYS_SET_ROBUST_LIST : Z := 99.
Definition SYS_CLOCK_GETTIME : Z := 113.
Definition SYS_TGKILL : Z := 131.
Definition SYS_RT_SIGACTION : Z := 134.
Definition SYS_RT_SIGPROCMASK : Z := 135.
Definition SYS_UNAME : Z := 160.
Definition SYS_GETPID : Z := 172.
Definition SYS_GETTID : Z := 178.
Definition SYS_BRK : Z := 214.
Definition SYS_MUNMAP : Z := 215.
Definition SYS_MMAP : Z := 222.
Definition SYS_MPROTECT : Z := 226.
Definition SYS_MADVISE : Z := 233.
Definition SYS_RISCV_HWPROBE : Z := 258.
Definition SYS_PRLIMIT64 : Z := 261.
Definition SYS_GETRANDOM : Z := 278.
Definition SYS_RSEQ : Z := 293.

Definition ENOSYS : Z := u64 (-38).
Definition ENOTTY : Z := u64 (-25).
Definition ENOENT : Z := u64 (-2).

Module SyscallResult.
Inductive t := Continue (v : Z) | Exit (code : Z).
End SyscallResult.
Import SyscallResult.

(** The bytes of an ASCII literal. *)
Definition str (s : string) : list Z := map (λ c, Z.of_N (N_of_ascii c)) (list_ascii_of_string s).

Definition PROC_SELF_EXE : list Z := str "/proc/self/exe".

(** [CStr::from_ptr(p).to_bytes() == lit], for a literal without NULs: the string at [p] ends at
    its first NUL. *)
Definition cstr_eq (lit : list Z) (p : Z) (m : Memory) : bool :=
  bool_decide (get_bytes m p (List.length lit + 1) = lit ++ [0]).

Section syscall.
Context `{Libc}.

Definition errno_ret : HostM Z := host_call (λ h, Some (u64 (- errno (Process.kernel h)), h)).

(** [libc::write] *)
Definition host_write (fd p len : Z) : HostM Z := host_call (λ h,
  let '(ret, k) := libc_write (Process.kernel h) (Process.mem h) fd p len in
  Some (ret, Process.mk _ (Process.mem h) k)).

(** The entries from [i] on, [n] of them; [total] bytes are written. *)
Fixpoint writev_loop (space : GuestSpace.t) (fd iov_addr : Z) (n : nat) (i total : Z) : HostM SyscallResult.t :=
  match n with
  | O => mret (Continue total)
  | S n =>
      let entry := u64 (iov_addr + u64 (i * 16)) in
      base ← GuestSpace.read_u64 space entry;
      len ← GuestSpace.read_u64 space (u64 (entry + 8));
      if len =? 0 then writev_loop space fd iov_addr n (i + 1) total
      else
        host ← or_panic (GuestSpace.g2h space base);
        ret ← host_write fd host len;
        if ret <? 0 then (e ← errno_ret; mret (Continue e))
        else writev_loop space fd iov_addr n (i + 1) (u64 (total + ret))
  end.

Definition do_writev (space : GuestSpace.t) (fd iov_addr iovcnt : Z) : HostM SyscallResult.t :=
  writev_loop space (i32 fd) iov_addr (Z.to_nat iovcnt) 0 0.

(** The fields of a RISC-V [struct stat], with their offsets and sizes. *)
Definition stat_fields (st : stat) : list (Z * nat * Z) :=
  [(0, 8%nat, st_dev st); (8, 8%nat, st_ino st); (16, 4%nat, st_mode st); (20, 4%nat, u32 (st_nlink st));
   (24, 4%nat, st_uid st); (28, 4%nat, st_gid st); (32, 8%nat, st_rdev st); (48, 8%nat, st_size st);
   (56, 4%nat, i32 (st_blksize st)); (64, 8%nat, st_blocks st); (72, 8%nat, st_atime st);
   (80, 8%nat, st_atime_nsec st); (88, 8%nat, st_mtime st); (96, 8%nat, st_mtime_nsec st);
   (104, 8%nat, st_ctime st); (112, 8%nat, st_ctime_nsec st)].

Definition put_fields (p : Z) (fs : list (Z * nat * Z)) (m : Memory) : Memory :=
  foldl (λ m '(off, n, v), put_bytes (p + off) (le_bytes n v) m) m fs.

Definition do_fstat (space : GuestSpace.t) (fd buf_addr : Z) : HostM SyscallResult.t :=
  let fd := i32 fd in
  host_buf ← or_panic (GuestSpace.g2h space buf_addr);
  _ ← store_mem (fill host_buf 128 0);
  if (0 <=? fd) && (fd <=? 2) then
    _ ← store_mem (put_bytes (host_buf + 16) (le_bytes 4 0x21B6));
    mret (Continue 0)
  else
    '(ret, st) ← host_call (λ h,
      let '(ret, st, k) := libc_fstat (Process.kernel h) fd in Some ((ret, st), Process.mk _ (Process.mem h) k));
    if ret <? 0 then (e ← errno_ret; mret (Continue e))
    else
      _ ← store_mem (put_fields host_buf (stat_fields st));
      mret (Continue 0).

Definition RLIMIT_STACK : Z := 3.
Definition RLIM_INFINITY : Z := 2 ^ 64 - 1.

Definition do_prlimit64 (space : GuestSpace.t) (pid resource new_rlim old_rlim : Z) : HostM SyscallResult.t :=
  if negb (old_rlim =? 0) then
    p ← or_panic (GuestSpace.g2h space old_rlim);
    if resource =? RLIMIT_STACK then
      _ ← store_mem (put_fields p [(0, 8%nat, 8 * 1024 * 1024); (8, 8%nat, RLIM_INFINITY)]);
      mret (Continue 0)
    else
      '(ret, (rlim_cur, rlim_max)) ← host_call (λ h,
        let '(ret, rl, k) := libc_getrlimit (Process.kernel h) (u32 resource) in
        Some ((ret, rl), Process.mk _ (Process.mem h) k));
      if ret <? 0 then (e ← errno_ret; mret (Continue e))
      else
        _ ← store_mem (put_fields p [(0, 8%nat, rlim_cur); (8, 8%nat, rlim_max)]);
        mret (Continue 0)
  else mret (Continue 0).

Definition utsname : list (list Z) :=
  [str "Linux"; str "tcg-rs"; str "6.1.0"; str "#1 SMP"; str "riscv64"; str "(none)"].

Definition do_uname (space : GuestSpace.t) (buf_addr : Z) : HostM SyscallResult.t :=
  p ← or_panic (GuestSpace.g2h space buf_addr);
  _ ← store_mem (fill p 390 0);
  _ ← store_mem (λ m, foldl (λ m '(i, val),
    put_bytes (p + i * 65) (take (Nat.min (List.length val) 64) val) m) m (zip (seqZ 0 6) utsname));
  mret (Continue 0).

Definition do_readlinkat (space : GuestSpace.t) (dirfd path_addr buf_addr bufsiz : Z) (elf_path : list Z)
  : HostM SyscallResult.t :=
  host_path ← or_panic (GuestSpace.g2h space path_addr);
  is_exe ← load_mem (cstr_eq PROC_SELF_EXE host_path);
  if is_exe : bool then
    let len := Z.min (zlen elf_path) bufsiz in
    dst ← or_panic (GuestSpace.g2h space buf_addr);
    _ ← store_mem (put_bytes dst (take (Z.to_nat len) elf_path));
    mret (Continue len)
  else mret (Continue ENOENT).

Definition do_clock_gettime (space : GuestSpace.t) (clk_id tp_addr : Z) : HostM SyscallResult.t :=
  '(ret, (tv_sec, tv_nsec)) ← host_call (λ h,
    let '(ret, ts, k) := libc_clock_gettime (Process.kernel h) (i32 clk_id) in
    Some ((ret, ts), Process.mk _ (Process.mem h) k));
  if ret <? 0 then (e ← errno_ret; mret (Continue e))
  else
    p ← or_panic (GuestSpace.g2h space tp_addr);
    _ ← store_mem (put_fields p [(0, 8%nat, tv_sec); (8, 8%nat, tv_nsec)]);
    mret (Continue 0).

Definition FUTEX_CMD_MASK : Z := 0x7f.
Definition FUTEX_WAIT : Z := 0.
Definition FUTEX_WAKE : Z := 1.
Definition EAGAIN : Z := u64 (-11).

Definition do_futex (space : GuestSpace.t) (uaddr op val : Z) : HostM SyscallResult.t :=
  _ ← or_panic (GuestSpace.g2h space uaddr);
  let cmd := Z.land op FUTEX_CMD_MASK in
  if cmd =? FUTEX_WAIT then mret (Continue EAGAIN)
  else if cmd =? FUTEX_WAKE then mret (Continue 0)
  else mret (Continue ENOSYS).

(** The arms of [handle_syscall] that are more than a call. *)
Definition sys_write (space : GuestSpace.t) (fd buf len : Z) : HostM SyscallResult.t :=
  host_buf ← or_panic (GuestSpace.g2h space buf);
  ret ← host_write (i32 fd) host_buf len;
  if ret <? 0 then (e ← errno_ret; mret (Continue e)) else mret (Continue (u64 ret)).

Definition sys_brk (space : GuestSpace.t) (a0 : Z) : HostM (SyscallResult.t * GuestSpace.t) :=
  if a0 =? 0 then mret (Continue (GuestSpace.brk space), space)
  else if GuestSpace.brk space <=? a0 then
    let old := GuestSpace.brk space in
    let new_brk := page_align_up a0 in
    let old_aligned := page_align_up old in
    _ ← (if old_aligned <? new_brk
         then _ ← GuestSpace.mmap_fixed space old_aligned (new_brk - old_aligned) (Z.lor PROT_READ PROT_WRITE);
              mret tt
         else mret tt);
    mret (Continue a0, GuestSpace.set_brk space a0)
  else mret (Continue (GuestSpace.brk space), space).

Definition sys_mmap (space : GuestSpace.t) (addr len prot mmap_next : Z) : HostM (SyscallResult.t * Z) :=
  let aligned_len := page_align_up len in
  let '(guest_addr, mmap_next) :=
    if negb (addr =? 0) then (addr, mmap_next) else (mmap_next, u64 (mmap_next + aligned_len)) in
  r ← GuestSpace.mmap_fixed space guest_addr aligned_len (i32 prot);
  match r with
  | IoOk _ => mret (Continue guest_addr, mmap_next)
  | IoErr _ => mret (Continue (u64 (-12)), mmap_next)
  end.

Definition sys_mprotect (space : GuestSpace.t) (addr len prot : Z) : HostM SyscallResult.t :=
  r ← GuestSpace.mprotect space addr len (i32 prot);
  match r with IoOk _ => mret (Continue 0) | IoErr _ => mret (Continue (u64 (-22))) end.

Definition sys_getrandom (space : GuestSpace.t) (buf len : Z) : HostM SyscallResult.t :=
  host ← or_panic (GuestSpace.g2h space buf);
  _ ← store_mem (fill host len 0);
  mret (Continue len).

(** The calls that return 0 at once. *)
Definition stubs : list Z :=
  [SYS_MUNMAP; SYS_SET_ROBUST_LIST; SYS_RT_SIGACTION; SYS_RT_SIGPROCMASK; SYS_MADVISE; SYS_CLOSE].

Definition handle_syscall (space : GuestSpace.t) (regs : list Z) (mmap_next : Z) (elf_path : list Z)
  : HostM (SyscallResult.t * GuestSpace.t * Z) :=
  nr ← or_panic (regs.[17]);
  a0 ← or_panic (regs.[10]);
  a1 ← or_panic (regs.[11]);
  a2 ← or_panic (regs.[12]);
  a3 ← or_panic (regs.[13]);
  let same (m : HostM SyscallResult.t) : HostM (SyscallResult.t * GuestSpace.t * Z) :=
    r ← m; mret (r, space, mmap_next) in
  if nr =? SYS_WRITE then same (sys_write space a0 a1 a2)
  else if (nr =? SYS_EXIT) || (nr =? SYS_EXIT_GROUP) then same (mret (Exit (i32 a0)))
  else if nr =? SYS_BRK then '(r, space) ← sys_brk space a0; mret (r, space, mmap_next)
  else if nr =? SYS_MMAP then '(r, mmap_next) ← sys_mmap space a0 a1 a2 mmap_next; mret (r, space, mmap_next)
  else if nr =? SYS_MPROTECT then same (sys_mprotect space a0 a1 a2)
  else if bool_decide (nr ∈ stubs) then same (mret (Continue 0))
  else if nr =? SYS_SET_TID_ADDRESS then same (mret (Continue 1))
  else if (nr =? SYS_GETPID) || (nr =? SYS_GETTID) then same (mret (Continue 1))
  else if nr =? SYS_GETRANDOM then same (sys_getrandom space a0 a1)
  else if (nr =? SYS_RSEQ) || (nr =? SYS_RISCV_HWPROBE) then same (mret (Continue ENOSYS))
  else if nr =? SYS_FUTEX then same (do_futex space a0 a1 a2)
  else if nr =? SYS_TGKILL then same (mret (if a2 =? 6 then Exit (128 + 6) else Continue 0))
  else if nr =? SYS_WRITEV then same (do_writev space a0 a1 a2)
  else if nr =? SYS_IOCTL then same (mret (Continue ENOTTY))
  else if nr =? SYS_FSTAT then same (do_fstat space a0 a1)
  else if nr =? SYS_PRLIMIT64 then same (do_prlimit64 space a0 a1 a2 a3)
  else if nr =? SYS_UNAME then same (do_uname space a0)
  else if nr =? SYS_READLINKAT then same (do_readlinkat space a0 a1 a2 a3 elf_path)
  else if nr =? SYS_CLOCK_GETTIME then same (do_clock_gettime space a0 a1)
  else same (mret (Continue ENOSYS)).
End syscall.
