(* ===== verification/SyscallSound.v ===== *)
(** * What a system call may touch

    The guest addresses a call translates and the guest memory it may write, and what
    [handle_syscall] does when the first are in range: it returns, and changes nothing else. *)

From S2P Require Import Prelude Ir GuestSpace LoaderSound Syscall.

Section frame.
Context `{Libc}.

(** Host memory is the same outside [[lo, hi)]. *)
Definition keeps (lo hi : Z) (h h' : Process.t) : Prop :=
  ∀ x, x < lo ∨ hi ≤ x → Process.mem h' x = Process.mem h x.

(** [m] returns a value of [Q] and changes memory only in [[lo, hi)]. *)
Definition runs {A} (lo hi : Z) (m : HostM A) (Q : A → Prop) (h : Process.t) : Prop :=
  ∃ a h', m h = Some (a, h') ∧ Q a ∧ keeps lo hi h h'.

Lemma keeps_refl lo hi h : keeps lo hi h h.
Proof. by intros x _. Qed.

Lemma keeps_trans lo hi h h' h'' : keeps lo hi h h' → keeps lo hi h' h'' → keeps lo hi h h''.
Proof. intros H1 H2 x Hx. by rewrite H2, H1. Qed.

Lemma runs_ret {A} lo hi (a : A) (Q : A → Prop) h : Q a → runs lo hi (mret a) Q h.
Proof. intros HQ. exists a, h. split_and!; [done|done|apply keeps_refl]. Qed.

Lemma runs_bind {A B} lo hi (m : HostM A) (f : A → HostM B) R (Q : B → Prop) h :
  runs lo hi m R h → (∀ a h', R a → keeps lo hi h h' → runs lo hi (f a) Q h') → runs lo hi (m ≫= f) Q h.
Proof.
  intros (a & h' & Hm & HR & Hk) Hf. destruct (Hf a h' HR Hk) as (b & h'' & Hb & HQ & Hk').
  exists b, h''. rewrite bind_run, Hm. cbn [mbind option_bind]. split_and!; [done..|by eapply keeps_trans].
Qed.

Lemma runs_some {A} lo hi (a : A) (Q : A → Prop) h : Q a → runs lo hi (or_panic (Some a)) Q h.
Proof. intros HQ. exists a, h. split_and!; [done|done|apply keeps_refl]. Qed.

Lemma runs_some_bind {A B} lo hi (a : A) (f : A → HostM B) (Q : B → Prop) h :
  runs lo hi (f a) Q h → runs lo hi (or_panic (Some a) ≫= f) Q h.
Proof. done. Qed.

Lemma runs_load_bind {A B} lo hi (f : Memory → A) (g : A → HostM B) (Q : B → Prop) h :
  runs lo hi (g (f (Process.mem h))) Q h → runs lo hi (load_mem f ≫= g) Q h.
Proof. done. Qed.

(** A step that leaves memory alone. *)
Lemma runs_call {A} lo hi (f : Process.t → option (A * Process.t)) (Q : A → Prop) h :
  (∃ a h', f h = Some (a, h') ∧ Process.mem h' = Process.mem h ∧ Q a) → runs lo hi (host_call f) Q h.
Proof. intros (a & h' & Hf & Hm & HQ). exists a, h'. split_and!; [done..|]. intros x _. by rewrite Hm. Qed.

Lemma runs_store lo hi f h :
  (∀ x, x < lo ∨ hi ≤ x → f (Process.mem h) x = Process.mem h x) → runs lo hi (store_mem f) (λ _, True) h.
Proof. intros Hf. exists tt, (Process.mk _ (f (Process.mem h)) (Process.kernel h)). by split_and!. Qed.

Lemma runs_mono {A} lo hi lo' hi' (m : HostM A) (Q R : A → Prop) h :
  runs lo hi m Q h → lo' ≤ lo ∨ hi ≤ lo → hi ≤ hi' ∨ hi ≤ lo → (∀ a, Q a → R a) → runs lo' hi' m R h.
Proof.
  intros (a & h' & Hm & HQ & Hk) Hlo Hhi HR. exists a, h'. split_and!; [done|by apply HR|].
  intros x Hx. apply Hk. lia.
Qed.

Lemma g2h_Some space a : a < GuestSpace.size space → GuestSpace.g2h space a = Some (GuestSpace.base space + a).
Proof. intros Ha. unfold GuestSpace.g2h. by rewrite (proj2 (Z.ltb_lt _ _)). Qed.

Lemma runs_g2h lo hi space a h :
  a < GuestSpace.size space →
  runs lo hi (or_panic (GuestSpace.g2h space a)) (λ p, p = GuestSpace.base space + a) h.
Proof. intros Ha. rewrite g2h_Some by done. by apply runs_some. Qed.

Lemma runs_errno lo hi h : runs lo hi errno_ret (λ _, True) h.
Proof. apply runs_call. by do 2 eexists. Qed.

Lemma runs_fail lo hi h : runs lo hi (e ← errno_ret; mret (SyscallResult.Continue e)) (λ _, True) h.
Proof. eapply runs_bind; [apply runs_errno|]. intros. by apply runs_ret. Qed.

Lemma runs_host_write lo hi fd p n h : runs lo hi (host_write fd p n) (λ _, True) h.
Proof. apply runs_call. destruct (libc_write _ _ _ _ _) as [ret k]. by do 2 eexists. Qed.

Lemma runs_read_u64 lo hi space a h :
  a < GuestSpace.size space →
  runs lo hi (GuestSpace.read_u64 space a) (λ v, v = le_value (get_bytes (Process.mem h) (GuestSpace.base space + a) 8)) h.
Proof.
  intros Ha. eexists _, h. split_and!; [|reflexivity|apply keeps_refl].
  unfold GuestSpace.read_u64. rewrite bind_run, g2h_Some by done. done.
Qed.

(** ** The addresses of a call *)

(** A 64-bit word of guest memory. *)
Definition word (space : GuestSpace.t) (m : Memory) (a : Z) : Z :=
  le_value (get_bytes m (GuestSpace.base space + a) 8).

(** What the entries of an [iovec] array are read from, and their buffers. *)
Definition iov_pointers (space : GuestSpace.t) (m : Memory) (iov_addr i : Z) (n : nat) : list Z :=
  concat (map (λ i,
    let entry := u64 (iov_addr + u64 (i * 16)) in
    [entry; u64 (entry + 8)] ++
    if word space m (u64 (entry + 8)) =? 0 then [] else [word space m entry]) (seqZ i (Z.of_nat n))).

(** The guest addresses a call translates, and the start and the end of what it may write. *)
Definition accesses (space : GuestSpace.t) (regs : list Z) (mmap_next : Z) (elf_path : list Z) (m : Memory)
  : list Z * (Z * Z) :=
  let arg i := default 0 (regs.[i]) in
  let '(nr, a0, a1, a2, a3) := (arg 17, arg 10, arg 11, arg 12, arg 13) in
  if nr =? SYS_WRITE then ([a1], (0, 0))
  else if nr =? SYS_BRK then
    let '(old, new) := (page_align_up (GuestSpace.brk space), page_align_up a0) in
    if negb (a0 =? 0) && (GuestSpace.brk space <=? a0) && (old <? new) then ([old], (old, new)) else ([], (0, 0))
  else if nr =? SYS_MMAP then
    let a := if a0 =? 0 then mmap_next else a0 in ([a], (a, a + page_align_up a1))
  else if nr =? SYS_MPROTECT then ([a0], (0, 0))
  else if nr =? SYS_GETRANDOM then ([a0], (a0, a0 + a1))
  else if nr =? SYS_FUTEX then ([a0], (0, 0))
  else if nr =? SYS_WRITEV then (iov_pointers space m a1 0 (Z.to_nat a2), (0, 0))
  else if nr =? SYS_FSTAT then ([a1], (a1, a1 + 128))
  else if nr =? SYS_PRLIMIT64 then if a3 =? 0 then ([], (0, 0)) else ([a3], (a3, a3 + 16))
  else if nr =? SYS_UNAME then ([a0], (a0, a0 + 390))
  else if nr =? SYS_READLINKAT then
    if cstr_eq PROC_SELF_EXE (GuestSpace.base space + a1) m
    then ([a1; a2], (a2, a2 + Z.min (zlen elf_path) a3)) else ([a1], (0, 0))
  else if nr =? SYS_CLOCK_GETTIME then ([a1], (a1, a1 + 16))
  else ([], (0, 0)).

Definition in_space (space : GuestSpace.t) (ptrs : list Z) : Prop := Forall (λ a, a < GuestSpace.size space) ptrs.

End frame.

(** ** Each call *)

Section calls.
Context `{LibcLaws}.
Variable space : GuestSpace.t.
#[local] Notation base := (GuestSpace.base space).
#[local] Notation size := (GuestSpace.size space).

Lemma keeps_mem l h h' : keeps l l h h' → ∀ x, Process.mem h' x = Process.mem h x.
Proof. intros Hk x. apply Hk. lia. Qed.

Lemma word_ext m m' a : (∀ x, m' x = m x) → word space m' a = word space m a.
Proof. intros Hm. unfold word. f_equal. apply get_bytes_ext. intros x _. apply Hm. Qed.

Lemma iov_pointers_ext m m' iov i n :
  (∀ x, m' x = m x) → iov_pointers space m' iov i n = iov_pointers space m iov i n.
Proof.
  intros Hm. unfold iov_pointers. f_equal. apply map_ext. intros j. cbn zeta. by rewrite !(word_ext m m').
Qed.

Lemma iov_pointers_S m iov i n :
  iov_pointers space m iov i (S n) =
  (let entry := u64 (iov + u64 (i * 16)) in
   [entry; u64 (entry + 8)] ++
   (if word space m (u64 (entry + 8)) =? 0 then [] else [word space m entry]) ++
   iov_pointers space m iov (i + 1) n).
Proof.
  unfold iov_pointers. rewrite Nat2Z.inj_succ, seqZ_cons by lia. cbn [map concat].
  rewrite Z.pred_succ. cbn zeta. by rewrite <- !app_assoc.
Qed.

Lemma writev_runs fd iov n i total h l :
  in_space space (iov_pointers space (Process.mem h) iov i n) →
  runs l l (writev_loop space fd iov n i total) (λ _, True) h.
Proof.
  revert i total h. induction n as [|n IH]; intros i total h Hp; cbn [writev_loop]; [by apply runs_ret|].
  rewrite iov_pointers_S in Hp. cbn zeta in *. set (entry := u64 (iov + u64 (i * 16))) in *.
  apply Forall_app in Hp as [Hentry [Hbuf Hrest]%Forall_app].
  apply Forall_cons in Hentry as [Hentry [Hlen _]%Forall_cons].
  eapply runs_bind; [by apply runs_read_u64|]. cbn beta. intros buf h1 -> Hk1.
  pose proof (keeps_mem _ _ _ Hk1) as Hm1.
  eapply runs_bind; [by apply runs_read_u64|]. cbn beta. intros len h2 -> Hk2.
  pose proof (keeps_mem _ _ _ Hk2) as Hm2.
  change (le_value (get_bytes (Process.mem ?h) (base + ?a) 8)) with (word space (Process.mem h) a).
  rewrite !(word_ext (Process.mem h) (Process.mem h1)) by done.
  assert (∀ x, Process.mem h2 x = Process.mem h x) as Hk by (intros; by rewrite Hm2, Hm1).
  assert (∀ t h3, keeps l l h2 h3 → runs l l (writev_loop space fd iov n (i + 1) t) (λ _, True) h3) as Hgo.
  { intros t h3 Hk3. pose proof (keeps_mem _ _ _ Hk3) as Hm3. apply IH. rewrite (iov_pointers_ext (Process.mem h)) by (intros; by rewrite Hm3, Hk). done. }
  destruct (_ =? 0); [apply Hgo, keeps_refl|]. apply Forall_cons in Hbuf as [Hbuf _].
  eapply runs_bind; [by apply runs_g2h|]. intros p h3 _ Hk3.
  eapply runs_bind; [apply runs_host_write|]. intros ret h4 _ Hk4.
  destruct (ret <? 0); [apply runs_fail|]. apply Hgo. by eapply keeps_trans.
Qed.

(** Consecutive fields stay between the first and the last. *)
Lemma put_fields_out p fs lo hi m x :
  Forall (λ '(off, n, _), lo ≤ off ∧ off + Z.of_nat n ≤ hi) fs → x < p + lo ∨ p + hi ≤ x →
  put_fields p fs m x = m x.
Proof.
  intros Hfs Hx. revert m. unfold put_fields. induction Hfs as [|[[off n] v] fs Hf _ IH]; intros m; cbn [foldl]; [done|].
  rewrite IH. apply put_bytes_out. unfold zlen. rewrite le_bytes_length. lia.
Qed.

Lemma runs_put_fields lo hi p fs a b h :
  Forall (λ '(off, n, _), a ≤ off ∧ off + Z.of_nat n ≤ b) fs → lo = p + a → hi = p + b →
  runs lo hi (store_mem (put_fields p fs)) (λ _, True) h.
Proof. intros Hfs -> ->. apply runs_store. intros x Hx. by eapply put_fields_out. Qed.

Lemma fill_out a n v m x : x < a ∨ a + n ≤ x → fill a n v m x = m x.
Proof. intros Hx. unfold fill. destruct (a <=? x) eqn:?, (x <? a + n) eqn:?; boolp; cbn [andb]; [lia|done..]. Qed.

Lemma runs_fill lo hi a n v h : lo ≤ a → a + n ≤ hi → runs lo hi (store_mem (fill a n v)) (λ _, True) h.
Proof. intros. apply runs_store. intros x Hx. apply fill_out. lia. Qed.

Lemma mmap_fixed_runs a n prot h :
  a < size → runs (base + a) (base + a + page_align_up n) (GuestSpace.mmap_fixed space a n prot) (λ _, True) h.
Proof.
  intros Ha. unfold GuestSpace.mmap_fixed. eapply runs_bind; [by apply runs_g2h|]. intros p h1 -> _.
  pose proof (mmap_fixed_confined (Process.kernel h1) (Process.mem h1) (base + a) n prot) as Hm. unfold runs, host_call.
  destruct (libc_mmap _ _ _ _ _ _) as [[ret m'] k']. destruct (ret =? MAP_FAILED); by do 2 eexists.
Qed.

Lemma page_align_up_pages x : in_width 64 (page_align_up x) ∧ page_align_up x mod page_size = 0.
Proof.
  destruct page_size_pow2 as (k & Hk & Hp). unfold page_align_up. rewrite Hp, land_not_u64 by (lia || apply (mod_in_width 64); lia).
  set (y := u64 _). pose proof (mod_in_width 64 (u64 (x + 2 ^ k) - 1) ltac:(lia)) as Hy. fold (u64 (u64 (x + 2 ^ k) - 1)) y in Hy.
  pose proof (pow2_pos k). destruct Hy. pose proof (Z.div_mod y (2 ^ k)). pose proof (Z.mod_pos_bound y (2 ^ k)).
  pose proof (Z.div_pos y (2 ^ k)). rewrite Z.mod_mul by lia. split; [unfold in_width; nia|done].
Qed.

Lemma page_align_up_fixed x : in_width 64 x → x mod page_size = 0 → page_align_up x = x.
Proof.
  intros Hx Hmod. destruct page_size_pow2 as (k & Hk & Hp). pose proof (pow2_pos k).
  assert (2 ^ 64 = 2 ^ (64 - k) * 2 ^ k) as Hw by (rewrite <- Z.pow_add_r by lia; f_equal; lia).
  apply Z.mod_divide in Hmod as [q Hq]; [|lia]. rewrite Hp in Hq. unfold in_width in Hx. subst x.
  assert (q + 1 ≤ 2 ^ (64 - k)) by nia.
  unfold page_align_up. rewrite Hp.
  assert (u64 (u64 (q * 2 ^ k + 2 ^ k) - 1) = q * 2 ^ k + (2 ^ k - 1)) as ->.
  { unfold u64. rewrite Zminus_mod_idemp_l, Z.mod_small by nia. lia. }
  rewrite land_not_u64 by (lia || unfold in_width; nia).
  rewrite Z.div_add_l, (Z.div_small (2 ^ k - 1)) by lia. lia.
Qed.

Lemma brk_runs a0 h :
  let '(old, new) := (page_align_up (GuestSpace.brk space), page_align_up a0) in
  let grows := negb (a0 =? 0) && (GuestSpace.brk space <=? a0) && (old <? new) in
  0 ≤ GuestSpace.brk space → 0 ≤ a0 → (grows = true → old < size) →
  runs (base + if grows then old else 0) (base + if grows then new else 0) (sys_brk space a0)
    (λ r, r.2 = GuestSpace.set_brk space (Z.max (GuestSpace.brk space) a0)) h.
Proof.
  cbn zeta. intros Hb Ha Hp. unfold sys_brk.
  assert (space = GuestSpace.set_brk space (GuestSpace.brk space)) as Heta by (by destruct space).
  destruct (a0 =? 0) eqn:E0; boolp; cbn [negb andb] in *.
  { apply runs_ret. cbn [snd]. by rewrite Z.max_l by lia. }
  destruct (GuestSpace.brk space <=? a0) eqn:E1; boolp; cbn [andb] in *.
  2: { apply runs_ret. cbn [snd]. by rewrite Z.max_l by lia. }
  rewrite Z.max_r by lia.
  destruct (_ <? _) eqn:E2; boolp.
  - eapply runs_bind; [|intros ? ? _ _; by apply runs_ret].
    eapply runs_bind; [|intros ? ? _ _; by apply (runs_ret _ _ _ (λ _, True))].
    eapply runs_mono; [by apply mmap_fixed_runs, Hp|lia| |done].
    destruct (page_align_up_pages (GuestSpace.brk space)) as [Hw1 Hm1].
    destruct (page_align_up_pages a0) as [Hw2 Hm2]. unfold in_width in *.
    rewrite (page_align_up_fixed (_ - _)); [lia|unfold in_width; lia|].
    by rewrite Zminus_mod, Hm1, Hm2, Z.mod_0_l by (destruct page_size_pow2 as (k & ? & ->); pose proof (pow2_pos k); lia).
  - eapply runs_bind; [by apply (runs_ret _ _ _ (λ _, True))|]. intros ? ? _ _. by apply runs_ret.
Qed.

Lemma mmap_runs addr len prot next h :
  let a := if addr =? 0 then next else addr in
  a < size →
  runs (base + a) (base + (a + page_align_up len)) (sys_mmap space addr len prot next)
    (λ r, r.2 = (if addr =? 0 then u64 (next + page_align_up len) else next) ∧
          (r.1 = SyscallResult.Continue a ∨ r.1 = SyscallResult.Continue (u64 (-12)))) h.
Proof.
  cbn zeta. intros Ha. unfold sys_mmap.
  destruct (page_align_up_pages len) as [Hw Hm]. pose proof (page_align_up_fixed _ Hw Hm) as Hfix.
  rewrite Z.add_assoc. destruct (addr =? 0); cbn [negb];
    (eapply runs_bind; [rewrite <- Hfix at 1; by apply mmap_fixed_runs|]); intros [|] h' _ _;
    apply runs_ret; cbn [fst snd]; auto.
Qed.

Lemma uname_runs a h : a < size → runs (base + a) (base + (a + 390)) (do_uname space a) (λ _, True) h.
Proof.
  intros Ha. unfold do_uname. eapply runs_bind; [by apply runs_g2h|]. intros p h1 -> _.
  eapply runs_bind; [apply runs_fill; lia|]. intros _ h2 _ _.
  eapply runs_bind; [|intros; by apply runs_ret]. apply runs_store. intros x Hx. generalize (Process.mem h2). intros m.
  assert (Forall (λ '(i, val), 0 ≤ i ∧ i * 65 + 65 ≤ 390) (zip (seqZ 0 6) utsname)) as Hfs
    by (repeat constructor; vm_compute; discriminate).
  revert m. induction Hfs as [|[i val] fs [Hi Hv] _ IH]; intros m; cbn [foldl]; [done|].
  rewrite IH. apply put_bytes_out. unfold zlen. rewrite length_take. lia.
Qed.

Lemma fstat_runs fd a h : a < size → runs (base + a) (base + (a + 128)) (do_fstat space fd a) (λ _, True) h.
Proof.
  intros Ha. unfold do_fstat. eapply runs_bind; [by apply runs_g2h|]. intros p h1 -> _.
  eapply runs_bind; [apply runs_fill; lia|]. intros _ h2 _ _. destruct (_ && _).
  - eapply runs_bind; [|intros; by apply runs_ret]. apply runs_store. intros x Hx. apply put_bytes_out.
    unfold zlen. rewrite le_bytes_length. lia.
  - eapply (runs_bind _ _ _ _ (λ _, True)).
    { apply runs_call. destruct (libc_fstat _ _) as [[ret st] k]. by do 2 eexists. }
    intros [ret st] h3 _ _. destruct (ret <? 0); [apply runs_fail|].
    eapply runs_bind; [|intros; by apply runs_ret].
    eapply (runs_put_fields _ _ _ _ 0 128); [|lia..]. repeat constructor; lia.
Qed.

(** Two words at an address. *)
Lemma runs_two_words a v w h :
  runs (base + a) (base + (a + 16)) (store_mem (put_fields (base + a) [(0, 8%nat, v); (8, 8%nat, w)])) (λ _, True) h.
Proof. eapply (runs_put_fields _ _ _ _ 0 16); [|lia..]. repeat constructor; lia. Qed.

Lemma prlimit64_runs pid resource new a h :
  (a ≠ 0 → a < size) →
  runs (base + a) (base + (a + if a =? 0 then 0 else 16)) (do_prlimit64 space pid resource new a) (λ _, True) h.
Proof.
  intros Ha. unfold do_prlimit64. destruct (a =? 0) eqn:E; boolp; cbn [negb]; [by apply runs_ret|].
  eapply runs_bind; [by apply runs_g2h, Ha|]. intros p h1 -> _. destruct (_ =? _).
  - eapply runs_bind; [apply runs_two_words|]. intros. by apply runs_ret.
  - eapply (runs_bind _ _ _ _ (λ _, True)).
    { apply runs_call. destruct (libc_getrlimit _ _) as [[ret rl] k]. by do 2 eexists. }
    intros [ret [cur max]] h2 _ _. destruct (ret <? 0); [apply runs_fail|].
    eapply runs_bind; [apply runs_two_words|]. intros. by apply runs_ret.
Qed.

Lemma clock_gettime_runs clk a h :
  a < size → runs (base + a) (base + (a + 16)) (do_clock_gettime space clk a) (λ _, True) h.
Proof.
  intros Ha. unfold do_clock_gettime. eapply (runs_bind _ _ _ _ (λ _, True)).
  { apply runs_call. destruct (libc_clock_gettime _ _) as [[ret ts] k]. by do 2 eexists. }
  intros [ret [sec nsec]] h1 _ _. destruct (ret <? 0); [apply runs_fail|].
  eapply runs_bind; [by apply runs_g2h|]. intros p h2 -> _.
  eapply runs_bind; [apply runs_two_words|]. intros. by apply runs_ret.
Qed.

Lemma readlinkat_runs dirfd path buf bufsiz elf_path h :
  let exe := cstr_eq PROC_SELF_EXE (base + path) (Process.mem h) in
  path < size → (exe = true → buf < size) →
  runs (base + buf) (base + (buf + if exe then Z.min (zlen elf_path) bufsiz else 0))
    (do_readlinkat space dirfd path buf bufsiz elf_path) (λ _, True) h.
Proof.
  cbn zeta. intros Hpath Hbuf. unfold do_readlinkat.
  rewrite (g2h_Some space path) by done. apply runs_some_bind, runs_load_bind.
  destruct (cstr_eq PROC_SELF_EXE (base + path) (Process.mem h)) eqn:E; cbn zeta; [|by apply runs_ret].
  eapply runs_bind; [by apply runs_g2h, Hbuf|]. intros p h1 -> _.
  eapply runs_bind; [|intros; by apply runs_ret]. apply runs_store. intros x Hx. apply put_bytes_out.
  unfold zlen. rewrite length_take. unfold zlen in Hx. lia.
Qed.

Lemma mprotect_runs a n prot h : a < size → runs 0 0 (sys_mprotect space a n prot) (λ _, True) h.
Proof.
  intros Ha. unfold sys_mprotect, GuestSpace.mprotect. eapply (runs_bind _ _ _ _ (λ _, True)).
  { eapply runs_bind; [by apply runs_g2h|]. intros p h1 -> _. apply runs_call.
    destruct (libc_mprotect _ _ _ _) as [ret k]. destruct (negb _); by do 2 eexists. }
  intros [] h1 _ _; by apply runs_ret.
Qed.

Lemma write_runs fd a n h : a < size → runs 0 0 (sys_write space fd a n) (λ _, True) h.
Proof.
  intros Ha. unfold sys_write. eapply runs_bind; [by apply runs_g2h|]. intros p h1 -> _.
  eapply runs_bind; [apply runs_host_write|]. intros ret h2 _ _.
  destruct (ret <? 0); [apply runs_fail|by apply runs_ret].
Qed.

Lemma getrandom_runs a n h : a < size → runs (base + a) (base + (a + n)) (sys_getrandom space a n) (λ _, True) h.
Proof.
  intros Ha. unfold sys_getrandom. eapply runs_bind; [by apply runs_g2h|]. intros p h1 -> _.
  eapply runs_bind; [apply runs_fill; lia|]. intros. by apply runs_ret.
Qed.

Lemma futex_runs a op v h : a < size → runs 0 0 (do_futex space a op v) (λ _, True) h.
Proof.
  intros Ha. unfold do_futex. eapply runs_bind; [by apply runs_g2h|]. intros p h1 -> _. cbn zeta.
  repeat case_match; by apply runs_ret.
Qed.
End calls.

(** ** All calls *)

(** The arguments are 64-bit words. *)
Definition regs_ok (regs : list Z) : Prop := zlen regs = 32 ∧ Forall (in_width 64) regs.

Lemma regs_ok_lookup regs i : regs_ok regs → 0 ≤ i < 32 → ∃ v, regs.[i] = Some v ∧ in_width 64 v.
Proof.
  intros [Hlen Hr] Hi. destruct (proj2 (zlookup_lt_is_Some regs i) ltac:(lia)) as [v Hv].
  exists v. split; [done|]. rewrite Forall_forall in Hr. apply Hr. unfold zlookup in Hv.
  destruct (_ && _); [|done]. by eapply list_elem_of_lookup_2.
Qed.

Section all.
Context `{LibcLaws}.
Variables (space : GuestSpace.t) (next : Z) (h : Process.t).
#[local] Notation base := (GuestSpace.base space).

(** What a call that leaves the break and [mmap_next] alone gives. *)
Lemma same_runs lo hi (m : HostM SyscallResult.t) :
  runs (base + lo) (base + hi) m (λ _, True) h →
  ∃ r next' h', (r ← m; mret (r, space, next) : HostM _) h = Some ((r, GuestSpace.set_brk space (GuestSpace.brk space), next'), h') ∧
    next' = next ∧ ∀ x, x < lo ∨ hi ≤ x → Process.mem h' (base + x) = Process.mem h (base + x).
Proof.
  intros (r & h' & Hm & _ & Hk). exists r, next, h'. rewrite bind_run, Hm.
  split_and!; [by destruct space|done|]. intros x Hx. apply Hk. lia.
Qed.

Lemma same_runs0 lo hi (m : HostM SyscallResult.t) :
  runs 0 0 m (λ _, True) h →
  ∃ r next' h', (r ← m; mret (r, space, next) : HostM _) h = Some ((r, GuestSpace.set_brk space (GuestSpace.brk space), next'), h') ∧
    next' = next ∧ ∀ x, x < lo ∨ hi ≤ x → Process.mem h' (base + x) = Process.mem h (base + x).
Proof. intros Hm. apply same_runs. eapply runs_mono; [exact Hm|lia..|done]. Qed.
End all.

(** A call that only returns a value. *)
Ltac constant_call :=
  try match goal with |- match ?acc with (_, _) => _ end => destruct acc as [? [? ?]] end;
  intros _; apply same_runs0; by apply runs_ret.

(** C18. A system call whose guest pointers are in range returns, with the emulator still in
    control: it changes host memory only in the guest range that call may write, the break only
    upwards and only for [brk], and the next free address only for an [mmap] without a hint; this
    holds whatever the host's calls answer. *)
Theorem syscall_confined `{LibcLaws} space regs mmap_next elf_path h :
  regs_ok regs → 0 ≤ GuestSpace.brk space →
  let '(ptrs, (lo, hi)) := accesses space regs mmap_next elf_path (Process.mem h) in
  in_space space ptrs →
  ∃ r mmap_next' h',
    let arg i := default 0 (regs.[i]) in
    handle_syscall space regs mmap_next elf_path h =
      Some ((r, GuestSpace.set_brk space
                  (if arg 17 =? SYS_BRK then Z.max (GuestSpace.brk space) (arg 10) else GuestSpace.brk space),
             mmap_next'), h') ∧
    mmap_next' = (if (arg 17 =? SYS_MMAP) && (arg 10 =? 0)
                  then u64 (mmap_next + page_align_up (arg 11)) else mmap_next) ∧
    (∀ x, x < lo ∨ hi ≤ x → Process.mem h' (GuestSpace.base space + x) = Process.mem h (GuestSpace.base space + x)).
Proof.
  intros Hregs Hb. unfold accesses, handle_syscall.
  destruct (regs_ok_lookup regs 17 Hregs ltac:(lia)) as (nr & -> & _).
  destruct (regs_ok_lookup regs 10 Hregs ltac:(lia)) as (a0 & -> & Ha0).
  destruct (regs_ok_lookup regs 11 Hregs ltac:(lia)) as (a1 & -> & _).
  destruct (regs_ok_lookup regs 12 Hregs ltac:(lia)) as (a2 & -> & _).
  destruct (regs_ok_lookup regs 13 Hregs ltac:(lia)) as (a3 & -> & _).
  unfold in_space. cbn [default from_option id]. cbv zeta.
  repeat (rewrite bind_run; cbn [or_panic mbind option_bind]).
  destruct (nr =? SYS_BRK) eqn:Ebrk; boolp; [subst nr|].
  { change (SYS_BRK =? SYS_WRITE) with false. change (SYS_BRK =? SYS_EXIT) with false.
    change (SYS_BRK =? SYS_EXIT_GROUP) with false. change (SYS_BRK =? SYS_MMAP) with false. cbn [orb andb].
    generalize (brk_runs space a0 h). cbv zeta.
    destruct (negb (a0 =? 0) && (GuestSpace.brk space <=? a0) && _); intros Hrun Hp;
      (destruct Hrun as ([r space'] & h' & Hrun & Hs & Hk);
       [exact Hb|apply Ha0|intros Hg; first [discriminate Hg|by inversion_clear Hp]|]);
      cbn [snd] in Hs; subst space'; rewrite bind_run, Hrun; cbn [mbind option_bind];
      do 3 eexists; (split_and!; [reflexivity..|]); intros x Hx; apply Hk; lia. }
  destruct (nr =? SYS_MMAP) eqn:Emmap; boolp; [subst nr|].
  { change (SYS_MMAP =? SYS_WRITE) with false. change (SYS_MMAP =? SYS_EXIT) with false.
    change (SYS_MMAP =? SYS_EXIT_GROUP) with false. cbn [orb andb].
    intros [Hp _]%Forall_cons.
    destruct (mmap_runs space a0 a1 a2 mmap_next h Hp) as ([r next'] & h' & Hrun & [Hn _] & Hk).
    rewrite bind_run, Hrun. cbn [mbind option_bind snd] in *. do 3 eexists.
    split_and!; [by destruct space|exact Hn|]. intros x Hx. apply Hk. lia. }
  clear Ebrk Emmap. cbn [andb].
  destruct (nr =? SYS_WRITE); [intros [Hp _]%Forall_cons; by apply same_runs0, write_runs|].
  destruct (_ || _); [constant_call|].
  destruct (nr =? SYS_MPROTECT); [intros [Hp _]%Forall_cons; by apply same_runs0, mprotect_runs|].
  destruct (bool_decide _); [constant_call|].
  destruct (nr =? SYS_SET_TID_ADDRESS); [constant_call|].
  destruct (_ || _); [constant_call|].
  destruct (nr =? SYS_GETRANDOM); [intros [Hp _]%Forall_cons; by apply same_runs, getrandom_runs|].
  destruct (_ || _); [constant_call|].
  destruct (nr =? SYS_FUTEX); [intros [Hp _]%Forall_cons; by apply same_runs0, futex_runs|].
  destruct (nr =? SYS_TGKILL); [constant_call|].
  destruct (nr =? SYS_WRITEV); [intros Hp; by apply same_runs0, writev_runs|].
  destruct (nr =? SYS_IOCTL); [constant_call|].
  destruct (nr =? SYS_FSTAT); [intros [Hp _]%Forall_cons; by apply same_runs, fstat_runs|].
  destruct (nr =? SYS_PRLIMIT64).
  { pose proof (prlimit64_runs space a0 a1 a2 a3 h) as Hrun. destruct (a3 =? 0) eqn:E; boolp; intros Hp; apply same_runs.
    - subst a3. by apply Hrun.
    - apply Hrun. by inversion_clear Hp. }
  destruct (nr =? SYS_UNAME); [intros [Hp _]%Forall_cons; by apply same_runs, uname_runs|].
  destruct (nr =? SYS_READLINKAT).
  { pose proof (readlinkat_runs space a0 a1 a2 a3 elf_path h) as Hrun. cbv zeta in Hrun.
    destruct (cstr_eq _ _ _); intros [Hp Hp2]%Forall_cons; apply same_runs.
    - apply Hrun; [done|]. by inversion_clear Hp2.
    - eapply runs_mono; [by apply Hrun|lia..|done]. }
  destruct (nr =? SYS_CLOCK_GETTIME); [intros [Hp _]%Forall_cons; by apply same_runs, clock_gettime_runs|].
  constant_call.
Qed.

Import DemoLibc.

(** Registers with a call number and its first four arguments. *)
Definition call_regs (nr a0 a1 a2 a3 : Z) : list Z :=
  replicate 10 0 ++ [a0; a1; a2; a3] ++ replicate 3 0 ++ [nr] ++ replicate 14 0.

(** [readlinkat("/proc/self/exe")], the path at 0x12000. *)
Definition example_host : Process.t :=
  Process.mk _ (put_bytes (0x7f0000000000 + 0x12000) (PROC_SELF_EXE ++ [0]) (λ _, 0)) tt.

Lemma syscall_confined_witness :
  ∃ r next' h',
    handle_syscall example_space (call_regs SYS_READLINKAT (u64 (-100)) 0x12000 0x3ffe0000 256) 0x20000000
      [47; 97] example_host = Some ((r, example_space, next'), h') ∧
    next' = 0x20000000 ∧ (∀ x, x < 0x3ffe0000 ∨ 0x3ffe0002 ≤ x →
      Process.mem h' (0x7f0000000000 + x) = Process.mem example_host (0x7f0000000000 + x)).
Proof.
  assert (accesses example_space (call_regs SYS_READLINKAT (u64 (-100)) 0x12000 0x3ffe0000 256) 0x20000000
    [47; 97] (Process.mem example_host) = ([0x12000; 0x3ffe0000], (0x3ffe0000, 0x3ffe0002))) as Hacc
    by (vm_compute; reflexivity).
  pose proof (syscall_confined example_space
    (call_regs SYS_READLINKAT (u64 (-100)) 0x12000 0x3ffe0000 256) 0x20000000 [47; 97] example_host) as Hc.
  rewrite Hacc in Hc. apply Hc.
  - split; [reflexivity|]. repeat constructor; vm_compute; (discriminate || reflexivity).
  - discriminate.
  - repeat constructor.
Defined.

(** The result of a call and the byte at a guest address before and after it. *)
Definition byte_across (regs : list Z) (next a : Z) : option (SyscallResult.t * Z * Z) :=
  (λ '(r, _, _, h'), (r, Process.mem DemoLibc.host (0x7f0000000000 + a), Process.mem h' (0x7f0000000000 + a)))
    <$> handle_syscall example_space regs next [] DemoLibc.host.

(** [g2h] checks one address: [getrandom] on a buffer that starts on the last page of the guest
    clears host memory past the end of the guest's. *)
Lemma getrandom_escapes :
  byte_across (call_regs SYS_GETRANDOM 0x3ffff000 0x2000 0 0) 0 GUEST_SPACE_SIZE =
  Some (SyscallResult.Continue 0x2000, 0xaa, 0).
Proof. vm_compute. reflexivity. Qed.

(** An [mmap] without a hint takes the next addresses whatever is there: here, the stack. *)
Lemma mmap_takes_stack :
  byte_across (call_regs SYS_MMAP 0 0x20000000 3 0) 0x20000000 (GUEST_STACK_TOP - 8) =
  Some (SyscallResult.Continue 0x20000000, 0xaa, 0).
Proof. vm_compute. reflexivity. Qed.

(** A pointer outside the guest's memory stops the emulator. *)
Lemma bad_pointer_panics fd len :
  handle_syscall example_space (call_regs SYS_WRITE fd GUEST_SPACE_SIZE len 0) 0 [] DemoLibc.host = None.
Proof. reflexivity. Qed.
