(* ===== verification/Engine.v ===== *)
(** * The engine on the x86-64 backend (exec/src/lib.rs, exec/src/exec_loop.rs)

    Exec.v takes the last stage of translation, the register allocator over a host code
    generator, as a function of the context and the buffer.  Here that function is the
    allocator over the x86-64 generator, and [ExecEnv::new] makes the state the loop starts in. *)

From S2P Require Import Prelude Types Opcodes Ir Tb CodeBuffer TbStore Exec.
From S2P Require Import X86Regs Constraint X86Emit HostCodeGen X86CodeGen RegAlloc.

(** [clear_goto_tb_offsets], [regalloc_and_codegen] and [goto_tb_offsets], as [tb_gen_code] and
    [translate] call them; the generator is shared and otherwise stays what it is. *)
Definition codegen {G : Type} `{HostCodeGen G} (backend : G) (ctx : Context) (buf : CodeBuffer)
  : option (Context * CodeBuffer * list (Z * Z)) :=
  '(ctx, g, buf) ← regalloc_and_codegen ctx (clear_goto_tb_offsets backend) buf;
  Some (ctx, buf, goto_tb_offsets g).

Definition CODE_BUF_SIZE : Z := 16 * 1024 * 1024.

(** [ExecEnv::new]: the generator with its offsets, and the states; [page_size] and [mmap_ok] are
    what the system answers. *)
Definition exec_env_new {G : Type} `{HostCodeGen G} (page_size : Z) (mmap_ok : bool) (backend : G)
  : option (G * SharedState * PerCpuState) :=
  code_buf ← code_buffer_new page_size mmap_ok CODE_BUF_SIZE;
  '(backend, code_buf) ← emit_prologue backend code_buf;
  '(backend, code_buf) ← emit_epilogue backend code_buf;
  let ir_ctx := init_context backend context_new in
  Some (backend, mkShared TbStore.new code_buf ir_ctx, mkPerCpu JumpCache.new stats_default).
