(* ===== verification/EngineSound.v ===== *)
(** * The engine on a lawful code generator

    The allocator over any code generator that meets [HostCodeGenLaws] gives what the execution loop
    relies on: a block is appended, branch fixups stay inside it and off its [goto_tb] jumps.  With
    the x86-64 backend and the guest of linux-user the loop is safe as it is put together. *)

From S2P Require Import Prelude Types Opcodes Ir PassLabels Tb CodeBuffer TbStore Chain Exec X86Regs Constraint X86Emit HostCodeGen.
From S2P Require Import X86CodeGen RegAlloc Emission Engine.

Section allocator.
Context {G : Type} `{HostCodeGenLaws G, !JumpCodeLaws}.

(** A recorded jump of the block that starts at [o]. *)
Definition site_ok (o : Z) (b : CodeBuffer) (s : Z * Z) : Prop :=
  o ≤ s.1 ∧ s.1 + jump_size ≤ offset b ∧ 0 ≤ s.2 ≤ capacity b ∧ jump_target b s.1 = Some s.2.

Definition apart (a n a' n' : Z) : Prop := a + n ≤ a' ∨ a' + n' ≤ a.

(** A displacement of the block to be filled in. *)
Definition use_ok (o : Z) (b : CodeBuffer) (sites : list (Z * Z)) (u : LabelUse.t) : Prop :=
  o ≤ LabelUse.offset u ∧ LabelUse.offset u + 4 ≤ offset b ∧
  Forall (λ s, apart (LabelUse.offset u) 4 s.1 jump_size) sites.

Record block_inv (b0 : CodeBuffer) (s : Alloc (G := G)) : Prop := {
  bi_extends : extends b0 (buf s);
  bi_sites : Forall (site_ok (offset b0) (buf s)) (goto_tb_offsets (backend s));
  bi_apart i i' s1 s2 :
    i ≠ i' → goto_tb_offsets (backend s) !! i = Some s1 → goto_tb_offsets (backend s) !! i' = Some s2 →
    apart s1.1 jump_size s2.1 jump_size;
  bi_uses : Forall (λ l, Forall (use_ok (offset b0) (buf s) (goto_tb_offsets (backend s))) (Label.uses l))
              (labels (ctx s))
}.

(** ** What keeps the invariant *)

Variable b0 : CodeBuffer.
Hypothesis Hwf0 : wf_buffer b0.

Definition keeps {A} (m : M (G := G) A) : Prop :=
  ∀ s a s', m s = Some (a, s') → block_inv b0 s → block_inv b0 s'.

Lemma keeps_ret {A} (a : A) : keeps (mret a).
Proof. intros s x s' Hm Hi. by injection Hm as <- <-. Qed.

Lemma keeps_bind {A B} (m : M A) (f : A → M B) : keeps m → (∀ a, keeps (f a)) → keeps (m ≫= f).
Proof.
  intros Hm Hf s b s' Hb Hi. unfold mbind, alloc_bind in Hb. apply bind_Some in Hb as ([a s1] & Hs1 & Hb).
  eapply Hf; [exact Hb|]. by eapply Hm.
Qed.

Lemma keeps_lift {A} (o : option A) : keeps (lift o).
Proof. intros s a s' Hm Hi. apply bind_Some in Hm as (x & _ & Hm). by injection Hm as <- <-. Qed.

Lemma keeps_get {A} (f : Alloc → A) : keeps (get f).
Proof. intros s a s' Hm Hi. by injection Hm as <- <-. Qed.

Lemma keeps_panic {A} : keeps (panic (A := A)).
Proof. by intros s a s' [=]. Qed.

(** Anything but the buffer, the recorded jumps and the labels. *)
Lemma block_inv_same s s' :
  buf s' = buf s → backend s' = backend s → labels (ctx s') = labels (ctx s) → block_inv b0 s → block_inv b0 s'.
Proof. intros Hb Hg Hl [? ? ? ?]. split; rewrite ?Hb, ?Hg, ?Hl; done. Qed.

Lemma keeps_get_temp i : keeps (get_temp i).
Proof. intros s t s' Hm Hi. apply bind_Some in Hm as (x & _ & Hm). by injection Hm as <- <-. Qed.

Lemma keeps_get_label i : keeps (get_label i).
Proof. intros s t s' Hm Hi. apply bind_Some in Hm as (x & _ & Hm). by injection Hm as <- <-. Qed.

Lemma keeps_upd_state f : keeps (upd_state f).
Proof. intros s a s' Hm Hi. apply bind_Some in Hm as (x & _ & Hm). injection Hm as <- <-. by apply (block_inv_same s). Qed.

Lemma temp_mut_labels c i f c' : temp_mut c i f = Some c' → labels c' = labels c.
Proof. intros Hm. apply bind_Some in Hm as (t & _ & Hm). apply bind_Some in Hm as (ts & _ & Hm). by injection Hm as <-. Qed.

Lemma keeps_upd_temp i f : keeps (upd_temp i f).
Proof.
  intros s a s' Hm Hi. apply bind_Some in Hm as (c & Hc & Hm). injection Hm as <- <-.
  apply temp_mut_labels in Hc. by apply (block_inv_same s).
Qed.

Lemma keeps_alloc_frame i : keeps (alloc_frame i).
Proof.
  intros s a s' Hm Hi. apply bind_Some in Hm as ([off c] & Hc & Hm). injection Hm as <- <-.
  assert (labels c = labels (ctx s)) as Hl; [|by apply (block_inv_same s)].
  unfold alloc_temp_frame in Hc. apply bind_Some in Hc as (t & _ & Hc).
  destruct (Temp.mem_allocated t); [by injection Hc as _ <-|]. cbv zeta in Hc.
  destruct (_ <=? _); [|done]. apply bind_Some in Hc as (c' & Hc' & Hc). injection Hc as _ <-.
  by apply temp_mut_labels in Hc'.
Qed.

(** Appending keeps what is recorded. *)
Lemma site_ok_extends b b' s : 0 ≤ offset b0 → extends b b' → site_ok (offset b0) b s → site_ok (offset b0) b' s.
Proof.
  intros Ho [_ Hc Hoff Hf] (Hs1 & Hs2 & Hs3 & Hs4). unfold site_ok. rewrite Hc. split_and!; [done|lia|lia|lia|].
  rewrite (target_ext b b') by (done || lia || (intros i Hi; apply Hf; lia)). done.
Qed.

Lemma use_ok_extends b b' sites u : extends b b' → use_ok (offset b0) b sites u → use_ok (offset b0) b' sites u.
Proof. intros [_ _ Hoff _] (? & ? & ?). split_and!; [done|lia|done]. Qed.

Lemma block_inv_extends s s' :
  extends (buf s) (buf s') → backend s' = backend s → labels (ctx s') = labels (ctx s) →
  block_inv b0 s → block_inv b0 s'.
Proof.
  intros He Hg Hl [Hx Hs Ha Hu]. pose proof (wb_offset _ Hwf0) as Ho. split; rewrite ?Hg, ?Hl.
  - by eapply extends_trans.
  - eapply Forall_impl; [exact Hs|]. intros. apply (site_ok_extends (buf s)); (done || lia).
  - done.
  - eapply Forall_impl; [exact Hu|]. intros l Hl'. eapply Forall_impl; [exact Hl'|].
    intros u. by apply use_ok_extends.
Qed.

Lemma keeps_out f : (∀ g b, adds b (f g b)) → keeps (out f).
Proof.
  intros Hf s a s' Hm Hi. apply bind_Some in Hm as (b & Hb & Hm). injection Hm as <- <-.
  apply (block_inv_extends s); [|done..]. cbn [buf]. eapply Hf; [exact Hb|apply Hi].
Qed.

(** A recorded jump joins the others. *)
Lemma keeps_emit_op op oregs iregs cargs : keeps (emit_op_code op oregs iregs cargs).
Proof.
  intros s a s' Hm Hi. apply bind_Some in Hm as ([g b] & Hb & Hm). injection Hm as <- <-.
  destruct (law_op _ _ _ _ _ _ _ _ _ Hb ltac:(apply Hi)) as [He Hg].
  pose proof (wb_offset _ Hwf0) as Ho. pose proof Hi as [Hx Hs Ha Hu].
  set (s1 := mkAlloc (ctx s) (state s) (backend s) b).
  assert (block_inv b0 s1) as [Hx1 Hs1 Ha1 Hu1] by (by apply (block_inv_extends s)).
  destruct Hg as [Hg|(_ & j & r & Hg & Hj1 & Hj2 & Hr & Ht)]; split; cbn [buf backend ctx s1] in *; rewrite ?Hg; try done.
  - apply Forall_app. split; [done|]. constructor; [|done].
    pose proof (ex_capacity _ _ He). pose proof (ex_offset _ _ Hx). split_and!; cbn [fst snd]; (done || lia).
  - rewrite Forall_forall in Hs. pose proof jump_size_pos.
    assert (∀ i s1, goto_tb_offsets (backend s) !! i = Some s1 → s1.1 + jump_size ≤ j) as Hlt.
    { intros i s2 Hlk. destruct (Hs s2 ltac:(by eapply list_elem_of_lookup_2)) as (_ & ? & _). lia. }
    intros i i' s1' s2' Hne Hl1 Hl2. apply lookup_app_Some in Hl1, Hl2. unfold apart.
    destruct Hl1 as [Hl1|[Hi1 Hl1]], Hl2 as [Hl2|[Hi2 Hl2]].
    + by eapply Ha.
    + apply list_lookup_singleton_Some in Hl2 as [_ <-]. left. cbn [fst]. by eapply Hlt.
    + apply list_lookup_singleton_Some in Hl1 as [_ <-]. right. cbn [fst]. by eapply Hlt.
    + apply list_lookup_singleton_Some in Hl1 as [? _], Hl2 as [? _]. lia.
  - eapply Forall_impl; [exact Hu|]. intros l Hl. eapply Forall_impl; [exact Hl|].
    intros u (? & ? & ?). pose proof (ex_offset _ _ He). split_and!; [done|lia|].
    apply Forall_app. split; [done|]. constructor; [|done]. left. cbn [fst]. lia.
Qed.

Lemma keeps_for_each {A B} (f : A → B → M A) l acc : (∀ a x, keeps (f a x)) → keeps (for_each f l acc).
Proof.
  intros Hf. revert acc. induction l as [|x l IH]; intros acc; cbn [for_each]; [apply keeps_ret|].
  apply keeps_bind; [apply Hf|exact IH].
Qed.

Lemma keeps_for_all {B} (f : B → M unit) l : (∀ x, keeps (f x)) → keeps (for_all f l).
Proof. intros Hf. apply keeps_for_each. intros _ x. apply Hf. Qed.

#[local] Hint Extern 0 (adds _ (tcg_out_mov _ _ _ _ _)) => apply law_mov : adds.
#[local] Hint Extern 0 (adds _ (tcg_out_movi _ _ _ _ _)) => apply law_movi : adds.
#[local] Hint Extern 0 (adds _ (tcg_out_ld _ _ _ _ _ _)) => apply law_ld : adds.
#[local] Hint Extern 0 (adds _ (tcg_out_st _ _ _ _ _ _)) => apply law_st : adds.
#[local] Hint Resolve keeps_lift keeps_get keeps_panic keeps_ret keeps_upd_temp keeps_upd_state keeps_alloc_frame
  keeps_emit_op keeps_get_temp keeps_get_label : keeps.

(** Follow the structure of an operation. *)
Ltac keeps :=
  cbv zeta;
  first [solve [auto 1 with keeps nocore]|lazymatch goal with
  | |- keeps (@mbind _ _ _ _ _ _) => apply keeps_bind; [keeps|intros; keeps]
  | |- keeps (out _) => apply keeps_out; intros; adds
  | |- keeps (for_each _ _ _) => apply keeps_for_each; intros; keeps
  | |- keeps (for_all _ _) => apply keeps_for_all; intros; keeps
  | |- keeps ((λ _, _) _) => cbv beta; keeps
  | |- keeps (if ?c then _ else _) => destruct c; keeps
  | |- keeps (match ?x with _ => _ end) => destruct x; keeps
  | |- keeps ?m => let f := head_of m in unfold f; keeps
  end].

Lemma keeps_sync tidx : keeps (temp_sync tidx).
Proof. keeps. Qed.
#[local] Hint Resolve keeps_sync : keeps.

Lemma keeps_sync_globals : keeps sync_globals.
Proof. keeps. Qed.

Lemma keeps_evict reg : keeps (evict_reg reg).
Proof. keeps. Qed.
#[local] Hint Resolve keeps_sync_globals keeps_evict : keeps.

Lemma keeps_reg_alloc required forbidden preferred : keeps (reg_alloc required forbidden preferred).
Proof. keeps. Qed.

Lemma keeps_load_mem temp reg : keeps (load_mem temp reg).
Proof. keeps. Qed.
#[local] Hint Resolve keeps_reg_alloc keeps_load_mem : keeps.

Lemma keeps_temp_load tidx required forbidden preferred : keeps (temp_load_to tidx required forbidden preferred).
Proof. keeps. Qed.

Lemma keeps_temp_dead tidx : keeps (temp_dead tidx).
Proof. keeps. Qed.

Lemma keeps_temp_dead_input tidx : keeps (temp_dead_input tidx).
Proof. keeps. Qed.
#[local] Hint Resolve keeps_temp_load keeps_temp_dead keeps_temp_dead_input : keeps.

Lemma keeps_call op ct : keeps (regalloc_call op ct).
Proof. keeps. Qed.

Lemma keeps_process_input op ct acc i : keeps (process_input op ct acc i).
Proof. keeps. Qed.

Lemma keeps_process_output op ct r a u acc k : keeps (process_output op ct r a u acc k).
Proof. keeps. Qed.
#[local] Hint Resolve keeps_process_input keeps_process_output : keeps.

Lemma keeps_op op ct : keeps (regalloc_op op ct).
Proof. keeps. Qed.

Lemma keeps_mov op : keeps (alloc_mov op).
Proof. keeps. Qed.

Lemma keeps_exit op : keeps (alloc_exit op).
Proof. keeps. Qed.

Lemma keeps_goto_ptr op : keeps (alloc_goto_ptr op).
Proof. keeps. Qed.

Lemma keeps_init : keeps init_fixed.
Proof. keeps. Qed.

(** ** Labels and branches *)

Lemma patch_keeps u v s b :
  block_inv b0 s → use_ok (offset b0) (buf s) (goto_tb_offsets (backend s)) u →
  patch_u32 (buf s) (LabelUse.offset u) v = Some b →
  block_inv b0 (mkAlloc (ctx s) (state s) (backend s) b) ∧ offset b = offset (buf s).
Proof.
  intros [Hx Hs Ha Hu] (Hu1 & Hu2 & Hu3) Hp. pose proof (wb_offset _ Hwf0) as Ho.
  apply patch_u32_spec in Hp as (Hoff & Hc & Hw & _ & Hm); [|lia]. split; [|done]. split; cbn [buf backend ctx].
  - destruct Hx as [? ? ? Hf]. split; [auto|congruence|congruence|]. intros i Hi. rewrite Hm, Hf by lia. done.
  - rewrite Forall_forall in Hs, Hu3 |- *. intros x Hin. destruct (Hs x Hin) as (? & ? & ? & ?).
    pose proof (Hu3 x Hin) as Hap. unfold site_ok. rewrite Hoff, Hc. split_and!; [lia..|].
    rewrite (target_ext (buf s)) by (lia || (intros i Hi; apply Hm; unfold apart in Hap; lia)). done.
  - done.
  - unfold use_ok in *. by rewrite Hoff.
Qed.

Definition uses_ok (s : Alloc) (us : list LabelUse.t) : Prop :=
  Forall (use_ok (offset b0) (buf s) (goto_tb_offsets (backend s))) us.

Lemma patch_uses f us s a s' :
  (∀ u, ∃ v, f u = out (λ _ b, patch_u32 b (LabelUse.offset u) v)) → for_all f us s = Some (a, s') →
  block_inv b0 s → uses_ok s us → block_inv b0 s'.
Proof.
  intros Hf. unfold for_all. generalize tt at 1 as acc. intros acc. revert acc s.
  induction us as [|u us IH]; intros acc s Hm Hi Hus; cbn [for_each] in Hm; [by injection Hm as <- <-|].
  unfold mbind, alloc_bind in Hm. apply bind_Some in Hm as ([x s1] & Hs1 & Hm). destruct (Hf u) as [v Hv].
  rewrite Hv in Hs1. apply bind_Some in Hs1 as (b & Hb & Hs1). injection Hs1 as <- <-.
  apply Forall_cons in Hus as [Hu Hus]. destruct (patch_keeps _ _ _ _ Hi Hu Hb) as [Hi1 Ho1].
  eapply IH; [exact Hm|exact Hi1|]. unfold uses_ok, use_ok in *. cbn [buf backend]. by rewrite Ho1.
Qed.

(** Changing one label. *)
Lemma upd_label_keeps i f s a s' :
  upd_label i f s = Some (a, s') → block_inv b0 s →
  (∀ l, uses_ok s (Label.uses l) → uses_ok s (Label.uses (f l))) →
  block_inv b0 s' ∧ buf s' = buf s ∧ backend s' = backend s.
Proof.
  intros Hm [Hx Hs Ha Hu] Hf. apply bind_Some in Hm as (c & Hc & Hm). injection Hm as <- <-.
  split; [|done]. split; cbn [buf backend ctx]; try done. unfold label_mut in Hc.
  apply bind_Some in Hc as (l & Hl & Hc). apply bind_Some in Hc as (ls & Hz & Hc). injection Hc as <-. cbn [labels set_labels].
  unfold zinsert in Hz. case_match; [|done]. injection Hz as <-. apply Forall_insert; [done|].
  apply Hf. rewrite Forall_forall in Hu. apply Hu. unfold zlookup in Hl. case_match; [|done].
  by eapply list_elem_of_lookup_2.
Qed.

Lemma label_uses_ok s i l : block_inv b0 s → label (ctx s) i = Some l → uses_ok s (Label.uses l).
Proof.
  intros [_ _ _ Hu] Hl. rewrite Forall_forall in Hu. apply Hu. unfold label, zlookup in Hl. case_match; [|done].
  by eapply list_elem_of_lookup_2.
Qed.

Lemma keeps_upd_label i f : (∀ l, Label.uses (f l) = Label.uses l ∨ Label.uses (f l) = []) → keeps (upd_label i f).
Proof.
  intros Hf s a s' Hm Hi. eapply upd_label_keeps; [exact Hm|done|]. intros l Hl.
  destruct (Hf l) as [->| ->]; [done|constructor].
Qed.

Lemma keeps_set_label op : keeps (alloc_set_label op).
Proof.
  unfold alloc_set_label. apply keeps_bind; [keeps|intros i]. apply keeps_bind; [keeps|intros _].
  apply keeps_bind; [keeps|intros off]. apply keeps_bind; [by apply keeps_upd_label; left|intros _].
  intros s a s' Hm Hi. unfold mbind, alloc_bind in Hm. apply bind_Some in Hm as ([l s1] & Hl & Hm).
  apply bind_Some in Hl as (l' & Hl & Hl'). injection Hl' as -> ->. pose proof (label_uses_ok _ _ _ Hi Hl) as Hus.
  apply bind_Some in Hm as ([x s2] & Hd & Hm).
  destruct (upd_label_keeps _ _ _ _ _ Hd Hi) as (Hi2 & Hb2 & Hg2); [intros; constructor|].
  eapply patch_uses; [|exact Hm|exact Hi2|unfold uses_ok; by rewrite Hb2, Hg2].
  intros u. cbv beta. destruct (LabelUse.kind u). by eexists.
Qed.

(** A use of four bytes just emitted. *)
Lemma add_use_keeps i off k s s1 a s' :
  upd_label i (λ l, Label.add_use l off k) s1 = Some (a, s') → block_inv b0 s → block_inv b0 s1 →
  goto_tb_offsets (backend s1) = goto_tb_offsets (backend s) → offset (buf s) ≤ off → off + 4 ≤ offset (buf s1) →
  block_inv b0 s'.
Proof.
  intros Hm Hi Hi1 Hg Hlo Hhi. eapply upd_label_keeps; [exact Hm|exact Hi1|]. intros l Hl.
  apply Forall_app. split; [done|]. constructor; [|done]. unfold use_ok. cbn [LabelUse.offset].
  pose proof (ex_offset _ _ (bi_extends _ _ Hi)). split_and!; [lia|done|]. rewrite Hg.
  eapply Forall_impl; [apply (bi_sites _ _ Hi)|]. intros x (_ & ? & _). right. lia.
Qed.

Lemma keeps_br op : keeps (alloc_br op).
Proof.
  unfold alloc_br. apply keeps_bind; [keeps|intros i]. apply keeps_bind; [keeps|intros _].
  apply keeps_bind; [keeps|intros l]. destruct (Label.has_value l); [keeps|].
  intros s a s' Hm Hi. unfold mbind, alloc_bind, get in Hm. cbn [mbind option_bind] in Hm.
  apply bind_Some in Hm as ([x s1] & Hs1 & Hm). apply bind_Some in Hm as ([y s2] & Hs2 & Hm).
  assert (block_inv b0 s1) as Hi1 by (eapply (keeps_out (λ _ b, emit_u8 b 0xE9)); [intros; adds|exact Hs1|done]).
  assert (block_inv b0 s2) as Hi2 by (eapply (keeps_out (λ _ b, emit_u32 b 0)); [intros; adds|exact Hs2|done]).
  apply bind_Some in Hs2 as (b & Hb & Hs2). injection Hs2 as <- <-. apply emit_u32_room in Hb.
  apply bind_Some in Hs1 as (b1 & Hb1 & Hs1). injection Hs1 as <- <-. cbn [buf backend] in *.
  pose proof (adds_u8 _ _ _ Hb1 (ex_wf _ _ (bi_extends _ _ Hi))) as [_ _ Ho1 _].
  eapply (add_use_keeps _ _ _ s); [exact Hm|done|done|done|done|]. cbn [buf]. lia.
Qed.

Lemma keeps_brcond op : Op.opc op = Opcode.BrCond → keeps (alloc_brcond op).
Proof.
  intros Hop. unfold alloc_brcond. apply keeps_bind; [keeps|intros ct]. cbv zeta.
  apply keeps_bind; [keeps|intros [iregs al]]. apply keeps_bind; [keeps|intros cargs].
  apply keeps_bind; [keeps|intros _]. apply keeps_bind; [keeps|intros _].
  intros s a s' Hm Hi. unfold mbind, alloc_bind in Hm.
  apply bind_Some in Hm as ([i si] & Hs0 & Hm). apply bind_Some in Hs0 as (i' & Hl & [= -> <-]).
  apply bind_Some in Hm as ([l sl] & Hs0 & Hm). apply bind_Some in Hs0 as (l' & Hlab & [= -> <-]).
  apply bind_Some in Hm as ([x s1] & Hs1 & Hm).
  pose proof (keeps_emit_op _ _ _ _ _ _ _ Hs1 Hi) as Hi1.
  destruct (Label.has_value l) eqn:Hv; cbn [negb] in Hm; [by injection Hm as <- <-|].
  apply bind_Some in Hs1 as ([g b] & Hb & Hs1). injection Hs1 as <- <-. unfold get in Hm. cbn [mbind option_bind] in Hm.
  pose proof (ex_wf _ _ (bi_extends _ _ Hi)) as Hwf.
  destruct (law_op _ _ _ _ _ _ _ _ _ Hb Hwf) as [_ [Hg|[? _]]]; [|congruence].
  pose proof (law_brcond _ _ _ _ _ _ _ _ _ _ _ Hb Hwf Hop Hl Hlab Hv). cbn [buf backend] in *.
  eapply (add_use_keeps _ _ _ s); [exact Hm|done|done|done|lia|]. cbn [buf]. lia.
Qed.

#[local] Hint Resolve keeps_op keeps_call keeps_mov keeps_exit keeps_goto_ptr keeps_set_label keeps_br : keeps.

Lemma keeps_default op :
  keeps (ct ← get_constraint op; _ ← regalloc_op op ct;
         if OpFlags.contains (def_flags (def (Op.opc op))) OpFlags.BB_END then sync_globals else mret tt).
Proof. keeps. Qed.

Lemma keeps_step op : keeps (alloc_step op).
Proof.
  pose proof (keeps_default op) as Hd. unfold alloc_step in *.
  destruct (Op.opc op) eqn:Hop; try exact Hd; clear Hd; first [by apply keeps_brcond|keeps].
Qed.
#[local] Hint Resolve keeps_step keeps_init : keeps.

Lemma keeps_block : keeps alloc_block.
Proof. keeps. Qed.

Lemma block_inv_start c g :
  fresh_labels c → block_inv b0 (mkAlloc c (RegAllocState.new ALLOCATABLE_REGS) (clear_goto_tb_offsets g) b0).
Proof.
  intros Hf. split; cbn [buf backend ctx]; rewrite ?law_clear.
  - by apply extends_refl.
  - done.
  - done.
  - eapply Forall_impl; [exact Hf|]. intros l Hl. cbv beta in *. by rewrite Hl.
Qed.
End allocator.

(** The last stage of translation on any lawful code generator is what the execution loop relies on. *)
Lemma codegen_contract {G : Type} `{HostCodeGenLaws G, !JumpCodeLaws} (g : G) : codegen_ok (codegen g).
Proof.
  intros c b c' b' offs Hc Hf Hwf Hcap. apply bind_Some in Hc as ([[c1 g1] b1] & Hr & Hc).
  injection Hc as -> -> <-. apply bind_Some in Hr as ([u s] & Hr & Hc). injection Hc as <- <- <-.
  pose proof (keeps_block b Hwf _ _ _ Hr (block_inv_start b Hwf c g Hf)) as [[Hw Hc Ho Hm] Hs Ha _].
  split; [done|]. split; [done|]. split; [done|]. split; [done|]. split.
  - intros i j r Hi. rewrite Forall_forall in Hs. unfold zlookup in Hi. case_match; [|done].
    destruct (Hs (j, r)) as (? & ? & Hr2 & ?); [by eapply list_elem_of_lookup_2|]. cbn [fst snd] in *.
    rewrite Hc in Hr2. destruct Hr2. by split_and!.
  - intros i j r i' j' r' Hne Hi Hi'. unfold zlookup in Hi, Hi'. repeat case_match; try done.
    apply (Ha _ _ _ _ (ltac:(boolp; lia) : Z.to_nat i ≠ Z.to_nat i') Hi Hi').
Qed.

(** ** The state the loop starts in *)

Lemma round_to_page_range page_size size :
  0 < page_size → 0 ≤ size → 0 ≤ round_to_page page_size size ≤ size + page_size - 1.
Proof.
  intros Hp Hs. unfold round_to_page. split; [apply Z.land_nonneg; lia|].
  pose proof (Z.sub_land_same_l (size + page_size - 1) (Z.lnot (page_size - 1))).
  assert (0 ≤ Z.land (size + page_size - 1) (Z.lnot (Z.lnot (page_size - 1)))) by (apply Z.land_nonneg; lia). lia.
Qed.

Lemma code_buffer_new_wf page_size mmap_ok size b :
  0 < page_size → 0 ≤ size → code_buffer_new page_size mmap_ok size = Some b →
  wf_buffer b ∧ capacity b ≤ size + page_size - 1.
Proof.
  intros Hp Hs Hb. pose proof (round_to_page_range page_size size Hp Hs) as Hr. unfold code_buffer_new in Hb.
  destruct (_ =? 0); [done|]. destruct mmap_ok; [|done]. injection Hb as <-.
  unfold capacity, zlen. cbn [mem]. rewrite length_replicate. split; [|lia]. split.
  - cbn [offset]. unfold capacity, zlen. cbn [mem]. rewrite length_replicate. lia.
  - by apply Forall_replicate.
Qed.

(** A new engine, with any guest CPU, is in a consistent state: no block yet. *)
Lemma exec_env_new_inv {G C : Type} `{HostCodeGenLaws G, !JumpCodeLaws, GuestCpu C} page_size mmap_ok (g g' : G) sh pc (c : C) :
  0 < page_size ≤ 2 ^ 30 → exec_env_new page_size mmap_ok g = Some (g', sh, pc) → exec_inv (mkExec sh pc c) [].
Proof.
  intros Hp He. apply bind_Some in He as (b & Hb & He). apply bind_Some in He as ([g1 b1] & Hpro & He).
  apply bind_Some in He as ([g2 b2] & Hepi & He). injection He as _ <- <-.
  apply code_buffer_new_wf in Hb as [Hwf Hc]; [|lia|done].
  apply law_prologue in Hpro as [Hwf1 Hc1 _ _]; [|done]. apply law_epilogue in Hepi as [Hwf2 Hc2 _ _]; [|done].
  apply exec_inv_empty; [done|]. unfold CODE_BUF_SIZE in Hc. lia.
Qed.
