(* ===== verification/Linux.v ===== *)
(** * The emulator (linux-user/src/main.rs)

    [main]: load the program, then run guest code and serve its system calls until it exits.
    The guest is a CPU and the process it lives in, whose memory the translator fetches from and
    the generated code works on.  [main] stops the process with a status; its messages and the
    statistics it can print are not modelled. *)

From S2P Require Import Prelude Types Ir Tb CodeBuffer Exec X86Regs X86Emit HostCodeGen X86CodeGen Engine.
From S2P Require Import RiscvCpu RiscvTrans RiscvTb RiscvDecode GuestSpace Elf Loader LoaderSound Syscall SyscallSound.

Section linux.
Context `{Libc, HelperAddr}.

(** The CPU and the process. *)
Definition Guest : Type := LinuxCpu.t * Process.t.

Definition set_regs (c : LinuxCpu.t) (gpr : list Z) (pc guest_base : Z) : LinuxCpu.t :=
  let r := LinuxCpu.cpu c in
  LinuxCpu.mk (RiscvCpu.mk gpr (RiscvCpu.fpr r) pc guest_base (RiscvCpu.load_res r) (RiscvCpu.load_val r)
    (RiscvCpu.fflags r) (RiscvCpu.frm r) (RiscvCpu.ustatus r) (RiscvCpu.uie r) (RiscvCpu.utvec r)
    (RiscvCpu.uscratch r) (RiscvCpu.uepc r) (RiscvCpu.ucause r) (RiscvCpu.utval r) (RiscvCpu.uip r))
    (LinuxCpu.cfg c).

(** [impl GuestCpu for LinuxCpu]: the translator fetches from the process's memory. *)
#[export] Instance linux_cpu : GuestCpu Guest := {
  get_pc g := LinuxCpu.get_pc g.1;
  get_flags g := LinuxCpu.get_flags g.1;
  gen_code g ir pc max_insns :=
    let code : CodeMemory := Process.mem g.2 in
    '(ir, size) ← LinuxCpu.gen_code (H := code) (H0 := generated) g.1 ir pc max_insns;
    Some (g, ir, size)
}.

(** The host CPU on generated code. *)
Context (run : Guest → CodeBuffer → Z → Guest * Z).

Record Machine := mkMachine {
  backend : G;
  env : ExecState (C := Guest);
  space : GuestSpace.t;
  mmap_next : Z
}.

(** [process::exit] with a code, or the next turn of the loop. *)
Inductive Status := Running (m : Machine) | Exited (code : Z).

(** The arms of [main]'s [match] on the reason. *)
Definition serve (elf_path : list Z) (m : Machine) (reason : ExitReason) : option Status :=
  match reason with
  | Exit v =>
      if v =? EXCP_ECALL then
        let '(lcpu, host) := cpu (env m) in
        '((r, space, mmap_next), host) ←
          handle_syscall (space m) (RiscvCpu.gpr (LinuxCpu.cpu lcpu)) (mmap_next m) elf_path host;
        match r with
        | SyscallResult.Continue ret =>
            gpr ← zinsert (RiscvCpu.gpr (LinuxCpu.cpu lcpu)) 10 ret;
            let lcpu := set_regs lcpu gpr (u64 (RiscvCpu.pc (LinuxCpu.cpu lcpu) + 4))
                          (RiscvCpu.guest_base (LinuxCpu.cpu lcpu)) in
            Some (Running (mkMachine (backend m) (set_cpu (lcpu, host) (env m)) space mmap_next))
        | SyscallResult.Exit code => Some (Exited code)
        end
      else if v =? EXCP_EBREAK then Some (Exited 1)
      else if v =? EXCP_UNDEF then Some (Exited 1)
      else Some (Exited 1)
  | BufferFull => Some (Exited 1)
  end.

(** One turn: at most [fuel] turns of [cpu_exec_loop], and what its exit asks for.  The machine
    at the exit comes first; no status: the guest still runs. *)
Definition turn (fuel : nat) (elf_path : list Z) (m : Machine) : option (Machine * option Status) :=
  '(e, reason) ← cpu_exec_loop (codegen (backend m)) run fuel (env m) None;
  let m := mkMachine (backend m) e (space m) (mmap_next m) in
  match reason with
  | None => Some (m, None)
  | Some reason => s ← serve elf_path m reason; Some (m, Some s)
  end.

(** [main]'s loop for [n] turns. *)
Fixpoint main_loop (n fuel : nat) (elf_path : list Z) (m : Machine) : option Status :=
  match n with
  | O => Some (Running m)
  | Datatypes.S n =>
      '(m, s) ← turn fuel elf_path m;
      match s with
      | Some (Running m) => main_loop n fuel elf_path m
      | Some (Exited code) => Some (Exited code)
      | None => Some (Running m)
      end
  end.

(** [main] up to the loop, with [RiscvCfg::default()]: [elf_path] is the resolved path, [argv] the program's arguments and
    [file] what reading it gives; [page_size] and [mmap_ok] are for the code buffer.  A failed
    [expect] is a panic. *)
Definition start (file : IoResult (list Z)) (elf_path : list Z) (argv : list (list Z)) (page_size : Z)
  (mmap_ok : bool) : HostM Machine :=
  space ← GuestSpace.new;
  space ← or_panic (match space with IoOk s => Some s | IoErr _ => None end);
  '(space, info) ← load_elf file elf_path space argv [];
  info ← or_panic (match info with inr i => Some i | inl _ => None end);
  let lcpu := LinuxCpu.mk RiscvCpu.new RiscvCfg.RV64IMAFDC in
  gpr ← or_panic (zinsert (RiscvCpu.gpr (LinuxCpu.cpu lcpu)) 2 (ElfInfo.sp info));
  let lcpu := set_regs lcpu gpr (ElfInfo.entry info) (GuestSpace.guest_base space) in
  let mmap_next := u64 (page_align_up (ElfInfo.brk info) + 0x10000000) in
  '(backend, shared, per_cpu) ← or_panic (exec_env_new page_size mmap_ok X86_64CodeGen.new);
  host_call (λ host, Some (mkMachine backend (mkExec shared per_cpu (lcpu, host)) space mmap_next, host)).

(** ** Addresses for [mmap] *)

(** The register of a result or an argument. *)
Definition gpr (m : Machine) (i : Z) : option Z := (RiscvCpu.gpr (LinuxCpu.cpu (cpu (env m)).1)).[i].

(** The regions an [mmap] without a hint asked for and was given between two states: what the guest
    finds in [a0] afterwards, and the length it asked for, in pages. *)
Definition mapped (m m' : Machine) : list (Z * Z) :=
  if bool_decide (gpr m 17 = Some SYS_MMAP ∧ gpr m 10 = Some 0)
  then [(default 0 (gpr m' 10), page_align_up (default 0 (gpr m 11)))] else [].

(** Turns of the loop, with the results of those calls. *)
Inductive turns (elf_path : list Z) : Machine → list (Z * Z) → Machine → Prop :=
  | turns_nil m : turns elf_path m [] m
  | turns_cons fuel m m1 m2 gs m3 :
      turn fuel elf_path m = Some (m1, Some (Running m2)) → turns elf_path m2 gs m3 →
      turns elf_path m (mapped m1 m2 ++ gs) m3.

Definition total (gs : list (Z * Z)) : Z := foldr (λ g n, g.2 + n) 0 gs.
End linux.

Section next.
Context `{LibcLaws}.

Lemma or_panic_Some {A} (o : option A) h a h' : or_panic o h = Some (a, h') → o = Some a ∧ h' = h.
Proof. unfold or_panic. destruct o; [|done]. cbn. by intros [= -> ->]. Qed.

(** [m; mret (r, space, next)] *)
Lemma same_next (m : HostM SyscallResult.t) (space : GuestSpace.t) (next : Z) h r space' next' h' :
  (x ← m; mret (x, space, next) : HostM _) h = Some ((r, space', next'), h') → next' = next.
Proof.
  rewrite bind_run. intros Hm. apply bind_Some in Hm as ([x h1] & _ & Hm). by injection Hm.
Qed.

(** The value of the register a call reads next. *)
Ltac argument H a :=
  rewrite bind_run in H; let Hr := fresh in
  apply bind_Some in H as ([a ?] & [Hr ->]%or_panic_Some & H); try rewrite Hr; clear Hr.

(** The call: the next address when there is no hint, and zeroed pages there if it succeeds. *)
Lemma sys_mmap_run space len prot next h r next' h' :
  sys_mmap space 0 len prot next h = Some ((r, next'), h') →
  next' = u64 (next + page_align_up len) ∧
  (r = SyscallResult.Continue (u64 (-12)) ∨
   r = SyscallResult.Continue next ∧
   ∀ x, next ≤ x < next + page_align_up len → Process.mem h' (GuestSpace.base space + x) = 0).
Proof.
  unfold sys_mmap. cbn [Z.eqb negb]. unfold GuestSpace.mmap_fixed. rewrite !bind_run. intros Hm.
  apply bind_Some in Hm as ([[u|e] h2] & Hf & Hm); injection Hm as <- <- <-; split; try done; [right|by left].
  split; [done|]. apply bind_Some in Hf as ([p h1] & [Hp ->]%or_panic_Some & Hf).
  unfold GuestSpace.g2h in Hp. destruct (next <? _); [|done]. injection Hp as <-. unfold host_call in Hf.
  pose proof (mmap_fixed_zeroes (Process.kernel h) (Process.mem h) (GuestSpace.base space + next) (page_align_up len) (i32 prot)) as Hz.
  destruct (libc_mmap _ _ _ _ _ _) as [[ret m'] k']. destruct (ret =? MAP_FAILED) eqn:E; [done|]. injection Hf as _ <-.
  boolp. destruct (Hz E) as [_ Hz0]. intros x Hx. cbn [Process.mem]. rewrite Hz0.
  destruct (page_align_up_pages len) as [Hw Hp]. rewrite (page_align_up_fixed _ Hw Hp).
  rewrite (proj2 (Z.leb_le _ _)), (proj2 (Z.ltb_lt _ _)) by lia. done.
Qed.

Lemma syscall_next space regs next elf_path h r space' next' h' :
  handle_syscall space regs next elf_path h = Some ((r, space', next'), h') →
  if bool_decide (regs.[17] = Some SYS_MMAP ∧ regs.[10] = Some 0)
  then ∃ len, regs.[11] = Some len ∧ next' = u64 (next + page_align_up len) ∧
    (r = SyscallResult.Continue (u64 (-12)) ∨
     r = SyscallResult.Continue next ∧
     ∀ x, next ≤ x < next + page_align_up len → Process.mem h' (GuestSpace.base space + x) = 0)
  else next' = next.
Proof.
  unfold handle_syscall. intros Hs.
  argument Hs nr. argument Hs a0. argument Hs a1. argument Hs a2. argument Hs a3.
  cbv zeta in Hs.
  destruct (decide (nr = SYS_MMAP)) as [->|Hnr].
  - change (SYS_MMAP =? SYS_WRITE) with false in Hs. change (SYS_MMAP =? SYS_EXIT) with false in Hs.
    change (SYS_MMAP =? SYS_EXIT_GROUP) with false in Hs. change (SYS_MMAP =? SYS_BRK) with false in Hs.
    change (SYS_MMAP =? SYS_MMAP) with true in Hs. cbn [orb] in Hs. rewrite bind_run in Hs.
    apply bind_Some in Hs as ([[x n] h1] & Hm & Hs). injection Hs as -> -> -> ->.
    destruct (decide (a0 = 0)) as [->|Ha].
    + rewrite bool_decide_eq_true_2 by done. exists a1. split; [done|]. by eapply sys_mmap_run.
    + rewrite bool_decide_eq_false_2 by (intros [_ ?]; congruence). unfold sys_mmap in Hm.
      rewrite (proj2 (Z.eqb_neq _ _)) in Hm by done. cbn [negb] in Hm. rewrite bind_run in Hm.
      by apply bind_Some in Hm as ([[u|e] h2] & _ & Hm); injection Hm as _ <- _.
  - rewrite bool_decide_eq_false_2 by (intros [? _]; congruence).
    rewrite (proj2 (Z.eqb_neq _ SYS_MMAP)) in Hs by done.
    destruct (_ =? SYS_BRK).
    { repeat case_match; try (by eapply same_next).
      rewrite bind_run in Hs. apply bind_Some in Hs as ([[x sp] h1] & _ & Hs). by injection Hs. }
    repeat case_match; by eapply same_next.
Qed.
End next.

(** ** Regions of [mmap] *)

Section regions.
Context `{LibcLaws, HelperAddr}.
Variables (run : Guest → CodeBuffer → Z → Guest * Z) (elf_path : list Z).

(** What a call gave: an error, or the pages at the next address. *)
Definition failed (g : Z * Z) : Prop := g.1 = u64 (-12).

(** Each region starts where the pages of the calls before it end. *)
Fixpoint stacked (next : Z) (gs : list (Z * Z)) : Prop :=
  match gs with [] => True | g :: gs => (failed g ∨ g.1 = next) ∧ stacked (next + g.2) gs end.

Lemma page_align_up_nonneg x : 0 ≤ page_align_up x.
Proof. apply page_align_up_pages. Qed.

Lemma turn_next fuel m m1 m2 :
  turn run fuel elf_path m = Some (m1, Some (Running m2)) →
  match mapped m1 m2 with
  | [] => mmap_next m2 = mmap_next m
  | [g] => mmap_next m2 = u64 (mmap_next m + g.2) ∧ 0 ≤ g.2 ∧
      (failed g ∨ g.1 = mmap_next m ∧
        ∀ x, g.1 ≤ x < g.1 + g.2 → Process.mem (cpu (env m2)).2 (GuestSpace.base (space m1) + x) = 0)
  | _ => False
  end.
Proof.
  unfold turn. intros Ht. apply bind_Some in Ht as ([e [reason|]] & _ & Ht); [|done].
  apply bind_Some in Ht as (s & Hs & Ht). injection Ht as <- ->.
  destruct reason as [v|]; [|done]. cbn [serve] in Hs. cbn [env mmap_next space] in *.
  destruct (v =? EXCP_ECALL); [|by repeat case_match].
  destruct (cpu e) as [lcpu host] eqn:Ecpu. apply bind_Some in Hs as ([[[r sp] nx] h'] & Hsys & Hs).
  apply syscall_next in Hsys. destruct r as [ret|]; [|done].
  apply bind_Some in Hs as (l & Hl & Hs). injection Hs as <-. cbn [mmap_next].
  unfold mapped, gpr. cbn [env set_cpu cpu]. rewrite Ecpu. cbn [fst snd set_regs LinuxCpu.cpu RiscvCpu.gpr].
  case_match; [|done]. destruct Hsys as (len & -> & -> & Hr). cbn [default from_option fst snd]. unfold id.
  apply zinsert_Some in Hl as [Hl ->]. rewrite zlookup_insert_eq by done. cbn [default from_option]. unfold id.
  split; [done|]. split; [apply page_align_up_nonneg|]. unfold failed. cbn [fst].
  destruct Hr as [[= ->]|[[= ->] Hz]]; [by left|by right].
Qed.

Lemma turns_nonneg m gs m' : turns run elf_path m gs m' → 0 ≤ total gs ∧ Forall (λ g, 0 ≤ g.2) gs.
Proof.
  induction 1 as [|fuel m m1 m2 gs m3 Ht _ [IH IHf]]; [done|]. apply turn_next in Ht.
  destruct (mapped m1 m2) as [|g [|]]; [done| |done]. destruct Ht as (_ & Hg & _).
  cbn [app total foldr]. unfold total in IH. split; [lia|by constructor].
Qed.

Lemma turns_stacked m gs m' :
  turns run elf_path m gs m' → 0 ≤ mmap_next m → mmap_next m + total gs < 2 ^ 64 →
  mmap_next m' = mmap_next m + total gs ∧ stacked (mmap_next m) gs.
Proof.
  induction 1 as [m|fuel m m1 m2 gs m3 Ht Hts IH]; intros Hlo Hhi; [cbn; split; [lia|done]|].
  apply turn_next in Ht. apply turns_nonneg in Hts as [Hn _].
  destruct (mapped m1 m2) as [|g [|]]; cbn [app] in *; [|destruct Ht as (Hm2 & Hg & Hr)|done].
  - rewrite Ht in IH. by apply IH.
  - cbn [total foldr stacked] in *. fold (total gs) in *.
    rewrite u64_small in Hm2 by lia. rewrite Hm2 in IH. destruct IH as [IH1 IH2]; [lia..|].
    split; [lia|]. split; [|done]. destruct Hr as [?|[? _]]; auto.
Qed.

Lemma stacked_lookup next gs i g : stacked next gs → gs !! i = Some g → failed g ∨ g.1 = next + total (take i gs).
Proof.
  revert next i. induction gs as [|g0 gs IH]; intros next [|i] Hs Hi; try done; destruct Hs as [Hg Hs]; cbn [take total foldr].
  - injection Hi as ->. rewrite Z.add_0_r. done.
  - destruct (IH _ _ Hs Hi) as [?| ->]; [by left|right]. unfold total. lia.
Qed.

Lemma total_take_mono gs i j :
  Forall (λ g, 0 ≤ g.2) gs → (i ≤ j)%nat → total (take i gs) ≤ total (take j gs).
Proof.
  intros Hf. revert i j. induction Hf as [|g gs Hg _ IH]; intros [|i] [|j] Hij; cbn [take total foldr]; try lia;
    fold (total (take j gs)); try fold (total (take i gs)).
  - pose proof (IH 0%nat j ltac:(lia)) as Hm. cbn [take total foldr] in Hm. change (0 ≤ g.2 + total (take j gs)). change (0 ≤ total (take j gs)) in Hm. lia.
  - pose proof (IH i j ltac:(lia)). lia.
Qed.

Lemma total_take_S gs i g : gs !! i = Some g → total (take (Datatypes.S i) gs) = total (take i gs) + g.2.
Proof.
  revert i. induction gs as [|g0 gs IH]; intros [|i] Hi; [done..| |].
  - injection Hi as ->. change (g.2 + 0 = 0 + g.2). lia.
  - change (g0.2 + total (take (Datatypes.S i) gs) = g0.2 + total (take i gs) + g.2). rewrite (IH _ Hi). lia.
Qed.
End regions.

(** C28. The addresses the guest gets for its [mmap] calls without a hint, over a run of [main]'s
    loop: the regions of those that succeed are apart from each other, each above all the earlier
    ones and from the first free address on, provided the lengths of all these calls, in pages, do
    not take the next free address past 2^64; that address is then beyond all of them.  And when such
    a call returns a region, the guest's memory there is zero.  Mappings at an address the guest
    gives, which may be anywhere, are not among them. *)
Theorem mmap_regions_disjoint `{LibcLaws, HelperAddr} run elf_path m gs m' :
  turns run elf_path m gs m' → 0 ≤ mmap_next m → mmap_next m + total gs < 2 ^ 64 →
  mmap_next m' = mmap_next m + total gs ∧
  (∀ i j g g', (i < j)%nat → gs !! i = Some g → gs !! j = Some g' → ¬ failed g → ¬ failed g' →
     mmap_next m ≤ g.1 ∧ g.1 + g.2 ≤ g'.1 ∧ g'.1 + g'.2 ≤ mmap_next m') ∧
  (∀ fuel m0 m1 m2 g, turn run fuel elf_path m0 = Some (m1, Some (Running m2)) → g ∈ mapped m1 m2 → ¬ failed g →
     g.1 = mmap_next m0 ∧
     ∀ x, g.1 ≤ x < g.1 + g.2 → Process.mem (cpu (env m2)).2 (GuestSpace.base (space m1) + x) = 0).
Proof.
  intros Ht Hlo Hhi. destruct (turns_stacked _ _ _ _ _ Ht Hlo Hhi) as [Hn Hs]. split; [done|]. split.
  - intros i j g g' Hij Hi Hj Hfg Hfg'. destruct (turns_nonneg _ _ _ _ _ Ht) as [_ Hf].
    destruct (stacked_lookup _ _ _ _ Hs Hi) as [?|Hgi]; [done|]. destruct (stacked_lookup _ _ _ _ Hs Hj) as [?|Hgj]; [done|].
    rewrite Hgi, Hgj, Hn.
    pose proof (total_take_mono gs 0 i Hf ltac:(lia)). change (total (take 0 gs)) with 0 in *.
    pose proof (total_take_mono gs (Datatypes.S i) j Hf ltac:(lia)) as Hm. rewrite (total_take_S _ _ _ Hi) in Hm.
    pose proof (total_take_mono gs (Datatypes.S j) (length gs) Hf ltac:(apply lookup_lt_Some in Hj; lia)) as Hm'.
    rewrite (total_take_S _ _ _ Hj), firstn_all in Hm'. lia.
  - intros fuel m0 m1 m2 g Hturn Hg Hfg. apply turn_next in Hturn.
    destruct (mapped m1 m2) as [|g0 [|]]; [by apply elem_of_nil in Hg| |done].
    apply list_elem_of_singleton in Hg as ->. destruct Hturn as (_ & _ & [?|?]); done.
Qed.

(** ** A run *)

(** Every instruction is [ecall]; when the code of the block runs, the guest asks for two pages. *)
Module Demo.
Import DemoLibc.

#[export] Instance helpers : HelperAddr := λ _, 0.

Definition regs : list Z := call_regs SYS_MMAP 0 0x2000 3 0.

Definition run (g : Guest) (buf : CodeBuffer) (off : Z) : Guest * Z :=
  ((set_regs g.1 regs (RiscvCpu.pc (LinuxCpu.cpu g.1)) (RiscvCpu.guest_base (LinuxCpu.cpu g.1)), g.2), EXCP_ECALL).

Definition memory : Process.t := Process.mk _ (λ x, if x mod 4 =? 0 then 0x73 else 0) tt.

Definition machine : Machine :=
  mkMachine X86_64CodeGen.new
    (mkExec (mkShared TbStore.TbStore.new (mkBuffer (replicate (Z.to_nat 8192) 0) 0) context_new)
       (mkPerCpu JumpCache.new stats_default)
       (set_regs (LinuxCpu.mk RiscvCpu.new RiscvCfg.RV64IMAFDC) regs 0x1000 0x7f0000000000, memory))
    (GuestSpace.mk 0x7f0000000000 GUEST_SPACE_SIZE 0) 0x20000000.

Definition next_turn (m : Machine) : option (Machine * Machine) :=
  match turn run 1 [] m with Some (m1, Some (Running m2)) => Some (m1, m2) | _ => None end.

Lemma next_turn_turn m m1 m2 : next_turn m = Some (m1, m2) → turn run 1 [] m = Some (m1, Some (Running m2)).
Proof. unfold next_turn. by destruct (turn run 1 [] m) as [[? [[]|]]|]; intros [= -> ->]. Qed.

(** Two turns. *)
Definition two_turns : option (Machine * Machine * Machine * Machine) :=
  '(m1, m2) ← next_turn machine; '(m3, m4) ← next_turn m2; Some (m1, m2, m3, m4).

Lemma two_turns_mapped :
  (λ '(m1, m2, m3, m4), (mapped m1 m2 ++ mapped m3 m4 ++ [], TbStore.TbStore.len (store (env m4)))) <$> two_turns =
  Some ([(0x20000000, 0x2000); (0x20002000, 0x2000)], 2).
Proof. vm_compute. reflexivity. Qed.

Lemma demo_turns :
  ∃ m, turns run [] machine [(0x20000000, 0x2000); (0x20002000, 0x2000)] m ∧ TbStore.TbStore.len (store (env m)) = 2.
Proof.
  pose proof two_turns_mapped as Hg. destruct two_turns as [[[[m1 m2] m3] m4]|] eqn:Ht; [|done].
  apply (inj Some), pair_equal_spec in Hg as [Hg Hl]. rewrite <- Hg. unfold two_turns in Ht.
  apply bind_Some in Ht as ([x x'] & Ht1%next_turn_turn & Ht).
  apply bind_Some in Ht as ([y z] & Ht2%next_turn_turn & Ht). injection Ht as -> -> -> ->.
  exists m4. split; [|exact Hl]. eapply turns_cons; [exact Ht1|]. eapply turns_cons; [exact Ht2|]. apply turns_nil.
Qed.
End Demo.

Import DemoLibc Demo.

Lemma mmap_regions_disjoint_witness :
  ∃ m', turns Demo.run [] Demo.machine [(0x20000000, 0x2000); (0x20002000, 0x2000)] m' ∧ mmap_next m' = 0x20004000 ∧
    ¬ failed (0x20000000, 0x2000) ∧ ¬ failed (0x20002000, 0x2000).
Proof.
  destruct Demo.demo_turns as (m' & Ht & _). exists m'. split; [exact Ht|].
  destruct (mmap_regions_disjoint Demo.run [] Demo.machine _ m' Ht) as [Hn _]; [discriminate|reflexivity|].
  rewrite Hn. split; [reflexivity|]. split; discriminate.
Defined.
