(* ===== verification/LinuxSound.v ===== *)
(** * The emulator as it is put together

    The guest CPU of linux-user, the translator, the passes, the register allocator and the x86-64
    backend meet what the execution loop asks of them, so the loop is safe from the first block of
    a program on, across its system calls.  What is assumed is the host: that running generated code
    gives an exit value the translator made. *)

From S2P Require Import Prelude Types Ir PassLabels Tb CodeBuffer TbStore Chain Exec X86Regs X86Emit HostCodeGen X86CodeGen.
From S2P Require Import Emission Engine EngineSound RiscvCpu RiscvTrans RiscvTb RiscvLabels RiscvDecode.
From S2P Require Import GuestSpace Elf Loader LoaderSound Syscall Linux.

Section linux.
Context `{LibcLaws, HelperAddr}.
Variables (run : Guest → CodeBuffer → Z → Guest * Z) (elf_path : list Z).

Lemma linux_gen_code_ok : gen_code_ok (C := Guest).
Proof.
  intros g c pc n g' c' size Hg. apply bind_Some in Hg as ([c1 s1] & Hg & Hr). injection Hr as <- <- <-.
  split; [done|]. by eapply gen_code_fresh.
Qed.

Lemma linux_codegen_ok (g : G) : codegen_ok (codegen g).
Proof. apply codegen_contract. Qed.

(** ** The states of a program's run *)

Definition with_env (m : Machine) (e : ExecState (C := Guest)) : Machine :=
  mkMachine (backend m) e (space m) (mmap_next m).

Abbreviation codegen_of m := (codegen (backend m)).

(** The states before each turn of the execution loop, from [m0] on. *)
Inductive live (m0 : Machine) : Machine → option Z → Prop :=
  | live_start : live m0 m0 None
  | live_turn m hint e' hint' :
      live m0 m hint → iter_step (codegen_of m) run (env m, hint) (e', hint') → live m0 (with_env m e') hint'
  | live_serve m hint e' reason m' :
      live m0 m hint → exec_iter (codegen_of m) run (env m) hint = Some (e', Return reason) →
      serve elf_path (with_env m e') reason = Some (Running m') → live m0 m' None.

(** They are the states [main_loop] goes through. *)
Lemma loop_live m0 fuel m hint e' r :
  cpu_exec_loop (codegen_of m) run fuel (env m) hint = Some (e', r) → live m0 m hint →
  match r with
  | None => ∃ hint', live m0 (with_env m e') hint'
  | Some reason => ∃ m1 hint1, live m0 m1 hint1 ∧ backend m1 = backend m ∧ with_env m1 e' = with_env m e' ∧
      exec_iter (codegen_of m1) run (env m1) hint1 = Some (e', Return reason)
  end.
Proof.
  revert m hint. induction fuel as [|fuel IH]; intros m hint Hl Hm; cbn [cpu_exec_loop] in Hl.
  - injection Hl as <- <-. exists hint. by destruct m.
  - apply bind_Some in Hl as ([e1 [h1|reason]] & Hi & Hl).
    + apply (IH (with_env m e1)) in Hl; [|by eapply live_turn]. destruct r; [|done].
      destruct Hl as (m1 & hint1 & ? & ? & ? & ?). by exists m1, hint1.
    + injection Hl as <- <-. by exists m, hint.
Qed.

Lemma turn_live m0 fuel m m1 m2 :
  turn run fuel elf_path m = Some (m1, Some (Running m2)) → live m0 m None → live m0 m2 None.
Proof.
  intros Ht Hm. apply bind_Some in Ht as ([e [reason|]] & Hl & Ht); [|done].
  apply bind_Some in Ht as (s & Hs & Ht). injection Ht as _ ->.
  apply (loop_live m0) in Hl; [|done]. destruct Hl as (m3 & hint & Hm3 & Hb & Hw & Hi).
  eapply live_serve; [exact Hm3|exact Hi|]. by rewrite Hw.
Qed.

Lemma main_loop_live m0 n fuel m m' :
  main_loop run n fuel elf_path m = Some (Running m') → live m0 m None → ∃ hint, live m0 m' hint.
Proof.
  revert m. induction n as [|n IH]; intros m Hl Hm; cbn [main_loop] in Hl; [injection Hl as <-; by eexists|].
  apply bind_Some in Hl as ([m1 [[m2|code]|]] & Ht & Hl); [|done|].
  - eapply IH; [exact Hl|]. by eapply turn_live.
  - injection Hl as <-. apply bind_Some in Ht as ([e [reason|]] & Hc & Ht).
    + by apply bind_Some in Ht as (s & _ & Ht).
    + injection Ht as <-. by eapply (loop_live m0) in Hc.
Qed.

(** ** Safety *)

(** Serving an exit changes the guest, not the engine. *)
Lemma serve_env m reason m' :
  serve elf_path m reason = Some (Running m') →
  backend m' = backend m ∧ ∃ c, env m' = set_cpu c (env m).
Proof.
  destruct reason as [v|]; [|done]. cbn [serve]. destruct (v =? EXCP_ECALL); [|by repeat case_match].
  destruct (cpu (env m)) as [lcpu host]. intros Hs. apply bind_Some in Hs as ([[[r sp] nx] h] & _ & Hs).
  destruct r as [ret|]; [|done]. apply bind_Some in Hs as (gpr & _ & Hs). injection Hs as <-. split; [done|by eexists].
Qed.

Definition exits_ok (m0 : Machine) : Prop :=
  ∀ m hint, live m0 m hint → exit_ok (codegen_of m) run (env m) hint.

Lemma live_inv m0 regs0 m hint :
  exits_ok m0 → exec_inv (env m0) regs0 → live m0 m hint →
  TbStore.len (store (env m)) + 2 ≤ TbStore.MAX_TBS → ∃ regs, exec_inv (env m) regs ∧ hint_ok (env m) hint.
Proof.
  intros Hx Hi0. induction 1 as [|m hint e' hint' Hm IH Hs|m hint e' reason m' Hm IH Hs Hv]; intros Hlen.
  - exists regs0. split; [done|]. by intros ? [=].
  - pose proof (exec_iter_len _ _ _ _ _ _ Hs) as Hl. cbn [fst] in Hl. cbn [env with_env] in *.
    destruct IH as (regs & Hi & Hh); [lia|].
    destruct (iter_step_inv (codegen_of m) run (env m) regs hint e' hint' (linux_codegen_ok _) linux_gen_code_ok Hi Hh)
      as (regs' & ? & ? & _); [by apply Hx|done|lia|eauto].
  - apply serve_env in Hv as (_ & c & He). pose proof (exec_iter_len _ _ _ _ _ _ Hs) as Hl.
    rewrite He in *. change (store (set_cpu c (env (with_env m e')))) with (store e') in Hlen.
    destruct IH as (regs & Hi & Hh); [lia|].
    pose proof (exec_iter_spec (codegen_of m) run (linux_codegen_ok _) linux_gen_code_ok _ _ _ Hi Hh (Hx _ _ Hm)) as Hc.
    rewrite Hs in Hc. destruct Hc as (regs' & Hi' & _ & _); [lia|]. exists regs'. split; [by destruct Hi'; split|].
    by intros ? [=].
Qed.

(** [start] leaves the engine consistent. *)
Lemma start_inv file argv page_size mmap_ok h m h' :
  0 < page_size ≤ 2 ^ 30 → start file elf_path argv page_size mmap_ok h = Some (m, h') → exec_inv (env m) [].
Proof.
  intros Hp. unfold start. intros Hs.
  rewrite bind_run in Hs. apply bind_Some in Hs as ([? ?] & _ & Hs).
  rewrite bind_run in Hs. apply bind_Some in Hs as ([? ?] & _ & Hs).
  rewrite bind_run in Hs. apply bind_Some in Hs as ([[sp info] ?] & _ & Hs).
  rewrite bind_run in Hs. apply bind_Some in Hs as ([? ?] & _ & Hs).
  rewrite bind_run in Hs. apply bind_Some in Hs as ([gpr ?] & _ & Hs). cbv zeta in Hs.
  rewrite bind_run in Hs. apply bind_Some in Hs as ([[[bk sh] pc] ?] & He & Hs).
  apply or_panic_Some in He as [He _]. injection Hs as <- _. by eapply exec_env_new_inv.
Qed.
End linux.

(** C7. The emulator, as it is put together, is safe.  From a consistent engine, such as a new one, and
    whatever system calls the program makes, before every turn of the execution loop that the block
    store has room for: the state is consistent, every jump of a valid block leads to valid code,
    the block the turn chooses is valid and is the code of the guest state it runs on, and if the
    turn panics, then in the translation of the next block.  The translator, the passes, the
    allocator and the x86-64 backend are the program's; assumed is that generated code, when it is
    run, exits with a value the translator made. *)
Theorem linux_loop_safe `{LibcLaws, HelperAddr} run elf_path m0 regs0 m hint :
  exits_ok run elf_path m0 → exec_inv (env m0) regs0 → live run elf_path m0 m hint →
  TbStore.len (store (env m)) + 2 ≤ TbStore.MAX_TBS →
  safe_turn (codegen (backend m)) run (env m) hint.
Proof.
  intros Hx Hi0 Hm Hl. destruct (live_inv run elf_path m0 regs0 m hint Hx Hi0 Hm Hl) as (regs & Hi & Hh).
  apply (safe_turn_inv _ _ _ regs); [apply linux_codegen_ok|apply linux_gen_code_ok|done|done|by apply Hx|done].
Qed.

Lemma turns_live `{LibcLaws, HelperAddr} run elf_path m0 m gs m' :
  turns run elf_path m gs m' → live run elf_path m0 m None → live run elf_path m0 m' None.
Proof. induction 1 as [|fuel m m1 m2 gs m3 Ht _ IH]; [done|]. intros Hm. apply IH. by eapply turn_live. Qed.

Import DemoLibc Demo.

Lemma demo_exits_ok : exits_ok Demo.run [] Demo.machine.
Proof.
  intros m hint _ e1 idx e2 raw _ Hr. apply bind_Some in Hr as (tb & _ & Hr).
  apply bind_Some in Hr as (ptr & _ & Hr). injection Hr as _ <-.
  change (decode_tb_exit EXCP_ECALL) with (@None Z, EXCP_ECALL). split; [discriminate|]. by intros i [=].
Qed.

Lemma linux_loop_safe_witness :
  ∃ m', turns Demo.run [] Demo.machine [(0x20000000, 0x2000); (0x20002000, 0x2000)] m' ∧
    jumps_ok (store (env m')) (code_buf (shared (env m'))).
Proof.
  destruct Demo.demo_turns as (m' & Ht & Hl). exists m'. split; [exact Ht|].
  destruct (linux_loop_safe Demo.run [] Demo.machine [] m' None demo_exits_ok) as (_ & Hj & _).
  - apply exec_inv_empty; [|discriminate]. split; [split; discriminate|]. by apply Forall_replicate.
  - eapply turns_live; [exact Ht|]. apply live_start.
  - rewrite Hl. discriminate.
  - exact Hj.
Defined.
